(* ===== verification/_CoqProject ===== *)
-Q . S2P
Prelude.v
Errors.v
Model.v
Sha256.v
Store.v
StoreTheory.v
StoreCoordination.v
Budget.v
Scheduler.v
SchedulerTheory.v
FairShare.v
FairShareTheory.v
Registry.v
Backends.v
Capacity.v
Admission.v
AdmissionTheory.v
Warm.v
Config.v
ConfigTheory.v
ConfigBehaviour.v
JobRetry.v
TierPolicy.v
TierRefresh.v
ServicePolicy.v
Service.v
ServiceFilters.v
ServiceTheory.v
Auth.v
AuthTheory.v
Allocate.v
AllocateTheory.v
CapacityMatrix.v
Http.v
WorkflowJob.v
Webhook.v
WebhookReconcile.v
WorkflowTheory.v
Reconcile.v
Restart.v
WarmPool.v
ReconcileTheory.v
WarmPoolTheory.v
RestartTheory.v
ServiceBehaviour.v
BackgroundBehaviour.v
WorkflowBehaviour.v
HttpBehaviour.v
WebhookBehaviour.v
WebhookReconcileTheory.v
WebhookReconcileBehaviour.v
TierBehaviour.v
Dispatcher.v
DispatcherBehaviour.v
GithubClient.v
GithubBehaviour.v
Quality.v
QualityBehaviour.v
Kubernetes.v
KubernetesTheory.v
KubernetesBehaviour.v
ExternalDispatch.v
DirectDrivers.v
ManagedRunners.v
ManagedBehaviour.v
Secrets.v
DriversBehaviour.v
Postgres.v
PostgresTheory.v
PostgresBehaviour.v
PostgresConcurrency.v
PostgresSessions.v
PostgresCompareAndSet.v
PostgresLeadership.v
Observability.v
ObservabilityBehaviour.v
Broker.v
BrokerBehaviour.v
TierClients.v
