(* ===== verification/Prelude.v ===== *)
(** * The unified ephemeral runner broker

    A verification development for the Go broker under src/internal: the
    service that hands out ephemeral GitHub Actions runners.  A client asks for
    a runner in a pool; the broker picks one of the pool's backends (Kubernetes
    ARC, Lambda, Cloud Run, ...), holds one of its slots, has the backend's
    driver provision the runner, and gives the slot back when the allocation is
    canceled, completed or swept.  Replicas share an allocation store.

    ** The parts and their files

    - Go values: Prelude.v (machine integers, times in nanoseconds, zero values,
      maps with an unspecified iteration order, ASCII strings, the tactics and
      hint databases) and Errors.v (error chains, [errors.Is], classified
      failures: internal/backend/failure.go).
    - Data: Model.v (internal/model/types.go, github_scope.go): allocations,
      pools, the whole broker configuration.
    - Stores: Store.v ([Memory] of internal/store/memory.go and inbox.go,
      [File] of file.go with the outcomes of the file system as a stream, the
      class [AllocationStore] a client sees), StoreTheory.v (its laws for both
      instances, admission under limits, retention, restarts of a file store),
      StoreCoordination.v (leader lease, webhook inbox, admission document).
    - Budgets: Budget.v (internal/budget/tracker.go), with the UTC calendar.
    - Schedulers: Scheduler.v (internal/scheduler/stateful.go, round_robin.go,
      weighted_round_robin.go and the class [Scheduler]), SchedulerTheory.v (the
      class of ledger laws and what follows from it), FairShare.v and
      FairShareTheory.v (priority_fair_share.go), Registry.v (registry.go).
    - Backends: Backends.v (internal/backend/backend.go), Capacity.v
      (internal/capacity), Admission.v and AdmissionTheory.v
      (internal/api/backend_admission.go: circuit breakers and rate limits),
      Warm.v (internal/warm and the warm bounds of the service), JobRetry.v
      (internal/api/workflow_job_retry.go), TierPolicy.v and
      TierRefresh.v (internal/tier).
    - The service, internal/api/service.go: ServicePolicy.v (pure decisions),
      Service.v (state; cancel, complete, claim, register, sweep,
      rehydration), ServiceFilters.v (the stateful filters and [reserve]),
      Allocate.v (allocateNow, the warm runners it consumes, the admission
      queue).  ServiceTheory.v and AllocateTheory.v prove the ledger invariant
      through them, ServiceBehaviour.v states it for every reachable state.
    - Workflow jobs and reports of the service: CapacityMatrix.v
      (capacity_matrix.go, the public [Allocate] and the capacity summaries of
      service.go), WorkflowJob.v (service_workflow_job.go: matching a job to a
      pool, allocating for it, binding and finishing it).  WorkflowTheory.v
      proves that they keep the ledger and whose runner they delete;
      WorkflowBehaviour.v states what they achieve.
    - Background work of the service: Reconcile.v (the provider drivers'
      interfaces, and the passes over their inventories and health probes:
      service.go and service_finished_runners.go), WarmPool.v
      (ReconcileWarmPools) and Restart.v (newServiceWithStore with the restart
      reconciliation).  ReconcileTheory.v, WarmPoolTheory.v and RestartTheory.v
      prove that they keep the ledger; BackgroundBehaviour.v states what a pass
      and a restart achieve.
    - Configuration: Config.v (internal/config/validate.go and load.go),
      ConfigTheory.v (the rules as a declarative specification, [accepted], and
      that [Validate] decides it), ConfigBehaviour.v (what an accepted
      configuration guarantees, and what the rules let through).

    - Authentication: Auth.v (internal/api/auth.go: claims, the token verifier
      with its discovery and key caches, the identity policy, ownership) and
      AuthTheory.v (an accepted token is authentic, what the policy allows).
    - HTTP: Http.v (internal/api/http.go, request.go and the request part of
      observability.go: authentication, the allocation handlers, their status
      codes, request decoding) and HttpBehaviour.v (who reaches what).
    - The GitHub webhook, internal/api/github_webhook.go: Sha256.v (SHA-256, HMAC
      and hexadecimal text, computed), Webhook.v (the endpoint, the delivery
      tracker, the inbox, the worker, [process]) and WebhookBehaviour.v;
      WebhookReconcile.v (the reconciler of missed webhooks: rescue, scans,
      budget), WebhookReconcileTheory.v (a cycle as a sequence of moves, the plan
      of a scan) and WebhookReconcileBehaviour.v.
    - Tier decisions: TierRefresh.v (internal/tier: the evaluator on float64
      values, the refresher over all rules, merging), TierBehaviour.v (when a
      limit is exceeded, what the stored decisions do to requests).
    - Lifecycle webhooks: Dispatcher.v (internal/webhook/dispatcher.go) and
      DispatcherBehaviour.v.
    - The GitHub client: GithubClient.v (internal/github/api.go, each operation with
      its pages and counters) and GithubBehaviour.v.
    - The quality tracker: Quality.v (internal/quality/tracker.go) and
      QualityBehaviour.v, which makes a tracker a [QualityRanker] of the service.
    - The drivers of the backends: Kubernetes.v (internal/backend/kubernetes: pods,
      the node guard, capacity and the inventories, on the client of
      internal/runtime/kubeapi.go), KubernetesTheory.v and KubernetesBehaviour.v;
      ExternalDispatch.v (the launcher driver that the cloud packages instantiate
      by name), DirectDrivers.v (ARC, desktop, Azure VM), ManagedRunners.v and
      ManagedBehaviour.v (managed VMs leased by labels on GitHub runners),
      Secrets.v (internal/runtime: secrets, their cache and their check) and
      DriversBehaviour.v.  The cluster, launchers and GitHub are interfaces.
    - The shared store: Postgres.v (internal/store/postgres.go: each operation a
      [program] of SQL [statement]s with its transaction and error paths; the
      class [Server] with [ServerLaws], what the documentation of the database
      says of each statement under READ COMMITTED, failures included),
      PostgresTheory.v (a caller alone: weakest preconditions of programs),
      PostgresBehaviour.v (refinement of the memory store), PostgresConcurrency.v
      (admissions side by side), PostgresSessions.v (one session among others),
      PostgresCompareAndSet.v and PostgresLeadership.v (state transitions and the
      lease of the leader under any interleaving of statements).
    - Logs and metrics: Observability.v (internal/api/observability.go: the text of
      a log line, every method of the Prometheus observer as what it does with its
      vectors, the gauges of observeState in service.go) and
      ObservabilityBehaviour.v.
    - The assembly: Broker.v (cmd/broker/main.go, the registry of drivers of
      internal/backend/backend.go, the choice of a store) and BrokerBehaviour.v;
      TierClients.v (internal/tier/promclient and provider: the clients that
      TierRefresh.v takes as parameters).

    ** How they interact

    The [Service] record holds the store, the scheduler registry, the admission
    state, budgets, live capacity, retries and penalties, as the Go struct does.
    Schedulers, stores and the service meet only at the classes [Scheduler],
    [SchedulerLaws], [AllocationStore], [AllocationStoreLaws] and
    [ReliableStore]: the service's theorems hold for every store with
    [ReliableStore], of which the memory store is the instance.  A program of the
    Postgres store meets the database only at [Server]; drivers meet GitHub at
    the classes [Registrar] and [RunnerClient] that the GitHub client
    implements.

    ** What the theorems show

    - Slots follow records: in every reachable state a backend's slots are
      exactly its accounted records, so no slot leaks and none is given twice;
      a restart rebuilds the same slots from the store.
    - Limits: schedulers never exceed effective capacity, tenant quotas and
      soft reserves hold, a store whose operations are atomic never admits past a
      limit, rate limits, half-open probes, budgets and live capacity are bounded
      exactly.
    - Progress: an allocation returns whatever the other goroutines do,
      soft-reserve denials end, an un-acked webhook delivery is offered again.
    - Exactness: the request filters keep exactly the backends that fit, stores
      prune exactly what expired, fair share takes the least score.
    - Restarts: the file store, the admission document and the scheduler state
      survive; the error theorems show what does not.
    - Background: a warm pass leaves no more warm runners than its bounds and
      recycles what the bounds no longer allow; a restart ends the reservations
      a crash left half made and reuses the holds it made for unknown runners.
    - Workflow jobs: a job is matched to the first pool that covers it, an event
      is bound to a record exactly on evidence, and the events of a job delete
      at most the runner they are entitled to.
    - Configuration: [Validate] accepts exactly the configurations that satisfy
      the declarative rules, whatever the map order, and in those the warm
      schedules always run and a driver alias is one target.
    - Access: a request reaches an allocation only with an authentic token of an
      allowed identity that owns it, and the policy admits exactly the listed
      identities.
    - Webhooks: only signed job events act, a delivery is worked on once, and only
      entitled jobs get a runner; a reconcile cycle keeps the slots, returns,
      follows its plan and keeps to its API budget.
    - Tier: a rule is exceeded exactly when one of its answered sources is over a
      limit, and an exceeded rule that disables keeps jobs away.
    - GitHub client: requests stay authorized, below the base URL and within their
      caps, and a listing is exact or says that it is not.
    - Lifecycle webhooks: subscribers can verify what they get, retries follow the
      schedule, an accepted endpoint hears what it lists.
    - Quality: the best candidate has the highest score, the percentile is the
      nearest rank, a snapshot summarises the window.
    - Drivers: a guarded pod runs on its node only, a failed provisioning leaves no
      runner, capacity covers the live runners, a restart reads back what a pod
      was made for, a lease of a managed VM is undone, a launcher is called once
      and its failures are classified.
    - Replicas: on a database that behaves as documented, and may fail at every
      statement, one compare-and-set of a record wins, the leases of leaders do
      not overlap, and a caller alone is served as by the memory store; two
      admissions do not see each other, so the last slot can be granted twice.
    - Assembly: in an accepted configuration every target gets the driver that it
      asks for.
    - Observability: a log line reads back as its event, an observation never makes
      the metrics library panic, stale runner labels are counted exactly.
    - Errors: what the code gets wrong (slots freed twice or kept, a stale warm
      snapshot, half-open slots lost, a report that counts the wrong scheduler,
      a record lost to a warm runner, a rule
      hidden by another) is stated as theorems about the code as it
      is.

    ** Modelling choices, bounds and fuel

    - An operation reads the clock once; [now] is its argument.  Operations that
      wait read the [Environment]'s clock at each wait.
    - A warm runner's slot is taken before its record is saved: the invariant
      [Inv out] is parameterised by [out], the slots taken so far without a
      record.  At rest there are none.
    - The theorems about every reachable state assume that pools have distinct,
      non-empty names ([pools_named]) and, where a claim needs it, that a start
      finds no capacity hold in its store ([unheld]), that the store remembers
      the runners a driver reports ([runners_known]) and that the other
      goroutines of a warm pass consume no warm runner ([spares_warm]).
    - newID is an injective sequence of non-blank identifiers.
    - An allocation gives up the processor only where the code waits for a
      provider, a timer or another goroutine: there [env_interfere] replaces the
      service by what the other goroutines made of it.  The theorems allow any
      change that keeps the ledger and the waiting allocation's claim on its
      slot; ServiceBehaviour.v takes runs of the other operations.
    - [allocate_fuel] rounds, the backends of the pool and of its fallback plus
      two, are enough for an allocation: each retry excludes one more backend
      ([allocation_returns]).  [Cancel]'s rounds bound the compare-and-mark
      retries that other replicas can force.
    - Map iteration is a class, [GoRange]: any order of the map's keys.  Sorted
      iteration is modelled as sorted.
    - Integers from configuration are 64-bit with Go's wrap-around where the
      code adds or multiplies them; [time] arithmetic saturates as documented.
    - float64 values of the configuration are [spec_float]s, compared with
      [SFltb], so a NaN compares as it does in Go; the tier evaluator computes with
      their rounded operations.  [time.LoadLocation] and the
      YAML decoder are parameters; what [time.Parse] accepts beyond RFC 3339 is
      left out.
    - The drain of the webhook inbox takes [fuel] batches; it ends with the first
      batch that is not full.  A scan needs no fuel from outside: [scan_fuel] is
      enough ([scan_ends]).  GitHub's answers, the clock and the ends of contexts
      are functions of the events of a cycle so far.
    - An event about a workflow job is one step of a run when it touches no warm
      record and no queued record that names a backend ([job_ok]); the error
      theorems show what happens otherwise.

    ** Not modelled

    Third-party services and code are parameters: the database server (the
    class [Server]), the Kubernetes API, launchers and the GitHub service, the
    network, the HTTP server and its multiplexer, JSON and YAML texts, the RSA
    check of a token's signature, the vectors of the metrics library.  Of the
    Postgres store, opening, pinging and migrating the database are parameters,
    and the texts of its JSONB columns are what its codec reads.  Left out, as no
    decision depends on them: traces and their export (internal/telemetry,
    internal/api/tracing.go), where the service logs and counts (the observations
    themselves are modelled, not the places that make them), the counters of the
    webhook endpoint.  Left out as plain wiring: the timer loops around Refresh,
    the start and shutdown of the process in main, the adapter SDK (pkg/adapter,
    examples, internal/capacity/fakecapacity) and the unused
    internal/github/client.go. *)

From coqutil Require Export Datatypes.RecordSettersUsingExistingGetters.
From Stdlib Require Export Ascii String.
From stdpp Require Export base gmap sets list strings sorting fin_maps.
From Stdlib Require Export ZArith Lia.

#[export] Set Default Goal Selector "!".

(** Record updates [{ r with f := v }] compute under [simpl] and [cbn]. *)
#[global] Arguments RecordSettersUsingExistingGetters.const {E} newValue _ /.

Declare Scope go_scope.
Delimit Scope go_scope with go.
#[global] Open Scope Z_scope.
#[global] Open Scope go_scope.

(** ** Zero values

    Reading a missing key of a Go map yields the zero value of the element
    type.  [m .[ k ]] is that read. *)

Class GoZero (A : Type) := zero_value : A.

#[export] Instance zero_Z : GoZero Z := 0.
#[export] Instance zero_bool : GoZero bool := false.
#[export] Instance zero_string : GoZero string := EmptyString.
#[export] Instance zero_list A : GoZero (list A) := [].
#[export] Instance zero_option A : GoZero (option A) := None.
#[export] Instance zero_gmap `{Countable K} A : GoZero (gmap K A) := (∅ : gmap K A).

Definition map_read `{Countable K, GoZero A} (m : gmap K A) (k : K) : A :=
  default zero_value (m !! k).

Notation "m .[ k ]" := (map_read m k) (at level 1, left associativity, format "m .[ k ]") : go_scope.

(** ** Machine integers

    Go's [int], [int64] and [time.Duration] are 64-bit two's complement.  The
    model keeps them in [Z]; an arithmetic operation whose operands come from
    configuration is wrapped. *)

Definition min_int64 : Z := - 2 ^ 63.
Definition max_int64 : Z := 2 ^ 63 - 1.
Definition in_int64 (z : Z) : Prop := min_int64 ≤ z ≤ max_int64.
Definition wrap64 (z : Z) : Z := (z + 2 ^ 63) mod 2 ^ 64 - 2 ^ 63.
Definition saturate64 (z : Z) : Z := Z.max min_int64 (Z.min max_int64 z).

(** ** Times and durations

    A [time.Time] is the number of nanoseconds since the zero Time
    (0001-01-01T00:00:00Z); a [time.Duration] is a 64-bit number of
    nanoseconds.  [Time.Sub] saturates, as documented by package time. *)

Abbreviation Time := Z (only parsing).
Abbreviation Duration := Z (only parsing).

Definition Nanosecond : Duration := 1.
Definition Millisecond : Duration := 1000000.
Definition Second : Duration := 1000 * Millisecond.
Definition Minute : Duration := 60 * Second.
Definition Hour : Duration := 60 * Minute.

Definition IsZero (t : Time) : bool := t =? 0.
Definition Before (t u : Time) : bool := t <? u.
Definition After (t u : Time) : bool := u <? t.
Definition TimeAdd (t : Time) (d : Duration) : Time := t + d.
Definition TimeSub (t u : Time) : Duration := saturate64 (t - u).

(** ** Map iteration

    A [for k, v := range m] visits every entry once in an order Go does not
    specify.  [GoRange] is any such order; a definition that iterates over a
    map takes it as a parameter, so a theorem about the definition holds for
    every order, and a theorem can compare two orders. *)

Class GoRange := {
  range : ∀ `{Countable K} {A}, gmap K A → list (K * A);
  range_perm : ∀ `{Countable K} {A} (m : gmap K A), range m ≡ₚ map_to_list m;
}.

(** The order in which stdpp lists a map, and its reverse: two concrete orders
    the examples evaluate with. *)
Definition range_forward : GoRange :=
  {| range := fun K _ _ A m => map_to_list m; range_perm := fun K _ _ A m => reflexivity _ |}.

Definition range_backward : GoRange :=
  {| range := fun K _ _ A m => reverse (map_to_list m);
     range_perm := fun K _ _ A m => reverse_Permutation _ |}.

Definition range_keys `{GoRange, Countable K} {A} (m : gmap K A) : list K := (range m).*1.

(** ** Package strings, on ASCII

    Identifiers, configuration values and labels are modelled as byte strings;
    [ToLower], [TrimSpace] and [EqualFold] act on their ASCII characters (the
    Unicode spaces and case pairs of the Go functions are not modelled). *)

Definition ascii_to_lower (c : ascii) : ascii :=
  let n := nat_of_ascii c in
  if (65 <=? n)%nat && (n <=? 90)%nat then ascii_of_nat (n + 32) else c.

Definition ascii_is_space (c : ascii) : bool :=
  let n := nat_of_ascii c in
  ((9 <=? n)%nat && (n <=? 13)%nat) || (n =? 32)%nat.

Fixpoint ToLower (s : string) : string :=
  match s with
  | EmptyString => EmptyString
  | String c s' => String (ascii_to_lower c) (ToLower s')
  end.

Fixpoint trim_left (s : string) : string :=
  match s with
  | EmptyString => EmptyString
  | String c s' => if ascii_is_space c then trim_left s' else s
  end.

Fixpoint all_space (s : string) : bool :=
  match s with
  | EmptyString => true
  | String c s' => ascii_is_space c && all_space s'
  end.

Fixpoint trim_right (s : string) : string :=
  match s with
  | EmptyString => EmptyString
  | String c s' => if all_space s then EmptyString else String c (trim_right s')
  end.

Definition TrimSpace (s : string) : string := trim_left (trim_right s).

Definition EqualFold (s t : string) : bool := String.eqb (ToLower s) (ToLower t).

(** [Cut s c] is [strings.Cut] for a one-character separator. *)
Fixpoint Cut (s : string) (sep : ascii) : option (string * string) :=
  match s with
  | EmptyString => None
  | String c s' =>
      if Ascii.eqb c sep then Some (EmptyString, s')
      else match Cut s' sep with
           | Some (a, b) => Some (String c a, b)
           | None => None
           end
  end.

Fixpoint ContainsChar (s : string) (sep : ascii) : bool :=
  match s with
  | EmptyString => false
  | String c s' => Ascii.eqb c sep || ContainsChar s' sep
  end.

(** [strings.CutSuffix]. *)
Fixpoint CutSuffix (s suffix : string) : option string :=
  if String.eqb s suffix then Some EmptyString
  else match s with
       | EmptyString => None
       | String c s' => String c <$> CutSuffix s' suffix
       end.

Definition slash : ascii := ascii_of_nat 47.
Definition colon : ascii := ascii_of_nat 58.
Definition dot : ascii := ascii_of_nat 46.
Definition dquote : string := String (ascii_of_nat 34) EmptyString.

(** [strings.Split] on one character. *)
Fixpoint Split (s : string) (sep : ascii) : list string :=
  match s with
  | EmptyString => [EmptyString]
  | String c s' =>
      if Ascii.eqb c sep then EmptyString :: Split s' sep
      else match Split s' sep with
           | p :: ps => String c p :: ps
           | [] => [String c EmptyString]
           end
  end.

Definition HasPrefix (s prefix : string) : bool := String.prefix prefix s.

Definition TrimPrefix (s prefix : string) : string :=
  if HasPrefix s prefix
  then String.substring (String.length prefix) (String.length s - String.length prefix) s else s.

Definition TrimSuffix (s suffix : string) : string := default s (CutSuffix s suffix).

(** [%q] of package fmt, for strings without quotes, backslashes or
    non-printable characters. *)
Definition quote (s : string) : string := dquote +:+ s +:+ dquote.

Fixpoint Join (parts : list string) (sep : string) : string :=
  match parts with
  | [] => EmptyString
  | [p] => p
  | p :: rest => p +:+ sep +:+ Join rest sep
  end.

(** ** Sorting

    [sort.SliceStable] with a [less] function, as an insertion sort: an
    element is placed before the first later element that is not smaller, so
    equal elements keep their order. *)

Section StableSort.
Context {A : Type} (less : A → A → bool).

Fixpoint insert_stable (x : A) (l : list A) : list A :=
  match l with
  | [] => [x]
  | y :: l' => if less y x then y :: insert_stable x l' else x :: l
  end.

Fixpoint sort_stable (l : list A) : list A :=
  match l with
  | [] => []
  | x :: l' => insert_stable x (sort_stable l')
  end.

(** [not_less l]: no element is smaller than one that precedes it. *)
Definition not_inverted (x y : A) : Prop := less y x = false.
End StableSort.

(** Byte-wise string order, Go's [<] on strings. *)
Definition string_ltb (s t : string) : bool :=
  match String.compare s t with Lt => true | _ => false end.

(** ** Sums and counts

    [for] loops that accumulate an [int] over a slice or a map. *)

Definition sum_of {A} (f : A → Z) (l : list A) : Z := foldr (fun x acc => f x + acc) 0 l.
Definition count_if {A} (p : A → bool) (l : list A) : Z :=
  sum_of (fun x => if p x then 1 else 0) l.
Definition sum_map `{Countable K} {A} (f : K → A → Z) (m : gmap K A) : Z :=
  sum_of (fun kv => f kv.1 kv.2) (map_to_list m).
Definition count_map `{Countable K} {A} (p : K → A → bool) (m : gmap K A) : Z :=
  sum_map (fun k v => if p k v then 1 else 0) m.

(** ** Tactics *)

(** Turn boolean tests into propositions, in the context and in the goal. *)
Ltac reflect_bools :=
  repeat match goal with
  | H : (_ && _) = true |- _ => apply andb_true_iff in H; destruct H
  | H : (_ && _) = false |- _ => apply andb_false_iff in H
  | H : (_ || _) = true |- _ => apply orb_true_iff in H
  | H : (_ || _) = false |- _ => apply orb_false_iff in H; destruct H
  | H : negb _ = true |- _ => apply negb_true_iff in H
  | H : negb _ = false |- _ => apply negb_false_iff in H
  | H : (_ <? _)%Z = true |- _ => apply Z.ltb_lt in H
  | H : (_ <? _)%Z = false |- _ => apply Z.ltb_ge in H
  | H : (_ <=? _)%Z = true |- _ => apply Z.leb_le in H
  | H : (_ <=? _)%Z = false |- _ => apply Z.leb_gt in H
  | H : (_ =? _)%Z = true |- _ => apply Z.eqb_eq in H
  | H : (_ =? _)%Z = false |- _ => apply Z.eqb_neq in H
  | H : String.eqb _ _ = true |- _ => apply String.eqb_eq in H
  | H : String.eqb _ _ = false |- _ => apply String.eqb_neq in H
  | H : bool_decide _ = true |- _ => apply bool_decide_eq_true in H
  | H : bool_decide _ = false |- _ => apply bool_decide_eq_false in H
  end.

(** Split every conditional and match of the goal, keeping the equations. *)
Ltac split_cases :=
  repeat (case_match; simplify_eq; try done).

(** The same in a hypothesis, which it then simplifies. *)
Ltac split_cases_in H :=
  repeat (case_match; simplify_eq/=; try done).

(** ** Folds *)

Lemma foldl_invariant {A B} (P : A → Prop) (f : A → B → A) l st : P st → (∀ st x, P st → P (f st x)) → P (foldl f st l).
Proof. intros Hst Hf. revert st Hst. induction l as [|x l IH]; intros st Hst; [done|]. apply IH, Hf, Hst. Qed.

(** ** Integers *)

Lemma wrap64_id z : in_int64 z → wrap64 z = z.
Proof. unfold in_int64, wrap64, min_int64, max_int64. intros. rewrite Z.mod_small; lia. Qed.

Lemma wrap64_range z : in_int64 (wrap64 z).
Proof.
  unfold in_int64, wrap64, min_int64, max_int64.
  pose proof (Z.mod_pos_bound (z + 2 ^ 63) (2 ^ 64)). lia.
Qed.

Lemma saturate64_id z : in_int64 z → saturate64 z = z.
Proof. unfold in_int64, saturate64. lia. Qed.

(** ** Reading maps *)

Section MapRead.
Context `{Countable K} `{GoZero A}.
Implicit Types (m : gmap K A) (k : K) (x : A).

Lemma map_read_insert_eq m k x : (<[k := x]> m).[k] = x.
Proof. unfold map_read. by rewrite lookup_insert_eq. Qed.

Lemma map_read_insert_ne m k k' x : k ≠ k' → (<[k := x]> m).[k'] = m.[k'].
Proof. intros. unfold map_read. by rewrite lookup_insert_ne. Qed.

Lemma map_read_insert m k k' x :
  (<[k := x]> m).[k'] = if decide (k = k') then x else m.[k'].
Proof.
  case_decide; subst; [apply map_read_insert_eq | by apply map_read_insert_ne].
Qed.

Lemma map_read_empty k : (∅ : gmap K A).[k] = zero_value.
Proof. unfold map_read. by rewrite lookup_empty. Qed.

Lemma map_read_None m k : m !! k = None → m.[k] = zero_value.
Proof. unfold map_read. by intros ->. Qed.

Lemma map_read_Some m k x : m !! k = Some x → m.[k] = x.
Proof. unfold map_read. by intros ->. Qed.

Lemma map_read_delete m k k' :
  (delete k m).[k'] = if decide (k = k') then zero_value else m.[k'].
Proof.
  unfold map_read. case_decide; subst;
    [by rewrite lookup_delete_eq | by rewrite lookup_delete_ne].
Qed.
End MapRead.

Create HintDb broker discriminated.
Create Rewrite HintDb broker_rw.
#[export] Hint Rewrite @map_read_insert_eq @map_read_empty : broker_rw.
#[export] Hint Rewrite @map_read_insert_ne using done : broker_rw.

(** ** Sums *)

Section Sums.
Context {A : Type}.
Implicit Types (l : list A) (f g : A → Z).

Lemma sum_of_nil f : sum_of f [] = 0.
Proof. done. Qed.

Lemma sum_of_cons f x l : sum_of f (x :: l) = f x + sum_of f l.
Proof. done. Qed.

Lemma sum_of_app f l1 l2 : sum_of f (l1 ++ l2) = sum_of f l1 + sum_of f l2.
Proof. induction l1; simpl; [done | rewrite IHl1; lia]. Qed.

#[export] Instance sum_of_perm f : Proper ((≡ₚ) ==> (=)) (sum_of f).
Proof. intros l1 l2 Hp. induction Hp; simpl; lia. Qed.

Lemma sum_of_nonneg f l : (∀ x, x ∈ l → 0 ≤ f x) → 0 ≤ sum_of f l.
Proof.
  intros Hf. induction l as [|x l IH]; simpl; [done|].
  assert (0 ≤ f x) by (apply Hf; left).
  assert (0 ≤ sum_of f l) by (apply IH; intros; apply Hf; by right). lia.
Qed.

Lemma sum_of_le f g l : (∀ x, x ∈ l → f x ≤ g x) → sum_of f l ≤ sum_of g l.
Proof.
  intros Hf. induction l as [|x l IH]; simpl; [done|].
  assert (f x ≤ g x) by (apply Hf; left).
  assert (sum_of f l ≤ sum_of g l) by (apply IH; intros; apply Hf; by right). lia.
Qed.

Lemma sum_of_ext f g l : (∀ x, x ∈ l → f x = g x) → sum_of f l = sum_of g l.
Proof.
  intros Hf. apply Z.le_antisymm; apply sum_of_le; intros x Hx; rewrite (Hf x Hx); done.
Qed.

Lemma sum_of_member f l x : (∀ y, y ∈ l → 0 ≤ f y) → x ∈ l → f x ≤ sum_of f l.
Proof.
  intros Hf Hx. apply list_elem_of_split in Hx as (l1 & l2 & ->).
  rewrite sum_of_app, sum_of_cons.
  assert (0 ≤ sum_of f l1) by (apply sum_of_nonneg; intros; apply Hf; set_solver).
  assert (0 ≤ sum_of f l2) by (apply sum_of_nonneg; intros; apply Hf; set_solver). lia.
Qed.

Lemma count_if_bounds (p : A → bool) l : 0 ≤ count_if p l ≤ Z.of_nat (length l).
Proof.
  unfold count_if. induction l as [|x l IH]; simpl; [lia|]. destruct (p x); lia.
Qed.
End Sums.

Lemma sum_of_fmap {A B} (f : B → Z) (g : A → B) (l : list A) : sum_of f (g <$> l) = sum_of (λ x, f (g x)) l.
Proof. induction l as [|x l IH]; [done|]. cbn [fmap list_fmap]. by rewrite !sum_of_cons, IH. Qed.

Section MapSums.
Context `{Countable K} {A : Type}.
Implicit Types (m : gmap K A) (f : K → A → Z) (p : K → A → bool).

Lemma sum_map_empty f : sum_map f ∅ = 0.
Proof. unfold sum_map. by rewrite map_to_list_empty. Qed.

Lemma sum_map_delete f m k x :
  m !! k = Some x → sum_map f m = f k x + sum_map f (delete k m).
Proof.
  intros Hk. unfold sum_map.
  rewrite <- (map_to_list_delete m k x Hk). done.
Qed.

Lemma sum_map_insert f m k x :
  sum_map f (<[k := x]> m) = f k x + sum_map f (delete k m).
Proof.
  rewrite (sum_map_delete f (<[k := x]> m) k x) by apply lookup_insert_eq.
  by rewrite delete_insert_eq.
Qed.

Lemma sum_map_nonneg f m : (∀ k x, m !! k = Some x → 0 ≤ f k x) → 0 ≤ sum_map f m.
Proof.
  intros Hf. apply sum_of_nonneg. intros [k x] Hx%elem_of_map_to_list. by apply Hf.
Qed.

Lemma sum_map_le f g m :
  (∀ k x, m !! k = Some x → f k x ≤ g k x) → sum_map f m ≤ sum_map g m.
Proof.
  intros Hf. apply sum_of_le. intros [k x] Hx%elem_of_map_to_list. by apply Hf.
Qed.

Lemma sum_map_ext f g m :
  (∀ k x, m !! k = Some x → f k x = g k x) → sum_map f m = sum_map g m.
Proof.
  intros Hf. apply sum_of_ext. intros [k x] Hx%elem_of_map_to_list. by apply Hf.
Qed.

Lemma count_map_nonneg p m : 0 ≤ count_map p m.
Proof. apply sum_map_nonneg. intros. by case_match. Qed.

(** Replacing an entry moves the count by the difference of the tests. *)
Lemma count_map_insert p m k x :
  count_map p (<[k := x]> m) =
    count_map p m - (if m !! k is Some y then if p k y then 1 else 0 else 0)
                  + (if p k x then 1 else 0).
Proof.
  unfold count_map. rewrite sum_map_insert. destruct (m !! k) as [y|] eqn:Hk.
  - rewrite (sum_map_delete _ m k y Hk). lia.
  - rewrite delete_id by done. lia.
Qed.

Lemma count_map_ext p q m :
  (∀ k x, m !! k = Some x → p k x = q k x) → count_map p m = count_map q m.
Proof. intros Hpq. apply sum_map_ext. intros k x Hk. by rewrite (Hpq k x Hk). Qed.

Lemma count_map_le p q m :
  (∀ k x, m !! k = Some x → p k x = true → q k x = true) →
  count_map p m ≤ count_map q m.
Proof.
  intros Hpq. apply sum_map_le. intros k x Hk. specialize (Hpq k x Hk).
  destruct (p k x), (q k x); lia.
Qed.
End MapSums.

(** ** Ranging over maps *)

Section Range.
Context `{GoRange, Countable K} {A : Type}.
Implicit Types (m : gmap K A).

Lemma elem_of_range m k x : (k, x) ∈ range m ↔ m !! k = Some x.
Proof. rewrite (range_perm m). apply elem_of_map_to_list. Qed.

Lemma range_NoDup m : NoDup (range m).
Proof. rewrite (range_perm m). apply NoDup_map_to_list. Qed.

Lemma range_keys_perm m : range_keys m ≡ₚ (map_to_list m).*1.
Proof. unfold range_keys. by rewrite (range_perm m). Qed.

Lemma range_keys_NoDup m : NoDup (range_keys m).
Proof. rewrite (range_keys_perm m). apply NoDup_fst_map_to_list. Qed.

Lemma elem_of_range_keys m k : k ∈ range_keys m ↔ is_Some (m !! k).
Proof.
  unfold range_keys. rewrite list_elem_of_fmap. split.
  - intros ([k' x] & -> & Hx%elem_of_range). by exists x.
  - intros [x Hx]. exists (k, x). by rewrite elem_of_range.
Qed.

Lemma range_length m : length (range m) = size m.
Proof. rewrite (range_perm m). apply length_map_to_list. Qed.

Lemma sum_of_range (f : K → A → Z) m :
  sum_of (fun kv => f kv.1 kv.2) (range m) = sum_map f m.
Proof. by rewrite (range_perm m). Qed.
End Range.

(** ** Sorting *)

Section SortLemmas.
Context {A : Type} (less : A → A → bool).
Implicit Types (l : list A).

Lemma insert_stable_perm x l : insert_stable less x l ≡ₚ x :: l.
Proof.
  induction l as [|y l IH]; simpl; [done|]. case_match; [|done].
  rewrite IH. apply Permutation_swap.
Qed.

Lemma sort_stable_perm l : sort_stable less l ≡ₚ l.
Proof. induction l as [|x l IH]; simpl; [done|]. by rewrite insert_stable_perm, IH. Qed.

Hypothesis less_asym : ∀ x y, less x y = true → less y x = false.
Hypothesis less_neg_trans : ∀ x y z, less y x = false → less z y = false → less z x = false.

Lemma insert_stable_sorted x l :
  StronglySorted (not_inverted less) l →
  StronglySorted (not_inverted less) (insert_stable less x l).
Proof.
  induction 1 as [|y l Hl IH Hy]; simpl; [by repeat constructor|].
  destruct (less y x) eqn:Hyx.
  - constructor; [done|]. apply Forall_forall. intros z Hz.
    rewrite insert_stable_perm in Hz. apply elem_of_cons in Hz as [->|Hz].
    + by apply less_asym.
    + by eapply Forall_forall in Hy.
  - constructor; [by constructor|]. constructor; [done|].
    eapply Forall_impl; [exact Hy|]. intros z Hz. unfold not_inverted in *.
    by eapply less_neg_trans.
Qed.

Lemma sort_stable_sorted l : StronglySorted (not_inverted less) (sort_stable less l).
Proof. induction l; simpl; [constructor | by apply insert_stable_sorted]. Qed.

(** When no two different elements tie, the result does not depend on the
    order of the input. *)
Lemma sort_stable_unique l1 l2 :
  (∀ x y, x ∈ l1 → y ∈ l1 → less x y = false → less y x = false → x = y) →
  l1 ≡ₚ l2 → sort_stable less l1 = sort_stable less l2.
Proof.
  intros Htie Hp. apply (StronglySorted_unique_strong (not_inverted less)).
  - intros x y Hx Hy Hxy Hyx. rewrite sort_stable_perm in Hx, Hy.
    rewrite <- Hp in Hy. by apply (Htie x y Hx Hy).
  - apply sort_stable_sorted.
  - apply sort_stable_sorted.
  - by rewrite !sort_stable_perm.
Qed.
End SortLemmas.

(** Two tests that agree on the elements sort them alike. *)
Lemma insert_stable_ext {A} (less1 less2 : A → A → bool) x l : (∀ y, y ∈ l → less1 y x = less2 y x) →
  insert_stable less1 x l = insert_stable less2 x l.
Proof.
  induction l as [|y l IH]; intros Hl; simpl; [done|]. rewrite (Hl y) by left. case_match; [|done].
  rewrite IH; [done|]. intros z Hz. apply Hl. by right.
Qed.

Lemma sort_stable_ext {A} (less1 less2 : A → A → bool) l : (∀ x y, x ∈ l → y ∈ l → less1 x y = less2 x y) →
  sort_stable less1 l = sort_stable less2 l.
Proof.
  induction l as [|x l IH]; intros Hl; simpl; [done|]. rewrite IH by (intros; apply Hl; by right).
  apply insert_stable_ext. intros y Hy. rewrite sort_stable_perm in Hy. apply Hl; [by right|by left].
Qed.


(** ** Strings *)

Lemma ToLower_idem s : ToLower (ToLower s) = ToLower s.
Proof.
  induction s as [|c s IH]; simpl; [done|]. rewrite IH. f_equal.
  destruct c as [[] [] [] [] [] [] [] []]; reflexivity.
Qed.

Lemma EqualFold_refl s : EqualFold s s = true.
Proof. apply String.eqb_refl. Qed.

Lemma ascii_space_to_lower c : ascii_is_space (ascii_to_lower c) = ascii_is_space c.
Proof. destruct c as [[] [] [] [] [] [] [] []]; reflexivity. Qed.

Lemma all_space_ToLower s : all_space (ToLower s) = all_space s.
Proof. induction s; simpl; [done|]. by rewrite ascii_space_to_lower, IHs. Qed.

Lemma trim_left_ToLower s : trim_left (ToLower s) = ToLower (trim_left s).
Proof. induction s; simpl; [done|]. rewrite ascii_space_to_lower. by case_match. Qed.

Lemma trim_right_ToLower s : trim_right (ToLower s) = ToLower (trim_right s).
Proof.
  induction s; simpl; [done|].
  rewrite ascii_space_to_lower, all_space_ToLower, IHs. by case_match.
Qed.

Lemma TrimSpace_ToLower s : TrimSpace (ToLower s) = ToLower (TrimSpace s).
Proof. unfold TrimSpace. by rewrite trim_right_ToLower, trim_left_ToLower. Qed.

Lemma trim_right_all_space s : all_space s = true → trim_right s = EmptyString.
Proof. destruct s; simpl; [done|]. by intros ->. Qed.

Lemma all_space_trim_right s : all_space (trim_right s) = true → trim_right s = EmptyString.
Proof.
  destruct s as [|c s]; [done|]. simpl. destruct (ascii_is_space c) eqn:Hc; simpl.
  - destruct (all_space s) eqn:Hs; [done|]. simpl. rewrite Hc. simpl. intros H.
    clear Hc. revert Hs H. induction s as [|d s IH]; simpl; [done|].
    destruct (ascii_is_space d) eqn:Hd; simpl.
    + intros Hs. rewrite Hs. simpl. rewrite Hd. simpl. intros H. by specialize (IH Hs H).
    + intros _. rewrite Hd. done.
  - by rewrite Hc.
Qed.

Lemma trim_right_idem s : trim_right (trim_right s) = trim_right s.
Proof.
  induction s as [|c s IH]; [done|]. simpl.
  destruct (ascii_is_space c && all_space s) eqn:Hcs; [done|].
  simpl. destruct (ascii_is_space c && all_space (trim_right s)) eqn:Hcs'; [|by rewrite IH].
  exfalso. apply andb_true_iff in Hcs' as [Hc Hs].
  pose proof (all_space_trim_right _ Hs) as He.
  rewrite Hc in Hcs. simpl in Hcs. destruct s as [|d s]; [done|].
  simpl in He, Hcs. by rewrite Hcs in He.
Qed.

Lemma trim_left_all_space s : all_space s = true → trim_left s = EmptyString.
Proof. induction s; simpl; [done|]. intros [Hc Hs]%andb_true_iff. rewrite Hc. auto. Qed.

Lemma trim_left_idem s : trim_left (trim_left s) = trim_left s.
Proof. induction s; simpl; [done|]. case_match; [done|]. simpl. by case_match. Qed.

(** Trimming the left end of a right-trimmed string leaves it right-trimmed. *)
Lemma trim_right_trim_left s : trim_right s = s → trim_right (trim_left s) = trim_left s.
Proof.
  induction s as [|c s IH]; simpl; [done|].
  destruct (ascii_is_space c && all_space s) eqn:Hcs; [done|].
  intros [= Hs]. destruct (ascii_is_space c) eqn:Hc; [by apply IH|].
  simpl. rewrite Hc. simpl. by rewrite Hs.
Qed.

Lemma TrimSpace_idem s : TrimSpace (TrimSpace s) = TrimSpace s.
Proof.
  unfold TrimSpace. rewrite trim_right_trim_left by apply trim_right_idem.
  apply trim_left_idem.
Qed.

(** [strings.Cut] at the first slash. *)

Lemma Cut_cons c s sep :
  Cut (String c s) sep =
    if Ascii.eqb c sep then Some ("", s)
    else match Cut s sep with Some (a, b) => Some (String c a, b) | None => None end.
Proof. reflexivity. Qed.

Lemma append_cons c s t : String c s +:+ t = String c (s +:+ t).
Proof. reflexivity. Qed.

Lemma ContainsChar_cons c s sep : ContainsChar (String c s) sep = Ascii.eqb c sep || ContainsChar s sep.
Proof. reflexivity. Qed.

Lemma Cut_app p b : ContainsChar p slash = false → Cut (p +:+ "/" +:+ b) slash = Some (p, b).
Proof.
  induction p as [|c p IH]; [done|]. rewrite append_cons, Cut_cons, ContainsChar_cons.
  destruct (Ascii.eqb c slash); [done|]. intros Hp. by rewrite IH.
Qed.

Lemma Cut_spec s p b : Cut s slash = Some (p, b) → s = p +:+ "/" +:+ b ∧ ContainsChar p slash = false.
Proof.
  revert p. induction s as [|c s IH]; intros p; [done|]. rewrite Cut_cons. destruct (Ascii.eqb_spec c slash) as [->|Hc].
  - intros [= <- <-]. done.
  - destruct (Cut s slash) as [[p' b']|]; [|done]. intros [= <- <-]. destruct (IH p' eq_refl) as [-> Hp].
    split; [done|]. rewrite ContainsChar_cons, Hp. apply Ascii.eqb_neq in Hc. by rewrite Hc.
Qed.

Lemma string_app_assoc (a b c : string) : (a +:+ b) +:+ c = a +:+ b +:+ c.
Proof. induction a as [|x a IH]; [done|]. exact (f_equal (String x) IH). Qed.

Lemma ToLower_app s t : ToLower (s +:+ t) = ToLower s +:+ ToLower t.
Proof. induction s as [|c s IH]; [done|]. rewrite append_cons. cbn. by rewrite IH. Qed.

Lemma prefix_spec s p : HasPrefix s p = true ↔ ∃ rest, s = p +:+ rest.
Proof.
  unfold HasPrefix. revert s. induction p as [|c p IH]; intros s; cbn [String.prefix].
  - destruct s; (split; [by eexists|done]).
  - destruct s as [|d s]; [split; [done|by intros [? ?]]|].
    cbn [String.prefix]. destruct (Ascii.ascii_dec c d) as [->|Hne].
    + rewrite IH. split; intros [rest Hr]; exists rest; [by rewrite Hr|by injection Hr].
    + split; [done|]. intros [rest [= -> _]]. done.
Qed.

Lemma HasPrefix_app p s : HasPrefix (p +:+ s) p = true.
Proof. apply prefix_spec. by exists s. Qed.

Lemma EqualFold_true s t : EqualFold s t = true ↔ ToLower s = ToLower t.
Proof. apply String.eqb_eq. Qed.

Lemma substring_all s : String.substring 0 (String.length s) s = s.
Proof. induction s as [|c s IH]; [done|]. cbn. by f_equal. Qed.

Lemma TrimPrefix_app p s : TrimPrefix (p +:+ s) p = s.
Proof.
  unfold TrimPrefix. rewrite (proj2 (prefix_spec (p +:+ s) p)) by by exists s.
  induction p as [|c p IH]; [rewrite Nat.sub_0_r; apply substring_all|exact IH].
Qed.

(** A string without spaces is trimmed. *)
Fixpoint no_space (s : string) : bool :=
  match s with EmptyString => true | String c s => negb (ascii_is_space c) && no_space s end.

Lemma no_space_app s t : no_space (s +:+ t) = no_space s && no_space t.
Proof. induction s as [|c s IH]; [done|]. rewrite append_cons. cbn. by rewrite IH, andb_assoc. Qed.

Lemma no_space_TrimSpace s : no_space s = true → TrimSpace s = s.
Proof.
  assert (Hr : no_space s = true → trim_right s = s).
  { induction s as [|c s IH]; [done|]. intros [Hc Hs]%andb_true_iff. cbn [trim_right all_space].
    apply negb_true_iff in Hc. rewrite Hc. cbn. by rewrite IH. }
  intros Hs. unfold TrimSpace. rewrite Hr by done. destruct s as [|c s]; [done|]. cbn in Hs |- *.
  apply andb_true_iff in Hs as [Hc _]. apply negb_true_iff in Hc. by rewrite Hc.
Qed.

#[export] Hint Rewrite ToLower_idem TrimSpace_idem TrimSpace_ToLower : broker_rw.
