(* ===== verification/Errors.v ===== *)
(** Go error values: the sentinel errors of the broker's packages, wrapping
    with [%w], the classified and provider errors of package backend
    (src/internal/backend/failure.go, backend.go), and [errors.Is] /
    [errors.As] along the chain of wrapped errors. *)

From S2P Require Import Prelude.

(** One constructor per [errors.New] variable the modelled code compares with. *)
Inductive sentinel :=
  (* package scheduler *)
  | ErrUnknownBackend
  | ErrNoCapacity
  | ErrQuotaExceeded
  (* package store; a value different from the scheduler's ErrNoCapacity *)
  | StoreErrNoCapacity
  (* package api *)
  | ErrUnknownPool
  | ErrNoMatchingBackendCapabilities
  | ErrAllocationNotFound
  | ErrAllocationAlreadyCompleted
  | ErrAllocationCanceled
  | ErrInvalidCompletionState
  | ErrBackendTierBlocked
  | ErrBackendLiveCapacity
  | ErrBackendBudgetExceeded
  | ErrBackendCircuitOpen
  | ErrBackendRateLimited
  | ErrMissingBearerToken
  | ErrInvalidBearerToken
  | ErrInvalidAudience
  | ErrInvalidIssuer
  | ErrInvalidSubject
  | ErrInvalidToken
  | ErrInvalidSignature
  | ErrTokenExpired
  | ErrTokenNotValidYet
  | ErrOIDCPolicyDenied
  | ErrAllocationForbidden
  | ErrReconcileRateLimited
  | errReconcileBudgetSpent
  (* package github *)
  | ErrPageCapReached
  (* package backend *)
  | ErrBackendCapacityExhausted
  (* package context *)
  | DeadlineExceeded
  | ContextCanceled.

#[export] Instance sentinel_eq_dec : EqDecision sentinel.
Proof. solve_decision. Defined.

Definition sentinel_text (s : sentinel) : string :=
  match s with
  | ErrUnknownBackend => "backend is not configured for the pool"
  | ErrNoCapacity => "no healthy backend with free capacity"
  | ErrQuotaExceeded => "tenant quota exceeded"
  | StoreErrNoCapacity => "no capacity"
  | ErrUnknownPool => "pool is not configured"
  | ErrNoMatchingBackendCapabilities => "no backend matches the requested capabilities"
  | ErrAllocationNotFound => "allocation not found"
  | ErrAllocationAlreadyCompleted => "allocation already in terminal state"
  | ErrAllocationCanceled => "allocation canceled"
  | ErrInvalidCompletionState => "invalid completion state"
  | ErrBackendTierBlocked => "backend tier policy blocked allocation"
  | ErrBackendLiveCapacity => "backend live capacity exhausted"
  | ErrBackendBudgetExceeded => "backend allocation budget exceeded"
  | ErrBackendCircuitOpen => "backend circuit is open"
  | ErrBackendRateLimited => "backend is rate limited"
  | ErrMissingBearerToken => "missing bearer token"
  | ErrInvalidBearerToken => "invalid bearer token"
  | ErrInvalidAudience => "invalid oidc audience"
  | ErrInvalidIssuer => "invalid oidc issuer"
  | ErrInvalidSubject => "missing oidc subject"
  | ErrInvalidToken => "invalid oidc token"
  | ErrInvalidSignature => "invalid oidc token signature"
  | ErrTokenExpired => "expired oidc token"
  | ErrTokenNotValidYet => "oidc token not valid yet"
  | ErrOIDCPolicyDenied => "oidc identity is not allowed by policy"
  | ErrAllocationForbidden => "allocation access forbidden"
  | ErrReconcileRateLimited => "queued job reconcile backing off: GitHub rate limit remaining below floor"
  | errReconcileBudgetSpent => "reconcile API call budget spent"
  | ErrPageCapReached => "page cap reached; results truncated"
  | ErrBackendCapacityExhausted => "backend capacity exhausted"
  | DeadlineExceeded => "context deadline exceeded"
  | ContextCanceled => "context canceled"
  end.

Inductive error :=
  (* errors.New values *)
  | Sentinel (s : sentinel)
  (* an error with no wrapped cause *)
  | Errorf (msg : string)
  (* fmt.Errorf with one %w, the text before and after it *)
  | Wrapf (pre : string) (err : error) (post : string)
  (* backend.ClassifiedError, with a cause and with a nil Err *)
  | ClassifiedError (reason : string) (err : error)
  | ClassifiedReason (reason : string)
  (* *backend.AllocationError *)
  | ProviderError (err : error) (capacityExhausted : bool).

(** The [Error()] text. *)
Fixpoint Error (e : error) : string :=
  match e with
  | Sentinel s => sentinel_text s
  | Errorf msg => msg
  | Wrapf pre e' post => pre +:+ Error e' +:+ post
  | ClassifiedError _ e' => Error e'
  | ClassifiedReason reason => reason
  | ProviderError e' _ => Error e'
  end.

(** [errors.Is err target], for a sentinel target. *)
Fixpoint errors_Is (e : error) (target : sentinel) : bool :=
  match e with
  | Sentinel s => bool_decide (s = target)
  | Errorf _ => false
  | Wrapf _ e' _ => errors_Is e' target
  | ClassifiedError _ e' => errors_Is e' target
  | ClassifiedReason _ => false
  | ProviderError e' _ => errors_Is e' target
  end.

(** [errors.As err &classified]: the reason of the first ClassifiedError. *)
Fixpoint errors_As_Classified (e : error) : option string :=
  match e with
  | ClassifiedError reason _ => Some reason
  | ClassifiedReason reason => Some reason
  | Wrapf _ e' _ => errors_As_Classified e'
  | ProviderError e' _ => errors_As_Classified e'
  | Sentinel _ | Errorf _ => None
  end.

(** [errors.As err &allocErr]: the CapacityExhausted flag of the first
    backend.AllocationError. *)
Fixpoint errors_As_Provider (e : error) : option bool :=
  match e with
  | ProviderError _ exhausted => Some exhausted
  | Wrapf _ e' _ => errors_As_Provider e'
  | ClassifiedError _ e' => errors_As_Provider e'
  | ClassifiedReason _ => None
  | Sentinel _ | Errorf _ => None
  end.

(** A Go pair [(T, error)] whose value is meaningful only without error. *)
Inductive result (A : Type) :=
  | Ok (a : A)
  | Fail (e : error).
Arguments Ok {A} a.
Arguments Fail {A} e.

Definition is_Ok {A} (r : result A) : bool := match r with Ok _ => true | Fail _ => false end.

Notation "'let?' x ':=' r 'in' k" :=
  (match r with Ok x => k | Fail e => Fail e end)
  (at level 10, x name, r at level 100, k at level 200,
   format "'let?'  x  ':='  r  'in'  '//' k") : go_scope.
