(* ===== verification/Model.v ===== *)
(** The broker's data model: src/internal/model/types.go and
    src/internal/model/github_scope.go.

    Records keep the fields the modelled code reads or writes; each is the Go
    struct's field with a prefix for its record (bc_ BackendConfig, pc_
    PoolConfig, ar_ AllocationRequest, as_ AllocationStatus, ...).  A nil
    slice or map and an empty one are the same value, but for the pod settings
    the configuration rules compare with reflect.DeepEqual, where nil is None.
    A float64 is its IEEE 754 datum, [spec_float]. *)

From S2P Require Import Prelude Errors.
From Stdlib Require Import Floats.SpecFloat.

(** ** Names and states *)

Abbreviation BackendName := string (only parsing).
Abbreviation PoolName := string (only parsing).

Definition BackendARC : BackendName := "arc".
Definition BackendCodeBuild : BackendName := "codebuild".
Definition BackendLambda : BackendName := "lambda".
Definition BackendCloudRun : BackendName := "cloud-run".
Definition BackendAzureFunctions : BackendName := "azure-functions".
Definition BackendAzureVM : BackendName := "azure-vm".
Definition BackendEC2 : BackendName := "ec2".
Definition BackendGCE : BackendName := "gce".
Definition BackendDesktop : BackendName := "desktop".
Definition BackendKubernetes : BackendName := "kubernetes".

(** [StateUnset] is the zero value of the Go string type. *)
Inductive AllocationState :=
  | StateUnset
  | StateReserved
  | StateReady
  | StateWarm
  | StatePending
  | StateCanceled
  | StateExpired
  | StateFailed
  | StateCompleted
  | StateQuarantined.

#[export] Instance AllocationState_eq_dec : EqDecision AllocationState.
Proof. solve_decision. Defined.

Definition state_string (s : AllocationState) : string :=
  match s with
  | StateUnset => ""
  | StateReserved => "reserved"
  | StateReady => "ready"
  | StateWarm => "warm"
  | StatePending => "pending"
  | StateCanceled => "canceled"
  | StateExpired => "expired"
  | StateFailed => "failed"
  | StateCompleted => "completed"
  | StateQuarantined => "quarantined"
  end.

Definition state_eqb (s t : AllocationState) : bool := bool_decide (s = t).

Definition PoolFull : PoolName := "full".
Definition PoolLite : PoolName := "lite".
Definition CapabilityFull : string := "full".
Definition CapabilityLite : string := "lite".

Definition PriorityClassNormal : string := "normal".
Definition PriorityClassHigh : string := "high".

(** ** Configuration *)

Record CircuitBreakerConfig := {
  cb_Enabled : bool;
  cb_FailureThreshold : Z;
  cb_EvaluationWindow : Duration;
  cb_OpenDuration : Duration;
  cb_ProbeInterval : Duration;
  cb_ProbeTimeout : Duration;
  cb_RecoverySuccessThreshold : Z;
  cb_HalfOpenMaxRequests : Z;
  cb_TripReasons : list string;
}.

Record RateLimitConfig := {
  rl_Enabled : bool;
  rl_Permits : Z;
  rl_Interval : Duration;
  rl_Burst : Z;
}.

Record BudgetConfig := {
  bu_Enabled : bool;
  bu_MaxAllocationsDaily : Z;
  bu_MaxAllocationsMonthly : Z;
}.

Record WarmWindowConfig := {
  ww_Days : list string;
  ww_Start : string;
  ww_End : string;
  ww_WarmMin : option Z;
  ww_WarmMax : option Z;
}.

Record WarmScheduleConfig := {
  ws_Timezone : string;
  ws_Windows : list WarmWindowConfig;
}.

Record DesktopConfig := { dk_Address : string; dk_CheckPort : Z }.

Record KubernetesNodeGuardConfig := {
  ng_NodeName : string;
  ng_RequiredLabels : option (gmap string string);
}.

(** A value of type [any] in a podSpec, as YAML decodes it; a time keeps its
    zone's offset.  [AnyMap] is a map[string]any and
    [AnyKeyMap] a map[any]any (YAML with other keys); their entries have
    distinct keys and no order. *)
Inductive any :=
  | AnyNil
  | AnyBool (b : bool)
  | AnyInt (z : Z)
  | AnyFloat (f : spec_float)
  | AnyString (s : string)
  | AnyTime (t : Time) (offset : Duration)
  | AnyList (l : list any)
  | AnyMap (m : list (string * any))
  | AnyKeyMap (m : list (any * any)).

Record KubernetesBackendConfig := {
  kb_PodLabels : option (gmap string string);
  kb_PodAnnotations : option (gmap string string);
  kb_NodeGuard : option KubernetesNodeGuardConfig;
  kb_Namespace : string;
  kb_Image : string;
  kb_RunnerContainer : string;
  kb_PodSpec : option (gmap string any);
  kb_DeadlineGrace : Duration;
}.

Record AzureVMBackendConfig := {
  az_Repository : string;
  az_RunnerNames : list string;
}.

Record TierRuleConfig := {
  tu_Name : string;
  tu_ProviderRef : string;
  tu_Dimension : string;
  tu_UsageQuery : string;
  tu_BurnRateQuery : string;
  tu_LimitSources : list string;
  tu_Combine : string;
  tu_SoftLimitRatio : spec_float;
  tu_HardLimitRatio : spec_float;
  tu_MinRemainingCredit : spec_float;
  tu_ProjectionWindow : Duration;
  tu_Action : string;
}.

Record BackendConfig := {
  bc_Driver : string;
  bc_Enabled : bool;
  bc_Healthy : bool;
  bc_MaxRunners : Z;
  bc_CrossPoolMaxRunners : Z;
  bc_RegistrationTimeout : Duration;
  bc_WarmMin : Z;
  bc_WarmMax : Z;
  bc_WarmTTL : Duration;
  bc_WarmSchedule : option WarmScheduleConfig;
  bc_Weight : Z;
  bc_CostClass : Z;
  bc_MaxJobDuration : Duration;
  bc_Capabilities : list string;
  bc_RunnerLabel : string;
  bc_AzureVM : option AzureVMBackendConfig;
  bc_Template : string;
  bc_SecretRef : string;
  bc_CircuitBreaker : CircuitBreakerConfig;
  bc_RateLimit : RateLimitConfig;
  bc_Budget : BudgetConfig;
  bc_TierRules : list TierRuleConfig;
  bc_Desktop : option DesktopConfig;
  bc_Kubernetes : option KubernetesBackendConfig;
}.

Record FairShareConfig := {
  fs_Enabled : bool;
  fs_UsageWindow : Duration;
  fs_StarvationAfter : Duration;
  fs_PriorityClasses : gmap string Z;
  fs_SoftReserves : gmap string Z;
  fs_Quotas : gmap string Z;
}.

Record PoolConfig := {
  pc_Name : PoolName;
  pc_Labels : list string;
  pc_Scheduler : string;
  pc_FairShare : FairShareConfig;
  pc_WebhookJobTimeout : Duration;
  pc_WebhookLabels : list string;
  pc_WebhookRepositories : list string;
  pc_CapabilityProfile : string;
  pc_Backends : gmap BackendName BackendConfig;
}.

Definition zero_CircuitBreakerConfig : CircuitBreakerConfig :=
  Build_CircuitBreakerConfig false 0 0 0 0 0 0 0 [].
Definition zero_RateLimitConfig : RateLimitConfig := Build_RateLimitConfig false 0 0 0.
Definition zero_BudgetConfig : BudgetConfig := Build_BudgetConfig false 0 0.
Definition zero_BackendConfig : BackendConfig :=
  Build_BackendConfig "" false false 0 0 0 0 0 0 None 0 0 0 [] ""
    None "" "" zero_CircuitBreakerConfig zero_RateLimitConfig zero_BudgetConfig [] None None.
#[export] Instance GoZero_BackendConfig : GoZero BackendConfig := zero_BackendConfig.
Definition zero_FairShareConfig : FairShareConfig := Build_FairShareConfig false 0 0 ∅ ∅ ∅.
Definition zero_PoolConfig : PoolConfig :=
  Build_PoolConfig "" [] "" zero_FairShareConfig 0 [] [] "" ∅.

(** ** Requests and records *)

Record AllocationRequest := {
  ar_Pool : PoolName;
  ar_Backend : option BackendName;
  ar_JobTimeout : Duration;
  ar_RegistrationTimeout : Duration;
  ar_Tenant : string;
  ar_PriorityClass : string;
  ar_Labels : list string;
  ar_RequiredCapabilities : list string;
  ar_ExcludedCapabilities : list string;
  ar_WorkflowJobID : Z;
  ar_TargetRepository : string;
}.

Record AllocationStatus := {
  as_ID : string;
  as_CorrelationID : string;
  as_Pool : PoolName;
  as_SelectedBackend : BackendName;
  as_RunnerLabel : string;
  as_RequestedLabels : list string;
  as_Tenant : string;
  as_PriorityClass : string;
  as_Subject : string;
  as_Repository : string;
  as_Owner : string;
  as_CreatedAt : Time;
  as_RegisteredAt : option Time;
  as_ClaimedAt : option Time;
  as_ExpiresAt : Time;
  as_RetryAfter : Time;
  as_Attempts : Z;
  as_State : AllocationState;
  as_Error : string;
  as_Metadata : gmap string string;
  as_Request : option AllocationRequest;
}.

Definition zero_AllocationRequest : AllocationRequest :=
  Build_AllocationRequest "" None 0 0 "" "" [] [] [] 0 "".
Definition zero_AllocationStatus : AllocationStatus :=
  Build_AllocationStatus "" "" "" "" "" [] "" "" "" "" "" 0 None None 0 0 0 StateUnset "" ∅ None.
#[export] Instance GoZero_AllocationStatus : GoZero AllocationStatus := zero_AllocationStatus.

(** A [*time.Time] that is set and not the zero Time. *)
Definition time_ptr_set (t : option Time) : bool :=
  match t with Some t => negb (IsZero t) | None => false end.

Definition IsRegistered (s : AllocationStatus) : bool := time_ptr_set (as_RegisteredAt s).
Definition IsClaimed (s : AllocationStatus) : bool := time_ptr_set (as_ClaimedAt s).

(** ** Fair-share configuration lookups *)

Section Lookup.
Context `{GoRange}.

(** An exact match on the trimmed key wins; otherwise the first entry the
    iteration meets whose trimmed key is equal up to case. *)
Definition lookupFold (m : gmap string Z) (key : string) : option Z :=
  if (size m =? 0)%nat then None
  else
    let key := TrimSpace key in
    match m !! key with
    | Some v => Some v
    | None => snd <$> head (filter (fun kv => EqualFold (TrimSpace kv.1) key = true) (range m))
    end.

Definition Quota (f : FairShareConfig) (tenant : string) : option Z :=
  lookupFold (fs_Quotas f) tenant.

Definition PriorityClassWeight (f : FairShareConfig) (class : string) : option Z :=
  lookupFold (fs_PriorityClasses f) class.
End Lookup.

(** ** Webhook repositories of a pool *)

Definition webhook_entry_serves (repository owner entry : string) : bool :=
  let entry := TrimSpace entry in
  EqualFold entry repository ||
  match CutSuffix entry "/*" with
  | Some prefix => EqualFold prefix owner
  | None => false
  end.

Definition ServesWebhookRepository (p : PoolConfig) (repository : string) : bool :=
  if (length (pc_WebhookRepositories p) =? 0)%nat then true
  else
    let repository := TrimSpace repository in
    match Cut repository slash with
    | None => false
    | Some (owner, _) => existsb (webhook_entry_serves repository owner) (pc_WebhookRepositories p)
    end.

(** ** GitHub registration scope *)

Record GitHubScope := {
  gs_Type : string;
  gs_Organization : string;
  gs_Owner : string;
  gs_Repository : string;
  gs_RunnerGroupPrefix : string;
}.

Definition zero_GitHubScope : GitHubScope := Build_GitHubScope "" "" "" "" "".

Definition GitHubScopeOrganization : string := "organization".
Definition GitHubScopeRepository : string := "repository".
Definition GitHubScopeOwner : string := "owner".

Definition blank (s : string) : bool := String.eqb (TrimSpace s) "".

(** [nil] is [None]. *)
Definition Validate (s : GitHubScope) : option error :=
  let scopeType := TrimSpace (gs_Type s) in
  if String.eqb scopeType GitHubScopeOrganization then
    if blank (gs_Organization s) then
      Some (Errorf ("github.scope.organization is required when github.scope.type="
                      +:+ quote GitHubScopeOrganization))
    else None
  else if String.eqb scopeType GitHubScopeRepository then
    if blank (gs_Owner s) then
      Some (Errorf ("github.scope.owner is required when github.scope.type="
                      +:+ quote GitHubScopeRepository))
    else if blank (gs_Repository s) then
      Some (Errorf ("github.scope.repository is required when github.scope.type="
                      +:+ quote GitHubScopeRepository))
    else None
  else if String.eqb scopeType GitHubScopeOwner then
    if blank (gs_Owner s) then
      Some (Errorf ("github.scope.owner is required when github.scope.type="
                      +:+ quote GitHubScopeOwner))
    else if ContainsChar (TrimSpace (gs_Repository s)) slash then
      Some (Errorf "github.scope.repository is a repository name under github.scope.owner, not owner/repo")
    else None
  else Some (Errorf ("unsupported github.scope.type " +:+ quote scopeType)).

Definition IsPerRepository (s : GitHubScope) : bool :=
  String.eqb (TrimSpace (gs_Type s)) GitHubScopeOwner.

Definition HasDefaultRepository (s : GitHubScope) : bool :=
  IsPerRepository s && negb (blank (gs_Repository s)).

Definition ForRepository (s : GitHubScope) (fullName : string) : result GitHubScope :=
  if negb (IsPerRepository s) then Ok s
  else match Validate s with
  | Some err => Fail err
  | None =>
      let fullName :=
        if blank fullName && HasDefaultRepository s
        then TrimSpace (gs_Owner s) +:+ "/" +:+ TrimSpace (gs_Repository s)
        else fullName in
      let bad := Errorf ("github.scope.type=" +:+ quote GitHubScopeOwner +:+
                         " needs the requesting repository as owner/repo, got " +:+ quote fullName) in
      match Cut (TrimSpace fullName) slash with
      | None => Fail bad
      | Some (owner, repo) =>
          let owner := TrimSpace owner in
          let repo := TrimSpace repo in
          if String.eqb owner "" || String.eqb repo "" || ContainsChar repo slash then Fail bad
          else if negb (EqualFold owner (TrimSpace (gs_Owner s))) then
            Fail (Errorf ("repository " +:+ quote fullName +:+
                          " is not owned by github.scope.owner " +:+ quote (gs_Owner s)))
          else Ok {| gs_Type := GitHubScopeRepository;
                     gs_Organization := "";
                     gs_Owner := TrimSpace (gs_Owner s);
                     gs_Repository := repo;
                     gs_RunnerGroupPrefix := "" |}
      end
  end.

Definition TargetRepository (s : AllocationStatus) : string :=
  let fromRequest :=
    match as_Request s with
    | Some request => TrimSpace (ar_TargetRepository request)
    | None => ""
    end in
  if String.eqb fromRequest "" then TrimSpace (as_Repository s) else fromRequest.

Definition TargetURL (s : GitHubScope) : result string :=
  match Validate s with
  | Some err => Fail err
  | None =>
      let scopeType := TrimSpace (gs_Type s) in
      if String.eqb scopeType GitHubScopeOrganization then
        Ok ("https://github.com/" +:+ TrimSpace (gs_Organization s))
      else if String.eqb scopeType GitHubScopeRepository then
        Ok ("https://github.com/" +:+ TrimSpace (gs_Owner s) +:+ "/" +:+ TrimSpace (gs_Repository s))
      else if String.eqb scopeType GitHubScopeOwner then
        Fail (Errorf ("github.scope.type=" +:+ quote GitHubScopeOwner +:+
                      " has no single target URL; resolve it with ForRepository first"))
      else Fail (Errorf ("unsupported github.scope.type " +:+ quote scopeType))
  end.

Definition RunnerGroup (s : GitHubScope) (pool : PoolName) : string :=
  let prefix := TrimSpace (gs_RunnerGroupPrefix s) in
  if String.eqb prefix "" || negb (String.eqb (TrimSpace (gs_Type s)) GitHubScopeOrganization)
  then ""
  else prefix +:+ "-" +:+ pool.

(** ** The broker configuration *)

Record GitHubAuth := { ga_Mode : string; ga_SecretRef : string }.

Record OIDCPolicyConfig := {
  op_AllowedRepositories : list string;
  op_AllowedOwners : list string;
  op_AllowedActors : list string;
}.

Record BrokerAPIConfig := { ap_OIDCAudience : string; ap_OIDCPolicy : OIDCPolicyConfig }.

Record StateStoreConfig := {
  ss_Type : string;
  ss_Path : string;
  ss_DSN : string;
  ss_DSNEnv : string;
  ss_Retention : Duration;
}.

Record HAConfig := { ha_Enabled : option bool; ha_LeaseTTL : Duration; ha_Identity : string }.

Record AdmissionQueueConfig := { aq_Enabled : bool; aq_RetryAfter : Duration; aq_MaxAttempts : Z }.

Record ARCFirstConfig := { af_SaturationWait : Duration; af_PollInterval : Duration }.

Record OrphanCleanupConfig := { oc_Enabled : bool; oc_QuarantineTTL : Duration; oc_GracePeriod : Duration }.

Record GitHubWebhookConfig := {
  gw_Secret : string;
  gw_SecretRef : string;
  gw_SecretKey : string;
  gw_AllowForkPullRequests : bool;
  gw_AllowedActors : list string;
  gw_ReconcileInterval : Duration;
}.

Record WebhookEndpointConfig := {
  we_URL : string;
  we_SigningSecret : string;
  we_SigningSecretRef : string;
  we_SigningSecretKey : string;
  we_Events : list string;
}.

Record WebhooksConfig := {
  wc_Enabled : bool;
  wc_Timeout : Duration;
  wc_MaxAttempts : Z;
  wc_InitialBackoff : Duration;
  wc_MaxBackoff : Duration;
  wc_Endpoints : list WebhookEndpointConfig;
}.

Record LiveCapacityConfig := {
  lc_Enabled : bool;
  lc_RefreshInterval : Duration;
  lc_StaleAfter : Duration;
  lc_ProbeTimeout : Duration;
  lc_FailureMode : string;
  lc_RefreshOnStartup : bool;
}.

Record QualityAwareWeights := {
  qw_FreeSlots : spec_float;
  qw_SuccessRate : spec_float;
  qw_Latency : spec_float;
  qw_CapacityErrors : spec_float;
}.

Record QualityAwareConfig := {
  qa_Enabled : bool;
  qa_Window : Duration;
  qa_MinSamples : Z;
  qa_Weights : QualityAwareWeights;
}.

Record TierPrometheusConfig := { tp_URL : string; tp_Timeout : Duration; tp_SecretRef : string }.

Record TierProviderConfig := {
  tv_Provider : string;
  tv_Mode : string;
  tv_SecretRef : string;
  tv_AccountID : string;
  tv_SubscriptionID : string;
  tv_ProjectID : string;
  tv_BillingAccountID : string;
  tv_BudgetName : string;
  tv_Region : string;
  tv_Labels : gmap string string;
}.

Record ProviderTierRuleConfig := {
  pr_Name : string;
  pr_ProviderRef : string;
  pr_Backends : list BackendName;
  pr_UsageQuery : string;
  pr_BurnRateQuery : string;
  pr_SoftLimitRatio : spec_float;
  pr_HardLimitRatio : spec_float;
  pr_MinRemainingCredit : spec_float;
  pr_ProjectionWindow : Duration;
  pr_Action : string;
}.

Record TierRoutingConfig := {
  tr_Enabled : bool;
  tr_RefreshInterval : Duration;
  tr_StaleAfter : Duration;
  tr_FailureMode : string;
  tr_FallbackBackends : list BackendName;
  tr_Prometheus : TierPrometheusConfig;
  tr_Providers : gmap string TierProviderConfig;
  tr_ProviderRules : list ProviderTierRuleConfig;
  tr_RefreshOnStartup : bool;
}.

Record BrokerRuntimeConfig := {
  br_DefaultPool : PoolName;
  br_DefaultJobTimeout : Duration;
  br_AllowUnauthenticated : bool;
  br_RegistrationTimeout : Duration;
  br_BackendLimits : gmap BackendName Z;
  br_OrphanCleanup : OrphanCleanupConfig;
  br_API : BrokerAPIConfig;
  br_StateStore : StateStoreConfig;
  br_HA : HAConfig;
  br_Queue : AdmissionQueueConfig;
  br_TierRouting : TierRoutingConfig;
  br_LiveCapacity : LiveCapacityConfig;
  br_QualityAware : QualityAwareConfig;
  br_ARCFirst : ARCFirstConfig;
  br_Webhooks : WebhooksConfig;
  br_GitHubWebhook : GitHubWebhookConfig;
}.

(** [GitHub] is split into its two fields. *)
Record BrokerConfig := {
  bk_Auth : GitHubAuth;
  bk_Scope : GitHubScope;
  bk_Broker : BrokerRuntimeConfig;
  bk_Pools : list PoolConfig;
}.

Definition zero_BrokerRuntimeConfig : BrokerRuntimeConfig :=
  Build_BrokerRuntimeConfig "" 0 false 0 ∅ (Build_OrphanCleanupConfig false 0 0)
    (Build_BrokerAPIConfig "" (Build_OIDCPolicyConfig [] [] [])) (Build_StateStoreConfig "" "" "" "" 0)
    (Build_HAConfig None 0 "") (Build_AdmissionQueueConfig false 0 0)
    (Build_TierRoutingConfig false 0 0 "" [] (Build_TierPrometheusConfig "" 0 "") ∅ [] false)
    (Build_LiveCapacityConfig false 0 0 0 "" false)
    (Build_QualityAwareConfig false 0 0
       (Build_QualityAwareWeights (S754_zero false) (S754_zero false) (S754_zero false) (S754_zero false)))
    (Build_ARCFirstConfig 0 0) (Build_WebhooksConfig false 0 0 0 0 [])
    (Build_GitHubWebhookConfig "" "" "" false [] 0).

Definition zero_BrokerConfig : BrokerConfig :=
  Build_BrokerConfig (Build_GitHubAuth "" "") zero_GitHubScope zero_BrokerRuntimeConfig [].
