(* ===== verification/Sha256.v ===== *)
(** SHA-256, HMAC and hexadecimal text: what the broker uses of Go's packages
    crypto/sha256, crypto/hmac and encoding/hex.  Bytes are integers from 0 to
    255, words integers modulo 2^32. *)

From S2P Require Import Prelude.
Open Scope Z_scope.

(** ** SHA-256 *)

Definition word (x : Z) : Z := Z.land x 4294967295.
Definition rotr (n x : Z) : Z := Z.lor (Z.shiftr x n) (word (Z.shiftl x (32 - n))).

Definition Ch (e f g : Z) : Z := Z.lxor (Z.land e f) (Z.land (Z.lxor e 4294967295) g).
Definition Maj (a b c : Z) : Z := Z.lxor (Z.lxor (Z.land a b) (Z.land a c)) (Z.land b c).
Definition big_sigma0 (x : Z) : Z := Z.lxor (Z.lxor (rotr 2 x) (rotr 13 x)) (rotr 22 x).
Definition big_sigma1 (x : Z) : Z := Z.lxor (Z.lxor (rotr 6 x) (rotr 11 x)) (rotr 25 x).
Definition small_sigma0 (x : Z) : Z := Z.lxor (Z.lxor (rotr 7 x) (rotr 18 x)) (Z.shiftr x 3).
Definition small_sigma1 (x : Z) : Z := Z.lxor (Z.lxor (rotr 17 x) (rotr 19 x)) (Z.shiftr x 10).

(** The constants are the first 32 bits of the fractional parts of the roots of the
    first primes. *)
Definition is_prime (n : Z) : bool := forallb (fun d => negb (n mod d =? 0)) (seqZ 2 (n - 2)).
Definition primes : list Z := List.filter is_prime (seqZ 2 310).

(** The largest [x + y], [y < 2 ^ bits], whose cube is at most [n]. *)
Fixpoint cube_root (bits : nat) (n x : Z) : Z :=
  match bits with
  | O => x
  | Datatypes.S bits => let y := x + 2 ^ Z.of_nat bits in cube_root bits n (if y * y * y <=? n then y else x)
  end.

Definition round_constants : list Z :=
  Eval vm_compute in (fun p => word (cube_root 36 (p * 2 ^ 96) 0)) <$> take 64 primes.

Definition square_root_bits (p : Z) : Z := word (Z.sqrt (p * 2 ^ 64)).

Record digest_state := { da : Z; db : Z; dc : Z; dd : Z; de : Z; df : Z; dg : Z; dh : Z }.

Definition initial_digest : digest_state := Eval vm_compute in
  {| da := square_root_bits 2; db := square_root_bits 3; dc := square_root_bits 5; dd := square_root_bits 7;
     de := square_root_bits 11; df := square_root_bits 13; dg := square_root_bits 17; dh := square_root_bits 19 |}.

Definition sha_round (d : digest_state) (kw : Z * Z) : digest_state :=
  let t1 := dh d + big_sigma1 (de d) + Ch (de d) (df d) (dg d) + kw.1 + kw.2 in
  let t2 := big_sigma0 (da d) + Maj (da d) (db d) (dc d) in
  {| da := word (t1 + t2); db := da d; dc := db d; dd := dc d;
     de := word (dd d + t1); df := de d; dg := df d; dh := dg d |}.

(** Big-endian words. *)
Fixpoint words_of (bytes : list Z) : list Z :=
  match bytes with
  | a :: b :: c :: d :: bytes => (a * 16777216 + b * 65536 + c * 256 + d) :: words_of bytes
  | _ => []
  end.

Definition bytes_of_word (w : Z) : list Z :=
  [Z.shiftr w 24 mod 256; Z.shiftr w 16 mod 256; Z.shiftr w 8 mod 256; w mod 256].

(** The schedule, the newest word first. *)
Fixpoint extend (n : nat) (reversed : list Z) : list Z :=
  match n with
  | O => reversed
  | Datatypes.S n =>
      let at_ i := nth i reversed 0 in
      extend n (word (small_sigma1 (at_ 1%nat) + at_ 6%nat + small_sigma0 (at_ 14%nat) + at_ 15%nat) :: reversed)
  end.

Definition compress (d : digest_state) (block : list Z) : digest_state :=
  let schedule := rev (extend 48 (rev (words_of block))) in
  let e := foldl sha_round d (zip round_constants schedule) in
  {| da := word (da d + da e); db := word (db d + db e); dc := word (dc d + dc e); dd := word (dd d + dd e);
     de := word (de d + de e); df := word (df d + df e); dg := word (dg d + dg e); dh := word (dh d + dh e) |}.

Definition pad (message : list Z) : list Z :=
  let len := Z.of_nat (length message) in
  message ++ [128] ++ replicate (Z.to_nat ((55 - len) mod 64)) 0 ++
  bytes_of_word (Z.shiftr (len * 8) 32) ++ bytes_of_word (word (len * 8)).

Fixpoint blocks (fuel : nat) (bytes : list Z) : list (list Z) :=
  match fuel, bytes with
  | Datatypes.S fuel, _ :: _ => take 64 bytes :: blocks fuel (drop 64 bytes)
  | _, _ => []
  end.

(** [sha256.Sum256]. *)
Definition Sum256 (message : list Z) : list Z :=
  let padded := pad message in
  let d := foldl compress initial_digest (blocks (length padded) padded) in
  concat (bytes_of_word <$> [da d; db d; dc d; dd d; de d; df d; dg d; dh d]).

(** ** HMAC *)

Definition hmac_pad (key : list Z) (byte : Z) : list Z :=
  (fun b => Z.lxor b byte) <$> key ++ replicate (64 - length key) 0.

(** [hmac.New(sha256.New, key)], written and summed. *)
Definition HMAC (key message : list Z) : list Z :=
  let key := if (64 <? length key)%nat then Sum256 key else key in
  Sum256 (hmac_pad key 92 ++ Sum256 (hmac_pad key 54 ++ message)).

(** ** Hexadecimal text *)

Definition nibble (c : ascii) : option Z :=
  let n := Z.of_nat (nat_of_ascii c) in
  if (48 <=? n) && (n <=? 57) then Some (n - 48)
  else if (97 <=? n) && (n <=? 102) then Some (n - 87)
  else if (65 <=? n) && (n <=? 70) then Some (n - 55)
  else None.

(** [hex.DecodeString], without the text of its error. *)
Fixpoint HexDecode (s : string) : option (list Z) :=
  match s with
  | EmptyString => Some []
  | String a (String b s) =>
      match nibble a, nibble b, HexDecode s with
      | Some a, Some b, Some bytes => Some ((a * 16 + b) :: bytes)
      | _, _, _ => None
      end
  | String _ EmptyString => None
  end.

Definition hex_digit (n : Z) : ascii := ascii_of_N (Z.to_N (if n <? 10 then n + 48 else n + 87)).

(** [hex.EncodeToString]. *)
Fixpoint HexEncode (bytes : list Z) : string :=
  match bytes with
  | [] => EmptyString
  | b :: bytes => String (hex_digit (b / 16)) (String (hex_digit (b mod 16)) (HexEncode bytes))
  end.

(** The bytes of a string. *)
Definition octets_of (s : string) : list Z := (fun c => Z.of_nat (nat_of_ascii c)) <$> String.list_ascii_of_string s.

(** ** Test vectors: FIPS 180-4 and RFC 4231 *)

Example sum_of_nothing :
  HexEncode (Sum256 []) = "e3b0c44298fc1c149afbf4c8996fb92427ae41e4649b934ca495991b7852b855".
Proof. vm_compute. reflexivity. Qed.

Example sum_of_abc :
  HexEncode (Sum256 (octets_of "abc")) = "ba7816bf8f01cfea414140de5dae2223b00361a396177a9cb410ff61f20015ad".
Proof. vm_compute. reflexivity. Qed.

Example sum_of_two_blocks :
  HexEncode (Sum256 (octets_of "abcdbcdecdefdefgefghfghighijhijkijkljklmklmnlmnomnopnopq")) =
  "248d6a61d20638b8e5c026930c3e6039a33ce45964ff2167f6ecedd419db06c1".
Proof. vm_compute. reflexivity. Qed.

Example hmac_of_jefe :
  HexEncode (HMAC (octets_of "Jefe") (octets_of "what do ya want for nothing?")) =
  "5bdcc146bf60754e6a042426089575c75a003f089d2739839dec58b964ec3843".
Proof. vm_compute. reflexivity. Qed.

Example hmac_with_a_long_key :
  HexEncode (HMAC (replicate 131 170) (octets_of "Test Using Larger Than Block-Size Key - Hash Key First")) =
  "60e431591ee0b67f0d8a26aacbf5b77f8e0bc6213728c5140546040f0ee37f54".
Proof. vm_compute. reflexivity. Qed.

(** ** Lengths and round trips *)

Lemma length_bytes_of_word w : length (bytes_of_word w) = 4%nat.
Proof. done. Qed.

Lemma Sum256_length message : length (Sum256 message) = 32%nat.
Proof. done. Qed.

Lemma HMAC_length key message : length (HMAC key message) = 32%nat.
Proof. done. Qed.

Definition is_byte (b : Z) : Prop := 0 <= b < 256.

Lemma nibble_hex_digit n : 0 <= n < 16 → nibble (hex_digit n) = Some n.
Proof.
  intros Hn. assert (Hall : forallb (fun k => bool_decide (nibble (hex_digit (Z.of_nat k)) = Some (Z.of_nat k))) (seq 0 16) = true)
    by reflexivity.
  rewrite forallb_forall in Hall. specialize (Hall (Z.to_nat n)). rewrite bool_decide_eq_true, Z2Nat.id in Hall by lia.
  apply Hall, in_seq. lia.
Qed.

Lemma HexDecode_HexEncode bytes : Forall is_byte bytes → HexDecode (HexEncode bytes) = Some bytes.
Proof.
  induction 1 as [|b bytes [Hl Hh] _ IH]; [done|]. cbn [HexEncode HexDecode].
  assert (0 <= b / 16 < 16) by (split; [by apply Z.div_pos|by apply Z.div_lt_upper_bound]).
  rewrite !nibble_hex_digit, IH by (by try apply Z.mod_pos_bound).
  do 2 f_equal. pose proof (Z.div_mod b 16). lia.
Qed.
