(* ===== verification/Store.v ===== *)
(** Allocation stores: src/internal/store/store.go, memory.go, inbox.go and
    file.go.

    - the shared helpers ([capacityAllowed], counting, pruning);
    - [Memory], the process-local store, with its leader lease, admission
      document and webhook inbox;
    - [File], the same store persisted to disk, with the faults of the file
      system as an explicit stream of outcomes;
    - the interfaces: [AllocationStore] (what a client of a store may assume,
      stated against the abstract contents of the store) and
      [AdmissionStateStore].  Both stores are instances. *)

From S2P Require Import Prelude Errors Model.

Abbreviation Allocations := (gmap string AllocationStatus) (only parsing).

(** ** Shared admission document *)

Record AdmissionCircuitState := {
  acs_State : string;
  acs_Failures : list Time;
  acs_OpenedAt : Time;
  acs_NextProbeAt : Time;
  acs_HalfOpenInFlight : Z;
  acs_RecoverySuccesses : Z;
  acs_LastTransitionReason : string;
}.

Record AdmissionRateLimit := { arl_WindowStart : Time; arl_Used : Z }.

Record AdmissionBudgetState := {
  abs_DailyWindowStart : Time;
  abs_DailyUsed : Z;
  abs_MonthlyWindowStart : Time;
  abs_MonthlyUsed : Z;
}.

Record AdmissionStateDocument := {
  doc_Circuits : gmap string AdmissionCircuitState;
  doc_Limits : gmap string AdmissionRateLimit;
  doc_Budgets : gmap string AdmissionBudgetState;
}.

Definition zero_AdmissionStateDocument : AdmissionStateDocument :=
  {| doc_Circuits := ∅; doc_Limits := ∅; doc_Budgets := ∅ |}.

Definition AdmissionKey (pool : PoolName) (backend : BackendName) : string :=
  pool +:+ "/" +:+ backend.

(** [Load] may fail; [Save] discards its error, as its callers do. *)
Class AdmissionStateStore (S : Type) := {
  LoadAdmissionState : S → result AdmissionStateDocument;
  SaveAdmissionState : S → AdmissionStateDocument → S;
}.

(** What the admission state of a store that does not fail promises. *)
Class AdmissionStateReliable (S : Type) `{AdmissionStateStore S} := {
  load_total : ∀ s, ∃ doc, LoadAdmissionState s = Ok doc;
  load_save : ∀ s doc, LoadAdmissionState (SaveAdmissionState s doc) = Ok doc;
}.

(** ** Store type *)

Definition TypeMemory : string := "memory".
Definition TypeFile : string := "file".
Definition TypePostgres : string := "postgres".
Definition LeaderLeaseName : string := "broker-background".

Definition normalizeType (storeType : string) : string := ToLower (TrimSpace storeType).

Definition IsShared (storeType : string) : bool :=
  String.eqb (normalizeType storeType) TypePostgres.

Definition IsProcessLocal (storeType : string) : bool :=
  let t := normalizeType storeType in
  String.eqb t TypeMemory || String.eqb t TypeFile || String.eqb t "".

(** ** Helpers over the allocation map *)

Definition isSchedulerAccountedState (state : AllocationState) : bool :=
  match state with StateReady | StateReserved | StateWarm => true | _ => false end.

Definition normalizeTenant (tenant : string) : string :=
  let tenant := TrimSpace tenant in
  if String.eqb tenant "" then "default" else tenant.

(** The test [excludeID != "" && id == excludeID]. *)
Definition excluded (excludeID id : string) : bool :=
  negb (String.eqb excludeID "") && String.eqb id excludeID.

Definition counts_active (pool : PoolName) (backend : BackendName) (excludeID id : string)
    (status : AllocationStatus) : bool :=
  if excluded excludeID id then false
  else if negb (String.eqb (as_Pool status) pool) || negb (String.eqb (as_SelectedBackend status) backend)
  then false
  else isSchedulerAccountedState (as_State status).

Definition countActiveLocked (allocations : Allocations) (pool : PoolName)
    (backend : BackendName) (excludeID : string) : Z :=
  count_map (counts_active pool backend excludeID) allocations.

Definition counts_tenant (pool : PoolName) (tenant excludeID id : string)
    (status : AllocationStatus) : bool :=
  if excluded excludeID id then false
  else if negb (String.eqb (as_Pool status) pool) then false
  else if negb (isSchedulerAccountedState (as_State status)) then false
  else String.eqb (normalizeTenant (as_Tenant status)) tenant.

Definition countTenantActiveLocked (allocations : Allocations) (pool : PoolName)
    (tenant excludeID : string) : Z :=
  count_map (counts_tenant pool (normalizeTenant tenant) excludeID) allocations.

Definition counts_backend (backend : BackendName) (excludeID id : string)
    (status : AllocationStatus) : bool :=
  if excluded excludeID id then false
  else if negb (String.eqb (as_SelectedBackend status) backend) then false
  else isSchedulerAccountedState (as_State status).

Definition countBackendActiveLocked (allocations : Allocations) (backend : BackendName)
    (excludeID : string) : Z :=
  count_map (counts_backend backend excludeID) allocations.

Definition applyMarkState (status : AllocationStatus) (state : AllocationState) (now : Time)
    (message : string) : AllocationStatus :=
  let status := { status with as_State := state } in
  let status := if negb (String.eqb message "") then { status with as_Error := message } else status in
  if state_eqb state StateExpired || state_eqb state StateQuarantined
  then { status with as_ExpiresAt := now } else status.

(** [nil] is [None]; the only error is the store's ErrNoCapacity. *)
Definition capacityAllowed (allocations : Allocations) (status : AllocationStatus)
    (maxRunners tenantQuota backendLimit : Z) : option error :=
  if (0 <? maxRunners) &&
     (maxRunners <=? countActiveLocked allocations (as_Pool status) (as_SelectedBackend status) (as_ID status))
  then Some (Sentinel StoreErrNoCapacity)
  else if (0 <? backendLimit) &&
     (backendLimit <=? countBackendActiveLocked allocations (as_SelectedBackend status) (as_ID status))
  then Some (Sentinel StoreErrNoCapacity)
  else if (0 <? tenantQuota) &&
     (tenantQuota <=? countTenantActiveLocked allocations (as_Pool status) (as_Tenant status) (as_ID status))
  then Some (Sentinel StoreErrNoCapacity)
  else None.

Definition isTerminalState (state : AllocationState) : bool :=
  match state with
  | StateCompleted | StateFailed | StateCanceled | StateExpired | StateQuarantined => true
  | _ => false
  end.

Definition allocationAgeAnchor (status : AllocationStatus) : Time :=
  if negb (IsZero (as_CreatedAt status)) then as_CreatedAt status else as_ExpiresAt status.

Definition prunable (cutoff : Time) (status : AllocationStatus) : bool :=
  if negb (isTerminalState (as_State status)) then false
  else let anchor := allocationAgeAnchor status in
       IsZero anchor || negb (After anchor cutoff).

Definition collectPrunableIDs `{GoRange} (allocations : Allocations) (now : Time)
    (retention : Duration) : list string :=
  if retention <=? 0 then []
  else let cutoff := TimeAdd now (- retention) in
       (filter (fun kv => prunable cutoff kv.2 = true) (range allocations)).*1.

Definition delete_all (ids : list string) (allocations : Allocations) : Allocations :=
  foldl (fun m id => delete id m) allocations ids.

Definition DefaultFileRetention : Duration := 24 * Hour.

Definition EffectiveRetention (cfg : StateStoreConfig) : Duration :=
  if ss_Retention cfg <? 0 then 0
  else if 0 <? ss_Retention cfg then ss_Retention cfg
  else if String.eqb (normalizeType (ss_Type cfg)) TypeFile then DefaultFileRetention
  else 0.

(** ** The memory store *)

Module Memory.

Record leaderLease := { holder : string; expiresAt : Time }.

Record WebhookDelivery := {
  wd_ID : Z;
  wd_DeliveryID : string;
  wd_Payload : list Byte.byte;
  wd_Attempts : Z;
  wd_ReceivedAt : Time;
}.

Record memoryInboxItem := { item_Delivery : WebhookDelivery; item_lockedUntil : Time }.

Record memoryInbox := { nextID : Z; items : gmap Z memoryInboxItem }.

Record Memory := {
  allocations : Allocations;
  admission : AdmissionStateDocument;
  leader : gmap string leaderLease;
  inbox : memoryInbox;
}.

Definition NewMemory : Memory :=
  {| allocations := ∅; admission := zero_AdmissionStateDocument; leader := ∅;
     inbox := {| nextID := 0; items := ∅ |} |}.

Definition set_allocations (m : Memory) (a : Allocations) : Memory := { m with allocations := a }.

Definition Save (m : Memory) (status : AllocationStatus) : option error * Memory :=
  (None, set_allocations m (<[as_ID status := status]> (allocations m))).

Definition Delete (m : Memory) (id : string) : option error * Memory :=
  (None, set_allocations m (delete id (allocations m))).

Definition Get (m : Memory) (id : string) : option AllocationStatus := allocations m !! id.

Definition List `{GoRange} (m : Memory) : list AllocationStatus := (range (allocations m)).*2.

(** [None] is the Go pair (AllocationStatus{}, false). *)
Definition MarkState (m : Memory) (id : string) (state : AllocationState) (now : Time)
    (message : string) : option AllocationStatus * Memory :=
  match allocations m !! id with
  | None => (None, m)
  | Some status =>
      let status := applyMarkState status state now message in
      (Some status, set_allocations m (<[id := status]> (allocations m)))
  end.

Definition CompareAndMarkState (m : Memory) (id : string) (expectedFrom to : AllocationState)
    (now : Time) (message : string) : option AllocationStatus * Memory :=
  match allocations m !! id with
  | None => (None, m)
  | Some status =>
      if negb (state_eqb (as_State status) expectedFrom) then (None, m)
      else
        let status := applyMarkState status to now message in
        (Some status, set_allocations m (<[id := status]> (allocations m)))
  end.

Definition SaveIfState (m : Memory) (status : AllocationStatus) (expectedFrom : AllocationState)
    : result bool * Memory :=
  match allocations m !! as_ID status with
  | None => (Ok false, m)
  | Some current =>
      if negb (state_eqb (as_State current) expectedFrom) then (Ok false, m)
      else (Ok true, set_allocations m (<[as_ID status := status]> (allocations m)))
  end.

Definition SaveIfCapacity (m : Memory) (status : AllocationStatus)
    (maxRunners tenantQuota backendLimit : Z) : option error * Memory :=
  match capacityAllowed (allocations m) status maxRunners tenantQuota backendLimit with
  | Some err => (Some err, m)
  | None => (None, set_allocations m (<[as_ID status := status]> (allocations m)))
  end.

Definition CountActive (m : Memory) (pool : PoolName) (backend : BackendName) : Z :=
  countActiveLocked (allocations m) pool backend "".

Definition CountBackendActive (m : Memory) (backend : BackendName) : Z :=
  countBackendActiveLocked (allocations m) backend "".

Definition CountTenantActive (m : Memory) (pool : PoolName) (tenant : string) : Z :=
  countTenantActiveLocked (allocations m) pool tenant "".

Definition PruneTerminal `{GoRange} (m : Memory) (now : Time) (retention : Duration)
    : result Z * Memory :=
  if retention <=? 0 then (Ok 0, m)
  else
    let ids := collectPrunableIDs (allocations m) now retention in
    (Ok (Z.of_nat (length ids)), set_allocations m (delete_all ids (allocations m))).

(** [now] is the reading of time.Now inside the call. *)
Definition TryAcquireLeadership (m : Memory) (name identity : string) (ttl : Duration) (now : Time)
    : bool * Memory :=
  let ttl := if ttl <=? 0 then 15 * Second else ttl in
  let acquire :=
    (true, { m with leader := <[name := {| holder := identity; expiresAt := TimeAdd now ttl |}]> (leader m) }) in
  match leader m !! name with
  | Some lease =>
      if After (expiresAt lease) now && negb (String.eqb (holder lease) identity)
      then (false, m) else acquire
  | None => acquire
  end.

Definition ReleaseLeadership (m : Memory) (name identity : string) : Memory :=
  match leader m !! name with
  | None => m
  | Some lease =>
      if negb (String.eqb (holder lease) identity) then m
      else { m with leader := delete name (leader m) }
  end.

(** Copies every map of the document: the identity on values. *)
Definition cloneAdmission (doc : AdmissionStateDocument) : AdmissionStateDocument :=
  {| doc_Circuits := doc_Circuits doc; doc_Limits := doc_Limits doc; doc_Budgets := doc_Budgets doc |}.

Definition LoadAdmissionState (m : Memory) : result AdmissionStateDocument :=
  Ok (cloneAdmission (admission m)).

Definition SaveAdmissionState (m : Memory) (doc : AdmissionStateDocument) : Memory :=
  { m with admission := cloneAdmission doc }.

Definition set_inbox (m : Memory) (i : memoryInbox) : Memory := { m with inbox := i }.

Definition EnqueueWebhook `{GoRange} (m : Memory) (deliveryID : string) (payload : list Byte.byte)
    (now : Time) : Memory :=
  if existsb (fun kv => String.eqb (wd_DeliveryID (item_Delivery kv.2)) deliveryID)
       (range (items (inbox m)))
  then m
  else
    let id := nextID (inbox m) + 1 in
    let item :=
      {| item_Delivery := {| wd_ID := id; wd_DeliveryID := deliveryID; wd_Payload := payload;
                             wd_Attempts := 0; wd_ReceivedAt := now |};
         item_lockedUntil := 0 |} in
    set_inbox m {| nextID := id; items := <[id := item]> (items (inbox m)) |}.

Definition claimable `{GoRange} (m : Memory) (now : Time) : list WebhookDelivery :=
  (fun kv => item_Delivery kv.2) <$>
    filter (fun kv => After (item_lockedUntil kv.2) now = false) (range (items (inbox m))).

Definition take_limit {A} (limit : Z) (l : list A) : list A :=
  if (0 <? limit) && (limit <? Z.of_nat (length l)) then take (Z.to_nat limit) l else l.

(** The leasing loop: every claimed delivery gets one more attempt and a lock. *)
Definition lease_item (until : Time) (item : memoryInboxItem) : memoryInboxItem :=
  {| item_Delivery := { item_Delivery item with wd_Attempts := wd_Attempts (item_Delivery item) + 1 };
     item_lockedUntil := until |}.

Definition lease_all (until : Time) (out : list WebhookDelivery) (its : gmap Z memoryInboxItem)
    : gmap Z memoryInboxItem :=
  foldl (fun its d => alter (lease_item until) (wd_ID d) its) its out.

Definition ClaimWebhooks `{GoRange} (m : Memory) (limit : Z) (lease : Duration) (now : Time)
    : list WebhookDelivery * Memory :=
  let out := sort_stable (fun a b => wd_ID a <? wd_ID b) (claimable m now) in
  let out := take_limit limit out in
  ((fun d => { d with wd_Attempts := wd_Attempts d + 1 }) <$> out,
   set_inbox m {| nextID := nextID (inbox m);
                  items := lease_all (TimeAdd now lease) out (items (inbox m)) |}).

Definition AckWebhook (m : Memory) (id : Z) : Memory :=
  set_inbox m { inbox m with items := delete id (items (inbox m)) }.

End Memory.

(** ** The file store

    The file on disk is the encoded snapshot of the last completed rename.
    Every access to the file system consumes the next outcome of [faults]
    (an exhausted list means no more faults): a write can fail before the
    rename, leaving the file untouched, or after it (the directory fsync of
    [writeFileAtomic]), leaving the new file in place. *)

Module File.

Inductive io_outcome := IOok | IOfail_before_rename | IOfail_after_rename.

Record leaderLeaseSnapshot := { Holder : string; ExpiresAt : Time }.

Record fileSnapshot := {
  snap_Allocations : Allocations;
  snap_Admission : AdmissionStateDocument;
  snap_Leader : gmap string leaderLeaseSnapshot;
}.

Record File := {
  path : string;
  allocations : Allocations;
  admission : AdmissionStateDocument;
  leader : gmap string leaderLeaseSnapshot;
  disk : option fileSnapshot;
  faults : list io_outcome;
}.

Definition set_allocations (f : File) (a : Allocations) : File := { f with allocations := a }.

Definition next_io (f : File) : io_outcome * File :=
  match faults f with
  | [] => (IOok, f)
  | o :: rest => (o, { f with faults := rest })
  end.

Definition snapshot (f : File) : fileSnapshot :=
  {| snap_Allocations := allocations f; snap_Admission := admission f; snap_Leader := leader f |}.

Definition write_error : error := Errorf "write state store".
Definition read_error : error := Errorf "read state store".

(** [persistLocked] with [writeFileAtomic]. *)
Definition persistLocked (f : File) : option error * File :=
  let '(o, f) := next_io f in
  match o with
  | IOok => (None, { f with disk := Some (snapshot f) })
  | IOfail_before_rename => (Some write_error, f)
  | IOfail_after_rename => (Some write_error, { f with disk := Some (snapshot f) })
  end.

(** Empty [circuits], [limits] and [leader] maps are omitted from the JSON
    text ([omitempty]) and decode as nil, so the tests [!= nil] of the
    decoder are tests for a non-empty map. *)
Definition decode (f : File) (snap : fileSnapshot) : File :=
  let f := { f with allocations := snap_Allocations snap } in
  let f :=
    if negb (size (doc_Circuits (snap_Admission snap)) =? 0)%nat ||
       negb (size (doc_Limits (snap_Admission snap)) =? 0)%nat
    then { f with admission := snap_Admission snap } else f in
  if negb (size (snap_Leader snap) =? 0)%nat then { f with leader := snap_Leader snap } else f.

Definition loadLocked (f : File) : option error * File :=
  let '(o, f) := next_io f in
  match o with
  | IOok => (None, match disk f with None => f | Some snap => decode f snap end)
  | _ => (Some read_error, f)
  end.

Definition NewFile (path : string) (disk : option fileSnapshot) (faults : list io_outcome)
    : result File :=
  if String.eqb path "" then Fail (Errorf "broker.stateStore.path is required when type is file")
  else
    let f := {| path := path; allocations := ∅; admission := zero_AdmissionStateDocument;
                leader := ∅; disk := disk; faults := faults |} in
    match loadLocked f with
    | (Some err, _) => Fail err
    | (None, f) => Ok f
    end.

(** Undo of a single entry: [f.allocations[id] = prev] or [delete]. *)
Definition restore (f : File) (id : string) (prev : option AllocationStatus) : File :=
  match prev with
  | Some prev => set_allocations f (<[id := prev]> (allocations f))
  | None => set_allocations f (delete id (allocations f))
  end.

Definition Save (f : File) (status : AllocationStatus) : option error * File :=
  let prev := allocations f !! as_ID status in
  let f := set_allocations f (<[as_ID status := status]> (allocations f)) in
  match persistLocked f with
  | (Some err, f) => (Some err, restore f (as_ID status) prev)
  | (None, f) => (None, f)
  end.

Definition Delete (f : File) (id : string) : option error * File :=
  match allocations f !! id with
  | None => (None, f)
  | Some prev =>
      match persistLocked (set_allocations f (delete id (allocations f))) with
      | (Some err, f) => (Some err, set_allocations f (<[id := prev]> (allocations f)))
      | (None, f) => (None, f)
      end
  end.

Definition Get (f : File) (id : string) : option AllocationStatus := allocations f !! id.

Definition List `{GoRange} (f : File) : list AllocationStatus := (range (allocations f)).*2.

Definition MarkState (f : File) (id : string) (state : AllocationState) (now : Time)
    (message : string) : option AllocationStatus * File :=
  match allocations f !! id with
  | None => (None, f)
  | Some previous =>
      let status := applyMarkState previous state now message in
      match persistLocked (set_allocations f (<[id := status]> (allocations f))) with
      | (Some _, f) => (None, set_allocations f (<[id := previous]> (allocations f)))
      | (None, f) => (Some status, f)
      end
  end.

Definition CompareAndMarkState (f : File) (id : string) (expectedFrom to : AllocationState)
    (now : Time) (message : string) : option AllocationStatus * File :=
  match allocations f !! id with
  | None => (None, f)
  | Some previous =>
      if negb (state_eqb (as_State previous) expectedFrom) then (None, f)
      else
        let status := applyMarkState previous to now message in
        match persistLocked (set_allocations f (<[id := status]> (allocations f))) with
        | (Some _, f) => (None, set_allocations f (<[id := previous]> (allocations f)))
        | (None, f) => (Some status, f)
        end
  end.

Definition SaveIfState (f : File) (status : AllocationStatus) (expectedFrom : AllocationState)
    : result bool * File :=
  match allocations f !! as_ID status with
  | None => (Ok false, f)
  | Some current =>
      if negb (state_eqb (as_State current) expectedFrom) then (Ok false, f)
      else match persistLocked (set_allocations f (<[as_ID status := status]> (allocations f))) with
           | (Some err, f) => (Fail err, set_allocations f (<[as_ID status := current]> (allocations f)))
           | (None, f) => (Ok true, f)
           end
  end.

Definition SaveIfCapacity (f : File) (status : AllocationStatus)
    (maxRunners tenantQuota backendLimit : Z) : option error * File :=
  match capacityAllowed (allocations f) status maxRunners tenantQuota backendLimit with
  | Some err => (Some err, f)
  | None =>
      let prev := allocations f !! as_ID status in
      match persistLocked (set_allocations f (<[as_ID status := status]> (allocations f))) with
      | (Some err, f) => (Some err, restore f (as_ID status) prev)
      | (None, f) => (None, f)
      end
  end.

Definition CountActive (f : File) (pool : PoolName) (backend : BackendName) : Z :=
  countActiveLocked (allocations f) pool backend "".

Definition CountBackendActive (f : File) (backend : BackendName) : Z :=
  countBackendActiveLocked (allocations f) backend "".

Definition CountTenantActive (f : File) (pool : PoolName) (tenant : string) : Z :=
  countTenantActiveLocked (allocations f) pool tenant "".

(** The undo loop writes back every deleted record. *)
Definition restore_all (prev : list (string * AllocationStatus)) (m : Allocations) : Allocations :=
  foldl (fun m kv => <[kv.1 := kv.2]> m) m prev.

Definition PruneTerminal `{GoRange} (f : File) (now : Time) (retention : Duration)
    : result Z * File :=
  if retention <=? 0 then (Ok 0, f)
  else
    let ids := collectPrunableIDs (allocations f) now retention in
    if (length ids =? 0)%nat then (Ok 0, f)
    else
      let prev := (fun id => (id, (allocations f).[id])) <$> ids in
      match persistLocked (set_allocations f (delete_all ids (allocations f))) with
      | (Some err, f) => (Fail err, set_allocations f (restore_all prev (allocations f)))
      | (None, f) => (Ok (Z.of_nat (length ids)), f)
      end.

Definition TryAcquireLeadership (f : File) (name identity : string) (ttl : Duration) (now : Time)
    : result bool * File :=
  let ttl := if ttl <=? 0 then 15 * Second else ttl in
  match loadLocked f with
  | (Some err, f) => (Fail err, f)
  | (None, f) =>
      let acquire :=
        match persistLocked
                { f with leader := <[name := {| Holder := identity; ExpiresAt := TimeAdd now ttl |}]> (leader f) } with
        | (Some err, f) => (Fail err, f)
        | (None, f) => (Ok true, f)
        end in
      match leader f !! name with
      | Some lease =>
          if After (ExpiresAt lease) now && negb (String.eqb (Holder lease) identity)
          then (Ok false, f) else acquire
      | None => acquire
      end
  end.

Definition ReleaseLeadership (f : File) (name identity : string) : option error * File :=
  match loadLocked f with
  | (Some err, f) => (Some err, f)
  | (None, f) =>
      match leader f !! name with
      | None => (None, f)
      | Some lease =>
          if negb (String.eqb (Holder lease) identity) then (None, f)
          else persistLocked { f with leader := delete name (leader f) }
      end
  end.

Definition LoadAdmissionState (f : File) : result AdmissionStateDocument :=
  Ok (Memory.cloneAdmission (admission f)).

(** The error of the final persist is discarded by every caller. *)
Definition SaveAdmissionState (f : File) (doc : AdmissionStateDocument) : File :=
  (persistLocked { f with admission := Memory.cloneAdmission doc }).2.

(** A process crash keeps only the disk; the next process loads it. *)
Definition restart (f : File) : result File := NewFile (path f) (disk f) (faults f).

End File.

(** ** The store interface *)

Class AllocationStore `{GoRange} (S : Type) := {
  contents : S → Allocations;
  store_Save : S → AllocationStatus → option error * S;
  store_Delete : S → string → option error * S;
  store_Get : S → string → option AllocationStatus;
  store_List : S → list AllocationStatus;
  store_MarkState : S → string → AllocationState → Time → string → option AllocationStatus * S;
  store_CompareAndMarkState :
    S → string → AllocationState → AllocationState → Time → string → option AllocationStatus * S;
  store_SaveIfState : S → AllocationStatus → AllocationState → result bool * S;
  store_SaveIfCapacity : S → AllocationStatus → Z → Z → Z → option error * S;
  store_CountActive : S → PoolName → BackendName → Z;
  store_CountBackendActive : S → BackendName → Z;
  store_PruneTerminal : S → Time → Duration → result Z * S;
}.

(** The memory store whose allocations are [m]: the specification the laws
    refer to. *)
Definition spec_store (m : Allocations) : Memory.Memory := Memory.set_allocations Memory.NewMemory m.

(** A mutating operation of a store either acts on the contents as the memory
    store does, with its result, or reports a failure and leaves the contents
    alone. *)
Definition refines_or_fails {R} (failed : R → Prop) (spec : R * Memory.Memory)
    (before : Allocations) (r : R) (after : Allocations) : Prop :=
  (r = spec.1 ∧ after = Memory.allocations spec.2) ∨ (failed r ∧ after = before).

Class AllocationStoreLaws `{GoRange} (S : Type) `{!AllocationStore S} := {
  get_law s id : store_Get s id = contents s !! id;
  list_law s : store_List s ≡ₚ (map_to_list (contents s)).*2;
  count_active_law s pool backend :
    store_CountActive s pool backend = countActiveLocked (contents s) pool backend "";
  count_backend_law s backend :
    store_CountBackendActive s backend = countBackendActiveLocked (contents s) backend "";
  save_law s status r s' :
    store_Save s status = (r, s') →
    refines_or_fails is_Some (Memory.Save (spec_store (contents s)) status) (contents s) r (contents s');
  delete_law s id r s' :
    store_Delete s id = (r, s') →
    refines_or_fails is_Some (Memory.Delete (spec_store (contents s)) id) (contents s) r (contents s');
  mark_law s id state now message r s' :
    store_MarkState s id state now message = (r, s') →
    refines_or_fails (fun r => r = None)
      (Memory.MarkState (spec_store (contents s)) id state now message) (contents s) r (contents s');
  compare_and_mark_law s id from to now message r s' :
    store_CompareAndMarkState s id from to now message = (r, s') →
    refines_or_fails (fun r => r = None)
      (Memory.CompareAndMarkState (spec_store (contents s)) id from to now message)
      (contents s) r (contents s');
  save_if_state_law s status from r s' :
    store_SaveIfState s status from = (r, s') →
    refines_or_fails (fun r => is_Ok r = false)
      (Memory.SaveIfState (spec_store (contents s)) status from) (contents s) r (contents s');
  save_if_capacity_law s status maxRunners tenantQuota backendLimit r s' :
    store_SaveIfCapacity s status maxRunners tenantQuota backendLimit = (r, s') →
    refines_or_fails is_Some
      (Memory.SaveIfCapacity (spec_store (contents s)) status maxRunners tenantQuota backendLimit)
      (contents s) r (contents s');
  prune_law s now retention r s' :
    store_PruneTerminal s now retention = (r, s') →
    refines_or_fails (fun r => is_Ok r = false)
      (Memory.PruneTerminal (spec_store (contents s)) now retention) (contents s) r (contents s');
}.

#[export] Instance memory_store `{GoRange} : AllocationStore Memory.Memory := {
  contents := Memory.allocations;
  store_Save := Memory.Save;
  store_Delete := Memory.Delete;
  store_Get := Memory.Get;
  store_List := Memory.List;
  store_MarkState := Memory.MarkState;
  store_CompareAndMarkState := Memory.CompareAndMarkState;
  store_SaveIfState := Memory.SaveIfState;
  store_SaveIfCapacity := Memory.SaveIfCapacity;
  store_CountActive := Memory.CountActive;
  store_CountBackendActive := Memory.CountBackendActive;
  store_PruneTerminal := Memory.PruneTerminal;
}.

#[export] Instance file_store `{GoRange} : AllocationStore File.File := {
  contents := File.allocations;
  store_Save := File.Save;
  store_Delete := File.Delete;
  store_Get := File.Get;
  store_List := File.List;
  store_MarkState := File.MarkState;
  store_CompareAndMarkState := File.CompareAndMarkState;
  store_SaveIfState := File.SaveIfState;
  store_SaveIfCapacity := File.SaveIfCapacity;
  store_CountActive := File.CountActive;
  store_CountBackendActive := File.CountBackendActive;
  store_PruneTerminal := File.PruneTerminal;
}.

#[export] Instance memory_admission : AdmissionStateStore Memory.Memory := {
  LoadAdmissionState := Memory.LoadAdmissionState;
  SaveAdmissionState := Memory.SaveAdmissionState;
}.

#[export] Instance file_admission : AdmissionStateStore File.File := {
  LoadAdmissionState := File.LoadAdmissionState;
  SaveAdmissionState := File.SaveAdmissionState;
}.

#[export] Instance memory_admission_reliable : AdmissionStateReliable Memory.Memory.
Proof. constructor; [intros s; eexists; reflexivity|intros s []; reflexivity]. Qed.

(** A failed disk write of the admission state keeps the new document in memory. *)
#[export] Instance file_admission_reliable : AdmissionStateReliable File.File.
Proof.
  constructor; [intros f; eexists; reflexivity|]. intros f []. cbn.
  unfold File.LoadAdmissionState, File.SaveAdmissionState, File.persistLocked, File.next_io.
  cbn. destruct (File.faults f) as [|[] ?]; reflexivity.
Qed.
