(* ===== verification/StoreTheory.v ===== *)
(** Theorems about the allocation stores of Store.v: the laws of the store
    interface for both implementations, admission under capacity limits,
    compare-and-swap transitions, retention pruning, crash recovery of the
    file store, leader leases and the webhook inbox. *)

From S2P Require Import Prelude Errors Model Store.

(** ** Counting accounted records *)

(** The common shape of the three counting loops. *)
Definition counted (test : AllocationStatus → bool) (excludeID id : string)
    (status : AllocationStatus) : bool :=
  if excluded excludeID id then false else test status.

Definition test_active (pool : PoolName) (backend : BackendName) (status : AllocationStatus) : bool :=
  if negb (String.eqb (as_Pool status) pool) || negb (String.eqb (as_SelectedBackend status) backend)
  then false else isSchedulerAccountedState (as_State status).

Definition test_backend (backend : BackendName) (status : AllocationStatus) : bool :=
  if negb (String.eqb (as_SelectedBackend status) backend) then false
  else isSchedulerAccountedState (as_State status).

Definition test_tenant (pool : PoolName) (tenant : string) (status : AllocationStatus) : bool :=
  if negb (String.eqb (as_Pool status) pool) then false
  else if negb (isSchedulerAccountedState (as_State status)) then false
  else String.eqb (normalizeTenant (as_Tenant status)) tenant.

Section Counting.
Implicit Types (m : Allocations) (test : AllocationStatus → bool).

Lemma counted_none test id status : counted test "" id status = test status.
Proof. done. Qed.

Lemma test_active_true pool backend status :
  test_active pool backend status = true ↔
    as_Pool status = pool ∧ as_SelectedBackend status = backend ∧
    isSchedulerAccountedState (as_State status) = true.
Proof.
  unfold test_active.
  destruct (String.eqb_spec (as_Pool status) pool), (String.eqb_spec (as_SelectedBackend status) backend);
    naive_solver.
Qed.

Lemma counted_insert test m status :
  count_map (counted test "") (<[as_ID status := status]> m) ≤
    count_map (counted test (as_ID status)) m + (if test status then 1 else 0).
Proof.
  rewrite count_map_insert, !counted_none.
  destruct (m !! as_ID status) as [old|] eqn:Hold.
  - assert (Hrest :
      sum_map (λ k v, if counted test "" k v then 1 else 0) (delete (as_ID status) m) ≤
      sum_map (λ k v, if counted test (as_ID status) k v then 1 else 0) (delete (as_ID status) m)).
    { apply sum_map_le. intros k x Hk. apply lookup_delete_Some in Hk as [Hne _].
      unfold counted, excluded. simpl.
      destruct (String.eqb_spec k (as_ID status)); [by subst|]. rewrite andb_false_r. lia. }
    unfold count_map. rewrite !(sum_map_delete _ m _ old Hold), counted_none.
    assert (0 ≤ if counted test (as_ID status) (as_ID status) old then 1 else 0)
      by (case_match; lia). lia.
  - assert (count_map (counted test "") m ≤ count_map (counted test (as_ID status)) m); [|lia].
    apply count_map_le. intros k x Hk. unfold counted, excluded. simpl.
    destruct (String.eqb_spec k (as_ID status)); [congruence|]. by rewrite andb_false_r.
Qed.

Lemma countActive_insert m pool backend status :
  countActiveLocked (<[as_ID status := status]> m) pool backend "" ≤
    countActiveLocked m pool backend (as_ID status)
      + (if test_active pool backend status then 1 else 0).
Proof. apply (counted_insert (test_active pool backend)). Qed.

Lemma countBackend_insert m backend status :
  countBackendActiveLocked (<[as_ID status := status]> m) backend "" ≤
    countBackendActiveLocked m backend (as_ID status) + (if test_backend backend status then 1 else 0).
Proof. apply (counted_insert (test_backend backend)). Qed.

Lemma countTenant_insert m pool tenant status :
  countTenantActiveLocked (<[as_ID status := status]> m) pool tenant "" ≤
    countTenantActiveLocked m pool tenant (as_ID status)
      + (if test_tenant pool (normalizeTenant tenant) status then 1 else 0).
Proof. apply (counted_insert (test_tenant pool (normalizeTenant tenant))). Qed.

(** Excluding an id only lowers a count. *)
Lemma countActive_excluded m pool backend id :
  countActiveLocked m pool backend id ≤ countActiveLocked m pool backend "".
Proof.
  apply count_map_le. intros k x _. unfold counts_active, excluded. simpl. by repeat case_match.
Qed.

(** Replacing a record by one that counts no more leaves the count bounded. *)
Lemma countActive_replace m pool backend id old new :
  m !! id = Some old →
  (test_active pool backend new = true → test_active pool backend old = true) →
  countActiveLocked (<[id := new]> m) pool backend "" ≤ countActiveLocked m pool backend "".
Proof.
  intros Hold Himp. unfold countActiveLocked. rewrite count_map_insert, Hold.
  unfold counts_active, excluded. simpl. fold (test_active pool backend old).
  fold (test_active pool backend new).
  destruct (test_active pool backend new), (test_active pool backend old); lia.
Qed.

Lemma countActive_delete m pool backend id :
  countActiveLocked (delete id m) pool backend "" ≤ countActiveLocked m pool backend "".
Proof.
  unfold countActiveLocked, count_map. destruct (m !! id) as [old|] eqn:Hold.
  - rewrite (sum_map_delete _ m id old Hold). case_match; lia.
  - by rewrite delete_id.
Qed.

Lemma countActive_delete_all ids m pool backend :
  countActiveLocked (delete_all ids m) pool backend "" ≤ countActiveLocked m pool backend "".
Proof.
  unfold delete_all. revert m. induction ids as [|id ids IH]; intros m; simpl; [done|].
  etrans; [apply IH | apply countActive_delete].
Qed.
End Counting.

(** ** Both stores implement the interface *)

Lemma spec_store_allocations m : Memory.allocations (spec_store m) = m.
Proof. done. Qed.

(** Compute an operation of a store on both sides of a law. *)
Tactic Notation "store_op" reference(op) := unfold op; rewrite ?spec_store_allocations; cbn.

#[export] Instance memory_store_laws `{GoRange} : AllocationStoreLaws Memory.Memory.
Proof.
  split; simpl; try done.
  - intros s. unfold Memory.List. by rewrite (range_perm (Memory.allocations s)).
  - intros s status r s' [= <- <-]. by left.
  - intros s id r s' [= <- <-]. by left.
  - intros s id state now message r s'. store_op Memory.MarkState.
    case_match; intros [= <- <-]; by left.
  - intros s id from to now message r s'. store_op Memory.CompareAndMarkState.
    repeat case_match; intros [= <- <-]; by left.
  - intros s status from r s'. store_op Memory.SaveIfState.
    repeat case_match; intros [= <- <-]; by left.
  - intros s status a b c r s'. store_op Memory.SaveIfCapacity.
    repeat case_match; intros [= <- <-]; by left.
  - intros s now retention r s'. store_op Memory.PruneTerminal.
    repeat case_match; intros [= <- <-]; by left.
Qed.

Lemma persistLocked_keeps f r f' :
  File.persistLocked f = (r, f') → File.allocations f' = File.allocations f.
Proof.
  unfold File.persistLocked, File.next_io. destruct (File.faults f) as [|[] ?]; simpl;
    intros [= <- <-]; done.
Qed.

(** Undoing an insertion gives back the map it was made on. *)
Lemma restore_insert f m id x :
  File.allocations f = <[id := x]> m → File.allocations (File.restore f id (m !! id)) = m.
Proof.
  intros Hf. unfold File.restore. destruct (m !! id) as [old|] eqn:Hold; simpl; rewrite Hf.
  - by rewrite insert_insert_eq, insert_id.
  - by rewrite delete_insert_id.
Qed.

Lemma lookup_delete_all ids m i :
  delete_all ids m !! i = if decide (i ∈ ids) then None else m !! i.
Proof.
  unfold delete_all. revert m. induction ids as [|id ids IH]; intros m; cbn [foldl].
  - by rewrite decide_False by set_solver.
  - rewrite IH. destruct (decide (i ∈ ids)).
    + by rewrite decide_True by set_solver.
    + destruct (decide (i = id)) as [->|Hne].
      * rewrite decide_True by set_solver. apply lookup_delete_eq.
      * rewrite decide_False by set_solver. by apply lookup_delete_ne.
Qed.

(** The undo loop of PruneTerminal restores the map. *)
Lemma restore_all_delete_all ids (m : Allocations) :
  (∀ id, id ∈ ids → is_Some (m !! id)) →
  File.restore_all ((fun id => (id, m.[id])) <$> ids) (delete_all ids m) = m.
Proof.
  intros Hids. apply map_eq. intros i.
  assert (Hgen : ∀ (l : list string) (m0 : Allocations),
    (∀ id, id ∈ l → is_Some (m !! id)) →
    File.restore_all ((fun id => (id, m.[id])) <$> l) m0 !! i =
      if decide (i ∈ l) then m !! i else m0 !! i).
  { unfold File.restore_all. induction l as [|id l IH]; intros m0 Hl; cbn [fmap list_fmap foldl].
    { by rewrite decide_False by set_solver. }
    rewrite IH by (intros; apply Hl; set_solver).
    destruct (decide (i ∈ l)); [by rewrite decide_True by set_solver|].
    destruct (decide (i = id)) as [->|Hne].
    - rewrite decide_True by set_solver. rewrite lookup_insert_eq.
      destruct (Hl id ltac:(set_solver)) as [x Hx]. by rewrite (map_read_Some _ _ _ Hx).
    - rewrite decide_False by set_solver. by apply lookup_insert_ne. }
  rewrite Hgen by done. rewrite lookup_delete_all. by case_decide.
Qed.

Lemma collectPrunableIDs_in `{GoRange} m now retention id :
  id ∈ collectPrunableIDs m now retention ↔
    0 < retention ∧ ∃ status, m !! id = Some status ∧ prunable (TimeAdd now (- retention)) status = true.
Proof.
  unfold collectPrunableIDs. destruct (Z.leb_spec retention 0); [split; [set_solver | lia]|].
  rewrite list_elem_of_fmap. split.
  - intros ([k x] & -> & [Hp Hin]%list_elem_of_filter). split; [lia|].
    exists x. split; [by apply elem_of_range | done].
  - intros (_ & x & Hx & Hp). exists (id, x). split; [done|].
    apply list_elem_of_filter. split; [done | by apply elem_of_range].
Qed.

Lemma collectPrunableIDs_NoDup `{GoRange} m now retention :
  NoDup (collectPrunableIDs m now retention).
Proof.
  unfold collectPrunableIDs. case_match; [constructor|]. apply NoDup_fmap_fst.
  - intros k x y [_ Hx%elem_of_range]%list_elem_of_filter [_ Hy%elem_of_range]%list_elem_of_filter.
    congruence.
  - apply NoDup_filter, range_NoDup.
Qed.

Lemma size_delete_all ids (m : Allocations) :
  NoDup ids → (∀ id, id ∈ ids → is_Some (m !! id)) →
  Z.of_nat (size (delete_all ids m)) = Z.of_nat (size m) - Z.of_nat (length ids).
Proof.
  intros Hnd. revert m. induction Hnd as [|id ids Hnin Hnd IH]; intros m Hin.
  { unfold delete_all. simpl. lia. }
  assert (Hid : is_Some (m !! id)) by (apply Hin; set_solver).
  unfold delete_all in *. cbn [foldl length]. rewrite IH.
  - rewrite map_size_delete. destruct Hid as [x Hx]. rewrite Hx.
    assert (size m ≠ 0%nat); [|lia]. rewrite map_size_ne_0_lookup. eauto.
  - intros id' Hid'. rewrite lookup_delete_ne by set_solver. apply Hin. set_solver.
Qed.

Ltac file_case :=
  repeat case_match; simplify_eq/=; intros [= <- <-];
  repeat match goal with
  | E : File.persistLocked _ = (_, _) |- _ => apply persistLocked_keeps in E; simpl in E
  end.

(** Rewrite the contents left by a failed persist, then cancel the undo. *)
Ltac undo_persist :=
  right; split; [done|]; cbn;
  match goal with E : File.allocations ?f = _ |- context [File.allocations ?f] => rewrite E end;
  rewrite ?insert_insert_eq, ?insert_delete_id, ?insert_id by done; try done.

#[export] Instance file_store_laws `{GoRange} : AllocationStoreLaws File.File.
Proof.
  split; simpl; try done.
  - intros s. unfold File.List. by rewrite (range_perm (File.allocations s)).
  - intros s status r s'. unfold File.Save. file_case.
    + right. split; [done|]. by eapply restore_insert.
    + left. done.
  - intros s id r s'. store_op Memory.Delete. unfold File.Delete. file_case.
    + undo_persist.
    + by left.
    + left. split; [done|]. by rewrite delete_id.
  - intros s id state now message r s'. store_op Memory.MarkState. unfold File.MarkState.
    file_case.
    + undo_persist.
    + by left.
    + by left.
  - intros s id from to now message r s'. store_op Memory.CompareAndMarkState. unfold File.CompareAndMarkState. file_case; try by left.
    undo_persist.
  - intros s status from r s'. store_op Memory.SaveIfState. unfold File.SaveIfState.
    file_case; try by left.
    undo_persist.
  - intros s status a b c r s'. store_op Memory.SaveIfCapacity. unfold File.SaveIfCapacity.
    file_case; try by left.
    right. split; [done|]. by eapply restore_insert.
  - intros s now retention r s'. store_op Memory.PruneTerminal. unfold File.PruneTerminal.
    file_case; try by left.
    + left. apply Nat.eqb_eq, length_zero_iff_nil in H1. simpl. by rewrite H1.
    + undo_persist. apply restore_all_delete_all.
      intros id (_ & x & Hx & _)%collectPrunableIDs_in. by exists x.
Qed.

(** ** Admission under capacity limits *)

Lemma capacityAllowed_None m status maxRunners tenantQuota backendLimit :
  capacityAllowed m status maxRunners tenantQuota backendLimit = None ↔
    (0 < maxRunners →
       countActiveLocked m (as_Pool status) (as_SelectedBackend status) (as_ID status) < maxRunners) ∧
    (0 < backendLimit →
       countBackendActiveLocked m (as_SelectedBackend status) (as_ID status) < backendLimit) ∧
    (0 < tenantQuota →
       countTenantActiveLocked m (as_Pool status) (as_Tenant status) (as_ID status) < tenantQuota).
Proof.
  unfold capacityAllowed. split.
  - repeat case_match; intros; simplify_eq; reflect_bools; lia.
  - intros (H1 & H2 & H3). repeat case_match; reflect_bools; try done; lia.
Qed.

Section Admission.
Context `{GoRange} {S : Type} `{!AllocationStore S, !AllocationStoreLaws S}.
Implicit Types (s : S).

(** The contents a successful or failed SaveIfCapacity leaves. *)
Lemma save_if_capacity_cases s status maxRunners tenantQuota backendLimit r s' :
  store_SaveIfCapacity s status maxRunners tenantQuota backendLimit = (r, s') →
  (r = None ∧ contents s' = <[as_ID status := status]> (contents s) ∧
     capacityAllowed (contents s) status maxRunners tenantQuota backendLimit = None) ∨
  (is_Some r ∧ contents s' = contents s).
Proof.
  intros [[-> ->]|[Hr ->]]%save_if_capacity_law; [|by right].
  store_op Memory.SaveIfCapacity.
  destruct (capacityAllowed _ _ _ _ _) eqn:Hc; cbn; [right | left]; eauto.
Qed.

(** SaveIfCapacity of any store: when it succeeds, the record is stored and every positive
    limit holds of the counts the store then reports for the record's own lane:
    pool/backend against maxRunners, backend across pools against backendLimit,
    tenant in the pool against tenantQuota.  When it fails, the contents are unchanged. *)
Theorem save_if_capacity_respects_limits s status maxRunners tenantQuota backendLimit r s' :
  store_SaveIfCapacity s status maxRunners tenantQuota backendLimit = (r, s') →
  (r = None →
     store_Get s' (as_ID status) = Some status ∧
     (0 < maxRunners →
        store_CountActive s' (as_Pool status) (as_SelectedBackend status) ≤ maxRunners) ∧
     (0 < backendLimit →
        store_CountBackendActive s' (as_SelectedBackend status) ≤ backendLimit) ∧
     (0 < tenantQuota →
        countTenantActiveLocked (contents s') (as_Pool status) (as_Tenant status) "" ≤ tenantQuota)) ∧
  (is_Some r → contents s' = contents s).
Proof.
  intros [(-> & Hc & Hok)|[[e ->] Hc]]%save_if_capacity_cases; [|done].
  split; [intros _ | by intros [? [=]]].
  rewrite get_law, count_active_law, count_backend_law, Hc, lookup_insert_eq.
  apply capacityAllowed_None in Hok as (H1 & H2 & H3).
  pose proof (countActive_insert (contents s) (as_Pool status) (as_SelectedBackend status) status).
  pose proof (countBackend_insert (contents s) (as_SelectedBackend status) status).
  pose proof (countTenant_insert (contents s) (as_Pool status) (as_Tenant status) status).
  split; [done|]. repeat case_match; lia.
Qed.

(** The steps brokers take on a shared store: capacity-checked admission, and
    transitions that never turn a record that holds no slot into one that does. *)
Definition keeps_lane (old new : AllocationStatus) : Prop :=
  isSchedulerAccountedState (as_State new) = true →
  isSchedulerAccountedState (as_State old) = true ∧
  as_Pool new = as_Pool old ∧ as_SelectedBackend new = as_SelectedBackend old.

Inductive store_step (limit : PoolName → BackendName → Z) (s s' : S) : Prop :=
  | step_admit status tenantQuota backendLimit r :
      store_SaveIfCapacity s status (limit (as_Pool status) (as_SelectedBackend status))
        tenantQuota backendLimit = (r, s') → store_step limit s s'
  | step_mark id state now message r :
      isSchedulerAccountedState state = false →
      store_MarkState s id state now message = (r, s') → store_step limit s s'
  | step_claim_warm id now message r :
      (∀ old, contents s !! id = Some old → as_State old = StateWarm) →
      store_MarkState s id StateReady now message = (r, s') → store_step limit s s'
  | step_compare_and_mark id from to now message r :
      (isSchedulerAccountedState to = true → isSchedulerAccountedState from = true) →
      store_CompareAndMarkState s id from to now message = (r, s') → store_step limit s s'
  | step_commit status from r :
      (∀ old, contents s !! as_ID status = Some old → as_State old = from → keeps_lane old status) →
      store_SaveIfState s status from = (r, s') → store_step limit s s'
  | step_delete id r : store_Delete s id = (r, s') → store_step limit s s'
  | step_prune now retention r :
      store_PruneTerminal s now retention = (r, s') → store_step limit s s'.

Definition within_limits (limit : PoolName → BackendName → Z) (m : Allocations) : Prop :=
  ∀ pool backend, 0 < limit pool backend → countActiveLocked m pool backend "" ≤ limit pool backend.

Lemma test_active_keeps_lane pool backend old new :
  keeps_lane old new → test_active pool backend new = true → test_active pool backend old = true.
Proof.
  rewrite !test_active_true. intros Hk (<- & <- & Hn).
  by destruct (Hk Hn) as (? & -> & ->).
Qed.

Lemma within_limits_insert limit m id old new :
  m !! id = Some old → keeps_lane old new →
  within_limits limit m → within_limits limit (<[id := new]> m).
Proof.
  intros Hold Hk Hw pool backend Hl. specialize (Hw pool backend Hl).
  pose proof (countActive_replace m pool backend id old new Hold
                (test_active_keeps_lane pool backend old new Hk)). lia.
Qed.

Lemma applyMarkState_lane status state now message :
  as_State (applyMarkState status state now message) = state ∧
  as_Pool (applyMarkState status state now message) = as_Pool status ∧
  as_SelectedBackend (applyMarkState status state now message) = as_SelectedBackend status.
Proof. unfold applyMarkState. repeat case_match; done. Qed.

Lemma applyMarkState_ID status state now message : as_ID (applyMarkState status state now message) = as_ID status.
Proof. unfold applyMarkState. by repeat case_match. Qed.

Lemma keeps_lane_mark status state now message :
  (isSchedulerAccountedState state = true → isSchedulerAccountedState (as_State status) = true) →
  keeps_lane status (applyMarkState status state now message).
Proof.
  unfold keeps_lane. destruct (applyMarkState_lane status state now message) as (-> & -> & ->).
  auto.
Qed.

Lemma within_limits_mark limit m id state now message r m' :
  (∀ old, m !! id = Some old →
     isSchedulerAccountedState state = true → isSchedulerAccountedState (as_State old) = true) →
  within_limits limit m →
  refines_or_fails (fun r => r = None) (Memory.MarkState (spec_store m) id state now message) m r m' →
  within_limits limit m'.
Proof.
  intros Hst Hw [[_ ->]|[_ ->]]; [|done]. store_op Memory.MarkState.
  destruct (m !! id) as [old|] eqn:Hold; cbn; [|done].
  eapply within_limits_insert; eauto using keeps_lane_mark.
Qed.

Lemma within_limits_step limit s s' :
  store_step limit s s' → within_limits limit (contents s) → within_limits limit (contents s').
Proof.
  intros Hstep Hw. destruct Hstep as
    [status q bl r Hop|id state now msg r Ha Hop|id now msg r Hwarm Hop|id from to now msg r Ha Hop
    |status from r Hk Hop|id r Hop|now retention r Hop].
  - apply save_if_capacity_cases in Hop as [(_ & -> & Hok)|[_ ->]]; [|done].
    intros pool backend Hl. apply capacityAllowed_None in Hok as [Hmax _].
    pose proof (countActive_insert (contents s) pool backend status) as Hi.
    destruct (test_active pool backend status) eqn:Ht.
    + assert (as_Pool status = pool ∧ as_SelectedBackend status = backend) as [<- <-].
      { apply test_active_true in Ht. naive_solver. }
      specialize (Hmax Hl). lia.
    + pose proof (countActive_excluded (contents s) pool backend (as_ID status)).
      specialize (Hw pool backend Hl). lia.
  - eapply within_limits_mark; [| exact Hw | by eapply mark_law]. intros old _. by rewrite Ha.
  - eapply within_limits_mark; [| exact Hw | by eapply mark_law].
    intros old Hold _. by rewrite (Hwarm old Hold).
  - apply compare_and_mark_law in Hop as [[_ ->]|[_ ->]]; [|done].
    store_op Memory.CompareAndMarkState.
    destruct (contents s !! id) as [old|] eqn:Hold; cbn; [|done].
    case_match eqn:Hf; cbn; [done|]. unfold state_eqb in Hf. reflect_bools.
    eapply within_limits_insert; eauto. apply keeps_lane_mark. by rewrite Hf.
  - apply save_if_state_law in Hop as [[_ ->]|[_ ->]]; [|done].
    store_op Memory.SaveIfState.
    destruct (contents s !! as_ID status) as [old|] eqn:Hold; cbn; [|done].
    case_match eqn:Hf; cbn; [done|]. unfold state_eqb in Hf. reflect_bools.
    eapply within_limits_insert; eauto.
  - apply delete_law in Hop as [[_ ->]|[_ ->]]; [|done]. store_op Memory.Delete.
    intros pool backend Hl. specialize (Hw pool backend Hl).
    pose proof (countActive_delete (contents s) pool backend id). lia.
  - apply prune_law in Hop as [[_ ->]|[_ ->]]; [|done]. store_op Memory.PruneTerminal.
    case_match; [done|]. intros pool backend Hl. specialize (Hw pool backend Hl). cbn.
    pose proof (countActive_delete_all (collectPrunableIDs (contents s) now retention)
                  (contents s) pool backend). lia.
Qed.


(** Compare-and-mark elects one winner: once a transition out of [from] to another state
    has succeeded, on a record that was in [from], a second one from the same state on the same
    record fails and leaves the store contents alone, whatever target the loser asked for. *)
Theorem compare_and_mark_single_winner s id from to1 to2 now1 now2 msg1 msg2 won s1 r2 s2 :
  to1 ≠ from →
  store_CompareAndMarkState s id from to1 now1 msg1 = (Some won, s1) →
  store_CompareAndMarkState s1 id from to2 now2 msg2 = (r2, s2) →
  (∃ old, contents s !! id = Some old ∧ as_State old = from ∧ won = applyMarkState old to1 now1 msg1) ∧
  as_State won = to1 ∧ contents s1 !! id = Some won ∧ r2 = None ∧ contents s2 = contents s1.
Proof.
  intros Hne H1 H2. apply compare_and_mark_law in H1 as [[Hwon Hc1]|[? _]]; [|done].
  revert Hwon Hc1. store_op Memory.CompareAndMarkState.
  destruct (contents s !! id) as [old|] eqn:Hold; cbn; [|done].
  case_match eqn:Hf; cbn; [done|]. intros [= ->] Hc1.
  assert (Hst : as_State (applyMarkState old to1 now1 msg1) = to1) by apply applyMarkState_lane.
  assert (Hl : contents s1 !! id = Some (applyMarkState old to1 now1 msg1))
    by (rewrite Hc1; apply lookup_insert_eq).
  split.
  { exists old. split_and!; [done| |done]. unfold state_eqb in Hf. by destruct (bool_decide_reflect (as_State old = from)). }
  apply compare_and_mark_law in H2 as [[-> ->]|[-> ->]]; [|done].
  store_op Memory.CompareAndMarkState. rewrite Hl, Hst.
  unfold state_eqb. by rewrite bool_decide_eq_false_2.
Qed.

(** Retention pruning is exact: it removes precisely the terminal records whose age anchor
    is at or before now - retention (or is unset), reports how many it removed, and so never
    deletes a record that still holds a slot or is queued. *)
Theorem prune_removes_exactly_the_expired s now retention n s' :
  store_PruneTerminal s now retention = (Ok n, s') →
  (∀ id status, contents s' !! id = Some status ↔
     contents s !! id = Some status ∧
     ¬ (0 < retention ∧ prunable (TimeAdd now (- retention)) status = true)) ∧
  n = Z.of_nat (size (contents s)) - Z.of_nat (size (contents s')) ∧
  (∀ id status, contents s !! id = Some status → isTerminalState (as_State status) = false →
     contents s' !! id = Some status).
Proof.
  intros Hop. apply prune_law in Hop as [[Hr Hc]|[? _]]; [|done].
  assert (Hlookup : ∀ id status, contents s' !! id = Some status ↔
     contents s !! id = Some status ∧
     ¬ (0 < retention ∧ prunable (TimeAdd now (- retention)) status = true)).
  { intros id status. revert Hr Hc. store_op Memory.PruneTerminal.
    destruct (Z.leb_spec retention 0); cbn; intros _ ->; [split; [split; [done|lia] | by intros []]|].
    rewrite lookup_delete_all. case_decide as Hin; rewrite collectPrunableIDs_in in Hin.
    - split; [done|]. intros [Hst Hno]. destruct Hin as (? & st & Hst' & Hp). simplify_eq. by destruct Hno.
    - split; [|by intros []]. intros Hst. split; [done|]. intros [? Hp]. apply Hin. eauto. }
  split; [done|]. split.
  - revert Hr Hc. store_op Memory.PruneTerminal. destruct (Z.leb_spec retention 0); cbn.
    { intros [= ->] ->. lia. }
    intros [= ->] ->. rewrite size_delete_all; [lia | apply collectPrunableIDs_NoDup |].
    intros id (_ & st & Hst & _)%collectPrunableIDs_in. by exists st.
  - intros id status Hst Hterm. apply Hlookup. split; [done|]. intros [_ Hp].
    unfold prunable in Hp. by rewrite Hterm in Hp.
Qed.
End Admission.

(** ** Crash recovery of the file store *)

Section FileRecovery.
Context `{GoRange}.
Implicit Types (f g : File.File).

(** The snapshot on disk holds the allocations in memory. *)
Definition synced f : Prop :=
  match File.disk f with
  | None => File.allocations f = ∅
  | Some snap => File.snap_Allocations snap = File.allocations f
  end.

Definition no_late_faults f : Prop :=
  Forall (fun o => o ≠ File.IOfail_after_rename) (File.faults f).

(** Every mutating operation of the file store. *)
Inductive file_step f : File.File → Prop :=
  | file_save status : file_step f (File.Save f status).2
  | file_delete id : file_step f (File.Delete f id).2
  | file_mark id state now msg : file_step f (File.MarkState f id state now msg).2
  | file_cas id from to now msg : file_step f (File.CompareAndMarkState f id from to now msg).2
  | file_commit status from : file_step f (File.SaveIfState f status from).2
  | file_admit status a b c : file_step f (File.SaveIfCapacity f status a b c).2
  | file_prune now retention : file_step f (File.PruneTerminal f now retention).2
  | file_acquire name id ttl now : file_step f (File.TryAcquireLeadership f name id ttl now).2
  | file_release name id : file_step f (File.ReleaseLeadership f name id).2
  | file_admission doc : file_step f (File.SaveAdmissionState f doc).

Lemma persistLocked_synced f r f' :
  no_late_faults f → File.persistLocked f = (r, f') →
  no_late_faults f' ∧ File.allocations f' = File.allocations f ∧
  (if r is None then synced f' else File.disk f' = File.disk f).
Proof.
  unfold no_late_faults, File.persistLocked, File.next_io, synced.
  destruct (File.faults f) as [|o rest] eqn:Hf; cbn; [intros _ [= <- <-]; cbn; by rewrite Hf|].
  inversion 1; subst. destruct o; cbn; intros [= <- <-]; cbn; done.
Qed.

(** A write of the allocations that is undone when the persist fails. *)
Lemma persist_or_undo f g r f' :
  synced f → no_late_faults f →
  File.disk g = File.disk f → File.faults g = File.faults f →
  File.persistLocked g = (r, f') →
  no_late_faults f' ∧
  (r = None → synced f') ∧
  (is_Some r → ∀ a, a = File.allocations f → synced (File.set_allocations f' a)).
Proof.
  intros Hs Hn Hd Hfl Hp.
  destruct (persistLocked_synced g r f') as (Hn' & Ha & Hr); [|done|].
  { unfold no_late_faults. by rewrite Hfl. }
  split; [done|]. split; [by intros ->|]. intros [e ->] a ->.
  unfold synced in *. cbn. by rewrite Hr, Hd.
Qed.

Lemma loadLocked_synced f r f' :
  no_late_faults f → synced f → File.loadLocked f = (r, f') →
  no_late_faults f' ∧ synced f' ∧ File.allocations f' = File.allocations f.
Proof.
  unfold no_late_faults, File.loadLocked, File.next_io, synced. intros Hn Hs.
  assert (Hdec : ∀ h, File.disk h = File.disk f → File.allocations h = File.allocations f →
    let h' := match File.disk h with None => h | Some snap => File.decode h snap end in
    File.faults h' = File.faults h ∧ File.disk h' = File.disk h ∧ File.allocations h' = File.allocations f).
  { intros h Hd Ha. rewrite Hd. destruct (File.disk f) as [snap|]; [|done].
    unfold File.decode. repeat case_match; cbn; rewrite ?Hd, ?Hs; done. }
  destruct (File.faults f) as [|o rest] eqn:Hf.
  - intros [= <- <-]. destruct (Hdec f) as (-> & -> & ->); [done..|]. by rewrite Hf.
  - inversion Hn as [|? ? Ho Hrest]; subst. destruct o; intros [= <- <-]; [|done..].
    specialize (Hdec { f with File.faults := rest }). cbn in Hdec.
    destruct Hdec as (-> & -> & ->); done.
Qed.

Lemma restore_set f id prev :
  File.restore f id prev = File.set_allocations f (File.allocations (File.restore f id prev)).
Proof. by destruct prev. Qed.

(** One mutating operation: close the success branch, or leave the equation of the undo. *)
Ltac persisted :=
  match goal with
  | E : File.persistLocked ?g = (_, ?h), Hs : synced ?f, Hn : no_late_faults ?f |- _ =>
      let Hk := fresh "Hkeeps" in let Hn' := fresh in let Hok := fresh in let Hundo := fresh in
      pose proof (persistLocked_keeps _ _ _ E) as Hk; cbn in Hk;
      destruct (persist_or_undo f g _ h Hs Hn eq_refl eq_refl E) as (Hn' & Hok & Hundo);
      split; [first [by apply Hok | apply Hundo; [done|]] | by try exact Hn'];
      rewrite ?Hk, ?insert_insert_eq, ?insert_delete_id, ?insert_id by done; try done
  end.

(** A persist that does not touch the allocations. *)
Lemma persist_keeps_synced f g :
  synced f → no_late_faults f → File.allocations g = File.allocations f →
  File.disk g = File.disk f → File.faults g = File.faults f →
  synced (File.persistLocked g).2 ∧ no_late_faults (File.persistLocked g).2.
Proof.
  intros Hs Hn Ha Hd Hf. destruct (File.persistLocked g) as [r h] eqn:Hp.
  destruct (persistLocked_synced g r h) as (Hn' & Hk & Hr); [|done|].
  { unfold no_late_faults. by rewrite Hf. }
  cbn. split; [|done]. destruct r; [|done]. unfold synced in *. by rewrite Hr, Hd, Hk, Ha.
Qed.

Lemma file_step_synced f f' :
  file_step f f' → no_late_faults f → synced f → synced f' ∧ no_late_faults f'.
Proof.
  intros Hstep Hn Hs. destruct Hstep as
    [status|id|id state now msg|id from to now msg|status from|status a b c|now retention
    |name id ttl now|name id|doc].
  - unfold File.Save. case_match; case_match; cbn [snd]; [|persisted].
    rewrite restore_set. persisted. by eapply restore_insert.
  - unfold File.Delete. case_match; [|done]. case_match; case_match; cbn [snd]; persisted.
  - unfold File.MarkState. case_match; [|done]. case_match; case_match; cbn [snd]; persisted.
  - unfold File.CompareAndMarkState. case_match; [|done]. case_match; [done|].
    case_match; case_match; cbn [snd]; persisted.
  - unfold File.SaveIfState. case_match; [|done]. case_match; [done|].
    case_match; case_match; cbn [snd]; persisted.
  - unfold File.SaveIfCapacity. case_match; [done|]. case_match; case_match; cbn [snd]; [|persisted].
    rewrite restore_set. persisted. by eapply restore_insert.
  - unfold File.PruneTerminal. case_match; [done|]. case_match; [done|].
    case_match; case_match; cbn [snd]; [|persisted].
    persisted. apply restore_all_delete_all.
    intros id (_ & x & Hx & _)%collectPrunableIDs_in. by exists x.
  - unfold File.TryAcquireLeadership.
    destruct (File.loadLocked f) as [r g] eqn:Hl. apply loadLocked_synced in Hl as (Hn' & Hs' & _); try done.
    destruct r; [done|]. repeat case_match; try done;
      match goal with E : File.persistLocked ?h = (_, _) |- _ =>
        pose proof (persist_keeps_synced g h Hs' Hn' eq_refl eq_refl eq_refl) as Hp;
        rewrite E in Hp; exact Hp
      end.
  - unfold File.ReleaseLeadership.
    destruct (File.loadLocked f) as [r g] eqn:Hl. apply loadLocked_synced in Hl as (Hn' & Hs' & _); try done.
    destruct r; [done|]. repeat case_match; try done. by apply (persist_keeps_synced g).
  - by apply (persist_keeps_synced f).
Qed.

(** C37. A file store survives a crash: from a store whose disk and memory agree, after any
    sequence of operations in which no write fails between the rename and the directory
    sync (writes may fail before it), a restart that reads its file recovers exactly the
    allocations the process had acknowledged. *)
Theorem file_store_survives_restart f f' g :
  synced f → no_late_faults f → rtc file_step f f' → File.restart f' = Ok g →
  File.allocations g = File.allocations f'.
Proof.
  intros Hs Hn Hsteps.
  assert (Hf' : synced f' ∧ no_late_faults f').
  { induction Hsteps as [|f1 f2 f3 H12 _ IH]; [done|].
    destruct (file_step_synced _ _ H12 Hn Hs). by apply IH. }
  destruct Hf' as [Hs' Hn']. unfold File.restart, File.NewFile. case_match; [done|].
  destruct (File.loadLocked _) as [[e|] h] eqn:Hl; [done|]. intros [= <-]. revert Hl.
  unfold File.loadLocked, File.next_io. cbn. unfold synced in Hs'.
  destruct (File.disk f') as [snap|].
  - assert (∀ k, File.allocations (File.decode k snap) = File.allocations f').
    { intros k. unfold File.decode. repeat case_match; done. }
    destruct (File.faults f') as [|[] rest]; cbn; intros [= <-]; done.
  - destruct (File.faults f') as [|[] rest]; cbn; intros [= <-]; done.
Qed.
End FileRecovery.

(** ** Witnesses *)

#[local] Existing Instance range_forward.

Definition example_record (id : string) : AllocationStatus :=
  { zero_AllocationStatus with as_ID := id; as_Pool := "lite"; as_SelectedBackend := "lambda";
      as_State := StateReserved }.

Definition example_limit (pool : PoolName) (backend : BackendName) : Z := 1.

Lemma save_if_capacity_respects_limits_witness :
  let s1 := (Memory.SaveIfCapacity Memory.NewMemory (example_record "a") 1 0 0).2 in
  Memory.CountActive s1 "lite" "lambda" ≤ 1 ∧
  (Memory.SaveIfCapacity s1 (example_record "b") 1 0 0).1 = Some (Sentinel StoreErrNoCapacity).
Proof.
  intros s1. split; [|vm_compute; reflexivity].
  destruct (save_if_capacity_respects_limits Memory.NewMemory (example_record "a") 1 0 0 None s1)
    as [Hok _]; [vm_compute; reflexivity|].
  destruct (Hok eq_refl) as (_ & Hmax & _). apply Hmax. reflexivity.
Defined.


Lemma compare_and_mark_single_winner_witness :
  let s := (Memory.Save Memory.NewMemory (example_record "a")).2 in
  let s1 := (Memory.CompareAndMarkState s "a" StateReserved StateReady 5 "").2 in
  (Memory.CompareAndMarkState s1 "a" StateReserved StateCanceled 6 "").1 = None.
Proof.
  intros s s1.
  refine (proj1 (proj2 (proj2 (proj2 (compare_and_mark_single_winner s "a" StateReserved StateReady StateCanceled
            5 6 "" "" _ s1 _ (Memory.CompareAndMarkState s1 "a" StateReserved StateCanceled 6 "").2 _ eq_refl _))))).
  - discriminate.
  - vm_compute. reflexivity.
Defined.

Lemma prune_removes_exactly_the_expired_witness :
  let s := (Memory.Save (Memory.Save Memory.NewMemory (example_record "a")).2
              { example_record "b" with as_State := StateFailed }).2 in
  Memory.Get (Memory.PruneTerminal s (48 * Hour) Hour).2 "a" = Some (example_record "a").
Proof.
  intros s.
  destruct (prune_removes_exactly_the_expired s (48 * Hour) Hour 1
              (Memory.PruneTerminal s (48 * Hour) Hour).2) as (_ & _ & Hkeep).
  - vm_compute. reflexivity.
  - apply Hkeep; vm_compute; reflexivity.
Defined.

Definition example_file : File.File :=
  {| File.path := "state.json"; File.allocations := ∅; File.admission := zero_AdmissionStateDocument;
     File.leader := ∅; File.disk := None; File.faults := [File.IOok; File.IOfail_before_rename] |}.

Lemma file_store_survives_restart_witness :
  let f1 := (File.Save example_file (example_record "a")).2 in
  let f2 := (File.Save f1 (example_record "b")).2 in
  ∃ g, File.restart f2 = Ok g ∧ File.allocations g = File.allocations f2 ∧
       File.Get f2 "a" = Some (example_record "a") ∧ File.Get f2 "b" = None.
Proof.
  intros f1 f2. eexists. split; [reflexivity|]. split; [|split; vm_compute; reflexivity].
  refine (file_store_survives_restart example_file f2 _ eq_refl _ _ eq_refl).
  - by repeat constructor.
  - eapply rtc_l; [apply (file_save example_file (example_record "a"))|].
    apply rtc_once. apply (file_save f1 (example_record "b")).
Defined.
