(* ===== verification/StoreCoordination.v ===== *)
(** Coordination through a store: the leader lease and the webhook inbox of
    the memory store, and what a restart of the file store keeps of the
    admission document. *)

From S2P Require Import Prelude Errors Model Store StoreTheory.
Import Memory.

(** ** Leader lease *)

(** Calls made by replicas other than [owner] at times before [until]. *)
Inductive lease_step (owner : string) (until : Time) (m : Memory) : Memory → Prop :=
  | lease_try name identity ttl now :
      identity ≠ owner → now < until →
      lease_step owner until m (TryAcquireLeadership m name identity ttl now).2
  | lease_release name identity :
      identity ≠ owner → lease_step owner until m (ReleaseLeadership m name identity).

Definition held_by (m : Memory) (name owner : string) (until : Time) : Prop :=
  leader m !! name = Some {| holder := owner; expiresAt := until |}.

Lemma held_rejects m name owner until identity ttl now :
  held_by m name owner until → identity ≠ owner → now < until →
  TryAcquireLeadership m name identity ttl now = (false, m).
Proof.
  unfold held_by, TryAcquireLeadership, After. intros -> Hne Hlt. cbn.
  destruct (Z.ltb_spec now until); [|lia].
  destruct (String.eqb_spec owner identity); [by subst | done].
Qed.

Lemma held_step m m' name owner until :
  lease_step owner until m m' → held_by m name owner until → held_by m' name owner until.
Proof.
  intros [name' identity ttl now Hne Hlt|name' identity Hne] Hh.
  - destruct (decide (name' = name)) as [->|Hn].
    { by erewrite (held_rejects m name owner until). }
    unfold TryAcquireLeadership. repeat case_match; cbn; try done;
      unfold held_by; cbn; by rewrite lookup_insert_ne.
  - unfold ReleaseLeadership, held_by in *. destruct (decide (name' = name)) as [->|Hn].
    + rewrite Hh. cbn. destruct (String.eqb_spec owner identity); [by subst | done].
    + repeat case_match; cbn; try done. by rewrite lookup_delete_ne.
Qed.

(** Leader leases are exclusive: once a replica has acquired a named lease for ttl > 0, then
    until the lease expires no sequence of acquisitions and releases by other replicas takes
    it away, and every attempt by another replica is refused without effect. *)
Theorem leader_lease_is_exclusive m name owner ttl now m1 m2 other ttl' now' :
  TryAcquireLeadership m name owner ttl now = (true, m1) → 0 < ttl →
  rtc (lease_step owner (TimeAdd now ttl)) m1 m2 →
  other ≠ owner → now' < TimeAdd now ttl →
  held_by m2 name owner (TimeAdd now ttl) ∧
  TryAcquireLeadership m2 name other ttl' now' = (false, m2).
Proof.
  intros Hacq Httl Hsteps Hne Hlt.
  assert (Hh : held_by m1 name owner (TimeAdd now ttl)).
  { revert Hacq. unfold TryAcquireLeadership, held_by.
    destruct (Z.leb_spec ttl 0); [lia|]. repeat case_match; try done;
    (intros Heq; apply (f_equal snd) in Heq; cbn in Heq; subst m1; cbn; by rewrite lookup_insert_eq). }
  assert (Hh2 : held_by m2 name owner (TimeAdd now ttl)).
  { clear Hacq. induction Hsteps; eauto using held_step. }
  split; [done|]. by eapply held_rejects.
Qed.

Lemma leader_lease_is_exclusive_witness :
  let m1 := (TryAcquireLeadership NewMemory LeaderLeaseName "a" (15 * Second) 100).2 in
  let m2 := ReleaseLeadership m1 LeaderLeaseName "b" in
  TryAcquireLeadership m2 LeaderLeaseName "b" Second 200 = (false, m2).
Proof.
  intros m1 m2.
  apply (leader_lease_is_exclusive NewMemory LeaderLeaseName "a" (15 * Second) 100 m1 m2
           "b" Second 200); [reflexivity | reflexivity | | done | reflexivity].
  apply rtc_once. by apply lease_release.
Defined.

(** ** Webhook inbox *)

Section Inbox.
Context `{GoRange}.
Implicit Types (m : Memory) (it : memoryInboxItem) (d : WebhookDelivery).

(** Items are filed under their own id, and ids come from the counter. *)
Definition inbox_wf m : Prop :=
  0 ≤ nextID (inbox m) ∧
  ∀ k it, items (inbox m) !! k = Some it → wd_ID (item_Delivery it) = k ∧ 0 < k ≤ nextID (inbox m).

Lemma elem_of_claimable m now d :
  d ∈ claimable m now ↔
    ∃ k it, items (inbox m) !! k = Some it ∧ item_lockedUntil it ≤ now ∧ d = item_Delivery it.
Proof.
  unfold claimable, After. rewrite list_elem_of_fmap. split.
  - intros ([k it] & -> & [Hl Hin%elem_of_range]%list_elem_of_filter).
    cbn in *. reflect_bools. eauto.
  - intros (k & it & Hk & Hl & ->). exists (k, it). split; [done|].
    apply list_elem_of_filter. split; [|by apply elem_of_range]. cbn. by apply Z.ltb_ge.
Qed.

Lemma claimable_ids_NoDup m now : inbox_wf m → NoDup (wd_ID <$> claimable m now).
Proof.
  intros Hwf. unfold claimable. rewrite <- list_fmap_compose.
  rewrite (list_fmap_ext _ fst).
  - apply NoDup_fmap_fst.
    + intros k x y [_ Hx%elem_of_range]%list_elem_of_filter [_ Hy%elem_of_range]%list_elem_of_filter.
      congruence.
    + apply NoDup_filter, range_NoDup.
  - intros i [k it] Hi. apply list_elem_of_lookup_2 in Hi.
    apply list_elem_of_filter in Hi as [_ Hin%elem_of_range]. cbn. by apply Hwf.
Qed.

Lemma take_limit_sublist {A} limit (l : list A) : ∃ rest, l = take_limit limit l ++ rest.
Proof.
  unfold take_limit. case_match.
  - exists (drop (Z.to_nat limit) l). by rewrite take_drop.
  - exists []. by rewrite app_nil_r.
Qed.

(** The deliveries a claim selects, before their attempts are counted. *)
Definition selected m limit now : list WebhookDelivery :=
  take_limit limit (sort_stable (fun a b => wd_ID a <? wd_ID b) (claimable m now)).

Lemma selected_claimable m limit now d : d ∈ selected m limit now → d ∈ claimable m now.
Proof.
  unfold selected. intros Hd. rewrite <- (sort_stable_perm (fun a b => wd_ID a <? wd_ID b)).
  destruct (take_limit_sublist limit (sort_stable (λ a b, wd_ID a <? wd_ID b) (claimable m now)))
    as [rest ->]. set_solver.
Qed.

Lemma selected_ids_NoDup m limit now : inbox_wf m → NoDup (wd_ID <$> selected m limit now).
Proof.
  intros Hwf. pose proof (claimable_ids_NoDup m now Hwf) as Hnd.
  rewrite <- (sort_stable_perm (fun a b => wd_ID a <? wd_ID b)) in Hnd.
  destruct (take_limit_sublist limit (sort_stable (λ a b, wd_ID a <? wd_ID b) (claimable m now)))
    as [rest Heq]. rewrite Heq, fmap_app in Hnd. by apply NoDup_app in Hnd as [? _].
Qed.

(** Every selected item is leased once; the others are untouched. *)
Lemma lookup_lease_all until (out : list WebhookDelivery) (its : gmap Z memoryInboxItem) k :
  NoDup (wd_ID <$> out) →
  lease_all until out its !! k =
    if decide (k ∈ wd_ID <$> out) then lease_item until <$> its !! k else its !! k.
Proof.
  unfold lease_all. revert its. induction out as [|d out IH]; intros its; cbn [fmap list_fmap foldl].
  { intros _. by rewrite decide_False by set_solver. }
  intros [Hd Hnd]%NoDup_cons. rewrite IH by done. rewrite lookup_alter.
  destruct (decide (k ∈ wd_ID <$> out)) as [Hin|Hin].
  - rewrite decide_False by congruence. by rewrite decide_True by set_solver.
  - destruct (decide (wd_ID d = k)) as [<-|Hne].
    + by rewrite decide_True by set_solver.
    + by rewrite decide_False by set_solver.
Qed.

Lemma claim_items m limit lease now k :
  inbox_wf m →
  items (inbox (ClaimWebhooks m limit lease now).2) !! k =
    if decide (k ∈ wd_ID <$> selected m limit now)
    then lease_item (TimeAdd now lease) <$> items (inbox m) !! k else items (inbox m) !! k.
Proof. intros Hwf. cbn. apply lookup_lease_all. by apply selected_ids_NoDup. Qed.

Lemma claim_wf m limit lease now : inbox_wf m → inbox_wf (ClaimWebhooks m limit lease now).2.
Proof.
  intros Hwf. split; [apply Hwf|]. intros k it. rewrite claim_items by done. cbn.
  case_decide; [|by apply Hwf]. intros (it' & Hit' & ->)%fmap_Some. by apply Hwf in Hit'.
Qed.

Lemma enqueue_wf m deliveryID payload now : inbox_wf m → inbox_wf (EnqueueWebhook m deliveryID payload now).
Proof.
  intros Hwf. unfold EnqueueWebhook. case_match; [done|]. destruct Hwf as [Hn Hwf].
  split; [cbn; lia|]. intros k it. cbn. rewrite lookup_insert. case_decide.
  - intros [= <-]. subst. cbn. split; [done|]. lia.
  - intros Hit. destruct (Hwf k it Hit). split; [done|]. lia.
Qed.

Lemma ack_wf m id : inbox_wf m → inbox_wf (AckWebhook m id).
Proof.
  intros [Hn Hwf]. split; [done|]. intros k it. cbn.
  intros [_ Hit]%lookup_delete_Some. by apply Hwf.
Qed.

(** The calls replicas make on the inbox, in any order. *)
Inductive inbox_step m : Memory → Prop :=
  | inbox_enqueue deliveryID payload now : inbox_step m (EnqueueWebhook m deliveryID payload now)
  | inbox_claim limit lease now : inbox_step m (ClaimWebhooks m limit lease now).2
  | inbox_ack id : inbox_step m (AckWebhook m id).

Lemma inbox_reachable_wf m : rtc inbox_step NewMemory m → inbox_wf m.
Proof.
  intros Hsteps. assert (inbox_wf NewMemory) as Hwf.
  { split; [done|]. intros k it. cbn. by rewrite lookup_empty. }
  induction Hsteps as [|m1 m2 m3 H12 _ IH]; [done|]. apply IH.
  destruct H12; eauto using enqueue_wf, claim_wf, ack_wf.
Qed.

Lemma elem_of_selected_item m limit now k :
  inbox_wf m → k ∈ wd_ID <$> selected m limit now →
  ∃ it, items (inbox m) !! k = Some it ∧ item_lockedUntil it ≤ now.
Proof.
  intros Hwf (d & -> & Hd%selected_claimable)%list_elem_of_fmap.
  apply elem_of_claimable in Hd as (k & it & Hit & Hl & ->).
  exists it. split; [|done]. by rewrite (proj1 (proj2 Hwf k it Hit)).
Qed.

Lemma claimed_ids m limit lease now :
  wd_ID <$> (ClaimWebhooks m limit lease now).1 = wd_ID <$> selected m limit now.
Proof. cbn. rewrite <- list_fmap_compose. by apply list_fmap_ext. Qed.

(** The same calls by replicas whose clocks are all before [until]. *)
Inductive inbox_step_before (until : Time) m : Memory → Prop :=
  | before_enqueue deliveryID payload now : inbox_step_before until m (EnqueueWebhook m deliveryID payload now)
  | before_claim limit lease now :
      now < until → inbox_step_before until m (ClaimWebhooks m limit lease now).2
  | before_ack id : inbox_step_before until m (AckWebhook m id).

(** Item [k] is leased until [until], or was acknowledged; its id is never reused. *)
Definition leased m k until : Prop :=
  k ≤ nextID (inbox m) ∧
  ∀ it, items (inbox m) !! k = Some it → item_lockedUntil it = until.

Lemma leased_not_selected m k until limit now :
  inbox_wf m → leased m k until → now < until → k ∉ wd_ID <$> selected m limit now.
Proof.
  intros Hwf [_ Hl] Hlt (it & Hit & Hle)%elem_of_selected_item; [|done]. rewrite (Hl it Hit) in Hle. lia.
Qed.

Lemma leased_step m m' k until :
  inbox_step_before until m m' → inbox_wf m → leased m k until → inbox_wf m' ∧ leased m' k until.
Proof.
  intros Hstep Hwf Hl. destruct Hstep as [d p now|limit lease now Hlt|id].
  - split; [by apply enqueue_wf|]. unfold EnqueueWebhook. case_match; [done|].
    destruct Hl as [Hk Hl]. split; cbn; [lia|]. intros it. rewrite lookup_insert_ne by lia. apply Hl.
  - split; [by apply claim_wf|]. pose proof (leased_not_selected m k until limit now Hwf Hl Hlt) as Hn.
    split; [apply Hl|]. intros it. rewrite claim_items by done. rewrite decide_False by done. apply Hl.
  - split; [by apply ack_wf|]. split; [apply Hl|]. intros it. cbn.
    intros [_ Hit]%lookup_delete_Some. by apply Hl.
Qed.

Lemma claim_leases m limit lease now k :
  inbox_wf m → k ∈ wd_ID <$> selected m limit now →
  leased (ClaimWebhooks m limit lease now).2 k (TimeAdd now lease).
Proof.
  intros Hwf Hk. destruct (elem_of_selected_item m limit now k Hwf Hk) as (it & Hit & _).
  split; [cbn; apply Hwf in Hit as [_ ?]; lia|].
  intros it'. rewrite claim_items, decide_True, Hit by done. cbn.
  by intros [= <-].
Qed.

Lemma selected_sorted m limit now : inbox_wf m → StronglySorted Z.lt (wd_ID <$> selected m limit now).
Proof.
  intros Hwf. pose proof (claimable_ids_NoDup m now Hwf) as Hnd.
  set (less := fun a b => wd_ID a <? wd_ID b).
  rewrite <- (sort_stable_perm less) in Hnd.
  assert (Hs : StronglySorted (not_inverted less) (sort_stable less (claimable m now))).
  { apply sort_stable_sorted; unfold less; intros; reflect_bools; apply Z.ltb_ge; lia. }
  assert (Hlt : StronglySorted Z.lt (wd_ID <$> sort_stable less (claimable m now))).
  { induction Hs as [|d l Hs IH Hd]; cbn; [constructor|]. apply NoDup_cons in Hnd as [Hn Hnd].
    constructor; [by apply IH|]. apply Forall_forall. intros k Hk.
    apply list_elem_of_fmap in Hk as (d' & -> & Hd').
    eapply Forall_forall in Hd; [|done]. unfold not_inverted, less in Hd. reflect_bools.
    assert (wd_ID d ≠ wd_ID d'); [|lia]. intros Heq. apply Hn. rewrite Heq. by apply list_elem_of_fmap_2. }
  unfold selected. fold less.
  destruct (take_limit_sublist limit (sort_stable less (claimable m now))) as [rest Heq].
  rewrite Heq, fmap_app in Hlt. by apply StronglySorted_app_1_l in Hlt.
Qed.

(** Webhook claims are exclusive leases, handed out oldest first: a claim returns at most
    [limit] deliveries (all of them when limit is 0), in strictly increasing id order, and a
    delivery returned by one claim is returned by no other claim made before its lease ends,
    whatever is enqueued, claimed or acknowledged in between. *)
Theorem webhook_claims_are_exclusive m limit lease now out m1 m2 limit' lease' now' :
  rtc inbox_step NewMemory m →
  ClaimWebhooks m limit lease now = (out, m1) →
  rtc (inbox_step_before (TimeAdd now lease)) m1 m2 →
  now' < TimeAdd now lease →
  (0 < limit → Z.of_nat (length out) ≤ limit) ∧
  StronglySorted Z.lt (wd_ID <$> out) ∧
  (∀ k, k ∈ wd_ID <$> out → k ∉ wd_ID <$> (ClaimWebhooks m2 limit' lease' now').1).
Proof.
  intros Hwf%inbox_reachable_wf Hclaim Hsteps Hlt.
  pose proof (f_equal fst Hclaim) as Hout. pose proof (f_equal snd Hclaim) as Hm1. cbn [fst snd] in *.
  rewrite <- Hout, claimed_ids. split; [|split; [by apply selected_sorted|]].
  - intros Hpos. cbn. rewrite length_fmap. unfold take_limit.
    case_match eqn:Hc; reflect_bools; [rewrite length_take; lia|].
    destruct Hc; reflect_bools; lia.
  - intros k Hk. rewrite claimed_ids.
    assert (Hend : inbox_wf m2 ∧ leased m2 k (TimeAdd now lease)).
    { assert (inbox_wf m1 ∧ leased m1 k (TimeAdd now lease)) as [Hwf1 Hl1].
      { subst m1. split; [by apply claim_wf | by apply claim_leases]. }
      clear Hclaim Hm1 Hout. induction Hsteps as [|x y z Hxy _ IH]; [done|].
      destruct (leased_step _ _ _ _ Hxy Hwf1 Hl1). by apply IH. }
    destruct Hend. by eapply leased_not_selected.
Qed.

(** No webhook delivery is lost: a delivery in the inbox stays there, under the same id
    and payload, through every call except its own acknowledgement, and whenever its lock has
    expired an unlimited claim returns it. *)
Theorem webhook_delivery_survives_until_acked m m' k it :
  rtc inbox_step NewMemory m → items (inbox m) !! k = Some it →
  inbox_step m m' → m' ≠ AckWebhook m k →
  ∃ it', items (inbox m') !! k = Some it' ∧
    wd_DeliveryID (item_Delivery it') = wd_DeliveryID (item_Delivery it) ∧
    wd_Payload (item_Delivery it') = wd_Payload (item_Delivery it) ∧
    wd_Attempts (item_Delivery it) ≤ wd_Attempts (item_Delivery it') ∧
    (∀ now lease, item_lockedUntil it' ≤ now → k ∈ wd_ID <$> (ClaimWebhooks m' 0 lease now).1).
Proof.
  intros Hwf%inbox_reachable_wf Hit Hstep Hack.
  assert (Hwf' : inbox_wf m') by (destruct Hstep; eauto using enqueue_wf, claim_wf, ack_wf).
  assert (Hre : ∀ it', items (inbox m') !! k = Some it' →
    ∀ now lease, item_lockedUntil it' ≤ now → k ∈ wd_ID <$> (ClaimWebhooks m' 0 lease now).1).
  { intros it' Hit' now lease Hle. rewrite claimed_ids. apply list_elem_of_fmap.
    exists (item_Delivery it'). split; [by apply Hwf' in Hit' as [-> _]|].
    unfold selected, take_limit. cbn. rewrite sort_stable_perm. apply elem_of_claimable. eauto. }
  destruct Hstep as [d p now|limit lease now|id].
  - assert (Hsame : items (inbox (EnqueueWebhook m d p now)) !! k = Some it).
    { unfold EnqueueWebhook. case_match; [done|]. cbn.
      rewrite lookup_insert_ne; [done|]. apply Hwf in Hit. lia. }
    exists it. split_and!; [done | done | done | lia | by apply Hre].
  - pose proof (claim_items m limit lease now k Hwf) as Hk. rewrite Hit in Hk.
    case_decide; cbn [fmap option_fmap option_map] in Hk.
    + eexists. split_and!; [exact Hk | done | done | cbn; lia | by apply Hre].
    + exists it. split_and!; [done | done | done | lia | by apply Hre].
  - destruct (decide (id = k)) as [->|Hne]; [done|].
    assert (Hsame : items (inbox (AckWebhook m id)) !! k = Some it) by (cbn; by rewrite lookup_delete_ne).
    exists it. split_and!; [done | done | done | lia | by apply Hre].
Qed.
End Inbox.

(** ** What a restart of the file store keeps *)

(** A restart of the file store recovers the admission document that was saved last, except
    that a document with neither circuits nor rate limits (a broker that only uses budgets)
    comes back empty: the budget counters are lost. *)
Theorem file_restart_admission (f g : File.File) (doc : AdmissionStateDocument) :
  File.faults f = [] → File.restart (File.SaveAdmissionState f doc) = Ok g →
  File.admission g =
    if (size (doc_Circuits doc) =? 0)%nat && (size (doc_Limits doc) =? 0)%nat
    then zero_AdmissionStateDocument else doc.
Proof.
  intros Hf. unfold File.restart, File.SaveAdmissionState, File.persistLocked, File.next_io.
  cbn. rewrite Hf. unfold File.NewFile, File.loadLocked, File.next_io. cbn. rewrite ?Hf. cbn.
  case_match; [done|]. intros [= <-]. unfold File.decode. cbn.
  destruct (size (doc_Circuits doc) =? 0)%nat, (size (doc_Limits doc) =? 0)%nat; cbn;
    case_match; cbn; by destruct doc.
Qed.

Definition file_example : File.File :=
  {| File.path := "state.json"; File.allocations := ∅; File.admission := zero_AdmissionStateDocument;
     File.leader := ∅; File.disk := None; File.faults := [] |}.

Definition budget_only_document : AdmissionStateDocument :=
  {| doc_Circuits := ∅; doc_Limits := ∅;
     doc_Budgets := {[ "lite/lambda" := {| abs_DailyWindowStart := 0; abs_DailyUsed := 7;
                                          abs_MonthlyWindowStart := 0; abs_MonthlyUsed := 9 |} ]} |}.

Lemma file_restart_admission_witness :
  ∃ g, File.restart (File.SaveAdmissionState file_example budget_only_document) = Ok g ∧
       File.admission g = zero_AdmissionStateDocument.
Proof.
  eexists. split; [reflexivity|].
  exact (file_restart_admission file_example _ budget_only_document eq_refl eq_refl).
Defined.

(** A file write that fails after the rename is reported as a failed Save and undone in
    memory, but the record is on disk: a restart brings back an allocation whose creation was
    reported as failed. *)
Theorem failed_file_save_can_resurface (f : File.File) (status : AllocationStatus) rest :
  File.faults f = File.IOfail_after_rename :: rest → Forall (fun o => o = File.IOok) rest →
  File.path f ≠ "" → File.allocations f !! as_ID status = None →
  ∃ err f' g, File.Save f status = (Some err, f') ∧
    File.Get f' (as_ID status) = None ∧
    File.restart f' = Ok g ∧ File.Get g (as_ID status) = Some status.
Proof.
  destruct f as [path allocs adm lead disk fl]; cbn. intros -> Hrest Hpath Hnone.
  unfold File.Save. cbn. rewrite Hnone. destruct Hrest as [|o rest -> Hrest];
    (do 3 eexists; split; [reflexivity|]; split; [apply lookup_delete_eq|];
     unfold File.restart, File.NewFile; cbn; destruct (String.eqb_spec path ""); [done|];
     split; [reflexivity|];
     unfold File.decode; repeat case_match; cbn; apply lookup_insert_eq).
Qed.

Lemma failed_file_save_can_resurface_witness :
  ∃ err f' g,
    File.Save { file_example with File.faults := [File.IOfail_after_rename] }
      { zero_AllocationStatus with as_ID := "a1" } = (Some err, f') ∧
    File.Get f' "a1" = None ∧
    File.restart f' = Ok g ∧ File.Get g "a1" = Some { zero_AllocationStatus with as_ID := "a1" }.
Proof.
  exact (failed_file_save_can_resurface
           { file_example with File.faults := [File.IOfail_after_rename] }
           { zero_AllocationStatus with as_ID := "a1" } [] eq_refl (Forall_nil_2 _)
           ltac:(discriminate) eq_refl).
Defined.

(** ** Witnesses of the inbox theorems *)

#[local] Existing Instance range_forward.

Definition inbox_example : Memory := EnqueueWebhook (EnqueueWebhook NewMemory "d1" [] 10) "d2" [] 20.

Lemma inbox_example_reachable : rtc inbox_step NewMemory inbox_example.
Proof. eapply rtc_l; [apply inbox_enqueue | apply rtc_once; apply inbox_enqueue]. Defined.

Lemma webhook_claims_are_exclusive_witness :
  wd_ID <$> (ClaimWebhooks inbox_example 1 60 100).1 = [1] ∧
  wd_ID <$> (ClaimWebhooks (ClaimWebhooks inbox_example 1 60 100).2 5 60 130).1 = [2] ∧
  1 ∉ wd_ID <$> (ClaimWebhooks (ClaimWebhooks inbox_example 1 60 100).2 5 60 130).1.
Proof.
  split; [vm_compute; reflexivity|]. split; [vm_compute; reflexivity|].
  refine (proj2 (proj2 (webhook_claims_are_exclusive inbox_example 1 60 100
            (ClaimWebhooks inbox_example 1 60 100).1 (ClaimWebhooks inbox_example 1 60 100).2
            (ClaimWebhooks inbox_example 1 60 100).2 5 60 130
            inbox_example_reachable eq_refl (rtc_refl _ _) _)) 1 _).
  - reflexivity.
  - vm_compute. left.
Defined.

Lemma webhook_delivery_survives_until_acked_witness :
  ∃ it', items (inbox (AckWebhook inbox_example 2)) !! 1 = Some it' ∧
    wd_DeliveryID (item_Delivery it') = "d1".
Proof.
  destruct (items (inbox inbox_example) !! 1) as [it|] eqn:Hit; [|discriminate Hit].
  destruct (webhook_delivery_survives_until_acked inbox_example (AckWebhook inbox_example 2) 1 it
              inbox_example_reachable Hit (inbox_ack _ 2)) as (it' & Hit' & Hid & _).
  - intros Heq. apply (f_equal (fun m => items (inbox m) !! 1)) in Heq. discriminate Heq.
  - exists it'. split; [exact Hit'|]. rewrite Hid.
    injection Hit as <-. reflexivity.
Defined.
