(* ===== verification/Budget.v ===== *)
(** Allocation budgets and cost classes: src/internal/budget/tracker.go.

    A tracker counts successful allocations per pool/backend in UTC calendar
    days and months, and shares its counters through the admission document of
    the store.  The optional external usage source is a parameter. *)

From S2P Require Import Prelude Errors Model Store.

(** ** UTC calendar

    [time.Date] on the proleptic Gregorian calendar; days are counted from
    0001-01-01, the day of the zero Time. *)

Definition Day : Duration := 24 * Hour.

Record civil_day := {
  year_start : Z;  (* day number of January 1st *)
  year_day : Z;    (* days since January 1st *)
  leap_year : bool;
}.

Definition civil (D : Z) : civil_day :=
  let r := D mod 146097 in
  let n100 := Z.min (r / 36524) 3 in
  let r1 := r - 36524 * n100 in
  let n4 := r1 / 1461 in
  let r2 := r1 - 1461 * n4 in
  let n1 := Z.min (r2 / 365) 3 in
  let yday := r2 - 365 * n1 in
  {| year_start := D - yday; year_day := yday;
     leap_year := (n1 =? 3) && (negb (n4 =? 24) || (n100 =? 3)) |}.

(** First day, within the year, of the month that holds day [yday]. *)
Definition month_offset (leap : bool) (yday : Z) : Z :=
  let l := if leap then 1 else 0 in
  if yday <? 31 then 0
  else if yday <? 59 + l then 31
  else if yday <? 90 + l then 59 + l
  else if yday <? 120 + l then 90 + l
  else if yday <? 151 + l then 120 + l
  else if yday <? 181 + l then 151 + l
  else if yday <? 212 + l then 181 + l
  else if yday <? 243 + l then 212 + l
  else if yday <? 273 + l then 243 + l
  else if yday <? 304 + l then 273 + l
  else if yday <? 334 + l then 304 + l
  else 334 + l.

Definition month_start_day (D : Z) : Z :=
  let c := civil D in year_start c + month_offset (leap_year c) (year_day c).

Definition utcDayStart (now : Time) : Time := now / Day * Day.
Definition utcMonthStart (now : Time) : Time := month_start_day (now / Day) * Day.

(** ** Tracker *)

Record Decision := {
  bd_Allowed : bool;
  bd_Reason : string;
  bd_DailyUsed : Z;
  bd_DailyLimit : Z;
  bd_MonthlyUsed : Z;
  bd_MonthlyLimit : Z;
}.

Definition allowed_decision : Decision := Build_Decision true "" 0 0 0 0.

Record counter := {
  dailyWindowStart : Time;
  dailyUsed : Z;
  monthlyWindowStart : Time;
  monthlyUsed : Z;
}.

Definition zero_counter : counter := Build_counter 0 0 0 0.
#[export] Instance GoZero_counter : GoZero counter := zero_counter.

(** External usage: daily and monthly counts, or [None] when it reports none. *)
Definition Source : Type := PoolName → BackendName → option (Z * Z).

Record Tracker := {
  counters : gmap string counter;
  source : option Source;
}.

Definition counter_of_state (s : AdmissionBudgetState) : counter :=
  {| dailyWindowStart := abs_DailyWindowStart s; dailyUsed := abs_DailyUsed s;
     monthlyWindowStart := abs_MonthlyWindowStart s; monthlyUsed := abs_MonthlyUsed s |}.

Definition state_of_counter (c : counter) : AdmissionBudgetState :=
  {| abs_DailyWindowStart := dailyWindowStart c; abs_DailyUsed := dailyUsed c;
     abs_MonthlyWindowStart := monthlyWindowStart c; abs_MonthlyUsed := monthlyUsed c |}.

Definition evaluate (cfg : BudgetConfig) (dailyUsed monthlyUsed : Z) : Decision :=
  let decision :=
    {| bd_Allowed := true; bd_Reason := "";
       bd_DailyUsed := dailyUsed; bd_DailyLimit := bu_MaxAllocationsDaily cfg;
       bd_MonthlyUsed := monthlyUsed; bd_MonthlyLimit := bu_MaxAllocationsMonthly cfg |} in
  if (0 <? bu_MaxAllocationsDaily cfg) && (bu_MaxAllocationsDaily cfg <=? dailyUsed)
  then { decision with bd_Allowed := false; bd_Reason := "daily-budget-exceeded" }
  else if (0 <? bu_MaxAllocationsMonthly cfg) && (bu_MaxAllocationsMonthly cfg <=? monthlyUsed)
  then { decision with bd_Allowed := false; bd_Reason := "monthly-budget-exceeded" }
  else decision.

(** The counter after its windows have been rolled to [now]. *)
Definition roll_counter (c : counter) (now : Time) : counter :=
  let dayStart := utcDayStart now in
  let monthStart := utcMonthStart now in
  let c :=
    if IsZero (dailyWindowStart c) || Before (dailyWindowStart c) dayStart
    then { c with dailyWindowStart := dayStart; dailyUsed := 0 } else c in
  if IsZero (monthlyWindowStart c) || Before (monthlyWindowStart c) monthStart
  then { c with monthlyWindowStart := monthStart; monthlyUsed := 0 } else c.

Definition ensureCounterLocked (t : Tracker) (key : string) (now : Time) : counter * Tracker :=
  let c := roll_counter ((counters t).[key]) now in
  (c, { t with counters := <[key := c]> (counters t) }).

Section Tracker.
Context {S : Type} `{AdmissionStateStore S}.

(** [shared] is the tracker's reference to the store; [None] is nil.  Every
    entry of the document replaces the local counter of its key. *)
Definition reloadShared (t : Tracker) (shared : option S) : Tracker :=
  match shared with
  | None => t
  | Some s =>
      match LoadAdmissionState s with
      | Fail _ => t
      | Ok doc => { t with counters := (counter_of_state <$> doc_Budgets doc) ∪ counters t }
      end
  end.

Definition persistSharedLocked (t : Tracker) (shared : option S) : option S :=
  match shared with
  | None => None
  | Some s =>
      let doc :=
        match LoadAdmissionState s with
        | Fail _ => zero_AdmissionStateDocument
        | Ok doc => doc
        end in
      Some (SaveAdmissionState s { doc with doc_Budgets := state_of_counter <$> counters t })
  end.

Definition NewTracker (shared : option S) : Tracker :=
  reloadShared {| counters := ∅; source := None |} shared.

Definition Tracker_Allow (t : Tracker) (shared : option S) (pool : PoolName) (backend : BackendName)
    (cfg : BudgetConfig) (now : Time) : Decision * Tracker :=
  if negb (bu_Enabled cfg) then (allowed_decision, t)
  else
    let t := reloadShared t shared in
    let '(c, t) := ensureCounterLocked t (AdmissionKey pool backend) now in
    let '(daily, monthly) :=
      match source t with
      | None => (dailyUsed c, monthlyUsed c)
      | Some usage =>
          match usage pool backend with
          | Some dm => dm
          | None => (dailyUsed c, monthlyUsed c)
          end
      end in
    (evaluate cfg daily monthly, t).

Definition Tracker_Record (t : Tracker) (shared : option S) (pool : PoolName) (backend : BackendName)
    (cfg : BudgetConfig) (now : Time) : Tracker * option S :=
  if negb (bu_Enabled cfg) then (t, shared)
  else
    let t := reloadShared t shared in
    let key := AdmissionKey pool backend in
    let '(c, t) := ensureCounterLocked t key now in
    let c := if 0 <? bu_MaxAllocationsDaily cfg then { c with dailyUsed := dailyUsed c + 1 } else c in
    let c := if 0 <? bu_MaxAllocationsMonthly cfg then { c with monthlyUsed := monthlyUsed c + 1 } else c in
    let t := { t with counters := <[key := c]> (counters t) } in
    (t, persistSharedLocked t shared).

Definition Tracker_Snapshot (t : Tracker) (shared : option S) (pool : PoolName) (backend : BackendName)
    (cfg : BudgetConfig) (now : Time) : Decision * Tracker :=
  if negb (bu_Enabled cfg) then (allowed_decision, t)
  else
    let t := reloadShared t shared in
    let '(c, t) := ensureCounterLocked t (AdmissionKey pool backend) now in
    (evaluate cfg (dailyUsed c) (monthlyUsed c), t).
End Tracker.

(** ** Cost classes and free slots *)

Definition CostClass (name : BackendName) (cfg : BackendConfig) : Z :=
  if 0 <? bc_CostClass cfg then bc_CostClass cfg
  else if String.eqb (bc_Driver cfg) "kubernetes" then 10
  else if existsb (String.eqb name) [BackendARC; BackendKubernetes; BackendDesktop] then 10
  else if String.eqb name BackendAzureFunctions then 30
  else if String.eqb name BackendLambda then 40
  else if existsb (String.eqb name) [BackendCodeBuild; BackendCloudRun] then 50
  else if String.eqb name BackendAzureVM then 80
  else if existsb (String.eqb name) [BackendEC2; BackendGCE] then 90
  else 100.

Definition FreeSlots (cfg : BackendConfig) (active : Z) : Z :=
  if negb (bc_Enabled cfg) || negb (bc_Healthy cfg) || (bc_MaxRunners cfg <=? 0) then 0
  else Z.max 0 (bc_MaxRunners cfg - active).

(** ** Calendar facts *)

Lemma civil_bounds D : 0 ≤ year_day (civil D) ≤ 365.
Proof. unfold civil. cbn. Z.to_euclidean_division_equations. lia. Qed.

(** Moving back within a year stays in that year. *)
Lemma civil_same_year D k :
  0 ≤ k ≤ year_day (civil D) →
  civil (year_start (civil D) + k) =
    {| year_start := year_start (civil D); year_day := k; leap_year := leap_year (civil D) |}.
Proof.
  unfold civil. cbn.
  set (r := D mod 146097). set (n100 := Z.min (r / 36524) 3).
  set (n4 := (r - 36524 * n100) / 1461).
  set (n1 := Z.min ((r - 36524 * n100 - 1461 * n4) / 365) 3). intros Hk.
  set (yd := r - 36524 * n100 - 1461 * n4 - 365 * n1) in *.
  assert (Hr : (D - yd + k) mod 146097 = r - yd + k).
  { unfold r, yd, n1, n4, n100, r in *. Z.to_euclidean_division_equations. lia. }
  rewrite Hr.
  assert (H100 : Z.min ((r - yd + k) / 36524) 3 = n100).
  { unfold yd, n1, n4, n100 in *. Z.to_euclidean_division_equations. lia. }
  rewrite H100.
  assert (H4 : (r - yd + k - 36524 * n100) / 1461 = n4).
  { unfold yd, n1, n4 in *. Z.to_euclidean_division_equations. lia. }
  rewrite H4.
  assert (H1 : Z.min ((r - yd + k - 36524 * n100 - 1461 * n4) / 365) 3 = n1).
  { unfold yd, n1 in *. Z.to_euclidean_division_equations. lia. }
  rewrite H1. f_equal; lia.
Qed.

Lemma civil_day_number D : year_start (civil D) + year_day (civil D) = D.
Proof. unfold civil. cbn. lia. Qed.

Lemma month_offset_bounds leap yday :
  0 ≤ yday ≤ 365 → 0 ≤ month_offset leap yday ≤ yday ∧ yday - month_offset leap yday < 32.
Proof. unfold month_offset. intros. destruct leap; repeat case_match; reflect_bools; lia. Qed.

Lemma month_offset_idem leap yday :
  0 ≤ yday ≤ 365 → month_offset leap (month_offset leap yday) = month_offset leap yday.
Proof.
  intros H. unfold month_offset at 2 3. destruct leap; repeat case_match; reflexivity.
Qed.

Lemma month_start_day_bounds D : D - 31 ≤ month_start_day D ≤ D.
Proof.
  unfold month_start_day. pose proof (civil_bounds D). pose proof (civil_day_number D).
  pose proof (month_offset_bounds (leap_year (civil D)) (year_day (civil D))). lia.
Qed.

Lemma month_start_day_idem D : month_start_day (month_start_day D) = month_start_day D.
Proof.
  unfold month_start_day. pose proof (civil_bounds D) as Hb.
  pose proof (month_offset_bounds (leap_year (civil D)) (year_day (civil D)) Hb) as Ho.
  rewrite civil_same_year by lia. cbn. by rewrite month_offset_idem.
Qed.

Lemma Day_pos : 0 < Day.
Proof. done. Qed.

Lemma utcDayStart_bounds now : now - Day < utcDayStart now ≤ now.
Proof.
  unfold utcDayStart. pose proof Day_pos. pose proof (Z.div_mod now Day). pose proof (Z.mod_pos_bound now Day).
  nia.
Qed.

Lemma utcDayStart_div now : utcDayStart now / Day = now / Day.
Proof. unfold utcDayStart. apply Z.div_mul. pose proof Day_pos. lia. Qed.

Lemma utcMonthStart_le_day now : utcMonthStart now ≤ utcDayStart now.
Proof.
  unfold utcMonthStart, utcDayStart. pose proof Day_pos.
  pose proof (month_start_day_bounds (now / Day)). nia.
Qed.

(** Budget windows are calendar windows: the start of the UTC day (month) that holds a time
    is at most a day (31 days) and a bit before it, and is its own start, so every time of one
    window has the same start and the windows of different starts do not overlap. *)
Theorem budget_windows_are_calendar_windows now :
  utcDayStart now ≤ now < utcDayStart now + Day ∧
  utcDayStart (utcDayStart now) = utcDayStart now ∧
  utcMonthStart now ≤ utcDayStart now ∧ now < utcMonthStart now + 32 * Day ∧
  utcMonthStart (utcMonthStart now) = utcMonthStart now ∧
  utcMonthStart (utcDayStart now) = utcMonthStart now.
Proof.
  pose proof (utcDayStart_bounds now). pose proof (utcMonthStart_le_day now).
  pose proof (month_start_day_bounds (now / Day)). pose proof Day_pos.
  split_and!; try lia.
  - unfold utcDayStart at 1. by rewrite utcDayStart_div.
  - unfold utcMonthStart. unfold utcDayStart in *. nia.
  - unfold utcMonthStart. rewrite Z.div_mul by lia. by rewrite month_start_day_idem.
  - unfold utcMonthStart. by rewrite utcDayStart_div.
Qed.

(** ** Sharing counters *)

Lemma counter_state_roundtrip c : counter_of_state (state_of_counter c) = c.
Proof. by destruct c. Qed.

Section Sharing.
Context {S : Type} `{AdmissionStateReliable S}.

Lemma reload_after_persist t (shared : option S) :
  reloadShared t (persistSharedLocked t shared) = t.
Proof.
  destruct shared as [s|]; [|done]. unfold persistSharedLocked, reloadShared.
  destruct (load_total s) as [doc ->]. rewrite load_save. destruct t as [cs src]. unfold tset, set. cbn. f_equal.
  apply map_eq. intros k. rewrite lookup_union, !lookup_fmap.
  destruct (cs !! k) as [c|]; cbn; [|done]. by rewrite counter_state_roundtrip.
Qed.

Lemma lookup_reload_other t t' (s : S) key c :
  counters t !! key = Some c →
  counters (reloadShared t' (persistSharedLocked t (Some s))) !! key = Some c.
Proof.
  intros Hc. unfold persistSharedLocked, reloadShared.
  destruct (load_total s) as [doc ->]. rewrite load_save. cbn.
  rewrite lookup_union, !lookup_fmap, Hc. cbn. rewrite counter_state_roundtrip.
  by destruct (counters t' !! key).
Qed.

(** The counters a tracker works with at [now], after reloading and rolling. *)
Definition current_counter (t : Tracker) (shared : option S) (key : string) (now : Time) : counter :=
  roll_counter ((counters (reloadShared t shared)).[key]) now.

Lemma allow_without_source t shared pool backend cfg now :
  bu_Enabled cfg = true → source t = None →
  (Tracker_Allow t shared pool backend cfg now).1 =
    let c := current_counter t shared (AdmissionKey pool backend) now in
    evaluate cfg (dailyUsed c) (monthlyUsed c).
Proof.
  intros He Hs. unfold Tracker_Allow, current_counter. rewrite He. cbn.
  assert (Hs' : source (reloadShared t shared) = None).
  { unfold reloadShared. by repeat case_match. }
  by rewrite Hs'.
Qed.

(** One more allocation in the counters that have a limit. *)
Definition bump (cfg : BudgetConfig) (c : counter) : counter :=
  let c := if 0 <? bu_MaxAllocationsDaily cfg then { c with dailyUsed := dailyUsed c + 1 } else c in
  if 0 <? bu_MaxAllocationsMonthly cfg then { c with monthlyUsed := monthlyUsed c + 1 } else c.

Lemma record_counters t shared pool backend cfg now t' shared' :
  bu_Enabled cfg = true →
  Tracker_Record t shared pool backend cfg now = (t', shared') →
  counters t' !! AdmissionKey pool backend =
    Some (bump cfg (current_counter t shared (AdmissionKey pool backend) now)) ∧
  source t' = source t ∧ shared' = persistSharedLocked t' shared.
Proof.
  intros He. unfold Tracker_Record, current_counter. rewrite He. cbn. intros [= <- <-]. cbn.
  rewrite lookup_insert_eq. split; [done|]. split; [|done].
  unfold reloadShared. by repeat case_match.
Qed.

Lemma roll_in_window c now :
  dailyWindowStart c = utcDayStart now → monthlyWindowStart c = utcMonthStart now →
  0 < utcMonthStart now → roll_counter c now = c.
Proof.
  intros Hd Hm Hpos. pose proof (utcMonthStart_le_day now).
  unfold roll_counter, IsZero, Before. rewrite Hd.
  destruct (Z.eqb_spec (utcDayStart now) 0); [lia|].
  destruct (Z.ltb_spec (utcDayStart now) (utcDayStart now)); [lia|]. cbn. rewrite Hm.
  destruct (Z.eqb_spec (utcMonthStart now) 0); [lia|].
  destruct (Z.ltb_spec (utcMonthStart now) (utcMonthStart now)); [lia|]. done.
Qed.

(** Counters whose windows do not start after [now]: what a clock that never
    steps back leaves. *)
Definition not_ahead (c : counter) (now : Time) : Prop :=
  dailyWindowStart c ≤ utcDayStart now ∧ monthlyWindowStart c ≤ utcMonthStart now.

Lemma roll_windows c now :
  0 < utcMonthStart now → not_ahead c now →
  dailyWindowStart (roll_counter c now) = utcDayStart now ∧
  monthlyWindowStart (roll_counter c now) = utcMonthStart now.
Proof.
  intros Hpos [Hd Hm]. pose proof (utcMonthStart_le_day now).
  unfold roll_counter, IsZero, Before. repeat case_match; cbn in *; reflect_bools; lia.
Qed.

Lemma bump_windows cfg c :
  dailyWindowStart (bump cfg c) = dailyWindowStart c ∧ monthlyWindowStart (bump cfg c) = monthlyWindowStart c.
Proof. unfold bump. repeat case_match; done. Qed.

(** Recorded usage is shared: after one replica records an allocation, every replica
    sharing the store (with no external source) evaluates that backend, at any time of the same
    UTC day and month, with exactly one more allocation in each limited window than the
    recording replica saw before; and the circuits and rate limits other components keep in
    the same document are untouched. *)
Theorem recorded_budget_is_shared t1 t2 (s : S) pool backend cfg now now' t1' shared' :
  bu_Enabled cfg = true → source t2 = None →
  0 < utcMonthStart now → utcDayStart now' = utcDayStart now → utcMonthStart now' = utcMonthStart now →
  not_ahead (counters (reloadShared t1 (Some s))).[AdmissionKey pool backend] now →
  Tracker_Record t1 (Some s) pool backend cfg now = (t1', shared') →
  let before := current_counter t1 (Some s) (AdmissionKey pool backend) now in
  (Tracker_Allow t2 shared' pool backend cfg now').1 =
    evaluate cfg
      (dailyUsed before + (if 0 <? bu_MaxAllocationsDaily cfg then 1 else 0))
      (monthlyUsed before + (if 0 <? bu_MaxAllocationsMonthly cfg then 1 else 0)) ∧
  ∃ s' doc doc', shared' = Some s' ∧ LoadAdmissionState s = Ok doc ∧ LoadAdmissionState s' = Ok doc' ∧
    doc_Circuits doc' = doc_Circuits doc ∧ doc_Limits doc' = doc_Limits doc.
Proof.
  intros He Hs Hpos Hday Hmonth Hahead Hrec before.
  apply record_counters in Hrec as (Hc & _ & ->); [|done]. split.
  - rewrite allow_without_source by done. cbn. unfold current_counter at 1 2.
    rewrite (map_read_Some _ _ _ (lookup_reload_other t1' t2 s _ _ Hc)).
    destruct (roll_windows _ now Hpos Hahead) as [Hd Hm].
    destruct (bump_windows cfg (current_counter t1 (Some s) (AdmissionKey pool backend) now)) as [Hbd Hbm].
    rewrite roll_in_window.
    + fold before. unfold bump. repeat case_match; cbn; f_equal; lia.
    + rewrite Hbd, Hday. exact Hd.
    + rewrite Hbm, Hmonth. exact Hm.
    + by rewrite Hmonth.
  - unfold persistSharedLocked. destruct (load_total s) as [doc Hdoc]. rewrite Hdoc.
    do 3 eexists. rewrite load_save. split_and!; done.
Qed.

(** Attempts at the given times: each asks Allow and records when allowed.
    The result counts the attempts that were allowed. *)
Fixpoint run_budget (t : Tracker) (shared : option S) pool backend cfg (times : list Time) : Z :=
  match times with
  | [] => 0
  | now :: times =>
      let '(d, t) := Tracker_Allow t shared pool backend cfg now in
      if bd_Allowed d then
        let '(t, shared) := Tracker_Record t shared pool backend cfg now in
        1 + run_budget t shared pool backend cfg times
      else run_budget t shared pool backend cfg times
  end.

(** Allocations a window still has room for: [n] when it has no limit. *)
Definition room (limit used n : Z) : Z := if 0 <? limit then Z.max 0 (limit - used) else n.

Lemma allow_keeps_counters t shared pool backend cfg now :
  source t = None →
  let t' := (Tracker_Allow t shared pool backend cfg now).2 in
  source t' = None ∧
  (bu_Enabled cfg = true → counters t' !! AdmissionKey pool backend =
     Some (current_counter t shared (AdmissionKey pool backend) now)).
Proof.
  intros Hs. unfold Tracker_Allow, current_counter. destruct (bu_Enabled cfg); cbn; [|done].
  assert (Hs' : source (reloadShared t shared) = None) by (unfold reloadShared; by repeat case_match).
  rewrite Hs'. cbn. rewrite Hs'. split; [done|]. intros _. apply lookup_insert_eq.
Qed.

Lemma evaluate_allowed cfg du mu :
  bd_Allowed (evaluate cfg du mu) = true ↔
    (0 < bu_MaxAllocationsDaily cfg → du < bu_MaxAllocationsDaily cfg) ∧
    (0 < bu_MaxAllocationsMonthly cfg → mu < bu_MaxAllocationsMonthly cfg).
Proof.
  unfold evaluate. repeat case_match; cbn; reflect_bools; split; try done; try lia.
  all: intros _; repeat match goal with H : _ ∨ _ |- _ => destruct H end; reflect_bools; lia.
Qed.

Lemma roll_same_window c now now' :
  utcDayStart now' = utcDayStart now → utcMonthStart now' = utcMonthStart now →
  roll_counter c now' = roll_counter c now.
Proof. intros Hd Hm. unfold roll_counter. by rewrite Hd, Hm. Qed.

Lemma roll_idem c now : 0 < utcMonthStart now → roll_counter (roll_counter c now) now = roll_counter c now.
Proof.
  intros Hpos. pose proof (utcMonthStart_le_day now).
  unfold roll_counter, IsZero, Before. destruct c as [ds du ms mu]. unfold tset, set. cbn.
  repeat (case_match; cbn in *; reflect_bools; try lia; try done).
Qed.

Lemma current_after_allow t shared pool backend cfg now now' :
  bu_Enabled cfg = true → source t = None → 0 < utcMonthStart now →
  utcDayStart now' = utcDayStart now → utcMonthStart now' = utcMonthStart now →
  current_counter (Tracker_Allow t shared pool backend cfg now').2 shared (AdmissionKey pool backend) now =
  current_counter t shared (AdmissionKey pool backend) now.
Proof.
  intros He Hs Hpos Hd Hm.
  pose proof (proj2 (allow_keeps_counters t shared pool backend cfg now' Hs) He) as Hc.
  set (t' := (Tracker_Allow t shared pool backend cfg now').2) in *.
  set (key := AdmissionKey pool backend) in *.
  assert (Hroll : current_counter t shared key now' = current_counter t shared key now)
    by (unfold current_counter; by apply roll_same_window).
  rewrite Hroll in Hc. unfold current_counter at 1, reloadShared at 1.
  destruct shared as [s|].
  - destruct (load_total s) as [doc Hdoc]. rewrite Hdoc. cbn.
    destruct (doc_Budgets doc !! key) as [b|] eqn:Hb.
    + assert (Hread : ∀ m : gmap string counter, ((counter_of_state <$> doc_Budgets doc) ∪ m).[key] = counter_of_state b).
      { intros m. apply map_read_Some. rewrite lookup_union, lookup_fmap, Hb. cbn. by destruct (m !! key). }
      unfold current_counter, reloadShared. rewrite Hdoc. cbn. by rewrite !Hread.
    + rewrite (map_read_Some _ _ (current_counter t (Some s) key now)).
      * unfold current_counter. by rewrite roll_idem.
      * by rewrite lookup_union, lookup_fmap, Hb, Hc.
  - rewrite (map_read_Some _ _ _ Hc). unfold current_counter. by rewrite roll_idem.
Qed.

Lemma current_after_record t shared pool backend cfg now now' :
  bu_Enabled cfg = true → 0 < utcMonthStart now →
  utcDayStart now' = utcDayStart now → utcMonthStart now' = utcMonthStart now →
  not_ahead (current_counter t shared (AdmissionKey pool backend) now) now →
  let '(t', shared') := Tracker_Record t shared pool backend cfg now' in
  source t' = source t ∧
  current_counter t' shared' (AdmissionKey pool backend) now =
    bump cfg (current_counter t shared (AdmissionKey pool backend) now).
Proof.
  intros He Hpos Hd Hm Hahead. destruct (Tracker_Record t shared pool backend cfg now') as [t' shared'] eqn:Hr.
  apply record_counters in Hr as (Hc & Hsrc & ->); [|done]. split; [done|].
  set (key := AdmissionKey pool backend) in *.
  assert (Hroll : current_counter t shared key now' = current_counter t shared key now)
    by (unfold current_counter; by apply roll_same_window).
  rewrite Hroll in Hc. unfold current_counter at 1. rewrite reload_after_persist.
  rewrite (map_read_Some _ _ _ Hc). unfold current_counter.
  set (c := (counters (reloadShared t shared)).[key]) in *.
  destruct (bump_windows cfg (roll_counter c now)) as [Hbd Hbm].
  destruct (roll_windows (roll_counter c now) now Hpos Hahead) as [Hrd Hrm].
  rewrite roll_idem in Hrd, Hrm by done.
  apply roll_in_window; [by rewrite Hbd|by rewrite Hbm|done].
Qed.

Lemma bump_not_ahead cfg c now : not_ahead c now → not_ahead (bump cfg c) now.
Proof. unfold not_ahead. by destruct (bump_windows cfg c) as [-> ->]. Qed.

Lemma bump_used cfg c :
  dailyUsed (bump cfg c) = dailyUsed c + (if 0 <? bu_MaxAllocationsDaily cfg then 1 else 0) ∧
  monthlyUsed (bump cfg c) = monthlyUsed c + (if 0 <? bu_MaxAllocationsMonthly cfg then 1 else 0).
Proof. unfold bump. repeat case_match; cbn; lia. Qed.

(** C34. The guardrail is exact when attempts do not overlap: over any sequence of attempts inside
    one UTC day and month, each asking Allow and recording when it is allowed, the number
    allowed is the number of attempts or what the windows still had room for, whichever is
    least; with a shared store, with none, and whatever the tracker's local counters were. *)
Theorem budget_guardrail_is_exact t (shared : option S) pool backend cfg now times :
  bu_Enabled cfg = true → source t = None → 0 < utcMonthStart now →
  not_ahead (current_counter t shared (AdmissionKey pool backend) now) now →
  Forall (λ now', utcDayStart now' = utcDayStart now ∧ utcMonthStart now' = utcMonthStart now) times →
  let c := current_counter t shared (AdmissionKey pool backend) now in
  let n := Z.of_nat (length times) in
  run_budget t shared pool backend cfg times =
    Z.min n (Z.min (room (bu_MaxAllocationsDaily cfg) (dailyUsed c) n)
                   (room (bu_MaxAllocationsMonthly cfg) (monthlyUsed c) n)).
Proof.
  intros He Hs Hpos Hahead Htimes. revert t shared Hs Hahead.
  induction Htimes as [|now' times [Hd Hm] Htimes IH]; intros t shared Hs Hahead; cbn zeta.
  { cbn. unfold room. repeat case_match; lia. }
  cbn [run_budget]. rewrite length_cons.
  pose proof (current_after_allow t shared pool backend cfg now now' He Hs Hpos Hd Hm) as Hcur.
  pose proof (proj1 (allow_keeps_counters t shared pool backend cfg now' Hs)) as Hs'.
  pose proof (allow_without_source t shared pool backend cfg now' He Hs) as Hdec.
  assert (Hroll : current_counter t shared (AdmissionKey pool backend) now' =
                  current_counter t shared (AdmissionKey pool backend) now)
    by (unfold current_counter; by apply roll_same_window).
  cbn zeta in Hdec. rewrite Hroll in Hdec.
  destruct (Tracker_Allow t shared pool backend cfg now') as [d t'] eqn:Hallow. cbn in Hcur, Hs', Hdec.
  set (c := current_counter t shared (AdmissionKey pool backend) now) in *.
  pose proof (evaluate_allowed cfg (dailyUsed c) (monthlyUsed c)) as Heval. rewrite <- Hdec in Heval.
  destruct (bd_Allowed d) eqn:Hd'.
  - destruct (proj1 Heval eq_refl) as [Hday Hmonth].
    pose proof (current_after_record t' shared pool backend cfg now now' He Hpos Hd Hm) as Hrec.
    rewrite Hcur in Hrec. specialize (Hrec Hahead).
    destruct (Tracker_Record t' shared pool backend cfg now') as [t'' shared'']. destruct Hrec as [Hsrc Hcur'].
    rewrite (IH t'' shared''); [|congruence|rewrite Hcur'; by apply bump_not_ahead].
    rewrite Hcur'. destruct (bump_used cfg c) as [-> ->].
    unfold room. repeat case_match; reflect_bools; lia.
  - rewrite (IH t' shared) by (try rewrite Hcur; done). rewrite Hcur.
    assert (Hfull : ¬ ((0 < bu_MaxAllocationsDaily cfg → dailyUsed c < bu_MaxAllocationsDaily cfg) ∧
                       (0 < bu_MaxAllocationsMonthly cfg → monthlyUsed c < bu_MaxAllocationsMonthly cfg)))
      by (intros Hx; apply Heval in Hx; congruence).
    unfold room. repeat case_match; reflect_bools; lia.
Qed.
End Sharing.

(** ** Witnesses *)

Definition example_cfg : BudgetConfig :=
  {| bu_Enabled := true; bu_MaxAllocationsDaily := 2; bu_MaxAllocationsMonthly := 3 |}.

(** Noon UTC on 2026-03-15. *)
Definition example_noon : Time := (739689 * 24 + 12) * Hour.

Lemma recorded_budget_is_shared_witness :
  let t := NewTracker (Some Memory.NewMemory) in
  let '(t1, shared) := Tracker_Record t (Some Memory.NewMemory) "lite" "lambda" example_cfg example_noon in
  (Tracker_Allow t shared "lite" "lambda" example_cfg (example_noon + Hour)).1 = evaluate example_cfg 1 1.
Proof.
  cbn zeta. destruct (Tracker_Record _ _ _ _ _ _) as [t1 shared] eqn:Hr.
  refine (proj1 (recorded_budget_is_shared _ (NewTracker (Some Memory.NewMemory)) Memory.NewMemory
    "lite" "lambda" example_cfg example_noon (example_noon + Hour) t1 shared _ _ _ _ _ _ Hr)).
  all: try (vm_compute; reflexivity).
  split; vm_compute; discriminate.
Defined.

Lemma budget_guardrail_is_exact_witness :
  run_budget (NewTracker (Some Memory.NewMemory)) (Some Memory.NewMemory) "lite" "lambda" example_cfg
    [example_noon; example_noon + Hour; example_noon + 2 * Hour] = 2.
Proof.
  rewrite (budget_guardrail_is_exact _ _ _ _ _ example_noon); [vm_compute; reflexivity..| |].
  - split; vm_compute; discriminate.
  - repeat constructor.
Defined.

(** The calendar at a few known dates: 2026-01-01 is day 739616, 2024 is a
    leap year. *)
Example month_of_2026_03_15 : month_start_day 739689 = 739675.
Proof. reflexivity. Qed.
Example month_of_2024_02_29 : month_start_day 738944 = 738916.
Proof. reflexivity. Qed.
