(* ===== verification/Scheduler.v ===== *)
(** The ordered schedulers: src/internal/scheduler/stateful.go, round_robin.go
    and weighted_round_robin.go.

    [Reserve] and [Release] of orderedScheduler over a candidate order, the
    round-robin and weighted candidate orders, and the interface [Scheduler]
    that the registry and the service use. *)

From S2P Require Import Prelude Errors Model Budget.

(** ** The Scheduler interface

    [Reserve] and [Release] take the time the scheduler's clock reads. *)

Class Scheduler (S : Type) := {
  Reserve : S → PoolConfig → AllocationRequest → Time → result BackendName * S;
  Release : S → PoolName → BackendName → AllocationStatus → Time → S;
  Active : S → PoolName → BackendName → Z;
}.

Definition NameRoundRobin : string := "round-robin".
Definition NameWeightedRoundRobin : string := "weighted-round-robin".
Definition NamePriorityFairShare : string := "priority-fair-share".

Definition normalizeSchedulerName (name : string) : string := ToLower (TrimSpace name).

(** ** Active counts per pool and backend *)

Abbreviation Counts := (gmap PoolName (gmap BackendName Z)) (only parsing).

(** [m[pool][backend] += n] on an existing or a new pool entry. *)
Definition add_active (m : Counts) (pool : PoolName) (backend : BackendName) (n : Z) : Counts :=
  <[pool := <[backend := m.[pool].[backend] + n]> m.[pool]]> m.

(** [if _, ok := m[pool]; !ok { m[pool] = map... {} }]. *)
Definition ensure_pool {A} (m : gmap PoolName (gmap BackendName A)) (pool : PoolName) :
    gmap PoolName (gmap BackendName A) :=
  match m !! pool with Some _ => m | None => <[pool := ∅]> m end.

Definition active_total (m : Counts) (backend : BackendName) : Z :=
  sum_map (fun _ poolAct => poolAct.[backend]) m.

Definition backendAvailable (cfg : BackendConfig) (active activeBackend : Z) : bool :=
  if negb (bc_Enabled cfg) || negb (bc_Healthy cfg) then false
  else if bc_MaxRunners cfg <=? active then false
  else if (0 <? bc_CrossPoolMaxRunners cfg) && (bc_CrossPoolMaxRunners cfg <=? activeBackend) then false
  else true.

Definition backendWeight (cfg : BackendConfig) : Z :=
  if 0 <? bc_Weight cfg then bc_Weight cfg else 1.

(** ** Candidate orders *)

Definition preferredBackendOrder : list BackendName :=
  [BackendARC; BackendKubernetes; BackendCodeBuild; BackendLambda; BackendCloudRun;
   BackendAzureFunctions; BackendAzureVM; BackendEC2; BackendGCE; BackendDesktop].

Record ranked := { rk_name : BackendName; rk_cost : Z; rk_order : Z }.

Fixpoint index_of (name : string) (l : list string) (i : Z) : option Z :=
  match l with
  | [] => None
  | x :: l' => if String.eqb x name then Some i else index_of name l' (i + 1)
  end.

Definition rank (name : BackendName) (cfg : BackendConfig) : ranked :=
  {| rk_name := name; rk_cost := CostClass name cfg;
     rk_order := default (Z.of_nat (length preferredBackendOrder)) (index_of name preferredBackendOrder 0) |}.

Definition ranked_less (a b : ranked) : bool :=
  if negb (rk_cost a =? rk_cost b) then rk_cost a <? rk_cost b else rk_order a <? rk_order b.

Section Orders.
Context `{GoRange}.

Definition orderedBackends (pool : PoolConfig) : list BackendName :=
  rk_name <$> sort_stable ranked_less ((fun kv => rank kv.1 kv.2) <$> range (pc_Backends pool)).

Definition weightedBackends (pool : PoolConfig) : list BackendName :=
  orderedBackends pool ≫= fun backend =>
    repeat backend (Z.to_nat (backendWeight (pc_Backends pool).[backend])).
End Orders.

(** ** orderedScheduler *)

Module Ordered.

Record orderedScheduler := {
  cursors : gmap PoolName Z;
  active : Counts;
}.

Definition newOrderedScheduler : orderedScheduler := {| cursors := ∅; active := ∅ |}.

Definition activeBackendLocked (s : orderedScheduler) (backend : BackendName) : Z :=
  active_total (active s) backend.

Definition available (s : orderedScheduler) (pool : PoolConfig) (backend : BackendName) : bool :=
  backendAvailable (pc_Backends pool).[backend]
    (active s).[pc_Name pool].[backend] (activeBackendLocked s backend).

(** The element of the ring at an index that is in range. *)
Definition ring_at (backends : list BackendName) (i : Z) : BackendName :=
  nth (Z.to_nat i) backends "".

(** The [for offset := range len(backends)] loop, on the offsets left. *)
Fixpoint scan (s : orderedScheduler) (pool : PoolConfig) (backends : list BackendName)
    (start : Z) (offsets : list Z) : result BackendName * orderedScheduler :=
  match offsets with
  | [] => (Fail (Sentinel ErrNoCapacity), s)
  | offset :: offsets =>
      let n := Z.of_nat (length backends) in
      let candidate := ring_at backends ((start + offset) mod n) in
      if negb (available s pool candidate) then scan s pool backends start offsets
      else
        (Ok candidate,
         {| active := add_active (active s) (pc_Name pool) candidate 1;
            cursors := <[pc_Name pool := (start + offset + 1) mod n]> (cursors s) |})
  end.

Definition Reserve (order : PoolConfig → list BackendName) (s : orderedScheduler)
    (pool : PoolConfig) (request : AllocationRequest) : result BackendName * orderedScheduler :=
  let s := { s with active := ensure_pool (active s) (pc_Name pool) } in
  match ar_Backend request with
  | Some pinned =>
      match pc_Backends pool !! pinned with
      | None => (Fail (Sentinel ErrUnknownBackend), s)
      | Some cfg =>
          if negb (backendAvailable cfg (active s).[pc_Name pool].[pinned] (activeBackendLocked s pinned))
          then (Fail (Sentinel ErrNoCapacity), s)
          else (Ok pinned, { s with active := add_active (active s) (pc_Name pool) pinned 1 })
      end
  | None =>
      let backends := order pool in
      if (length backends =? 0)%nat then (Fail (Sentinel ErrNoCapacity), s)
      else
        let n := Z.of_nat (length backends) in
        scan s pool backends ((cursors s).[pc_Name pool] mod n) (seqZ 0 n)
  end.

Definition Release (s : orderedScheduler) (pool : PoolName) (backend : BackendName) : orderedScheduler :=
  match active s !! pool with
  | None => s
  | Some _ =>
      if 0 <? (active s).[pool].[backend]
      then { s with active := add_active (active s) pool backend (-1) }
      else s
  end.

Definition Active (s : orderedScheduler) (pool : PoolName) (backend : BackendName) : Z :=
  (active s).[pool].[backend].

End Ordered.

(** Round robin and weighted round robin share the state type; the wrapper
    types tell their instances apart. *)
Record RoundRobin := { rr_state : Ordered.orderedScheduler }.
Record WeightedRoundRobin := { wrr_state : Ordered.orderedScheduler }.

Definition NewRoundRobin : RoundRobin := {| rr_state := Ordered.newOrderedScheduler |}.
Definition NewWeightedRoundRobin : WeightedRoundRobin := {| wrr_state := Ordered.newOrderedScheduler |}.

#[export] Instance round_robin_scheduler `{GoRange} : Scheduler RoundRobin := {
  Reserve := fun s pool request _ =>
    let '(r, st) := Ordered.Reserve orderedBackends (rr_state s) pool request in
    (r, {| rr_state := st |});
  Release := fun s pool backend _ _ => {| rr_state := Ordered.Release (rr_state s) pool backend |};
  Active := fun s => Ordered.Active (rr_state s);
}.

#[export] Instance weighted_round_robin_scheduler `{GoRange} : Scheduler WeightedRoundRobin := {
  Reserve := fun s pool request _ =>
    let '(r, st) := Ordered.Reserve weightedBackends (wrr_state s) pool request in
    (r, {| wrr_state := st |});
  Release := fun s pool backend _ _ => {| wrr_state := Ordered.Release (wrr_state s) pool backend |};
  Active := fun s => Ordered.Active (wrr_state s);
}.
