(* ===== verification/SchedulerTheory.v ===== *)
(** Theorems of the schedulers: the ledger interface every scheduler
    implements, the capacity invariants proved against it, and the selection
    behaviour of the ordered schedulers. *)

From S2P Require Import Prelude Errors Model Budget Scheduler.

(** ** Counts *)

Lemma add_active_read m p b n p' b' :
  (add_active m p b n).[p'].[b'] =
    m.[p'].[b'] + (if decide (p = p' ∧ b = b') then n else 0).
Proof.
  unfold add_active. rewrite map_read_insert. case_decide; subst.
  - rewrite map_read_insert. repeat case_decide; subst; naive_solver lia.
  - case_decide; naive_solver lia.
Qed.

Lemma ensure_pool_read (m : Counts) p p' : (ensure_pool m p).[p'] = m.[p'].
Proof.
  unfold ensure_pool. destruct (m !! p) eqn:Hp; [done|].
  rewrite map_read_insert. case_decide; subst; [|done]. by rewrite (map_read_None _ _ Hp).
Qed.

Lemma active_total_insert m p (c : gmap BackendName Z) b :
  active_total (<[p := c]> m) b = active_total m b + c.[b] - m.[p].[b].
Proof.
  unfold active_total. rewrite sum_map_insert. destruct (m !! p) as [c'|] eqn:Hp.
  - rewrite (sum_map_delete _ m p c' Hp), (map_read_Some _ _ _ Hp). lia.
  - rewrite delete_id by done. rewrite (map_read_None _ _ Hp). change (zero_value.[b]) with 0. lia.
Qed.

Lemma active_total_add m p b n b' :
  active_total (add_active m p b n) b' = active_total m b' + (if decide (b = b') then n else 0).
Proof.
  unfold add_active. rewrite active_total_insert, map_read_insert. case_decide; subst; lia.
Qed.

Lemma active_total_ensure m p b : active_total (ensure_pool m p) b = active_total m b.
Proof.
  unfold ensure_pool. destruct (m !! p) eqn:Hp; [done|].
  rewrite active_total_insert, (map_read_None _ _ Hp). change ((∅ : gmap BackendName Z).[b]) with 0.
  change (zero_value.[b]) with 0. lia.
Qed.

Lemma backendAvailable_spec cfg a t :
  backendAvailable cfg a t = true ↔
    bc_Enabled cfg = true ∧ bc_Healthy cfg = true ∧ a < bc_MaxRunners cfg ∧
    (0 < bc_CrossPoolMaxRunners cfg → t < bc_CrossPoolMaxRunners cfg).
Proof.
  unfold backendAvailable. destruct (bc_Enabled cfg), (bc_Healthy cfg); cbn; [|naive_solver..].
  repeat case_match; reflect_bools; naive_solver lia.
Qed.

(** ** The ledger interface

    A scheduler keeps a count per pool and backend.  A granted reservation adds
    one where the backend was available, a refused one changes no count, a
    release takes one away from a positive count. *)

Class SchedulerLedger (S : Type) `{Scheduler S} := {
  ledger : S → Counts;
  active_ledger : ∀ s p b, Active s p b = (ledger s).[p].[b];
  reserve_granted : ∀ s pool request now b s',
    Reserve s pool request now = (Ok b, s') →
    ∃ cfg, pc_Backends pool !! b = Some cfg ∧
      (ar_Backend request = None ∨ ar_Backend request = Some b) ∧
      (0 ≤ Active s (pc_Name pool) b →
       backendAvailable cfg (Active s (pc_Name pool) b) (active_total (ledger s) b) = true) ∧
      ledger s' = add_active (ensure_pool (ledger s) (pc_Name pool)) (pc_Name pool) b 1;
  reserve_refused : ∀ s pool request now e s',
    Reserve s pool request now = (Fail e, s') →
    ledger s' = ensure_pool (ledger s) (pc_Name pool);
  release_ledger : ∀ s p b allocation now,
    ledger (Release s p b allocation now) =
      if 0 <? (ledger s).[p].[b] then add_active (ledger s) p b (-1) else ledger s;
}.

Section Ledger.
Context {S : Type} `{SchedulerLedger S}.

Lemma active_after_grant s pool request now b s' p b' :
  Reserve s pool request now = (Ok b, s') →
  Active s' p b' = Active s p b' + (if decide (pc_Name pool = p ∧ b = b') then 1 else 0).
Proof.
  intros Hr. apply reserve_granted in Hr as (cfg & _ & _ & _ & Hl).
  rewrite !active_ledger, Hl, add_active_read. by rewrite ensure_pool_read.
Qed.

Lemma active_after_refusal s pool request now e s' p b' :
  Reserve s pool request now = (Fail e, s') → Active s' p b' = Active s p b'.
Proof. intros Hr. rewrite !active_ledger, (reserve_refused _ _ _ _ _ _ Hr). by rewrite ensure_pool_read. Qed.

Lemma active_after_release s p b allocation now p' b' :
  Active (Release s p b allocation now) p' b' =
    Active s p' b' - (if decide (p = p' ∧ b = b') then (if 0 <? Active s p b then 1 else 0) else 0).
Proof.
  rewrite !active_ledger, release_ledger.
  destruct (0 <? (ledger s).[p].[b]); [rewrite add_active_read|]; case_decide; lia.
Qed.

(** One call of the interface, for pools of a set of configurations. *)
Inductive sched_step (configured : PoolConfig → Prop) : S → S → Prop :=
  | sched_reserve s pool request now :
      configured pool → sched_step configured s (Reserve s pool request now).2
  | sched_release s p b allocation now :
      sched_step configured s (Release s p b allocation now).

(** The counts respect a bound per pool and backend and one per backend
    across pools. *)
Definition within_capacity (max_runners : PoolName → BackendName → Z) (cross : BackendName → option Z)
    (s : S) : Prop :=
  (∀ p b, 0 ≤ Active s p b ≤ max_runners p b) ∧
  (∀ b limit, cross b = Some limit → active_total (ledger s) b ≤ limit).

Lemma step_within_capacity configured max_runners cross s s' :
  (∀ pool b cfg, configured pool → pc_Backends pool !! b = Some cfg →
     bc_MaxRunners cfg ≤ max_runners (pc_Name pool) b ∧
     ∀ limit, cross b = Some limit → 0 < bc_CrossPoolMaxRunners cfg ≤ limit) →
  within_capacity max_runners cross s → sched_step configured s s' → within_capacity max_runners cross s'.
Proof.
  intros Hcfg [Hpool Hcross] Hstep. destruct Hstep as [s pool request now Hc|s p b allocation now].
  - destruct (Reserve s pool request now) as [[b|e] s'] eqn:Hr; cbn.
    + pose proof Hr as Hgrant. apply reserve_granted in Hgrant as (cfg & Hb & _ & Hav & Hl).
      specialize (Hav (proj1 (Hpool _ _))). apply backendAvailable_spec in Hav as (_ & _ & Hmax & Hx).
      destruct (Hcfg pool b cfg Hc Hb) as [Hm Hlim]. split.
      * intros p b'. rewrite (active_after_grant _ _ _ _ _ _ p b' Hr). pose proof (Hpool p b').
        case_decide as Heq; [destruct Heq; subst|]; lia.
      * intros b' limit Hb'. rewrite Hl, active_total_add, active_total_ensure.
        pose proof (Hcross b' limit Hb'). case_decide; subst; [|lia]. specialize (Hlim limit Hb'). lia.
    + split.
      * intros p b'. rewrite (active_after_refusal _ _ _ _ _ _ p b' Hr). apply Hpool.
      * intros b limit Hb. rewrite (reserve_refused _ _ _ _ _ _ Hr), active_total_ensure. by apply Hcross.
  - split.
    + intros p' b'. rewrite active_after_release. pose proof (Hpool p' b') as Hp'.
      case_decide as Heq; [destruct Heq; subst|lia].
      destruct (Z.ltb_spec 0 (Active s p' b')); lia.
    + intros b' limit Hb'. rewrite release_ledger. pose proof (Hcross b' limit Hb').
      case_match; [|done]. rewrite active_total_add. case_decide; lia.
Qed.

(** C8. No scheduler exceeds capacity: after any sequence of reservations and releases, for any
    requests and pool configurations whose limits are within the bounds, every pool/backend
    count stays between zero and the backend's maxRunners, and the count of a backend over all
    pools stays within its cross-pool limit. *)
Theorem schedulers_respect_capacity configured max_runners cross s s' :
  (∀ pool b cfg, configured pool → pc_Backends pool !! b = Some cfg →
     bc_MaxRunners cfg ≤ max_runners (pc_Name pool) b ∧
     ∀ limit, cross b = Some limit → 0 < bc_CrossPoolMaxRunners cfg ≤ limit) →
  within_capacity max_runners cross s → rtc (sched_step configured) s s' →
  within_capacity max_runners cross s'.
Proof.
  intros Hcfg Hs Hsteps. induction Hsteps as [|s s1 s' Hstep _ IH]; [done|].
  apply IH. by eapply step_within_capacity.
Qed.
End Ledger.

(** ** The ring scan *)

Import Ordered.

Section OrderedLemmas.
Context (order : PoolConfig → list BackendName).
Implicit Types (s : orderedScheduler) (pool : PoolConfig).

(** The scan takes the first available offset. *)
Lemma scan_spec s pool backends start offsets :
  let n := Z.of_nat (length backends) in
  let at_offset o := ring_at backends ((start + o) mod n) in
  match scan s pool backends start offsets with
  | (Ok b, s') => ∃ before o after, offsets = before ++ o :: after ∧ b = at_offset o ∧
      Forall (λ o', available s pool (at_offset o') = false) before ∧ available s pool b = true ∧
      s' = {| active := add_active (active s) (pc_Name pool) b 1;
              cursors := <[pc_Name pool := (start + o + 1) mod n]> (cursors s) |}
  | (Fail e, s') => e = Sentinel ErrNoCapacity ∧ s' = s ∧
      Forall (λ o, available s pool (at_offset o) = false) offsets
  end.
Proof.
  cbn zeta. induction offsets as [|o offsets IH]; cbn [scan]; [done|].
  destruct (available s pool _) eqn:Hav; cbn.
  - exists [], o, offsets. done.
  - destruct (scan s pool backends start offsets) as [[b|e] s'].
    + destruct IH as (before & o' & after & -> & Hb & Hbefore & Hav' & Hs').
      exists (o :: before), o', after. split_and!; try done. by constructor.
    + destruct IH as (? & ? & ?). split_and!; try done. by constructor.
Qed.

Lemma ring_at_elem backends i : 0 ≤ i < Z.of_nat (length backends) → ring_at backends i ∈ backends.
Proof. intros Hi. unfold ring_at. apply list_elem_of_In, nth_In. lia. Qed.

(** Every element of the ring is at some offset from any start. *)
Lemma ring_offset backends start b :
  b ∈ backends → ∃ o, o ∈ seqZ 0 (Z.of_nat (length backends)) ∧
    ring_at backends ((start + o) mod Z.of_nat (length backends)) = b.
Proof.
  intros Hb. apply list_elem_of_In, (In_nth _ _ "") in Hb as (i & Hi & <-).
  set (n := Z.of_nat (length backends)). exists ((Z.of_nat i - start) mod n).
  pose proof (Z.mod_pos_bound (Z.of_nat i - start) n). split.
  - apply elem_of_seqZ. lia.
  - unfold ring_at. rewrite Z.add_mod_idemp_r by lia.
    replace (start + (Z.of_nat i - start)) with (Z.of_nat i) by lia.
    rewrite Z.mod_small by lia. by rewrite Nat2Z.id.
Qed.

Lemma available_ensure s pool b :
  available {| cursors := cursors s; active := ensure_pool (active s) (pc_Name pool) |} pool b = available s pool b.
Proof. unfold available, activeBackendLocked. cbn. by rewrite ensure_pool_read, active_total_ensure. Qed.

Hypothesis order_configured : ∀ pool b, b ∈ order pool → is_Some (pc_Backends pool !! b).

Lemma ordered_reserve_granted s pool request b s' :
  Ordered.Reserve order s pool request = (Ok b, s') →
  ∃ cfg, pc_Backends pool !! b = Some cfg ∧
    (ar_Backend request = None ∨ ar_Backend request = Some b) ∧ available s pool b = true ∧
    active s' = add_active (ensure_pool (active s) (pc_Name pool)) (pc_Name pool) b 1.
Proof.
  unfold Ordered.Reserve. destruct (ar_Backend request) as [pinned|].
  - destruct (pc_Backends pool !! pinned) as [cfg|] eqn:Hp; [|done].
    destruct (backendAvailable cfg _ _) eqn:Hav; cbn; [|done]. intros [= <- <-].
    exists cfg. split_and!; [done|by right| |done].
    rewrite <- available_ensure. unfold available. by rewrite (map_read_Some _ _ _ Hp).
  - case_match eqn:Hlen; [done|]. intros Hscan.
    apply Nat.eqb_neq in Hlen. pose proof (scan_spec {| cursors := cursors s; active := ensure_pool (active s) (pc_Name pool) |}
      pool (order pool) ((cursors s).[pc_Name pool] mod Z.of_nat (length (order pool)))
      (seqZ 0 (Z.of_nat (length (order pool))))) as Hspec.
    unfold tset, set in Hscan. cbn in Hscan, Hspec. rewrite Hscan in Hspec.
    destruct Hspec as (before & o & after & _ & Hb & _ & Hav & ->). rewrite available_ensure in Hav.
    destruct (order_configured pool b) as [cfg Hcfg].
    { rewrite Hb. apply ring_at_elem, Z.mod_pos_bound. lia. }
    exists cfg. split_and!; [done|by left|done|done].
Qed.

Lemma ordered_reserve_refused s pool request e s' :
  Ordered.Reserve order s pool request = (Fail e, s') →
  cursors s' = cursors s ∧ active s' = ensure_pool (active s) (pc_Name pool) ∧
  match ar_Backend request with
  | Some pinned => match pc_Backends pool !! pinned with
                   | None => e = Sentinel ErrUnknownBackend
                   | Some _ => e = Sentinel ErrNoCapacity ∧ available s pool pinned = false
                   end
  | None => e = Sentinel ErrNoCapacity ∧ ∀ b, b ∈ order pool → available s pool b = false
  end.
Proof.
  unfold Ordered.Reserve. destruct (ar_Backend request) as [pinned|].
  - destruct (pc_Backends pool !! pinned) as [cfg|] eqn:Hp; [|by intros [= <- <-]].
    destruct (backendAvailable cfg _ _) eqn:Hav; cbn; [done|]. intros [= <- <-]. split_and!; try done.
    rewrite <- available_ensure. unfold available. by rewrite (map_read_Some _ _ _ Hp).
  - case_match eqn:Hlen.
    { intros [= <- <-]. split_and!; try done. intros b Hb.
      apply Nat.eqb_eq, nil_length_inv in Hlen. rewrite Hlen in Hb. by apply elem_of_nil in Hb. }
    apply Nat.eqb_neq in Hlen. intros Hscan.
    pose proof (scan_spec {| cursors := cursors s; active := ensure_pool (active s) (pc_Name pool) |}
      pool (order pool) ((cursors s).[pc_Name pool] mod Z.of_nat (length (order pool)))
      (seqZ 0 (Z.of_nat (length (order pool))))) as Hspec.
    unfold tset, set in Hscan. cbn in Hscan, Hspec. rewrite Hscan in Hspec.
    destruct Hspec as (-> & -> & Hnone). cbn. split_and!; try done. intros b Hb.
    destruct (ring_offset (order pool) ((cursors s).[pc_Name pool] mod Z.of_nat (length (order pool))) b Hb)
      as (o & Ho & Hat).
    rewrite <- available_ensure, <- Hat. eapply (proj1 (Forall_forall _ _) Hnone). done.
Qed.

Lemma ordered_release_ledger s p b :
  active (Ordered.Release s p b) =
    if 0 <? (active s).[p].[b] then add_active (active s) p b (-1) else active s.
Proof.
  unfold Ordered.Release. destruct (active s !! p) eqn:Hp; [by case_match|].
  rewrite (map_read_None _ _ Hp). done.
Qed.
End OrderedLemmas.

(** ** The candidate orders *)

Section OrderLemmas.
Context `{GoRange}.

Lemma orderedBackends_perm pool : orderedBackends pool ≡ₚ (map_to_list (pc_Backends pool)).*1.
Proof.
  unfold orderedBackends. rewrite sort_stable_perm, <- list_fmap_compose, (range_perm (pc_Backends pool)). done.
Qed.

Lemma elem_of_orderedBackends pool b : b ∈ orderedBackends pool ↔ is_Some (pc_Backends pool !! b).
Proof.
  rewrite (orderedBackends_perm pool), list_elem_of_fmap. split.
  - intros ([k cfg] & -> & Hk%elem_of_map_to_list). by exists cfg.
  - intros [cfg Hb]. exists (b, cfg). by rewrite elem_of_map_to_list.
Qed.

Lemma backendWeight_pos cfg : 0 < backendWeight cfg.
Proof. unfold backendWeight. case_match; reflect_bools; lia. Qed.

Lemma elem_of_weightedBackends pool b : b ∈ weightedBackends pool ↔ is_Some (pc_Backends pool !! b).
Proof.
  unfold weightedBackends. rewrite list_elem_of_bind. split.
  - intros (b' & Hb & Hb'). apply list_elem_of_In, repeat_spec in Hb as ->. by apply elem_of_orderedBackends.
  - intros Hb. exists b. split; [|by apply elem_of_orderedBackends].
    pose proof (backendWeight_pos (pc_Backends pool).[b]).
    destruct (Z.to_nat (backendWeight (pc_Backends pool).[b])) eqn:Hk; [lia|]. left.
Qed.
End OrderLemmas.

#[export] Instance round_robin_ledger `{GoRange} : SchedulerLedger RoundRobin.
Proof.
  refine {| ledger := fun s : RoundRobin => active (rr_state s) |}.
  - done.
  - intros s pool request now b s'. cbn. destruct (Ordered.Reserve _ _ _ _) as [r st] eqn:Hr. intros [= -> <-].
    apply ordered_reserve_granted in Hr as (cfg & Hb & Hp & Hav & Hl).
    + exists cfg. unfold available in Hav. rewrite (map_read_Some _ _ _ Hb) in Hav. by split_and!.
    + intros pool' b'. apply elem_of_orderedBackends.
  - intros s pool request now e s'. cbn. destruct (Ordered.Reserve _ _ _ _) as [r st] eqn:Hr. intros [= -> <-].
    by apply ordered_reserve_refused in Hr as (_ & Hl & _).
  - intros. apply ordered_release_ledger.
Defined.

#[export] Instance weighted_round_robin_ledger `{GoRange} : SchedulerLedger WeightedRoundRobin.
Proof.
  refine {| ledger := fun s : WeightedRoundRobin => active (wrr_state s) |}.
  - done.
  - intros s pool request now b s'. cbn. destruct (Ordered.Reserve _ _ _ _) as [r st] eqn:Hr. intros [= -> <-].
    apply ordered_reserve_granted in Hr as (cfg & Hb & Hp & Hav & Hl).
    + exists cfg. unfold available in Hav. rewrite (map_read_Some _ _ _ Hb) in Hav. by split_and!.
    + intros pool' b'. apply elem_of_weightedBackends.
  - intros s pool request now e s'. cbn. destruct (Ordered.Reserve _ _ _ _) as [r st] eqn:Hr. intros [= -> <-].
    by apply ordered_reserve_refused in Hr as (_ & Hl & _).
  - intros. apply ordered_release_ledger.
Defined.

(** ** Selection *)

(** The number of unpinned reservations granted in a row, and by which backends. *)
Fixpoint reserve_run (order : PoolConfig → list BackendName) (s : orderedScheduler) (pool : PoolConfig)
    (request : AllocationRequest) (k : nat) : list BackendName * orderedScheduler :=
  match k with
  | O => ([], s)
  | S k =>
      match Ordered.Reserve order s pool request with
      | (Fail _, s) => ([], s)
      | (Ok b, s) => let '(picks, s) := reserve_run order s pool request k in (b :: picks, s)
      end
  end.

(** Room for [k] more reservations on a backend. *)
Definition roomy (s : orderedScheduler) (pool : PoolConfig) (k : Z) (b : BackendName) : Prop :=
  let cfg := (pc_Backends pool).[b] in
  bc_Enabled cfg = true ∧ bc_Healthy cfg = true ∧
  Ordered.Active s (pc_Name pool) b + k ≤ bc_MaxRunners cfg ∧
  (0 < bc_CrossPoolMaxRunners cfg → activeBackendLocked s b + k ≤ bc_CrossPoolMaxRunners cfg).

Lemma roomy_available s pool k b : 0 < k → roomy s pool k b → available s pool b = true.
Proof. intros Hk (He & Hh & Hm & Hx). apply backendAvailable_spec. unfold Ordered.Active in *. naive_solver lia. Qed.

Lemma seqZ_head n : 0 < n → ∃ rest, seqZ 0 n = 0 :: rest.
Proof. intros. rewrite seqZ_cons by lia. by eexists. Qed.

(** With the backend under the cursor available, that backend is taken and
    the cursor moves on. *)
Lemma reserve_at_cursor order s pool request start :
  let n := Z.of_nat (length (order pool)) in
  ar_Backend request = None → 0 < n → (cursors s).[pc_Name pool] mod n = start →
  available s pool (ring_at (order pool) start) = true →
  Ordered.Reserve order s pool request =
    (Ok (ring_at (order pool) start),
     {| active := add_active (ensure_pool (active s) (pc_Name pool)) (pc_Name pool) (ring_at (order pool) start) 1;
        cursors := <[pc_Name pool := (start + 1) mod n]> (cursors s) |}).
Proof.
  cbn zeta. intros Hreq Hn Hstart Hav. unfold Ordered.Reserve. rewrite Hreq.
  destruct (Nat.eqb_spec (length (order pool)) 0); [lia|].
  unfold tset, set. cbn. rewrite Hstart.
  destruct (seqZ_head (Z.of_nat (length (order pool))) Hn) as [rest ->]. cbn [scan].
  assert (Hb : 0 ≤ start < Z.of_nat (length (order pool))) by (subst start; by apply Z.mod_pos_bound).
  rewrite Z.add_0_r, (Z.mod_small start) by done. rewrite available_ensure, Hav. done.
Qed.

Lemma roomy_after_reserve s pool k b b' c :
  roomy s pool (k + 1) b →
  roomy {| active := add_active (ensure_pool (active s) (pc_Name pool)) (pc_Name pool) b' 1; cursors := c |} pool k b.
Proof.
  intros (He & Hh & Hm & Hx). unfold roomy, Ordered.Active, activeBackendLocked in *. cbn.
  rewrite add_active_read, active_total_add, ensure_pool_read, active_total_ensure.
  split_and!; [done|done|case_decide; lia|]. intros Hc. specialize (Hx Hc). case_decide; lia.
Qed.

Lemma reserve_run_roomy order pool request k : ∀ s start,
  let n := Z.of_nat (length (order pool)) in
  ar_Backend request = None → 0 < n → (cursors s).[pc_Name pool] mod n = start →
  (∀ b, b ∈ order pool → roomy s pool (Z.of_nat k) b) →
  (reserve_run order s pool request k).1 =
    (fun o => ring_at (order pool) ((start + o) mod n)) <$> seqZ 0 (Z.of_nat k) ∧
  (cursors (reserve_run order s pool request k).2).[pc_Name pool] mod n = (start + Z.of_nat k) mod n.
Proof.
  induction k as [|k IH]; cbn zeta; intros s start Hreq Hn Hstart Hroom; cbn [reserve_run].
  { split; [done|]. cbn. rewrite Hstart, Z.add_0_r. subst start. by rewrite Z.mod_mod by lia. }
  assert (Hb : 0 ≤ start < Z.of_nat (length (order pool))) by (subst start; by apply Z.mod_pos_bound).
  assert (Hin : ring_at (order pool) start ∈ order pool) by (by apply ring_at_elem).
  assert (Hav : available s pool (ring_at (order pool) start) = true)
    by (apply (roomy_available _ _ (Z.of_nat (S k))); [lia|by apply Hroom]).
  rewrite (reserve_at_cursor order s pool request start) by done.
  match goal with |- context [reserve_run order ?s1 pool request k] => set (s' := s1) end.
  destruct (IH s' ((start + 1) mod Z.of_nat (length (order pool))) Hreq Hn) as [Hpicks Hcur].
  - unfold s'. cbn. rewrite map_read_insert_eq. by rewrite Z.mod_mod by lia.
  - intros b Hbin. apply roomy_after_reserve. replace (Z.of_nat k + 1) with (Z.of_nat (S k)) by lia. by apply Hroom.
  - destruct (reserve_run order s' pool request k) as [picks s'']. cbn in Hpicks, Hcur |- *. split.
    + rewrite seqZ_cons by lia. cbn [fmap list_fmap]. f_equal.
      * by rewrite Z.add_0_r, Z.mod_small.
      * rewrite Hpicks, <- (fmap_add_seqZ 1 0), <- list_fmap_compose.
        replace (Z.pred (Z.of_nat (S k))) with (Z.of_nat k) by lia.
        apply list_fmap_ext. intros i o _. cbn. rewrite Z.add_mod_idemp_l by lia. f_equal. f_equal. lia.
    + rewrite Hcur, Z.add_mod_idemp_l by lia. f_equal. lia.
Qed.

Lemma ring_rotation backends start :
  0 ≤ start < Z.of_nat (length backends) →
  (fun o => ring_at backends ((start + o) mod Z.of_nat (length backends))) <$> seqZ 0 (Z.of_nat (length backends)) =
    drop (Z.to_nat start) backends ++ take (Z.to_nat start) backends.
Proof.
  intros Hs. set (n := length backends). apply list_eq. intros i. rewrite list_lookup_fmap.
  destruct (decide (i < n)%nat) as [Hi|Hi].
  - rewrite lookup_seqZ_lt by lia. cbn. rewrite Z.add_0_l. unfold ring_at.
    destruct (decide (i < n - Z.to_nat start)%nat) as [Hj|Hj].
    + rewrite lookup_app_l by (rewrite length_drop; fold n; lia). rewrite lookup_drop.
      rewrite Z.mod_small by lia. replace (Z.to_nat (start + Z.of_nat i)) with (Z.to_nat start + i)%nat by lia.
      destruct (lookup_lt_is_Some_2 backends (Z.to_nat start + i)%nat) as [x Hx]; [fold n; lia|].
      by rewrite nth_lookup, Hx.
    + rewrite lookup_app_r by (rewrite length_drop; fold n; lia). rewrite length_drop. fold n.
      rewrite lookup_take_lt by lia.
      assert (Hm : (start + Z.of_nat i) mod Z.of_nat n = start + Z.of_nat i - Z.of_nat n).
      { symmetry. apply (Z.mod_unique_pos _ _ 1); lia. }
      rewrite Hm. replace (Z.to_nat (start + Z.of_nat i - Z.of_nat n)) with (i - (n - Z.to_nat start))%nat by lia.
      destruct (lookup_lt_is_Some_2 backends (i - (n - Z.to_nat start))%nat) as [x Hx]; [fold n; lia|].
      by rewrite nth_lookup, Hx.
  - rewrite lookup_seqZ_ge by lia. symmetry. apply lookup_ge_None.
    rewrite length_app, length_drop, length_take. fold n. lia.
Qed.

(** How often a name occurs in a list. *)
Definition occurrences (b : string) (l : list string) : Z := count_if (String.eqb b) l.

#[export] Instance occurrences_perm b : Proper ((≡ₚ) ==> (=)) (occurrences b).
Proof. intros l1 l2 Hp. unfold occurrences, count_if. by rewrite Hp. Qed.

Lemma occurrences_app b l1 l2 : occurrences b (l1 ++ l2) = occurrences b l1 + occurrences b l2.
Proof. apply sum_of_app. Qed.

Lemma occurrences_repeat b b' k :
  occurrences b (repeat b' k) = if String.eqb b b' then Z.of_nat k else 0.
Proof.
  induction k as [|k IH]; [by case_match|]. cbn [repeat].
  change (b' :: repeat b' k) with ([b'] ++ repeat b' k). rewrite occurrences_app, IH.
  unfold occurrences, count_if. cbn. case_match; lia.
Qed.

Lemma occurrences_bind b (w : string → nat) l :
  NoDup l → occurrences b (l ≫= fun b' => repeat b' (w b')) = if decide (b ∈ l) then Z.of_nat (w b) else 0.
Proof.
  induction 1 as [|b' l Hb' Hl IH]; [done|]. cbn [mbind list_bind]. rewrite occurrences_app, occurrences_repeat.
  change (mbind (fun b' => repeat b' (w b')) l) with (l ≫= fun b' => repeat b' (w b')) in IH.
  unfold mbind in IH |- *. rewrite IH. destruct (String.eqb_spec b b') as [->|Hne].
  - rewrite (decide_False (P := b' ∈ l)) by done. rewrite decide_True by left. lia.
  - destruct (decide (b ∈ l)); [rewrite decide_True by (by right)|rewrite decide_False by (by rewrite elem_of_cons; naive_solver)]; lia.
Qed.

Lemma orderedBackends_NoDup `{GoRange} pool : NoDup (orderedBackends pool).
Proof. rewrite (orderedBackends_perm pool). apply NoDup_fst_map_to_list. Qed.

Lemma weighted_occurrences `{GoRange} pool b :
  occurrences b (weightedBackends pool) =
    if pc_Backends pool !! b is Some cfg then backendWeight cfg else 0.
Proof.
  unfold weightedBackends.
  rewrite (occurrences_bind b (fun b' => Z.to_nat (backendWeight (pc_Backends pool).[b']))) by apply orderedBackends_NoDup.
  destruct (pc_Backends pool !! b) as [cfg|] eqn:Hb.
  - rewrite decide_True by (by apply elem_of_orderedBackends). rewrite (map_read_Some _ _ _ Hb).
    pose proof (backendWeight_pos cfg). lia.
  - rewrite decide_False; [done|]. rewrite elem_of_orderedBackends, Hb. by intros [].
Qed.

Lemma ordered_occurrences `{GoRange} pool b :
  occurrences b (orderedBackends pool) = if pc_Backends pool !! b is Some _ then 1 else 0.
Proof.
  pose proof (occurrences_bind b (fun _ => 1%nat) (orderedBackends pool) (orderedBackends_NoDup pool)) as Ho.
  replace (orderedBackends pool ≫= fun b' => repeat b' 1%nat) with (orderedBackends pool) in Ho.
  - rewrite Ho. destruct (pc_Backends pool !! b) eqn:Hb.
    + by rewrite decide_True by (by apply elem_of_orderedBackends).
    + rewrite decide_False; [done|]. rewrite elem_of_orderedBackends, Hb. by intros [].
  - generalize (orderedBackends pool). intros l. clear. induction l as [|x l IH]; [done|].
    cbn [mbind list_bind repeat app]. f_equal. exact IH.
Qed.

Lemma seqZ_split n before (o : Z) after :
  seqZ 0 n = before ++ o :: after →
  before = seqZ 0 (Z.of_nat (length before)) ∧ o = Z.of_nat (length before) ∧ o < n.
Proof.
  intros Hs. assert (Ho : seqZ 0 n !! length before = Some o) by (rewrite Hs; by apply list_lookup_middle).
  apply lookup_seqZ in Ho as [-> Hlt]. split; [|lia].
  replace n with (Z.of_nat (length before) + (n - Z.of_nat (length before))) in Hs by lia.
  rewrite seqZ_app in Hs by lia. apply app_inj_1 in Hs as [Hb _]; [done|]. rewrite length_seqZ. lia.
Qed.

(** An ordered scheduler answers as its candidate ring says. A pinned request is granted
    exactly when the pool configures the backend and it is available; an unpinned one takes the
    first available candidate at or after the pool's cursor and moves the cursor past it, and is
    refused with ErrNoCapacity only when no candidate is available; a refusal changes neither
    counts nor cursors. *)
Theorem ordered_reserve_decides order s pool request :
  let n := Z.of_nat (length (order pool)) in
  let start := (cursors s).[pc_Name pool] mod n in
  let at_offset o := ring_at (order pool) ((start + o) mod n) in
  let counts p b := (active s).[p].[b] in
  match Ordered.Reserve order s pool request with
  | (Ok b, s') =>
      (∀ p b', Ordered.Active s' p b' = counts p b' + (if decide (pc_Name pool = p ∧ b = b') then 1 else 0)) ∧
      match ar_Backend request with
      | Some pinned => b = pinned ∧ is_Some (pc_Backends pool !! b) ∧ available s pool b = true ∧
          cursors s' = cursors s
      | None => ∃ o, 0 ≤ o < n ∧ b = at_offset o ∧ available s pool b = true ∧
          (∀ o', 0 ≤ o' < o → available s pool (at_offset o') = false) ∧
          cursors s' = <[pc_Name pool := (start + o + 1) mod n]> (cursors s)
      end
  | (Fail e, s') =>
      (∀ p b', Ordered.Active s' p b' = counts p b') ∧ cursors s' = cursors s ∧
      match ar_Backend request with
      | Some pinned => match pc_Backends pool !! pinned with
                       | None => e = Sentinel ErrUnknownBackend
                       | Some _ => e = Sentinel ErrNoCapacity ∧ available s pool pinned = false
                       end
      | None => e = Sentinel ErrNoCapacity ∧ ∀ b, b ∈ order pool → available s pool b = false
      end
  end.
Proof.
  cbn zeta. destruct (Ordered.Reserve order s pool request) as [[b|e] s'] eqn:Hr.
  - revert Hr. unfold Ordered.Reserve, Ordered.Active. destruct (ar_Backend request) as [pinned|].
    + destruct (pc_Backends pool !! pinned) as [cfg|] eqn:Hp; [|done].
      destruct (backendAvailable cfg _ _) eqn:Hav; cbn; [|done]. intros [= <- <-]. cbn. split.
      * intros p b'. by rewrite add_active_read, ensure_pool_read.
      * split_and!; [done|by eexists| |done]. rewrite <- available_ensure. unfold available.
        by rewrite (map_read_Some _ _ _ Hp).
    + case_match; [done|]. unfold tset, set. cbn. intros Hscan.
      match type of Hscan with scan ?s1 _ ?ring ?st ?os = _ => pose proof (scan_spec s1 pool ring st os) as Hspec end.
      rewrite Hscan in Hspec. destruct Hspec as (before & o & after & Hos & Hb & Hbefore & Hav & ->). cbn. split.
      * intros p b'. by rewrite add_active_read, ensure_pool_read.
      * assert (Ho : before = seqZ 0 (Z.of_nat (length before)) ∧ o = Z.of_nat (length before) ∧
                     o < Z.of_nat (length (order pool))) by (by eapply seqZ_split).
        destruct Ho as (Hbef & Ho & Hlt). exists o. rewrite available_ensure in Hav.
        split_and!; [lia|done|done|done| |done].
        intros o' Ho'. rewrite <- available_ensure. apply (proj1 (Forall_forall _ _) Hbefore).
        rewrite Hbef. apply elem_of_seqZ. lia.
  - apply ordered_reserve_refused in Hr as (Hcur & Hact & Hcase). split_and!; try done.
    intros p b'. unfold Ordered.Active. by rewrite Hact, ensure_pool_read.
Qed.

Lemma reserve_run_cycle order s pool request :
  ar_Backend request = None →
  (∀ b, b ∈ order pool → roomy s pool (Z.of_nat (length (order pool))) b) →
  let run := reserve_run order s pool request (length (order pool)) in
  (∀ b, occurrences b run.1 = occurrences b (order pool)) ∧
  (cursors run.2).[pc_Name pool] mod Z.of_nat (length (order pool)) =
    (cursors s).[pc_Name pool] mod Z.of_nat (length (order pool)).
Proof.
  cbn zeta. intros Hreq Hroom. set (n := Z.of_nat (length (order pool))) in *.
  destruct (decide (length (order pool) = 0%nat)) as [Hz|Hnz].
  { rewrite Hz. cbn. split; [|done]. apply nil_length_inv in Hz. by rewrite Hz. }
  set (start := (cursors s).[pc_Name pool] mod n).
  assert (Hb : 0 ≤ start < n) by (apply Z.mod_pos_bound; lia).
  destruct (reserve_run_roomy order pool request (length (order pool)) s start) as [Hpicks Hcur]; [done|lia|done|done|].
  split.
  - intros b. rewrite Hpicks, ring_rotation by done. rewrite occurrences_app.
    rewrite <- (take_drop (Z.to_nat start) (order pool)) at 3. rewrite occurrences_app. lia.
  - fold n in Hcur. rewrite Hcur. replace (start + n) with (start + 1 * n) by lia. rewrite Z.mod_add by lia.
    by apply Z.mod_small.
Qed.

Lemma roomy_weaken s pool k k' b : k' ≤ k → roomy s pool k b → roomy s pool k' b.
Proof. intros Hk (? & ? & ? & Hx). split_and!; try done; [lia|]. intros Hc. specialize (Hx Hc). lia. Qed.

Lemma ordered_length_le_weighted `{GoRange} pool :
  (length (orderedBackends pool) ≤ length (weightedBackends pool))%nat.
Proof.
  unfold weightedBackends. induction (orderedBackends pool) as [|b l IH]; [done|]. csimpl.
  rewrite length_app, repeat_length. pose proof (backendWeight_pos (pc_Backends pool).[b]). lia.
Qed.

(** Weighted fairness: while every backend of the pool keeps room, any [n] consecutive
    unpinned reservations, [n] the sum of the weights, select every backend exactly as often as
    its weight and bring the cursor back to where it started, wherever that was; plain round
    robin selects every backend once in as many reservations as there are backends. *)
Theorem weighted_round_robin_is_fair `{GoRange} s pool request :
  ar_Backend request = None →
  (∀ b, is_Some (pc_Backends pool !! b) → roomy s pool (Z.of_nat (length (weightedBackends pool))) b) →
  let weighted := reserve_run weightedBackends s pool request (length (weightedBackends pool)) in
  let plain := reserve_run orderedBackends s pool request (length (orderedBackends pool)) in
  (∀ b, occurrences b weighted.1 = if pc_Backends pool !! b is Some cfg then backendWeight cfg else 0) ∧
  (∀ b, occurrences b plain.1 = if pc_Backends pool !! b is Some _ then 1 else 0) ∧
  (cursors weighted.2).[pc_Name pool] mod Z.of_nat (length (weightedBackends pool)) =
    (cursors s).[pc_Name pool] mod Z.of_nat (length (weightedBackends pool)).
Proof.
  intros Hreq Hroom. cbn zeta.
  destruct (reserve_run_cycle weightedBackends s pool request Hreq) as [Hw Hcur].
  { intros b Hb. by apply Hroom, elem_of_weightedBackends. }
  destruct (reserve_run_cycle orderedBackends s pool request Hreq) as [Hp _].
  { intros b Hb. eapply roomy_weaken; [|by apply Hroom, elem_of_orderedBackends].
    pose proof (ordered_length_le_weighted pool). lia. }
  split_and!; [|..|done].
  - intros b. by rewrite Hw, weighted_occurrences.
  - intros b. by rewrite Hp, ordered_occurrences.
Qed.

Lemma index_of_bounds name l i : from_option (fun j => i ≤ j < i + Z.of_nat (length l)) True (index_of name l i).
Proof.
  revert i. induction l as [|x l IH]; intros i; cbn; [done|]. case_match; cbn; [lia|].
  specialize (IH (i + 1)). destruct (index_of name l (i + 1)); cbn in *; [lia|done].
Qed.

Lemma index_of_inj a b l i j : index_of a l i = Some j → index_of b l i = Some j → a = b.
Proof.
  revert i. induction l as [|x l IH]; intros i; cbn; [done|].
  pose proof (index_of_bounds a l (i + 1)) as Ha. pose proof (index_of_bounds b l (i + 1)) as Hb.
  destruct (String.eqb_spec x a), (String.eqb_spec x b); subst; [done|..|apply IH].
  - intros [= <-] Hj. rewrite Hj in Hb. cbn in Hb. lia.
  - intros Hj [= <-]. rewrite Hj in Ha. cbn in Ha. lia.
Qed.

Lemma index_of_elem a l i : a ∈ l → is_Some (index_of a l i).
Proof.
  revert i. induction l as [|x l IH]; intros i; [by intros ?%elem_of_nil|]. cbn.
  destruct (String.eqb_spec x a); [by eexists|]. intros [->|Hl]%elem_of_cons; [done|by apply IH].
Qed.

Lemma ranked_less_asym x y : ranked_less x y = true → ranked_less y x = false.
Proof. unfold ranked_less. repeat case_match; reflect_bools; lia. Qed.

Lemma ranked_less_neg_trans x y z :
  ranked_less y x = false → ranked_less z y = false → ranked_less z x = false.
Proof. unfold ranked_less. repeat case_match; reflect_bools; lia. Qed.

Lemma ranked_tie x y : ranked_less x y = false → ranked_less y x = false → rk_cost x = rk_cost y ∧ rk_order x = rk_order y.
Proof. unfold ranked_less. repeat case_match; reflect_bools; lia. Qed.

Lemma ranked_less_cost x y : ranked_less y x = false → rk_cost x ≤ rk_cost y.
Proof. unfold ranked_less. repeat case_match; reflect_bools; lia. Qed.

(** Cheaper backends come first in the candidate order; and for the backends the broker
    ships, the order is the same whatever order Go iterates the configuration map in. *)
Theorem candidate_order_is_stable (r1 r2 : GoRange) pool :
  StronglySorted (fun a b => CostClass a (pc_Backends pool).[a] ≤ CostClass b (pc_Backends pool).[b])
    (orderedBackends (H := r1) pool) ∧
  ((∀ b, is_Some (pc_Backends pool !! b) → b ∈ preferredBackendOrder) →
   orderedBackends (H := r1) pool = orderedBackends (H := r2) pool).
Proof.
  split.
  - unfold orderedBackends. set (l := _ <$> range (pc_Backends pool)).
    assert (Hl : Forall (fun x => x = rank (rk_name x) (pc_Backends pool).[rk_name x]) (sort_stable ranked_less l)).
    { rewrite (sort_stable_perm ranked_less l). apply Forall_forall. intros x. unfold l. rewrite list_elem_of_fmap.
      intros ([k cfg] & -> & Hk%elem_of_range). cbn. by rewrite (map_read_Some _ _ _ Hk). }
    pose proof (sort_stable_sorted ranked_less ranked_less_asym ranked_less_neg_trans l) as Hs.
    induction Hs as [|x l' Hs IH Hx]; [constructor|]. apply Forall_cons in Hl as [Hx' Hl]. cbn. constructor; [by apply IH|].
    apply Forall_fmap. apply Forall_forall. intros y Hy.
    pose proof (proj1 (Forall_forall _ _) Hx y Hy) as Hxy. pose proof (proj1 (Forall_forall _ _) Hl y Hy) as Hy'.
    apply ranked_less_cost in Hxy. apply (f_equal rk_cost) in Hx', Hy'. unfold rank in Hx', Hy'.
    rewrite Hx', Hy' in Hxy. exact Hxy.
  - intros Hknown. unfold orderedBackends. set (l1 := _ <$> range _). set (l2 := _ <$> @range r2 _ _ _ _ _).
    rewrite (sort_stable_unique ranked_less ranked_less_asym ranked_less_neg_trans l1 l2); [done|..].
    + intros x y Hx Hy Hxy Hyx. apply list_elem_of_fmap in Hx as ([kx cx] & -> & Hx), Hy as ([ky cy] & -> & Hy).
      apply elem_of_range in Hx, Hy. destruct (ranked_tie _ _ Hxy Hyx) as [_ Ho]. unfold rank in Ho. cbn [rk_order fst snd] in Ho.
      destruct (index_of_elem kx preferredBackendOrder 0) as [i Hi]; [by apply Hknown; eexists|].
      destruct (index_of_elem ky preferredBackendOrder 0) as [j Hj]; [by apply Hknown; eexists|].
      cbn [fst snd] in Hx, Hy. rewrite Hi, Hj in Ho. cbn [default from_option] in Ho. unfold id in Ho. subst j.
      pose proof (index_of_inj _ _ _ _ _ Hi Hj). subst ky. rewrite Hx in Hy. by simplify_eq.
    + unfold l1, l2. apply fmap_Permutation. by rewrite (@range_perm r1), (@range_perm r2).
Qed.

(** ** Witnesses *)

#[local] Existing Instance range_forward.

Definition example_backend (weight max_runners : Z) : BackendConfig :=
  { zero_BackendConfig with bc_Enabled := true; bc_Healthy := true; bc_Weight := weight;
      bc_MaxRunners := max_runners }.

Definition example_pool : PoolConfig :=
  { zero_PoolConfig with pc_Name := "lite";
      pc_Backends := {[ "lambda" := example_backend 2 10; "arc" := example_backend 1 10 ]} }.

Definition example_max (pool : PoolName) (backend : BackendName) : Z := 10.

Lemma schedulers_respect_capacity_witness :
  Scheduler.Active (Scheduler.Reserve NewRoundRobin example_pool zero_AllocationRequest 0).2 "lite" "arc" ≤ 10.
Proof.
  refine (proj2 (proj1 (schedulers_respect_capacity (fun pool => pool = example_pool) example_max (fun _ => None)
    NewRoundRobin _ _ _ _) "lite" "arc")).
  - intros pool b cfg -> Hb. split; [|done]. cbn in Hb.
    apply lookup_insert_Some in Hb as [[_ <-]|[_ Hb]]; [vm_compute; discriminate|].
    apply lookup_singleton_Some in Hb as [_ <-]. vm_compute. discriminate.
  - split; [|done]. intros p b. vm_compute. split; discriminate.
  - apply rtc_once, sched_reserve. reflexivity.
Defined.

Lemma weighted_round_robin_is_fair_witness :
  occurrences "lambda"
    (reserve_run weightedBackends Ordered.newOrderedScheduler example_pool zero_AllocationRequest 3).1 = 2.
Proof.
  refine (eq_trans (proj1 (weighted_round_robin_is_fair Ordered.newOrderedScheduler example_pool zero_AllocationRequest _ _) "lambda") _).
  - reflexivity.
  - intros b [cfg Hb]. cbn in Hb.
    apply lookup_insert_Some in Hb as [[<- <-]|[_ Hb]]; [vm_compute; repeat split; discriminate|].
    apply lookup_singleton_Some in Hb as [<- <-]. vm_compute. repeat split; discriminate.
  - reflexivity.
Defined.

(** Two backends outside the shipped list that tie on cost: the candidate order
    is the map's iteration order. *)
Example custom_backend_order_varies :
  let pool := { zero_PoolConfig with
    pc_Backends := {[ "x" := zero_BackendConfig; "y" := zero_BackendConfig ]} } in
  orderedBackends (H := range_forward) pool ≠ orderedBackends (H := range_backward) pool.
Proof. vm_compute. discriminate. Qed.
