(* ===== verification/FairShare.v ===== *)
(** The priority fair-share scheduler:
    src/internal/scheduler/priority_fair_share.go.

    Every operation takes [now], the time nowFunc returns to it.  Scores and
    soft-reserve sums are 64-bit integers, as their operands come from
    configuration. *)

From S2P Require Import Prelude Errors Model Budget Scheduler.

Definition defaultNormalPriorityClass : Z := 1.
Definition defaultHighPriorityClass : Z := 2.
Definition priorityShareScale : Z := 1000.
Definition priorityShareClassBoost : Z := 500.
Definition priorityShareClassMinWeight : Z := 1.
Definition starvationIdleGapFactor : Z := 2.

Module FairShare.

Record tenantReservation := {
  tr_tenant : string;
  tr_backend : BackendName;
  tr_reserveAt : Time;
}.

(** [starvationKey]: the pool and the canonical priority class. *)
Definition starvationKey : Type := PoolName * string.

Record starvationTrack := {
  st_start : Time;
  st_lastDenied : Time;
}.

Record priorityFairShareState := {
  cursors : gmap PoolName Z;
  active : Counts;
  tenantActive : gmap PoolName (gmap BackendName (gmap string Z));
  tenantLog : gmap PoolName (list tenantReservation);
  usageWindows : gmap PoolName Duration;
  starvation : gmap (PoolName * string) starvationTrack;
}.

Definition newPriorityFairShareState : priorityFairShareState :=
  {| cursors := ∅; active := ∅; tenantActive := ∅; tenantLog := ∅; usageWindows := ∅; starvation := ∅ |}.

Definition normalizeTenant (value : string) : string :=
  let value := TrimSpace value in
  if String.eqb value "" then "default" else ToLower value.

Definition normalizePriorityClassString (value : string) : string :=
  let value := TrimSpace (ToLower value) in
  if String.eqb value "" then PriorityClassNormal else value.

Definition starvationIdleGap (starvationAfter : Duration) : Duration :=
  wrap64 (starvationAfter * starvationIdleGapFactor).

Definition priorityFairShareScore (activeTotal tenantActive weight : Z) : Z :=
  let weight := if weight <? priorityShareClassMinWeight then priorityShareClassMinWeight else weight in
  let tenantPenalty := Z.quot (tenantActive * priorityShareScale) weight in
  wrap64 (activeTotal * priorityShareScale + tenantPenalty - (weight - 1) * priorityShareClassBoost).

Section Classes.
Context `{GoRange}.

Definition priorityClassWeight (fairShare : FairShareConfig) (requestPriorityClass : string) : Z :=
  let normalized := TrimSpace (ToLower requestPriorityClass) in
  let fallback :=
    if String.eqb normalized PriorityClassHigh then defaultHighPriorityClass
    else if String.eqb normalized PriorityClassNormal then defaultNormalPriorityClass
    else defaultNormalPriorityClass in
  if String.eqb normalized "" then defaultNormalPriorityClass
  else match PriorityClassWeight fairShare normalized with
       | Some weight => if 0 <? weight then weight else fallback
       | None => fallback
       end.

Definition canonicalPriorityClass (fairShare : FairShareConfig) (priorityClass : string) : string :=
  let normalized := normalizePriorityClassString priorityClass in
  let fallback :=
    if String.eqb normalized PriorityClassHigh || String.eqb normalized PriorityClassNormal
    then normalized else PriorityClassNormal in
  match PriorityClassWeight fairShare normalized with
  | Some weight => if 0 <? weight then normalized else fallback
  | None => fallback
  end.

(** The sum is a 64-bit [int] accumulated over the map: modulo 2^64 it does
    not depend on the order. *)
Definition SoftReserveHeld (fairShare : FairShareConfig) (requestPriorityClass : string) : Z :=
  if negb (fs_Enabled fairShare) || (size (fs_SoftReserves fairShare) =? 0)%nat then 0
  else
    let requestWeight := priorityClassWeight fairShare requestPriorityClass in
    wrap64 (sum_map (fun class slots =>
      if slots <=? 0 then 0
      else if requestWeight <? priorityClassWeight fairShare class then slots else 0)
      (fs_SoftReserves fairShare)).

Definition EffectiveMaxRunners (maxRunners : Z) (fairShare : FairShareConfig)
    (requestPriorityClass : string) : Z :=
  if maxRunners <=? 0 then 0
  else
    let held := SoftReserveHeld fairShare requestPriorityClass in
    if held <=? 0 then maxRunners
    else
      let effective := maxRunners - held in
      if effective <? 0 then 0 else effective.

Definition crossPoolFull (cfg : BackendConfig) (activeBackend : Z) : bool :=
  (0 <? bc_CrossPoolMaxRunners cfg) && (bc_CrossPoolMaxRunners cfg <=? activeBackend).

Definition backendAvailableForPriorityWithStarvation (cfg : BackendConfig) (active activeBackend : Z)
    (pool : PoolConfig) (priorityClass : string) (starving : bool) : bool :=
  if negb (bc_Enabled cfg) || negb (bc_Healthy cfg) then false
  else if crossPoolFull cfg activeBackend then false
  else if starving then active <? bc_MaxRunners cfg
  else active <? EffectiveMaxRunners (bc_MaxRunners cfg) (pc_FairShare pool) priorityClass.

Definition backendDeniedBySoftReserve (cfg : BackendConfig) (active activeBackend : Z)
    (pool : PoolConfig) (priorityClass : string) : bool :=
  if negb (bc_Enabled cfg) || negb (bc_Healthy cfg) || (bc_MaxRunners cfg <=? 0) || (bc_MaxRunners cfg <=? active)
  then false
  else if crossPoolFull cfg activeBackend then false
  else EffectiveMaxRunners (bc_MaxRunners cfg) (pc_FairShare pool) priorityClass <=? active.

Definition fairShareCandidateBackends (pool : PoolConfig) : list BackendName :=
  if String.eqb (normalizeSchedulerName (pc_Scheduler pool)) NameWeightedRoundRobin
  then weightedBackends pool else orderedBackends pool.

Definition starvationKeyFor (pool : PoolConfig) (priorityClass : string) : PoolName * string :=
  (pc_Name pool, canonicalPriorityClass (pc_FairShare pool) priorityClass).
End Classes.

Section Operations.
Context `{GoRange}.
Implicit Types (s : priorityFairShareState) (pool : PoolConfig).

Definition activeBackendLocked s (backend : BackendName) : Z := active_total (active s) backend.

(** Usage window log. *)

Definition noteUsageWindow s pool : priorityFairShareState :=
  let window := fs_UsageWindow (pc_FairShare pool) in
  if window <=? 0 then
    { s with usageWindows := delete (pc_Name pool) (usageWindows s);
             tenantLog := delete (pc_Name pool) (tenantLog s) }
  else { s with usageWindows := <[pc_Name pool := window]> (usageWindows s) }.

Definition recordReservation s pool (backend : BackendName) (tenant : string) (now : Time) : priorityFairShareState :=
  let window := fs_UsageWindow (pc_FairShare pool) in
  if window <=? 0 then s
  else
    { s with usageWindows := <[pc_Name pool := window]> (usageWindows s);
             tenantLog := <[pc_Name pool := (tenantLog s).[pc_Name pool] ++
               [{| tr_tenant := tenant; tr_backend := backend; tr_reserveAt := now |}]]> (tenantLog s) }.

Definition in_window (cutoff : Time) (entry : tenantReservation) : bool :=
  negb (Before (tr_reserveAt entry) cutoff).

Definition pruneLog (log : gmap PoolName (list tenantReservation)) (pool : PoolName) (cutoff : Time) :
    gmap PoolName (list tenantReservation) :=
  let kept := filter (fun entry => in_window cutoff entry = true) (log.[pool]) in
  if (length kept =? 0)%nat then delete pool log else <[pool := kept]> log.

Definition prune_pool (now : Time) s (entry : PoolName * Duration) : priorityFairShareState :=
  let '(pool, window) := entry in
  if window <=? 0 then
    { s with tenantLog := delete pool (tenantLog s); usageWindows := delete pool (usageWindows s) }
  else { s with tenantLog := pruneLog (tenantLog s) pool (TimeAdd now (- window)) }.

Definition pruneAllTenantLogs s (now : Time) : priorityFairShareState :=
  foldl (prune_pool now) s (range (usageWindows s)).

Definition tenantUsage s pool (backend : BackendName) (tenant : string) (now : Time) : Z :=
  let window := fs_UsageWindow (pc_FairShare pool) in
  if window <=? 0 then (tenantActive s).[pc_Name pool].[backend].[tenant]
  else
    let cutoff := TimeAdd now (- window) in
    count_if (fun entry => String.eqb (tr_backend entry) backend && String.eqb (tr_tenant entry) tenant &&
                           in_window cutoff entry) (tenantLog s).[pc_Name pool].

(** Starvation streaks. *)

Definition dropPoolStarvation s (pool : PoolName) : priorityFairShareState :=
  { s with starvation := filter (fun kv => kv.1.1 ≠ pool) (starvation s) }.

Definition isStarving s pool (priorityClass : string) (now : Time) : bool * priorityFairShareState :=
  let after := fs_StarvationAfter (pc_FairShare pool) in
  if after <=? 0 then (false, s)
  else
    let key := starvationKeyFor pool priorityClass in
    match starvation s !! key with
    | None => (false, s)
    | Some track =>
        if starvationIdleGap after <? TimeSub now (st_lastDenied track)
        then (false, { s with starvation := delete key (starvation s) })
        else (after <=? TimeSub now (st_start track), s)
    end.

Definition recordStarvation s pool (priorityClass : string) (now : Time) : priorityFairShareState :=
  let after := fs_StarvationAfter (pc_FairShare pool) in
  if after <=? 0 then s
  else
    let key := starvationKeyFor pool priorityClass in
    let fresh := {| st_start := now; st_lastDenied := now |} in
    match starvation s !! key with
    | None => { s with starvation := <[key := fresh]> (starvation s) }
    | Some track =>
        if starvationIdleGap after <? TimeSub now (st_lastDenied track)
        then { s with starvation := <[key := fresh]> (starvation s) }
        else { s with starvation := <[key := { track with st_lastDenied := now }]> (starvation s) }
    end.

Definition clearStarvation s pool (priorityClass : string) : priorityFairShareState :=
  { s with starvation := delete (starvationKeyFor pool priorityClass) (starvation s) }.

Definition anyBackendDeniedBySoftReserve s pool (priorityClass : string) : bool :=
  existsb (fun nc => backendDeniedBySoftReserve nc.2 (active s).[pc_Name pool].[nc.1]
                       (activeBackendLocked s nc.1) pool priorityClass) (range (pc_Backends pool)).

(** The tenant's reservations in a pool, over all backends. *)
Definition tenantTotal s (pool : PoolName) (tenant : string) : Z :=
  sum_map (fun _ counts => counts.[tenant]) (tenantActive s).[pool].

Definition add_tenant s (pool : PoolName) (backend : BackendName) (tenant : string) : priorityFairShareState :=
  let backends := (tenantActive s).[pool] in
  let counts := backends.[backend] in
  { s with tenantActive :=
      <[pool := <[backend := <[tenant := counts.[tenant] + 1]> counts]> backends]> (tenantActive s) }.

Definition add_reservation s (pool : PoolName) (backend : BackendName) (tenant : string) : priorityFairShareState :=
  add_tenant { s with active := add_active (active s) pool backend 1 } pool backend tenant.

(** The loop that keeps the best candidate; [-1] is no candidate yet. *)
Record best := { bestIndex : Z; bestScore : Z; bestOffset : Z }.

Definition no_best : best := {| bestIndex := -1; bestScore := 0; bestOffset := 0 |}.

Definition ring_candidate (backends : list BackendName) (start offset : Z) : BackendName :=
  Ordered.ring_at backends ((start + offset) mod Z.of_nat (length backends)).

Definition candidate_available s pool (priorityClass : string) (starving : bool) (candidate : BackendName) : bool :=
  backendAvailableForPriorityWithStarvation (pc_Backends pool).[candidate]
    (active s).[pc_Name pool].[candidate] (activeBackendLocked s candidate) pool priorityClass starving.

Definition candidate_score s pool (priorityClass tenant : string) (now : Time) (candidate : BackendName) : Z :=
  priorityFairShareScore (active s).[pc_Name pool].[candidate] (tenantUsage s pool candidate tenant now)
    (priorityClassWeight (pc_FairShare pool) priorityClass).

Definition consider s pool (priorityClass tenant : string) (now : Time) (starving : bool)
    (backends : list BackendName) (start : Z) (acc : best) (offset : Z) : best :=
  let candidate := ring_candidate backends start offset in
  if negb (candidate_available s pool priorityClass starving candidate) then acc
  else
    let score := candidate_score s pool priorityClass tenant now candidate in
    if (bestIndex acc =? -1) || (score <? bestScore acc) ||
       ((score =? bestScore acc) && (offset <? bestOffset acc))
    then {| bestIndex := (start + offset) mod Z.of_nat (length backends);
            bestScore := score; bestOffset := offset |}
    else acc.

(** The bookkeeping at the head of Reserve, before the quota is read. *)
Definition prepare s pool (now : Time) : priorityFairShareState :=
  let s := { s with active := ensure_pool (active s) (pc_Name pool);
                    tenantActive := ensure_pool (tenantActive s) (pc_Name pool) } in
  let s := pruneAllTenantLogs (noteUsageWindow s pool) now in
  if fs_StarvationAfter (pc_FairShare pool) <=? 0 then dropPoolStarvation s (pc_Name pool) else s.

Definition reserve_pinned s pool (request : AllocationRequest) (now : Time) (tenant : string)
    (starving : bool) (pinned : BackendName) : result BackendName * priorityFairShareState :=
  let class := ar_PriorityClass request in
  match pc_Backends pool !! pinned with
  | None => (Fail (Sentinel ErrUnknownBackend), s)
  | Some cfg =>
      let active := (active s).[pc_Name pool].[pinned] in
      let activeBackend := activeBackendLocked s pinned in
      if negb (backendAvailableForPriorityWithStarvation cfg active activeBackend pool class starving) then
        let s := if backendDeniedBySoftReserve cfg active activeBackend pool class
                 then recordStarvation s pool class now else s in
        (Fail (Sentinel ErrNoCapacity), s)
      else
        let s := add_reservation s (pc_Name pool) pinned tenant in
        let s := recordReservation s pool pinned tenant now in
        (Ok pinned, clearStarvation s pool class)
  end.

Definition reserve_ranked s pool (request : AllocationRequest) (now : Time) (tenant : string)
    (starving : bool) : result BackendName * priorityFairShareState :=
  let class := ar_PriorityClass request in
  let backends := fairShareCandidateBackends pool in
  let n := Z.of_nat (length backends) in
  if n =? 0 then (Fail (Sentinel ErrNoCapacity), s)
  else
    let start := (cursors s).[pc_Name pool] mod n in
    let found := foldl (consider s pool class tenant now starving backends start) no_best (seqZ 0 n) in
    if bestIndex found <? 0 then
      let s := if anyBackendDeniedBySoftReserve s pool class then recordStarvation s pool class now else s in
      (Fail (Sentinel ErrNoCapacity), s)
    else
      let selected := Ordered.ring_at backends (bestIndex found) in
      let s := add_reservation s (pc_Name pool) selected tenant in
      let s := { s with cursors := <[pc_Name pool := (bestIndex found + 1) mod n]> (cursors s) } in
      let s := recordReservation s pool selected tenant now in
      (Ok selected, clearStarvation s pool class).

Definition Reserve s pool (request : AllocationRequest) (now : Time) :
    result BackendName * priorityFairShareState :=
  let s := prepare s pool now in
  let tenant := normalizeTenant (ar_Tenant request) in
  let exceeded :=
    match Quota (pc_FairShare pool) tenant with
    | Some quota => quota <=? tenantTotal s (pc_Name pool) tenant
    | None => false
    end in
  if exceeded then (Fail (Sentinel ErrQuotaExceeded), s)
  else
    let '(starving, s) := isStarving s pool (ar_PriorityClass request) now in
    match ar_Backend request with
    | Some pinned => reserve_pinned s pool request now tenant starving pinned
    | None => reserve_ranked s pool request now tenant starving
    end.

Definition release_tenant s (pool : PoolName) (backend : BackendName) (tenant : string) : priorityFairShareState :=
  match tenantActive s !! pool with
  | None => s
  | Some tenantBackends =>
      match tenantBackends !! backend with
      | None => s
      | Some tenantCounts =>
          if 0 <? tenantCounts.[tenant] then
            let left := tenantCounts.[tenant] - 1 in
            let tenantCounts := <[tenant := left]> tenantCounts in
            let tenantCounts := if left =? 0 then delete tenant tenantCounts else tenantCounts in
            { s with tenantActive := <[pool := <[backend := tenantCounts]> tenantBackends]> (tenantActive s) }
          else s
      end
  end.

Definition Release s (pool : PoolName) (backend : BackendName) (allocation : AllocationStatus) (now : Time) :
    priorityFairShareState :=
  let s :=
    match active s !! pool with
    | None => s
    | Some poolActive =>
        let s := if 0 <? poolActive.[backend]
                 then { s with active := add_active (active s) pool backend (-1) } else s in
        release_tenant s pool backend (normalizeTenant (as_Tenant allocation))
    end in
  pruneAllTenantLogs s now.

Definition Active s (pool : PoolName) (backend : BackendName) : Z := (active s).[pool].[backend].
End Operations.
End FairShare.

Record PriorityFairShare := { pfs_state : FairShare.priorityFairShareState }.

Definition NewPriorityFairShare : PriorityFairShare := {| pfs_state := FairShare.newPriorityFairShareState |}.

#[export] Instance priority_fair_share_scheduler `{GoRange} : Scheduler PriorityFairShare := {
  Reserve := fun s pool request now =>
    let '(r, st) := FairShare.Reserve (pfs_state s) pool request now in (r, {| pfs_state := st |});
  Release := fun s pool backend allocation now =>
    {| pfs_state := FairShare.Release (pfs_state s) pool backend allocation now |};
  Active := fun s => FairShare.Active (pfs_state s);
}.
