(* ===== verification/FairShareTheory.v ===== *)
(** Theorems of the priority fair-share scheduler: tenant quotas, soft
    reserves, starvation relief, scores and the usage-window log. *)

From S2P Require Import Prelude Errors Model Budget Scheduler SchedulerTheory FairShare.
Import FairShare.

Section Basics.
Context `{GoRange}.
Implicit Types (s : priorityFairShareState) (pool : PoolConfig).

(** ** Soft reserves *)

Lemma EffectiveMaxRunners_bounds m f c : 0 ≤ EffectiveMaxRunners m f c ≤ Z.max 0 m.
Proof. unfold EffectiveMaxRunners. repeat case_match; reflect_bools; lia. Qed.

Lemma priorityClassWeight_pos f c : 0 < priorityClassWeight f c.
Proof.
  unfold priorityClassWeight, defaultHighPriorityClass, defaultNormalPriorityClass.
  repeat case_match; reflect_bools; lia.
Qed.

Lemma available_is_available s pool class starving b :
  0 ≤ (active s).[pc_Name pool].[b] →
  candidate_available s pool class starving b = true →
  backendAvailable (pc_Backends pool).[b] (active s).[pc_Name pool].[b] (active_total (active s) b) = true.
Proof.
  intros Hn. unfold candidate_available, backendAvailableForPriorityWithStarvation, backendAvailable, crossPoolFull, activeBackendLocked.
  pose proof (EffectiveMaxRunners_bounds (bc_MaxRunners (pc_Backends pool).[b]) (pc_FairShare pool) class).
  repeat case_match; reflect_bools; try done; lia.
Qed.

(** ** What the bookkeeping leaves alone *)

Lemma prune_counts s now :
  active (pruneAllTenantLogs s now) = active s ∧ tenantActive (pruneAllTenantLogs s now) = tenantActive s ∧
  cursors (pruneAllTenantLogs s now) = cursors s ∧ starvation (pruneAllTenantLogs s now) = starvation s.
Proof.
  unfold pruneAllTenantLogs. generalize (range (usageWindows s)). intros l. revert s.
  induction l as [|[p w] l IH]; intros s; [done|]. cbn [foldl].
  destruct (IH (prune_pool now s (p, w))) as (-> & -> & -> & ->). unfold prune_pool. by case_match.
Qed.

Lemma prepare_counts s pool now :
  active (prepare s pool now) = ensure_pool (active s) (pc_Name pool) ∧
  tenantActive (prepare s pool now) = ensure_pool (tenantActive s) (pc_Name pool) ∧
  cursors (prepare s pool now) = cursors s.
Proof.
  unfold prepare. set (s' := noteUsageWindow _ _).
  assert (Hs : active s' = ensure_pool (active s) (pc_Name pool) ∧
               tenantActive s' = ensure_pool (tenantActive s) (pc_Name pool) ∧ cursors s' = cursors s)
    by (unfold s', noteUsageWindow; by case_match).
  destruct (prune_counts s' now) as (Ha & Ht & Hc & _).
  case_match; cbn; rewrite Ha, Ht, Hc; done.
Qed.

Lemma isStarving_counts s pool class now :
  active (isStarving s pool class now).2 = active s ∧
  tenantActive (isStarving s pool class now).2 = tenantActive s ∧
  cursors (isStarving s pool class now).2 = cursors s.
Proof. unfold isStarving. by repeat case_match. Qed.

Lemma recordStarvation_counts s pool class now :
  active (recordStarvation s pool class now) = active s ∧
  tenantActive (recordStarvation s pool class now) = tenantActive s ∧
  cursors (recordStarvation s pool class now) = cursors s.
Proof. unfold recordStarvation. by repeat case_match. Qed.

Lemma recordReservation_counts s pool b tenant now :
  active (recordReservation s pool b tenant now) = active s ∧
  tenantActive (recordReservation s pool b tenant now) = tenantActive s ∧
  starvation (recordReservation s pool b tenant now) = starvation s.
Proof. unfold recordReservation. by case_match. Qed.

(** ** The best candidate *)

Section Best.
Context s pool (class tenant : string) (now : Time) (starving : bool) (backends : list BackendName) (start : Z).
Let n := Z.of_nat (length backends).
Let cand := ring_candidate backends start.
Let avail o := candidate_available s pool class starving (cand o).
Let score o := candidate_score s pool class tenant now (cand o).

(** [acc] is the best of the offsets seen so far, the smallest offset among
    equal scores. *)
Definition best_of (seen : list Z) (acc : best) : Prop :=
  (acc = no_best ∧ Forall (λ o, avail o = false) seen) ∨
  (bestOffset acc ∈ seen ∧ avail (bestOffset acc) = true ∧ bestScore acc = score (bestOffset acc) ∧
   bestIndex acc = (start + bestOffset acc) mod n ∧
   Forall (λ o, avail o = true → bestScore acc < score o ∨ (bestScore acc = score o ∧ bestOffset acc ≤ o)) seen).

Lemma consider_best seen acc o :
  0 < n → best_of seen acc → Forall (λ o', o' < o) seen →
  best_of (seen ++ [o]) (consider s pool class tenant now starving backends start acc o).
Proof.
  intros Hn Hacc Hlt. unfold consider. fold cand. fold (cand o). fold (avail o).
  destruct (avail o) eqn:Hav; cbn.
  2: { destruct Hacc as [[-> Hall]|(Hin & Ha & Hs & Hi & Hall)].
       - left. split; [done|]. apply Forall_app. split; [done|]. by apply Forall_singleton.
       - right. split_and!; try done; [apply elem_of_app; by left|]. apply Forall_app. split; [done|].
         apply Forall_singleton. congruence. }
  fold (score o). destruct Hacc as [[-> Hall]|(Hin & Ha & Hs & Hi & Hall)].
  - cbn. right. cbn. split_and!; try done.
    + apply elem_of_app. right. by left.
    + apply Forall_app. split; [eapply Forall_impl; [exact Hall|]; cbn; congruence|].
      apply Forall_singleton. intros _. right. lia.
  - assert (Hlt' : bestOffset acc < o) by (by apply (proj1 (Forall_forall _ _) Hlt)).
    pose proof (Z.mod_pos_bound (start + bestOffset acc) n Hn).
    destruct (Z.eqb_spec (bestIndex acc) (-1)); [lia|]. cbn.
    destruct (Z.ltb_spec (score o) (bestScore acc)); cbn.
    + right. cbn. split_and!; try done; [apply elem_of_app; right; by left|].
      apply Forall_app. split; [|apply Forall_singleton; intros _; right; lia].
      eapply Forall_impl; [exact Hall|]. cbn. intros o' Ho' Hav'. specialize (Ho' Hav'). left. lia.
    + destruct (Z.ltb_spec o (bestOffset acc)); [lia|]. rewrite andb_false_r. right.
      split_and!; try done; [apply elem_of_app; by left|].
      apply Forall_app. split; [done|]. apply Forall_singleton. intros _. lia.
Qed.

Lemma fold_best k :
  0 < n → best_of (seqZ 0 (Z.of_nat k))
    (foldl (consider s pool class tenant now starving backends start) no_best (seqZ 0 (Z.of_nat k))).
Proof.
  intros Hn. induction k as [|k IH]; [left; by split|].
  rewrite seqZ_S, foldl_snoc. apply consider_best; [done|exact IH|].
  apply Forall_forall. intros o Ho%elem_of_seqZ. lia.
Qed.
End Best.
End Basics.

Section Reservations.
Context `{GoRange}.
Implicit Types (s : priorityFairShareState) (pool : PoolConfig).

(** The state after a granted reservation of [b] from the state [s] that
    Reserve reads. *)
Definition granted s pool (class tenant : string) (b : BackendName) s' : Prop :=
  active s' = add_active (active s) (pc_Name pool) b 1 ∧
  tenantActive s' = tenantActive (add_tenant s (pc_Name pool) b tenant) ∧
  starvation s' = delete (starvationKeyFor pool class) (starvation s).

Lemma reserve_ranked_spec s pool request now tenant starving :
  let class := ar_PriorityClass request in
  let backends := fairShareCandidateBackends pool in
  let n := Z.of_nat (length backends) in
  let cand := ring_candidate backends ((cursors s).[pc_Name pool] mod n) in
  let score b := candidate_score s pool class tenant now b in
  match reserve_ranked s pool request now tenant starving with
  | (Ok b, s') => ∃ o, 0 ≤ o < n ∧ b = cand o ∧ candidate_available s pool class starving b = true ∧
      (∀ o', 0 ≤ o' < n → candidate_available s pool class starving (cand o') = true →
         score b < score (cand o') ∨ (score b = score (cand o') ∧ o ≤ o')) ∧
      granted s pool class tenant b s'
  | (Fail e, s') => e = Sentinel ErrNoCapacity ∧
      (∀ b, b ∈ backends → candidate_available s pool class starving b = false) ∧
      s' = if anyBackendDeniedBySoftReserve s pool class && negb (n =? 0) then recordStarvation s pool class now else s
  end.
Proof.
  cbn zeta. unfold reserve_ranked.
  set (class := ar_PriorityClass request). set (backends := fairShareCandidateBackends pool).
  set (n := Z.of_nat (length backends)). destruct (Z.eqb_spec n 0) as [Hz|Hnz].
  { rewrite andb_false_r. split_and!; try done. intros b Hb.
    assert (Hnil : backends = []) by (apply nil_length_inv; lia). rewrite Hnil in Hb. by apply elem_of_nil in Hb. }
  assert (Hn : 0 < n) by lia. set (start := (cursors s).[pc_Name pool] mod n).
  pose proof (fold_best s pool class tenant now starving backends start (length backends) Hn) as Hbest.
  fold n in Hbest. set (found := foldl _ no_best _) in *.
  destruct Hbest as [[-> Hall]|(Hin & Ha & Hs & Hi & Hall)].
  - cbn [bestIndex no_best Z.ltb Z.compare]. rewrite andb_true_r. split_and!; [done| |done]. intros b Hb.
    destruct (ring_offset backends start b Hb) as (o & Ho & <-).
    apply (proj1 (Forall_forall _ _) Hall o Ho).
  - fold n in Hi. apply elem_of_seqZ in Hin. pose proof (Z.mod_pos_bound (start + bestOffset found) n Hn).
    destruct (Z.ltb_spec (bestIndex found) 0); [lia|].
    assert (Hsel : Ordered.ring_at backends (bestIndex found) = ring_candidate backends start (bestOffset found))
      by (by rewrite Hi). rewrite Hsel.
    exists (bestOffset found). split_and!; [lia|lia|done|done| |].
    + intros o' Ho' Hav. rewrite <- Hs. apply (proj1 (Forall_forall _ _) Hall); [apply elem_of_seqZ; lia|done].
    + set (b := ring_candidate backends start (bestOffset found)).
      unfold granted. cbn. match goal with |- context [recordReservation ?s1 _ _ _ _] =>
        destruct (recordReservation_counts s1 pool b tenant now) as (-> & -> & ->) end. done.
Qed.

Lemma reserve_pinned_spec s pool request now tenant starving pinned :
  let class := ar_PriorityClass request in
  match reserve_pinned s pool request now tenant starving pinned with
  | (Ok b, s') => b = pinned ∧ is_Some (pc_Backends pool !! b) ∧
      candidate_available s pool class starving b = true ∧ granted s pool class tenant b s'
  | (Fail e, s') =>
      match pc_Backends pool !! pinned with
      | None => e = Sentinel ErrUnknownBackend ∧ s' = s
      | Some cfg => e = Sentinel ErrNoCapacity ∧ candidate_available s pool class starving pinned = false ∧
          s' = if backendDeniedBySoftReserve cfg (active s).[pc_Name pool].[pinned] (activeBackendLocked s pinned) pool class
               then recordStarvation s pool class now else s
      end
  end.
Proof.
  cbn zeta. unfold reserve_pinned. destruct (pc_Backends pool !! pinned) as [cfg|] eqn:Hp; [|done].
  unfold candidate_available. rewrite (map_read_Some _ _ _ Hp).
  destruct (backendAvailableForPriorityWithStarvation _ _ _ _ _ _) eqn:Hav; cbn; [|done].
  split_and!; [done|by eexists|by rewrite (map_read_Some _ _ _ Hp)|]. unfold granted. cbn.
  match goal with |- context [recordReservation ?s1 _ _ _ _] =>
    destruct (recordReservation_counts s1 pool pinned tenant now) as (-> & -> & ->) end. done.
Qed.

(** The state Reserve decides on, and whether the class is starving. *)
Definition decision_state s pool (request : AllocationRequest) (now : Time) : priorityFairShareState :=
  (isStarving (prepare s pool now) pool (ar_PriorityClass request) now).2.
Definition is_starving s pool (request : AllocationRequest) (now : Time) : bool :=
  (isStarving (prepare s pool now) pool (ar_PriorityClass request) now).1.

Lemma decision_state_counts s pool request now :
  active (decision_state s pool request now) = ensure_pool (active s) (pc_Name pool) ∧
  tenantActive (decision_state s pool request now) = ensure_pool (tenantActive s) (pc_Name pool) ∧
  cursors (decision_state s pool request now) = cursors s.
Proof.
  unfold decision_state. destruct (isStarving_counts (prepare s pool now) pool (ar_PriorityClass request) now)
    as (-> & -> & ->). apply prepare_counts.
Qed.

Lemma elem_of_fairShareCandidates pool b : b ∈ fairShareCandidateBackends pool ↔ is_Some (pc_Backends pool !! b).
Proof.
  unfold fairShareCandidateBackends. case_match; [apply elem_of_weightedBackends|apply elem_of_orderedBackends].
Qed.

Lemma tenantTotal_ensure s pool now tenant :
  tenantTotal (prepare s pool now) (pc_Name pool) tenant = tenantTotal s (pc_Name pool) tenant.
Proof.
  unfold tenantTotal. destruct (prepare_counts s pool now) as (_ & -> & _). unfold ensure_pool.
  destruct (tenantActive s !! pc_Name pool) eqn:Hp; [done|].
  rewrite map_read_insert_eq, (map_read_None _ _ Hp). done.
Qed.

Lemma Reserve_granted s pool request now b s' :
  FairShare.Reserve s pool request now = (Ok b, s') →
  is_Some (pc_Backends pool !! b) ∧ (ar_Backend request = None ∨ ar_Backend request = Some b) ∧
  candidate_available (decision_state s pool request now) pool (ar_PriorityClass request)
    (is_starving s pool request now) b = true ∧
  (∀ quota, Quota (pc_FairShare pool) (normalizeTenant (ar_Tenant request)) = Some quota →
     tenantTotal s (pc_Name pool) (normalizeTenant (ar_Tenant request)) < quota) ∧
  granted (decision_state s pool request now) pool (ar_PriorityClass request)
    (normalizeTenant (ar_Tenant request)) b s'.
Proof.
  unfold FairShare.Reserve, decision_state, is_starving. rewrite tenantTotal_ensure.
  set (tenant := normalizeTenant (ar_Tenant request)).
  destruct (match Quota (pc_FairShare pool) tenant with Some q => _ | None => _ end) eqn:Hq; [done|].
  assert (Hquota : ∀ quota, Quota (pc_FairShare pool) tenant = Some quota →
    tenantTotal s (pc_Name pool) tenant < quota) by (intros quota Hs; rewrite Hs in Hq; by reflect_bools).
  destruct (isStarving _ _ _ _) as [starving s1] eqn:Hst. cbn. destruct (ar_Backend request) as [pinned|].
  - pose proof (reserve_pinned_spec s1 pool request now tenant starving pinned) as Hspec. cbn zeta in Hspec.
    intros Hr. rewrite Hr in Hspec. destruct Hspec as (-> & ? & ? & ?). split_and!; try done. by right.
  - pose proof (reserve_ranked_spec s1 pool request now tenant starving) as Hspec. cbn zeta in Hspec.
    intros Hr. rewrite Hr in Hspec. destruct Hspec as (o & Ho & Hb & Hav & _ & Hg).
    split_and!; try done; [|by left]. apply elem_of_fairShareCandidates. rewrite Hb.
    apply ring_at_elem, Z.mod_pos_bound. lia.
Qed.

Lemma Reserve_refused s pool request now e s' :
  FairShare.Reserve s pool request now = (Fail e, s') →
  active s' = ensure_pool (active s) (pc_Name pool) ∧ tenantActive s' = ensure_pool (tenantActive s) (pc_Name pool) ∧
  cursors s' = cursors s.
Proof.
  destruct (decision_state_counts s pool request now) as (Ha & Ht & Hc).
  destruct (prepare_counts s pool now) as (Ha' & Ht' & Hc').
  unfold FairShare.Reserve. case_match eqn:Hq; [by intros [= <- <-]|].
  unfold decision_state in *. destruct (isStarving _ _ _ _) as [starving s1]. cbn in *.
  set (tenant := normalizeTenant (ar_Tenant request)).
  pose proof (recordStarvation_counts s1 pool (ar_PriorityClass request) now) as (Hra & Hrt & Hrc).
  destruct (ar_Backend request) as [pinned|].
  - pose proof (reserve_pinned_spec s1 pool request now tenant starving pinned) as Hspec. cbn zeta in Hspec.
    intros Hr. rewrite Hr in Hspec. destruct (pc_Backends pool !! pinned); [destruct Hspec as (_ & _ & ->)|destruct Hspec as (_ & ->); done].
    case_match; [|done]. by rewrite Hra, Hrt, Hrc.
  - pose proof (reserve_ranked_spec s1 pool request now tenant starving) as Hspec. cbn zeta in Hspec.
    intros Hr. rewrite Hr in Hspec. destruct Hspec as (_ & _ & ->). case_match; [|done]. by rewrite Hra, Hrt, Hrc.
Qed.

Lemma release_tenant_active s p b t : active (release_tenant s p b t) = active s ∧ cursors (release_tenant s p b t) = cursors s ∧
  starvation (release_tenant s p b t) = starvation s.
Proof. unfold release_tenant. by repeat case_match. Qed.

Lemma Release_active s p b allocation now :
  active (FairShare.Release s p b allocation now) =
    if 0 <? (active s).[p].[b] then add_active (active s) p b (-1) else active s.
Proof.
  unfold FairShare.Release. match goal with |- context [pruneAllTenantLogs ?s1 now] => destruct (prune_counts s1 now) as (-> & _) end.
  destruct (active s !! p) as [pa|] eqn:Hp.
  - rewrite (map_read_Some _ _ _ Hp). match goal with |- context [release_tenant ?s1 _ _ _] =>
      destruct (release_tenant_active s1 p b (normalizeTenant (as_Tenant allocation))) as (-> & _) end. by case_match.
  - rewrite (map_read_None _ _ Hp). done.
Qed.
End Reservations.

#[export] Instance priority_fair_share_ledger `{GoRange} : SchedulerLedger PriorityFairShare.
Proof.
  refine {| ledger := fun s : PriorityFairShare => active (pfs_state s) |}.
  - done.
  - intros s pool request now b s'. cbn. destruct (FairShare.Reserve _ _ _ _) as [r st] eqn:Hr. intros [= -> <-].
    apply Reserve_granted in Hr as ([cfg Hcfg] & Hp & Hav & _ & Hg & _). exists cfg.
    destruct (decision_state_counts (pfs_state s) pool request now) as (Ha & _).
    split_and!; [done|done| |by rewrite <- Ha]. intros Hn.
    apply available_is_available in Hav; rewrite Ha in *; [|by rewrite ensure_pool_read].
    by rewrite ensure_pool_read, active_total_ensure, (map_read_Some _ _ _ Hcfg) in Hav.
  - intros s pool request now e s'. cbn. destruct (FairShare.Reserve _ _ _ _) as [r st] eqn:Hr. intros [= -> <-].
    by apply Reserve_refused in Hr as (Hl & _).
  - intros. apply Release_active.
Defined.

(** ** Tenant quotas *)

Section Quotas.
Context `{GoRange}.
Implicit Types (s : priorityFairShareState) (pool : PoolConfig).

Lemma sum_map_read_insert (m : gmap BackendName (gmap string Z)) b c tenant :
  sum_map (fun _ counts => counts.[tenant]) (<[b := c]> m) =
    sum_map (fun _ counts => counts.[tenant]) m + c.[tenant] - m.[b].[tenant].
Proof.
  rewrite sum_map_insert. destruct (m !! b) as [c'|] eqn:Hb.
  - rewrite (sum_map_delete _ m b c' Hb), (map_read_Some _ _ _ Hb). lia.
  - rewrite delete_id by done. rewrite (map_read_None _ _ Hb). change ((zero_value : gmap string Z).[tenant]) with 0. lia.
Qed.

Lemma tenantTotal_update s m p b c p' tenant :
  tenantActive s = <[p := <[b := c]> m.[p]]> m →
  tenantTotal s p' tenant =
    sum_map (fun _ counts => counts.[tenant]) m.[p'] + (if decide (p = p') then c.[tenant] - m.[p].[b].[tenant] else 0).
Proof.
  intros Hs. unfold tenantTotal. rewrite Hs, map_read_insert. case_decide; subst; [|lia].
  rewrite sum_map_read_insert. lia.
Qed.

Lemma tenantTotal_add s p b t p' tenant :
  tenantTotal (add_tenant s p b t) p' tenant =
    tenantTotal s p' tenant + (if decide (p = p' ∧ t = tenant) then 1 else 0).
Proof.
  rewrite (tenantTotal_update _ (tenantActive s) p b (<[t := (tenantActive s).[p].[b].[t] + 1]> (tenantActive s).[p].[b])) by done.
  unfold tenantTotal. rewrite map_read_insert. repeat case_decide; subst; try naive_solver lia.
Qed.

Lemma tenantTotal_release_tenant s p b t p' tenant :
  tenantTotal (release_tenant s p b t) p' tenant ≤ tenantTotal s p' tenant.
Proof.
  unfold release_tenant. destruct (tenantActive s !! p) as [bs|] eqn:Hp; [|lia].
  destruct (bs !! b) as [c|] eqn:Hb; [|lia]. destruct (Z.ltb_spec 0 c.[t]); [|lia].
  rewrite <- (map_read_Some _ _ _ Hp). erewrite tenantTotal_update; [|reflexivity].
  rewrite (map_read_Some _ _ _ Hp), (map_read_Some _ _ _ Hb). unfold tenantTotal.
  match goal with |- _ + (if _ then ?c'.[tenant] - _ else _) ≤ _ => assert (c'.[tenant] ≤ c.[tenant]) end.
  { destruct (Z.eqb_spec (c.[t] - 1) 0); rewrite ?map_read_delete, ?map_read_insert; case_decide; subst; try lia.
    change (@zero_value Z zero_Z) with 0. lia. }
  case_decide; lia.
Qed.

Lemma tenantTotal_same s s' p tenant : tenantActive s = tenantActive s' → tenantTotal s p tenant = tenantTotal s' p tenant.
Proof. unfold tenantTotal. by intros ->. Qed.

Lemma tenantTotal_ensured s s' p p' tenant :
  tenantActive s = ensure_pool (tenantActive s') p → tenantTotal s p' tenant = tenantTotal s' p' tenant.
Proof.
  unfold tenantTotal, ensure_pool. intros ->. destruct (tenantActive s' !! p) eqn:Hp; [done|].
  rewrite map_read_insert. case_decide; subst; [|done]. by rewrite (map_read_None _ _ Hp).
Qed.

Lemma tenantTotal_Reserve s pool request now p tenant :
  tenantTotal (FairShare.Reserve s pool request now).2 p tenant =
    tenantTotal s p tenant +
      match (FairShare.Reserve s pool request now).1 with
      | Ok _ => if decide (pc_Name pool = p ∧ normalizeTenant (ar_Tenant request) = tenant) then 1 else 0
      | Fail _ => 0
      end.
Proof.
  destruct (FairShare.Reserve s pool request now) as [[b|e] s'] eqn:Hr; cbn.
  - apply Reserve_granted in Hr as (_ & _ & _ & _ & _ & Ht & _).
    rewrite (tenantTotal_same _ _ _ _ Ht), tenantTotal_add. f_equal.
    eapply tenantTotal_ensured, decision_state_counts.
  - apply Reserve_refused in Hr as (_ & Ht & _). rewrite (tenantTotal_ensured _ _ _ _ _ Ht). lia.
Qed.

Lemma tenantTotal_Release s p b allocation now p' tenant :
  tenantTotal (FairShare.Release s p b allocation now) p' tenant ≤ tenantTotal s p' tenant.
Proof.
  unfold FairShare.Release. match goal with |- context [pruneAllTenantLogs ?s1 now] => destruct (prune_counts s1 now) as (_ & Ht & _) end.
  rewrite (tenantTotal_same _ _ _ _ Ht). destruct (active s !! p); [|lia].
  etrans; [apply tenantTotal_release_tenant|]. by case_match.
Qed.

(** C30. Tenant quotas hold: while every configuration of a pool gives a tenant the same quota,
    no sequence of reservations and releases brings the tenant's reservations in the pool above
    it; and once they reach it, every further request of the tenant (spelled in any case, with
    surrounding spaces) is refused with ErrQuotaExceeded and counts nothing. *)
Theorem tenant_quota_is_never_exceeded configured (s s' : PriorityFairShare) p tenant quota :
  (∀ pool, configured pool → pc_Name pool = p → Quota (pc_FairShare pool) tenant = Some quota) →
  tenantTotal (pfs_state s) p tenant ≤ Z.max 0 quota →
  rtc (sched_step configured) s s' →
  tenantTotal (pfs_state s') p tenant ≤ Z.max 0 quota ∧
  (quota ≤ tenantTotal (pfs_state s') p tenant →
   ∀ pool request now, configured pool → pc_Name pool = p → normalizeTenant (ar_Tenant request) = tenant →
     ∃ s'' : PriorityFairShare, Scheduler.Reserve s' pool request now = (Fail (Sentinel ErrQuotaExceeded), s'') ∧
       ∀ p' b, Scheduler.Active s'' p' b = Scheduler.Active s' p' b).
Proof.
  intros Hquota Hs Hsteps. split.
  - induction Hsteps as [|s s1 s' Hstep _ IH]; [done|]. apply IH. clear IH.
    destruct Hstep as [s pool request now Hc|s p' b allocation now].
    + cbn. pose proof (tenantTotal_Reserve (pfs_state s) pool request now p tenant) as Ht.
      destruct (FairShare.Reserve (pfs_state s) pool request now) as [[b|e] st] eqn:Hr; cbn in Ht |- *; rewrite Ht; [|lia].
      case_decide as Heq; [|lia]. destruct Heq as [<- <-].
      apply Reserve_granted in Hr as (_ & _ & _ & Hq & _).
      specialize (Hq quota (Hquota pool Hc eq_refl)). lia.
    + cbn. pose proof (tenantTotal_Release (pfs_state s) p' b allocation now p tenant). lia.
  - intros Hfull pool request now Hc Hp Ht.
    destruct (Scheduler.Reserve s' pool request now) as [r s''] eqn:Hr.
    assert (Hrefused : r = Fail (Sentinel ErrQuotaExceeded)).
    { revert Hr. cbn. unfold FairShare.Reserve. rewrite tenantTotal_ensure, Ht, (Hquota pool Hc Hp), Hp.
      destruct (Z.leb_spec quota (tenantTotal (pfs_state s') p tenant)); [|lia]. by intros [= <- _]. }
    subst r. exists s''. split; [done|]. intros p' b. by eapply active_after_refusal.
Qed.
End Quotas.

(** ** Soft reserves *)

Section SoftReserves.
Context `{GoRange}.
Implicit Types (pool : PoolConfig) (f : FairShareConfig).

Definition positive_part (z : Z) : Z := if z <=? 0 then 0 else z.

(** All the slots the configuration soft-reserves on each backend. *)
Definition reserved_slots f : Z := sum_map (fun _ slots => positive_part slots) (fs_SoftReserves f).

Definition held_above f (weight : Z) : Z :=
  sum_map (fun class slots => if slots <=? 0 then 0
                              else if weight <? priorityClassWeight f class then slots else 0) (fs_SoftReserves f).

Lemma held_above_bounds f w : 0 ≤ held_above f w ≤ reserved_slots f.
Proof.
  unfold held_above, reserved_slots, positive_part. split.
  - apply sum_map_nonneg. intros. repeat case_match; reflect_bools; lia.
  - apply sum_map_le. intros. repeat case_match; reflect_bools; lia.
Qed.

Lemma SoftReserveHeld_spec f class :
  fs_Enabled f = true → reserved_slots f ≤ max_int64 →
  SoftReserveHeld f class = held_above f (priorityClassWeight f class).
Proof.
  intros He Hmax. unfold SoftReserveHeld. rewrite He. cbn. destruct (Nat.eqb_spec (size (fs_SoftReserves f)) 0) as [Hz|_].
  - apply map_size_empty_iff in Hz. unfold held_above. by rewrite Hz, sum_map_empty.
  - apply wrap64_id. pose proof (held_above_bounds f (priorityClassWeight f class)) as Hb.
    unfold held_above, in_int64, min_int64 in *. lia.
Qed.

Lemma held_above_reserved f c h slots :
  priorityClassWeight f c < priorityClassWeight f h → fs_SoftReserves f !! h = Some slots →
  held_above f (priorityClassWeight f h) + slots ≤ held_above f (priorityClassWeight f c).
Proof.
  intros Hw Hh. unfold held_above. rewrite !(sum_map_delete _ _ h slots Hh).
  match goal with |- ?a1 + sum_map ?f1 ?m + slots ≤ ?a2 + sum_map ?f2 ?m =>
    assert (sum_map f1 m ≤ sum_map f2 m) by (apply sum_map_le; intros; repeat case_match; reflect_bools; lia) end.
  repeat case_match; reflect_bools; lia.
Qed.

(** Reservations on one pool, under one configuration, by classes of a set. *)
Inductive lane_step pool (class_ok : string → Prop) : PriorityFairShare → PriorityFairShare → Prop :=
  | lane_reserve s pool' request now :
      (pc_Name pool' = pc_Name pool → pool' = pool ∧ class_ok (ar_PriorityClass request)) →
      lane_step pool class_ok s (Scheduler.Reserve s pool' request now).2
  | lane_release s p b allocation now :
      lane_step pool class_ok s (Scheduler.Release s p b allocation now).

Lemma not_starving s pool request now :
  fs_StarvationAfter (pc_FairShare pool) ≤ 0 → is_starving s pool request now = false.
Proof.
  intros Ha. unfold is_starving, isStarving. by destruct (Z.leb_spec (fs_StarvationAfter (pc_FairShare pool)) 0); [|lia].
Qed.

Lemma lane_step_bound pool class_ok b limit s s' :
  fs_StarvationAfter (pc_FairShare pool) ≤ 0 → 0 ≤ limit →
  (∀ class, class_ok class →
     EffectiveMaxRunners (bc_MaxRunners (pc_Backends pool).[b]) (pc_FairShare pool) class ≤ limit) →
  Scheduler.Active s (pc_Name pool) b ≤ limit → lane_step pool class_ok s s' →
  Scheduler.Active s' (pc_Name pool) b ≤ limit.
Proof.
  intros Hst Hl Heff Hs Hstep. destruct Hstep as [s pool' request now Hsame|s p b' allocation now].
  - destruct (Scheduler.Reserve s pool' request now) as [[b'|e] s'] eqn:Hr; cbn [snd].
    + rewrite (active_after_grant _ _ _ _ _ _ _ _ Hr). case_decide as Heq; [|lia]. destruct Heq as [Hp <-].
      destruct (Hsame Hp) as [-> Hc]. revert Hr. cbn. destruct (FairShare.Reserve _ _ _ _) as [r st] eqn:Hr.
      intros [= -> <-]. apply Reserve_granted in Hr as (_ & _ & Hav & _).
      rewrite not_starving in Hav by done. specialize (Heff _ Hc).
      destruct (decision_state_counts (pfs_state s) pool request now) as (Ha & _).
      revert Hav. unfold candidate_available, backendAvailableForPriorityWithStarvation.
      rewrite Ha, ensure_pool_read. cbn in Hs |- *. unfold FairShare.Active in *. repeat case_match; try done. intros. reflect_bools. lia.
    + by rewrite (active_after_refusal _ _ _ _ _ _ _ _ Hr).
  - rewrite active_after_release. repeat case_match; lia.
Qed.

(** Soft reserves keep their slots: while only requests of classes lighter than a class [h]
    (and releases) reach a pool without starvation relief, [h]'s soft-reserved slots stay free
    on every backend, within the limit [h] itself sees. *)
Theorem soft_reserves_stay_free pool h slots b (s s' : PriorityFairShare) :
  let f := pc_FairShare pool in
  let max_runners := bc_MaxRunners (pc_Backends pool).[b] in
  fs_Enabled f = true → fs_StarvationAfter f ≤ 0 → fs_SoftReserves f !! h = Some slots →
  reserved_slots f ≤ max_runners ≤ max_int64 →
  rtc (lane_step pool (fun class => priorityClassWeight f class < priorityClassWeight f h)) s s' →
  Scheduler.Active s (pc_Name pool) b ≤ 0 →
  Scheduler.Active s' (pc_Name pool) b + slots ≤ EffectiveMaxRunners max_runners f h.
Proof.
  cbn zeta. set (f := pc_FairShare pool). set (m := bc_MaxRunners _). intros He Hst Hh Hslots Hsteps H0.
  assert (Hh_eff : EffectiveMaxRunners m f h = m - held_above f (priorityClassWeight f h)).
  { pose proof (held_above_bounds f (priorityClassWeight f h)) as Hb.
    unfold EffectiveMaxRunners. rewrite SoftReserveHeld_spec by (done || lia).
    repeat case_match; reflect_bools; lia. }
  rewrite Hh_eff. set (limit := m - held_above f (priorityClassWeight f h) - slots).
  assert (Hlim : 0 ≤ limit).
  { assert (Hbelow : held_above f (priorityClassWeight f h) + slots ≤ reserved_slots f).
    { unfold held_above, reserved_slots. rewrite !(sum_map_delete _ _ h slots Hh). unfold positive_part at 1.
      match goal with |- ?a1 + sum_map ?f1 ?m + slots ≤ ?a2 + sum_map ?f2 ?m =>
        assert (sum_map f1 m ≤ sum_map f2 m) by (apply sum_map_le; intros; unfold positive_part; repeat case_match; reflect_bools; lia) end.
      repeat case_match; reflect_bools; lia. }
    unfold limit. lia. }
  enough (Scheduler.Active s' (pc_Name pool) b ≤ limit) by (unfold limit in *; lia).
  assert (Hs : Scheduler.Active s (pc_Name pool) b ≤ limit) by lia. clear H0. revert Hs.
  induction Hsteps as [|s s1 s' Hstep _ IH]; [done|]. intros Hs. apply IH. eapply lane_step_bound; [done..| |done|done].
  intros class Hw. pose proof (held_above_reserved f class h slots Hw Hh) as Hge.
  pose proof (held_above_bounds f (priorityClassWeight f class)) as Hb.
  fold f m. unfold EffectiveMaxRunners. rewrite SoftReserveHeld_spec by (done || lia). unfold limit.
  repeat case_match; reflect_bools; lia.
Qed.
End SoftReserves.

(** ** Starvation relief *)

Section Starvation.
Context `{GoRange}.
Implicit Types (s : priorityFairShareState) (pool : PoolConfig).

(** Soft reserves, and no hard limit, keep the request from a backend. *)
Definition denied_by_reserve s pool (request : AllocationRequest) : bool :=
  match ar_Backend request with
  | Some pinned =>
      match pc_Backends pool !! pinned with
      | Some cfg => backendDeniedBySoftReserve cfg (active s).[pc_Name pool].[pinned]
                      (activeBackendLocked s pinned) pool (ar_PriorityClass request)
      | None => false
      end
  | None => anyBackendDeniedBySoftReserve s pool (ar_PriorityClass request)
  end.

Definition denial s pool (request : AllocationRequest) (now : Time) s' : Prop :=
  FairShare.Reserve s pool request now = (Fail (Sentinel ErrNoCapacity), s') ∧ denied_by_reserve s pool request = true.

Definition request_key pool (request : AllocationRequest) : PoolName * string :=
  starvationKeyFor pool (ar_PriorityClass request).

Lemma prepare_starvation s pool now key :
  (key.1 = pc_Name pool → 0 < fs_StarvationAfter (pc_FairShare pool)) →
  starvation (prepare s pool now) !! key = starvation s !! key.
Proof.
  intros Hk. unfold prepare. set (s' := noteUsageWindow _ _).
  assert (Hs : starvation s' = starvation s) by (unfold s', noteUsageWindow; by case_match).
  destruct (prune_counts s' now) as (_ & _ & _ & Hst). case_match; reflect_bools; cbn; rewrite Hst, Hs; [|done].
  destruct (starvation s !! key) as [t|] eqn:Ht.
  - apply map_lookup_filter_Some. split; [done|]. cbn. intros Heq. specialize (Hk Heq). lia.
  - apply map_lookup_filter_None. by left.
Qed.

Lemma decision_starvation_other s pool request now key :
  (key.1 = pc_Name pool → 0 < fs_StarvationAfter (pc_FairShare pool)) → request_key pool request ≠ key →
  starvation (decision_state s pool request now) !! key = starvation s !! key.
Proof.
  intros Hk Hne. rewrite <- (prepare_starvation s pool now) by done. unfold decision_state, isStarving.
  repeat case_match; cbn; try done. by rewrite lookup_delete_ne.
Qed.

Lemma recordStarvation_other s pool class now key :
  starvationKeyFor pool class ≠ key → starvation (recordStarvation s pool class now) !! key = starvation s !! key.
Proof. intros Hne. unfold recordStarvation. repeat case_match; cbn; try done; by rewrite lookup_insert_ne. Qed.

Lemma Reserve_starvation_other s pool request now key :
  (key.1 = pc_Name pool → 0 < fs_StarvationAfter (pc_FairShare pool)) → request_key pool request ≠ key →
  starvation (FairShare.Reserve s pool request now).2 !! key = starvation s !! key.
Proof.
  intros Hk Hne. pose proof (decision_starvation_other s pool request now key Hk Hne) as Hd.
  pose proof (prepare_starvation s pool now key Hk) as Hp.
  destruct (FairShare.Reserve s pool request now) as [[b|e] s'] eqn:Hr; cbn.
  - apply Reserve_granted in Hr as (_ & _ & _ & _ & _ & _ & Hst). rewrite Hst, lookup_delete_ne by done. exact Hd.
  - revert Hr. unfold FairShare.Reserve. case_match; [by intros [= _ <-]|].
    unfold decision_state in Hd. destruct (isStarving _ _ _ _) as [starving s1]. cbn in Hd.
    set (tenant := normalizeTenant (ar_Tenant request)). destruct (ar_Backend request) as [pinned|]; intros Hr.
    + pose proof (reserve_pinned_spec s1 pool request now tenant starving pinned) as Hspec. cbn zeta in Hspec.
      rewrite Hr in Hspec. destruct (pc_Backends pool !! pinned);
        [destruct Hspec as (_ & _ & ->)|destruct Hspec as (_ & ->); done].
      case_match; [rewrite recordStarvation_other|]; done.
    + pose proof (reserve_ranked_spec s1 pool request now tenant starving) as Hspec. cbn zeta in Hspec.
      rewrite Hr in Hspec. destruct Hspec as (_ & _ & ->). case_match; [rewrite recordStarvation_other|]; done.
Qed.

Lemma Release_starvation s p b allocation now :
  starvation (FairShare.Release s p b allocation now) = starvation s.
Proof.
  unfold FairShare.Release. match goal with |- context [pruneAllTenantLogs ?s1 now] => destruct (prune_counts s1 now) as (_ & _ & _ & ->) end.
  destruct (active s !! p); [|done]. match goal with |- context [release_tenant ?s1 _ _ _] =>
      destruct (release_tenant_active s1 p b (normalizeTenant (as_Tenant allocation))) as (_ & _ & ->) end. by case_match.
Qed.

(** A soft-reserve denial leaves a hard slot that a starving class may take. *)
Lemma soft_denied_available cfg a t pool class :
  backendDeniedBySoftReserve cfg a t pool class = true →
  backendAvailableForPriorityWithStarvation cfg a t pool class true = true.
Proof.
  unfold backendDeniedBySoftReserve, backendAvailableForPriorityWithStarvation.
  destruct (bc_Enabled cfg), (bc_Healthy cfg); cbn; try done. repeat case_match; reflect_bools; try done; intros; lia.
Qed.

Lemma denied_by_reserve_same s s' pool request :
  active s' = ensure_pool (active s) (pc_Name pool) → denied_by_reserve s' pool request = denied_by_reserve s pool request.
Proof.
  intros Ha. unfold denied_by_reserve, anyBackendDeniedBySoftReserve, activeBackendLocked. rewrite Ha.
  assert (Hr : ∀ b, (ensure_pool (active s) (pc_Name pool)).[pc_Name pool].[b] = (active s).[pc_Name pool].[b])
    by (intros; by rewrite ensure_pool_read).
  destruct (ar_Backend request); [case_match; by rewrite ?Hr, ?active_total_ensure|].
  induction (range (pc_Backends pool)) as [|x l IH]; [done|]. cbn [existsb]. by rewrite IH, Hr, active_total_ensure.
Qed.

(** A denial happens only while the class is not starving, and extends or
    starts its streak. *)
Lemma denial_spec s pool request now s' :
  denial s pool request now s' →
  is_starving s pool request now = false ∧
  s' = recordStarvation (decision_state s pool request now) pool (ar_PriorityClass request) now.
Proof.
  intros [Hr Hd]. destruct (decision_state_counts s pool request now) as (Ha & _).
  rewrite <- (denied_by_reserve_same s _ pool request Ha) in Hd. revert Hr.
  unfold FairShare.Reserve. case_match; [done|]. unfold decision_state, is_starving in *.
  destruct (isStarving _ _ _ _) as [starving s1]. cbn in *. unfold denied_by_reserve in Hd.
  set (tenant := normalizeTenant (ar_Tenant request)). destruct (ar_Backend request) as [pinned|]; intros Hr.
  - pose proof (reserve_pinned_spec s1 pool request now tenant starving pinned) as Hspec. cbn zeta in Hspec.
    rewrite Hr in Hspec. destruct (pc_Backends pool !! pinned) as [cfg|] eqn:Hp; [|done].
    rewrite Hd in Hspec. destruct Hspec as (_ & Hav & ->). split; [|done]. destruct starving; [|done].
    unfold candidate_available in Hav. rewrite (map_read_Some _ _ _ Hp) in Hav.
    by rewrite (soft_denied_available _ _ _ _ _ Hd) in Hav.
  - pose proof (reserve_ranked_spec s1 pool request now tenant starving) as Hspec. cbn zeta in Hspec.
    rewrite Hr in Hspec. destruct Hspec as (_ & Hav & ->). rewrite Hd.
    unfold anyBackendDeniedBySoftReserve in Hd. apply existsb_exists in Hd as ([b cfg] & Hin & Hd).
    apply list_elem_of_In, elem_of_range in Hin. cbn in Hd.
    assert (Hb : b ∈ fairShareCandidateBackends pool) by (apply elem_of_fairShareCandidates; by eexists).
    specialize (Hav b Hb). split.
    + destruct starving; [|done]. unfold candidate_available in Hav. rewrite (map_read_Some _ _ _ Hin) in Hav.
      by rewrite (soft_denied_available _ _ _ _ _ Hd) in Hav.
    + destruct (Z.eqb_spec (Z.of_nat (length (fairShareCandidateBackends pool))) 0) as [Hz|]; [|done].
      assert (Hnil : fairShareCandidateBackends pool = []) by (apply nil_length_inv; lia).
      rewrite Hnil in Hb. by apply elem_of_nil in Hb.
Qed.

(** The calls other classes and pools make between two attempts. *)
Inductive other_step pool request : priorityFairShareState → priorityFairShareState → Prop :=
  | other_reserve s pool' request' now :
      (pc_Name pool' = pc_Name pool → pool' = pool) → request_key pool' request' ≠ request_key pool request →
      other_step pool request s (FairShare.Reserve s pool' request' now).2
  | other_release s p b allocation now :
      other_step pool request s (FairShare.Release s p b allocation now).

(** [denied_since s t0 t1]: every attempt from [t0] to [t1] was denied by soft
    reserves, retried before the idle gap; other calls came in between. *)
Inductive denied_since pool request : priorityFairShareState → Time → Time → Prop :=
  | denied_first s now s' :
      (∀ track, starvation s !! request_key pool request = Some track → st_start track ≤ now) →
      denial s pool request now s' → denied_since pool request s' now now
  | denied_other s s' t0 t1 :
      denied_since pool request s t0 t1 → other_step pool request s s' → denied_since pool request s' t0 t1
  | denied_again s s' t0 t1 now :
      denied_since pool request s t0 t1 → now - t1 ≤ 2 * fs_StarvationAfter (pc_FairShare pool) →
      denial s pool request now s' → denied_since pool request s' t0 now.

Lemma denial_track s pool request now s' :
  let after := fs_StarvationAfter (pc_FairShare pool) in
  0 < after → 2 * after ≤ max_int64 → denial s pool request now s' →
  ∃ track', starvation s' !! request_key pool request = Some track' ∧ st_lastDenied track' = now ∧
    match starvation s !! request_key pool request with
    | Some track => if decide (now - st_lastDenied track ≤ 2 * after)
                    then st_start track' = st_start track ∧ now - st_start track < after
                    else st_start track' = now
    | None => st_start track' = now
    end.
Proof.
  cbn zeta. set (after := fs_StarvationAfter (pc_FairShare pool)). intros Hpos Hmax Hden.
  assert (Hgap : starvationIdleGap after = 2 * after).
  { unfold starvationIdleGap, starvationIdleGapFactor. rewrite wrap64_id; [lia|]. unfold in_int64, min_int64, max_int64 in *. lia. }
  apply denial_spec in Hden as [Hst ->]. revert Hst.
  unfold is_starving, decision_state, recordStarvation, isStarving, request_key. fold after. rewrite Hgap.
  destruct (Z.leb_spec after 0); [lia|]. rewrite !prepare_starvation by (intros; fold after; lia).
  set (key := starvationKeyFor pool (ar_PriorityClass request)).
  destruct (starvation s !! key) as [track|] eqn:Ht; cbn.
  - assert (Hsub : ∀ t, (2 * after <? TimeSub now t) = bool_decide (¬ now - t ≤ 2 * after)).
    { intros t. unfold TimeSub, saturate64, min_int64, max_int64 in *. apply eq_true_iff_eq. rewrite bool_decide_eq_true. lia. }
    rewrite Hsub. case_decide as Hidle.
    + rewrite bool_decide_eq_false_2 by lia. cbn. rewrite !prepare_starvation by (intros; fold after; lia). rewrite Ht, Hsub.
      rewrite bool_decide_eq_false_2 by lia. cbn. rewrite lookup_insert_eq. intros Hst. apply Z.leb_gt in Hst.
      eexists. split_and!; [done|done|done|]. unfold TimeSub, saturate64, min_int64, max_int64 in *. lia.
    + rewrite bool_decide_eq_true_2 by lia. cbn. rewrite lookup_delete_eq. cbn. rewrite lookup_insert_eq. eauto.
  - rewrite !prepare_starvation by (intros; fold after; lia). rewrite Ht. cbn. rewrite lookup_insert_eq. eauto.
Qed.

Lemma other_step_track pool request s s' :
  0 < fs_StarvationAfter (pc_FairShare pool) → other_step pool request s s' →
  starvation s' !! request_key pool request = starvation s !! request_key pool request.
Proof.
  intros Hpos Hstep. destruct Hstep as [s pool' request' now Hsame Hne|s p b allocation now].
  - apply Reserve_starvation_other; [|done]. cbn. intros Hp. by rewrite (Hsame (eq_sym Hp)).
  - by rewrite Release_starvation.
Qed.

(** C29. Starvation relief: soft reserves alone never hold a priority class off for
    StarvationAfter. Whatever reservations of other pools and classes and releases come in
    between, a class that keeps retrying (with gaps of at most twice StarvationAfter) and is
    denied only by soft reserves has been waiting for less than StarvationAfter. *)
Theorem soft_reserve_denials_end pool request s t0 t1 :
  0 < fs_StarvationAfter (pc_FairShare pool) → 2 * fs_StarvationAfter (pc_FairShare pool) ≤ max_int64 →
  denied_since pool request s t0 t1 → t1 - t0 < fs_StarvationAfter (pc_FairShare pool).
Proof.
  intros Hpos Hmax Hden.
  enough (∃ track, starvation s !! request_key pool request = Some track ∧ st_lastDenied track = t1 ∧
    st_start track ≤ t0 ∧ t1 - t0 < fs_StarvationAfter (pc_FairShare pool)) by naive_solver.
  induction Hden as [s now s' Hfirst Hd|s s' t0 t1 _ IH Hstep|s s' t0 t1 now _ IH Hgap Hd].
  - destruct (denial_track s pool request now s' Hpos Hmax Hd) as (track' & Ht & Hlast & Hcase).
    exists track'. split_and!; [done|done| |lia]. destruct (starvation s !! _) as [track|] eqn:Hk; [|lia].
    specialize (Hfirst track eq_refl). case_decide; lia.
  - destruct IH as (track & Ht & ?). exists track. by rewrite (other_step_track pool request s s').
  - destruct IH as (track & Ht & <- & Hstart & Hlt).
    destruct (denial_track s pool request now s' Hpos Hmax Hd) as (track' & Ht' & Hlast' & Hcase).
    rewrite Ht in Hcase. rewrite decide_True in Hcase by done. destruct Hcase as [Hs' Hw].
    exists track'. split_and!; [done|done|lia|lia].
Qed.
End Starvation.

(** ** Scores *)

Section Scores.
Context `{GoRange}.

Definition score_value (activeTotal tenantActive weight : Z) : Z :=
  activeTotal * 1000 + Z.quot (tenantActive * 1000) weight - (weight - 1) * 500.

(** Counts below a trillion and weights of at least one below a quadrillion: no product
    of the score leaves 64 bits. *)
Lemma score_exact a t w :
  0 ≤ a < 10 ^ 12 → 0 ≤ t < 10 ^ 12 → 1 ≤ w < 10 ^ 15 →
  priorityFairShareScore a t w = score_value a t w.
Proof.
  intros Ha Ht Hw. unfold priorityFairShareScore, score_value, priorityShareScale, priorityShareClassBoost, priorityShareClassMinWeight.
  destruct (Z.ltb_spec w 1); [lia|]. apply wrap64_id.
  assert (0 ≤ Z.quot (t * 1000) w ≤ t * 1000).
  { rewrite Z.quot_div_nonneg by lia. split; [apply Z.div_pos; lia|]. apply Z.div_le_upper_bound; nia. }
  unfold in_int64, min_int64, max_int64. lia.
Qed.

(** An unpinned fair-share reservation takes an available backend of least score, where a
    backend scores 1000 for each reservation it holds and 1000 divided by the class weight for
    each the tenant holds there (in the usage window, when the pool has one). *)
Theorem fair_share_takes_least_score s pool request now b s' :
  let sd := decision_state s pool request now in
  let weight := priorityClassWeight (pc_FairShare pool) (ar_PriorityClass request) in
  let tenant := normalizeTenant (ar_Tenant request) in
  let available := candidate_available sd pool (ar_PriorityClass request) (is_starving s pool request now) in
  let held b := (active s).[pc_Name pool].[b] in
  let used b := tenantUsage sd pool b tenant now in
  ar_Backend request = None →
  (∀ b, 0 ≤ held b < 10 ^ 12 ∧ 0 ≤ used b < 10 ^ 12) → weight < 10 ^ 15 →
  FairShare.Reserve s pool request now = (Ok b, s') →
  available b = true ∧
  (∀ b', is_Some (pc_Backends pool !! b') → available b' = true →
     held b * 1000 + Z.quot (used b * 1000) weight ≤ held b' * 1000 + Z.quot (used b' * 1000) weight).
Proof.
  cbn zeta. intros Hreq Hbounds Hw Hr. destruct (decision_state_counts s pool request now) as (Ha & _).
  split; [by apply Reserve_granted in Hr as (_ & _ & Hav & _)|].
  intros b' Hb' Hav'. revert Hr. unfold FairShare.Reserve. case_match; [done|]. rewrite Hreq.
  unfold decision_state, is_starving in *. destruct (isStarving _ _ _ _) as [starving s1]. cbn in *. intros Hr.
  set (tenant := normalizeTenant (ar_Tenant request)) in *.
  pose proof (reserve_ranked_spec s1 pool request now tenant starving) as Hspec. cbn zeta in Hspec.
  rewrite Hr in Hspec. destruct Hspec as (o & Ho & Hbo & _ & Hmin & _).
  set (start := (cursors s1).[pc_Name pool] mod Z.of_nat (length (fairShareCandidateBackends pool))) in *.
  apply elem_of_fairShareCandidates in Hb'.
  destruct (ring_offset _ start b' Hb') as (o' & Ho'%elem_of_seqZ & Hat).
  unfold ring_candidate in Hmin. specialize (Hmin o' ltac:(lia)). rewrite Hat in Hmin. specialize (Hmin Hav').
  revert Hmin. unfold candidate_score. rewrite Ha, !ensure_pool_read.
  pose proof (priorityClassWeight_pos (pc_FairShare pool) (ar_PriorityClass request)).
  rewrite !score_exact by (try apply Hbounds; lia). unfold score_value. lia.
Qed.
End Scores.

(** ** The usage-window log *)

Section Log.
Implicit Types (s : priorityFairShareState).

(** What pruning leaves of a pool's log: the entries inside its window; all
    of them when the pool has no window. *)
Definition pruned_log s (now : Time) (p : PoolName) : list tenantReservation :=
  match usageWindows s !! p with
  | None => (tenantLog s).[p]
  | Some window =>
      if window <=? 0 then []
      else filter (fun entry => in_window (TimeAdd now (- window)) entry = true) (tenantLog s).[p]
  end.

Definition prune_log_one (now : Time) (log : list tenantReservation) (window : Duration) : list tenantReservation :=
  if window <=? 0 then [] else filter (fun entry => in_window (TimeAdd now (- window)) entry = true) log.

Lemma prune_pool_log s now p w p' :
  (tenantLog (prune_pool now s (p, w))).[p'] =
    if decide (p = p') then prune_log_one now (tenantLog s).[p] w else (tenantLog s).[p'].
Proof.
  unfold prune_pool, prune_log_one. destruct (w <=? 0); cbn.
  - rewrite map_read_delete. by case_decide.
  - unfold pruneLog. case_match eqn:Hlen; [rewrite map_read_delete|rewrite map_read_insert]; case_decide; subst; try done.
    apply Nat.eqb_eq, nil_length_inv in Hlen. by rewrite Hlen.
Qed.

Lemma prune_fold_log now l : ∀ s p,
  NoDup l.*1 →
  (tenantLog (foldl (prune_pool now) s l)).[p] =
    match list_to_map (M := gmap PoolName Duration) l !! p with
    | Some w => prune_log_one now (tenantLog s).[p] w
    | None => (tenantLog s).[p]
    end.
Proof.
  induction l as [|[q w] l IH]; intros s p Hnd; [done|]. cbn [foldl]. inversion Hnd as [|? ? Hq Hnd']; subst.
  rewrite IH by done. rewrite prune_pool_log. cbn [list_to_map foldr]. cbn.
  destruct (decide (q = p)) as [->|Hne].
  - rewrite lookup_insert_eq. rewrite (not_elem_of_list_to_map_1 l p) by done. done.
  - rewrite lookup_insert_ne by done. done.
Qed.

(** The fair-share log stays within its window: pruning leaves in every pool, including those
    the current request does not touch, exactly the reservations made inside that pool's usage
    window, in order; pools without a window are left as they are; and the outcome does not
    depend on the order in which Go visits the pools. *)
Theorem prune_keeps_exactly_the_window (r : GoRange) s now p :
  (tenantLog (@pruneAllTenantLogs r s now)).[p] = pruned_log s now p.
Proof.
  unfold pruneAllTenantLogs. rewrite prune_fold_log by apply range_keys_NoDup.
  rewrite (list_to_map_proper (M := gmap PoolName) _ (map_to_list (usageWindows s))); [|apply range_keys_NoDup|apply range_perm].
  rewrite list_to_map_to_list. unfold pruned_log, prune_log_one. done.
Qed.
End Log.

(** ** Witnesses *)

#[local] Existing Instance range_forward.

(** One backend with two slots, one of them soft-reserved for high priority;
    tenants are limited to one reservation. *)
Definition fair_pool (starvation_after : Duration) : PoolConfig :=
  { zero_PoolConfig with pc_Name := "lite";
      pc_FairShare := {| fs_Enabled := true; fs_UsageWindow := 0; fs_StarvationAfter := starvation_after;
                         fs_PriorityClasses := ∅; fs_SoftReserves := {[ "high" := 1 ]};
                         fs_Quotas := {[ "acme" := 1 ]} |};
      pc_Backends := {[ "arc" := { zero_BackendConfig with bc_Enabled := true; bc_Healthy := true;
                                    bc_MaxRunners := 2 } ]} }.

Definition tenant_request (tenant : string) : AllocationRequest :=
  { zero_AllocationRequest with ar_Tenant := tenant }.

Lemma tenant_quota_is_never_exceeded_witness :
  let pool := fair_pool 0 in
  let s := (Scheduler.Reserve NewPriorityFairShare pool (tenant_request " Acme ") 0).2 in
  tenantTotal (pfs_state s) "lite" "acme" ≤ 1.
Proof.
  intros pool s. refine (proj1 (tenant_quota_is_never_exceeded (fun p => p = fair_pool 0) NewPriorityFairShare s "lite" "acme" 1 _ _ _)).
  - intros p -> _. reflexivity.
  - vm_compute. discriminate.
  - apply rtc_once, sched_reserve. reflexivity.
Defined.

Lemma soft_reserves_stay_free_witness :
  let s := (Scheduler.Reserve NewPriorityFairShare (fair_pool 0) (tenant_request "acme") 0).2 in
  Scheduler.Active s "lite" "arc" = 1 ∧ 1 + 1 ≤ EffectiveMaxRunners 2 (pc_FairShare (fair_pool 0)) "high".
Proof.
  intros s. split; [vm_compute; reflexivity|].
  refine (soft_reserves_stay_free (fair_pool 0) "high" 1 "arc" NewPriorityFairShare s _ _ _ _ _ _).
  - reflexivity.
  - vm_compute. discriminate.
  - reflexivity.
  - vm_compute. split; discriminate.
  - apply rtc_once, lane_reserve. intros _. split; [reflexivity|vm_compute; reflexivity].
  - vm_compute. discriminate.
Defined.

Lemma soft_reserve_denials_end_witness : 60 - 10 < fs_StarvationAfter (pc_FairShare (fair_pool 100)).
Proof.
  set (pool := fair_pool 100).
  pose (s0 := (FairShare.Reserve newPriorityFairShareState pool (tenant_request "a") 0).2).
  pose (s1 := (FairShare.Reserve s0 pool (tenant_request "b") 10).2).
  pose (s2 := (FairShare.Reserve s1 pool (tenant_request "b") 60).2).
  apply (soft_reserve_denials_end pool (tenant_request "b") s2); [vm_compute; reflexivity|vm_compute; discriminate|].
  apply (denied_again _ _ s1 s2 10 10 60); [|vm_compute; discriminate|split; vm_compute; reflexivity].
  apply (denied_first _ _ s0 10 s1); [vm_compute; discriminate|split; vm_compute; reflexivity].
Defined.

Lemma fair_share_takes_least_score_witness :
  candidate_available (decision_state newPriorityFairShareState (fair_pool 0) zero_AllocationRequest 0) (fair_pool 0) ""
    (is_starving newPriorityFairShareState (fair_pool 0) zero_AllocationRequest 0) "arc" = true.
Proof.
  refine (proj1 (fair_share_takes_least_score newPriorityFairShareState (fair_pool 0) zero_AllocationRequest 0 "arc"
    (FairShare.Reserve newPriorityFairShareState (fair_pool 0) zero_AllocationRequest 0).2 _ _ _ _)).
  - reflexivity.
  - intros b. unfold tenantUsage. vm_compute. repeat split; discriminate.
  - vm_compute. reflexivity.
  - vm_compute. reflexivity.
Defined.
