(* ===== verification/Registry.v ===== *)
(** The scheduler registry: src/internal/scheduler/registry.go.

    A registry built by NewRegistry holds one instance of each scheduler; a
    pool selects one by name.  [Registry] is that non-nil registry. *)

From S2P Require Import Prelude Errors Model Budget Scheduler SchedulerTheory FairShare FairShareTheory.

Record Registry := {
  roundRobin : RoundRobin;
  weightedRoundRobin : WeightedRoundRobin;
  priorityFairShare : PriorityFairShare;
}.

Definition NewRegistry : Registry :=
  {| roundRobin := NewRoundRobin; weightedRoundRobin := NewWeightedRoundRobin;
     priorityFairShare := NewPriorityFairShare |}.

(** Which instance a call goes to. *)
Inductive scheduler_kind := KindRoundRobin | KindWeightedRoundRobin | KindPriorityFairShare.

#[export] Instance scheduler_kind_eq_dec : EqDecision scheduler_kind.
Proof. solve_decision. Defined.

(** The [schedulers] map. *)
Definition schedulers : list (string * scheduler_kind) :=
  [(NameRoundRobin, KindRoundRobin); (NameWeightedRoundRobin, KindWeightedRoundRobin);
   (NamePriorityFairShare, KindPriorityFairShare)].

Fixpoint find_scheduler (name : string) (l : list (string * scheduler_kind)) : option scheduler_kind :=
  match l with
  | [] => None
  | (n, k) :: l => if String.eqb n name then Some k else find_scheduler name l
  end.

Definition ForName (name : string) : scheduler_kind :=
  match find_scheduler (normalizeSchedulerName name) schedulers with
  | Some k => k
  | None => KindRoundRobin
  end.

Definition ForPool (pool : PoolConfig) : scheduler_kind := ForName (pc_Scheduler pool).

Definition ValidateName (name : string) : option error :=
  let normalized := normalizeSchedulerName name in
  if String.eqb normalized "" then None
  else match find_scheduler normalized schedulers with
       | Some _ => None
       | None => Some (Errorf ("unknown scheduler " +:+ quote name))
       end.

Lemma active_after_reserve {S} `{SchedulerLedger S} (s : S) pool request now p b' :
  Active (Reserve s pool request now).2 p b' =
    Active s p b' + match (Reserve s pool request now).1 with
                    | Ok b => if decide (pc_Name pool = p ∧ b = b') then 1 else 0
                    | Fail _ => 0
                    end.
Proof.
  destruct (Reserve s pool request now) as [[b|e] s'] eqn:Hr; cbn [fst snd].
  - by rewrite (active_after_grant _ _ _ _ _ _ p b' Hr).
  - rewrite (active_after_refusal _ _ _ _ _ _ p b' Hr). lia.
Qed.

(** Calls on the scheduler a pool selects. *)
Section Dispatch.
Context `{GoRange}.

Definition Registry_Reserve (r : Registry) (pool : PoolConfig) (request : AllocationRequest) (now : Time) :
    result BackendName * Registry :=
  match ForPool pool with
  | KindRoundRobin => let '(res, s) := Reserve (roundRobin r) pool request now in (res, { r with roundRobin := s })
  | KindWeightedRoundRobin =>
      let '(res, s) := Reserve (weightedRoundRobin r) pool request now in (res, { r with weightedRoundRobin := s })
  | KindPriorityFairShare =>
      let '(res, s) := Reserve (priorityFairShare r) pool request now in (res, { r with priorityFairShare := s })
  end.

Definition Registry_Release (r : Registry) (pool : PoolConfig) (backend : BackendName)
    (allocation : AllocationStatus) (now : Time) : Registry :=
  match ForPool pool with
  | KindRoundRobin => { r with roundRobin := Release (roundRobin r) (pc_Name pool) backend allocation now }
  | KindWeightedRoundRobin =>
      { r with weightedRoundRobin := Release (weightedRoundRobin r) (pc_Name pool) backend allocation now }
  | KindPriorityFairShare =>
      { r with priorityFairShare := Release (priorityFairShare r) (pc_Name pool) backend allocation now }
  end.

Definition Registry_Active (r : Registry) (pool : PoolConfig) (backend : BackendName) : Z :=
  match ForPool pool with
  | KindRoundRobin => Active (roundRobin r) (pc_Name pool) backend
  | KindWeightedRoundRobin => Active (weightedRoundRobin r) (pc_Name pool) backend
  | KindPriorityFairShare => Active (priorityFairShare r) (pc_Name pool) backend
  end.

(** The count of the instance of a kind. *)
Definition kind_active (r : Registry) (k : scheduler_kind) (p : PoolName) (b : BackendName) : Z :=
  match k with
  | KindRoundRobin => Active (roundRobin r) p b
  | KindWeightedRoundRobin => Active (weightedRoundRobin r) p b
  | KindPriorityFairShare => Active (priorityFairShare r) p b
  end.

Lemma Registry_Active_kind r pool b : Registry_Active r pool b = kind_active r (ForPool pool) (pc_Name pool) b.
Proof. unfold Registry_Active, kind_active. by destruct (ForPool pool). Qed.

(** Case analysis on the instance read, after the call on one instance. *)
Ltac kind_cases k :=
  unfold tset, set; destruct k;
  cbn [kind_active roundRobin weightedRoundRobin priorityFairShare gafu_field_updater RecordSettersUsingExistingGetters.const];
  repeat case_decide; try lia; exfalso; naive_solver.

Lemma Registry_Reserve_counts r pool request now k p b' :
  kind_active (Registry_Reserve r pool request now).2 k p b' =
    kind_active r k p b' +
      match (Registry_Reserve r pool request now).1 with
      | Ok b => if decide (k = ForPool pool ∧ pc_Name pool = p ∧ b = b') then 1 else 0
      | Fail _ => 0
      end.
Proof.
  unfold Registry_Reserve. destruct (ForPool pool) eqn:Hk.
  - pose proof (active_after_reserve (roundRobin r) pool request now p b') as Ha.
    destruct (Reserve (roundRobin r) pool request now) as [[b|e] s]; cbn [fst snd] in *; kind_cases k.
  - pose proof (active_after_reserve (weightedRoundRobin r) pool request now p b') as Ha.
    destruct (Reserve (weightedRoundRobin r) pool request now) as [[b|e] s]; cbn [fst snd] in *; kind_cases k.
  - pose proof (active_after_reserve (priorityFairShare r) pool request now p b') as Ha.
    destruct (Reserve (priorityFairShare r) pool request now) as [[b|e] s]; cbn [fst snd] in *; kind_cases k.
Qed.

Lemma Registry_Release_counts r pool b allocation now k p b' :
  kind_active (Registry_Release r pool b allocation now) k p b' =
    kind_active r k p b' -
      (if decide (k = ForPool pool ∧ pc_Name pool = p ∧ b = b')
       then (if 0 <? kind_active r k p b' then 1 else 0) else 0).
Proof.
  unfold Registry_Release. destruct (ForPool pool) eqn:Hk.
  - pose proof (active_after_release (roundRobin r) (pc_Name pool) b allocation now p b') as Ha.
    destruct (decide (pc_Name pool = p ∧ b = b')) as [[-> ->]|]; kind_cases k.
  - pose proof (active_after_release (weightedRoundRobin r) (pc_Name pool) b allocation now p b') as Ha.
    destruct (decide (pc_Name pool = p ∧ b = b')) as [[-> ->]|]; kind_cases k.
  - pose proof (active_after_release (priorityFairShare r) (pc_Name pool) b allocation now p b') as Ha.
    destruct (decide (pc_Name pool = p ∧ b = b')) as [[-> ->]|]; kind_cases k.
Qed.

(** A release gives back exactly what its reservation took: releasing a reservation the
    registry granted, through the same pool configuration, restores every count of every
    scheduler, whatever the clocks read; and a name that ValidateName accepts selects the
    scheduler of that name, up to case and surrounding spaces (round robin for a blank name). *)
Theorem registry_release_undoes_reserve r pool request now b r' allocation now' :
  (∀ k p b', 0 ≤ kind_active r k p b') →
  Registry_Reserve r pool request now = (Ok b, r') →
  (∀ k p b', kind_active (Registry_Release r' pool b allocation now') k p b' = kind_active r k p b') ∧
  Registry_Active r' pool b = Registry_Active r pool b + 1 ∧
  (ValidateName (pc_Scheduler pool) = None →
   find_scheduler (normalizeSchedulerName (pc_Scheduler pool)) schedulers = Some (ForPool pool) ∨
   (normalizeSchedulerName (pc_Scheduler pool) = "" ∧ ForPool pool = KindRoundRobin)).
Proof.
  intros Hn Hr. pose proof (Registry_Reserve_counts r pool request now) as Hc. rewrite Hr in Hc. cbn [fst snd] in Hc.
  split_and!.
  - intros k p b'. rewrite Registry_Release_counts, Hc. specialize (Hn k p b').
    case_decide; repeat case_match; reflect_bools; lia.
  - rewrite !Registry_Active_kind, Hc. rewrite decide_True by done. done.
  - unfold ValidateName, ForPool, ForName. destruct (String.eqb_spec (normalizeSchedulerName (pc_Scheduler pool)) "") as [He|He].
    + intros _. right. split; [done|]. by rewrite He.
    + destruct (find_scheduler _ _) as [k|]; [|done]. by left.
Qed.
End Dispatch.

#[local] Existing Instance range_forward.

Lemma registry_release_undoes_reserve_witness :
  let r' := (Registry_Reserve NewRegistry example_pool zero_AllocationRequest 0).2 in
  Registry_Active r' example_pool "arc" = 1.
Proof.
  intros r'.
  refine (proj1 (proj2 (registry_release_undoes_reserve NewRegistry example_pool zero_AllocationRequest 0 "arc" r'
    zero_AllocationStatus 0 _ _))).
  - intros [] p b; vm_compute; discriminate.
  - vm_compute. reflexivity.
Defined.
