(* ===== verification/Backends.v ===== *)
(** Package backend: src/internal/backend/backend.go and failure.go.

    Capacity counters and their JSON feed, failure reasons, capability tags and
    runner labels.  The provider drivers themselves are parameters of the
    service. *)

From S2P Require Import Prelude Errors Model.
From Stdlib Require Import OrdersEx.

(** ** Capacity counters *)

Record CapacityStatus := {
  cs_MaxRunners : Z;
  cs_ActiveRunners : Z;
  cs_PendingRunners : Z;
  cs_WarmRunners : Z;
  cs_NodeUnavailable : string;
}.

Definition zero_CapacityStatus : CapacityStatus := Build_CapacityStatus 0 0 0 0 "".

Definition used_slots (status : CapacityStatus) : Z :=
  wrap64 (cs_ActiveRunners status + cs_PendingRunners status + cs_WarmRunners status).

Definition FreeSlots (status : CapacityStatus) : Z :=
  let free := wrap64 (cs_MaxRunners status - used_slots status) in
  if free <? 0 then 0 else free.

Record CapacityJSON := {
  cj_MaxRunners : Z;
  cj_ActiveRunners : Z;
  cj_PendingRunners : Z;
  cj_WarmRunners : Z;
  cj_FreeSlots : option Z;
}.

Definition CapacityStatusFromJSON (payload : CapacityJSON) : CapacityStatus :=
  let status :=
    {| cs_MaxRunners := cj_MaxRunners payload; cs_ActiveRunners := cj_ActiveRunners payload;
       cs_PendingRunners := cj_PendingRunners payload; cs_WarmRunners := cj_WarmRunners payload;
       cs_NodeUnavailable := "" |} in
  match cj_FreeSlots payload with
  | None => status
  | Some free =>
      let free := if free <? 0 then 0 else free in
      let reconstructed := wrap64 (free + used_slots status) in
      if cs_MaxRunners status <=? 0 then { status with cs_MaxRunners := reconstructed }
      else if reconstructed <? cs_MaxRunners status then { status with cs_MaxRunners := reconstructed }
      else status
  end.

(** ** Errors *)

Definition IsCapacityExhausted (err : option error) : bool :=
  match err with
  | None => false
  | Some err =>
      match errors_As_Provider err with
      | Some exhausted => exhausted || errors_Is err ErrBackendCapacityExhausted
      | None => errors_Is err ErrBackendCapacityExhausted
      end
  end.

Definition FailureReasonTimeout : string := "timeout".
Definition FailureReasonTransport : string := "transport-error".
Definition FailureReasonThrottled : string := "throttled".
Definition FailureReasonServerError : string := "server-error".
Definition FailureReasonWaitTimeout : string := "wait-timeout".
Definition FailureReasonProbeFailed : string := "probe-failed".

Definition one_of (value : string) (values : list string) : bool := existsb (String.eqb value) values.

Definition NormalizeFailureReason (value : string) : string :=
  let value := ToLower (TrimSpace value) in
  if one_of value [FailureReasonTimeout; FailureReasonTransport; FailureReasonThrottled;
                   FailureReasonServerError; FailureReasonWaitTimeout; FailureReasonProbeFailed] then value
  else if one_of value ["deadline"; "deadline-exceeded"; "context-deadline-exceeded"] then FailureReasonTimeout
  else if one_of value ["rate-limit"; "rate-limited"; "too-many-requests"] then FailureReasonThrottled
  else if one_of value ["wait"; "expired"; "allocation-expired"] then FailureReasonWaitTimeout
  else value.

(** [NewClassifiedError] with a non-nil cause. *)
Definition NewClassifiedError (reason : string) (err : error) : error :=
  let reason := NormalizeFailureReason reason in
  if String.eqb reason "" then err else ClassifiedError reason err.

(** [None] is [("", false)]. *)
Definition FailureReason (err : error) : option string :=
  match errors_As_Classified err with
  | Some reason =>
      let reason := NormalizeFailureReason reason in
      if String.eqb reason "" then None else Some reason
  | None => None
  end.

(** ** Labels and capabilities *)

Fixpoint remove_char (c : ascii) (s : string) : string :=
  match s with
  | EmptyString => EmptyString
  | String d s => if Ascii.eqb d c then remove_char c s else String d (remove_char c s)
  end.

Definition DefaultRunnerLabel (name : BackendName) (allocationID : string) : string :=
  "uecb-" +:+ remove_char (ascii_of_nat 45) name +:+ "-" +:+ allocationID.

Definition MetadataCapabilitiesKey : string := "capabilities".

Definition platformCapabilityAliases : list (string * string) :=
  [("linux", "os:linux"); ("windows", "os:windows"); ("macos", "os:macos"); ("darwin", "os:macos");
   ("amd64", "arch:amd64"); ("x64", "arch:amd64"); ("x86_64", "arch:amd64");
   ("arm64", "arch:arm64"); ("aarch64", "arch:arm64")].

Fixpoint alias_of (capability : string) (aliases : list (string * string)) : option string :=
  match aliases with
  | [] => None
  | (k, v) :: aliases => if String.eqb k capability then Some v else alias_of capability aliases
  end.

Definition CanonicalCapability (value : string) : string :=
  let capability := ToLower (TrimSpace value) in
  if String.eqb capability "" then ""
  else default capability (alias_of capability platformCapabilityAliases).

(** The loop of [NormalizeCapabilities]: the entries appended so far, in order,
    which are also the ones seen. *)
Definition add_capability (normalized : list string) (value : string) : list string :=
  let capability := CanonicalCapability value in
  if String.eqb capability "" || one_of capability normalized then normalized
  else normalized ++ [capability].

Definition NormalizeCapabilities (values : list string) : list string :=
  sort_stable string_ltb (foldl add_capability [] values).

Definition CapabilitySet (values : list string) : gset string :=
  list_to_set (NormalizeCapabilities values).

Definition WithCapabilitiesMetadata (cfg : BackendConfig) (metadata : gmap string string) : gmap string string :=
  let capabilities := NormalizeCapabilities (bc_Capabilities cfg) in
  if (length capabilities =? 0)%nat then delete MetadataCapabilitiesKey metadata
  else <[MetadataCapabilitiesKey := Join capabilities ","]> metadata.

(** ** Facts *)

Lemma one_of_elem value values : one_of value values = true ↔ value ∈ values.
Proof.
  unfold one_of. rewrite existsb_exists. split.
  - intros (x & Hx & Heq). apply String.eqb_eq in Heq as ->. by apply list_elem_of_In.
  - intros Hv. exists value. split; [by apply list_elem_of_In|apply String.eqb_refl].
Qed.

Lemma NormalizeFailureReason_idem value :
  NormalizeFailureReason (NormalizeFailureReason value) = NormalizeFailureReason value.
Proof.
  assert (Hid : ∀ v, ToLower (TrimSpace v) = v → NormalizeFailureReason (NormalizeFailureReason v) = NormalizeFailureReason v).
  { intros v Hv. unfold NormalizeFailureReason at 2 3. rewrite Hv.
    destruct (one_of v [FailureReasonTimeout; _; _; _; _; _]) eqn:H1; [unfold NormalizeFailureReason; by rewrite Hv, H1|].
    destruct (one_of v ["deadline"; _; _]) eqn:H2; [reflexivity|]. destruct (one_of v ["rate-limit"; _; _]) eqn:H3; [reflexivity|].
    destruct (one_of v ["wait"; _; _]) eqn:H4; [reflexivity|]. unfold NormalizeFailureReason. by rewrite Hv, H1, H2, H3, H4. }
  assert (Hn : ToLower (TrimSpace (ToLower (TrimSpace value))) = ToLower (TrimSpace value))
    by (by rewrite TrimSpace_ToLower, ToLower_idem, TrimSpace_idem).
  assert (Heq : NormalizeFailureReason (ToLower (TrimSpace value)) = NormalizeFailureReason value)
    by (unfold NormalizeFailureReason; by rewrite Hn).
  specialize (Hid _ Hn). by rewrite Heq in Hid.
Qed.

Lemma string_ltb_asym s t : string_ltb s t = true → string_ltb t s = false.
Proof. unfold string_ltb. rewrite (String.compare_antisym t s). by destruct (String.compare s t). Qed.

Lemma string_compare_OT s t : String.compare s t = String_as_OT.compare s t.
Proof. revert t. induction s as [|c s IH]; intros [|d t]; cbn; try done. Qed.

Lemma string_ltb_lt s t : string_ltb s t = true ↔ String_as_OT.lt s t.
Proof. unfold string_ltb, String_as_OT.lt. rewrite string_compare_OT. by destruct (String_as_OT.compare s t). Qed.

Lemma string_ltb_neg_trans s t u : string_ltb t s = false → string_ltb u t = false → string_ltb u s = false.
Proof.
  intros Hts Hut. destruct (string_ltb u s) eqn:Hus; [|done]. apply string_ltb_lt in Hus.
  destruct (String_as_OT.compare_spec s t) as [->|Hst|Hst].
  - apply string_ltb_lt in Hus. congruence.
  - assert (Hut' : String_as_OT.lt u t) by (by etrans). apply string_ltb_lt in Hut'. congruence.
  - apply string_ltb_lt in Hst. congruence.
Qed.

Lemma string_ltb_total s t : string_ltb s t = false → string_ltb t s = false → s = t.
Proof.
  unfold string_ltb. rewrite (String.compare_antisym t s). destruct (String.compare s t) eqn:Hc; try done.
  intros _ _. by apply String.compare_eq_iff.
Qed.

Lemma alias_canonical c v : alias_of c platformCapabilityAliases = Some v → CanonicalCapability v = v ∧ v ≠ "".
Proof.
  unfold platformCapabilityAliases. cbn [alias_of].
  repeat (destruct (String.eqb _ c); [intros [= <-]; split; [vm_compute; reflexivity|discriminate]|]). done.
Qed.

Lemma CanonicalCapability_idem v : CanonicalCapability (CanonicalCapability v) = CanonicalCapability v.
Proof.
  unfold CanonicalCapability at 2 3. destruct (String.eqb_spec (ToLower (TrimSpace v)) ""); [done|].
  destruct (alias_of (ToLower (TrimSpace v)) platformCapabilityAliases) as [c|] eqn:Ha; cbn [default from_option].
  - by apply (alias_canonical _ _ Ha).
  - unfold id, CanonicalCapability. rewrite TrimSpace_ToLower, ToLower_idem, TrimSpace_idem.
    destruct (String.eqb_spec (ToLower (TrimSpace v)) ""); [done|]. by rewrite Ha.
Qed.

Lemma add_capability_spec l v c :
  c ∈ add_capability l v ↔ c ∈ l ∨ (c = CanonicalCapability v ∧ c ≠ "").
Proof.
  unfold add_capability. destruct (String.eqb_spec (CanonicalCapability v) "") as [He|He]; cbn.
  - naive_solver.
  - destruct (one_of _ _) eqn:Ho.
    + apply one_of_elem in Ho. naive_solver.
    + rewrite elem_of_app, list_elem_of_singleton. naive_solver.
Qed.

Lemma add_capability_NoDup l v : NoDup l → NoDup (add_capability l v).
Proof.
  intros Hl. unfold add_capability. destruct (String.eqb _ _); [done|]. cbn. destruct (one_of _ _) eqn:Ho; [done|].
  apply NoDup_app. split_and!; [done| |apply NoDup_singleton]. intros x Hx Hx'%list_elem_of_singleton. subst x.
  apply one_of_elem in Hx. congruence.
Qed.

Lemma fold_capabilities values : ∀ l, NoDup l →
  NoDup (foldl add_capability l values) ∧
  ∀ c, c ∈ foldl add_capability l values ↔ c ∈ l ∨ (c ≠ "" ∧ ∃ v, v ∈ values ∧ CanonicalCapability v = c).
Proof.
  induction values as [|v values IH]; intros l Hl; cbn [foldl].
  - split; [done|]. intros c. rewrite <- (or_False (c ∈ l)) at 1. apply or_iff_compat_l. split; [done|].
    intros (_ & v & Hv & _). by apply elem_of_nil in Hv.
  - destruct (IH (add_capability l v) (add_capability_NoDup l v Hl)) as [Hnd Hin]. split; [done|].
    intros c. rewrite Hin, add_capability_spec. setoid_rewrite elem_of_cons. naive_solver.
Qed.

Lemma elem_of_NormalizeCapabilities values c :
  c ∈ NormalizeCapabilities values ↔ c ≠ "" ∧ ∃ v, v ∈ values ∧ CanonicalCapability v = c.
Proof.
  unfold NormalizeCapabilities. rewrite (sort_stable_perm string_ltb).
  rewrite (proj2 (fold_capabilities values [] (NoDup_nil_2 ))). rewrite elem_of_nil. naive_solver.
Qed.

(** Capability tags have one normal form: NormalizeCapabilities returns exactly the canonical
    forms of the non-blank tags, sorted and without duplicates; so it is idempotent, and two
    lists with the same tags in any order, case or spelling normalise to the same list. *)
Theorem capabilities_normal_form values :
  (∀ c, c ∈ NormalizeCapabilities values ↔ c ≠ "" ∧ ∃ v, v ∈ values ∧ CanonicalCapability v = c) ∧
  NoDup (NormalizeCapabilities values) ∧
  StronglySorted (not_inverted string_ltb) (NormalizeCapabilities values) ∧
  NormalizeCapabilities (NormalizeCapabilities values) = NormalizeCapabilities values ∧
  (∀ values', (∀ c, c ≠ "" → (∃ v, v ∈ values ∧ CanonicalCapability v = c) ↔ (∃ v, v ∈ values' ∧ CanonicalCapability v = c)) →
     NormalizeCapabilities values' = NormalizeCapabilities values).
Proof.
  pose proof elem_of_NormalizeCapabilities as Helem.
  assert (Hext : ∀ vs vs', (∀ c, c ≠ "" → (∃ v, v ∈ vs ∧ CanonicalCapability v = c) ↔ (∃ v, v ∈ vs' ∧ CanonicalCapability v = c)) →
     NormalizeCapabilities vs' = NormalizeCapabilities vs).
  { intros vs vs' Hsame. unfold NormalizeCapabilities.
    apply (sort_stable_unique string_ltb string_ltb_asym string_ltb_neg_trans).
    - intros x y _ _. apply string_ltb_total.
    - apply NoDup_Permutation; [apply fold_capabilities, NoDup_nil_2..|]. intros c.
      rewrite !(proj2 (fold_capabilities _ [] NoDup_nil_2)), elem_of_nil. naive_solver. }
  split_and!; [apply Helem| | | |apply Hext].
  - unfold NormalizeCapabilities. rewrite (sort_stable_perm string_ltb). apply fold_capabilities, NoDup_nil_2.
  - apply sort_stable_sorted; [apply string_ltb_asym|apply string_ltb_neg_trans].
  - apply Hext. intros c Hc. setoid_rewrite Helem. split.
    + intros (v & Hv & Hcan). exists c. split; [by split; [|exists v]|]. rewrite <- Hcan. apply CanonicalCapability_idem.
    + intros (v & (Hv & v' & Hv' & Hcan') & Hcan). exists v'. split; [done|]. rewrite <- Hcan, <- Hcan'.
      by rewrite CanonicalCapability_idem.
Qed.

Lemma FreeSlots_nonneg status : 0 ≤ FreeSlots status.
Proof. unfold FreeSlots. case_match; reflect_bools; lia. Qed.

(** A capacity feed is never read as more room than it publishes: when no sum leaves 64 bits,
    the free slots of the status are at most the published free_slots, and equal to them when
    max_runners is absent or leaves room for them; without free_slots the counters decide. *)
Theorem capacity_feed_honours_free_slots payload :
  let used := cj_ActiveRunners payload + cj_PendingRunners payload + cj_WarmRunners payload in
  let published := Z.max 0 (default 0 (cj_FreeSlots payload)) in
  let status := CapacityStatusFromJSON payload in
  in_int64 used → in_int64 published → in_int64 (published + used) → in_int64 (cj_MaxRunners payload - used) →
  match cj_FreeSlots payload with
  | Some _ =>
      FreeSlots status ≤ published ∧
      (cj_MaxRunners payload ≤ 0 ∨ published + used ≤ cj_MaxRunners payload → FreeSlots status = published)
  | None => FreeSlots status = Z.max 0 (cj_MaxRunners payload - used)
  end.
Proof.
  cbn zeta. intros Hused Hpub Hsum Hdiff. unfold CapacityStatusFromJSON.
  destruct (cj_FreeSlots payload) as [free|]; cbn [default from_option] in *; unfold FreeSlots, used_slots; cbn.
  - set (used := cj_ActiveRunners payload + cj_PendingRunners payload + cj_WarmRunners payload) in *.
    rewrite (wrap64_id used) by done. unfold id in *.
    replace (if free <? 0 then 0 else free) with (0 `max` free) by (case_match; reflect_bools; lia).
    set (p := 0 `max` free) in *. assert (0 ≤ p) by lia. rewrite (wrap64_id (p + used)) by done.
    assert (Hp : in_int64 (p + used - used)) by
      (replace (p + used - used) with p by lia; done).
    destruct (Z.leb_spec (cj_MaxRunners payload) 0), (Z.ltb_spec (p + used) (cj_MaxRunners payload)); cbn; fold used;
      rewrite (wrap64_id used), wrap64_id by done; case_match; reflect_bools; split; lia.
  - rewrite (wrap64_id (cj_ActiveRunners payload + _ + _)) by done. rewrite wrap64_id by done.
    case_match; reflect_bools; lia.
Qed.

Lemma capacity_feed_honours_free_slots_witness :
  FreeSlots (CapacityStatusFromJSON (Build_CapacityJSON 10 2 1 0 (Some 3))) ≤ 3.
Proof.
  refine (proj1 (capacity_feed_honours_free_slots (Build_CapacityJSON 10 2 1 0 (Some 3)) _ _ _ _));
    vm_compute; split; discriminate.
Defined.
