(* ===== verification/Capacity.v ===== *)
(** Live provider capacity: src/internal/capacity/manager.go and refresh.go.

    The manager is a map of snapshots; a refresh polls every enabled backend
    once through a reporter, which is a parameter. *)

From S2P Require Import Prelude Errors Model Backends.

Record Snapshot := {
  sn_Backend : BackendName;
  sn_Status : CapacityStatus;
  sn_UpdatedAt : Time;
  sn_Stale : bool;
  sn_Err : string;
  sn_Source : string;
}.

Definition zero_Snapshot : Snapshot := Build_Snapshot "" zero_CapacityStatus 0 false "" "".

(** [Manager]: the [snapshots] map. *)
Abbreviation Manager := (gmap BackendName Snapshot) (only parsing).

Definition NewManager : Manager := ∅.

Definition Manager_Set (m : Manager) (snapshot : Snapshot) : Manager :=
  let snapshot :=
    if String.eqb (sn_Source snapshot) "" then
      { snapshot with sn_Source := if String.eqb (sn_Err snapshot) "" then "live" else "error" }
    else snapshot in
  <[sn_Backend snapshot := snapshot]> m.

Definition Manager_Get (m : Manager) (name : BackendName) : option Snapshot := m !! name.

Definition mark_stale (staleAfter : Duration) (now : Time) (snapshot : Snapshot) : Snapshot :=
  if IsZero (sn_UpdatedAt snapshot) || (staleAfter <? TimeSub now (sn_UpdatedAt snapshot))
  then { snapshot with sn_Stale := true } else snapshot.

Definition MarkStale (m : Manager) (staleAfter : Duration) (now : Time) : Manager :=
  if staleAfter <=? 0 then m else mark_stale staleAfter now <$> m.

Definition FailureModePassThrough : string := "pass-through".
Definition FailureModeBlock : string := "block".

Definition normalizeFailureMode (mode : string) : string :=
  if one_of mode [FailureModeBlock; "block-stale"; "fail-closed"] then FailureModeBlock
  else FailureModePassThrough.

Definition staleBlockReason (snap : Snapshot) : string :=
  if negb (String.eqb (sn_Err snap) "") || String.eqb (sn_Source snap) "error" then "capacity-error"
  else if cs_MaxRunners (sn_Status snap) <=? 0 then "capacity-invalid"
  else "capacity-stale".

Definition stale_or_error (snap : Snapshot) : bool :=
  sn_Stale snap || negb (String.eqb (sn_Err snap) "") || String.eqb (sn_Source snap) "error" ||
  (cs_MaxRunners (sn_Status snap) <=? 0).

(** The results [max], [available] and [reason]; [snap] is [None] when
    [hasSnapshot] is false. *)
Definition EffectiveMaxRunners (cfgMax localActive : Z) (snap : option Snapshot) (failureMode : string) :
    Z * bool * string :=
  if cfgMax <=? 0 then (0, false, "disabled")
  else if (if snap is Some snap then negb (String.eqb (cs_NodeUnavailable (sn_Status snap)) "") else false)
  then (0, false, "node-unavailable")
  else if cfgMax <=? localActive then (cfgMax, false, "local-full")
  else match snap with
  | None => (cfgMax, true, "no-live-data")
  | Some snap =>
      if stale_or_error snap then
        if String.eqb (normalizeFailureMode failureMode) FailureModeBlock
        then (cfgMax, false, staleBlockReason snap)
        else (cfgMax, true, "stale-pass-through")
      else
        let status := sn_Status snap in
        let free := FreeSlots status in
        let ceiling :=
          if (0 <? cs_MaxRunners status) && (cs_MaxRunners status <? cfgMax)
          then cs_MaxRunners status else cfgMax in
        if ceiling <=? localActive then (ceiling, false, "provider-ceiling")
        else if free <=? 0 then (ceiling, false, "provider-full")
        else
          let remaining := ceiling - localActive in
          let remaining := if free <? remaining then free else remaining in
          (localActive + remaining, true, "live")
  end.

(** ** Refresh *)

(** [Reporter] and [CapacityBackend.Capacity]: [None] when the backend does not
    report capacity. *)
Definition Reporter : Type := BackendName → option (result CapacityStatus).

Section Refresh.
Context `{GoRange} (reporter : Reporter) (now : Time).

Definition refreshed (m : Manager) (name : BackendName) (polled : result CapacityStatus) : Snapshot :=
  let snapshot := { zero_Snapshot with sn_Backend := name; sn_UpdatedAt := now } in
  match polled with
  | Fail err =>
      let snapshot := { snapshot with sn_Err := Error err; sn_Source := "error" } in
      match Manager_Get m name with
      | Some previous =>
          if String.eqb (sn_Err previous) "" then { snapshot with sn_Status := sn_Status previous } else snapshot
      | None => snapshot
      end
  | Ok status => { snapshot with sn_Status := status; sn_Source := "live" }
  end.

Definition refresh_backend (acc : Manager * gset BackendName) (entry : BackendName * BackendConfig) :
    Manager * gset BackendName :=
  let '(m, seen) := acc in
  let '(name, cfg) := entry in
  if negb (bc_Enabled cfg) then acc
  else if bool_decide (name ∈ seen) then acc
  else
    let seen := {[ name ]} ∪ seen in
    match reporter name with
    | None => (m, seen)
    | Some polled => (Manager_Set m (refreshed m name polled), seen)
    end.

Definition Refresh (m : Manager) (pools : list PoolConfig) : Manager :=
  (foldl (fun acc pool => foldl refresh_backend acc (range (pc_Backends pool))) (m, ∅) pools).1.
End Refresh.

(** [jitter], with the random number it draws from [0, maxJitter). *)
Definition jitter (interval : Duration) (random : Z → Z) : Duration :=
  if interval <=? Second then interval
  else
    let maxJitter := Z.quot interval 10 in
    if maxJitter <=? 0 then interval else interval + random maxJitter.

(** ** Theorems *)

(** The live ceiling is safe: whenever a backend is available for routing, its ceiling admits
    at least one more runner and no more than maxRunners; from fresh provider data it also
    admits no more than the provider's own limit and no more new runners than the provider has
    free slots; and a node known to be down, a full backend, or stale or failed data under the
    blocking policy is never available. *)
Theorem live_ceiling_is_safe cfgMax localActive snap failureMode :
  let '(max, available, reason) := EffectiveMaxRunners cfgMax localActive snap failureMode in
  (available = true → localActive < max ≤ cfgMax) ∧
  (cfgMax ≤ localActive → available = false) ∧
  match snap with
  | None => available = true ↔ 0 < cfgMax ∧ localActive < cfgMax
  | Some snap =>
      (cs_NodeUnavailable (sn_Status snap) ≠ "" → available = false) ∧
      (stale_or_error snap = true → normalizeFailureMode failureMode = FailureModeBlock → available = false) ∧
      (stale_or_error snap = false → available = true →
         max ≤ cs_MaxRunners (sn_Status snap) ∧ max - localActive ≤ FreeSlots (sn_Status snap))
  end.
Proof.
  unfold EffectiveMaxRunners. pose proof (fun s => FreeSlots_nonneg (sn_Status s)) as Hfree.
  destruct (Z.leb_spec cfgMax 0); [destruct snap; split_and!; try done; naive_solver lia|].
  destruct snap as [snap|].
  - specialize (Hfree snap). destruct (String.eqb_spec (cs_NodeUnavailable (sn_Status snap)) "") as [Hn|Hn]; cbn; [|by split_and!].
    destruct (Z.leb_spec cfgMax localActive); [split_and!; try done; naive_solver lia|].
    destruct (stale_or_error snap) eqn:Hst.
    + destruct (String.eqb_spec (normalizeFailureMode failureMode) FailureModeBlock); split_and!; try done; lia.
    + assert (Hmax : 0 < cs_MaxRunners (sn_Status snap)) by (unfold stale_or_error in Hst; reflect_bools; lia).
      set (limit := cs_MaxRunners (sn_Status snap)) in *. set (free := FreeSlots (sn_Status snap)) in *.
      destruct (Z.ltb_spec 0 limit); [|lia]. cbn [andb].
      destruct (Z.ltb_spec limit cfgMax);
        match goal with |- context [?c <=? localActive] => destruct (Z.leb_spec c localActive) end;
        try (split_and!; try done; lia); destruct (Z.leb_spec free 0); try (split_and!; try done; lia);
        match goal with |- context [free <? ?r] => destruct (Z.ltb_spec free r) end; split_and!; try done; lia.
  - destruct (Z.leb_spec cfgMax localActive); split_and!; try done; naive_solver lia.
Qed.

Section RefreshTheory.
Context `{GoRange} (reporter : Reporter) (now : Time).

Lemma refreshed_Backend m name polled : sn_Backend (refreshed now m name polled) = name.
Proof. unfold refreshed. by repeat case_match. Qed.

Lemma refreshed_Source m name polled : sn_Source (refreshed now m name polled) ≠ "".
Proof. unfold refreshed. by repeat case_match. Qed.

Lemma refreshed_same m m' name polled : m !! name = m' !! name → refreshed now m name polled = refreshed now m' name polled.
Proof. unfold refreshed, Manager_Get. by intros ->. Qed.

(** The snapshot a refresh leaves for a backend. *)
Definition after_refresh (m : Manager) (enabled : bool) (name : BackendName) : option Snapshot :=
  if enabled then match reporter name with
                  | Some polled => Some (refreshed now m name polled)
                  | None => m !! name
                  end
  else m !! name.

Lemma Manager_Set_refreshed m name polled :
  Manager_Set m (refreshed now m name polled) = <[name := refreshed now m name polled]> m.
Proof.
  unfold Manager_Set. destruct (String.eqb_spec (sn_Source (refreshed now m name polled)) "") as [He|_].
  - by destruct (refreshed_Source m name polled).
  - by rewrite refreshed_Backend.
Qed.

(** The loop invariant: what was seen is refreshed, the rest is as before. *)
Definition refresh_inv (m0 : Manager) (acc : Manager * gset BackendName) : Prop :=
  ∀ name, acc.1 !! name = after_refresh m0 (bool_decide (name ∈ acc.2)) name.

Lemma refresh_backend_inv m0 acc entry :
  refresh_inv m0 acc → refresh_inv m0 (refresh_backend reporter now acc entry) ∧
  (refresh_backend reporter now acc entry).2 = (if bc_Enabled entry.2 then {[ entry.1 ]} else ∅) ∪ acc.2.
Proof.
  destruct acc as [m seen], entry as [name cfg]. intros Hinv. cbn.
  destruct (bc_Enabled cfg); cbn; [|split; [done|set_solver]].
  case_bool_decide as Hseen; [split; [done|set_solver]|].
  assert (Hm : m !! name = m0 !! name).
  { specialize (Hinv name). cbn in Hinv. rewrite bool_decide_eq_false_2 in Hinv by done. exact Hinv. }
  split; [|by case_match]. intros name'. destruct (reporter name) as [polled|] eqn:Hr; cbn.
  - rewrite Manager_Set_refreshed. destruct (decide (name = name')) as [<-|Hne].
    + rewrite lookup_insert_eq, bool_decide_eq_true_2 by set_solver. unfold after_refresh. rewrite Hr.
      by rewrite (refreshed_same m m0).
    + rewrite lookup_insert_ne by done. specialize (Hinv name'). cbn in Hinv. rewrite Hinv. f_equal. apply bool_decide_ext. set_solver.
  - specialize (Hinv name'). cbn in Hinv. rewrite Hinv. destruct (decide (name = name')) as [<-|Hne].
    + rewrite bool_decide_eq_false_2, bool_decide_eq_true_2 by set_solver. unfold after_refresh. by rewrite Hr.
    + f_equal. apply bool_decide_ext. set_solver.
Qed.

Lemma refresh_pool_inv m0 l : ∀ acc,
  refresh_inv m0 acc →
  let acc' := foldl (refresh_backend reporter now) acc l in
  refresh_inv m0 acc' ∧
  ∀ name, name ∈ acc'.2 ↔ name ∈ acc.2 ∨ ∃ cfg, (name, cfg) ∈ l ∧ bc_Enabled cfg = true.
Proof.
  induction l as [|[n c] l IH]; intros acc Hinv; cbn zeta; cbn [foldl].
  - split; [done|]. intros name. split; [by left|]. intros [?|(cfg & Hin & _)]; [done|by apply elem_of_nil in Hin].
  - destruct (refresh_backend_inv m0 acc (n, c) Hinv) as [Hinv' Hseen].
    destruct (IH _ Hinv') as [Hinv'' Hseen'']. split; [done|]. intros name.
    rewrite Hseen'', Hseen. cbn. setoid_rewrite elem_of_cons. rewrite elem_of_union. split.
    + intros [[Hn|Hacc]|(cfg & Hin & He)]; [|by left|right; exists cfg; by split; [right|]].
      destruct (bc_Enabled c) eqn:Hc; [|by apply elem_of_empty in Hn].
      apply elem_of_singleton in Hn as ->. right. exists c. by split; [left|].
    + intros [Hacc|(cfg & [[= -> ->]|Hin] & He)]; [by left; right| |right; by exists cfg].
      rewrite He. left. left. by apply elem_of_singleton.
Qed.

Lemma refresh_pools_inv m0 pools : ∀ acc,
  refresh_inv m0 acc →
  let acc' := foldl (fun acc pool => foldl (refresh_backend reporter now) acc (range (pc_Backends pool))) acc pools in
  refresh_inv m0 acc' ∧
  ∀ name, name ∈ acc'.2 ↔ name ∈ acc.2 ∨
    ∃ pool cfg, pool ∈ pools ∧ pc_Backends pool !! name = Some cfg ∧ bc_Enabled cfg = true.
Proof.
  induction pools as [|pool pools IH]; intros acc Hinv; cbn zeta; cbn [foldl].
  - split; [done|]. intros name. split; [by left|]. intros [?|(? & ? & Hin & _)]; [done|by apply elem_of_nil in Hin].
  - destruct (refresh_pool_inv m0 (range (pc_Backends pool)) acc Hinv) as [Hinv' Hseen].
    destruct (IH _ Hinv') as [Hinv'' Hseen'']. split; [done|]. intros name. rewrite Hseen'', Hseen.
    setoid_rewrite elem_of_range. setoid_rewrite elem_of_cons. naive_solver.
Qed.
End RefreshTheory.

(** Some pool enables the backend. *)
Definition enabled_somewhere (pools : list PoolConfig) (name : BackendName) : Prop :=
  ∃ pool cfg, pool ∈ pools ∧ pc_Backends pool !! name = Some cfg ∧ bc_Enabled cfg = true.

(** A refresh polls each backend that some pool enables once and leaves every other snapshot
    alone: afterwards the backend's snapshot is the fresh reading, or, when the poll failed, an
    error snapshot that keeps the last good counters; whatever the iteration order of pools. *)
Theorem refresh_updates_enabled_backends `{GoRange} reporter now m pools name :
  (enabled_somewhere pools name → Refresh reporter now m pools !! name = after_refresh reporter now m true name) ∧
  (¬ enabled_somewhere pools name → Refresh reporter now m pools !! name = m !! name).
Proof.
  destruct (refresh_pools_inv reporter now m pools (m, ∅)) as [Hinv Hseen]; [by intros n|].
  unfold Refresh. rewrite (Hinv name). specialize (Hseen name). cbn in Hseen |- *. split; intros He.
  - rewrite bool_decide_eq_true_2; [done|]. apply Hseen. by right.
  - rewrite bool_decide_eq_false_2; [done|]. intros [Hx|Hx]%Hseen; [set_solver|done].
Qed.

(** A node outage is forgotten after two failed polls: a backend whose last good reading said
    its node is down is kept out of routing after one failed refresh, but after a second one the
    reading is gone and, under pass-through, the backend is routed to its full maxRunners. *)
Theorem second_failed_refresh_forgets_node_outage now1 now2 m name snap err1 err2 cfgMax localActive :
  m !! name = Some snap → sn_Err snap = "" → cs_NodeUnavailable (sn_Status snap) ≠ "" →
  Error err1 ≠ "" → 0 < cfgMax → localActive < cfgMax →
  let m1 := Manager_Set m (refreshed now1 m name (Fail err1)) in
  let m2 := Manager_Set m1 (refreshed now2 m1 name (Fail err2)) in
  EffectiveMaxRunners cfgMax localActive (Manager_Get m1 name) FailureModePassThrough = (0, false, "node-unavailable") ∧
  EffectiveMaxRunners cfgMax localActive (Manager_Get m2 name) FailureModePassThrough = (cfgMax, true, "stale-pass-through").
Proof.
  intros Hm Herr Hnode Herr1 Hmax Hactive. cbn zeta.
  assert (Hr1 : refreshed now1 m name (Fail err1) =
    {| sn_Backend := name; sn_Status := sn_Status snap; sn_UpdatedAt := now1; sn_Stale := false;
       sn_Err := Error err1; sn_Source := "error" |}).
  { unfold refreshed, Manager_Get. rewrite Hm, Herr. reflexivity. }
  rewrite !Manager_Set_refreshed. unfold Manager_Get. rewrite !lookup_insert_eq. rewrite Hr1.
  set (m1 := <[name := _]> m).
  assert (Hr2 : refreshed now2 m1 name (Fail err2) =
    {| sn_Backend := name; sn_Status := zero_CapacityStatus; sn_UpdatedAt := now2; sn_Stale := false;
       sn_Err := Error err2; sn_Source := "error" |}).
  { unfold refreshed, Manager_Get, m1. rewrite lookup_insert_eq. cbn. by destruct (String.eqb_spec (Error err1) ""). }
  rewrite Hr2. unfold EffectiveMaxRunners. cbn. destruct (Z.leb_spec cfgMax 0); [lia|].
  destruct (Z.leb_spec cfgMax localActive); [lia|].
  destruct (String.eqb_spec (cs_NodeUnavailable (sn_Status snap)) ""); [done|]. cbn. split; [done|].
  unfold stale_or_error. cbn. by rewrite !orb_true_r.
Qed.

(** ** Witnesses *)

#[local] Existing Instance range_forward.

Definition down_node : Snapshot :=
  { zero_Snapshot with sn_Backend := "arc"; sn_UpdatedAt := 1; sn_Source := "live";
      sn_Status := { zero_CapacityStatus with cs_MaxRunners := 4; cs_NodeUnavailable := "NotReady" } }.

Lemma second_failed_refresh_forgets_node_outage_witness :
  EffectiveMaxRunners 4 0
    (Manager_Get (Manager_Set (Manager_Set {[ "arc" := down_node ]}
       (refreshed 2 {[ "arc" := down_node ]} "arc" (Fail (Errorf "timeout"))))
       (refreshed 3 (Manager_Set {[ "arc" := down_node ]}
          (refreshed 2 {[ "arc" := down_node ]} "arc" (Fail (Errorf "timeout")))) "arc" (Fail (Errorf "timeout")))) "arc")
    FailureModePassThrough = (4, true, "stale-pass-through").
Proof.
  refine (proj2 (second_failed_refresh_forgets_node_outage 2 3 {[ "arc" := down_node ]} "arc" down_node
    (Errorf "timeout") (Errorf "timeout") 4 0 _ _ _ _ _ _)); try reflexivity; vm_compute; discriminate.
Defined.
