(* ===== verification/Admission.v ===== *)
(** Backend admission: src/internal/api/backend_admission.go.

    Per pool/backend circuit breakers and rate limits, shared between replicas
    through the admission document of the store.  [backendAdmission] is the
    local state; the shared store (nil is [None]) is threaded beside it. *)

From S2P Require Import Prelude Errors Model Store Backends.

Definition circuitStateClosed : string := "closed".
Definition circuitStateOpen : string := "open".
Definition circuitStateHalfOpen : string := "half-open".

Definition defaultFailureThreshold : Z := 3.
Definition defaultEvaluationWindow : Duration := 5 * Minute.
Definition defaultOpenDuration : Duration := 2 * Minute.
Definition defaultProbeInterval : Duration := 30 * Second.
Definition defaultProbeTimeout : Duration := 10 * Second.
Definition defaultRecoverySuccessThreshold : Z := 1.
Definition defaultHalfOpenMaxRequests : Z := 1.

Abbreviation backendAdmissionKey := (PoolName * BackendName)%type (only parsing).

Record backendCircuit := {
  ci_state : string;
  ci_failures : list Time;
  ci_openedAt : Time;
  ci_nextProbeAt : Time;
  ci_halfOpenInFlight : Z;
  ci_recoverySuccesses : Z;
  ci_lastTransitionReason : string;
}.

Record backendRateLimit := { li_windowStart : Time; li_used : Z }.

Record backendAdmission := {
  circuits : gmap backendAdmissionKey backendCircuit;
  limits : gmap backendAdmissionKey backendRateLimit;
}.

Record backendAdmissionDecision := { ad_Allowed : bool; ad_Reason : string; ad_State : string }.

Definition allowed_in (state : string) : backendAdmissionDecision :=
  {| ad_Allowed := true; ad_Reason := ""; ad_State := state |}.
Definition denied_for (reason state : string) : backendAdmissionDecision :=
  {| ad_Allowed := false; ad_Reason := reason; ad_State := state |}.

Definition closed_circuit : backendCircuit := Build_backendCircuit circuitStateClosed [] 0 0 0 0 "".

(** ** Configuration defaults *)

Definition positive_or (value fallback : Z) : Z := if 0 <? value then value else fallback.

Definition normalizeFailureThreshold (cfg : CircuitBreakerConfig) : Z :=
  positive_or (cb_FailureThreshold cfg) defaultFailureThreshold.
Definition normalizeEvaluationWindow (cfg : CircuitBreakerConfig) : Duration :=
  positive_or (cb_EvaluationWindow cfg) defaultEvaluationWindow.
Definition normalizeOpenDuration (cfg : CircuitBreakerConfig) : Duration :=
  positive_or (cb_OpenDuration cfg) defaultOpenDuration.
Definition normalizeProbeInterval (cfg : CircuitBreakerConfig) : Duration :=
  positive_or (cb_ProbeInterval cfg) defaultProbeInterval.
Definition normalizeProbeTimeout (cfg : CircuitBreakerConfig) : Duration :=
  positive_or (cb_ProbeTimeout cfg) defaultProbeTimeout.
Definition normalizeRecoverySuccessThreshold (cfg : CircuitBreakerConfig) : Z :=
  positive_or (cb_RecoverySuccessThreshold cfg) defaultRecoverySuccessThreshold.
Definition normalizeHalfOpenMaxRequests (cfg : CircuitBreakerConfig) : Z :=
  positive_or (cb_HalfOpenMaxRequests cfg) defaultHalfOpenMaxRequests.

Definition normalizeCircuitState (state : string) : string :=
  if one_of state [circuitStateOpen; circuitStateHalfOpen] then state else circuitStateClosed.

Definition default_trip_reasons : list string :=
  [FailureReasonTimeout; FailureReasonTransport; FailureReasonThrottled; FailureReasonServerError;
   FailureReasonWaitTimeout].

Definition tripReasonEnabled (cfg : CircuitBreakerConfig) (reason : string) : bool :=
  let reason := NormalizeFailureReason reason in
  if String.eqb reason "" then false
  else
    let reasons := if (length (cb_TripReasons cfg) =? 0)%nat then default_trip_reasons else cb_TripReasons cfg in
    existsb (fun allowed => String.eqb (NormalizeFailureReason allowed) reason) reasons.

Definition splitAdmissionKey (key : string) : option backendAdmissionKey := Cut key slash.

(** [a.circuit(key)]: a missing circuit is created closed. *)
Definition circuit (a : backendAdmission) (key : backendAdmissionKey) : backendCircuit * backendAdmission :=
  match circuits a !! key with
  | Some c => (c, a)
  | None => (closed_circuit, { a with circuits := <[key := closed_circuit]> (circuits a) })
  end.

Definition put_circuit (a : backendAdmission) (key : backendAdmissionKey) (c : backendCircuit) : backendAdmission :=
  { a with circuits := <[key := c]> (circuits a) }.

Definition put_limit (a : backendAdmission) (key : backendAdmissionKey) (l : backendRateLimit) : backendAdmission :=
  { a with limits := <[key := l]> (limits a) }.

Definition circuit_of_state (s : AdmissionCircuitState) : backendCircuit :=
  {| ci_state := acs_State s; ci_failures := acs_Failures s; ci_openedAt := acs_OpenedAt s;
     ci_nextProbeAt := acs_NextProbeAt s; ci_halfOpenInFlight := acs_HalfOpenInFlight s;
     ci_recoverySuccesses := acs_RecoverySuccesses s; ci_lastTransitionReason := acs_LastTransitionReason s |}.
Definition state_of_circuit (c : backendCircuit) : AdmissionCircuitState :=
  {| acs_State := ci_state c; acs_Failures := ci_failures c; acs_OpenedAt := ci_openedAt c;
     acs_NextProbeAt := ci_nextProbeAt c; acs_HalfOpenInFlight := ci_halfOpenInFlight c;
     acs_RecoverySuccesses := ci_recoverySuccesses c; acs_LastTransitionReason := ci_lastTransitionReason c |}.
Definition limit_of_state (s : AdmissionRateLimit) : backendRateLimit :=
  {| li_windowStart := arl_WindowStart s; li_used := arl_Used s |}.
Definition state_of_limit (l : backendRateLimit) : AdmissionRateLimit :=
  {| arl_WindowStart := li_windowStart l; arl_Used := li_used l |}.

Definition key_string (key : backendAdmissionKey) : string := AdmissionKey key.1 key.2.

Section Admission.
Context `{GoRange} {S : Type} `{AdmissionStateStore S}.
Implicit Types (a : backendAdmission) (shared : option S).

Definition apply_circuit a (entry : string * AdmissionCircuitState) : backendAdmission :=
  match splitAdmissionKey entry.1 with
  | None => a
  | Some key => put_circuit a key (circuit_of_state entry.2)
  end.

Definition apply_limit a (entry : string * AdmissionRateLimit) : backendAdmission :=
  match splitAdmissionKey entry.1 with
  | None => a
  | Some key => put_limit a key (limit_of_state entry.2)
  end.

Definition applySharedDocumentLocked a (doc : AdmissionStateDocument) : backendAdmission :=
  foldl apply_limit (foldl apply_circuit a (range (doc_Circuits doc))) (range (doc_Limits doc)).

Definition reloadShared a shared : backendAdmission :=
  match shared with
  | None => a
  | Some s =>
      match LoadAdmissionState s with
      | Fail _ => a
      | Ok doc => applySharedDocumentLocked a doc
      end
  end.

Definition newBackendAdmission shared : backendAdmission :=
  reloadShared {| circuits := ∅; limits := ∅ |} shared.

(** [doc.Circuits[AdmissionKey(...)] = ...] over the local map. *)
Definition document_map {A B} (f : A → B) (m : gmap backendAdmissionKey A) : gmap string B :=
  foldl (fun acc entry => <[key_string entry.1 := f entry.2]> acc) ∅ (range m).

Definition persistSharedLocked a shared : option S :=
  match shared with
  | None => None
  | Some s =>
      let budgets :=
        match LoadAdmissionState s with Ok existing => doc_Budgets existing | Fail _ => ∅ end in
      Some (SaveAdmissionState s
        {| doc_Circuits := document_map state_of_circuit (circuits a);
           doc_Limits := document_map state_of_limit (limits a);
           doc_Budgets := budgets |})
  end.

Definition circuitDecision a shared (pool : PoolName) (name : BackendName) (cfg : CircuitBreakerConfig)
    (now : Time) (consume : bool) : backendAdmissionDecision * backendAdmission * option S :=
  let key := (pool, name) in
  let '(c, a) := circuit a key in
  let c := if String.eqb (ci_state c) "" then { c with ci_state := circuitStateClosed } else c in
  let a := put_circuit a key c in
  if String.eqb (ci_state c) circuitStateOpen then
    if Before now (ci_nextProbeAt c) then (denied_for "circuit-open" circuitStateOpen, a, shared)
    else if negb consume then (allowed_in circuitStateOpen, a, shared)
    else
      let a := put_circuit a key { c with ci_state := circuitStateHalfOpen; ci_halfOpenInFlight := 1;
                                          ci_recoverySuccesses := 0 } in
      (allowed_in circuitStateHalfOpen, a, persistSharedLocked a shared)
  else if String.eqb (ci_state c) circuitStateHalfOpen then
    if negb consume then (allowed_in circuitStateHalfOpen, a, shared)
    else if normalizeHalfOpenMaxRequests cfg <=? ci_halfOpenInFlight c
    then (denied_for "circuit-open" circuitStateHalfOpen, a, shared)
    else
      let a := put_circuit a key { c with ci_halfOpenInFlight := ci_halfOpenInFlight c + 1 } in
      (allowed_in circuitStateHalfOpen, a, persistSharedLocked a shared)
  else (allowed_in (ci_state c), a, shared).

Definition rate_interval (cfg : RateLimitConfig) : Duration :=
  if rl_Interval cfg <=? 0 then Minute else rl_Interval cfg.
Definition rate_permits (cfg : RateLimitConfig) : Z :=
  let permits := if rl_Permits cfg <=? 0 then 1 else rl_Permits cfg in
  if permits <? rl_Burst cfg then rl_Burst cfg else permits.

Definition rateLimitDecision a shared (pool : PoolName) (name : BackendName) (cfg : RateLimitConfig)
    (now : Time) (consume : bool) : backendAdmissionDecision * backendAdmission * option S :=
  let interval := rate_interval cfg in
  let permits := rate_permits cfg in
  let key := (pool, name) in
  let limit := default {| li_windowStart := now; li_used := 0 |} (limits a !! key) in
  let limit :=
    if IsZero (li_windowStart limit) || negb (Before now (TimeAdd (li_windowStart limit) interval))
    then {| li_windowStart := now; li_used := 0 |} else limit in
  let a := put_limit a key limit in
  if permits <=? li_used limit then (denied_for "rate-limited" circuitStateClosed, a, shared)
  else if consume then
    let a := put_limit a key { limit with li_used := li_used limit + 1 } in
    (allowed_in circuitStateClosed, a, persistSharedLocked a shared)
  else (allowed_in circuitStateClosed, a, shared).

Definition allow a shared (pool : PoolName) (name : BackendName) (cfg : BackendConfig) (now : Time)
    (warm consume : bool) : backendAdmissionDecision * backendAdmission * option S :=
  let a := if consume then reloadShared a shared else a in
  let rate_limited a shared :=
    if negb warm && rl_Enabled (bc_RateLimit cfg)
    then rateLimitDecision a shared pool name (bc_RateLimit cfg) now consume
    else (allowed_in circuitStateClosed, a, shared) in
  if cb_Enabled (bc_CircuitBreaker cfg) then
    let '(decision, a, shared) := circuitDecision a shared pool name (bc_CircuitBreaker cfg) now consume in
    if negb (ad_Allowed decision) then (decision, a, shared) else rate_limited a shared
  else rate_limited a shared.

(** The result (from, to, reason, changed) of a recording operation; [None]
    is changed = false with no transition to report. *)
Record transition := { tn_from : string; tn_to : string; tn_reason : string; tn_changed : bool }.

Definition no_transition : transition := Build_transition "" "" "" false.

Definition recordSuccess a shared (pool : PoolName) (name : BackendName) (cfg : BackendConfig) (now : Time) :
    transition * backendAdmission * option S :=
  let cb := bc_CircuitBreaker cfg in
  if negb (cb_Enabled cb) then (no_transition, a, shared)
  else
    let key := (pool, name) in
    let '(c, a) := circuit a key in
    let previous := normalizeCircuitState (ci_state c) in
    let c := { c with ci_failures := []; ci_halfOpenInFlight := 0 } in
    let half_open := String.eqb previous circuitStateHalfOpen in
    let c := if half_open then { c with ci_recoverySuccesses := ci_recoverySuccesses c + 1 } else c in
    if half_open && (ci_recoverySuccesses c <? normalizeRecoverySuccessThreshold cb) then
      let a := put_circuit a key c in
      (no_transition, a, persistSharedLocked a shared)
    else
      let a := put_circuit a key { c with ci_state := circuitStateClosed; ci_recoverySuccesses := 0;
                                          ci_lastTransitionReason := "success" } in
      ({| tn_from := previous; tn_to := circuitStateClosed; tn_reason := "success";
          tn_changed := negb (String.eqb previous circuitStateClosed) |}, a, persistSharedLocked a shared).

Definition recordProbeSuccess a shared (pool : PoolName) (name : BackendName) (cfg : BackendConfig) (now : Time) :
    transition * backendAdmission * option S :=
  let cb := bc_CircuitBreaker cfg in
  if negb (cb_Enabled cb) then (no_transition, a, shared)
  else
    let key := (pool, name) in
    let '(c, a) := circuit a key in
    let previous := normalizeCircuitState (ci_state c) in
    if String.eqb previous circuitStateClosed then (no_transition, a, shared)
    else
      let c := { c with ci_recoverySuccesses := ci_recoverySuccesses c + 1 } in
      if ci_recoverySuccesses c <? normalizeRecoverySuccessThreshold cb then
        let a := put_circuit a key { c with ci_nextProbeAt := TimeAdd now (normalizeProbeInterval cb) } in
        (no_transition, a, persistSharedLocked a shared)
      else
        let a := put_circuit a key { c with ci_state := circuitStateClosed; ci_failures := [];
                                            ci_halfOpenInFlight := 0; ci_recoverySuccesses := 0;
                                            ci_lastTransitionReason := "probe-success" } in
        ({| tn_from := previous; tn_to := circuitStateClosed; tn_reason := "probe-success"; tn_changed := true |},
         a, persistSharedLocked a shared).

(** Failures still inside the evaluation window, with the new one. *)
Definition recent_failures (cfg : CircuitBreakerConfig) (failures : list Time) (now : Time) : list Time :=
  filter (fun failure => Before failure (TimeAdd now (- normalizeEvaluationWindow cfg)) = false) failures ++ [now].

Definition recordFailure a shared (pool : PoolName) (name : BackendName) (cfg : BackendConfig)
    (reason : string) (now : Time) : transition * backendAdmission * option S :=
  let cb := bc_CircuitBreaker cfg in
  let reason := NormalizeFailureReason reason in
  if negb (cb_Enabled cb) || negb (tripReasonEnabled cb reason) then (no_transition, a, shared)
  else
    let key := (pool, name) in
    let '(c, a) := circuit a key in
    let previous := normalizeCircuitState (ci_state c) in
    let failures := recent_failures cb (ci_failures c) now in
    let c := { c with ci_failures := failures; ci_halfOpenInFlight := 0; ci_recoverySuccesses := 0 } in
    if String.eqb previous circuitStateHalfOpen || (normalizeFailureThreshold cb <=? Z.of_nat (length failures)) then
      let a := put_circuit a key { c with ci_state := circuitStateOpen; ci_openedAt := now;
                                          ci_nextProbeAt := TimeAdd now (normalizeOpenDuration cb);
                                          ci_lastTransitionReason := reason } in
      ({| tn_from := previous; tn_to := circuitStateOpen; tn_reason := reason;
          tn_changed := negb (String.eqb previous circuitStateOpen) |}, a, persistSharedLocked a shared)
    else
      let a := put_circuit a key { c with ci_state := previous } in
      (no_transition, a, persistSharedLocked a shared).

Definition probeDue a (pool : PoolName) (name : BackendName) (cfg : BackendConfig) (now : Time) :
    bool * backendAdmission :=
  if negb (cb_Enabled (bc_CircuitBreaker cfg)) then (false, a)
  else
    let '(c, a) := circuit a (pool, name) in
    (String.eqb (normalizeCircuitState (ci_state c)) circuitStateOpen && negb (Before now (ci_nextProbeAt c)), a).

Definition deferProbe a shared (pool : PoolName) (name : BackendName) (cfg : CircuitBreakerConfig)
    (now : Time) (reason : string) : backendAdmission * option S :=
  let key := (pool, name) in
  let '(c, a) := circuit a key in
  let a := put_circuit a key { c with ci_state := circuitStateOpen;
                                      ci_nextProbeAt := TimeAdd now (normalizeProbeInterval cfg);
                                      ci_recoverySuccesses := 0; ci_halfOpenInFlight := 0;
                                      ci_lastTransitionReason := reason } in
  (a, persistSharedLocked a shared).

(** ** The allocation filter *)

(** The loop of [filter]: admission state, backends kept, rate-limited count. *)
Definition filter_backend (pool : PoolName) (now : Time) shared
    (acc : backendAdmission * gmap BackendName BackendConfig * Z) (entry : BackendName * BackendConfig) :
    backendAdmission * gmap BackendName BackendConfig * Z :=
  let '(a, kept, rateLimited) := acc in
  let '(decision, a, _) := allow a shared pool entry.1 entry.2 now false false in
  if ad_Allowed decision then (a, <[entry.1 := entry.2]> kept, rateLimited)
  else if String.eqb (ad_Reason decision) "rate-limited" then (a, kept, rateLimited + 1)
  else (a, kept, rateLimited).

Definition pinned_error (backend reason : string) : error :=
  if String.eqb reason "circuit-open" then
    Wrapf ("pinned backend " +:+ quote backend +:+ " is circuit-open: ") (Sentinel ErrBackendCircuitOpen) ""
  else if String.eqb reason "rate-limited" then
    Wrapf ("pinned backend " +:+ quote backend +:+ " is rate-limited: ") (Sentinel ErrBackendRateLimited) ""
  else Errorf ("pinned backend " +:+ quote backend +:+ " is not admissible: " +:+ reason).

Definition admission_filter a shared (pool : PoolConfig) (request : AllocationRequest) (now : Time) :
    result PoolConfig * backendAdmission :=
  let a := reloadShared a shared in
  let '(a, kept, rateLimited) :=
    foldl (filter_backend (pc_Name pool) now shared) (a, ∅, 0) (range (pc_Backends pool)) in
  let filtered := { pool with pc_Backends := kept } in
  match ar_Backend request with
  | Some pinned =>
      match pc_Backends pool !! pinned with
      | None => (Fail (Sentinel ErrUnknownBackend), a)
      | Some cfg =>
          let '(decision, a, _) := allow a shared (pc_Name pool) pinned cfg now false false in
          if negb (ad_Allowed decision) then (Fail (pinned_error pinned (ad_Reason decision)), a)
          else (Ok filtered, a)
      end
  | None =>
      if (size kept =? 0)%nat then
        if rateLimited =? Z.of_nat (size (pc_Backends pool)) then
          (Fail (Wrapf ("all eligible backends for pool " +:+ quote (pc_Name pool) +:+ " are rate-limited: ")
                  (Sentinel ErrBackendRateLimited) ""), a)
        else (Fail (Wrapf "" (Sentinel ErrNoCapacity)
                  (" for pool " +:+ quote (pc_Name pool) +:+ " after backend admission filtering")), a)
      else (Ok filtered, a)
  end.
End Admission.
