(* ===== verification/AdmissionTheory.v ===== *)
(** Theorems of backend admission: the shared document, rate limits and the
    circuit breaker's state machine. *)

From S2P Require Import Prelude Errors Model Store Backends Admission.

(** ** Keys *)

Definition good_key (key : backendAdmissionKey) : Prop := ContainsChar key.1 slash = false.

Lemma split_key_string key : good_key key → splitAdmissionKey (key_string key) = Some key.
Proof. intros Hk. unfold splitAdmissionKey, key_string, AdmissionKey. rewrite Cut_app by done. by destruct key. Qed.

Lemma split_inv s key : splitAdmissionKey s = Some key → s = key_string key ∧ good_key key.
Proof. destruct key as [p b]. apply Cut_spec. Qed.

Lemma key_string_inj k1 k2 : good_key k1 → good_key k2 → key_string k1 = key_string k2 → k1 = k2.
Proof. intros H1 H2 Heq. apply split_key_string in H1, H2. rewrite Heq in H1. congruence. Qed.

(** ** The document as a map *)

Section Document.
Context `{GoRange}.

Definition well_keyed {A} (m : gmap backendAdmissionKey A) : Prop := ∀ k, is_Some (m !! k) → good_key k.

Lemma document_fold {A B} (f : A → B) (l : list (backendAdmissionKey * A)) : ∀ acc s,
  NoDup (key_string <$> l.*1) →
  foldl (fun acc entry => <[key_string entry.1 := f entry.2]> acc) acc l !! s =
    ((list_to_map ((fun entry => (key_string entry.1, f entry.2)) <$> l) : gmap string B) ∪ acc) !! s.
Proof.
  induction l as [|[k x] l IH]; intros acc s Hnd; cbn; [by rewrite (left_id_L ∅ union)|].
  inversion Hnd as [|? ? Hk Hnd']; subst. rewrite IH by done. cbn in Hk.
  assert (Hnone : (list_to_map ((fun entry => (key_string entry.1, f entry.2)) <$> l) : gmap string B) !! key_string k = None).
  { apply not_elem_of_list_to_map_1. intros Hin. apply Hk.
    clear -Hin. induction l as [|e l IH]; [done|]. cbn in Hin |- *. rewrite elem_of_cons in Hin |- *. tauto. }
  destruct (decide (key_string k = s)) as [<-|Hne].
  - rewrite !lookup_union, Hnone, !lookup_insert_eq. by destruct (acc !! key_string k).
  - rewrite !lookup_union, !lookup_insert_ne by done. done.
Qed.

Lemma document_map_lookup {A B} (f : A → B) (m : gmap backendAdmissionKey A) k :
  well_keyed m → good_key k → document_map f m !! key_string k = f <$> m !! k.
Proof.
  intros Hm Hk. unfold document_map.
  assert (Hgood : ∀ k', k' ∈ (range m).*1 → good_key k').
  { intros k' Hin. apply Hm. by apply elem_of_range_keys. }
  assert (Hnd : NoDup (key_string <$> (range m).*1)).
  { apply (NoDup_fmap_2_strong key_string); [|apply range_keys_NoDup]. intros k1 k2 H1 H2. apply key_string_inj; by apply Hgood. }
  rewrite document_fold by done. rewrite (right_id_L ∅ union).
  destruct (m !! k) as [x|] eqn:Hx; cbn.
  - apply elem_of_list_to_map_1.
    + rewrite <- list_fmap_compose in Hnd. rewrite <- list_fmap_compose. exact Hnd.
    + apply list_elem_of_fmap. exists (k, x). split; [done|]. by apply elem_of_range.
  - apply not_elem_of_list_to_map_1. rewrite <- list_fmap_compose. intros Hin.
    apply list_elem_of_fmap in Hin as ([k' x'] & Heq & Hin). cbn in Heq.
    assert (Hk' : k' ∈ (range m).*1) by (apply list_elem_of_fmap; by exists (k', x')).
    apply key_string_inj in Heq; [|done|by apply Hgood]. subst k'. apply elem_of_range in Hin. congruence.
Qed.

(** What applying a document map does to a local map. *)
Definition apply_entry {A B} (g : A → B) (m : gmap backendAdmissionKey B) (entry : string * A) : gmap backendAdmissionKey B :=
  match splitAdmissionKey entry.1 with None => m | Some key => <[key := g entry.2]> m end.

Lemma apply_entries_lookup {A B} (g : A → B) (l : list (string * A)) : ∀ m k,
  NoDup l.*1 →
  foldl (apply_entry g) m l !! k =
    match splitAdmissionKey (key_string k), (list_to_map l : gmap string A) !! key_string k with
    | Some _, Some x => if decide (good_key k) then Some (g x) else m !! k
    | _, _ => m !! k
    end.
Proof.
  induction l as [|[s x] l IH]; intros m k Hnd; cbn [foldl].
  - by destruct (splitAdmissionKey _).
  - inversion Hnd as [|? ? Hs Hnd']; subst. rewrite IH by done. cbn [list_to_map foldr]. cbn [fst snd].
    unfold apply_entry at 1 2 3. cbn [fst snd].
    destruct (decide (key_string k = s)) as [<-|Hne].
    + cbn. rewrite lookup_insert_eq. rewrite (not_elem_of_list_to_map_1 l) by done.
      destruct (decide (good_key k)) as [Hg|Hg].
      * rewrite split_key_string by done. by rewrite lookup_insert_eq.
      * destruct (splitAdmissionKey (key_string k)) as [k'|] eqn:Hsp; [|done].
        rewrite lookup_insert_ne; [done|]. intros ->. by apply split_inv in Hsp as [_ ?].
    + cbn. rewrite lookup_insert_ne by done. destruct (splitAdmissionKey s) as [k'|] eqn:Hsp; [|done].
      assert (k' ≠ k) by (intros ->; apply split_inv in Hsp as [? _]; congruence).
      by rewrite lookup_insert_ne.
Qed.

Lemma apply_range_lookup {A B} (g : A → B) (doc : gmap string A) m k :
  foldl (apply_entry g) m (range doc) !! k =
    if decide (good_key k) then match doc !! key_string k with Some x => Some (g x) | None => m !! k end else m !! k.
Proof.
  rewrite apply_entries_lookup by apply range_keys_NoDup.
  rewrite (list_to_map_proper (M := gmap string) (range doc) (map_to_list doc)); [|apply range_keys_NoDup|apply range_perm].
  rewrite list_to_map_to_list. case_decide as Hk.
  - rewrite split_key_string by done. done.
  - destruct (splitAdmissionKey _); [|done]. by destruct (doc !! _).
Qed.

Lemma apply_circuits_spec l : ∀ a,
  circuits (foldl apply_circuit a l) = foldl (apply_entry circuit_of_state) (circuits a) l ∧
  limits (foldl apply_circuit a l) = limits a.
Proof.
  induction l as [|e l IH]; intros a; [done|]. cbn [foldl]. destruct (IH (apply_circuit a e)) as [-> ->].
  unfold apply_circuit, apply_entry. by destruct (splitAdmissionKey e.1).
Qed.

Lemma apply_limits_spec l : ∀ a,
  limits (foldl apply_limit a l) = foldl (apply_entry limit_of_state) (limits a) l ∧
  circuits (foldl apply_limit a l) = circuits a.
Proof.
  induction l as [|e l IH]; intros a; [done|]. cbn [foldl]. destruct (IH (apply_limit a e)) as [-> ->].
  unfold apply_limit, apply_entry. by destruct (splitAdmissionKey e.1).
Qed.
End Document.

(** ** Sharing through a reliable store *)

Section Sharing.
Context `{GoRange} {S : Type} `{AdmissionStateReliable S}.
Implicit Types (a : backendAdmission) (s : S).

Definition keyed a : Prop := well_keyed (circuits a) ∧ well_keyed (limits a).

Lemma reload_persist_circuit a a' s k :
  keyed a → good_key k →
  circuits (reloadShared a' (persistSharedLocked a (Some s))) !! k =
    match circuits a !! k with Some c => Some c | None => circuits a' !! k end.
Proof.
  intros [Hc Hl] Hk. unfold persistSharedLocked, reloadShared. rewrite load_save.
  unfold applySharedDocumentLocked. cbn.
  match goal with |- context [foldl apply_limit ?a1 ?l] => destruct (apply_limits_spec l a1) as [_ ->] end.
  match goal with |- context [foldl apply_circuit ?a1 ?l] => destruct (apply_circuits_spec l a1) as [-> _] end.
  rewrite apply_range_lookup, decide_True by done. rewrite document_map_lookup by done.
  destruct (circuits a !! k) as [[]|]; done.
Qed.

Lemma reload_persist_limit a a' s k :
  keyed a → good_key k →
  limits (reloadShared a' (persistSharedLocked a (Some s))) !! k =
    match limits a !! k with Some c => Some c | None => limits a' !! k end.
Proof.
  intros [Hc Hl] Hk. unfold persistSharedLocked, reloadShared. rewrite load_save.
  unfold applySharedDocumentLocked. cbn.
  match goal with |- context [foldl apply_limit ?a1 ?l] => destruct (apply_limits_spec l a1) as [-> _] end.
  match goal with |- context [foldl apply_circuit ?a1 ?l] => destruct (apply_circuits_spec l a1) as [_ ->] end.
  rewrite apply_range_lookup, decide_True by done. rewrite document_map_lookup by done.
  destruct (limits a !! k) as [[]|]; done.
Qed.

Lemma reload_bad_key a (shared : option S) k :
  ¬ good_key k → circuits (reloadShared a shared) !! k = circuits a !! k ∧ limits (reloadShared a shared) !! k = limits a !! k.
Proof.
  intros Hk. unfold reloadShared. destruct shared as [s|]; [|done]. destruct (LoadAdmissionState s); [|done].
  unfold applySharedDocumentLocked.
  match goal with |- context [foldl apply_limit ?a1 ?l] => destruct (apply_limits_spec l a1) as [-> ->] end.
  match goal with |- context [foldl apply_circuit ?a1 ?l] => destruct (apply_circuits_spec l a1) as [-> ->] end.
  by rewrite !apply_range_lookup, !decide_False.
Qed.

Lemma reload_keyed a (shared : option S) : keyed a → keyed (reloadShared a shared).
Proof.
  intros [Hc Hl]. split; intros k Hk; destruct (decide (good_key k)) as [|Hbad]; try done;
    destruct (reload_bad_key a shared k Hbad) as [Hck Hlk]; [apply Hc; by rewrite <- Hck|apply Hl; by rewrite <- Hlk].
Qed.

(** Admission state survives a restart: when no pool name holds a slash, a broker that starts
    on a store in which another saved its circuits and rate limits works with exactly those;
    and saving them leaves the budget counters of the shared document as they were. *)
Theorem admission_state_survives_restart a s doc :
  keyed a → LoadAdmissionState s = Ok doc →
  newBackendAdmission (persistSharedLocked a (Some s)) = a ∧
  ∃ s' doc', persistSharedLocked a (Some s) = Some s' ∧ LoadAdmissionState s' = Ok doc' ∧ doc_Budgets doc' = doc_Budgets doc.
Proof.
  intros Hk Hload. split.
  - assert (Hcl : circuits (newBackendAdmission (persistSharedLocked a (Some s))) = circuits a ∧
                  limits (newBackendAdmission (persistSharedLocked a (Some s))) = limits a).
    { unfold newBackendAdmission. split; apply map_eq; intros k; destruct (decide (good_key k)) as [Hg|Hg].
      - rewrite reload_persist_circuit by done. cbn. by destruct (circuits a !! k).
      - destruct (reload_bad_key {| circuits := ∅; limits := ∅ |} (persistSharedLocked a (Some s)) k Hg) as [-> _].
        cbn. symmetry. apply eq_None_not_Some. intros Hs. apply Hg. by apply (proj1 Hk).
      - rewrite reload_persist_limit by done. cbn. by destruct (limits a !! k).
      - destruct (reload_bad_key {| circuits := ∅; limits := ∅ |} (persistSharedLocked a (Some s)) k Hg) as [_ ->].
        cbn. symmetry. apply eq_None_not_Some. intros Hs. apply Hg. by apply (proj2 Hk). }
    destruct Hcl as [Hc Hl]. destruct (newBackendAdmission _), a. cbn in *. by subst.
  - unfold persistSharedLocked. rewrite Hload. do 2 eexists. rewrite load_save. by split_and!.
Qed.
End Sharing.

(** ** Rate limits *)

Section RateLimits.
Context `{GoRange} {S : Type} `{AdmissionStateReliable S}.
Implicit Types (a : backendAdmission) (shared : option S).

Lemma rate_permits_pos cfg : 0 < rate_permits cfg.
Proof. unfold rate_permits. repeat case_match; reflect_bools; lia. Qed.

Lemma rate_interval_pos cfg : 0 < rate_interval cfg.
Proof. unfold rate_interval, Minute, Second, Millisecond. case_match; reflect_bools; lia. Qed.

(** The window a decision at [now] works with. *)
Definition rolled_limit (cfg : RateLimitConfig) (l : option backendRateLimit) (now : Time) : backendRateLimit :=
  let limit := default {| li_windowStart := now; li_used := 0 |} l in
  if IsZero (li_windowStart limit) || negb (Before now (TimeAdd (li_windowStart limit) (rate_interval cfg)))
  then {| li_windowStart := now; li_used := 0 |} else limit.

(** One consuming attempt on the limiter's value. *)
Definition limit_step (cfg : RateLimitConfig) (l : option backendRateLimit) (now : Time) : bool * backendRateLimit :=
  let limit := rolled_limit cfg l now in
  if rate_permits cfg <=? li_used limit then (false, limit)
  else (true, {| li_windowStart := li_windowStart limit; li_used := li_used limit + 1 |}).

Fixpoint limit_run (cfg : RateLimitConfig) (l : option backendRateLimit) (times : list Time) : Z :=
  match times with
  | [] => 0
  | now :: times =>
      let '(granted, limit) := limit_step cfg l now in
      (if granted then 1 else 0) + limit_run cfg (Some limit) times
  end.

(** What the shared document holds for a key. *)
Definition shared_limit shared (key : backendAdmissionKey) : option backendRateLimit :=
  match shared with
  | None => None
  | Some s => match LoadAdmissionState s with
              | Ok doc => limit_of_state <$> doc_Limits doc !! key_string key
              | Fail _ => None
              end
  end.

Lemma reload_limit a shared key :
  good_key key →
  limits (reloadShared a shared) !! key =
    match shared_limit shared key with Some l => Some l | None => limits a !! key end.
Proof.
  intros Hk. unfold reloadShared, shared_limit. destruct shared as [s|]; [|done]. destruct (LoadAdmissionState s) as [doc|]; [|done].
  unfold applySharedDocumentLocked.
  match goal with |- context [foldl apply_limit ?a1 ?l] => destruct (apply_limits_spec l a1) as [-> _] end.
  match goal with |- context [foldl apply_circuit ?a1 ?l] => destruct (apply_circuits_spec l a1) as [_ ->] end.
  rewrite apply_range_lookup, decide_True by done. by destruct (doc_Limits doc !! key_string key).
Qed.

Lemma keyed_put_limit a key l : keyed a → good_key key → keyed (put_limit a key l).
Proof.
  intros [Hc Hl] Hk. split; [done|]. intros k. cbn. destruct (decide (key = k)) as [<-|Hne]; [done|].
  rewrite lookup_insert_ne by done. apply Hl.
Qed.

Lemma keyed_put_circuit a key c : keyed a → good_key key → keyed (put_circuit a key c).
Proof.
  intros [Hc Hl] Hk. split; [|done]. intros k. cbn. destruct (decide (key = k)) as [<-|Hne]; [done|].
  rewrite lookup_insert_ne by done. apply Hc.
Qed.

(** A refusal never starts a window. *)
Lemma limit_refused_same cfg l now limit : limit_step cfg l now = (false, limit) → l = Some limit.
Proof.
  unfold limit_step, rolled_limit. pose proof (rate_permits_pos cfg). destruct l as [l|]; cbn [default from_option]; unfold id.
  - destruct (IsZero _ || _); cbn; [destruct (Z.leb_spec (rate_permits cfg) 0); [lia|done]|]. case_match; [|done]. by intros [= <-].
  - destruct (IsZero _ || _); cbn; destruct (Z.leb_spec (rate_permits cfg) 0); [lia|done|lia|done].
Qed.

Lemma allow_limit a shared pool name cfg now :
  cb_Enabled (bc_CircuitBreaker cfg) = false → rl_Enabled (bc_RateLimit cfg) = true →
  keyed a → good_key (pool, name) →
  let '(d, a', shared') := allow a shared pool name cfg now false true in
  let '(granted, limit) := limit_step (bc_RateLimit cfg) (limits (reloadShared a shared) !! (pool, name)) now in
  ad_Allowed d = granted ∧ limits (reloadShared a' shared') !! (pool, name) = Some limit ∧ keyed a'.
Proof.
  intros Hcb Hrl Hka Hkey. unfold allow. rewrite Hcb, Hrl. cbn [negb andb]. unfold rateLimitDecision.
  set (a0 := reloadShared a shared). assert (Hk0 : keyed a0) by (by apply reload_keyed).
  change (if IsZero _ || _ then _ else _) with (rolled_limit (bc_RateLimit cfg) (limits a0 !! (pool, name)) now).
  pose proof (limit_refused_same (bc_RateLimit cfg) (limits a0 !! (pool, name)) now) as Hsame.
  unfold limit_step in Hsame |- *. set (limit := rolled_limit _ _ _) in *.
  destruct (rate_permits (bc_RateLimit cfg) <=? li_used limit).
  - specialize (Hsame limit eq_refl). split_and!; [done| |by apply keyed_put_limit].
    rewrite reload_limit by done. unfold a0 in Hsame. rewrite reload_limit in Hsame by done.
    destruct (shared_limit shared (pool, name)); [done|]. cbn. apply lookup_insert_eq.
  - split_and!; [done| |by repeat apply keyed_put_limit].
    set (a1 := put_limit _ _ _). assert (Hk1 : keyed a1) by (by repeat apply keyed_put_limit).
    assert (Hl1 : limits a1 !! (pool, name) = Some {| li_windowStart := li_windowStart limit; li_used := li_used limit + 1 |}) by apply lookup_insert_eq.
    destruct shared as [s|]; [|exact Hl1].
    rewrite reload_persist_limit by done. by rewrite Hl1.
Qed.

(** Consuming attempts on one backend at the given times, counting those allowed. *)
Fixpoint run_admissions a shared (pool : PoolName) (name : BackendName) (cfg : BackendConfig) (times : list Time) : Z :=
  match times with
  | [] => 0
  | now :: times =>
      let '(d, a, shared) := allow a shared pool name cfg now false true in
      (if ad_Allowed d then 1 else 0) + run_admissions a shared pool name cfg times
  end.

Lemma run_admissions_limit pool name cfg times : ∀ a shared,
  cb_Enabled (bc_CircuitBreaker cfg) = false → rl_Enabled (bc_RateLimit cfg) = true →
  keyed a → good_key (pool, name) →
  run_admissions a shared pool name cfg times =
    limit_run (bc_RateLimit cfg) (limits (reloadShared a shared) !! (pool, name)) times.
Proof.
  induction times as [|now times IH]; intros a shared Hcb Hrl Hka Hkey; [done|]. cbn [run_admissions limit_run].
  pose proof (allow_limit a shared pool name cfg now Hcb Hrl Hka Hkey) as Hstep.
  destruct (allow a shared pool name cfg now false true) as [[d a'] shared'].
  destruct (limit_step _ _ _) as [granted limit]. destruct Hstep as (-> & Hl & Hka').
  by rewrite (IH a' shared' Hcb Hrl Hka' Hkey), Hl.
Qed.

Lemma limit_run_bound cfg T times : ∀ ws u,
  0 < ws ≤ T → 0 ≤ u ≤ rate_permits cfg → StronglySorted Z.le (ws :: times) → Forall (λ t, t ≤ T) times →
  limit_run cfg (Some {| li_windowStart := ws; li_used := u |}) times ≤
    (rate_permits cfg - u) + rate_permits cfg * ((T - ws) / rate_interval cfg).
Proof.
  pose proof (rate_permits_pos cfg) as Hp. pose proof (rate_interval_pos cfg) as Hi.
  induction times as [|now times IH]; intros ws u Hws Hu Hs Ht; cbn [limit_run].
  - assert (0 ≤ (T - ws) / rate_interval cfg) by (apply Z.div_pos; lia). nia.
  - inversion Hs as [|? ? Hs' Hle]; subst. apply Forall_cons in Ht as [HnT Ht]. apply Forall_cons in Hle as [Hwn Hle].
    unfold limit_step, rolled_limit, IsZero, Before, TimeAdd. cbn [default from_option]. unfold id. cbn [li_windowStart li_used].
    destruct (Z.eqb_spec ws 0); [lia|]. cbn [orb]. destruct (Z.ltb_spec now (ws + rate_interval cfg)); cbn [negb li_windowStart li_used].
    + assert (Hs0 : StronglySorted Z.le (ws :: times)) by (inversion Hs'; constructor; [done|exact Hle]).
      destruct (Z.leb_spec (rate_permits cfg) u).
      * specialize (IH ws u Hws Hu Hs0 Ht). lia.
      * specialize (IH ws (u + 1) Hws ltac:(lia) Hs0 Ht). cbn [li_windowStart li_used]. lia.
    + destruct (Z.leb_spec (rate_permits cfg) 0); [lia|]. specialize (IH now 1 ltac:(lia) ltac:(lia) Hs' Ht).
      cbn [li_windowStart li_used].
      assert (Hdiv : (T - now) / rate_interval cfg + 1 ≤ (T - ws) / rate_interval cfg).
      { rewrite <- Z.div_add by lia. apply Z.div_le_mono; lia. }
      apply (Z.mul_le_mono_nonneg_l _ _ (rate_permits cfg)) in Hdiv; [|lia].
      change (0 + 1) with 1. lia.
Qed.

Lemma limit_run_exact cfg times : ∀ ws u,
  0 < ws → 0 ≤ u ≤ rate_permits cfg → Forall (λ t, ws ≤ t < ws + rate_interval cfg) times →
  limit_run cfg (Some {| li_windowStart := ws; li_used := u |}) times =
    Z.min (Z.of_nat (length times)) (rate_permits cfg - u).
Proof.
  induction times as [|now times IH]; intros ws u Hws Hu Ht; cbn [limit_run]; [cbn; lia|].
  apply Forall_cons in Ht as [Hnow Ht]. rewrite length_cons.
  unfold limit_step, rolled_limit, IsZero, Before, TimeAdd. cbn [default from_option]. unfold id. cbn [li_windowStart li_used].
  destruct (Z.eqb_spec ws 0); [lia|]. cbn [orb]. destruct (Z.ltb_spec now (ws + rate_interval cfg)); [|lia]. cbn [negb li_windowStart li_used].
  destruct (Z.leb_spec (rate_permits cfg) u).
  - rewrite (IH ws u) by (done || lia). lia.
  - specialize (IH ws (u + 1) Hws ltac:(lia) Ht). cbn [li_windowStart li_used]. rewrite IH. lia.
Qed.

Lemma limit_run_fresh cfg t times :
  0 < t → limit_run cfg None (t :: times) = 1 + limit_run cfg (Some {| li_windowStart := t; li_used := 1 |}) times.
Proof.
  intros Ht. cbn [limit_run]. unfold limit_step, rolled_limit, IsZero, Before, TimeAdd. cbn [default from_option li_windowStart li_used].
  pose proof (rate_permits_pos cfg). pose proof (rate_interval_pos cfg).
  destruct (Z.eqb_spec t 0); [lia|]. cbn [orb]. destruct (Z.ltb_spec t (t + rate_interval cfg)); [|lia]. cbn [negb li_used].
  destruct (Z.leb_spec (rate_permits cfg) 0); [lia|]. done.
Qed.

(** The rate limit holds over any time span: consuming attempts on a backend that has no window
    yet, at times in order from the first [t] to at most [T], are allowed at most
    permits * (1 + (T - t) / interval) times, and exactly min(attempts, permits) times when they
    all fall in the first interval; with or without a shared store. *)
Theorem rate_limit_bounds_admissions a shared pool name cfg t times T :
  let rl := bc_RateLimit cfg in
  cb_Enabled (bc_CircuitBreaker cfg) = false → rl_Enabled rl = true → keyed a → good_key (pool, name) →
  limits (reloadShared a shared) !! (pool, name) = None →
  0 < t ≤ T → StronglySorted Z.le (t :: times) → Forall (λ t', t' ≤ T) times →
  run_admissions a shared pool name cfg (t :: times) ≤ rate_permits rl * (1 + (T - t) / rate_interval rl) ∧
  (T < t + rate_interval rl →
   run_admissions a shared pool name cfg (t :: times) = Z.min (Z.of_nat (length (t :: times))) (rate_permits rl)).
Proof.
  cbn zeta. intros Hcb Hrl Hka Hkey Hnone Ht Hs HT. rewrite run_admissions_limit by done. rewrite Hnone, limit_run_fresh by lia.
  pose proof (rate_permits_pos (bc_RateLimit cfg)). split.
  - pose proof (limit_run_bound (bc_RateLimit cfg) T times t 1 Ht ltac:(lia) Hs HT). lia.
  - intros Hw. rewrite limit_run_exact; [rewrite length_cons; lia|lia|lia|].
    inversion Hs as [|? ? _ Hle]; subst. apply Forall_forall. intros t' Hin.
    rewrite Forall_forall in Hle, HT. specialize (Hle t' Hin). specialize (HT t' Hin). lia.
Qed.
End RateLimits.

(** ** Circuits *)

Section Circuits.
Context `{GoRange} {S : Type} `{AdmissionStateReliable S}.
Implicit Types (a : backendAdmission) (shared : option S).

Lemma circuit_fst a key : (circuit a key).1 = default closed_circuit (circuits a !! key).
Proof. unfold circuit. by destruct (circuits a !! key). Qed.

Lemma put_after_circuit a key c : put_circuit (circuit a key).2 key c = put_circuit a key c.
Proof.
  unfold circuit, put_circuit. destruct (circuits a !! key); [done|]. destruct a as [cs ls]. unfold tset, set. cbn. f_equal.
  apply insert_insert_eq.
Qed.

(** What the shared document holds for a key. *)
Definition shared_circuit shared (key : backendAdmissionKey) : option backendCircuit :=
  match shared with
  | None => None
  | Some s => match LoadAdmissionState s with
              | Ok doc => circuit_of_state <$> doc_Circuits doc !! key_string key
              | Fail _ => None
              end
  end.

Lemma reload_circuit a shared key :
  good_key key →
  circuits (reloadShared a shared) !! key =
    match shared_circuit shared key with Some c => Some c | None => circuits a !! key end.
Proof.
  intros Hk. unfold reloadShared, shared_circuit. destruct shared as [s|]; [|done]. destruct (LoadAdmissionState s) as [doc|]; [|done].
  unfold applySharedDocumentLocked.
  match goal with |- context [foldl apply_limit ?a1 ?l] => destruct (apply_limits_spec l a1) as [_ ->] end.
  match goal with |- context [foldl apply_circuit ?a1 ?l] => destruct (apply_circuits_spec l a1) as [-> _] end.
  rewrite apply_range_lookup, decide_True by done. by destruct (doc_Circuits doc !! key_string key).
Qed.

Lemma reload_put_circuit a shared key c :
  good_key key → (∀ c', shared_circuit shared key = Some c' → c' = c) →
  circuits (reloadShared (put_circuit a key c) shared) !! key = Some c.
Proof.
  intros Hk Hsame. rewrite reload_circuit by done. destruct (shared_circuit shared key) as [c'|]; [by rewrite (Hsame c')|].
  cbn. apply lookup_insert_eq.
Qed.

Lemma reload_persist_put a a' shared key c :
  keyed a → good_key key →
  circuits (reloadShared (put_circuit a key c) (persistSharedLocked (put_circuit a key c) shared)) !! key = Some c ∧
  (is_Some shared → circuits (reloadShared a' (persistSharedLocked (put_circuit a key c) shared)) !! key = Some c).
Proof.
  intros Hka Hk. assert (Hkp : keyed (put_circuit a key c)) by (by apply keyed_put_circuit).
  assert (Hc : circuits (put_circuit a key c) !! key = Some c) by apply lookup_insert_eq.
  destruct shared as [s|]; [|split; [done|by intros []]].
  split; [|intros _]; rewrite reload_persist_circuit by done; by rewrite Hc.
Qed.

(** The circuit a replica works with. *)
Definition current_circuit a shared (key : backendAdmissionKey) : backendCircuit :=
  default closed_circuit (circuits (reloadShared a shared) !! key).

(** One consuming attempt on the circuit's value. *)
Definition circuit_step (cfg : CircuitBreakerConfig) (c : backendCircuit) (now : Time) : bool * backendCircuit :=
  if String.eqb (ci_state c) circuitStateOpen then
    if Before now (ci_nextProbeAt c) then (false, c)
    else (true, { c with ci_state := circuitStateHalfOpen; ci_halfOpenInFlight := 1; ci_recoverySuccesses := 0 })
  else if String.eqb (ci_state c) circuitStateHalfOpen then
    if normalizeHalfOpenMaxRequests cfg <=? ci_halfOpenInFlight c then (false, c)
    else (true, { c with ci_halfOpenInFlight := ci_halfOpenInFlight c + 1 })
  else (true, c).

Lemma circuitDecision_step a shared pool name cb now :
  keyed a → good_key (pool, name) →
  (∀ c', shared_circuit shared (pool, name) = Some c' → circuits a !! (pool, name) = Some c') →
  let c := default closed_circuit (circuits a !! (pool, name)) in
  ci_state c ≠ "" →
  let '(d, a', shared') := circuitDecision a shared pool name cb now true in
  let '(granted, c') := circuit_step cb c now in
  ad_Allowed d = granted ∧ (granted = false → ad_Reason d = "circuit-open" ∧ shared' = shared) ∧
  circuits (reloadShared a' shared') !! (pool, name) = Some c' ∧ circuits a' !! (pool, name) = Some c' ∧
  limits a' = limits a ∧ keyed a' ∧ (is_Some shared → granted = true → c' ≠ c → ∀ a2, circuits (reloadShared a2 shared') !! (pool, name) = Some c').
Proof.
  intros Hka Hkey Hshared c Hne. unfold circuitDecision.
  pose proof (circuit_fst a (pool, name)) as Hfst. pose proof (put_after_circuit a (pool, name)) as Hput.
  destruct (circuit a (pool, name)) as [c0 a0]. cbn [fst snd] in Hfst, Hput. subst c0. fold c.
  destruct (String.eqb_spec (ci_state c) "") as [He|_]; [done|]. rewrite !Hput.
  assert (Hpp : ∀ c1, put_circuit (put_circuit a (pool, name) c) (pool, name) c1 = put_circuit a (pool, name) c1).
  { intros c1. unfold put_circuit. destruct a. unfold tset, set. cbn. f_equal. apply insert_insert_eq. }
  assert (Hsame : ∀ c', shared_circuit shared (pool, name) = Some c' → c' = c).
  { intros c' Hc'. unfold c. by rewrite (Hshared c' Hc'). }
  assert (Hlk : ∀ c1, circuits (put_circuit a (pool, name) c1) !! (pool, name) = Some c1) by (intros; apply lookup_insert_eq).
  unfold circuit_step. rewrite !Hpp.
  assert (Hstay : circuits (reloadShared (put_circuit a (pool, name) c) shared) !! (pool, name) = Some c) by (by apply reload_put_circuit).
  assert (Hkp : ∀ c1, keyed (put_circuit a (pool, name) c1)) by (intros; by apply keyed_put_circuit).
  cbn [negb]. destruct (String.eqb (ci_state c) circuitStateOpen).
  - destruct (Before now (ci_nextProbeAt c)); [by split_and!|].
    match goal with |- context [persistSharedLocked (put_circuit a _ ?c1) _] => set (c1' := c1) end.
    split_and!; try done; [by apply (reload_persist_put a a)|]. intros Hs _ _ a2. by apply (reload_persist_put a a2).
  - destruct (String.eqb (ci_state c) circuitStateHalfOpen); [|by split_and!].
    destruct (normalizeHalfOpenMaxRequests cb <=? ci_halfOpenInFlight c); [by split_and!|].
    match goal with |- context [persistSharedLocked (put_circuit a _ ?c1) _] => set (c1' := c1) end.
    split_and!; try done; [by apply (reload_persist_put a a)|]. intros Hs _ _ a2. by apply (reload_persist_put a a2).
Qed.

(** A reload makes the local circuit agree with the document. *)
Lemma reload_agrees a shared key c' :
  good_key key → shared_circuit shared key = Some c' → circuits (reloadShared a shared) !! key = Some c'.
Proof. intros Hk Hs. by rewrite reload_circuit, Hs. Qed.

Lemma allow_circuit a shared pool name cfg now warm :
  let cb := bc_CircuitBreaker cfg in
  let c := current_circuit a shared (pool, name) in
  cb_Enabled cb = true → negb warm && rl_Enabled (bc_RateLimit cfg) = false →
  keyed a → good_key (pool, name) → ci_state c ≠ "" →
  let '(d, a', shared') := allow a shared pool name cfg now warm true in
  let '(granted, c') := circuit_step cb c now in
  ad_Allowed d = granted ∧ current_circuit a' shared' (pool, name) = c' ∧ keyed a'.
Proof.
  cbn zeta. intros Hcb Hrl Hka Hkey Hne. unfold allow. rewrite Hcb, Hrl.
  pose proof (circuitDecision_step (reloadShared a shared) shared pool name (bc_CircuitBreaker cfg) now
    (reload_keyed a shared Hka) Hkey (fun c' => reload_agrees a shared (pool, name) c' Hkey) Hne) as Hstep.
  fold (current_circuit a shared (pool, name)) in Hstep.
  destruct (circuitDecision _ _ _ _ _ _ _) as [[d a'] shared']. destruct (circuit_step _ _ _) as [granted c'].
  destruct Hstep as (Hd & _ & Hc & _ & _ & Hk & _). unfold current_circuit. rewrite Hd.
  destruct granted; cbn [negb]; rewrite Hc; by split_and!.
Qed.

Lemma open_circuit_denies a shared pool name cfg now warm c :
  cb_Enabled (bc_CircuitBreaker cfg) = true →
  circuits (reloadShared a shared) !! (pool, name) = Some c →
  ci_state c = circuitStateOpen → now < ci_nextProbeAt c →
  ad_Allowed (allow a shared pool name cfg now warm true).1.1 = false ∧
  (allow a shared pool name cfg now warm true).2 = shared.
Proof.
  intros Hcb Hc Hopen Hnow. unfold allow. rewrite Hcb. unfold circuitDecision.
  pose proof (circuit_fst (reloadShared a shared) (pool, name)) as Hfst. rewrite Hc in Hfst. cbn [default from_option] in Hfst.
  destruct (circuit _ _) as [c0 a0]. cbn [fst] in Hfst. unfold id in Hfst. subst c0. rewrite Hopen. cbn -[Before]. rewrite Hopen. cbn -[Before].
  unfold Before. destruct (Z.ltb_spec now (ci_nextProbeAt c)); [done|lia].
Qed.


Lemma half_open_max_pos cb : 0 < normalizeHalfOpenMaxRequests cb.
Proof. unfold normalizeHalfOpenMaxRequests, positive_or, defaultHalfOpenMaxRequests. case_match; reflect_bools; lia. Qed.

(** Consuming attempts on one backend, with the number allowed. *)
Fixpoint run_probes a shared (pool : PoolName) (name : BackendName) (cfg : BackendConfig) (warm : bool) (times : list Time) :
    Z * backendAdmission * option S :=
  match times with
  | [] => (0, a, shared)
  | now :: times =>
      let '(d, a, shared) := allow a shared pool name cfg now warm true in
      let '(n, a, shared) := run_probes a shared pool name cfg warm times in
      ((if ad_Allowed d then 1 else 0) + n, a, shared)
  end.

Lemma run_half_open pool name cfg warm times : ∀ a shared k,
  let cb := bc_CircuitBreaker cfg in
  let max := normalizeHalfOpenMaxRequests cb in
  cb_Enabled cb = true → negb warm && rl_Enabled (bc_RateLimit cfg) = false → keyed a → good_key (pool, name) →
  ci_state (current_circuit a shared (pool, name)) = circuitStateHalfOpen →
  ci_halfOpenInFlight (current_circuit a shared (pool, name)) = k → k ≤ max →
  let '(n, a', shared') := run_probes a shared pool name cfg warm times in
  n = Z.min (Z.of_nat (length times)) (max - k) ∧ keyed a' ∧
  ci_state (current_circuit a' shared' (pool, name)) = circuitStateHalfOpen ∧
  ci_halfOpenInFlight (current_circuit a' shared' (pool, name)) = k + n.
Proof.
  induction times as [|now times IH]; intros a shared k; cbn zeta; intros Hcb Hrl Hka Hkey Hst Hk Hmax; cbn [run_probes].
  { cbn [length]. split_and!; try done; lia. }
  pose proof (allow_circuit a shared pool name cfg now warm Hcb Hrl Hka Hkey) as Hstep. rewrite Hst in Hstep.
  specialize (Hstep ltac:(done)). unfold circuit_step in Hstep. rewrite Hst in Hstep. cbn [String.eqb] in Hstep.
  change (String.eqb circuitStateHalfOpen circuitStateOpen) with false in Hstep.
  change (String.eqb circuitStateHalfOpen circuitStateHalfOpen) with true in Hstep. cbn match in Hstep. rewrite Hk in Hstep.
  destruct (allow a shared pool name cfg now warm true) as [[d a1] sh1]. rewrite length_cons.
  destruct (Z.leb_spec (normalizeHalfOpenMaxRequests (bc_CircuitBreaker cfg)) k); destruct Hstep as (-> & Hc & Hk1).
  - specialize (IH a1 sh1 k Hcb Hrl Hk1 Hkey). rewrite Hc in IH. specialize (IH Hst Hk Hmax).
    destruct (run_probes a1 sh1 pool name cfg warm times) as [[n a'] sh']. destruct IH as (-> & ? & ? & ->).
    split_and!; try done; lia.
  - specialize (IH a1 sh1 (k + 1) Hcb Hrl Hk1 Hkey). rewrite Hc in IH. cbn in IH. specialize (IH Hst eq_refl ltac:(lia)).
    destruct (run_probes a1 sh1 pool name cfg warm times) as [[n a'] sh']. destruct IH as (-> & ? & ? & ->).
    split_and!; try done; lia.
Qed.

Lemma half_open_stuck a shared pool name cfg now warm :
  let cb := bc_CircuitBreaker cfg in
  cb_Enabled cb = true → ci_state (current_circuit a shared (pool, name)) = circuitStateHalfOpen →
  normalizeHalfOpenMaxRequests cb ≤ ci_halfOpenInFlight (current_circuit a shared (pool, name)) →
  ad_Allowed (allow a shared pool name cfg now warm true).1.1 = false ∧
  (allow a shared pool name cfg now warm true).2 = shared ∧
  (probeDue (reloadShared a shared) pool name cfg now).1 = false.
Proof.
  cbn zeta. unfold current_circuit. intros Hcb Hst Hmax. unfold allow, probeDue. rewrite Hcb. cbn [negb]. unfold circuitDecision.
  pose proof (circuit_fst (reloadShared a shared) (pool, name)) as Hfst.
  destruct (circuit _ _) as [c0 a0]. cbn [fst] in Hfst. rewrite <- Hfst in Hst, Hmax. clear Hfst.
  assert (Hq1 : String.eqb (ci_state c0) "" = false) by (by rewrite Hst).
  assert (Hq2 : String.eqb (ci_state c0) circuitStateOpen = false) by (by rewrite Hst).
  assert (Hq3 : String.eqb (ci_state c0) circuitStateHalfOpen = true) by (by rewrite Hst).
  rewrite Hq1, Hq2, Hq3. cbn [negb]. destruct (Z.leb_spec (normalizeHalfOpenMaxRequests (bc_CircuitBreaker cfg)) (ci_halfOpenInFlight c0)); [|lia].
  split_and!; try done. cbn [fst]. by rewrite Hst.
Qed.


(** A rate-limited probe loses its half-open slot: when an open circuit is due but the backend's
    permits are spent, a consuming attempt is refused as rate-limited after it has taken the
    half-open slot, and the slot is shared with every replica; with one half-open request
    configured, no attempt of any replica is admitted afterwards, at any time. *)
Theorem rate_limited_probe_loses_half_open_slot a s pool name cfg t :
  let cb := bc_CircuitBreaker cfg in
  let a0 := reloadShared a (Some s) in
  let c := current_circuit a (Some s) (pool, name) in
  cb_Enabled cb = true → rl_Enabled (bc_RateLimit cfg) = true → keyed a → good_key (pool, name) →
  ci_state c = circuitStateOpen → ci_nextProbeAt c ≤ t →
  (limit_step (bc_RateLimit cfg) (limits a0 !! (pool, name)) t).1 = false →
  normalizeHalfOpenMaxRequests cb = 1 →
  let '(d, a', shared') := allow a (Some s) pool name cfg t false true in
  ad_Allowed d = false ∧ ad_Reason d = "rate-limited" ∧
  ∀ a2 now warm, ad_Allowed (allow a2 shared' pool name cfg now warm true).1.1 = false ∧
                 (probeDue (reloadShared a2 shared') pool name cfg now).1 = false.
Proof.
  cbn zeta. intros Hcb Hrl Hka Hkey Hst Hdue Hlim Hmax. unfold allow at 1. rewrite Hcb, Hrl. cbn [negb andb].
  set (a0 := reloadShared a (Some s)) in *. assert (Hk0 : keyed a0) by (by apply reload_keyed).
  unfold current_circuit in Hst, Hdue. fold a0 in Hst, Hdue.
  pose proof (circuitDecision_step a0 (Some s) pool name (bc_CircuitBreaker cfg) t Hk0 Hkey
    (fun c' => reload_agrees a (Some s) (pool, name) c' Hkey)) as Hstep. cbn zeta in Hstep.
  rewrite Hst in Hstep. specialize (Hstep ltac:(done)). unfold circuit_step, Before in Hstep. rewrite Hst in Hstep.
  change (String.eqb circuitStateOpen circuitStateOpen) with true in Hstep. cbn match in Hstep.
  destruct (Z.ltb_spec t (ci_nextProbeAt (default closed_circuit (circuits a0 !! (pool, name))))); [lia|].
  destruct (circuitDecision a0 (Some s) pool name (bc_CircuitBreaker cfg) t true) as [[d a1] sh1].
  destruct Hstep as (Hd & _ & _ & _ & Hlims & _ & Hall). rewrite Hd. cbn [negb].
  set (c' := { _ with ci_state := circuitStateHalfOpen; ci_halfOpenInFlight := 1; ci_recoverySuccesses := 0 }) in *.
  assert (Hne : c' ≠ default closed_circuit (circuits a0 !! (pool, name))).
  { intros Heq. rewrite <- Heq in Hst. unfold c' in Hst. cbn in Hst. done. }
  specialize (Hall ltac:(by eexists) eq_refl Hne).
  unfold rateLimitDecision. rewrite Hlims.
  change (if IsZero _ || _ then _ else _) with (rolled_limit (bc_RateLimit cfg) (limits a0 !! (pool, name)) t).
  unfold limit_step in Hlim. destruct (rate_permits (bc_RateLimit cfg) <=? _); [|done].
  split_and!; [done|done|]. intros a2 now warm.
  assert (Hcur : current_circuit a2 sh1 (pool, name) = c') by (unfold current_circuit; by rewrite Hall).
  destruct (half_open_stuck a2 sh1 pool name cfg now warm Hcb) as (? & _ & ?); [by rewrite Hcur|rewrite Hcur, Hmax; cbn; lia|done].
Qed.

(** Recording an outcome writes back a replica's whole view: a replica that records a failure on
    one backend overwrites every rate limit it knows with its own copy, so permits another
    replica has spent in the meantime are given back to everyone who reads the store next. *)
Theorem recording_restores_spent_permits a1 a2 s pool name cfg reason t key limit :
  cb_Enabled (bc_CircuitBreaker cfg) = true → tripReasonEnabled (bc_CircuitBreaker cfg) reason = true →
  keyed a2 → good_key (pool, name) → limits a2 !! key = Some limit →
  limits (reloadShared a1 (recordFailure a2 (Some s) pool name cfg reason t).2) !! key = Some limit.
Proof.
  intros Hcb Htrip Hka Hkey Hlim. unfold recordFailure.
  assert (Htrip' : tripReasonEnabled (bc_CircuitBreaker cfg) (NormalizeFailureReason reason) = true).
  { unfold tripReasonEnabled in *. by rewrite NormalizeFailureReason_idem. }
  rewrite Hcb, Htrip'. cbn [negb orb].
  pose proof (put_after_circuit a2 (pool, name)) as Hput. destruct (circuit a2 (pool, name)) as [c0 a0]. cbn [snd] in Hput.
  assert (Hgood : good_key key) by (apply (proj2 Hka); by eexists).
  case_match; cbn [snd]; rewrite Hput, reload_persist_limit by (try apply keyed_put_circuit; done); cbn; by rewrite Hlim.
Qed.
End Circuits.

(** ** Witnesses *)

#[local] Existing Instance range_forward.

Definition breaker_backend : BackendConfig :=
  { zero_BackendConfig with bc_Enabled := true; bc_Healthy := true;
      bc_CircuitBreaker := { zero_CircuitBreakerConfig with cb_Enabled := true; cb_FailureThreshold := 1 } }.

Definition limited_backend : BackendConfig :=
  { zero_BackendConfig with bc_Enabled := true; bc_Healthy := true;
      bc_RateLimit := {| rl_Enabled := true; rl_Permits := 2; rl_Interval := 100; rl_Burst := 0 |} }.

Definition both_backend : BackendConfig :=
  { breaker_backend with bc_RateLimit := {| rl_Enabled := true; rl_Permits := 1; rl_Interval := 100; rl_Burst := 0 |} }.

Definition no_admission : backendAdmission := {| circuits := ∅; limits := ∅ |}.

Definition one_limit (pool : PoolName) (used : Z) : backendAdmission :=
  {| circuits := ∅; limits := {[ (pool, "lambda") := {| li_windowStart := 10; li_used := used |} ]} |}.

Definition open_at (due : Time) : backendAdmission :=
  {| circuits := {[ ("lite", "lambda") := { closed_circuit with ci_state := circuitStateOpen; ci_nextProbeAt := due } ]};
     limits := {[ ("lite", "lambda") := {| li_windowStart := 10; li_used := 1 |} ]} |}.

Lemma well_keyed_empty {A} : well_keyed (∅ : gmap backendAdmissionKey A).
Proof. intros k [x Hx]. by rewrite lookup_empty in Hx. Qed.

Lemma well_keyed_singleton {A} k (x : A) : good_key k → well_keyed {[ k := x ]}.
Proof. intros Hk k' [y [<- _]%lookup_singleton_Some]. done. Qed.

Lemma keyed_open_at due : keyed (open_at due).
Proof. split; by apply well_keyed_singleton. Qed.

Lemma admission_state_survives_restart_witness :
  newBackendAdmission (persistSharedLocked (one_limit "lite" 1) (Some Memory.NewMemory)) = one_limit "lite" 1.
Proof.
  refine (proj1 (admission_state_survives_restart (one_limit "lite" 1) Memory.NewMemory zero_AdmissionStateDocument _ _)).
  - split; [apply well_keyed_empty|by apply well_keyed_singleton].
  - reflexivity.
Defined.

Lemma rate_limit_bounds_admissions_witness :
  run_admissions no_admission (Some Memory.NewMemory) "lite" "lambda" limited_backend [10; 20; 30] = 2.
Proof.
  refine (eq_trans (proj2 (rate_limit_bounds_admissions no_admission (Some Memory.NewMemory) "lite" "lambda" limited_backend
    10 [20; 30] 30 _ _ _ _ _ _ _ _) _) _).
  - reflexivity.
  - reflexivity.
  - split; apply well_keyed_empty.
  - reflexivity.
  - vm_compute. reflexivity.
  - lia.
  - repeat constructor; lia.
  - repeat constructor; lia.
  - vm_compute. reflexivity.
  - reflexivity.
Defined.



Lemma rate_limited_probe_loses_half_open_slot_witness :
  let '(d, _, shared') := allow (open_at 20) (Some Memory.NewMemory) "lite" "lambda" both_backend 20 false true in
  ad_Reason d = "rate-limited" ∧
  ad_Allowed (allow no_admission shared' "lite" "lambda" both_backend (1000 * Hour) false true).1.1 = false.
Proof.
  pose proof (rate_limited_probe_loses_half_open_slot (open_at 20) Memory.NewMemory "lite" "lambda" both_backend 20
    eq_refl eq_refl (keyed_open_at 20) eq_refl) as Hc.
  cbn zeta in Hc. specialize (Hc ltac:(vm_compute; reflexivity) ltac:(vm_compute; discriminate) ltac:(vm_compute; reflexivity) eq_refl).
  destruct (allow _ _ _ _ _ _ _ _) as [[d a'] shared']. destruct Hc as (_ & Hr & Hall). split; [exact Hr|]. apply Hall.
Defined.

Lemma recording_restores_spent_permits_witness :
  limits (reloadShared no_admission
    (recordFailure (one_limit "lite" 0) (Some Memory.NewMemory) "full" "ec2" breaker_backend "timeout" 30).2)
    !! ("lite", "lambda") = Some {| li_windowStart := 10; li_used := 0 |}.
Proof.
  apply (recording_restores_spent_permits no_admission (one_limit "lite" 0) Memory.NewMemory "full" "ec2" breaker_backend "timeout" 30
    ("lite", "lambda") {| li_windowStart := 10; li_used := 0 |}); try reflexivity.
  split; [apply well_keyed_empty|by apply well_keyed_singleton].
Defined.

(** With a slash in the pool name the key is split in the wrong place and the
    limit comes back under another pool. *)
Example slash_in_pool_name_is_split :
  newBackendAdmission (persistSharedLocked (one_limit "a/b" 1) (Some Memory.NewMemory)) =
    {| circuits := ∅; limits := {[ ("a", "b/lambda") := {| li_windowStart := 10; li_used := 1 |} ]} |}.
Proof. vm_compute. reflexivity. Qed.
