(* ===== verification/Warm.v ===== *)
(** Warm pools: src/internal/api/warm.go.

    Warm bounds and their schedule, warm targets and the warm allocations of a
    backend.  UTC is computed; another time zone is the parameter [zone], the
    offset from UTC its rules give at an instant ([time.LoadLocation]). *)

From S2P Require Import Prelude Errors Model Budget.

Definition defaultWarmTTL : Duration := 15 * Minute.

Definition isWarmProvisionableBackend (backendName : BackendName) : bool :=
  existsb (String.eqb backendName)
    [BackendCodeBuild; BackendLambda; BackendCloudRun; BackendAzureFunctions; BackendEC2; BackendGCE].

Definition resolveWarmTTL (cfg : BackendConfig) : Duration :=
  if 0 <? bc_WarmTTL cfg then bc_WarmTTL cfg else defaultWarmTTL.

(** [min < 0], [max < 0], [max < min], in that order. *)
Definition clamp_bounds (min max : Z) : Z * Z :=
  let min := if min <? 0 then 0 else min in
  let max := if max <? 0 then 0 else max in
  let max := if max <? min then min else max in
  (min, max).

Definition normalizeWarmBounds (cfg : BackendConfig) : Z * Z := clamp_bounds (bc_WarmMin cfg) (bc_WarmMax cfg).

(** ** Clocks *)

Inductive Weekday := Sunday | Monday | Tuesday | Wednesday | Thursday | Friday | Saturday.

(** The zero Time's day, 0001-01-01, is a Monday. *)
Definition weekday_of (day : Z) : Weekday :=
  match day mod 7 with
  | 0 => Monday | 1 => Tuesday | 2 => Wednesday | 3 => Thursday | 4 => Friday | 5 => Saturday | _ => Sunday
  end.

(** What [now.In(loc)] shows: the weekday and the minute of the day. *)
Record local_clock := { lc_Weekday : Weekday; lc_Minute : Z }.

Definition clock_at (now : Time) (offset : Duration) : local_clock :=
  let local := now + offset in
  {| lc_Weekday := weekday_of (local / Day); lc_Minute := local mod Day / Minute |}.

Definition weekdayToken (day : Weekday) : string :=
  match day with
  | Monday => "mon" | Tuesday => "tue" | Wednesday => "wed" | Thursday => "thu" | Friday => "fri"
  | Saturday => "sat" | Sunday => "sun"
  end.

Definition normalizeWeekdayToken (day : string) : string :=
  let token := ToLower (TrimSpace day) in
  let among l := existsb (String.eqb token) l in
  if among ["monday"; "mon"] then "mon"
  else if among ["tuesday"; "tue"; "tues"] then "tue"
  else if among ["wednesday"; "wed"] then "wed"
  else if among ["thursday"; "thu"; "thur"; "thurs"] then "thu"
  else if among ["friday"; "fri"] then "fri"
  else if among ["saturday"; "sat"] then "sat"
  else if among ["sunday"; "sun"] then "sun"
  else token.

Definition warmWindowDayMatches (days : list string) (weekday : Weekday) : bool :=
  (length days =? 0)%nat || existsb (fun day => String.eqb (normalizeWeekdayToken day) (weekdayToken weekday)) days.

(** ** Clock values *)

Definition digit_value (c : ascii) : option Z :=
  let n := Z.of_nat (nat_of_ascii c) in
  if (48 <=? n) && (n <=? 57) then Some (n - 48) else None.

(** The longest run of digits, as a number; [None] when there is none. *)
Fixpoint scan_digits (s : string) (acc : option Z) : option Z :=
  match s with
  | EmptyString => acc
  | String c s' =>
      match digit_value c with
      | Some d => scan_digits s' (Some (10 * default 0 acc + d))
      | None => acc
      end
  end.

Definition newline : ascii := ascii_of_nat 10.
Definition carriage_return : ascii := ascii_of_nat 13.

(** The spaces [Sscanf] skips before a verb; a newline is an error. *)
Fixpoint skip_space (s : string) : option string :=
  match s with
  | EmptyString => Some EmptyString
  | String c s' =>
      if Ascii.eqb c newline then None
      else if Ascii.eqb c carriage_return &&
              match s' with String d _ => Ascii.eqb d newline | EmptyString => false end then None
      else if ascii_is_space c then skip_space s'
      else Some s
  end.

(** [fmt.Sscanf(s, "%d", &n)] into an [int]: leading spaces, an optional sign,
    digits; what follows the digits is ignored. *)
Definition Sscanf_d (s : string) : option Z :=
  match skip_space s with
  | None => None
  | Some s =>
      let '(sign, s) :=
        match s with
        | String c s' =>
            if Ascii.eqb c (ascii_of_nat 45) then (-1, s')
            else if Ascii.eqb c (ascii_of_nat 43) then (1, s') else (1, s)
        | EmptyString => (1, s)
        end in
      match scan_digits s None with
      | None => None
      | Some n => if (min_int64 <=? sign * n) && (sign * n <=? max_int64) then Some (sign * n) else None
      end
  end.

Definition parseClockMinutes (value : string) : result Z :=
  let value := TrimSpace value in
  if String.eqb value "" then Fail (Errorf "empty clock value")
  else
    let hour_minute h m :=
      match Sscanf_d h with
      | None => Fail (Errorf "invalid hour")
      | Some hour =>
          match Sscanf_d m with
          | None => Fail (Errorf "invalid minute")
          | Some minute =>
              if (hour <? 0) || (23 <? hour) || (minute <? 0) || (59 <? minute)
              then Fail (Errorf "clock out of range")
              else Ok (hour * 60 + minute)
          end
      end in
    match Split value colon with
    | [h; m] => hour_minute h m
    | [h; m; s] =>
        let? minutes := hour_minute h m in
        match Sscanf_d s with
        | None => Fail (Errorf "invalid second")
        | Some second => if (second <? 0) || (59 <? second) then Fail (Errorf "second out of range") else Ok minutes
        end
    | _ => Fail (Errorf "expected HH:MM or HH:MM:SS")
    end.

Definition minutes_active (startMin endMin nowMin : Z) : bool :=
  if startMin =? endMin then true
  else if startMin <? endMin then (startMin <=? nowMin) && (nowMin <? endMin)
  else (startMin <=? nowMin) || (nowMin <? endMin).

Definition warmWindowActive (window : WarmWindowConfig) (local : local_clock) : result bool :=
  if negb (warmWindowDayMatches (ww_Days window) (lc_Weekday local)) then Ok false
  else match parseClockMinutes (ww_Start window) with
  | Fail err => Fail (Wrapf ("warmSchedule window start " +:+ quote (ww_Start window) +:+ ": ") err "")
  | Ok startMin =>
      match parseClockMinutes (ww_End window) with
      | Fail err => Fail (Wrapf ("warmSchedule window end " +:+ quote (ww_End window) +:+ ": ") err "")
      | Ok endMin => Ok (minutes_active startMin endMin (lc_Minute local))
      end
  end.

Section Schedule.
(** [time.LoadLocation]: the offset from UTC at an instant, or an error. *)
Context (zone : string → result (Time → Duration)).

Definition loadWarmLocation (name : string) : result (Time → Duration) :=
  let name := TrimSpace name in
  if String.eqb name "" || EqualFold name "UTC" || EqualFold name "Local" then Ok (fun _ => 0)
  else match zone name with
       | Fail err => Fail (Wrapf ("warmSchedule.timezone " +:+ quote name +:+ ": ") err "")
       | Ok offset => Ok offset
       end.

(** The loop over the windows. *)
Fixpoint scheduled_bounds (baseMin baseMax : Z) (local : local_clock) (windows : list WarmWindowConfig) :
    result (Z * Z) :=
  match windows with
  | [] => Ok (0, 0)
  | window :: windows =>
      match warmWindowActive window local with
      | Fail err => Fail err
      | Ok false => scheduled_bounds baseMin baseMax local windows
      | Ok true => Ok (clamp_bounds (default baseMin (ww_WarmMin window)) (default baseMax (ww_WarmMax window)))
      end
  end.

Definition effectiveWarmBounds (cfg : BackendConfig) (now : Time) : result (Z * Z) :=
  let '(baseMin, baseMax) := normalizeWarmBounds cfg in
  match bc_WarmSchedule cfg with
  | None => Ok (baseMin, baseMax)
  | Some schedule =>
      if (length (ws_Windows schedule) =? 0)%nat then Ok (baseMin, baseMax)
      else
        let? offset := loadWarmLocation (ws_Timezone schedule) in
        scheduled_bounds baseMin baseMax (clock_at now (offset now)) (ws_Windows schedule)
  end.
End Schedule.

Definition normalizeWarmTarget (min max maxRunners : Z) : Z :=
  if maxRunners <=? 0 then 0
  else
    let max := if maxRunners <? max then maxRunners else max in
    let min := if min <? 0 then 0 else min in
    if max <? min then max else min.

Definition isWarmExpired (status : AllocationStatus) (now : Time) (ttl : Duration) : bool :=
  if ttl <=? 0 then false
  else negb (IsZero (as_ExpiresAt status)) && negb (Before now (as_ExpiresAt status)).

Definition is_warm_of (poolName : PoolName) (backendName : BackendName) (status : AllocationStatus) : bool :=
  String.eqb (as_Pool status) poolName && String.eqb (as_SelectedBackend status) backendName &&
  state_eqb (as_State status) StateWarm.

Definition filterWarmAllocations (statuses : list AllocationStatus) (poolName : PoolName) (backendName : BackendName) :
    list AllocationStatus :=
  filter (fun status => is_warm_of poolName backendName status = true) statuses.

Definition filterFreshWarm (statuses : list AllocationStatus) (poolName : PoolName) (backendName : BackendName)
    (now : Time) (ttl : Duration) : list AllocationStatus :=
  filter (fun status => is_warm_of poolName backendName status && negb (isWarmExpired status now ttl) = true) statuses.

(** ** Theorems *)

Lemma clamp_bounds_ordered min max : 0 ≤ (clamp_bounds min max).1 ≤ (clamp_bounds min max).2.
Proof. unfold clamp_bounds. cbn. repeat case_match; reflect_bools; lia. Qed.

Lemma scheduled_bounds_ordered baseMin baseMax local windows min max :
  scheduled_bounds baseMin baseMax local windows = Ok (min, max) → 0 ≤ min ≤ max.
Proof.
  induction windows as [|w windows IH]; cbn [scheduled_bounds]; [intros [= <- <-]; lia|].
  destruct (warmWindowActive w local) as [[]|]; [|done|done].
  pose proof (clamp_bounds_ordered (default baseMin (ww_WarmMin w)) (default baseMax (ww_WarmMax w))) as Hb.
  destruct (clamp_bounds _ _) as [lo hi]. by intros [= -> ->].
Qed.

Lemma parseClockMinutes_range value minutes : parseClockMinutes value = Ok minutes → 0 ≤ minutes < 1440.
Proof.
  unfold parseClockMinutes. case_match; [done|].
  assert (Hhm : ∀ h m n, match Sscanf_d h with
    | None => Fail (Errorf "invalid hour")
    | Some hour => match Sscanf_d m with
      | None => Fail (Errorf "invalid minute")
      | Some minute => if (hour <? 0) || (23 <? hour) || (minute <? 0) || (59 <? minute)
          then Fail (Errorf "clock out of range") else Ok (hour * 60 + minute) end end = Ok n → 0 ≤ n < 1440).
  { intros h m n. destruct (Sscanf_d h); [|done]. destruct (Sscanf_d m); [|done]. case_match eqn:Hr; [done|].
    intros [= <-]. reflect_bools. lia. }
  destruct (Split _ _) as [|h [|m [|sec [|? ?]]]]; try done; [apply Hhm|].
  destruct (match Sscanf_d h with Some _ => _ | None => _ end) as [n|] eqn:Hn; [|done]. apply Hhm in Hn.
  destruct (Sscanf_d sec); [|done]. case_match; [done|]. by intros [= <-].
Qed.

(** Warm capacity follows its schedule safely: the bounds in force satisfy 0 <= warmMin <=
    warmMax, the target never exceeds maxRunners, times outside every window hold no warm
    capacity, and the window from A to B and the window from B to A split the day between them
    (also when one crosses midnight). *)
Theorem warm_bounds_follow_schedule zone cfg now min max maxRunners :
  effectiveWarmBounds zone cfg now = Ok (min, max) →
  0 ≤ min ≤ max ∧ 0 ≤ normalizeWarmTarget min max maxRunners ≤ Z.max 0 maxRunners ∧
  normalizeWarmTarget min max maxRunners ≤ min ∧
  (∀ schedule offset, bc_WarmSchedule cfg = Some schedule → ws_Windows schedule ≠ [] →
     loadWarmLocation zone (ws_Timezone schedule) = Ok offset →
     Forall (λ w, warmWindowActive w (clock_at now (offset now)) = Ok false) (ws_Windows schedule) → min = 0 ∧ max = 0) ∧
  (∀ a b local, 0 ≤ local → a ≠ b → minutes_active b a local = negb (minutes_active a b local)).
Proof.
  intros Hbounds. assert (Hmm : 0 ≤ min ≤ max).
  { revert Hbounds. unfold effectiveWarmBounds, normalizeWarmBounds.
    pose proof (clamp_bounds_ordered (bc_WarmMin cfg) (bc_WarmMax cfg)) as Hc.
    destruct (clamp_bounds _ _) as [bmin bmax]. cbn in Hc. destruct (bc_WarmSchedule cfg) as [sch|]; [|by intros [= <- <-]].
    case_match; [by intros [= <- <-]|]. destruct (loadWarmLocation zone _) as [off|]; [|done]. apply scheduled_bounds_ordered. }
  assert (Ht : 0 ≤ normalizeWarmTarget min max maxRunners ≤ Z.max 0 maxRunners ∧ normalizeWarmTarget min max maxRunners ≤ min).
  { unfold normalizeWarmTarget. repeat case_match; reflect_bools; lia. }
  split_and!; [lia|lia|lia|lia|lia| |].
  - intros sch off Hs Hne Hoff Hall. revert Hbounds. unfold effectiveWarmBounds. destruct (normalizeWarmBounds cfg) as [bmin bmax].
    rewrite Hs. destruct (ws_Windows sch) as [|w ws] eqn:Hw; [done|]. cbn [length Nat.eqb]. rewrite Hoff.
    clear Hne Hw. intros Hb. induction Hall as [|w' ws' Hf _ IH]; cbn [scheduled_bounds] in Hb; [by simplify_eq|].
    rewrite Hf in Hb. by apply IH.
  - intros a b local Hl Hab. unfold minutes_active.
    destruct (Z.eqb_spec a b), (Z.eqb_spec b a), (Z.ltb_spec a b), (Z.ltb_spec b a), (Z.leb_spec a local), (Z.leb_spec b local),
      (Z.ltb_spec local a), (Z.ltb_spec local b); cbn; try done; lia.
Qed.

(** Weekdays from 22:00 to 06:00 in UTC. *)
Definition night_backend : BackendConfig :=
  { zero_BackendConfig with bc_WarmMin := 1; bc_WarmMax := 2;
      bc_WarmSchedule := Some {| ws_Timezone := "utc"; ws_Windows :=
        [{| ww_Days := ["Mon"; "tuesday"]; ww_Start := "22:00"; ww_End := "06:00"; ww_WarmMin := Some 3; ww_WarmMax := None |}] |} }.

Definition no_zone (name : string) : result (Time → Duration) := Fail (Errorf "unknown time zone").

Lemma warm_bounds_follow_schedule_witness :
  effectiveWarmBounds no_zone night_backend (23 * Hour) = Ok (3, 3) ∧ normalizeWarmTarget 3 3 2 ≤ 2.
Proof.
  assert (Hb : effectiveWarmBounds no_zone night_backend (23 * Hour) = Ok (3, 3)) by (vm_compute; reflexivity).
  split; [exact Hb|]. apply (warm_bounds_follow_schedule no_zone night_backend (23 * Hour) 3 3 2 Hb).
Defined.

(** A clock value with trailing garbage is accepted; the zero Time is a Monday. *)
Example clock_with_garbage : parseClockMinutes "8x:30y" = Ok 510.
Proof. vm_compute. reflexivity. Qed.
Example zero_time_is_monday : lc_Weekday (clock_at 0 0) = Monday.
Proof. reflexivity. Qed.
