(* ===== verification/Config.v ===== *)
(** The configuration rules: src/internal/config/validate.go, and the default
    configuration and Load of src/internal/config/load.go.

    A rule returns [None] where the Go function returns nil.  The zone database
    is the parameter [zone], as in Warm.v; reading a file and YAML decoding are
    arguments of [Load].  Every pointer of a decoded configuration is distinct,
    so two BackendConfig share their Kubernetes pointer exactly when they are
    the same pool's entry of the same name. *)

From stdpp Require Import pretty.
From Stdlib Require Import Floats.SpecFloat.
From S2P Require Import Prelude Errors Model Store Backends Warm.
Open Scope Z_scope.
Open Scope go_scope.

(** ** Rules *)

(** The first rule that fails decides: a sequence of
    [if err := rule(cfg); err != nil { return err }]. *)
Definition first_of (rules : list (option error)) : option error := head (omap id rules).

(** [for _, x := range l { if err := rule(x); ... }] *)
Definition for_each {A} (rule : A → option error) (l : list A) : option error := first_of (rule <$> l).

(** [if bad { return fmt.Errorf(msg) }] *)
Definition deny (bad : bool) (msg : string) : option error := if bad then Some (Errorf msg) else None.

(** A loop that carries state and may return early. *)
Fixpoint fold_rules {St A} (step : St → A → result St) (st : St) (l : list A) : result St :=
  match l with
  | [] => Ok st
  | x :: l => let? st := step st x in fold_rules step st l
  end.

(** ** Package strings, regexp and reflect *)

Definition comma : string := ",".
Definition star : ascii := ascii_of_nat 42.
Definition hyphen : ascii := ascii_of_nat 45.
Definition space : ascii := ascii_of_nat 32.

Definition lower_alnum (c : ascii) : bool :=
  let n := nat_of_ascii c in ((97 <=? n) && (n <=? 122) || (48 <=? n) && (n <=? 57))%nat.

(** [^[a-z0-9]([a-z0-9-]{0,61}[a-z0-9])?$] *)
Definition validName (s : string) : bool :=
  let cs := String.list_ascii_of_string s in
  (1 <=? length cs)%nat && (length cs <=? 63)%nat &&
  forallb (fun c => lower_alnum c || Ascii.eqb c hyphen) cs &&
  match head cs, last cs with Some a, Some z => lower_alnum a && lower_alnum z | _, _ => false end.

(** A scalar key of a map[any]any, compared with [==]. *)
Definition key_eqb (v w : any) : bool :=
  match v, w with
  | AnyNil, AnyNil => true
  | AnyBool b, AnyBool c => Bool.eqb b c
  | AnyInt z, AnyInt y => z =? y
  | AnyFloat f, AnyFloat g => SFeqb f g
  | AnyString s, AnyString t => String.eqb s t
  | AnyTime t o, AnyTime u p => (t =? u) && (o =? p)
  | _, _ => false
  end.

Fixpoint assoc {K} (eqb : K → K → bool) (k : K) (m : list (K * any)) : option any :=
  match m with
  | [] => None
  | (k', v) :: m => if eqb k k' then Some v else assoc eqb k m
  end.

Section Entries.
Context (DeepEqual : any → any → bool).

(** Every entry has an equal one under its key. *)
Fixpoint entries_equal {K} (eqb : K → K → bool) (m n : list (K * any)) : bool :=
  match m with
  | [] => true
  | (k, v) :: m => match assoc eqb k n with Some w => DeepEqual v w | None => false end && entries_equal eqb m n
  end.

Fixpoint elements_equal (l k : list any) : bool :=
  match l, k with
  | [], [] => true
  | v :: l, w :: k => DeepEqual v w && elements_equal l k
  | _, _ => false
  end.
End Entries.

(** [reflect.DeepEqual] on decoded values: a NaN equals nothing. *)
Fixpoint DeepEqual (v w : any) {struct v} : bool :=
  match v, w with
  | AnyList l, AnyList k => elements_equal DeepEqual l k
  | AnyMap m, AnyMap n => (length m =? length n)%nat && entries_equal DeepEqual String.eqb m n
  | AnyKeyMap m, AnyKeyMap n => (length m =? length n)%nat && entries_equal DeepEqual key_eqb m n
  | _, _ => key_eqb v w
  end.

Definition DeepEqual_podSpec (p q : option (gmap string any)) : bool :=
  match p, q with
  | None, None => true
  | Some p, Some q =>
      (size p =? size q)%nat && entries_equal DeepEqual String.eqb (map_to_list p) (map_to_list q)
  | _, _ => false
  end.

#[export] Instance KubernetesNodeGuardConfig_eq_dec : EqDecision KubernetesNodeGuardConfig.
Proof. solve_decision. Defined.

#[export] Instance AzureVMBackendConfig_eq_dec : EqDecision AzureVMBackendConfig.
Proof. solve_decision. Defined.

Definition DeepEqual_kubernetes (k l : option KubernetesBackendConfig) : bool :=
  match k, l with
  | None, None => true
  | Some k, Some l =>
      bool_decide (kb_PodLabels k = kb_PodLabels l) && bool_decide (kb_PodAnnotations k = kb_PodAnnotations l) &&
      bool_decide (kb_NodeGuard k = kb_NodeGuard l) && String.eqb (kb_Namespace k) (kb_Namespace l) &&
      String.eqb (kb_Image k) (kb_Image l) && String.eqb (kb_RunnerContainer k) (kb_RunnerContainer l) &&
      DeepEqual_podSpec (kb_PodSpec k) (kb_PodSpec l) && (kb_DeadlineGrace k =? kb_DeadlineGrace l)
  | _, _ => false
  end.

Definition normalizeString (value : string) : string := ToLower (TrimSpace value).

Definition normalizeStringDefault (value fallback : string) : string :=
  let normalized := normalizeString value in
  if String.eqb normalized "" then fallback else normalized.

Definition one_of (s : string) (l : list string) : bool := existsb (String.eqb s) l.

(** float64 comparisons; 1 is normalised as IEEE 754 binary64 has it. *)
Definition float_zero : spec_float := S754_zero false.
Definition float_one : spec_float := S754_finite false 4503599627370496 (-52).
Definition negative (f : spec_float) : bool := SFltb f float_zero.
Definition positive (f : spec_float) : bool := SFltb float_zero f.

(** ** Rules on the broker section *)

Definition validateStateStore (cfg : StateStoreConfig) : option error :=
  let type := normalizeStringDefault (ss_Type cfg) "memory" in
  if String.eqb type "memory" then None
  else if String.eqb type "file" then
    deny (blank (ss_Path cfg)) "broker.stateStore.path is required when type is file"
  else if String.eqb type "postgres" then
    if blank (ss_DSN cfg) && blank (ss_DSNEnv cfg) then None else None
  else Some (Errorf ("broker.stateStore.type " +:+ quote (ss_Type cfg) +:+ " is not supported")).

Definition HAEnabled (cfg : BrokerRuntimeConfig) : bool :=
  match ha_Enabled (br_HA cfg) with
  | Some enabled => enabled
  | None => String.eqb (normalizeStringDefault (ss_Type (br_StateStore cfg)) "memory") "postgres"
  end.

Definition validateHA (cfg : BrokerRuntimeConfig) : option error :=
  deny (ha_LeaseTTL (br_HA cfg) <? 0) "broker.ha.leaseTTL must not be negative".

Definition validateAdmissionQueue (cfg : AdmissionQueueConfig) : option error :=
  first_of [
    deny (aq_RetryAfter cfg <? 0) "broker.queue.retryAfter must not be negative";
    deny (aq_MaxAttempts cfg <? 0) "broker.queue.maxAttempts must not be negative"].

Definition validateLiveCapacity (cfg : LiveCapacityConfig) : option error :=
  if negb (lc_Enabled cfg) then None
  else first_of [
    deny (negb (one_of (normalizeStringDefault (lc_FailureMode cfg) "pass-through")
                  ["pass-through"; "block"; "block-stale"; "fail-closed"]))
      ("broker.liveCapacity.failureMode " +:+ quote (lc_FailureMode cfg) +:+ " is not supported");
    deny (lc_RefreshInterval cfg <? 0) "broker.liveCapacity.refreshInterval must not be negative";
    deny (lc_StaleAfter cfg <? 0) "broker.liveCapacity.staleAfter must not be negative";
    deny (lc_ProbeTimeout cfg <? 0) "broker.liveCapacity.probeTimeout must not be negative"].

Definition validateQualityAware (cfg : QualityAwareConfig) : option error :=
  if negb (qa_Enabled cfg) then None
  else
    let w := qa_Weights cfg in
    first_of [
      deny (qa_Window cfg <? 0) "broker.qualityAware.window must not be negative";
      deny (qa_MinSamples cfg <? 0) "broker.qualityAware.minSamples must not be negative";
      deny (negative (qw_FreeSlots w) || negative (qw_SuccessRate w) || negative (qw_Latency w) ||
            negative (qw_CapacityErrors w)) "broker.qualityAware.weights values must not be negative"].

Definition validateARCFirst (cfg : ARCFirstConfig) : option error :=
  first_of [
    deny (af_SaturationWait cfg <? 0) "broker.arcFirst.saturationWait must not be negative";
    deny (af_PollInterval cfg <? 0) "broker.arcFirst.pollInterval must not be negative"].

(** ** Outbound webhooks *)

Definition supportedWebhookEvents : list string :=
  ["ready"; "failed"; "expired"; "completed"; "canceled"; "cancelled"; "quarantined"].

Definition validateWebhookEvent (prefix event : string) : option error :=
  let normalized := normalizeString event in
  if String.eqb normalized "" then None
  else deny (negb (one_of (TrimPrefix normalized "allocation.") supportedWebhookEvents))
         (prefix +:+ ".events contains unsupported event " +:+ quote event).

Definition validateWebhookEndpoint (i : nat) (endpoint : WebhookEndpointConfig) : option error :=
  let prefix := "broker.webhooks.endpoints[" +:+ pretty i +:+ "]" in
  let url := normalizeString (we_URL endpoint) in
  first_of [
    deny (blank (we_URL endpoint)) (prefix +:+ ".url is required");
    deny (negb (HasPrefix url "http://") && negb (HasPrefix url "https://")) (prefix +:+ ".url must be an http(s) URL");
    deny (blank (we_SigningSecret endpoint) && blank (we_SigningSecretRef endpoint))
      (prefix +:+ " requires signingSecret or signingSecretRef");
    for_each (validateWebhookEvent prefix) (we_Events endpoint)].

Definition validateWebhooks (cfg : WebhooksConfig) : option error :=
  first_of [
    deny (wc_Timeout cfg <? 0) "broker.webhooks.timeout must not be negative";
    deny (wc_MaxAttempts cfg <? 0) "broker.webhooks.maxAttempts must not be negative";
    deny (wc_InitialBackoff cfg <? 0) "broker.webhooks.initialBackoff must not be negative";
    deny (wc_MaxBackoff cfg <? 0) "broker.webhooks.maxBackoff must not be negative";
    if negb (wc_Enabled cfg) then None
    else first_of [
      deny (length (wc_Endpoints cfg) =? 0)%nat "broker.webhooks.endpoints is required when webhooks are enabled";
      first_of (imap validateWebhookEndpoint (wc_Endpoints cfg))]].

(** ** Rules on one backend *)

Definition backend_prefix (pool : PoolName) (backend : BackendName) : string :=
  "pools[" +:+ pool +:+ "].backends[" +:+ backend +:+ "]".

Definition validateBudgetConfig (pool : PoolName) (backend : BackendName) (budget : BudgetConfig) : option error :=
  if negb (bu_Enabled budget) then None
  else
    let prefix := backend_prefix pool backend +:+ ".budget" in
    first_of [
      deny (bu_MaxAllocationsDaily budget <? 0) (prefix +:+ ".maxAllocationsDaily must not be negative");
      deny (bu_MaxAllocationsMonthly budget <? 0) (prefix +:+ ".maxAllocationsMonthly must not be negative");
      deny ((bu_MaxAllocationsDaily budget =? 0) && (bu_MaxAllocationsMonthly budget =? 0))
        (prefix +:+ " requires maxAllocationsDaily and/or maxAllocationsMonthly when enabled")].

Definition clock_part (part what : string) (limit : Z) : option error :=
  match Sscanf_d part with
  | None => Some (Errorf ("invalid " +:+ what))
  | Some n => deny ((n <? 0) || (limit <? n)) ("invalid " +:+ what)
  end.

Definition validateClock (value : string) : option error :=
  match Split (TrimSpace value) colon with
  | [h; m] => first_of [clock_part h "hour" 23; clock_part m "minute" 59]
  | [h; m; s] => first_of [clock_part h "hour" 23; clock_part m "minute" 59; clock_part s "second" 59]
  | _ => Some (Errorf "expected HH:MM or HH:MM:SS")
  end.

Definition weekday_tokens : list string :=
  ["monday"; "mon"; "tuesday"; "tue"; "tues"; "wednesday"; "wed"; "thursday"; "thu"; "thur"; "thurs";
   "friday"; "fri"; "saturday"; "sat"; "sunday"; "sun"].

Definition isWeekdayToken (day : string) : bool := one_of (normalizeString day) weekday_tokens.

(** [fmt.Errorf(pre + "%w", err)] when there is an error. *)
Definition within (pre : string) (err : option error) : option error := (fun err => Wrapf pre err "") <$> err.

Definition negative_override (n : option Z) : bool := match n with Some n => n <? 0 | None => false end.

Definition validateWarmWindow (pool backend : string) (index : nat) (window : WarmWindowConfig) : option error :=
  let prefix := backend_prefix pool backend +:+ ".warmSchedule.windows[" +:+ pretty index +:+ "]" in
  first_of [
    deny (blank (ww_Start window)) (prefix +:+ ".start is required");
    deny (blank (ww_End window)) (prefix +:+ ".end is required");
    within (prefix +:+ ".start: ") (validateClock (ww_Start window));
    within (prefix +:+ ".end: ") (validateClock (ww_End window));
    for_each (fun day => deny (negb (isWeekdayToken day))
                           (prefix +:+ ".days contains unsupported weekday " +:+ quote day)) (ww_Days window);
    deny (negative_override (ww_WarmMin window)) (prefix +:+ ".warmMin must not be negative");
    deny (negative_override (ww_WarmMax window)) (prefix +:+ ".warmMax must not be negative")].

(** [time.LoadLocation] as far as the rule asks. *)
Definition validateTimezone (zone : string → result (Time → Duration)) (prefix timezone : string) : option error :=
  let tz := TrimSpace timezone in
  if negb (String.eqb tz "") && negb (EqualFold tz "UTC") && negb (EqualFold tz "Local") then
    match zone tz with
    | Fail err => Some (Wrapf (prefix +:+ ".warmSchedule.timezone " +:+ quote tz +:+ " is invalid: ") err "")
    | Ok _ => None
    end
  else None.

Definition validateWarmBackendConfig (zone : string → result (Time → Duration)) (pool backend : string)
    (cfg : BackendConfig) : option error :=
  let prefix := backend_prefix pool backend in
  first_of [
    deny (bc_WarmMin cfg <? 0) (prefix +:+ ".warmMin must not be negative");
    deny (bc_WarmMax cfg <? 0) (prefix +:+ ".warmMax must not be negative");
    deny (bc_WarmTTL cfg <? 0) (prefix +:+ ".warmTTL must not be negative");
    match bc_WarmSchedule cfg with
    | None => None
    | Some schedule => first_of [
        validateTimezone zone prefix (ws_Timezone schedule);
        first_of (imap (validateWarmWindow pool backend) (ws_Windows schedule))]
    end].

(** ** Tier rules *)

Definition tierFailureModePassThrough : string := "pass-through-round-robin".
Definition tierFailureModeBlock : string := "block".
Definition tierFailureModeFallback : string := "fallback-backends".
Definition tierActionObserveOnly : string := "observe-only".
Definition tierActionDeprioritize : string := "deprioritize".
Definition tierActionDisable : string := "disable".
Definition tierCombineMostRestrictive : string := "most-restrictive".

Definition outside_unit (f : spec_float) : bool := negative f || SFltb float_one f.

Definition validateTierRule (tierCfg : TierRoutingConfig) (pool : PoolName) (backend : BackendName) (index : nat)
    (rule : TierRuleConfig) : option error :=
  let prefix := backend_prefix pool backend +:+ ".tierRules[" +:+ pretty index +:+ "]" in
  let soft := tu_SoftLimitRatio rule in
  let hard := tu_HardLimitRatio rule in
  let provided := bool_decide (is_Some (tr_Providers tierCfg !! tu_ProviderRef rule)) in
  first_of [
    deny (negb (one_of (normalizeStringDefault (tu_Action rule) tierActionDisable)
                  [tierActionObserveOnly; tierActionDeprioritize; tierActionDisable]))
      (prefix +:+ ".action " +:+ quote (tu_Action rule) +:+ " is not supported");
    deny (negb (String.eqb (normalizeStringDefault (tu_Combine rule) tierCombineMostRestrictive)
                  tierCombineMostRestrictive))
      (prefix +:+ ".combine " +:+ quote (tu_Combine rule) +:+ " is not supported");
    deny (outside_unit soft) (prefix +:+ ".softLimitRatio must be between 0 and 1");
    deny (outside_unit hard) (prefix +:+ ".hardLimitRatio must be between 0 and 1");
    deny (positive soft && positive hard && SFltb hard soft)
      (prefix +:+ ".softLimitRatio must be less than or equal to hardLimitRatio");
    deny (negative (tu_MinRemainingCredit rule)) (prefix +:+ ".minRemainingCredit must not be negative");
    deny (tu_ProjectionWindow rule <? 0) (prefix +:+ ".projectionWindow must not be negative");
    deny (negb (blank (tu_ProviderRef rule)) && negb provided)
      (prefix +:+ ".providerRef " +:+ quote (tu_ProviderRef rule) +:+ " does not match a configured provider");
    deny (blank (tu_ProviderRef rule) && blank (tu_UsageQuery rule) && blank (tu_BurnRateQuery rule))
      (prefix +:+ " must define providerRef, usageQuery, or burnRateQuery");
    deny ((negb (blank (tu_UsageQuery rule)) || negb (blank (tu_BurnRateQuery rule))) &&
          blank (tp_URL (tr_Prometheus tierCfg)))
      (prefix +:+ " uses prometheus queries but broker.tierRouting.prometheus.url is empty")].

(** The pool rule a provider rule stands for. *)
Definition provider_rule (rule : ProviderTierRuleConfig) : TierRuleConfig :=
  {| tu_Name := pr_Name rule; tu_ProviderRef := pr_ProviderRef rule; tu_Dimension := "";
     tu_UsageQuery := pr_UsageQuery rule; tu_BurnRateQuery := pr_BurnRateQuery rule; tu_LimitSources := [];
     tu_Combine := ""; tu_SoftLimitRatio := pr_SoftLimitRatio rule; tu_HardLimitRatio := pr_HardLimitRatio rule;
     tu_MinRemainingCredit := pr_MinRemainingCredit rule; tu_ProjectionWindow := pr_ProjectionWindow rule;
     tu_Action := pr_Action rule |}.

Definition validateProvider (ref : string) (provider : TierProviderConfig) : option error :=
  first_of [
    deny (blank ref) "broker.tierRouting.providers includes an empty provider ref";
    deny (negb (one_of (normalizeString (tv_Provider provider)) ["aws"; "azure"; "gcp"]))
      ("broker.tierRouting.providers." +:+ ref +:+ ".provider " +:+ quote (tv_Provider provider) +:+
       " is not supported");
    deny (blank (tv_Mode provider)) ("broker.tierRouting.providers." +:+ ref +:+ ".mode is required")].

Definition hasTierRules (cfg : BrokerConfig) : bool :=
  negb (length (tr_ProviderRules (br_TierRouting (bk_Broker cfg))) =? 0)%nat ||
  existsb (fun pool => existsb (fun kv => negb (length (bc_TierRules kv.2) =? 0)%nat) (map_to_list (pc_Backends pool)))
    (bk_Pools cfg).

Definition backendNameConfigured (cfg : BrokerConfig) (name : BackendName) : bool :=
  existsb (fun pool => bool_decide (is_Some (pc_Backends pool !! name))) (bk_Pools cfg).

Definition validateProviderTierRule (cfg : BrokerConfig) (tierCfg : TierRoutingConfig) (index : nat)
    (rule : ProviderTierRuleConfig) : option error :=
  let prefix := "broker.tierRouting.providerRules[" +:+ pretty index +:+ "]" in
  first_of [
    deny (blank (pr_ProviderRef rule)) (prefix +:+ ".providerRef is required");
    deny (negb (bool_decide (is_Some (tr_Providers tierCfg !! pr_ProviderRef rule))))
      (prefix +:+ ".providerRef " +:+ quote (pr_ProviderRef rule) +:+ " does not match a configured provider");
    for_each (fun name => deny (negb (backendNameConfigured cfg name))
                            (prefix +:+ ".backends includes unknown backend " +:+ quote name)) (pr_Backends rule);
    validateTierRule tierCfg "" "" index (provider_rule rule)].

(** ** Rules over the pools *)

(** An iteration of [for _, pool := range cfg.Pools { for name, c := range pool.Backends { ... } }]. *)
Record entry := { en_index : nat; en_pool : PoolConfig; en_name : BackendName; en_cfg : BackendConfig }.

Definition en_prefix (e : entry) : string := backend_prefix (pc_Name (en_pool e)) (en_name e).

(** A rule that only looks, in front of a step. *)
Definition guarded {A} (rule : option error) (k : result A) : result A :=
  match rule with Some err => Fail err | None => k end.

Definition builtin : list BackendName :=
  [BackendARC; BackendKubernetes; BackendCodeBuild; BackendLambda; BackendCloudRun; BackendAzureFunctions;
   BackendAzureVM; BackendEC2; BackendGCE; BackendDesktop].

(** [value != want] for a value of type any and a string. *)
Definition differs (value : any) (want : string) : bool :=
  match value with AnyString s => negb (String.eqb s want) | _ => true end.

(** The fields of an alias that must agree between pools. *)
Definition alias_agrees (old new : BackendConfig) : bool :=
  String.eqb (bc_Driver old) (bc_Driver new) && (bc_CrossPoolMaxRunners old =? bc_CrossPoolMaxRunners new) &&
  DeepEqual_kubernetes (bc_Kubernetes old) (bc_Kubernetes new).

Definition driver_rules (aliases : gmap BackendName BackendConfig) (e : entry) : option error :=
  let b := en_cfg e in
  first_of [
    deny (negb (String.eqb (bc_Driver b) "kubernetes"))
      (en_prefix e +:+ ".driver: unsupported driver " +:+ quote (bc_Driver b));
    deny ((one_of (en_name e) builtin && negb (String.eqb (en_name e) BackendARC)) || negb (validName (en_name e)))
      (en_prefix e +:+ ".driver requires a unique non-builtin DNS label backend name");
    deny ((bc_MaxRunners b <=? 0) || (bc_CrossPoolMaxRunners b <=? 0))
      (en_prefix e +:+ " requires positive maxRunners and crossPoolMaxRunners");
    deny (match aliases !! en_name e with Some old => negb (alias_agrees old b) | None => false end)
      (en_prefix e +:+ " must use the same driver, kubernetes target and crossPoolMaxRunners in every pool")].

Definition bad_node_name (name : string) : bool :=
  String.eqb name "" || (253 <? String.length name)%nat || ContainsChar name slash || ContainsChar name space.

Definition node_selector_rules `{GoRange} (e : entry) (labels : gmap string string) (selector : any) : option error :=
  match selector with
  | AnyMap mapping =>
      for_each (fun kv => deny (match assoc String.eqb kv.1 mapping with
                                | Some value => differs value kv.2
                                | None => false
                                end)
                            (en_prefix e +:+ ".kubernetes.podSpec.nodeSelector conflicts with guard label " +:+ kv.1))
        (range labels)
  | _ => Some (Errorf (en_prefix e +:+ ".kubernetes.podSpec.nodeSelector must be a mapping"))
  end.

Definition node_guard_rules `{GoRange} (e : entry) (podSpec : gmap string any) (guard : KubernetesNodeGuardConfig) :
    option error :=
  let labels := default ∅ (ng_RequiredLabels guard) in
  first_of [
    deny (bad_node_name (ng_NodeName guard) || (size labels =? 0)%nat)
      (en_prefix e +:+ ".kubernetes.nodeGuard requires a nodeName and requiredLabels");
    for_each (fun kv => deny (blank kv.1 || blank kv.2)
                          (en_prefix e +:+ ".kubernetes.nodeGuard requiredLabels must be nonempty")) (range labels);
    deny (match podSpec !! "nodeName" with Some nodeName => differs nodeName "" | None => false end)
      (en_prefix e +:+ ".kubernetes.podSpec.nodeName bypasses guarded scheduler admission");
    match podSpec !! "nodeSelector" with Some selector => node_selector_rules e labels selector | None => None end].

Definition container_rules (e : entry) (podSpec : gmap string any) : option error :=
  match podSpec !! "containers" with
  | None => None
  | Some (AnyList containers) =>
      first_of (imap (fun index raw =>
        deny (match raw with AnyMap _ => false | _ => true end)
          (en_prefix e +:+ ".kubernetes.podSpec.containers[" +:+ pretty index +:+ "] must be a mapping")) containers)
  | Some _ => Some (Errorf (en_prefix e +:+ ".kubernetes.podSpec.containers must be a list"))
  end.

Definition pod_rules `{GoRange} (auth : GitHubAuth) (e : entry) (kcfg : KubernetesBackendConfig) : option error :=
  let podSpec := default ∅ (kb_PodSpec kcfg) in
  first_of [
    deny (kb_DeadlineGrace kcfg <? 0) (en_prefix e +:+ ".kubernetes.deadlineGrace must not be negative");
    deny (blank (ga_SecretRef auth))
      (en_prefix e +:+ ": github.auth.secretRef is required; the broker registers these runners");
    deny ((0 <? bc_WarmMin (en_cfg e)) || (0 <? bc_WarmMax (en_cfg e)))
      (en_prefix e +:+ ": warm runners are not supported; runner pods start per allocation");
    match kb_NodeGuard kcfg with Some guard => node_guard_rules e podSpec guard | None => None end;
    container_rules e podSpec].

(** [aliases] and [guardedTargets]; a guarded target remembers its pool, which
    tells its Kubernetes pointer from the others'. *)
Abbreviation targets := (gmap BackendName BackendConfig * gmap BackendName (nat * BackendConfig))%type (only parsing).

Definition is_kubernetes (e : entry) : bool :=
  String.eqb (en_name e) BackendKubernetes || String.eqb (bc_Driver (en_cfg e)) "kubernetes".

Definition kubernetes_step `{GoRange} (auth : GitHubAuth) (st : targets) (e : entry) : result targets :=
  let '(aliases, guardedTargets) := st in
  let b := en_cfg e in
  let? aliases :=
    (if negb (String.eqb (bc_Driver b) "")
     then guarded (driver_rules aliases e) (Ok (<[en_name e := b]> aliases))
     else Ok aliases) in
  if negb (is_kubernetes e) then
    guarded (deny (bool_decide (is_Some (bc_Kubernetes b)))
               (en_prefix e +:+ ".kubernetes requires driver: kubernetes")) (Ok (aliases, guardedTargets))
  else if negb (bc_Enabled b) then Ok (aliases, guardedTargets)
  else match bc_Kubernetes b with
  | None => Fail (Errorf (en_prefix e +:+ ".kubernetes is required when the backend is enabled"))
  | Some kcfg =>
      guarded (pod_rules auth e kcfg)
        (Ok (aliases, match kb_NodeGuard kcfg with
                      | Some _ => <[en_name e := (en_index e, b)]> guardedTargets
                      | None => guardedTargets
                      end))
  end.

Definition guarded_target_rule (guardedTargets : gmap BackendName (nat * BackendConfig)) (e : entry) : option error :=
  deny (match guardedTargets !! en_name e with
        | Some (index, target) =>
            bc_Enabled (en_cfg e) && negb ((index =? en_index e)%nat ||
                                           DeepEqual_kubernetes (bc_Kubernetes target) (bc_Kubernetes (en_cfg e)))
        | None => false
        end)
    ("backend " +:+ en_name e +:+ " must use the same guarded kubernetes target in every enabled pool").

Definition alias_driver_rule (aliases : gmap BackendName BackendConfig) (e : entry) : option error :=
  deny (match aliases !! en_name e with
        | Some alias => negb (String.eqb (bc_Driver (en_cfg e)) (bc_Driver alias))
        | None => false
        end) ("backend " +:+ en_name e +:+ " has inconsistent drivers across pools").

(** [seen[key]] for the lower-cased, trimmed names. *)
Fixpoint bad_runner_names (seen : gset string) (names : list string) : bool :=
  match names with
  | [] => false
  | name :: names =>
      let key := normalizeString name in
      String.eqb key "" || bool_decide (key ∈ seen) || bad_runner_names ({[key]} ∪ seen) names
  end.

Definition bad_repository (full : string) : bool :=
  match Cut full slash with
  | None => true
  | Some (owner, repo) => String.eqb owner "" || String.eqb repo "" || ContainsChar repo slash
  end.

Definition azure_rules (cfg : BrokerConfig) (e : entry) (c : AzureVMBackendConfig) : option error :=
  let b := en_cfg e in
  let runners := Z.of_nat (length (az_RunnerNames c)) in
  first_of [
    deny (negb (String.eqb (en_name e) BackendAzureVM)) "azureVM configuration requires the azure-vm backend";
    deny (HAEnabled (bk_Broker cfg))
      "managed azure-vm requires a single broker without HA until distributed physical-runner claims are supported";
    deny (String.eqb (ga_SecretRef (bk_Auth cfg)) "") "managed azure-vm requires github.auth.secretRef";
    deny (bad_repository (az_Repository c) || (length (az_RunnerNames c) =? 0)%nat)
      "managed azure-vm requires a repository and runnerNames";
    match ForRepository (bk_Scope cfg) (az_Repository c) with
    | Fail err => Some err
    | Ok scope =>
        deny (negb (String.eqb (gs_Type scope) GitHubScopeRepository) ||
              negb (EqualFold (gs_Owner scope +:+ "/" +:+ gs_Repository scope) (az_Repository c)))
          "managed azure-vm repository must match the broker repository scope"
    end;
    deny (bad_runner_names ∅ (az_RunnerNames c)) "managed azure-vm runnerNames must be nonempty and unique";
    deny (negb (bc_WarmMin b =? 0) || negb (bc_WarmMax b =? 0) || (runners <? bc_MaxRunners b) ||
          negb (bc_CrossPoolMaxRunners b =? runners))
      "managed azure-vm requires no warm reservations and shared capacity equal to its named physical runners"].

Definition azure_step (cfg : BrokerConfig) (managed : option AzureVMBackendConfig) (e : entry) :
    result (option AzureVMBackendConfig) :=
  match bc_AzureVM (en_cfg e) with
  | None => Ok managed
  | Some c =>
      guarded (first_of [azure_rules cfg e c;
                 deny (match managed with Some old => negb (bool_decide (old = c)) | None => false end)
                   "managed azure-vm target must be identical across pools"])
        (Ok (Some c))
  end.

Definition bad_webhook_repository (entry : string) : bool :=
  match Cut (TrimSpace entry) slash with
  | None => true
  | Some (owner, repo) =>
      String.eqb owner "" || String.eqb repo "" || ContainsChar repo slash ||
      (ContainsChar repo star && negb (String.eqb repo "*"))
  end.

Definition label_key (pool : PoolConfig) : string :=
  Join (sort_stable string_ltb (normalizeString <$> pc_WebhookLabels pool)) comma.

Definition pool_prefix (pool : PoolConfig) : string := "pools[" +:+ pc_Name pool +:+ "]".

Definition webhook_pool_rules (pool : PoolConfig) : option error :=
  first_of [
    deny (pc_WebhookJobTimeout pool <? 0) (pool_prefix pool +:+ ".webhookJobTimeout must not be negative");
    first_of (imap (fun i entry => deny (bad_webhook_repository entry)
        (pool_prefix pool +:+ ".webhookRepositories[" +:+ pretty i +:+ "] " +:+ quote entry +:+
         " must be owner/repo or owner/*")) (pc_WebhookRepositories pool));
    if (length (pc_WebhookLabels pool) =? 0)%nat then
      deny (0 <? length (pc_WebhookRepositories pool))%nat (pool_prefix pool +:+ ".webhookRepositories needs webhookLabels")
    else first_of (imap (fun i label => deny (String.eqb (normalizeString label) "")
           (pool_prefix pool +:+ ".webhookLabels[" +:+ pretty i +:+ "] must not be empty")) (pc_WebhookLabels pool))].

(** The state is [seen] and [enabled]. *)
Definition webhook_step (st : gmap string PoolName * bool) (pool : PoolConfig) : result (gmap string PoolName * bool) :=
  let '(seen, enabled) := st in
  guarded (webhook_pool_rules pool)
    (if (length (pc_WebhookLabels pool) =? 0)%nat then Ok (seen, enabled)
     else match seen !! label_key pool with
          | Some other =>
              Fail (Errorf (pool_prefix pool +:+ ".webhookLabels duplicates pools[" +:+ other +:+ "].webhookLabels"))
          | None => Ok (<[label_key pool := pc_Name pool]> seen, true)
          end).

Definition validateWebhookLabels (cfg : BrokerConfig) : option error :=
  match fold_rules webhook_step (∅, false) (bk_Pools cfg) with
  | Fail err => Some err
  | Ok (_, enabled) =>
      let gh := br_GitHubWebhook (bk_Broker cfg) in
      if negb enabled then None
      else deny (blank (gw_Secret gh) && blank (gw_SecretRef gh))
             "broker.githubWebhook requires secret or secretRef when pools[].webhookLabels is set"
  end.

Definition fair_share_rules (pool : PoolConfig) : option error :=
  let fs := pc_FairShare pool in
  if negb (fs_Enabled fs) then None
  else first_of [
    deny (fs_UsageWindow fs <? 0) (pool_prefix pool +:+ ".fairShare.usageWindow must not be negative");
    deny (fs_StarvationAfter fs <? 0) (pool_prefix pool +:+ ".fairShare.starvationAfter must not be negative")].

Definition validateFairShare (cfg : BrokerConfig) : option error := for_each fair_share_rules (bk_Pools cfg).

Section Rules.
Context `{GoRange}.
Context (zone : string → result (Time → Duration)).

Definition pool_entries (i : nat) (pool : PoolConfig) : list entry :=
  (fun kv => Build_entry i pool kv.1 kv.2) <$> range (pc_Backends pool).

Definition entries (cfg : BrokerConfig) : list entry := mjoin (imap pool_entries (bk_Pools cfg)).

Definition validateKubernetesBackends (cfg : BrokerConfig) : option error :=
  match fold_rules (kubernetes_step (bk_Auth cfg)) (∅, ∅) (entries cfg) with
  | Fail err => Some err
  | Ok (aliases, guardedTargets) =>
      first_of [for_each (guarded_target_rule guardedTargets) (entries cfg);
                for_each (alias_driver_rule aliases) (entries cfg)]
  end.

Definition validateManagedAzureVM (cfg : BrokerConfig) : option error :=
  match fold_rules (azure_step cfg) None (entries cfg) with
  | Fail err => Some err
  | Ok None => None
  | Ok (Some _) =>
      for_each (fun pool => deny (match pc_Backends pool !! BackendAzureVM with
                                  | Some target => if bc_AzureVM target is None then true else false
                                  | None => false
                                  end) "managed azure-vm cannot mix with legacy static-label pools")
        (bk_Pools cfg)
  end.

Definition validateTierRouting (cfg : BrokerConfig) : option error :=
  let tierCfg := br_TierRouting (bk_Broker cfg) in
  if negb (tr_Enabled tierCfg) && negb (hasTierRules cfg) then None
  else
    let failureMode := normalizeStringDefault (tr_FailureMode tierCfg) tierFailureModePassThrough in
    first_of [
      deny (negb (one_of failureMode [tierFailureModePassThrough; tierFailureModeBlock; tierFailureModeFallback]))
        ("broker.tierRouting.failureMode " +:+ quote (tr_FailureMode tierCfg) +:+ " is not supported");
      deny (tr_RefreshInterval tierCfg <? 0) "broker.tierRouting.refreshInterval must not be negative";
      deny (tr_StaleAfter tierCfg <? 0) "broker.tierRouting.staleAfter must not be negative";
      deny (tp_Timeout (tr_Prometheus tierCfg) <? 0) "broker.tierRouting.prometheus.timeout must not be negative";
      if String.eqb failureMode tierFailureModeFallback then first_of [
        deny (length (tr_FallbackBackends tierCfg) =? 0)%nat
          ("broker.tierRouting.fallbackBackends is required when failureMode is " +:+ quote tierFailureModeFallback);
        for_each (fun name => deny (negb (backendNameConfigured cfg name))
            ("broker.tierRouting.fallbackBackends includes unknown backend " +:+ quote name))
          (tr_FallbackBackends tierCfg)]
      else None;
      for_each (fun kv => validateProvider kv.1 kv.2) (range (tr_Providers tierCfg));
      first_of (imap (validateProviderTierRule cfg tierCfg) (tr_ProviderRules tierCfg));
      for_each (fun e => first_of (imap (validateTierRule tierCfg (pc_Name (en_pool e)) (en_name e))
                                     (bc_TierRules (en_cfg e)))) (entries cfg)].

Definition validateBackendBudgets (cfg : BrokerConfig) : option error :=
  for_each (fun e => first_of [
    validateBudgetConfig (pc_Name (en_pool e)) (en_name e) (bc_Budget (en_cfg e));
    deny (bc_CostClass (en_cfg e) <? 0) (en_prefix e +:+ ".costClass must not be negative")]) (entries cfg).

Definition validateWarmPools (cfg : BrokerConfig) : option error :=
  for_each (fun e => validateWarmBackendConfig zone (pc_Name (en_pool e)) (en_name e) (en_cfg e)) (entries cfg).

Definition wants_warm (b : BackendConfig) : bool :=
  bc_Enabled b && ((0 <? bc_WarmMin b) || (0 <? bc_WarmMax b) || bool_decide (is_Some (bc_WarmSchedule b))).

Definition validatePerRepositoryScope (cfg : BrokerConfig) : option error :=
  let scope := bk_Scope cfg in
  if negb (IsPerRepository scope) then None
  else first_of [
    Model.Validate scope;
    if HasDefaultRepository scope then None
    else for_each (fun e => deny (wants_warm (en_cfg e))
        (en_prefix e +:+ ": warm runners with github.scope.type=" +:+ quote GitHubScopeOwner +:+
         " need github.scope.repository, the repository they register on before a job names one")) (entries cfg)].

Definition validateRegistrationTimeoutAndBackendLimits (cfg : BrokerConfig) : option error :=
  first_of [
    deny (br_RegistrationTimeout (bk_Broker cfg) <? 0) "broker.registrationTimeout must not be negative";
    for_each (fun kv => deny (kv.2 <? 0) ("broker.backendLimits[" +:+ kv.1 +:+ "] must not be negative"))
      (range (br_BackendLimits (bk_Broker cfg)));
    for_each (fun e => first_of [
      deny (bc_RegistrationTimeout (en_cfg e) <? 0) (en_prefix e +:+ ".registrationTimeout must not be negative");
      deny (bc_CrossPoolMaxRunners (en_cfg e) <? 0) (en_prefix e +:+ ".crossPoolMaxRunners must not be negative")])
      (entries cfg)].

Definition Validate (cfg : BrokerConfig) : option error :=
  let broker := bk_Broker cfg in
  first_of [
    validateStateStore (br_StateStore broker);
    validateHA broker;
    validateAdmissionQueue (br_Queue broker);
    validateTierRouting cfg;
    validateLiveCapacity (br_LiveCapacity broker);
    validateQualityAware (br_QualityAware broker);
    validateARCFirst (br_ARCFirst broker);
    validateWebhooks (br_Webhooks broker);
    validateWebhookLabels cfg;
    validateBackendBudgets cfg;
    validateWarmPools cfg;
    validatePerRepositoryScope cfg;
    validateManagedAzureVM cfg;
    validateKubernetesBackends cfg;
    validateFairShare cfg;
    validateRegistrationTimeoutAndBackendLimits cfg].

(** [readFile] is [os.ReadFile], [decode] [yaml.Unmarshal] into a configuration
    that already holds the defaults. *)
Definition Load {Bytes} (readFile : string → result Bytes) (decode : Bytes → BrokerConfig → result BrokerConfig)
    (default_config : BrokerConfig) (path : string) : result BrokerConfig :=
  if String.eqb path "" then Ok default_config
  else
    let? data := readFile path in
    let? cfg := decode data default_config in
    match Validate cfg with Some err => Fail err | None => Ok cfg end.
End Rules.

Definition ValidateReplicaSafety (cfg : BrokerConfig) (expectedReplicas : Z) : option error :=
  if expectedReplicas <=? 1 then None
  else
    let storeType := normalizeStringDefault (ss_Type (br_StateStore (bk_Broker cfg))) "memory" in
    first_of [
      for_each (fun pool => deny (bool_decide (is_Some (bc_AzureVM (pc_Backends pool).[BackendAzureVM])))
                              "managed azure-vm requires exactly one broker replica") (bk_Pools cfg);
      deny (negb (String.eqb storeType "postgres"))
        ("broker replicas=" +:+ pretty expectedReplicas +:+ " is unsafe with process-local stateStore.type " +:+
         quote storeType +:+ "; use type postgres for multi-replica HA, or set replicas to 1")].

(** ** The default configuration *)

Definition default_fair_share : FairShareConfig :=
  { zero_FairShareConfig with fs_PriorityClasses := {[ PriorityClassNormal := 1; PriorityClassHigh := 2 ]} }.

(** The fields every default backend sets. *)
Definition default_backend (enabled : bool) (maxRunners : Z) (maxJobDuration : Duration) (capabilities : list string)
    (secretRef : string) : BackendConfig :=
  { zero_BackendConfig with bc_Enabled := enabled; bc_Healthy := true; bc_MaxRunners := maxRunners; bc_Weight := 1;
      bc_MaxJobDuration := maxJobDuration; bc_Capabilities := capabilities; bc_SecretRef := secretRef }.

Definition linux : list string := ["os:linux"; "arch:amd64"].

Definition default_arc (maxRunners : Z) (template : string) : BackendConfig :=
  { (default_backend true maxRunners 0 (linux ++ ["cluster-local"; "docker"; "region:local"]) "")
    with bc_Template := template }.

Definition vm (cloud region : string) : list string := linux ++ ["docker"; "privileged"; "vm"; cloud; region].

Definition default_lite_backends : gmap BackendName BackendConfig :=
  {[ BackendARC := default_arc 2 "arc-lite";
     BackendCodeBuild :=
       default_backend false 3 (14 * Minute) (linux ++ ["docker"; "region:aws-us-east-1"]) "uecb-codebuild";
     BackendLambda := default_backend false 3 (14 * Minute) (linux ++ ["region:aws-us-east-1"]) "uecb-lambda";
     BackendCloudRun := default_backend false 2 (30 * Minute) (linux ++ ["region:gcp-us-central1"]) "uecb-cloud-run";
     BackendAzureFunctions :=
       default_backend false 2 (25 * Minute) (linux ++ ["region:azure-eastus"]) "uecb-azure-functions";
     BackendAzureVM :=
       { (default_backend false 1 (6 * Hour) (vm "cloud:azure" "region:azure-eastus") "")
         with bc_RunnerLabel := "replace-with-private-azure-vm-runner-label" };
     BackendEC2 := default_backend false 1 (6 * Hour) (vm "cloud:aws" "region:aws-us-east-1") "uecb-ec2";
     BackendGCE := default_backend false 1 (6 * Hour) (vm "cloud:gcp" "region:gcp-us-central1") "uecb-gce" ]}.

Definition default_pool (name : PoolName) (label profile : string) (backends : gmap BackendName BackendConfig) :
    PoolConfig :=
  { zero_PoolConfig with pc_Name := name; pc_Labels := ["self-hosted"; "linux"; "x64"; "uecb"; label];
      pc_Scheduler := "round-robin"; pc_FairShare := default_fair_share; pc_CapabilityProfile := profile;
      pc_Backends := backends }.

Definition default_broker : BrokerRuntimeConfig :=
  { zero_BrokerRuntimeConfig with
      br_DefaultPool := PoolFull; br_DefaultJobTimeout := 15 * Minute; br_RegistrationTimeout := 10 * Minute;
      br_OrphanCleanup := {| oc_Enabled := false; oc_QuarantineTTL := 15 * Minute; oc_GracePeriod := 0 |};
      br_API := {| ap_OIDCAudience := "uecb-broker"; ap_OIDCPolicy := Build_OIDCPolicyConfig [] [] [] |};
      br_StateStore := {| ss_Type := "memory"; ss_Path := ""; ss_DSN := ""; ss_DSNEnv := ""; ss_Retention := 0 |};
      br_Queue := {| aq_Enabled := false; aq_RetryAfter := 30 * Second; aq_MaxAttempts := 3 |};
      br_TierRouting :=
        {| tr_Enabled := false; tr_RefreshInterval := 5 * Minute; tr_StaleAfter := 15 * Minute;
           tr_FailureMode := "pass-through-round-robin"; tr_FallbackBackends := [];
           tr_Prometheus := {| tp_URL := ""; tp_Timeout := 2 * Second; tp_SecretRef := "" |};
           tr_Providers := ∅; tr_ProviderRules := []; tr_RefreshOnStartup := true |};
      br_LiveCapacity :=
        {| lc_Enabled := false; lc_RefreshInterval := 30 * Second; lc_StaleAfter := 2 * Minute;
           lc_ProbeTimeout := 2 * Second; lc_FailureMode := "pass-through"; lc_RefreshOnStartup := true |};
      br_GitHubWebhook :=
        {| gw_Secret := ""; gw_SecretRef := ""; gw_SecretKey := ""; gw_AllowForkPullRequests := false;
           gw_AllowedActors := []; gw_ReconcileInterval := Minute |};
      br_QualityAware :=
        {| qa_Enabled := false; qa_Window := 15 * Minute; qa_MinSamples := 3;
           qa_Weights := Build_QualityAwareWeights float_one float_one float_one float_one |};
      br_ARCFirst := {| af_SaturationWait := 2 * Second; af_PollInterval := 100 * Millisecond |} }.

Definition Default : BrokerConfig :=
  {| bk_Auth := {| ga_Mode := "github-app"; ga_SecretRef := "uecb-github-app" |};
     bk_Scope := {| gs_Type := "organization"; gs_Organization := "my-org"; gs_Owner := ""; gs_Repository := "";
                    gs_RunnerGroupPrefix := "uecb" |};
     bk_Broker := default_broker;
     bk_Pools := [default_pool PoolFull "uecb-full" CapabilityFull {[ BackendARC := default_arc 4 "arc-full" ]};
                  default_pool PoolLite "uecb-lite" CapabilityLite default_lite_backends] |}.

Example Default_is_valid :
  Validate (H := range_forward) (fun _ => Fail (Errorf "no zone")) Default = None.
Proof. vm_compute. reflexivity. Qed.
