(* ===== verification/ConfigTheory.v ===== *)
(** What an accepted configuration is: a declarative reading of every rule of
    Config.v, which does not depend on the order of any map. *)

From stdpp Require Import pretty.
From Stdlib Require Import Floats.SpecFloat.
From S2P Require Import Prelude Errors Model Store Backends Warm Config.

(** ** Sequences of rules *)

Lemma first_of_nil : first_of [] = None ↔ True.
Proof. done. Qed.

Lemma first_of_cons rule rules : first_of (rule :: rules) = None ↔ rule = None ∧ first_of rules = None.
Proof. unfold first_of. destruct rule; cbn; [split; [done|by intros [? ?]]|by split; [intros|intros [? ?]]]. Qed.

Lemma first_of_None rules : first_of rules = None ↔ ∀ rule, rule ∈ rules → rule = None.
Proof.
  induction rules as [|r rules IH]; [by split; [intros _ ? ?%elem_of_nil|]|].
  rewrite first_of_cons, IH. setoid_rewrite elem_of_cons. naive_solver.
Qed.

Lemma for_each_None {A} (rule : A → option error) l : for_each rule l = None ↔ ∀ x, x ∈ l → rule x = None.
Proof.
  unfold for_each. rewrite first_of_None. setoid_rewrite list_elem_of_fmap. naive_solver.
Qed.

Lemma first_of_imap {A} (rule : nat → A → option error) l :
  first_of (imap rule l) = None ↔ ∀ i x, l !! i = Some x → rule i x = None.
Proof.
  rewrite first_of_None. setoid_rewrite elem_of_lookup_imap. naive_solver.
Qed.

Lemma deny_None bad msg : deny bad msg = None ↔ bad = false.
Proof. by destruct bad. Qed.

Lemma for_each_deny {A} (bad : A → bool) (msg : A → string) l :
  for_each (λ x, deny (bad x) (msg x)) l = None ↔ ∀ x, x ∈ l → bad x = false.
Proof. rewrite for_each_None. by setoid_rewrite deny_None. Qed.

Lemma imap_deny {A} (bad : A → bool) (msg : nat → A → string) l :
  first_of (imap (λ i x, deny (bad x) (msg i x)) l) = None ↔ ∀ x, x ∈ l → bad x = false.
Proof. rewrite first_of_imap. setoid_rewrite deny_None. setoid_rewrite list_elem_of_lookup. naive_solver. Qed.

Lemma within_None pre err : within pre err = None ↔ err = None.
Proof. by destruct err. Qed.

Lemma skip_None (off : bool) (rule : option error) : (if off then None else rule) = None ↔ (off = false → rule = None).
Proof. destruct off; naive_solver. Qed.

Lemma enforce_None (on : bool) (rule : option error) : (if on then rule else None) = None ↔ (on = true → rule = None).
Proof. destruct on; naive_solver. Qed.

(** ** Tests *)

Lemma one_of_spec s l : one_of s l = true ↔ s ∈ l.
Proof.
  unfold one_of. rewrite existsb_exists. setoid_rewrite String.eqb_eq. setoid_rewrite <- list_elem_of_In.
  naive_solver.
Qed.

Lemma negb_one_of s l : negb (one_of s l) = false ↔ s ∈ l.
Proof. by rewrite negb_false_iff, one_of_spec. Qed.

Lemma blank_false s : blank s = false ↔ TrimSpace s ≠ "".
Proof. apply String.eqb_neq. Qed.

Lemma blank_true s : blank s = true ↔ TrimSpace s = "".
Proof. apply String.eqb_eq. Qed.

Lemma length_eqb_0 {A} (l : list A) : (length l =? 0)%nat = false ↔ l ≠ [].
Proof. by destruct l. Qed.

Lemma backendNameConfigured_spec cfg name :
  backendNameConfigured cfg name = true ↔ ∃ pool, pool ∈ bk_Pools cfg ∧ is_Some (pc_Backends pool !! name).
Proof.
  unfold backendNameConfigured. rewrite existsb_exists. setoid_rewrite bool_decide_eq_true.
  by setoid_rewrite <- list_elem_of_In.
Qed.

Create Rewrite HintDb rules.
#[export] Hint Rewrite first_of_nil first_of_cons @for_each_None @first_of_imap deny_None within_None skip_None
  enforce_None Z.ltb_ge Z.leb_gt andb_false_iff orb_false_iff negb_true_iff negb_false_iff negb_one_of one_of_spec
  blank_false blank_true @length_eqb_0 String.eqb_eq String.eqb_neq bool_decide_eq_true bool_decide_eq_false Nat.ltb_ge
  backendNameConfigured_spec : rules.

(** ** Loops with state *)

Lemma guarded_Ok {A} rule (k : result A) a : guarded rule k = Ok a ↔ rule = None ∧ k = Ok a.
Proof. destruct rule; cbn; naive_solver. Qed.

Definition is_fail {A} (r : result A) : bool := negb (is_Ok r).

(** A loop whose rule reads the state, and whose update cannot fail. *)
Lemma fold_rules_Ok {St A} (step : St → A → result St) (rule : St → A → option error) (update : St → A → St) :
  (∀ st x, step st x = guarded (rule st x) (Ok (update st x))) →
  ∀ l st st', fold_rules step st l = Ok st' ↔
    st' = foldl update st l ∧ ∀ l1 x l2, l = l1 ++ x :: l2 → rule (foldl update st l1) x = None.
Proof.
  intros Hstep l. induction l as [|x l IH]; intros st st'; cbn [fold_rules foldl].
  { split; [intros [= ->]; split; [done|by intros [] ? ?]|by intros [-> _]]. }
  rewrite Hstep. destruct (rule st x) as [err|] eqn:Hx; cbn [guarded].
  { split; [done|]. intros [_ Hr]. specialize (Hr [] x l eq_refl). cbn in Hr. congruence. }
  rewrite IH. split; intros [-> Hr]; (split; [done|]).
  - intros [|y l1] z l2 [= -> ->]; [done|]. by apply (Hr l1 z l2).
  - intros l1 z l2 ->. by apply (Hr (x :: l1) z l2).
Qed.

(** Writing entries of a map under their names leaves the last one written. *)
Definition write {V} (keep : entry → bool) (value : entry → V) (m : gmap BackendName V) (e : entry) : gmap BackendName V :=
  if keep e then <[en_name e := value e]> m else m.

Definition named (n : BackendName) (e : entry) : Prop := en_name e = n.
#[export] Instance named_dec n e : Decision (named n e).
Proof. unfold named. apply _. Defined.

Definition kept (keep : entry → bool) (e : entry) : Prop := keep e = true.
#[export] Instance kept_dec keep e : Decision (kept keep e).
Proof. unfold kept. apply _. Defined.

Lemma foldl_write {V} keep (value : entry → V) l n :
  foldl (write keep value) ∅ l !! n = value <$> last (filter (kept keep) (filter (named n) l)).
Proof.
  induction l as [|e l IH] using rev_ind; [done|]. rewrite foldl_snoc, !filter_app, (filter_cons (named n)), filter_nil.
  destruct (decide (named n e)) as [<-|Hn].
  - rewrite filter_cons, filter_nil. unfold write at 1. destruct (decide (kept keep e)) as [Hk|Hk].
    + rewrite Hk. by rewrite last_snoc, lookup_insert_eq.
    + apply not_true_is_false in Hk. by rewrite Hk, app_nil_r.
  - rewrite filter_nil, app_nil_r. unfold write at 1. destruct (keep e); [by rewrite lookup_insert_ne|done].
Qed.

Lemma foldl_pair {A B E} (f : A → E → A) (g : B → E → B) l a b :
  foldl (λ st e, (f st.1 e, g st.2 e)) (a, b) l = (foldl f a l, foldl g b l).
Proof. revert a b. induction l as [|e l IH]; intros a b; [done|]. cbn. apply IH. Qed.

(** A decomposition of a filtered list comes from one of the list. *)
Lemma filter_split {A} (P : A → Prop) `{∀ x, Decision (P x)} l k1 x k2 :
  filter P l = k1 ++ x :: k2 → ∃ l1 l2, l = l1 ++ x :: l2 ∧ filter P l1 = k1 ∧ filter P l2 = k2.
Proof.
  revert k1. induction l as [|y l IH]; intros k1; [by destruct k1|]. rewrite filter_cons. case_decide.
  - destruct k1 as [|z k1]; intros [= <- Hl]; [by exists [], l|].
    destruct (IH k1 Hl) as (l1 & l2 & -> & <- & <-). exists (y :: l1), l2. split_and!; [done| |done].
    by rewrite filter_cons, decide_True.
  - intros Hl. destruct (IH k1 Hl) as (l1 & l2 & -> & <- & <-). exists (y :: l1), l2. split_and!; [done| |done].
    by rewrite filter_cons, decide_False.
Qed.

(** Each value agrees with the one before, so all agree. *)
Lemma adjacent_same {A B} (f : A → option B) l :
  (∀ l1 x l2 b old, l = l1 ++ x :: l2 → f x = Some b → last (omap f l1) = Some old → old = b) ↔
  ∀ x y b c, x ∈ l → y ∈ l → f x = Some b → f y = Some c → b = c.
Proof.
  split.
  - intros Hadj. assert (Hlast : ∀ x b, x ∈ l → f x = Some b → last (omap f l) = Some b).
    { induction l as [|z l IH] using rev_ind; [by intros ? ? ?%elem_of_nil|].
      assert (IH' : ∀ x b, x ∈ l → f x = Some b → last (omap f l) = Some b).
      { apply IH. intros l1 x l2 b old ->. apply (Hadj l1 x (l2 ++ [z])). by rewrite <- app_assoc. }
      intros x b. rewrite elem_of_app, list_elem_of_singleton, omap_app. cbn. destruct (f z) as [bz|] eqn:Hz.
      - rewrite last_snoc. intros [Hin| ->] Hb; [|congruence]. f_equal. symmetry.
        apply (Hadj l z [] bz b); [done|done|]. by apply (IH' x).
      - rewrite app_nil_r. intros [Hin| ->] Hb; [by apply (IH' x)|congruence]. }
    intros x y b c Hx Hy Hb Hc. pose proof (Hlast x b Hx Hb). pose proof (Hlast y c Hy Hc). congruence.
  - intros Hall l1 x l2 b old -> Hb Hold. apply last_Some_elem_of, list_elem_of_omap in Hold as (y & Hy & Hc).
    apply (Hall y x); [set_solver|set_solver|done|done].
Qed.

(** ** The backends of the pools *)

(** The entries of one name, in the order of the pools. *)
Definition entries_named (cfg : BrokerConfig) (n : BackendName) : list entry :=
  mjoin (imap (λ i pool, if pc_Backends pool !! n is Some c then [Build_entry i pool n c] else []) (bk_Pools cfg)).

Definition is_entry (cfg : BrokerConfig) (e : entry) : Prop :=
  bk_Pools cfg !! en_index e = Some (en_pool e) ∧ pc_Backends (en_pool e) !! en_name e = Some (en_cfg e).

Lemma elem_of_entries_named cfg n e : e ∈ entries_named cfg n ↔ is_entry cfg e ∧ en_name e = n.
Proof.
  unfold entries_named, is_entry. rewrite list_elem_of_join. setoid_rewrite elem_of_lookup_imap. split.
  - intros (l & He & i & pool & -> & Hi). destruct (pc_Backends pool !! n) eqn:Hc; [|by apply elem_of_nil in He].
    apply list_elem_of_singleton in He as ->. done.
  - intros [[Hi Hc] Hn]. subst n. eexists. split; [|by exists (en_index e), (en_pool e)]. rewrite Hc.
    apply list_elem_of_singleton. by destruct e.
Qed.

Section Entries.
Context `{GoRange}.

Lemma elem_of_entries cfg e : e ∈ entries cfg ↔ is_entry cfg e.
Proof.
  unfold entries, is_entry, pool_entries. rewrite list_elem_of_join. setoid_rewrite elem_of_lookup_imap. split.
  - intros (l & He & i & pool & -> & Hi). apply list_elem_of_fmap in He as ([n c] & -> & Hin). by apply elem_of_range in Hin.
  - intros [Hi Hc]. eexists. split; [|by exists (en_index e), (en_pool e)]. apply list_elem_of_fmap.
    exists (en_name e, en_cfg e). split; [by destruct e|]. by apply elem_of_range.
Qed.

Lemma filter_range_named (m : gmap BackendName BackendConfig) i pool n :
  filter (named n) ((λ kv, Build_entry i pool kv.1 kv.2) <$> range m) =
  if m !! n is Some c then [Build_entry i pool n c] else [].
Proof.
  assert (Hnd : NoDup (range m).*1) by (rewrite range_perm; apply NoDup_fst_map_to_list).
  assert (Hin : ∀ c, (n, c) ∈ range m ↔ m !! n = Some c) by (intros; apply elem_of_range).
  assert (Hm : m !! n = list_to_map (M := gmap _ _) (range m) !! n).
  { apply option_eq. intros c. rewrite <- Hin. by apply elem_of_list_to_map. }
  rewrite Hm. clear Hin Hm. induction (range m) as [|[k c] l IH]; [done|]. inversion Hnd as [|? ? Hk Hl]; subst.
  rewrite fmap_cons, filter_cons. cbn. unfold named at 1. cbn. case_decide as Hkn; [subst k|].
  - rewrite lookup_insert_eq, IH by done. by rewrite not_elem_of_list_to_map_1.
  - by rewrite lookup_insert_ne, IH.
Qed.

Lemma filter_entries_named cfg n : filter (named n) (entries cfg) = entries_named cfg n.
Proof.
  unfold entries, entries_named. generalize (bk_Pools cfg) as pools. intros pools.
  assert (Hall : ∀ at_ : nat → nat, filter (named n) (mjoin (imap (λ i, pool_entries (at_ i)) pools)) =
    mjoin (imap (λ i pool, if pc_Backends pool !! n is Some c then [Build_entry (at_ i) pool n c] else []) pools));
    [|apply (Hall id)].
  induction pools as [|pool pools IH]; intros at_; [done|]. cbn [imap mjoin list_join]. rewrite filter_app. f_equal.
  - apply filter_range_named.
  - apply (IH (at_ ∘ S)).
Qed.

(** What a loop over the entries asks of an entry depends on the earlier pools'
    entries of its name only. *)
Lemma entries_split (P : list entry → entry → Prop) cfg :
  (∀ l1 e l2, entries cfg = l1 ++ e :: l2 → P (filter (named (en_name e)) l1) e) ↔
  ∀ n l1 e l2, entries_named cfg n = l1 ++ e :: l2 → P l1 e.
Proof.
  split.
  - intros Hall n k1 e k2 Hk. rewrite <- filter_entries_named in Hk.
    destruct (filter_split _ _ _ _ _ Hk) as (l1 & l2 & Hl & <- & _).
    assert (named n e) as <-; [|by apply (Hall l1 e l2)].
    assert (e ∈ filter (named n) (entries cfg)) as [? _]%list_elem_of_filter; [|done]. rewrite Hk. set_solver.
  - intros Hall l1 e l2 Hl. apply (Hall (en_name e) _ e (filter (named (en_name e)) l2)).
    rewrite <- filter_entries_named, Hl, filter_app, filter_cons, decide_True by done. done.
Qed.
End Entries.

(** ** Kubernetes backends *)

Definition is_alias (e : entry) : bool := negb (String.eqb (bc_Driver (en_cfg e)) "").

Definition has_guard (b : BackendConfig) : bool :=
  match bc_Kubernetes b with Some k => bool_decide (is_Some (kb_NodeGuard k)) | None => false end.

Definition is_guarded_target (e : entry) : bool := is_kubernetes e && bc_Enabled (en_cfg e) && has_guard (en_cfg e).

(** The last of [es] that [keep] keeps. *)
Definition latest (keep : entry → bool) (es : list entry) : option entry := last (filter (kept keep) es).

(** An entry with a driver of its own, after [earlier] entries of its name. *)
Record alias_ok (earlier : list entry) (e : entry) : Prop := {
  alias_driver : bc_Driver (en_cfg e) = "kubernetes";
  alias_name : validName (en_name e) = true ∧ (en_name e ∈ builtin → en_name e = BackendARC);
  alias_limits : 0 < bc_MaxRunners (en_cfg e) ∧ 0 < bc_CrossPoolMaxRunners (en_cfg e);
  alias_target : ∀ old, latest is_alias earlier = Some old → alias_agrees (en_cfg old) (en_cfg e) = true;
}.

Record guard_ok (podSpec : gmap string any) (guard : KubernetesNodeGuardConfig) : Prop := {
  guard_node : bad_node_name (ng_NodeName guard) = false;
  guard_labels : default ∅ (ng_RequiredLabels guard) ≠ ∅ ∧
    ∀ k v, default ∅ (ng_RequiredLabels guard) !! k = Some v → TrimSpace k ≠ "" ∧ TrimSpace v ≠ "";
  guard_unpinned : ∀ v, podSpec !! "nodeName" = Some v → v = AnyString "";
  guard_selector : ∀ selector, podSpec !! "nodeSelector" = Some selector → ∃ mapping, selector = AnyMap mapping ∧
    ∀ k v w, default ∅ (ng_RequiredLabels guard) !! k = Some v → assoc String.eqb k mapping = Some w → w = AnyString v;
}.

Record pod_ok (auth : GitHubAuth) (e : entry) (k : KubernetesBackendConfig) : Prop := {
  pod_grace : 0 ≤ kb_DeadlineGrace k;
  pod_secret : TrimSpace (ga_SecretRef auth) ≠ "";
  pod_cold : bc_WarmMin (en_cfg e) ≤ 0 ∧ bc_WarmMax (en_cfg e) ≤ 0;
  pod_guard : ∀ guard, kb_NodeGuard k = Some guard → guard_ok (default ∅ (kb_PodSpec k)) guard;
  pod_containers : ∀ raw, default ∅ (kb_PodSpec k) !! "containers" = Some raw →
    ∃ containers, raw = AnyList containers ∧ ∀ c, c ∈ containers → ∃ m, c = AnyMap m;
}.

Definition kubernetes_entry_ok (auth : GitHubAuth) (earlier : list entry) (e : entry) : Prop :=
  (is_alias e = true → alias_ok earlier e) ∧
  (is_kubernetes e = false → bc_Kubernetes (en_cfg e) = None) ∧
  (is_kubernetes e = true → bc_Enabled (en_cfg e) = true → ∃ k, bc_Kubernetes (en_cfg e) = Some k ∧ pod_ok auth e k).

Record kubernetes_ok (cfg : BrokerConfig) : Prop := {
  k_entries : ∀ n earlier e later, entries_named cfg n = earlier ++ e :: later →
    kubernetes_entry_ok (bk_Auth cfg) earlier e;
  k_guarded : ∀ e target, is_entry cfg e → latest is_guarded_target (entries_named cfg (en_name e)) = Some target →
    bc_Enabled (en_cfg e) = true →
    en_index target = en_index e ∨ DeepEqual_kubernetes (bc_Kubernetes (en_cfg target)) (bc_Kubernetes (en_cfg e)) = true;
  k_drivers : ∀ e alias, is_entry cfg e → latest is_alias (entries_named cfg (en_name e)) = Some alias →
    bc_Driver (en_cfg e) = bc_Driver (en_cfg alias);
}.

Lemma differs_false v want : differs v want = false ↔ v = AnyString want.
Proof.
  unfold differs. destruct v; try (split; congruence). rewrite negb_false_iff, String.eqb_eq. split; congruence.
Qed.

Lemma size_eqb_0 `{Countable K} {A} (m : gmap K A) : (size m =? 0)%nat = false ↔ m ≠ ∅.
Proof. by rewrite Nat.eqb_neq, map_size_non_empty_iff. Qed.

Lemma for_range_None `{GoRange, Countable K} {A} (rule : K * A → option error) (m : gmap K A) :
  for_each rule (range m) = None ↔ ∀ k v, m !! k = Some v → rule (k, v) = None.
Proof.
  rewrite for_each_None. split.
  - intros Hr k v Hk. by apply Hr, elem_of_range.
  - intros Hr [k v] Hk%elem_of_range. by apply Hr.
Qed.
#[export] Hint Rewrite @for_range_None differs_false @size_eqb_0 : rules.

Ltac rules := autorewrite with rules; cbn [fst snd].

Section Kubernetes.
Context `{GoRange}.
Implicit Types (e : entry) (cfg : BrokerConfig).

Lemma node_selector_rules_None e labels selector :
  node_selector_rules e labels selector = None ↔ ∃ mapping, selector = AnyMap mapping ∧
    ∀ k v w, labels !! k = Some v → assoc String.eqb k mapping = Some w → w = AnyString v.
Proof.
  unfold node_selector_rules. split.
  - destruct selector; try done. rules. intros Hr. eexists. split; [done|]. intros k v w Hk Hw.
    specialize (Hr k v Hk). rewrite deny_None, Hw in Hr. by apply differs_false.
  - intros (mapping & -> & Hr). rules. intros k v Hk. rules. cbn. destruct (assoc _ _ _) as [w|] eqn:Hw; [|done].
    apply differs_false. by apply (Hr k v w).
Qed.

Lemma node_guard_rules_None e podSpec guard :
  node_guard_rules e podSpec guard = None ↔ guard_ok podSpec guard.
Proof.
  unfold node_guard_rules. rules. split.
  - intros ([Hnode Hlabels] & Hblank & Hpin & Hsel & _). split; [done|split; [done|]| |].
    + intros k v Hk. specialize (Hblank k v Hk). revert Hblank. rules. done.
    + intros v Hv. rewrite Hv in Hpin. by apply differs_false.
    + intros selector Hs. rewrite Hs in Hsel. by apply node_selector_rules_None in Hsel.
  - intros [Hnode [Hlabels Hblank] Hpin Hsel]. split_and!; [done|done| | | |done].
    + intros k v Hk. rules. by apply Hblank.
    + destruct (podSpec !! "nodeName") as [v|]; [|done]. by apply differs_false, Hpin.
    + destruct (podSpec !! "nodeSelector") as [sel|]; [|done]. by apply node_selector_rules_None, Hsel.
Qed.

Lemma container_rules_None e podSpec :
  container_rules e podSpec = None ↔ ∀ raw, podSpec !! "containers" = Some raw →
    ∃ containers, raw = AnyList containers ∧ ∀ c, c ∈ containers → ∃ m, c = AnyMap m.
Proof.
  unfold container_rules. destruct (podSpec !! "containers") as [raw|]; [|naive_solver]. split.
  - destruct raw as [| | | | | |l| |]; try done. rules. intros Hl raw [= <-]. eexists. split; [done|].
    intros c [i Hi]%list_elem_of_lookup. specialize (Hl i c Hi). destruct c; try done. by eexists.
  - intros Hr. destruct (Hr raw eq_refl) as (l & -> & Hl). rules. intros i c Hc.
    destruct (Hl c) as [m ->]; [by eapply list_elem_of_lookup_2|done].
Qed.

Lemma pod_rules_None auth e k : pod_rules auth e k = None ↔ pod_ok auth e k.
Proof.
  unfold pod_rules. rules. rewrite container_rules_None. split.
  - intros (? & ? & [? ?] & Hg & ? & _). split; try done. intros guard Hk. rewrite Hk in Hg.
    by apply node_guard_rules_None in Hg.
  - intros [? ? [? ?] Hg ?]. split_and!; try done. destruct (kb_NodeGuard k); [|done]. by apply node_guard_rules_None, Hg.
Qed.

(** The rule of [kubernetes_step], and its update of the two maps. *)
Definition kubernetes_rule auth (st : targets) e : option error :=
  first_of [
    if is_alias e then driver_rules st.1 e else None;
    if negb (is_kubernetes e) then
      deny (bool_decide (is_Some (bc_Kubernetes (en_cfg e)))) (en_prefix e +:+ ".kubernetes requires driver: kubernetes")
    else if negb (bc_Enabled (en_cfg e)) then None
    else match bc_Kubernetes (en_cfg e) with
         | None => Some (Errorf (en_prefix e +:+ ".kubernetes is required when the backend is enabled"))
         | Some k => pod_rules auth e k
         end].

Definition kubernetes_update (st : targets) e : targets :=
  (write is_alias en_cfg st.1 e, write is_guarded_target (λ e, (en_index e, en_cfg e)) st.2 e).

Lemma kubernetes_step_rule auth st e :
  kubernetes_step auth st e = guarded (kubernetes_rule auth st e) (Ok (kubernetes_update st e)).
Proof.
  destruct st as [aliases guards]. unfold kubernetes_step, kubernetes_rule, kubernetes_update, write. cbn [fst snd].
  unfold is_guarded_target, has_guard. fold (is_alias e).
  destruct (is_alias e); [destruct (driver_rules aliases e); [done|]|].
  all: destruct (is_kubernetes e); cbn [negb andb]; [|by destruct (bc_Kubernetes (en_cfg e))].
  all: destruct (bc_Enabled (en_cfg e)); cbn [negb andb]; [|done].
  all: destruct (bc_Kubernetes (en_cfg e)) as [k|]; [|done]; destruct (pod_rules auth e k); [done|]; by destruct (kb_NodeGuard k).
Qed.

Lemma driver_rules_None aliases earlier e :
  aliases !! en_name e = en_cfg <$> latest is_alias earlier → driver_rules aliases e = None ↔ alias_ok earlier e.
Proof.
  intros Ha. unfold driver_rules. rules. rewrite Ha. split.
  - intros (? & [Hn ?] & ? & Ht & _). split; [done|split; [done|]|done|].
    + intros Hin. destruct Hn as [Hn|]; [|done]. apply not_true_iff_false in Hn. by rewrite one_of_spec in Hn.
    + intros old Hold. rewrite Hold in Ht. cbn in Ht. by apply negb_false_iff in Ht.
  - intros [? [? Hn] [? ?] Ht]. split_and!; try done.
    + destruct (decide (en_name e ∈ builtin)); [by right; apply Hn|left]. apply not_true_iff_false. by rewrite one_of_spec.
    + destruct (latest is_alias earlier) as [old|]; [|done]. cbn. apply negb_false_iff. by apply Ht.
Qed.

Lemma kubernetes_rule_None auth st earlier e :
  st.1 !! en_name e = en_cfg <$> latest is_alias earlier →
  kubernetes_rule auth st e = None ↔ kubernetes_entry_ok auth earlier e.
Proof.
  intros Hst. unfold kubernetes_rule, kubernetes_entry_ok. rules. rewrite (driver_rules_None _ _ _ Hst).
  apply and_iff_compat_l. destruct (is_kubernetes e); cbn [negb]; rules.
  - destruct (bc_Kubernetes (en_cfg e)) as [k|]; [rewrite pod_rules_None|]; naive_solver.
  - rewrite <- eq_None_not_Some. naive_solver.
Qed.

Lemma kubernetes_fold l :
  foldl kubernetes_update (∅, ∅) l =
    (foldl (write is_alias en_cfg) ∅ l, foldl (write is_guarded_target (λ e, (en_index e, en_cfg e))) ∅ l).
Proof. apply (foldl_pair (write is_alias en_cfg) (write is_guarded_target _)). Qed.

Lemma validateKubernetesBackends_None cfg : validateKubernetesBackends cfg = None ↔ kubernetes_ok cfg.
Proof.
  unfold validateKubernetesBackends.
  pose proof (fold_rules_Ok _ _ _ (kubernetes_step_rule (bk_Auth cfg)) (entries cfg) (∅, ∅)) as Hfold.
  assert (Hentries : (∀ l1 e l2, entries cfg = l1 ++ e :: l2 →
      kubernetes_rule (bk_Auth cfg) (foldl kubernetes_update (∅, ∅) l1) e = None) ↔
    ∀ n l1 e l2, entries_named cfg n = l1 ++ e :: l2 → kubernetes_entry_ok (bk_Auth cfg) l1 e).
  { rewrite <- (entries_split (kubernetes_entry_ok (bk_Auth cfg))). do 3 (apply forall_proper; intros ?).
    rewrite kubernetes_rule_None; [done|]. rewrite kubernetes_fold. apply foldl_write. }
  rewrite kubernetes_fold in Hfold.
  assert (Hlast : ∀ V keep (value : entry → V) e, foldl (write keep value) ∅ (entries cfg) !! en_name e =
    value <$> latest keep (entries_named cfg (en_name e))).
  { intros. by rewrite foldl_write, filter_entries_named. }
  destruct (fold_rules _ _ _) as [[aliases guards]|err].
  - destruct (proj1 (Hfold _) eq_refl) as [[= -> ->] Hrules]. pose proof (proj1 Hentries Hrules) as Hk. clear Hrules. rules.
    unfold guarded_target_rule, alias_driver_rule. setoid_rewrite Hlast. setoid_rewrite deny_None.
    setoid_rewrite elem_of_entries. split.
    + intros (Hg & Hd & _). split; [done| |].
      * intros e t He Ht Hen. specialize (Hg e He). rewrite Ht, Hen in Hg. cbn in Hg.
        apply negb_false_iff, orb_true_iff in Hg as [Hi%Nat.eqb_eq|]; [by left|by right].
      * intros e a He Ha. specialize (Hd e He). rewrite Ha in Hd. cbn in Hd.
        apply negb_false_iff, String.eqb_eq in Hd. done.
    + intros [_ Hg Hd]. split_and!; [| |done].
      * intros e He. destruct (latest is_guarded_target _) as [t|] eqn:Ht; [cbn|done].
        destruct (bc_Enabled (en_cfg e)) eqn:Hen; [cbn|done]. apply negb_false_iff, orb_true_iff.
        destruct (Hg e t He Ht Hen) as [->|]; [left; apply Nat.eqb_refl|by right].
      * intros e He. destruct (latest is_alias _) as [a|] eqn:Ha; [cbn|done].
        by rewrite (Hd e a He Ha), String.eqb_refl.
  - split; [done|]. intros [Hk _ _]. pose proof (proj2 Hentries Hk) as Hrules.
    pose proof (proj2 (Hfold _) (conj eq_refl Hrules)). done.
Qed.
End Kubernetes.

(** ** Managed azure-vm targets *)

Record azure_entry_ok (cfg : BrokerConfig) (e : entry) (c : AzureVMBackendConfig) : Prop := {
  az_backend : en_name e = BackendAzureVM;
  az_single : HAEnabled (bk_Broker cfg) = false;
  az_secret : ga_SecretRef (bk_Auth cfg) ≠ "";
  az_full_name : ∃ owner repo, az_Repository c = owner +:+ "/" +:+ repo ∧ owner ≠ "" ∧ repo ≠ "" ∧
    ContainsChar owner slash = false ∧ ContainsChar repo slash = false;
  az_scope : ∃ scope, ForRepository (bk_Scope cfg) (az_Repository c) = Ok scope ∧
    gs_Type scope = GitHubScopeRepository ∧
    EqualFold (gs_Owner scope +:+ "/" +:+ gs_Repository scope) (az_Repository c) = true;
  az_runners : az_RunnerNames c ≠ [] ∧ NoDup (normalizeString <$> az_RunnerNames c) ∧
    ∀ name, name ∈ az_RunnerNames c → normalizeString name ≠ "";
  az_capacity : bc_WarmMin (en_cfg e) = 0 ∧ bc_WarmMax (en_cfg e) = 0 ∧
    bc_MaxRunners (en_cfg e) ≤ Z.of_nat (length (az_RunnerNames c)) ∧
    bc_CrossPoolMaxRunners (en_cfg e) = Z.of_nat (length (az_RunnerNames c));
}.

Record azure_ok (cfg : BrokerConfig) : Prop := {
  az_entries : ∀ e c, is_entry cfg e → bc_AzureVM (en_cfg e) = Some c → azure_entry_ok cfg e c;
  az_same : ∀ e e' c c', is_entry cfg e → is_entry cfg e' → bc_AzureVM (en_cfg e) = Some c →
    bc_AzureVM (en_cfg e') = Some c' → c = c';
  az_unmixed : ∀ e pool target, is_entry cfg e → is_Some (bc_AzureVM (en_cfg e)) → pool ∈ bk_Pools cfg →
    pc_Backends pool !! BackendAzureVM = Some target → is_Some (bc_AzureVM target);
}.

Lemma bad_repository_false full :
  bad_repository full = false ↔ ∃ owner repo, full = owner +:+ "/" +:+ repo ∧ owner ≠ "" ∧ repo ≠ "" ∧
    ContainsChar owner slash = false ∧ ContainsChar repo slash = false.
Proof.
  unfold bad_repository. split.
  - destruct (Cut full slash) as [[owner repo]|] eqn:Hc; [|done]. apply Cut_spec in Hc as [-> Ho]. rules.
    intros [[? ?] ?]. by exists owner, repo.
  - intros (owner & repo & -> & ? & ? & Ho & ?). rewrite Cut_app by done. by rules.
Qed.

Lemma bad_runner_names_false seen names :
  bad_runner_names seen names = false ↔
  NoDup (normalizeString <$> names) ∧ ∀ name, name ∈ names → normalizeString name ≠ "" ∧ normalizeString name ∉ seen.
Proof.
  revert seen. induction names as [|n names IH]; intros seen; cbn [bad_runner_names].
  { split; [intros _; split; [constructor|by intros ? ?%elem_of_nil]|done]. }
  rules. rewrite IH, fmap_cons, NoDup_cons. setoid_rewrite list_elem_of_fmap. setoid_rewrite elem_of_cons. split.
  - intros [[Hn Hs] [Hnd Hall]]. split; [split; [|done]|].
    + intros (y & Hy & Hin). destruct (Hall y Hin) as [_ Hns]. set_solver.
    + intros name [->|Hin]; [done|]. destruct (Hall name Hin). set_solver.
  - intros [[Hni Hnd] Hall]. destruct (Hall n (or_introl eq_refl)) as [? ?]. split; [done|]. split; [done|].
    intros name Hin. destruct (Hall name (or_intror Hin)). split; [done|]. intros [Heq%elem_of_singleton|]%elem_of_union; [|done].
    apply Hni. by exists name.
Qed.

Section Azure.
Context `{GoRange}.
Implicit Types (e : entry) (cfg : BrokerConfig).

Lemma azure_rules_None cfg e c : azure_rules cfg e c = None ↔ azure_entry_ok cfg e c.
Proof.
  unfold azure_rules. rules. rewrite bad_repository_false, bad_runner_names_false. rewrite !Z.eqb_eq. split.
  - intros (? & ? & ? & [? ?] & Hs & [? Hr] & [[[? ?] ?] ?] & _). split; try done.
    + destruct (ForRepository _ _) as [scope|]; [|done]. revert Hs. rules. intros [? ?]. by exists scope.
    + split_and!; try done. intros name Hn. by apply Hr.
  - intros [? ? ? ? (scope & Hs & ? & ?) (? & ? & Hr) (? & ? & ? & ?)]. rewrite Hs. rules. split_and!; try done.
    intros name Hn. split; [by apply Hr|set_solver].
Qed.

Definition azure_of e : option AzureVMBackendConfig := bc_AzureVM (en_cfg e).

Definition azure_rule cfg (managed : option AzureVMBackendConfig) e : option error :=
  match azure_of e with
  | None => None
  | Some c => first_of [azure_rules cfg e c;
      deny (match managed with Some old => negb (bool_decide (old = c)) | None => false end)
        "managed azure-vm target must be identical across pools"]
  end.

Definition azure_update (managed : option AzureVMBackendConfig) e : option AzureVMBackendConfig :=
  match azure_of e with None => managed | Some c => Some c end.

Lemma azure_step_rule cfg managed e :
  azure_step cfg managed e = guarded (azure_rule cfg managed e) (Ok (azure_update managed e)).
Proof. unfold azure_step, azure_rule, azure_update, azure_of. by destruct (bc_AzureVM (en_cfg e)). Qed.

Lemma azure_fold l : foldl azure_update None l = last (omap azure_of l).
Proof.
  induction l as [|e l IH] using rev_ind; [done|]. rewrite foldl_snoc, omap_app, IH. unfold azure_update. cbn.
  destruct (azure_of e); [by rewrite last_snoc|by rewrite app_nil_r].
Qed.

Lemma azure_rule_None cfg managed e :
  azure_rule cfg managed e = None ↔
  ∀ c, azure_of e = Some c → azure_entry_ok cfg e c ∧ ∀ old, managed = Some old → old = c.
Proof.
  unfold azure_rule. destruct (azure_of e) as [c|]; [|naive_solver]. rules. rewrite azure_rules_None. split.
  - intros (? & Hm & _) ? [= <-]. split; [done|]. intros old ->. by apply negb_false_iff, bool_decide_eq_true in Hm.
  - intros Hc. destruct (Hc c eq_refl) as [? Hold]. split_and!; try done. destruct managed as [old|]; [|done].
    by apply negb_false_iff, bool_decide_eq_true, Hold.
Qed.

Lemma validateManagedAzureVM_None cfg : validateManagedAzureVM cfg = None ↔ azure_ok cfg.
Proof.
  unfold validateManagedAzureVM.
  pose proof (fold_rules_Ok _ _ _ (azure_step_rule cfg) (entries cfg) None) as Hfold. setoid_rewrite azure_fold in Hfold.
  assert (Hrules : (∀ l1 e l2, entries cfg = l1 ++ e :: l2 → azure_rule cfg (last (omap azure_of l1)) e = None) ↔
    (∀ e c, is_entry cfg e → azure_of e = Some c → azure_entry_ok cfg e c) ∧
    (∀ e e' c c', is_entry cfg e → is_entry cfg e' → azure_of e = Some c → azure_of e' = Some c' → c = c')).
  { setoid_rewrite <- elem_of_entries. rewrite <- (adjacent_same azure_of). setoid_rewrite azure_rule_None. split.
    - intros Hr. split.
      + intros e c (l1 & l2 & Hl)%list_elem_of_split Hc. by apply (Hr l1 e l2 Hl c Hc).
      + intros l1 e l2 c old Hl Hc Hold. by apply (Hr l1 e l2 Hl c Hc).
    - intros [He Hs] l1 e l2 Hl c Hc. split; [apply He; [rewrite Hl; set_solver|done]|].
      intros old Hold. by apply (Hs l1 e l2 c old). }
  assert (Hsome : (∃ e, is_entry cfg e ∧ is_Some (azure_of e)) ↔ is_Some (last (omap azure_of (entries cfg)))).
  { rewrite last_is_Some. split.
    - intros (e & He%elem_of_entries & c & Hc) Hnil. assert (c ∈ omap azure_of (entries cfg)) as Hin;
        [apply list_elem_of_omap; by exists e|]. rewrite Hnil in Hin. by apply elem_of_nil in Hin.
    - intros Hne. destruct (omap azure_of (entries cfg)) as [|c l] eqn:Ho; [done|].
      assert (c ∈ omap azure_of (entries cfg)) as (e & He%elem_of_entries & Hc)%list_elem_of_omap; [rewrite Ho; left|].
      exists e. split; [done|by eexists]. }
  destruct (fold_rules _ _ _) as [managed|err].
  - destruct (proj1 (Hfold _) eq_refl) as [-> Hr]. apply Hrules in Hr as [He Hs].
    destruct (last (omap azure_of (entries cfg))) as [c|] eqn:Hc.
    + rules. setoid_rewrite deny_None. split.
      * intros Hu. split; [done|done|]. intros e pool target _ _ Hp Ht. specialize (Hu pool Hp). rewrite Ht in Hu.
        by destruct (bc_AzureVM target).
      * intros [_ _ Hu] pool Hp. destruct (pc_Backends pool !! BackendAzureVM) as [target|] eqn:Ht; [|done].
        destruct (proj2 Hsome) as (e & He' & Hc'); [by eexists|]. by destruct (Hu e pool target He' Hc' Hp Ht) as [? ->].
    + split; [intros _|done]. split; [done|done|]. intros e pool target He' Hc'.
      destruct (proj1 Hsome) as [? ?]; [by exists e|done].
  - split; [done|]. intros [He Hs _]. pose proof (proj2 (Hfold _) (conj eq_refl (proj2 Hrules (conj He Hs)))). done.
Qed.
End Azure.

(** ** Webhook labels *)

Definition opted_in (pool : PoolConfig) : Prop := pc_WebhookLabels pool ≠ [].
#[export] Instance opted_in_dec pool : Decision (opted_in pool).
Proof. unfold opted_in. apply _. Defined.

Definition webhook_pool_ok (pool : PoolConfig) : Prop :=
  0 ≤ pc_WebhookJobTimeout pool ∧
  (∀ full, full ∈ pc_WebhookRepositories pool → bad_webhook_repository full = false) ∧
  (pc_WebhookRepositories pool ≠ [] → opted_in pool) ∧
  ∀ label, label ∈ pc_WebhookLabels pool → normalizeString label ≠ "".

Record webhook_labels_ok (cfg : BrokerConfig) : Prop := {
  wl_pools : ∀ pool, pool ∈ bk_Pools cfg → webhook_pool_ok pool;
  wl_distinct : NoDup (label_key <$> filter opted_in (bk_Pools cfg));
  wl_secret : ∀ pool, pool ∈ bk_Pools cfg → opted_in pool →
    TrimSpace (gw_Secret (br_GitHubWebhook (bk_Broker cfg))) ≠ "" ∨
    TrimSpace (gw_SecretRef (br_GitHubWebhook (bk_Broker cfg))) ≠ "";
}.

Lemma webhook_pool_rules_None pool : webhook_pool_rules pool = None ↔ webhook_pool_ok pool.
Proof.
  unfold webhook_pool_rules, webhook_pool_ok, opted_in. rewrite !first_of_cons, imap_deny. rules.
  destruct (pc_WebhookLabels pool) as [|l ls] eqn:Hl; cbn [length Nat.eqb].
  - rules. destruct (pc_WebhookRepositories pool); cbn; [|naive_solver lia].
    setoid_rewrite elem_of_nil. naive_solver lia.
  - rewrite imap_deny. setoid_rewrite String.eqb_neq. naive_solver.
Qed.

Definition webhook_rule (st : gmap string PoolName * bool) (pool : PoolConfig) : option error :=
  first_of [webhook_pool_rules pool;
    if (length (pc_WebhookLabels pool) =? 0)%nat then None
    else match st.1 !! label_key pool with
         | Some other => Some (Errorf (pool_prefix pool +:+ ".webhookLabels duplicates pools[" +:+ other +:+ "].webhookLabels"))
         | None => None
         end].

Definition webhook_update (st : gmap string PoolName * bool) (pool : PoolConfig) : gmap string PoolName * bool :=
  if (length (pc_WebhookLabels pool) =? 0)%nat then st else (<[label_key pool := pc_Name pool]> st.1, true).

Lemma webhook_step_rule st pool :
  webhook_step st pool = guarded (webhook_rule st pool) (Ok (webhook_update st pool)).
Proof.
  destruct st as [seen enabled]. unfold webhook_step, webhook_rule, webhook_update. cbn [fst snd].
  destruct (webhook_pool_rules pool); [done|]. destruct (length _ =? 0)%nat; [done|].
  by destruct (seen !! label_key pool).
Qed.

Lemma opted_in_length pool : (length (pc_WebhookLabels pool) =? 0)%nat = negb (bool_decide (opted_in pool)).
Proof.
  apply Bool.eq_iff_eq_true. rewrite negb_true_iff, bool_decide_eq_false, Nat.eqb_eq, length_zero_iff_nil. unfold opted_in.
  destruct (pc_WebhookLabels pool); naive_solver.
Qed.

Definition keys_of (pools : list PoolConfig) : list string := label_key <$> filter opted_in pools.

Lemma keys_of_snoc pools pool :
  keys_of (pools ++ [pool]) = keys_of pools ++ (if decide (opted_in pool) then [label_key pool] else []).
Proof. unfold keys_of. rewrite filter_app, fmap_app. f_equal. rewrite filter_cons, filter_nil. by case_decide. Qed.

Lemma webhook_fold pools k :
  ((foldl webhook_update (∅, false) pools).1 !! k = None ↔ k ∉ keys_of pools) ∧
  ((foldl webhook_update (∅, false) pools).2 = true ↔ keys_of pools ≠ []).
Proof.
  induction pools as [|pool pools IH] using rev_ind; [split; [set_solver|done]|].
  rewrite foldl_snoc, keys_of_snoc. unfold webhook_update at 1 3. rewrite opted_in_length.
  case_decide; [rewrite bool_decide_true by done|rewrite bool_decide_false by done]; cbn; [|by rewrite app_nil_r].
  split; [|by destruct (keys_of pools)].
  rewrite lookup_insert_None, (proj1 IH), not_elem_of_app, list_elem_of_singleton. naive_solver.
Qed.

Lemma webhook_rule_None l1 pool :
  webhook_rule (foldl webhook_update (∅, false) l1) pool = None ↔
  webhook_pool_ok pool ∧ (opted_in pool → label_key pool ∉ keys_of l1).
Proof.
  unfold webhook_rule. rules. rewrite webhook_pool_rules_None. unfold opted_in.
  rewrite <- (proj1 (webhook_fold l1 (label_key pool))). destruct (_ !! _); naive_solver.
Qed.

Lemma NoDup_prefixes pools :
  (∀ l1 p l2, pools = l1 ++ p :: l2 → opted_in p → label_key p ∉ keys_of l1) ↔ NoDup (keys_of pools).
Proof.
  induction pools as [|pool pools IH] using rev_ind.
  { split; [intros _; constructor|intros _ [] ? ?; done]. }
  rewrite keys_of_snoc, NoDup_app, <- IH. split.
  - intros Hk. split_and!.
    + intros l1 p l2 ->. apply (Hk l1 p (l2 ++ [pool])). by rewrite <- app_assoc.
    + intros k Hin. case_decide; [|set_solver]. rewrite list_elem_of_singleton. intros ->.
      by apply (Hk pools pool []).
    + case_decide; [apply NoDup_singleton|constructor].
  - intros (Hk & Hni & _) l1 p l2 Hl Hp. destruct l2 as [|q l2 _] using rev_ind.
    + apply app_inj_tail in Hl as [-> ->]. intros Hin. apply (Hni _ Hin). rewrite decide_True by done. set_solver.
    + rewrite app_comm_cons, app_assoc in Hl. apply app_inj_tail in Hl as [-> _]. by apply (Hk l1 p l2).
Qed.

Lemma validateWebhookLabels_None cfg : validateWebhookLabels cfg = None ↔ webhook_labels_ok cfg.
Proof.
  unfold validateWebhookLabels.
  pose proof (fold_rules_Ok _ _ _ webhook_step_rule (bk_Pools cfg) (∅, false)) as Hfold.
  assert (Hrules : (∀ l1 p l2, bk_Pools cfg = l1 ++ p :: l2 → webhook_rule (foldl webhook_update (∅, false) l1) p = None) ↔
    (∀ p, p ∈ bk_Pools cfg → webhook_pool_ok p) ∧ NoDup (keys_of (bk_Pools cfg))).
  { rewrite <- NoDup_prefixes. setoid_rewrite webhook_rule_None. split; [|intros [Hp Hd] l1 p l2 Hl; split; [apply Hp; rewrite Hl; set_solver|by apply (Hd l1 p l2)]].
    intros Hr. split; [intros p (l1 & l2 & Hl)%list_elem_of_split; by apply (Hr l1 p l2)|naive_solver]. }
  destruct (fold_rules _ _ _) as [[seen enabled]|err].
  - destruct (proj1 (Hfold _) eq_refl) as [Hst Hr]. apply Hrules in Hr as [Hp Hd].
    pose proof (proj2 (webhook_fold (bk_Pools cfg) "")) as Hen. rewrite <- Hst in Hen. cbn in Hen.
    assert (Hopt : keys_of (bk_Pools cfg) ≠ [] ↔ ∃ pool, pool ∈ bk_Pools cfg ∧ opted_in pool).
    { unfold keys_of. split.
      - intros Hne. destruct (filter opted_in (bk_Pools cfg)) as [|p l] eqn:Hf; [done|]. exists p.
        assert (p ∈ filter opted_in (bk_Pools cfg)) as [? ?]%list_elem_of_filter; [rewrite Hf; left|done].
      - intros (p & Hin & Ho) Hnil%fmap_nil_inv. assert (p ∈ filter opted_in (bk_Pools cfg)) as Hf by by apply list_elem_of_filter.
        rewrite Hnil in Hf. by apply elem_of_nil in Hf. }
    rewrite Hopt in Hen. rules. split.
    + intros Hs. split; [done|done|]. intros pool Hin Ho. assert (enabled = true) as ->; [|naive_solver].
      apply Hen. by exists pool.
    + intros [_ _ Hs] (pool & Hin & Ho)%Hen. by apply (Hs pool).
  - split; [done|]. intros [Hp Hd _]. pose proof (proj2 (Hfold _) (conj eq_refl (proj2 Hrules (conj Hp Hd)))). done.
Qed.

(** ** The other rules *)

Definition store_ok (cfg : StateStoreConfig) : Prop :=
  let type := normalizeStringDefault (ss_Type cfg) "memory" in
  type ∈ ["memory"; "file"; "postgres"] ∧ (type = "file" → TrimSpace (ss_Path cfg) ≠ "").

Definition live_capacity_ok (cfg : LiveCapacityConfig) : Prop :=
  lc_Enabled cfg = true →
  normalizeStringDefault (lc_FailureMode cfg) "pass-through" ∈ ["pass-through"; "block"; "block-stale"; "fail-closed"] ∧
  0 ≤ lc_RefreshInterval cfg ∧ 0 ≤ lc_StaleAfter cfg ∧ 0 ≤ lc_ProbeTimeout cfg.

(** Not below zero: a NaN is not. *)
Definition not_negative (f : spec_float) : Prop := negative f = false.

Definition quality_ok (cfg : QualityAwareConfig) : Prop :=
  qa_Enabled cfg = true →
  0 ≤ qa_Window cfg ∧ 0 ≤ qa_MinSamples cfg ∧
  not_negative (qw_FreeSlots (qa_Weights cfg)) ∧ not_negative (qw_SuccessRate (qa_Weights cfg)) ∧
  not_negative (qw_Latency (qa_Weights cfg)) ∧ not_negative (qw_CapacityErrors (qa_Weights cfg)).

Definition event_ok (event : string) : Prop :=
  normalizeString event ≠ "" → TrimPrefix (normalizeString event) "allocation." ∈ supportedWebhookEvents.

Definition endpoint_ok (e : WebhookEndpointConfig) : Prop :=
  TrimSpace (we_URL e) ≠ "" ∧
  (HasPrefix (normalizeString (we_URL e)) "http://" = true ∨ HasPrefix (normalizeString (we_URL e)) "https://" = true) ∧
  (TrimSpace (we_SigningSecret e) ≠ "" ∨ TrimSpace (we_SigningSecretRef e) ≠ "") ∧
  ∀ event, event ∈ we_Events e → event_ok event.

Definition webhooks_ok (cfg : WebhooksConfig) : Prop :=
  0 ≤ wc_Timeout cfg ∧ 0 ≤ wc_MaxAttempts cfg ∧ 0 ≤ wc_InitialBackoff cfg ∧ 0 ≤ wc_MaxBackoff cfg ∧
  (wc_Enabled cfg = true → wc_Endpoints cfg ≠ [] ∧ ∀ e, e ∈ wc_Endpoints cfg → endpoint_ok e).

Definition budget_ok (budget : BudgetConfig) : Prop :=
  bu_Enabled budget = true → 0 ≤ bu_MaxAllocationsDaily budget ∧ 0 ≤ bu_MaxAllocationsMonthly budget ∧
  (0 < bu_MaxAllocationsDaily budget ∨ 0 < bu_MaxAllocationsMonthly budget).

(** The service can read the clock value, and the day. *)
Definition clock_ok (value : string) : Prop := ∃ minutes, parseClockMinutes value = Ok minutes.
Definition day_ok (day : string) : Prop := ∃ weekday, normalizeWeekdayToken day = weekdayToken weekday.

Record window_ok (w : WarmWindowConfig) : Prop := {
  win_given : TrimSpace (ww_Start w) ≠ "" ∧ TrimSpace (ww_End w) ≠ "";
  win_clocks : clock_ok (ww_Start w) ∧ clock_ok (ww_End w);
  win_days : ∀ day, day ∈ ww_Days w → day_ok day;
  win_overrides : ∀ n, ww_WarmMin w = Some n ∨ ww_WarmMax w = Some n → 0 ≤ n;
}.

Definition timezone_ok (zone : string → result (Time → Duration)) (timezone : string) : Prop :=
  TrimSpace timezone = "" ∨ EqualFold (TrimSpace timezone) "UTC" = true ∨ EqualFold (TrimSpace timezone) "Local" = true ∨
  ∃ offset, zone (TrimSpace timezone) = Ok offset.

Definition warm_ok (zone : string → result (Time → Duration)) (b : BackendConfig) : Prop :=
  0 ≤ bc_WarmMin b ∧ 0 ≤ bc_WarmMax b ∧ 0 ≤ bc_WarmTTL b ∧
  ∀ schedule, bc_WarmSchedule b = Some schedule →
    timezone_ok zone (ws_Timezone schedule) ∧ ∀ w, w ∈ ws_Windows schedule → window_ok w.

Definition in_unit (f : spec_float) : Prop := negative f = false ∧ SFltb float_one f = false.

Definition queries (rule : TierRuleConfig) : Prop :=
  TrimSpace (tu_UsageQuery rule) ≠ "" ∨ TrimSpace (tu_BurnRateQuery rule) ≠ "".

Record tier_rule_ok (tierCfg : TierRoutingConfig) (rule : TierRuleConfig) : Prop := {
  rule_action : normalizeStringDefault (tu_Action rule) tierActionDisable ∈
    [tierActionObserveOnly; tierActionDeprioritize; tierActionDisable];
  rule_combine : normalizeStringDefault (tu_Combine rule) tierCombineMostRestrictive = tierCombineMostRestrictive;
  rule_ratios : in_unit (tu_SoftLimitRatio rule) ∧ in_unit (tu_HardLimitRatio rule) ∧
    (positive (tu_SoftLimitRatio rule) = true → positive (tu_HardLimitRatio rule) = true →
     SFltb (tu_HardLimitRatio rule) (tu_SoftLimitRatio rule) = false);
  rule_credit : not_negative (tu_MinRemainingCredit rule) ∧ 0 ≤ tu_ProjectionWindow rule;
  rule_provider : TrimSpace (tu_ProviderRef rule) ≠ "" → is_Some (tr_Providers tierCfg !! tu_ProviderRef rule);
  rule_source : TrimSpace (tu_ProviderRef rule) ≠ "" ∨ queries rule;
  rule_prometheus : queries rule → TrimSpace (tp_URL (tr_Prometheus tierCfg)) ≠ "";
}.

(** Some pool has a backend of that name. *)
Definition configured (cfg : BrokerConfig) (name : BackendName) : Prop :=
  ∃ pool, pool ∈ bk_Pools cfg ∧ is_Some (pc_Backends pool !! name).

Record tier_routing_ok (cfg : BrokerConfig) (tierCfg : TierRoutingConfig) : Prop := {
  tier_mode : normalizeStringDefault (tr_FailureMode tierCfg) tierFailureModePassThrough ∈
    [tierFailureModePassThrough; tierFailureModeBlock; tierFailureModeFallback];
  tier_durations : 0 ≤ tr_RefreshInterval tierCfg ∧ 0 ≤ tr_StaleAfter tierCfg ∧ 0 ≤ tp_Timeout (tr_Prometheus tierCfg);
  tier_fallback : normalizeStringDefault (tr_FailureMode tierCfg) tierFailureModePassThrough = tierFailureModeFallback →
    tr_FallbackBackends tierCfg ≠ [] ∧ ∀ name, name ∈ tr_FallbackBackends tierCfg → configured cfg name;
  tier_providers : ∀ ref provider, tr_Providers tierCfg !! ref = Some provider →
    TrimSpace ref ≠ "" ∧ normalizeString (tv_Provider provider) ∈ ["aws"; "azure"; "gcp"] ∧
    TrimSpace (tv_Mode provider) ≠ "";
  tier_provider_rules : ∀ rule, rule ∈ tr_ProviderRules tierCfg →
    TrimSpace (pr_ProviderRef rule) ≠ "" ∧ is_Some (tr_Providers tierCfg !! pr_ProviderRef rule) ∧
    (∀ name, name ∈ pr_Backends rule → configured cfg name) ∧ tier_rule_ok tierCfg (provider_rule rule);
  tier_rules : ∀ e rule, is_entry cfg e → rule ∈ bc_TierRules (en_cfg e) → tier_rule_ok tierCfg rule;
}.

(** The rules hold when tier routing is on or some rule is configured. *)
Definition tier_ok (cfg : BrokerConfig) : Prop :=
  let tierCfg := br_TierRouting (bk_Broker cfg) in
  tr_Enabled tierCfg = true ∨ tr_ProviderRules tierCfg ≠ [] ∨
    (∃ e, is_entry cfg e ∧ bc_TierRules (en_cfg e) ≠ []) →
  tier_routing_ok cfg tierCfg.

Definition scope_ok (cfg : BrokerConfig) : Prop :=
  IsPerRepository (bk_Scope cfg) = true → Model.Validate (bk_Scope cfg) = None ∧
  (HasDefaultRepository (bk_Scope cfg) = false → ∀ e, is_entry cfg e → wants_warm (en_cfg e) = false).

(** Everything [Validate] checks, read as one statement about the configuration. *)
Record accepted (zone : string → result (Time → Duration)) (cfg : BrokerConfig) : Prop := {
  ok_store : store_ok (br_StateStore (bk_Broker cfg));
  ok_durations : 0 ≤ ha_LeaseTTL (br_HA (bk_Broker cfg)) ∧
    0 ≤ aq_RetryAfter (br_Queue (bk_Broker cfg)) ∧ 0 ≤ aq_MaxAttempts (br_Queue (bk_Broker cfg)) ∧
    0 ≤ af_SaturationWait (br_ARCFirst (bk_Broker cfg)) ∧ 0 ≤ af_PollInterval (br_ARCFirst (bk_Broker cfg)) ∧
    0 ≤ br_RegistrationTimeout (bk_Broker cfg);
  ok_tier : tier_ok cfg;
  ok_live : live_capacity_ok (br_LiveCapacity (bk_Broker cfg));
  ok_quality : quality_ok (br_QualityAware (bk_Broker cfg));
  ok_webhooks : webhooks_ok (br_Webhooks (bk_Broker cfg));
  ok_labels : webhook_labels_ok cfg;
  ok_limits : ∀ name limit, br_BackendLimits (bk_Broker cfg) !! name = Some limit → 0 ≤ limit;
  ok_backends : ∀ e, is_entry cfg e → budget_ok (bc_Budget (en_cfg e)) ∧ 0 ≤ bc_CostClass (en_cfg e) ∧
    warm_ok zone (en_cfg e) ∧ 0 ≤ bc_RegistrationTimeout (en_cfg e) ∧ 0 ≤ bc_CrossPoolMaxRunners (en_cfg e);
  ok_scope : scope_ok cfg;
  ok_azure : azure_ok cfg;
  ok_kubernetes : kubernetes_ok cfg;
  ok_fair_share : ∀ pool, pool ∈ bk_Pools cfg → fs_Enabled (pc_FairShare pool) = true →
    0 ≤ fs_UsageWindow (pc_FairShare pool) ∧ 0 ≤ fs_StarvationAfter (pc_FairShare pool);
}.

Lemma deny_clock_part part what limit :
  clock_part part what limit = None ↔ ∃ n, Sscanf_d part = Some n ∧ 0 ≤ n ≤ limit.
Proof. unfold clock_part. destruct (Sscanf_d part); [rules|]; naive_solver lia. Qed.

Lemma validateClock_None value : validateClock value = None ↔ clock_ok value.
Proof.
  unfold validateClock, clock_ok, parseClockMinutes. destruct (String.eqb_spec (TrimSpace value) "") as [->|_].
  { split; [done|by intros [? ?]]. }
  destruct (Split (TrimSpace value) colon) as [|h [|m [|sec [|? ?]]]]; try (split; [done|by intros [? ?]]).
  - rules. rewrite !deny_clock_part. destruct (Sscanf_d h) as [hour|]; [|naive_solver].
    destruct (Sscanf_d m) as [minute|]; [|naive_solver]. case_match; reflect_bools; naive_solver lia.
  - rules. rewrite !deny_clock_part. destruct (Sscanf_d h) as [hour|]; [|naive_solver].
    destruct (Sscanf_d m) as [minute|]; [|naive_solver]. destruct (Sscanf_d sec) as [second|].
    + repeat case_match; reflect_bools; naive_solver lia.
    + repeat case_match; naive_solver.
Qed.

Lemma isWeekdayToken_spec day : isWeekdayToken day = true ↔ day_ok day.
Proof.
  unfold isWeekdayToken, day_ok, normalizeWeekdayToken. fold (normalizeString day). generalize (normalizeString day) as t.
  intros t. rewrite one_of_spec. cbv zeta. split.
  - intros Ht. repeat (apply elem_of_cons in Ht as [->|Ht]; [first [by exists Monday|by exists Tuesday|by exists Wednesday|
      by exists Thursday|by exists Friday|by exists Saturday|by exists Sunday]|]). by apply elem_of_nil in Ht.
  - intros [day' Hd]. destruct (decide (t ∈ weekday_tokens)) as [|Ht]; [done|]. exfalso. revert Hd.
    unfold weekday_tokens in Ht. repeat (apply not_elem_of_cons in Ht as [?%String.eqb_neq Ht]).
    cbn [existsb]. repeat match goal with Hn : (t =? _)%string = false |- _ => rewrite Hn end.
    cbn. intros Hd. subst t. by destruct day'.
Qed.

Section Rest.
Context `{GoRange} (zone : string → result (Time → Duration)).

Lemma validateStateStore_None cfg : validateStateStore cfg = None ↔ store_ok cfg.
Proof.
  unfold validateStateStore, store_ok. set (type := normalizeStringDefault _ _).
  destruct (String.eqb_spec type "memory") as [->|]; [set_solver|].
  destruct (String.eqb_spec type "file") as [->|]; [rules; set_solver|].
  destruct (String.eqb_spec type "postgres") as [->|]; [case_match; set_solver|]. set_solver.
Qed.

Lemma validateLiveCapacity_None cfg : validateLiveCapacity cfg = None ↔ live_capacity_ok cfg.
Proof. unfold validateLiveCapacity, live_capacity_ok. rules. naive_solver. Qed.

Lemma validateQualityAware_None cfg : validateQualityAware cfg = None ↔ quality_ok cfg.
Proof. unfold validateQualityAware, quality_ok, not_negative. rules. naive_solver. Qed.

Lemma validateWebhookEvent_None prefix event : validateWebhookEvent prefix event = None ↔ event_ok event.
Proof. unfold validateWebhookEvent, event_ok. rules. naive_solver. Qed.

Lemma validateWebhookEndpoint_None i e : validateWebhookEndpoint i e = None ↔ endpoint_ok e.
Proof.
  unfold validateWebhookEndpoint, endpoint_ok. rules. setoid_rewrite validateWebhookEvent_None. naive_solver.
Qed.

Lemma validateWebhooks_None cfg : validateWebhooks cfg = None ↔ webhooks_ok cfg.
Proof.
  unfold validateWebhooks, webhooks_ok. rules. setoid_rewrite validateWebhookEndpoint_None.
  setoid_rewrite list_elem_of_lookup. naive_solver.
Qed.

Lemma validateBudgetConfig_None pool name budget : validateBudgetConfig pool name budget = None ↔ budget_ok budget.
Proof. unfold validateBudgetConfig, budget_ok. rules. rewrite !Z.eqb_neq. naive_solver lia. Qed.

Lemma validateTimezone_None prefix timezone : validateTimezone zone prefix timezone = None ↔ timezone_ok zone timezone.
Proof.
  unfold validateTimezone, timezone_ok. rules. rewrite !andb_true_iff, !negb_true_iff, String.eqb_neq.
  destruct (decide (TrimSpace timezone = "")) as [|Hne]; [naive_solver|].
  destruct (EqualFold _ "UTC"), (EqualFold _ "Local"), (zone _) as [offset|]; naive_solver.
Qed.

Lemma negative_override_false n : negative_override n = false ↔ ∀ k, n = Some k → 0 ≤ k.
Proof. destruct n; cbn; [rules; naive_solver|naive_solver]. Qed.

Lemma validateWarmWindow_None pool backend i w : validateWarmWindow pool backend i w = None ↔ window_ok w.
Proof.
  unfold validateWarmWindow. rewrite !first_of_cons, for_each_deny. rules. rewrite !validateClock_None, !negative_override_false.
  setoid_rewrite negb_false_iff. setoid_rewrite isWeekdayToken_spec. split; [|intros [[? ?] [? ?] ? ?]; naive_solver].
  intros (? & ? & ? & ? & ? & ? & ? & _). split; naive_solver.
Qed.

Lemma validateWarmBackendConfig_None pool backend b : validateWarmBackendConfig zone pool backend b = None ↔ warm_ok zone b.
Proof.
  unfold validateWarmBackendConfig, warm_ok. rules. destruct (bc_WarmSchedule b) as [schedule|]; [|naive_solver].
  rules. rewrite validateTimezone_None. setoid_rewrite validateWarmWindow_None. setoid_rewrite list_elem_of_lookup.
  naive_solver.
Qed.

Lemma outside_unit_false f : outside_unit f = false ↔ in_unit f.
Proof. unfold outside_unit, in_unit. by rules. Qed.

Lemma validateTierRule_None tierCfg pool backend i rule :
  validateTierRule tierCfg pool backend i rule = None ↔ tier_rule_ok tierCfg rule.
Proof.
  unfold validateTierRule. rules. rewrite !outside_unit_false. split.
  - intros (? & ? & ? & ? & Hr & ? & ? & Hp & Hs & Hq & _). split; try done.
    + split_and!; try done. destruct (positive _), (positive _); naive_solver.
    + naive_solver.
    + unfold queries. naive_solver.
    + unfold queries. naive_solver.
  - intros [? ? (? & ? & Hr) [? ?] Hp Hs Hq]. unfold queries in Hs, Hq. split_and!; try done.
    + destruct (positive (tu_SoftLimitRatio rule)), (positive (tu_HardLimitRatio rule)); naive_solver.
    + destruct (decide (TrimSpace (tu_ProviderRef rule) = "")); naive_solver.
    + naive_solver.
    + destruct (decide (TrimSpace (tu_UsageQuery rule) = "")), (decide (TrimSpace (tu_BurnRateQuery rule) = ""));
        naive_solver.
Qed.

Lemma validateProvider_None ref provider :
  validateProvider ref provider = None ↔
    TrimSpace ref ≠ "" ∧ normalizeString (tv_Provider provider) ∈ ["aws"; "azure"; "gcp"] ∧
    TrimSpace (tv_Mode provider) ≠ "".
Proof. unfold validateProvider. rules. naive_solver. Qed.

Lemma unknown_backend cfg name : negb (backendNameConfigured cfg name) = false ↔ configured cfg name.
Proof. rewrite negb_false_iff. apply backendNameConfigured_spec. Qed.

Lemma validateProviderTierRule_None cfg tierCfg i rule :
  validateProviderTierRule cfg tierCfg i rule = None ↔
    TrimSpace (pr_ProviderRef rule) ≠ "" ∧ is_Some (tr_Providers tierCfg !! pr_ProviderRef rule) ∧
    (∀ name, name ∈ pr_Backends rule → configured cfg name) ∧ tier_rule_ok tierCfg (provider_rule rule).
Proof.
  unfold validateProviderTierRule. rewrite !first_of_cons, for_each_deny, validateTierRule_None.
  setoid_rewrite unknown_backend. rules. naive_solver.
Qed.

Lemma hasTierRules_spec cfg :
  hasTierRules cfg = true ↔ tr_ProviderRules (br_TierRouting (bk_Broker cfg)) ≠ [] ∨
    ∃ e, is_entry cfg e ∧ bc_TierRules (en_cfg e) ≠ [].
Proof.
  unfold hasTierRules. rewrite orb_true_iff, negb_true_iff, length_eqb_0, existsb_exists. apply or_iff_compat_l.
  setoid_rewrite existsb_exists. setoid_rewrite negb_true_iff. setoid_rewrite length_eqb_0.
  setoid_rewrite <- list_elem_of_In. unfold is_entry. split.
  - intros (pool & [i Hi]%list_elem_of_lookup & [n c] & Hc%elem_of_map_to_list & Hne).
    by exists (Build_entry i pool n c).
  - intros ([i pool n c] & [Hi Hc] & Hne). exists pool. split; [by eapply list_elem_of_lookup_2|].
    exists (n, c). split; [by apply elem_of_map_to_list|done].
Qed.

Lemma validateTierRouting_None cfg : validateTierRouting cfg = None ↔ tier_ok cfg.
Proof.
  unfold validateTierRouting, tier_ok. set (tierCfg := br_TierRouting (bk_Broker cfg)). rewrite skip_None.
  assert (Hon : negb (tr_Enabled tierCfg) && negb (hasTierRules cfg) = false ↔
    tr_Enabled tierCfg = true ∨ tr_ProviderRules tierCfg ≠ [] ∨ ∃ e, is_entry cfg e ∧ bc_TierRules (en_cfg e) ≠ []).
  { rewrite andb_false_iff, !negb_false_iff, hasTierRules_spec. done. }
  rewrite Hon. apply forall_proper; intros _. rewrite !first_of_cons, enforce_None, !first_of_cons, for_each_deny.
  setoid_rewrite unknown_backend. rules. setoid_rewrite validateProvider_None. setoid_rewrite validateProviderTierRule_None.
  setoid_rewrite elem_of_entries. split.
  - intros (? & ? & ? & ? & ? & ? & Hp & Hr & _). split; [done|done|naive_solver|done| |].
    + intros rule [i Hi]%list_elem_of_lookup. by apply (Hp i).
    + intros e rule He [i Hi]%list_elem_of_lookup. specialize (Hr e He). rewrite first_of_imap in Hr.
      by apply Hr, validateTierRule_None in Hi.
  - intros [? (? & ? & ?) ? ? Hp Hr]. split_and!; try done; [naive_solver| |].
    + intros i rule Hi. apply Hp. by eapply list_elem_of_lookup_2.
    + intros e He. rules. intros i rule Hi. apply validateTierRule_None, (Hr e); [done|]. by eapply list_elem_of_lookup_2.
Qed.

Lemma validatePerRepositoryScope_None cfg : validatePerRepositoryScope cfg = None ↔ scope_ok cfg.
Proof.
  unfold validatePerRepositoryScope, scope_ok. rewrite !skip_None, !first_of_cons, skip_None, for_each_deny.
  setoid_rewrite elem_of_entries. rules. naive_solver.
Qed.

(** A rule on every entry. *)
Lemma for_entries_None (rule : entry → option error) (ok : entry → Prop) cfg :
  (∀ e, rule e = None ↔ ok e) → for_each rule (entries cfg) = None ↔ ∀ e, is_entry cfg e → ok e.
Proof. intros Hok. rewrite for_each_None. setoid_rewrite elem_of_entries. naive_solver. Qed.

Lemma validateBackendBudgets_None cfg :
  validateBackendBudgets cfg = None ↔ ∀ e, is_entry cfg e → budget_ok (bc_Budget (en_cfg e)) ∧ 0 ≤ bc_CostClass (en_cfg e).
Proof. apply for_entries_None. intros e. rules. rewrite validateBudgetConfig_None. naive_solver. Qed.

Lemma validateWarmPools_None cfg : validateWarmPools zone cfg = None ↔ ∀ e, is_entry cfg e → warm_ok zone (en_cfg e).
Proof. apply for_entries_None. intros e. apply validateWarmBackendConfig_None. Qed.

Lemma validateFairShare_None cfg :
  validateFairShare cfg = None ↔ ∀ pool, pool ∈ bk_Pools cfg → fs_Enabled (pc_FairShare pool) = true →
    0 ≤ fs_UsageWindow (pc_FairShare pool) ∧ 0 ≤ fs_StarvationAfter (pc_FairShare pool).
Proof.
  unfold validateFairShare. rewrite for_each_None. do 2 (apply forall_proper; intros ?). unfold fair_share_rules.
  rules. naive_solver.
Qed.

Lemma validateLimits_None cfg :
  validateRegistrationTimeoutAndBackendLimits cfg = None ↔
    0 ≤ br_RegistrationTimeout (bk_Broker cfg) ∧
    (∀ name limit, br_BackendLimits (bk_Broker cfg) !! name = Some limit → 0 ≤ limit) ∧
    ∀ e, is_entry cfg e → 0 ≤ bc_RegistrationTimeout (en_cfg e) ∧ 0 ≤ bc_CrossPoolMaxRunners (en_cfg e).
Proof.
  unfold validateRegistrationTimeoutAndBackendLimits. rewrite !first_of_cons, first_of_nil, for_range_None.
  rewrite (for_entries_None _ (λ e, 0 ≤ bc_RegistrationTimeout (en_cfg e) ∧ 0 ≤ bc_CrossPoolMaxRunners (en_cfg e)))
    by (intros e; rules; naive_solver).
  setoid_rewrite deny_None. setoid_rewrite Z.ltb_ge. naive_solver.
Qed.

Lemma Validate_None cfg : Config.Validate zone cfg = None ↔ accepted zone cfg.
Proof.
  unfold Config.Validate. rewrite !first_of_cons, first_of_nil, validateStateStore_None, validateTierRouting_None,
    validateLiveCapacity_None, validateQualityAware_None, validateWebhooks_None, validateWebhookLabels_None,
    validateBackendBudgets_None, validateWarmPools_None, validatePerRepositoryScope_None, validateManagedAzureVM_None,
    validateKubernetesBackends_None, validateFairShare_None, validateLimits_None.
  unfold validateHA, validateAdmissionQueue, validateARCFirst. rules.
  split.
  - intros (? & ? & (? & ? & _) & ? & ? & ? & (? & ? & _) & ? & ? & Hb & Hw & ? & ? & ? & ? & (? & ? & Hl) & _).
    split; try done. intros e He. specialize (Hb e He). specialize (Hw e He). specialize (Hl e He). tauto.
  - intros [? (? & ? & ? & ? & ? & ?) ? ? ? ? ? ? Hb ? ? ? ?]. split_and!; try done; intros e He;
      specialize (Hb e He); tauto.
Qed.
End Rest.
