(* ===== verification/ConfigBehaviour.v ===== *)
(** What the service may rely on once [config.Validate] accepted its
    configuration, and what the rules let through. *)

From stdpp Require Import pretty.
From Stdlib Require Import Floats.SpecFloat.
From S2P Require Import Prelude Errors Model Store Backends Warm Config ConfigTheory.

(** ** The verdict *)

(** C24. The configuration rules decide one declarative condition: [Validate] returns nil exactly for the
    configurations [accepted] describes (every rule on every backend of every pool, the aliases, guarded
    targets and managed azure-vm targets compared across pools, distinct label sets, the budget, tier and
    warm rules), and the verdict does not depend on the order in which Go iterates over its maps. *)
Theorem validate_decides_accepted (order other : GoRange) zone cfg :
  (Config.Validate (H := order) zone cfg = None ↔ accepted zone cfg) ∧
  (Config.Validate (H := order) zone cfg = None ↔ Config.Validate (H := other) zone cfg = None).
Proof. by rewrite !Validate_None. Qed.

Section Accepted.
Context `{GoRange} (zone : string → result (Time → Duration)).
Implicit Types (cfg : BrokerConfig) (pool : PoolConfig).

Lemma Load_accepted {Bytes} (readFile : string → result Bytes) decode default_config path cfg :
  path ≠ "" → Load zone readFile decode default_config path = Ok cfg → accepted zone cfg.
Proof.
  unfold Load. intros Hp%String.eqb_neq. rewrite Hp. destruct (readFile path); [|done].
  destruct (decode _ _); [|done]. destruct (Config.Validate zone _) eqn:Hv; [done|]. intros [= <-].
  by apply Validate_None in Hv.
Qed.

Lemma is_entry_of cfg pool n c : pool ∈ bk_Pools cfg → pc_Backends pool !! n = Some c →
  ∃ i, is_entry cfg (Build_entry i pool n c).
Proof. intros [i Hi]%list_elem_of_lookup Hc. by exists i. Qed.

(** ** Warm schedules *)

Lemma window_runs w local : window_ok w → ∃ active, warmWindowActive w local = Ok active.
Proof.
  intros [_ [[s Hs] [f Hf]] _ _]. unfold warmWindowActive. rewrite Hs, Hf. case_match; by eexists.
Qed.

Lemma schedule_runs baseMin baseMax local windows :
  (∀ w, w ∈ windows → window_ok w) → ∃ bounds, scheduled_bounds baseMin baseMax local windows = Ok bounds.
Proof.
  induction windows as [|w windows IH]; intros Hw; cbn [scheduled_bounds]; [by eexists|].
  destruct (window_runs w local) as [active ->]; [apply Hw; left|]. destruct active; [by eexists|].
  apply IH. intros v Hv. apply Hw. by right.
Qed.

Lemma location_loads timezone : timezone_ok zone timezone → ∃ offset, loadWarmLocation zone timezone = Ok offset.
Proof.
  unfold timezone_ok, loadWarmLocation. destruct (String.eqb_spec (TrimSpace timezone) ""); [by intros; eexists|].
  destruct (EqualFold _ "UTC"); [by intros; eexists|]. destruct (EqualFold _ "Local"); [by intros; eexists|]. cbn.
  intros [|[|[|[offset ->]]]]; [done|done|done|by eexists].
Qed.

(** C36. An accepted configuration never fails a warm pass: for every backend of every pool and at every
    instant the service computes warm bounds, 0 <= warmMin <= warmMax, since every clock value, weekday
    and time zone of its schedule is one the service can read. *)
Theorem accepted_warm_schedules_run cfg pool n c now :
  Config.Validate zone cfg = None → pool ∈ bk_Pools cfg → pc_Backends pool !! n = Some c →
  ∃ min max, effectiveWarmBounds zone c now = Ok (min, max) ∧ 0 ≤ min ≤ max.
Proof.
  intros Hv%Validate_None Hp Hc. destruct (is_entry_of _ _ _ _ Hp Hc) as [i He].
  destruct (ok_backends _ _ Hv _ He) as (_ & _ & (Hmin & Hmax & _ & Hs) & _). cbn [en_cfg] in *. unfold effectiveWarmBounds.
  pose proof (clamp_bounds_ordered (bc_WarmMin c) (bc_WarmMax c)) as Hb. unfold normalizeWarmBounds.
  destruct (clamp_bounds _ _) as [min max]. cbn in Hb.
  destruct (bc_WarmSchedule c) as [schedule|]; [|by exists min, max].
  destruct (length _ =? 0)%nat; [by exists min, max|]. destruct (Hs schedule eq_refl) as [Hz Hw].
  destruct (location_loads _ Hz) as [offset ->]. destruct (schedule_runs min max (clock_at now (offset now)) _ Hw) as [[lo hi] Hok].
  exists lo, hi. split; [done|]. by apply scheduled_bounds_ordered in Hok.
Qed.

(** ** Drivers *)

Definition alias_limit (e : entry) : option Z :=
  if is_alias e then Some (bc_CrossPoolMaxRunners (en_cfg e)) else None.

Lemma latest_alias_limit es : last (omap alias_limit es) = (λ e, bc_CrossPoolMaxRunners (en_cfg e)) <$> latest is_alias es.
Proof.
  unfold latest. induction es as [|e es IH] using rev_ind; [done|]. rewrite omap_app, filter_app, filter_cons, filter_nil.
  cbn. unfold alias_limit at 2. destruct (decide (kept is_alias e)) as [Hk|Hk].
  - unfold kept in Hk. rewrite Hk. by rewrite !last_snoc.
  - apply not_true_is_false in Hk. by rewrite Hk, !app_nil_r.
Qed.

Lemma alias_limits_agree cfg e e' : kubernetes_ok cfg → is_entry cfg e → is_entry cfg e' → en_name e = en_name e' →
  is_alias e = true → is_alias e' = true → bc_CrossPoolMaxRunners (en_cfg e) = bc_CrossPoolMaxRunners (en_cfg e').
Proof.
  intros [Hk _ _] He He' Hn Ha Ha'. assert (Hsame : ∀ x y a b, x ∈ entries_named cfg (en_name e) →
    y ∈ entries_named cfg (en_name e) → alias_limit x = Some a → alias_limit y = Some b → a = b).
  { apply (adjacent_same alias_limit). intros l1 x l2 b old Hl Hb Hold. rewrite latest_alias_limit in Hold.
    destruct (latest is_alias l1) as [o|] eqn:Ho; [|done]. cbn in Hold. injection Hold as <-. unfold alias_limit in Hb.
    destruct (is_alias x) eqn:Hx; [|done]. injection Hb as <-. destruct (Hk _ _ _ _ Hl) as [Halias _].
    pose proof (alias_target _ _ (Halias Hx) _ Ho) as Hag. unfold alias_agrees in Hag. by reflect_bools. }
  apply (Hsame e e'); try (by apply elem_of_entries_named); unfold alias_limit; [by rewrite Ha|by rewrite Ha'].
Qed.

(** A backend with a driver of its own is one target everywhere: in every pool that has a backend of
    its name it runs the kubernetes driver under the same positive cross-pool limit, its own limit is
    positive, and it shadows no built-in backend but arc. *)
Theorem driver_backend_is_one_target cfg pool pool' n c c' :
  Config.Validate zone cfg = None → pool ∈ bk_Pools cfg → pc_Backends pool !! n = Some c → bc_Driver c ≠ "" →
  pool' ∈ bk_Pools cfg → pc_Backends pool' !! n = Some c' →
  bc_Driver c' = "kubernetes" ∧ bc_CrossPoolMaxRunners c' = bc_CrossPoolMaxRunners c ∧
  0 < bc_CrossPoolMaxRunners c' ∧ 0 < bc_MaxRunners c' ∧ (n ∈ builtin → n = BackendARC).
Proof.
  intros Hv%Validate_None Hp Hc Hd Hp' Hc'. pose proof (ok_kubernetes _ _ Hv) as Hk.
  destruct (is_entry_of _ _ _ _ Hp Hc) as [i He]. destruct (is_entry_of _ _ _ _ Hp' Hc') as [i' He'].
  set (e := Build_entry i pool n c) in *. set (e' := Build_entry i' pool' n c') in *.
  assert (Halias : ∀ x, is_entry cfg x → is_alias x = true → ∃ earlier, alias_ok earlier x).
  { intros x Hx Hax. assert (x ∈ entries_named cfg (en_name x)) as (l1 & l2 & Hl)%list_elem_of_split;
      [by apply elem_of_entries_named|]. exists l1. by apply (k_entries _ Hk _ _ _ _ Hl). }
  assert (Hae : is_alias e = true) by by apply negb_true_iff, String.eqb_neq.
  assert (∃ a, latest is_alias (entries_named cfg n) = Some a) as [a Ha].
  { destruct (latest is_alias (entries_named cfg n)) eqn:Hl; [by eexists|]. unfold latest in Hl.
    apply last_None in Hl. assert (e ∈ filter (kept is_alias) (entries_named cfg n)) as Hin.
    { apply list_elem_of_filter. split; [done|]. by apply elem_of_entries_named. }
    rewrite Hl in Hin. by apply elem_of_nil in Hin. }
  destruct (Halias e He Hae) as [l Hok]. pose proof (alias_driver _ _ Hok) as Hdrv.
  assert (Hdrv' : bc_Driver c' = "kubernetes").
  { pose proof (k_drivers _ Hk e' a He' Ha) as H1. pose proof (k_drivers _ Hk e a He Ha) as H2. cbn in *. congruence. }
  assert (Hae' : is_alias e' = true) by (apply negb_true_iff, String.eqb_neq; cbn; by rewrite Hdrv').
  destruct (Halias e' He' Hae') as [l' Hok']. destruct (alias_limits _ _ Hok'). cbn in *.
  split_and!; [done| |done|done|apply (alias_name _ _ Hok)].
  symmetry. apply (alias_limits_agree cfg e e' Hk He He' eq_refl Hae Hae').
Qed.

(** ** Replicas *)

Lemma replica_safety cfg replicas : ValidateReplicaSafety cfg replicas = None → 1 < replicas →
  IsShared (ss_Type (br_StateStore (bk_Broker cfg))) = true ∧
  ∀ pool c, pool ∈ bk_Pools cfg → pc_Backends pool !! BackendAzureVM = Some c → bc_AzureVM c = None.
Proof.
  unfold ValidateReplicaSafety. intros Hv Hr. destruct (Z.leb_spec replicas 1) as [|_]; [lia|].
  rewrite !first_of_cons, for_each_deny in Hv. destruct Hv as (Ha & Hs & _). split.
  - rewrite deny_None, negb_false_iff in Hs. unfold normalizeStringDefault, normalizeString in Hs.
    unfold IsShared, normalizeType. destruct (String.eqb_spec (ToLower (TrimSpace (ss_Type (br_StateStore (bk_Broker cfg))))) "");
      [|done]. by vm_compute in Hs.
  - intros pool c Hp Hc. specialize (Ha pool Hp). cbn in Ha. rewrite (map_read_Some _ _ _ Hc) in Ha.
    by apply bool_decide_eq_false, eq_None_not_Some in Ha.
Qed.
End Accepted.

(** ** A configuration *)

Module Example_config.
#[local] Existing Instance range_forward.

Definition no_zone (name : string) : result (Time → Duration) := Fail (Errorf "unknown time zone").

(** Lambda runners kept warm on weekday nights. *)
Definition night_shift : BackendConfig :=
  { zero_BackendConfig with bc_Enabled := true; bc_WarmMin := 1; bc_WarmMax := 2;
      bc_WarmSchedule := Some {| ws_Timezone := "UTC"; ws_Windows :=
        [{| ww_Days := ["Mon"; "tues"]; ww_Start := "22:00"; ww_End := "06:00:30"; ww_WarmMin := Some 3; ww_WarmMax := None |}] |} }.

(** The same cluster under two pools. *)
Definition cluster : KubernetesBackendConfig :=
  {| kb_PodLabels := None; kb_PodAnnotations := None;
     kb_NodeGuard := Some {| ng_NodeName := "gpu-1"; ng_RequiredLabels := Some {[ "zone" := "a" ]} |};
     kb_Namespace := "runners"; kb_Image := ""; kb_RunnerContainer := "";
     kb_PodSpec := Some {[ "containers" := AnyList [AnyMap [("name", AnyString "runner")]];
                           "nodeSelector" := AnyMap [("zone", AnyString "a")] ]};
     kb_DeadlineGrace := 0 |}.

Definition gpu (max : Z) : BackendConfig :=
  { zero_BackendConfig with bc_Driver := "kubernetes"; bc_Enabled := true; bc_MaxRunners := max;
      bc_CrossPoolMaxRunners := 4; bc_Kubernetes := Some cluster }.

Definition small : PoolConfig :=
  { zero_PoolConfig with pc_Name := "small"; pc_Backends := {[ "gpu" := gpu 1; BackendLambda := night_shift ]} }.
Definition large : PoolConfig := { zero_PoolConfig with pc_Name := "large"; pc_Backends := {[ "gpu" := gpu 3 ]} }.

Definition config : BrokerConfig :=
  { zero_BrokerConfig with bk_Auth := {| ga_Mode := "github-app"; ga_SecretRef := "app" |}; bk_Pools := [small; large] }.

Lemma config_valid : Config.Validate no_zone config = None.
Proof. vm_compute. reflexivity. Qed.
End Example_config.

Lemma accepted_warm_schedules_run_witness :
  ∃ min max, effectiveWarmBounds Example_config.no_zone Example_config.night_shift (23 * Hour) = Ok (min, max) ∧ 0 ≤ min ≤ max.
Proof.
  apply (accepted_warm_schedules_run (H := range_forward) Example_config.no_zone Example_config.config Example_config.small BackendLambda).
  - vm_compute. reflexivity.
  - left.
  - vm_compute. reflexivity.
Defined.

Lemma driver_backend_is_one_target_witness :
  bc_Driver (Example_config.gpu 3) = "kubernetes" ∧
  bc_CrossPoolMaxRunners (Example_config.gpu 3) = bc_CrossPoolMaxRunners (Example_config.gpu 1) ∧
  0 < bc_CrossPoolMaxRunners (Example_config.gpu 3) ∧ 0 < bc_MaxRunners (Example_config.gpu 3) ∧
  ("gpu" ∈ builtin → "gpu" = BackendARC).
Proof.
  apply (driver_backend_is_one_target (H := range_forward) Example_config.no_zone Example_config.config
           Example_config.small Example_config.large "gpu").
  - vm_compute. reflexivity.
  - left.
  - vm_compute. reflexivity.
  - done.
  - right. left.
  - vm_compute. reflexivity.
Defined.

(** ** What the rules let through *)

Section Loose.
#[local] Existing Instance range_forward.

(** Two pools of one name: the second can never be resolved. *)
Example duplicate_pool_names_accepted :
  Config.Validate Example_config.no_zone
    { zero_BrokerConfig with bk_Pools := [{ zero_PoolConfig with pc_Name := "lite" }; { zero_PoolConfig with pc_Name := "lite"; pc_Scheduler := "other" }] } = None.
Proof. vm_compute. reflexivity. Qed.

(** A tier rule whose ratios are not numbers. *)
Definition nan_rule : TierRuleConfig :=
  {| tu_Name := ""; tu_ProviderRef := ""; tu_Dimension := ""; tu_UsageQuery := "usage"; tu_BurnRateQuery := "";
     tu_LimitSources := []; tu_Combine := ""; tu_SoftLimitRatio := S754_nan; tu_HardLimitRatio := S754_nan;
     tu_MinRemainingCredit := S754_nan; tu_ProjectionWindow := 0; tu_Action := "" |}.

Definition with_url : TierRoutingConfig :=
  { (br_TierRouting zero_BrokerRuntimeConfig) with
      tr_Prometheus := {| tp_URL := "http://prometheus"; tp_Timeout := 0; tp_SecretRef := "" |} }.

Example nan_ratio_accepted : validateTierRule with_url "lite" BackendLambda 0 nan_rule = None.
Proof. vm_compute. reflexivity. Qed.

(** A clock value with trailing text. *)
Example clock_garbage_accepted : validateClock "22h:00pm" = None.
Proof. vm_compute. reflexivity. Qed.
End Loose.
