(* ===== verification/JobRetry.v ===== *)
(** Re-allocation of queued workflow jobs and registration penalties:
    src/internal/api/workflow_job_retry.go. *)

From S2P Require Import Prelude Errors Model Store StoreTheory Admission.

Definition maxWorkflowJobAllocations : Z := 5.
Definition workflowJobRetryBase : Duration := 30 * Second.
Definition workflowJobRetryMax : Duration := 10 * Minute.
Definition registrationExpiryThreshold : Z := 2.
Definition registrationExpiryCooldown : Duration := 30 * Minute.

(** The loop [for i := 1; i < prior; i++], with the iterations left. *)
Fixpoint retry_loop (iterations : nat) (d : Duration) : Duration :=
  match iterations with
  | O => d
  | S iterations =>
      let d := d * 2 in
      if workflowJobRetryMax <=? d then workflowJobRetryMax else retry_loop iterations d
  end.

Definition workflowJobRetryBackoff (prior : Z) : Duration :=
  retry_loop (Z.to_nat (prior - 1)) workflowJobRetryBase.

(** [workflowJobRetries.next]. *)
Abbreviation JobRetries := (gmap Z Time) (only parsing).

Record registrationPenalty := { rp_consecutive : Z; rp_skipUntil : Time }.

Abbreviation RegistrationPenalties := (gmap backendAdmissionKey registrationPenalty) (only parsing).

Definition job_of (status : AllocationStatus) : option Z := ar_WorkflowJobID <$> as_Request status.

Section Retries.
Context `{GoRange} {S : Type} `{!AllocationStore S}.

Definition countWorkflowJobAllocations (s : S) (jobID : Z) : Z :=
  count_if (fun status => bool_decide (job_of status = Some jobID)) (store_List s).

Definition mayReallocateWorkflowJob (s : S) (next : JobRetries) (jobID : Z) (now : Time) : bool :=
  let prior := countWorkflowJobAllocations s jobID in
  if maxWorkflowJobAllocations <=? prior then false
  else match next !! jobID with
       | Some t => negb (Before now t)
       | None => true
       end.

(** Deleting entries while ranging over the map keeps the others. *)
Definition noteWorkflowJobReallocated (s : S) (next : JobRetries) (jobID : Z) (now : Time) : JobRetries :=
  let prior := countWorkflowJobAllocations s jobID in
  let next := <[jobID := TimeAdd now (workflowJobRetryBackoff prior)]> next in
  filter (fun entry => (Hour <? TimeSub now entry.2) = false) next.
End Retries.

Definition recordRegistrationExpiry (m : RegistrationPenalties) (pool : PoolName) (name : BackendName) (now : Time) :
    RegistrationPenalties :=
  let key := (pool, name) in
  let entry := default {| rp_consecutive := 0; rp_skipUntil := 0 |} (m !! key) in
  let entry := { entry with rp_consecutive := rp_consecutive entry + 1 } in
  let entry := if registrationExpiryThreshold <=? rp_consecutive entry
               then { entry with rp_skipUntil := TimeAdd now registrationExpiryCooldown } else entry in
  <[key := entry]> m.

Definition recordRegistrationSuccess (m : RegistrationPenalties) (pool : PoolName) (name : BackendName) :
    RegistrationPenalties := delete (pool, name) m.

Definition registrationPenalized (m : RegistrationPenalties) (pool : PoolName) (name : BackendName) (now : Time) : bool :=
  match m !! (pool, name) with
  | Some entry => Before now (rp_skipUntil entry)
  | None => false
  end.

Definition filterRegistrationPenalized (m : RegistrationPenalties) (pool : PoolConfig) (request : AllocationRequest)
    (now : Time) : PoolConfig :=
  if (if ar_Backend request is Some _ then true else false) || (size (pc_Backends pool) <? 2)%nat then pool
  else
    let kept := filter (fun entry => registrationPenalized m (pc_Name pool) entry.1 now = false) (pc_Backends pool) in
    if (size kept =? 0)%nat || (size kept =? size (pc_Backends pool))%nat then pool
    else { pool with pc_Backends := kept }.

(** ** Theorems *)

Lemma retry_loop_spec n : ∀ d, 0 < d < workflowJobRetryMax →
  retry_loop n d = Z.min workflowJobRetryMax (d * 2 ^ Z.of_nat n).
Proof.
  induction n as [|n IH]; intros d Hd; cbn [retry_loop]; [rewrite Z.pow_0_r; lia|].
  rewrite Nat2Z.inj_succ, Z.pow_succ_r by lia. assert (0 < 2 ^ Z.of_nat n) by (apply Z.pow_pos_nonneg; lia).
  destruct (Z.leb_spec workflowJobRetryMax (d * 2)); [nia|]. rewrite IH by lia. f_equal. lia.
Qed.

Section RetryTheory.
Context `{GoRange} {S : Type} `{!AllocationStore S, !AllocationStoreLaws S}.

Lemma countWorkflowJobAllocations_contents (s : S) jobID :
  countWorkflowJobAllocations s jobID = count_map (fun _ status => bool_decide (job_of status = Some jobID)) (contents s).
Proof.
  unfold countWorkflowJobAllocations, count_if. rewrite (list_law s). unfold count_map, sum_map.
  rewrite sum_of_fmap. done.
Qed.

(** A re-allocation: allowed, then recorded in the store as a new allocation of
    the job, then noted. *)
Definition reallocate (s : S) (next : JobRetries) (jobID : Z) (now : Time) (status : AllocationStatus) : S * JobRetries :=
  if mayReallocateWorkflowJob s next jobID now then
    let s := (store_Save s status).2 in
    (s, noteWorkflowJobReallocated s next jobID now)
  else (s, next).

Fixpoint reallocations (s : S) (next : JobRetries) (jobID : Z) (attempts : list (Time * AllocationStatus)) : S * JobRetries :=
  match attempts with
  | [] => (s, next)
  | (now, status) :: attempts =>
      let '(s, next) := reallocate s next jobID now status in
      reallocations s next jobID attempts
  end.

Lemma save_count (s : S) status jobID :
  countWorkflowJobAllocations (store_Save s status).2 jobID ≤ countWorkflowJobAllocations s jobID + 1.
Proof.
  rewrite !countWorkflowJobAllocations_contents. destruct (store_Save s status) as [r s'] eqn:Hs. cbn.
  apply save_law in Hs as [[_ ->]|[_ ->]]; [|lia]. unfold Memory.Save, spec_store, Memory.set_allocations. cbn.
  rewrite count_map_insert. repeat case_match; lia.
Qed.

Lemma reallocations_count jobID attempts : ∀ (s : S) next,
  countWorkflowJobAllocations (reallocations s next jobID attempts).1 jobID ≤
    Z.max maxWorkflowJobAllocations (countWorkflowJobAllocations s jobID).
Proof.
  induction attempts as [|[now status] attempts IH]; intros s next; cbn [reallocations]; [cbn; lia|].
  unfold reallocate. destruct (mayReallocateWorkflowJob s next jobID now) eqn:Hmay; [|apply IH].
  etrans; [apply IH|]. pose proof (save_count s status jobID). unfold mayReallocateWorkflowJob in Hmay.
  destruct (Z.leb_spec maxWorkflowJobAllocations (countWorkflowJobAllocations s jobID)); [done|lia].
Qed.

(** A job cannot churn runners: re-allocation never takes a workflow job above five recorded
    allocations; after each, the next waits min(10 min, 30 s * 2^(n-1)) for the n allocations
    recorded so far, until which no re-allocation is allowed. *)
Theorem workflow_job_reallocation_is_bounded (s : S) next jobID attempts now :
  countWorkflowJobAllocations (reallocations s next jobID attempts).1 jobID ≤
    Z.max maxWorkflowJobAllocations (countWorkflowJobAllocations s jobID) ∧
  (∀ n, 1 ≤ n → workflowJobRetryBackoff n = Z.min workflowJobRetryMax (workflowJobRetryBase * 2 ^ (n - 1))) ∧
  (∀ later, 1 ≤ countWorkflowJobAllocations s jobID →
     later < now + workflowJobRetryBackoff (countWorkflowJobAllocations s jobID) →
     mayReallocateWorkflowJob s (noteWorkflowJobReallocated s next jobID now) jobID later = false).
Proof.
  assert (Hback : ∀ n, 1 ≤ n → workflowJobRetryBackoff n = Z.min workflowJobRetryMax (workflowJobRetryBase * 2 ^ (n - 1))).
  { intros n Hn. unfold workflowJobRetryBackoff. rewrite retry_loop_spec by done. by rewrite Z2Nat.id by lia. }
  split_and!; [apply reallocations_count|done|].
  intros later Hn Hlater. unfold mayReallocateWorkflowJob, noteWorkflowJobReallocated. case_match; [done|].
  assert (Hpos : 0 < workflowJobRetryBackoff (countWorkflowJobAllocations s jobID)).
  { rewrite Hback by done. assert (0 < 2 ^ (countWorkflowJobAllocations s jobID - 1)) by (apply Z.pow_pos_nonneg; lia).
    unfold workflowJobRetryMax, workflowJobRetryBase, Minute, Second, Millisecond. lia. }
  rewrite (map_lookup_filter_Some_2 _ _ jobID (TimeAdd now (workflowJobRetryBackoff (countWorkflowJobAllocations s jobID)))).
  - unfold Before, TimeAdd. destruct (Z.ltb_spec later (now + workflowJobRetryBackoff (countWorkflowJobAllocations s jobID))); [done|lia].
  - apply lookup_insert_eq.
  - cbn. unfold TimeSub, TimeAdd, saturate64, min_int64, max_int64, Hour, Minute, Second, Millisecond. lia.
Qed.
End RetryTheory.

Section Penalties.
Implicit Types (m : RegistrationPenalties).

(** Expiries of one backend in a row. *)
Definition record_expiries m (pool : PoolName) (name : BackendName) (times : list Time) : RegistrationPenalties :=
  foldl (fun m now => recordRegistrationExpiry m pool name now) m times.

(** Registration penalties skip a backend but never all of them: filtering keeps the pool's
    backends unchanged or drops exactly the penalized ones, keeps at least one, and never
    touches a pinned request; a backend is penalized only after two expiries without a
    registration in between, for 30 minutes after the last, and one registration clears it. *)
Theorem registration_penalty_spares_the_pool m pool request now :
  let filtered := filterRegistrationPenalized m pool request now in
  (∀ b cfg, pc_Backends filtered !! b = Some cfg → pc_Backends pool !! b = Some cfg) ∧
  (pc_Backends pool ≠ ∅ → pc_Backends filtered ≠ ∅) ∧
  (is_Some (ar_Backend request) → filtered = pool) ∧
  (ar_Backend request = None → (∃ b, is_Some (pc_Backends pool !! b) ∧ registrationPenalized m (pc_Name pool) b now = false) →
     (2 ≤ size (pc_Backends pool))%nat →
     ∀ b, is_Some (pc_Backends filtered !! b) ↔
       is_Some (pc_Backends pool !! b) ∧ registrationPenalized m (pc_Name pool) b now = false) ∧
  (∀ p b t t', registrationPenalized (recordRegistrationExpiry (recordRegistrationSuccess m p b) p b t) p b t' = false ∨ t' < 0) ∧
  (∀ p b t1 t2 t', registrationPenalized (record_expiries (recordRegistrationSuccess m p b) p b [t1; t2]) p b t' =
     Before t' (t2 + registrationExpiryCooldown)).
Proof.
  cbn zeta. set (kept := filter (fun entry => registrationPenalized m (pc_Name pool) entry.1 now = false) (pc_Backends pool)).
  assert (Hkept : ∀ b cfg, kept !! b = Some cfg ↔ pc_Backends pool !! b = Some cfg ∧ registrationPenalized m (pc_Name pool) b now = false)
    by (intros; apply map_lookup_filter_Some).
  assert (Hsub : kept ⊆ pc_Backends pool) by apply map_filter_subseteq.
  split_and!.
  - intros b cfg. unfold filterRegistrationPenalized. destruct (_ || _); [done|]. destruct (_ || _); [done|]. cbn. intros Hb. by apply Hkept.
  - unfold filterRegistrationPenalized. destruct (_ || (size (pc_Backends pool) <? 2)%nat); [done|]. fold kept.
    destruct (Nat.eqb_spec (size kept) 0) as [Hz|Hz]; cbn [orb]; [done|]. destruct (_ =? _)%nat; [done|]. cbn.
    intros _ He. rewrite He, map_size_empty in Hz. done.
  - intros [b Hb]. unfold filterRegistrationPenalized. by rewrite Hb.
  - intros Hnone (b0 & [cfg0 Hb0] & Hp0) Hsize b. unfold filterRegistrationPenalized. rewrite Hnone.
    destruct (Nat.ltb_spec (size (pc_Backends pool)) 2); [lia|]. cbn [orb]. fold kept.
    assert (Hne : size kept ≠ 0%nat).
    { intros Hz. apply map_size_empty_iff in Hz. assert (Hb : kept !! b0 = Some cfg0) by (by apply Hkept).
      by rewrite Hz, lookup_empty in Hb. }
    destruct (Nat.eqb_spec (size kept) 0); [done|]. cbn [orb].
    destruct (Nat.eqb_spec (size kept) (size (pc_Backends pool))) as [Heq|Hneq]; cbn.
    + assert (Hk : kept = pc_Backends pool) by (apply map_subseteq_size_eq; [done|lia]).
      split; [|tauto]. intros [cfg Hc]. split; [by eexists|]. rewrite <- Hk in Hc. by apply Hkept in Hc as [_ ?].
    + split.
      * intros [cfg Hc]. apply Hkept in Hc as [? ?]. split; [by eexists|done].
      * intros [[cfg Hc] Hp]. exists cfg. by apply Hkept.
  - intros p b t t'. unfold registrationPenalized, recordRegistrationExpiry, recordRegistrationSuccess.
    rewrite lookup_insert_eq, lookup_delete_eq. change (Before t' 0 = false ∨ t' < 0). unfold Before.
    destruct (Z.ltb_spec t' 0); [by right|by left].
  - intros p b t1 t2 t'. unfold record_expiries. cbn [foldl]. unfold registrationPenalized, recordRegistrationExpiry, recordRegistrationSuccess.
    by rewrite !lookup_insert_eq, lookup_delete_eq.
Qed.
End Penalties.

#[local] Existing Instance range_forward.

Lemma workflow_job_reallocation_is_bounded_witness :
  let allocation := { zero_AllocationStatus with as_ID := "a"; as_Request := Some { zero_AllocationRequest with ar_WorkflowJobID := 7 } } in
  let s := (Memory.Save Memory.NewMemory allocation).2 in
  countWorkflowJobAllocations s 7 = 1 ∧ mayReallocateWorkflowJob s (noteWorkflowJobReallocated s ∅ 7 (100 * Minute)) 7 (100 * Minute + 29 * Second) = false.
Proof.
  intros allocation s. assert (Hone : countWorkflowJobAllocations s 7 = 1) by (vm_compute; reflexivity). split; [exact Hone|].
  destruct (workflow_job_reallocation_is_bounded s ∅ 7 [] (100 * Minute)) as (_ & _ & Hwait).
  apply Hwait; rewrite Hone; vm_compute; [discriminate|reflexivity].
Defined.
