(* ===== verification/TierPolicy.v ===== *)
(** Tier routing: the decision cache of src/internal/tier/types.go and cache.go,
    and the tests the service makes on a decision (src/internal/api/service.go).
    TierRefresh.v computes the decisions. *)

From S2P Require Import Prelude Errors Model.

Module Tier.

Definition StateHealthy : string := "healthy".
Definition StateApproaching : string := "approaching".
Definition StateExceeded : string := "exceeded".
Definition StateUnknown : string := "unknown".

Definition ActionObserveOnly : string := "observe-only".
Definition ActionDeprioritize : string := "deprioritize".
Definition ActionDisable : string := "disable".

Definition FailureModePassThrough : string := "pass-through-round-robin".
Definition FailureModeBlock : string := "block".
Definition FailureModeFallback : string := "fallback-backends".

Record Decision := {
  td_Pool : PoolName;
  td_Backend : BackendName;
  td_State : string;
  td_Action : string;
  td_Reason : string;
  td_UpdatedAt : Time;
  td_Stale : bool;
}.

Definition normalizeDecision (decision : Decision) : Decision :=
  let decision := if String.eqb (td_State decision) "" then { decision with td_State := StateUnknown } else decision in
  if String.eqb (td_Action decision) "" then { decision with td_Action := ActionDisable } else decision.

Definition mark_decision (staleAfter : Duration) (now : Time) (decision : Decision) : Decision :=
  if IsZero (td_UpdatedAt decision) || (staleAfter <? TimeSub now (td_UpdatedAt decision)) then
    let decision := { decision with td_Stale := true } in
    if String.eqb (td_State decision) "" then { decision with td_State := StateUnknown } else decision
  else decision.

(** The decision used for a backend without tier data. *)
Definition missing_decision (pool : PoolName) (backend : BackendName) : Decision :=
  {| td_Pool := pool; td_Backend := backend; td_State := StateUnknown; td_Action := ActionDisable;
     td_Reason := "missing tier data"; td_UpdatedAt := 0; td_Stale := false |}.
End Tier.

(** [Manager]: the [decisions] map. *)
Abbreviation TierManager := (gmap (PoolName * BackendName) Tier.Decision) (only parsing).

Definition NewTierManager : TierManager := ∅.

Definition SetDecision (m : TierManager) (decision : Tier.Decision) : TierManager :=
  <[(Tier.td_Pool decision, Tier.td_Backend decision) := Tier.normalizeDecision decision]> m.

Definition TierDecision (m : TierManager) (pool : PoolName) (backend : BackendName) : option Tier.Decision :=
  m !! (pool, backend).

Definition TierMarkStale (m : TierManager) (staleAfter : Duration) (now : Time) : TierManager :=
  if staleAfter <=? 0 then m else Tier.mark_decision staleAfter now <$> m.

Definition normalizeTierFailureMode (mode : string) : string :=
  let mode := ToLower (TrimSpace mode) in
  if String.eqb mode Tier.FailureModeBlock then Tier.FailureModeBlock
  else if String.eqb mode Tier.FailureModeFallback then Tier.FailureModeFallback
  else Tier.FailureModePassThrough.

Section Decisions.
(** [tierRouting.failureMode]. *)
Context (failureMode : string).

Definition passes_through : bool := String.eqb (normalizeTierFailureMode failureMode) Tier.FailureModePassThrough.

Definition stale_or_unknown (decision : Tier.Decision) : bool :=
  Tier.td_Stale decision || String.eqb (Tier.td_State decision) Tier.StateUnknown.

Definition tierDecisionAllowsBackendNormally (decision : Tier.Decision) : bool :=
  if String.eqb (Tier.td_Action decision) Tier.ActionObserveOnly then true
  else if stale_or_unknown decision then passes_through
  else String.eqb (Tier.td_State decision) Tier.StateHealthy.

Definition tierDecisionIsDeprioritized (decision : Tier.Decision) : bool :=
  negb (Tier.td_Stale decision) && String.eqb (Tier.td_State decision) Tier.StateApproaching &&
  String.eqb (Tier.td_Action decision) Tier.ActionDeprioritize.

Definition pinnedBackendAllowedByTier (m : TierManager) (pool : PoolName) (backend : BackendName) : bool :=
  let decision := default (Tier.missing_decision pool backend) (TierDecision m pool backend) in
  if String.eqb (Tier.td_Action decision) Tier.ActionObserveOnly then true
  else if stale_or_unknown decision then passes_through
  else if String.eqb (Tier.td_State decision) Tier.StateHealthy then true
  else if String.eqb (Tier.td_State decision) Tier.StateApproaching
  then negb (String.eqb (Tier.td_Action decision) Tier.ActionDisable)
  else false.

Definition backendTierBlockedForWarm (enabled : bool) (m : TierManager) (pool : PoolName) (backend : BackendName) : bool :=
  if negb enabled then false
  else
    let blocks := String.eqb (normalizeTierFailureMode failureMode) Tier.FailureModeBlock in
    match TierDecision m pool backend with
    | None => blocks
    | Some decision =>
        if String.eqb (Tier.td_Action decision) Tier.ActionObserveOnly then false
        else if stale_or_unknown decision then blocks
        else String.eqb (Tier.td_State decision) Tier.StateExceeded ||
             (String.eqb (Tier.td_State decision) Tier.StateApproaching &&
              String.eqb (Tier.td_Action decision) Tier.ActionDisable)
    end.
End Decisions.

(** A decision that can only mean the policy itself disabled the backend. *)
Definition exceeded_and_disabled (decision : Tier.Decision) : bool :=
  negb (Tier.td_Stale decision || String.eqb (Tier.td_State decision) Tier.StateUnknown ||
        negb (String.eqb (Tier.td_Action decision) Tier.ActionDisable) ||
        negb (String.eqb (Tier.td_State decision) Tier.StateExceeded)).
