(* ===== verification/TierRefresh.v ===== *)
(** Tier decisions: src/internal/tier/evaluator.go, config_refresher.go and the
    body of refresh.go.

    A rule is evaluated on the snapshots of its sources, a provider and two
    Prometheus queries, and the decisions on a backend are merged.  The sources are
    parameters: what they answer to the n-th call.  A float64 is a [spec_float] and
    every operation is rounded as on amd64, where none is fused. *)

From Stdlib Require Import Floats.SpecFloat.
From stdpp Require Import pretty.
From S2P Require Import Prelude Errors Model TierPolicy Config.
Open Scope Z_scope.
Open Scope go_scope.

(** ** float64 *)

Definition fadd : spec_float → spec_float → spec_float := SFadd 53 1024.
Definition fmul : spec_float → spec_float → spec_float := SFmul 53 1024.
Definition fdiv : spec_float → spec_float → spec_float := SFdiv 53 1024.

(** [float64(n)]. *)
Definition float_of (n : Z) : spec_float := binary_normalize 53 1024 n 0 false.

(** [Duration.Seconds]. *)
Definition Seconds (d : Duration) : spec_float :=
  fadd (float_of (Z.quot d Second)) (fdiv (float_of (Z.rem d Second)) (float_of Second)).

Definition IsNaN (f : spec_float) : bool := match f with S754_nan => true | _ => false end.

(** [a >= b]. *)
Definition at_least (a b : spec_float) : bool := SFleb b a.

(** *** The verb %.4g *)

Definition digits_of (n : Z) : string := pretty n.
Definition len10 (n : Z) : Z := Z.of_nat (String.length (digits_of n)).

(** The quotient, ties to even. *)
Definition round_even (n d : Z) : Z :=
  let q := n / d in
  let r := 2 * (n mod d) in
  if (d <? r) || ((d =? r) && Z.odd q) then q + 1 else q.

Fixpoint trim_zeros (s : string) : string :=
  match s with
  | EmptyString => EmptyString
  | String c s =>
      match trim_zeros s with
      | EmptyString => if Ascii.eqb c (ascii_of_nat 48) then EmptyString else String c EmptyString
      | t => String c t
      end
  end.

Definition zeros (n : Z) : string := String.concat "" (replicate (Z.to_nat n) "0").

(** Four digits and the decimal exponent of n/d. *)
Definition four_digits (n d : Z) : string * Z :=
  let x := len10 n - len10 d in
  let x := if n * 10 ^ Z.max 0 (- x) <? d * 10 ^ Z.max 0 x then x - 1 else x in
  let q := round_even (n * 10 ^ Z.max 0 (3 - x)) (d * 10 ^ Z.max 0 (x - 3)) in
  if q =? 10000 then ("1", x + 1) else (trim_zeros (digits_of q), x).

Definition format_finite (n d : Z) : string :=
  let '(digits, x) := four_digits n d in
  let nd := Z.of_nat (String.length digits) in
  if (x <? -4) || (4 <=? x) then
    substring 0 1 digits +:+ (if 1 <? nd then "." +:+ substring 1 4 digits else "") +:+ "e" +:+
    (if x <? 0 then "-" else "+") +:+ (if Z.abs x <? 10 then "0" else "") +:+ digits_of (Z.abs x)
  else if x <? 0 then "0." +:+ zeros (- x - 1) +:+ digits
  else if nd <=? x + 1 then digits +:+ zeros (x + 1 - nd)
  else substring 0 (Z.to_nat (x + 1)) digits +:+ "." +:+ substring (Z.to_nat (x + 1)) 4 digits.

Definition format_g4 (f : spec_float) : string :=
  match f with
  | S754_nan => "NaN"
  | S754_infinity s => if s then "-Inf" else "+Inf"
  | S754_zero s => if s then "-0" else "0"
  | S754_finite s m e =>
      (if s then "-" else "") +:+ format_finite (Z.pos m * 2 ^ Z.max 0 e) (2 ^ Z.max 0 (- e))
  end.

(** ** The evaluator *)

Record SourceSnapshot := {
  ss_Source : string;
  ss_Limit : spec_float;
  ss_Used : spec_float;
  ss_BurnRate : spec_float;
  ss_RemainingCredit : spec_float;
  ss_WindowEnd : Time;
  ss_UpdatedAt : Time;
  ss_Err : string;
}.

Definition zero_SourceSnapshot : SourceSnapshot :=
  Build_SourceSnapshot "" float_zero float_zero float_zero float_zero 0 0 "".

(** [Rule]; every rule combines most-restrictive. *)
Record Rule := {
  ru_Name : string;
  ru_Action : string;
  ru_SoftLimitRatio : spec_float;
  ru_HardLimitRatio : spec_float;
  ru_MinRemainingCredit : spec_float;
  ru_ProjectionWindow : Duration;
}.

Record EvaluationInput := {
  ei_Pool : PoolName;
  ei_Backend : BackendName;
  ei_Rule : Rule;
  ei_Snapshots : list SourceSnapshot;
  ei_Now : Time;
}.

Definition normalizeRule (rule : Rule) : Rule :=
  if String.eqb (ru_Action rule) "" then { rule with ru_Action := Tier.ActionDisable } else rule.

Definition restrictiveness (state : string) : Z :=
  if String.eqb state Tier.StateExceeded then 3
  else if String.eqb state Tier.StateApproaching then 2
  else if String.eqb state Tier.StateUnknown then 1 else 0.

Definition moreRestrictive (candidate current : string) : bool := restrictiveness current <? restrictiveness candidate.

Definition projectedUsage (rule : Rule) (snapshot : SourceSnapshot) (now : Time) : option spec_float :=
  if SFleb (ss_BurnRate snapshot) float_zero then None
  else
    let window := ru_ProjectionWindow rule in
    let window :=
      if (window <=? 0) && negb (IsZero (ss_WindowEnd snapshot)) && After (ss_WindowEnd snapshot) now
      then TimeSub (ss_WindowEnd snapshot) now else window in
    if window <=? 0 then None else Some (fadd (ss_Used snapshot) (fmul (ss_BurnRate snapshot) (Seconds window))).

(** The state that usage alone gives, with the reasons. *)
Definition usage_state (rule : Rule) (snapshot : SourceSnapshot) (now : Time) : string * list string :=
  if negb (positive (ss_Limit snapshot)) then (Tier.StateHealthy, [])
  else
    let hard := ru_HardLimitRatio rule in
    let soft := ru_SoftLimitRatio rule in
    let ratio := fdiv (ss_Used snapshot) (ss_Limit snapshot) in
    let state :=
      if positive hard && at_least ratio hard then Tier.StateExceeded
      else if positive soft && at_least ratio soft then Tier.StateApproaching else Tier.StateHealthy in
    let reasons := [ss_Source snapshot +:+ " usage " +:+ format_g4 (ss_Used snapshot) +:+ "/" +:+ format_g4 (ss_Limit snapshot)] in
    match projectedUsage rule snapshot now with
    | None => (state, reasons)
    | Some projected =>
        let projectedRatio := fdiv projected (ss_Limit snapshot) in
        let reason := ss_Source snapshot +:+ " projected usage " +:+ format_g4 projected +:+ "/" +:+ format_g4 (ss_Limit snapshot) in
        if positive hard && at_least projectedRatio hard && negb (String.eqb state Tier.StateExceeded)
        then (Tier.StateApproaching, reasons ++ [reason])
        else if positive soft && at_least projectedRatio soft && String.eqb state Tier.StateHealthy
        then (Tier.StateApproaching, reasons ++ [reason])
        else (state, reasons)
    end.

Definition evaluateSnapshot (rule : Rule) (snapshot : SourceSnapshot) (now : Time) : string * string :=
  let '(state, reasons) := usage_state rule snapshot now in
  let min := ru_MinRemainingCredit rule in
  let '(state, reasons) :=
    if positive min && SFltb (ss_RemainingCredit snapshot) min
    then (Tier.StateExceeded, reasons ++ [ss_Source snapshot +:+ " remaining credit " +:+ format_g4 (ss_RemainingCredit snapshot) +:+
                                          " below " +:+ format_g4 min])
    else (state, reasons) in
  if SFleb (ss_Limit snapshot) float_zero && SFleb min float_zero
  then (Tier.StateUnknown, ss_Source snapshot +:+ ": no limit or credit threshold")
  else if IsNaN (ss_Used snapshot) || IsNaN (ss_Limit snapshot) || IsNaN (ss_BurnRate snapshot) || IsNaN (ss_RemainingCredit snapshot)
  then (Tier.StateUnknown, ss_Source snapshot +:+ ": invalid numeric value")
  else (state, Join reasons ", ").

(** The loop: (state, reason), from the state and reasons so far. *)
Fixpoint evaluate_snapshots (rule : Rule) (now : Time) (state : string) (reasons : list string) (l : list SourceSnapshot) :
    string * string :=
  match l with
  | [] => (state, Join reasons "; ")
  | snapshot :: l =>
      if negb (String.eqb (TrimSpace (ss_Err snapshot)) "")
      then (Tier.StateUnknown, ss_Source snapshot +:+ ": " +:+ ss_Err snapshot)
      else if IsZero (ss_UpdatedAt snapshot) then (Tier.StateUnknown, ss_Source snapshot +:+ ": missing update timestamp")
      else
        let '(sourceState, reason) := evaluateSnapshot rule snapshot now in
        evaluate_snapshots rule now (if moreRestrictive sourceState state then sourceState else state)
          (if String.eqb reason "" then reasons else reasons ++ [reason]) l
  end.

(** [wall]: time.Now(), for an input without a time. *)
Definition Evaluate (wall : Time) (input : EvaluationInput) : Tier.Decision :=
  let now := if IsZero (ei_Now input) then wall else ei_Now input in
  let rule := normalizeRule (ei_Rule input) in
  let '(state, reason) :=
    if (length (ei_Snapshots input) =? 0)%nat then (Tier.StateUnknown, "no tier data")
    else evaluate_snapshots rule now Tier.StateHealthy [] (ei_Snapshots input) in
  {| Tier.td_Pool := ei_Pool input; Tier.td_Backend := ei_Backend input; Tier.td_State := state;
     Tier.td_Action := ru_Action rule; Tier.td_Reason := reason; Tier.td_UpdatedAt := now; Tier.td_Stale := false |}.

Example format_some :
  format_g4 (float_of 12345) = "1.234e+04" ∧ format_g4 (fdiv (float_of 1) (float_of 3)) = "0.3333" ∧
  format_g4 (float_of 100) = "100" ∧ format_g4 (fdiv (float_of 1) (float_of 20000)) = "5e-05" ∧
  format_g4 (fdiv (float_of 25) (float_of 2)) = "12.5" ∧ format_g4 (float_of 99996) = "1e+05".
Proof. by vm_compute. Qed.

(** ** The refresher *)

(** [provider.Request] and [provider.Snapshot]. *)
Record provider_request := {
  pq_Provider : string;
  pq_Mode : string;
  pq_URL : string;
  pq_Token : string;
  pq_Source : string;
}.

Record provider_snapshot := {
  ps_Source : string;
  ps_Limit : spec_float;
  ps_Used : spec_float;
  ps_BurnRate : spec_float;
  ps_RemainingCredit : spec_float;
  ps_WindowEnd : Time;
  ps_UpdatedAt : Time;
  ps_Err : string;
}.

(** [promclient.Client]. *)
Record prometheus_client := { pc_BaseURL : string; pc_BearerToken : string; pc_Timeout : Duration }.

(** What the n-th call of a refresh answers; no secret reader is nil. *)
Record TierSources := {
  ts_ReadSecret : option (nat → string → result (gmap string string));
  ts_Snapshot : nat → provider_request → result provider_snapshot;
  ts_QueryInstant : nat → prometheus_client → string → result spec_float;
}.

Definition normalizeAction (action : string) : string :=
  let action := ToLower (TrimSpace action) in
  if String.eqb action Tier.ActionObserveOnly then Tier.ActionObserveOnly
  else if String.eqb action Tier.ActionDeprioritize then Tier.ActionDeprioritize else Tier.ActionDisable.

Definition resolvePrometheusTimeout (timeout : Duration) : Duration := if 0 <? timeout then timeout else 2 * Second.

Fixpoint replaceProviderSnapshot (snapshots : list SourceSnapshot) (providerSnapshot : SourceSnapshot) : list SourceSnapshot :=
  match snapshots with
  | [] => [providerSnapshot]
  | snapshot :: rest =>
      if String.eqb (ss_Source snapshot) (ss_Source providerSnapshot) then providerSnapshot :: rest
      else snapshot :: replaceProviderSnapshot rest providerSnapshot
  end.

(** The first non-blank of two entries. *)
Definition secret_value (secret : gmap string string) (key fallback : string) : string :=
  let value := TrimSpace secret.[key] in
  if String.eqb value "" then TrimSpace secret.[fallback] else value.

Definition decisionStateRank (decision : Tier.Decision) : Z :=
  if Tier.td_Stale decision then 2
  else if String.eqb (Tier.td_State decision) Tier.StateExceeded then 4
  else if String.eqb (Tier.td_State decision) Tier.StateApproaching then 3
  else if String.eqb (Tier.td_State decision) Tier.StateUnknown then 2 else 1.

Definition decisionActionRank (action : string) : Z :=
  let action := normalizeAction action in
  if String.eqb action Tier.ActionDisable then 3 else if String.eqb action Tier.ActionDeprioritize then 2 else 1.

Definition decisionMoreRestrictive (candidate current : Tier.Decision) : bool :=
  if negb (decisionStateRank candidate =? decisionStateRank current)
  then decisionStateRank current <? decisionStateRank candidate
  else decisionActionRank (Tier.td_Action current) <? decisionActionRank (Tier.td_Action candidate).

Definition decision_key (decision : Tier.Decision) : PoolName * BackendName := (Tier.td_Pool decision, Tier.td_Backend decision).

Abbreviation decision_map := (gmap (PoolName * BackendName) Tier.Decision) (only parsing).

Definition mergeDecision (decisions : decision_map) (next : Tier.Decision) : decision_map :=
  match decisions !! decision_key next with
  | None => <[decision_key next := next]> decisions
  | Some current => if decisionMoreRestrictive next current then <[decision_key next := next]> decisions else decisions
  end.

Definition decision_less (a b : Tier.Decision) : bool :=
  if negb (String.eqb (Tier.td_Pool a) (Tier.td_Pool b)) then string_ltb (Tier.td_Pool a) (Tier.td_Pool b)
  else string_ltb (Tier.td_Backend a) (Tier.td_Backend b).

Definition backendProvider (backendName : BackendName) (backendCfg : BackendConfig) : string :=
  let of_capability capability :=
    let capability := ToLower (TrimSpace capability) in
    if String.eqb capability "cloud:aws" then Some "aws"
    else if String.eqb capability "cloud:azure" then Some "azure"
    else if String.eqb capability "cloud:gcp" then Some "gcp" else None in
  match omap of_capability (bc_Capabilities backendCfg) with
  | provider :: _ => provider
  | [] =>
      if existsb (String.eqb backendName) [BackendCodeBuild; BackendLambda; BackendEC2] then "aws"
      else if existsb (String.eqb backendName) [BackendCloudRun; BackendGCE] then "gcp"
      else if existsb (String.eqb backendName) [BackendAzureFunctions; BackendAzureVM] then "azure" else ""
  end.

Definition providerRuleMatchesBackend (ruleCfg : ProviderTierRuleConfig) (providerCfg : TierProviderConfig)
    (backendName : BackendName) (backendCfg : BackendConfig) : bool :=
  if (0 <? length (pr_Backends ruleCfg))%nat then existsb (fun candidate => String.eqb candidate backendName) (pr_Backends ruleCfg)
  else String.eqb (backendProvider backendName backendCfg) (ToLower (TrimSpace (tv_Provider providerCfg))).

Section Refresher.
Context `{GoRange} (cfg : BrokerConfig) (sources : TierSources) (wall : Time).
Implicit Types (n : nat) (now : Time).

Local Notation routing := (br_TierRouting (bk_Broker cfg)).

(** A call: its answer, and the calls made so far. *)
Definition readSecret n (ref : string) : result (gmap string string) * nat :=
  if String.eqb (TrimSpace ref) "" then (Ok ∅, n)
  else match ts_ReadSecret sources with
       | None => (Fail (Errorf "secret reader is not configured"), n)
       | Some read => (read n ref, Datatypes.S n)
       end.

(** The fields that are copied; a zero update time becomes [now]. *)
Definition source_snapshot (snapshot : provider_snapshot) now : SourceSnapshot :=
  {| ss_Source := ps_Source snapshot; ss_Limit := ps_Limit snapshot; ss_Used := ps_Used snapshot; ss_BurnRate := float_zero;
     ss_RemainingCredit := ps_RemainingCredit snapshot; ss_WindowEnd := ps_WindowEnd snapshot;
     ss_UpdatedAt := (if IsZero (ps_UpdatedAt snapshot) then now else ps_UpdatedAt snapshot); ss_Err := ps_Err snapshot |}.

Definition providerSnapshot n (ref : string) now : result SourceSnapshot * nat :=
  match tr_Providers routing !! ref with
  | None => (Fail (Errorf ("provider ref " +:+ quote ref +:+ " is not configured")), n)
  | Some providerCfg =>
      match readSecret n (tv_SecretRef providerCfg) with
      | (Fail err, n) => (Fail err, n)
      | (Ok secret, n) =>
          let snapshotURL := secret_value secret "snapshot_url" "url" in
          if String.eqb snapshotURL "" then (Fail (Errorf ("provider " +:+ quote ref +:+ " secret is missing snapshot_url")), n)
          else
            let request := {| pq_Provider := tv_Provider providerCfg; pq_Mode := tv_Mode providerCfg; pq_URL := snapshotURL;
                              pq_Token := secret_value secret "token" "bearer_token"; pq_Source := ref |} in
            (match ts_Snapshot sources n request with
             | Fail err => Fail err
             | Ok snapshot => Ok (source_snapshot snapshot now)
             end, Datatypes.S n)
      end
  end.

Definition prometheusValue n (query : string) : result spec_float * nat :=
  let promCfg := tr_Prometheus routing in
  let ask n token :=
    (ts_QueryInstant sources n {| pc_BaseURL := tp_URL promCfg; pc_BearerToken := token;
                                  pc_Timeout := resolvePrometheusTimeout (tp_Timeout promCfg) |} query, Datatypes.S n) in
  if String.eqb (TrimSpace (tp_SecretRef promCfg)) "" then ask n ""
  else match readSecret n (tp_SecretRef promCfg) with
       | (Fail err, n) => (Fail err, n)
       | (Ok secret, n) => ask n (secret_value secret "bearer_token" "token")
       end.

(** ** One rule *)

(** The snapshots gathered so far, the provider's own one, and the first error. *)
Record gathered := { ga_snapshots : list SourceSnapshot; ga_provider : SourceSnapshot; ga_firstErr : option error; ga_calls : nat }.

Definition first_error (old : option error) (err : error) : option error := match old with Some _ => old | None => Some err end.

Definition failed_source (source : string) (err : error) now : SourceSnapshot :=
  { zero_SourceSnapshot with ss_Source := source; ss_UpdatedAt := now; ss_Err := Error err }.

Definition gather_provider (ref : string) now n : gathered :=
  if String.eqb (TrimSpace ref) "" then {| ga_snapshots := []; ga_provider := zero_SourceSnapshot; ga_firstErr := None; ga_calls := n |}
  else match providerSnapshot n ref now with
  | (Fail err, n) => {| ga_snapshots := [failed_source ref err now]; ga_provider := zero_SourceSnapshot; ga_firstErr := Some err; ga_calls := n |}
  | (Ok snapshot, n) => {| ga_snapshots := [snapshot]; ga_provider := snapshot; ga_firstErr := None; ga_calls := n |}
  end.

(** A query's value replaces a field of the provider's snapshot, if the provider
    gave a limit or a credit, or makes a snapshot of its own. *)
Definition gather_query (query source : string) (set_ : spec_float → SourceSnapshot → SourceSnapshot) now (g : gathered) : gathered :=
  if String.eqb (TrimSpace query) "" then g
  else match prometheusValue (ga_calls g) query with
  | (Fail err, n) =>
      {| ga_snapshots := ga_snapshots g ++ [failed_source source err now]; ga_provider := ga_provider g;
         ga_firstErr := first_error (ga_firstErr g) err; ga_calls := n |}
  | (Ok value, n) =>
      if positive (ss_Limit (ga_provider g)) || positive (ss_RemainingCredit (ga_provider g)) then
        let updated := { set_ value (ga_provider g) with ss_UpdatedAt := now } in
        {| ga_snapshots := replaceProviderSnapshot (ga_snapshots g) updated; ga_provider := updated;
           ga_firstErr := ga_firstErr g; ga_calls := n |}
      else
        {| ga_snapshots := ga_snapshots g ++
             [set_ value { zero_SourceSnapshot with ss_Source := source; ss_Limit := float_one; ss_UpdatedAt := now }];
           ga_provider := ga_provider g; ga_firstErr := ga_firstErr g; ga_calls := n |}
  end.

Definition set_used (value : spec_float) (snapshot : SourceSnapshot) : SourceSnapshot := { snapshot with ss_Used := value }.
Definition set_burn_rate (value : spec_float) (snapshot : SourceSnapshot) : SourceSnapshot := { snapshot with ss_BurnRate := value }.

Definition refreshRule n (pool : PoolName) (backendName : BackendName) (ruleCfg : TierRuleConfig) now :
    Tier.Decision * option error * nat :=
  let rule := {| ru_Name := tu_Name ruleCfg; ru_Action := normalizeAction (tu_Action ruleCfg);
                 ru_SoftLimitRatio := tu_SoftLimitRatio ruleCfg; ru_HardLimitRatio := tu_HardLimitRatio ruleCfg;
                 ru_MinRemainingCredit := tu_MinRemainingCredit ruleCfg; ru_ProjectionWindow := tu_ProjectionWindow ruleCfg |} in
  let g := gather_provider (tu_ProviderRef ruleCfg) now n in
  let g := gather_query (tu_UsageQuery ruleCfg) "prometheus" set_used now g in
  let g := gather_query (tu_BurnRateQuery ruleCfg) "prometheus-burn-rate" set_burn_rate now g in
  (Evaluate wall {| ei_Pool := pool; ei_Backend := backendName; ei_Rule := rule; ei_Snapshots := ga_snapshots g; ei_Now := now |},
   ga_firstErr g, ga_calls g).

Definition provider_rule (ruleCfg : ProviderTierRuleConfig) : TierRuleConfig :=
  {| tu_Name := pr_Name ruleCfg; tu_ProviderRef := pr_ProviderRef ruleCfg; tu_Dimension := ""; tu_UsageQuery := pr_UsageQuery ruleCfg;
     tu_BurnRateQuery := pr_BurnRateQuery ruleCfg; tu_LimitSources := []; tu_Combine := "";
     tu_SoftLimitRatio := pr_SoftLimitRatio ruleCfg; tu_HardLimitRatio := pr_HardLimitRatio ruleCfg;
     tu_MinRemainingCredit := pr_MinRemainingCredit ruleCfg; tu_ProjectionWindow := pr_ProjectionWindow ruleCfg;
     tu_Action := pr_Action ruleCfg |}.

Definition refreshProviderRule n (ruleCfg : ProviderTierRuleConfig) now : Tier.Decision * option error * nat :=
  refreshRule n "" "" (provider_rule ruleCfg) now.

(** ** All rules *)

(** Every backend of every pool, in the order the loops visit them. *)
Definition all_backends : list (PoolName * BackendName * BackendConfig) :=
  mjoin ((fun pool => (fun kv => (pc_Name pool, kv.1, kv.2)) <$> range (pc_Backends pool)) <$> bk_Pools cfg).

(** The decision of a provider rule, for each backend it matches. *)
Definition addProviderRuleDecisions (decision : Tier.Decision) (ruleCfg : ProviderTierRuleConfig) : list Tier.Decision :=
  match tr_Providers routing !! pr_ProviderRef ruleCfg with
  | None => []
  | Some providerCfg =>
      (fun b => { decision with Tier.td_Pool := b.1.1; Tier.td_Backend := b.1.2 }) <$>
        filter (fun b => providerRuleMatchesBackend ruleCfg providerCfg b.1.2 b.2 = true) all_backends
  end.

(** The decisions in the order they are merged, the first error, the calls. *)
Abbreviation refresh_state := (list Tier.Decision * option error * nat)%type (only parsing).

Definition note_error (old err : option error) : option error := match err with Some err => first_error old err | None => old end.

Definition refresh_provider_rules now (st : refresh_state) : refresh_state :=
  foldl (fun '(decisions, err, n) ruleCfg =>
    let '(decision, ruleErr, n) := refreshProviderRule n ruleCfg now in
    (decisions ++ addProviderRuleDecisions decision ruleCfg, note_error err ruleErr, n)) st (tr_ProviderRules routing).

Definition refresh_backend_rules now (st : refresh_state) : refresh_state :=
  foldl (fun st '(pool, backendName, backendCfg) =>
    foldl (fun '(decisions, err, n) ruleCfg =>
      let '(decision, ruleErr, n) := refreshRule n pool backendName ruleCfg now in
      (decisions ++ [decision], note_error err ruleErr, n)) st (bc_TierRules backendCfg)) st all_backends.

(** Every decision a refresh makes, before they are merged. *)
Definition rule_decisions now : refresh_state := refresh_backend_rules now (refresh_provider_rules now ([], None, O)).

Definition sortedDecisions (decisions : decision_map) : list Tier.Decision :=
  sort_stable decision_less ((fun kv => kv.2) <$> range decisions).

(** [ConfigRefresher.Refresh]. *)
Definition TierRefresh now : list Tier.Decision * option error :=
  if negb (tr_Enabled routing) then ([], None)
  else
    let '(decisions, err, _) := rule_decisions now in
    (sortedDecisions (foldl mergeDecision ∅ decisions), err).

(** One round of [StartRefreshLoop]; the error is logged. *)
Definition refresh_round (m : TierManager) now : TierManager := foldl SetDecision m (TierRefresh now).1.
End Refresher.

(** The wait between two rounds; [random] is rand.Int63n of a tenth of it. *)
Definition jitter (interval : Duration) (random : Z → Z) : Duration :=
  if interval <=? Second then interval
  else
    let maxJitter := Z.quot interval 10 in
    if maxJitter <=? 0 then interval else wrap64 (interval + random maxJitter).
