(* ===== verification/ServicePolicy.v ===== *)
(** Pure decisions of the allocation service: src/internal/api/service.go and
    service_workflow_job.go.

    Pool lookup, timeouts, completion states, the queueing of errors, and the
    functions that narrow a pool to the backends a request may use. *)

From S2P Require Import Prelude Errors Model Store Backends.
From stdpp Require Import pretty.
Open Scope Z_scope.
Open Scope go_scope.

Definition with_backends (pool : PoolConfig) (backends : gmap BackendName BackendConfig) : PoolConfig :=
  { pool with pc_Backends := backends }.

(** ** Durations as text: [Duration.String] *)

(** [fmtFrac]: the last [prec] digits of [v] as a fraction without trailing zeros, and the rest. *)
Fixpoint fmtFrac (prec : nat) (v : Z) (print : bool) (acc : string) : string * Z :=
  match prec with
  | O => ((if print then "." +:+ acc else acc), v)
  | Datatypes.S prec =>
      let digit := v mod 10 in
      let print := print || negb (digit =? 0) in
      fmtFrac prec (v / 10) print (if print then pretty digit +:+ acc else acc)
  end.

Definition fmt_scaled (prec : nat) (v : Z) (unit : string) : string :=
  let '(frac, whole) := fmtFrac prec v false "" in pretty whole +:+ frac +:+ unit.

Definition micro_sign : string := String (ascii_of_nat 194) (String (ascii_of_nat 181) EmptyString).

Definition Duration_String (d : Duration) : string :=
  let u := Z.abs d in
  let text :=
    if u =? 0 then "0s"
    else if u <? 1000 then fmt_scaled 0 u "ns"
    else if u <? Millisecond then fmt_scaled 3 u (micro_sign +:+ "s")
    else if u <? Second then fmt_scaled 6 u "ms"
    else
      let '(frac, seconds) := fmtFrac 9 u false "" in
      let tail := pretty (seconds mod 60) +:+ frac +:+ "s" in
      let minutes := seconds / 60 in
      if minutes =? 0 then tail
      else if minutes / 60 =? 0 then pretty (minutes mod 60) +:+ "m" +:+ tail
      else pretty (minutes / 60) +:+ "h" +:+ pretty (minutes mod 60) +:+ "m" +:+ tail in
  if d <? 0 then "-" +:+ text else text.

(** ** States *)

Definition isActiveAllocationState (state : AllocationState) : bool :=
  state_eqb state StateReady || state_eqb state StateReserved.

Definition isTerminalAllocationState (state : AllocationState) : bool :=
  match state with
  | StateCompleted | StateFailed | StateCanceled | StateExpired | StateQuarantined => true
  | _ => false
  end.

(** The states [notifyLifecycleTerminal] reports. *)
Definition notifies_terminal (state : AllocationState) : bool :=
  match state with
  | StateFailed | StateExpired | StateCompleted | StateCanceled | StateQuarantined => true
  | _ => false
  end.

(** ** Completion requests *)

Record completionRequest := { cr_State : string; cr_Error : string; cr_Reason : string; cr_FailureClass : string }.

Definition parseCompletionState (request : completionRequest) : result (AllocationState * string) :=
  let state := TrimSpace (ToLower (cr_State request)) in
  if String.eqb state "" then Ok (StateCompleted, "")
  else if one_of state ["complete"; "completed"; "success"; "succeeded"] then Ok (StateCompleted, cr_Reason request)
  else if one_of state ["failed"; "failure"; "error"] then Ok (StateFailed, cr_Error request)
  else if one_of state ["canceled"; "cancelled"; "cancel"] then Ok (StateCanceled, cr_Reason request)
  else if one_of state ["expired"] then Ok (StateExpired, cr_Reason request)
  else if one_of state ["quarantined"; "quarantine"] then Ok (StateQuarantined, cr_Reason request)
  else Fail (Wrapf "" (Sentinel ErrInvalidCompletionState) (": " +:+ quote (cr_State request))).

Definition defaultCompletionMessage (state : AllocationState) : string :=
  match state with
  | StateCompleted => "allocation completed"
  | StateFailed => "allocation failed"
  | StateCanceled => "allocation canceled"
  | StateExpired => "allocation expired"
  | StateQuarantined => "allocation quarantined"
  | _ => ""
  end.

(** ** Queueing *)

Definition normalizeQueueRetryAfter (cfg : AdmissionQueueConfig) : Duration :=
  if 0 <? aq_RetryAfter cfg then aq_RetryAfter cfg else 30 * Second.

Definition normalizeQueueMaxAttempts (cfg : AdmissionQueueConfig) : Z :=
  if 0 <? aq_MaxAttempts cfg then aq_MaxAttempts cfg else 3.

(** For a non-nil error. *)
Definition queueableError (err : error) : bool :=
  if errors_Is err ErrBackendRateLimited then false
  else if errors_Is err ErrBackendLiveCapacity then false
  else if errors_Is err ErrBackendBudgetExceeded then false
  else if errors_Is err ErrNoCapacity then false
  else if IsCapacityExhausted (Some err) then false
  else if errors_Is err ErrBackendCircuitOpen then true
  else match FailureReason err with
       | None => false
       | Some reason =>
           one_of reason [FailureReasonTimeout; FailureReasonTransport; FailureReasonThrottled; FailureReasonServerError]
       end.

Definition queueReason (err : error) : string :=
  if errors_Is err ErrNoCapacity then "no-capacity"
  else if errors_Is err ErrBackendLiveCapacity || IsCapacityExhausted (Some err) then "live-capacity"
  else if errors_Is err ErrBackendRateLimited then "rate-limited"
  else if errors_Is err ErrBackendBudgetExceeded then "budget-exceeded"
  else if errors_Is err ErrBackendCircuitOpen then "circuit-open"
  else match FailureReason err with Some reason => reason | None => "retryable" end.

Definition workflowCapacityError (request : AllocationRequest) (err : error) : bool :=
  (0 <? ar_WorkflowJobID request) &&
  (errors_Is err ErrNoCapacity || errors_Is err ErrBackendLiveCapacity || IsCapacityExhausted (Some err)).

Definition waitingForWorkflowCapacity (status : AllocationStatus) : bool :=
  match as_Request status with
  | None => false
  | Some request =>
      if ar_WorkflowJobID request <=? 0 then false
      else let reason := (as_Metadata status).["queue_reason"] in
           String.eqb reason "no-capacity" || String.eqb reason "live-capacity"
  end.

(** ** Pools and timeouts *)

(** A positive limit lowers the cross-pool cap of its backend. *)
Definition limit_backend (limits : gmap BackendName Z) (name : BackendName) (cfg : BackendConfig) : BackendConfig :=
  match limits !! name with
  | Some limit =>
      if (0 <? limit) && ((bc_CrossPoolMaxRunners cfg =? 0) || (limit <? bc_CrossPoolMaxRunners cfg))
      then { cfg with bc_CrossPoolMaxRunners := limit } else cfg
  | None => cfg
  end.

Fixpoint find_pool (name : PoolName) (pools : list PoolConfig) : option PoolConfig :=
  match pools with
  | [] => None
  | pool :: pools => if String.eqb (pc_Name pool) name then Some pool else find_pool name pools
  end.

Definition resolvePool (cfg : BrokerConfig) (name : PoolName) : result PoolConfig :=
  let name := if String.eqb name "" then br_DefaultPool (bk_Broker cfg) else name in
  match find_pool name (bk_Pools cfg) with
  | None => Fail (Sentinel ErrUnknownPool)
  | Some pool =>
      if (0 <? size (br_BackendLimits (bk_Broker cfg)))%nat
      then Ok (with_backends pool (map_imap (fun b c => Some (limit_backend (br_BackendLimits (bk_Broker cfg)) b c))
                                            (pc_Backends pool)))
      else Ok pool
  end.

Definition defaultRegistrationTimeout : Duration := 10 * Minute.

Definition effectiveRegistrationTimeout (cfg : BrokerConfig) (status : AllocationStatus) : Duration :=
  let from_request :=
    match as_Request status with Some request => ar_RegistrationTimeout request | None => 0 end in
  let from_backend :=
    match resolvePool cfg (as_Pool status) with
    | Ok pool =>
        match pc_Backends pool !! as_SelectedBackend status with Some b => bc_RegistrationTimeout b | None => 0 end
    | Fail _ => 0
    end in
  if 0 <? from_request then from_request
  else if 0 <? from_backend then from_backend
  else if 0 <? br_RegistrationTimeout (bk_Broker cfg) then br_RegistrationTimeout (bk_Broker cfg)
  else defaultRegistrationTimeout.

Definition isStaticLabelBackend (cfg : BrokerConfig) (poolName : PoolName) (backendName : BackendName) : bool :=
  match resolvePool cfg poolName with
  | Fail _ => false
  | Ok pool =>
      match pc_Backends pool !! backendName with
      | None => false
      | Some b => negb (String.eqb (TrimSpace (bc_RunnerLabel b)) "")
      end
  end.

Definition reaperGrace (cfg : BrokerConfig) : Duration :=
  let grace := oc_GracePeriod (br_OrphanCleanup (bk_Broker cfg)) in
  if grace <? 0 then 0 else grace.

(** ** Filters *)

(** [cfg.Enabled && cfg.Healthy && cfg.MaxRunners > 0]. *)
Definition usable (cfg : BackendConfig) : bool := bc_Enabled cfg && bc_Healthy cfg && (0 <? bc_MaxRunners cfg).

(** Copying the entries of a pool's backends that pass a test. *)
Definition keep_backends (keep : BackendName → BackendConfig → bool) (pool : PoolConfig) : PoolConfig :=
  with_backends pool (filter (fun entry => keep entry.1 entry.2 = true) (pc_Backends pool)).

Definition backendMatchesCapabilities (cfg : BackendConfig) (required excluded : list string) : bool :=
  let capabilities := CapabilitySet (bc_Capabilities cfg) in
  forallb (fun capability => bool_decide (capability ∈ capabilities)) required &&
  forallb (fun capability => negb (bool_decide (capability ∈ capabilities))) excluded.

Definition normalize_backend (cfg : BackendConfig) : BackendConfig :=
  { cfg with bc_Capabilities := NormalizeCapabilities (bc_Capabilities cfg) }.

Definition filterEligibleBackends (pool : PoolConfig) (request : AllocationRequest) : result PoolConfig :=
  let required := NormalizeCapabilities (ar_RequiredCapabilities request) in
  let excluded := NormalizeCapabilities (ar_ExcludedCapabilities request) in
  if (length required =? 0)%nat && (length excluded =? 0)%nat then Ok pool
  else
    let filtered :=
      keep_backends (fun _ cfg => backendMatchesCapabilities cfg required excluded)
        (with_backends pool (normalize_backend <$> pc_Backends pool)) in
    match ar_Backend request with
    | Some name =>
        match pc_Backends pool !! name with
        | None => Fail (Sentinel ErrUnknownBackend)
        | Some _ =>
            match pc_Backends filtered !! name with
            | None => Fail (Wrapf ("pinned backend " +:+ quote name +:+ " does not match the requested capabilities: ")
                              (Sentinel ErrNoMatchingBackendCapabilities) "")
            | Some _ => Ok filtered
            end
        end
    | None =>
        if (size (pc_Backends filtered) =? 0)%nat
        then Fail (Wrapf "" (Sentinel ErrNoMatchingBackendCapabilities) (" for pool " +:+ quote (pc_Name pool)))
        else Ok filtered
    end.

Definition exceeds_limit (timeout : Duration) (cfg : BackendConfig) : bool :=
  (0 <? bc_MaxJobDuration cfg) && (bc_MaxJobDuration cfg <? timeout).

Definition filterBackendsByTimeout (pool : PoolConfig) (request : AllocationRequest) : result PoolConfig :=
  let timeout := ar_JobTimeout request in
  if timeout <=? 0 then Ok pool
  else
    let filtered := keep_backends (fun _ cfg => negb (exceeds_limit timeout cfg)) pool in
    match ar_Backend request with
    | Some name =>
        match pc_Backends pool !! name with
        | None => Fail (Sentinel ErrUnknownBackend)
        | Some cfg =>
            if exceeds_limit timeout cfg
            then Fail (Errorf ("requested timeout " +:+ Duration_String timeout +:+ " exceeds backend limit " +:+
                               Duration_String (bc_MaxJobDuration cfg)))
            else Ok filtered
        end
    | None =>
        if (size (pc_Backends filtered) =? 0)%nat
        then Fail (Wrapf "" (Sentinel ErrNoCapacity)
                     (" for pool " +:+ quote (pc_Name pool) +:+ " with timeout " +:+ Duration_String timeout))
        else Ok filtered
    end.

(** ** Lanes *)

Definition withoutBackend (pool : PoolConfig) (name : BackendName) : PoolConfig :=
  keep_backends (fun candidate _ => negb (String.eqb candidate name)) pool.

Definition isCloudFallback (name : BackendName) : bool :=
  one_of name [BackendAzureVM; BackendAzureFunctions; BackendEC2; BackendGCE; BackendCloudRun; BackendLambda;
               BackendCodeBuild].

Definition is_arc (name : BackendName) : bool := String.eqb name BackendARC.

Definition hasFallbackBackend (pool : PoolConfig) : bool :=
  existsb (fun entry => negb (is_arc entry.1) && usable entry.2) (map_to_list (pc_Backends pool)).

(** The cloud backends, then the other backends that are not ARC. *)
Definition fallbackBackends (pool : PoolConfig) : PoolConfig :=
  keep_backends (fun name _ => isCloudFallback name || (negb (is_arc name) && negb (isCloudFallback name))) pool.

Definition localBackends (pool : PoolConfig) : PoolConfig :=
  keep_backends (fun name cfg => negb (is_arc name) && negb (isCloudFallback name) && usable cfg) pool.

Definition defaultARCPollInterval : Duration := 100 * Millisecond.

Definition arcFirstWaits (cfg : ARCFirstConfig) : Duration * Duration :=
  (af_SaturationWait cfg, if af_PollInterval cfg <=? 0 then defaultARCPollInterval else af_PollInterval cfg).

(** [errors.Is err context.DeadlineExceeded], or a failure of the provider itself. *)
Definition isARCUnavailableFailure (err : error) : bool :=
  if errors_Is err DeadlineExceeded then true
  else match FailureReason err with
       | None => false
       | Some reason =>
           one_of reason [FailureReasonTimeout; FailureReasonTransport; FailureReasonServerError; FailureReasonProbeFailed]
       end.

(** ** Metadata *)

Definition launchModeCold : string := "cold".
Definition launchModeWarm : string := "warm".
Definition MetadataLaunchModeKey : string := "launch_mode".

Definition withLaunchModeMetadata (metadata : gmap string string) (mode : string) : gmap string string :=
  if String.eqb mode "" then metadata else <[MetadataLaunchModeKey := mode]> metadata.

Example duration_text : (Duration_String (90 * Minute), Duration_String 1500000000, Duration_String 1500000, Duration_String 0)
  = ("1h30m0s", "1.5s", "1.5ms", "0s").
Proof. vm_compute. reflexivity. Qed.

(** ** Which backends a request may use *)

(** The backend carries the tag, in some spelling. *)
Definition offers (cfg : BackendConfig) (tag : string) : Prop :=
  ∃ v, v ∈ bc_Capabilities cfg ∧ CanonicalCapability v = CanonicalCapability tag.

(** The backend carries every required tag and no excluded one; blank tags ask for nothing. *)
Definition serves (cfg : BackendConfig) (request : AllocationRequest) : Prop :=
  (∀ tag, tag ∈ ar_RequiredCapabilities request → CanonicalCapability tag ≠ "" → offers cfg tag) ∧
  (∀ tag, tag ∈ ar_ExcludedCapabilities request → CanonicalCapability tag ≠ "" → ¬ offers cfg tag).

(** The backend lets jobs run that long; zero is no limit. *)
Definition fits (timeout : Duration) (cfg : BackendConfig) : Prop :=
  0 < bc_MaxJobDuration cfg → timeout ≤ bc_MaxJobDuration cfg.

(** A filter's result: the pool of exactly the suitable backends, each as it was
    up to the spelling of its tags; or a failure when the pinned backend, or
    every backend, is unsuitable. *)
Definition narrows (suitable : BackendConfig → Prop) (pool : PoolConfig) (pinned : option BackendName)
    (r : result PoolConfig) : Prop :=
  match r with
  | Ok pool' =>
      pc_Name pool' = pc_Name pool ∧
      (∀ b, is_Some (pc_Backends pool' !! b) ↔ ∃ cfg, pc_Backends pool !! b = Some cfg ∧ suitable cfg) ∧
      (∀ b cfg', pc_Backends pool' !! b = Some cfg' → ∃ cfg, pc_Backends pool !! b = Some cfg ∧
         cfg' = { cfg with bc_Capabilities := bc_Capabilities cfg' } ∧ ∀ tag, CanonicalCapability tag ≠ "" → offers cfg' tag ↔ offers cfg tag)
  | Fail _ =>
      match pinned with
      | Some b => ¬ ∃ cfg, pc_Backends pool !! b = Some cfg ∧ suitable cfg
      | None => ∀ b cfg, pc_Backends pool !! b = Some cfg → ¬ suitable cfg
      end
  end.

Lemma CapabilitySet_offers cfg tag : CanonicalCapability tag ≠ "" →
  CanonicalCapability tag ∈ CapabilitySet (bc_Capabilities cfg) ↔ offers cfg tag.
Proof. intros Hne. unfold CapabilitySet. rewrite elem_of_list_to_set, elem_of_NormalizeCapabilities. unfold offers. naive_solver. Qed.

Lemma offers_normalized cfg tag : CanonicalCapability tag ≠ "" → offers (normalize_backend cfg) tag ↔ offers cfg tag.
Proof.
  intros Hne. unfold offers, normalize_backend, tset, set. cbn. setoid_rewrite elem_of_NormalizeCapabilities. split.
  - intros (v & (_ & w & Hw & <-) & Hv). exists w. split; [done|]. by rewrite <- Hv, CanonicalCapability_idem.
  - intros (v & Hv & He). exists (CanonicalCapability v). split; [|by rewrite CanonicalCapability_idem].
    split; [congruence|]. by exists v.
Qed.

Lemma matches_serves cfg request :
  backendMatchesCapabilities (normalize_backend cfg) (NormalizeCapabilities (ar_RequiredCapabilities request))
    (NormalizeCapabilities (ar_ExcludedCapabilities request)) = true ↔ serves cfg request.
Proof.
  unfold backendMatchesCapabilities, serves. rewrite andb_true_iff, !forallb_forall.
  assert (Htag : ∀ tags c, List.In c (NormalizeCapabilities tags) ↔ ∃ tag, tag ∈ tags ∧ CanonicalCapability tag ≠ "" ∧ CanonicalCapability tag = c).
  { intros tags c. rewrite <- list_elem_of_In, elem_of_NormalizeCapabilities. naive_solver. }
  setoid_rewrite Htag. setoid_rewrite negb_true_iff. setoid_rewrite bool_decide_eq_true. setoid_rewrite bool_decide_eq_false.
  split; intros [Hreq Hex]; split.
  - intros tag Hin Hne. rewrite <- offers_normalized, <- CapabilitySet_offers by done. apply Hreq. eauto.
  - intros tag Hin Hne. rewrite <- offers_normalized, <- CapabilitySet_offers by done. apply Hex. eauto.
  - intros c (tag & Hin & Hne & <-). rewrite CapabilitySet_offers, offers_normalized by done. auto.
  - intros c (tag & Hin & Hne & <-). rewrite CapabilitySet_offers, offers_normalized by done. auto.
Qed.

Lemma keep_backends_Some keep pool b cfg :
  pc_Backends (keep_backends keep pool) !! b = Some cfg ↔ pc_Backends pool !! b = Some cfg ∧ keep b cfg = true.
Proof. unfold keep_backends, with_backends, tset, set. cbn. by rewrite map_lookup_filter_Some. Qed.

Lemma no_entries {A} (m : gmap BackendName A) : (size m =? 0)%nat = true → ∀ b c, m !! b = Some c → False.
Proof. intros Hz%Nat.eqb_eq%map_size_empty_iff b c. by rewrite Hz, lookup_empty. Qed.

(** Keeping the backends that pass a test narrows to those that are suitable. *)
Lemma keep_narrows (suitable : BackendConfig → Prop) (f : BackendConfig → BackendConfig) keep pool pinned :
  (∀ cfg, f cfg = { cfg with bc_Capabilities := bc_Capabilities (f cfg) }) →
  (∀ cfg tag, CanonicalCapability tag ≠ "" → offers (f cfg) tag ↔ offers cfg tag) →
  (∀ b cfg, keep b (f cfg) = true ↔ suitable cfg) →
  let filtered := keep_backends keep (with_backends pool (f <$> pc_Backends pool)) in
  narrows suitable pool pinned (Ok filtered) ∧
  ∀ b, pc_Backends filtered !! b = None → ∀ cfg, pc_Backends pool !! b = Some cfg → ¬ suitable cfg.
Proof.
  intros Hf Htag Hkeep filtered.
  assert (Hl : ∀ b cfg', pc_Backends filtered !! b = Some cfg' ↔ ∃ cfg, pc_Backends pool !! b = Some cfg ∧ cfg' = f cfg ∧ suitable cfg).
  { intros b cfg'. unfold filtered. rewrite keep_backends_Some. unfold with_backends, tset, set. cbn.
    rewrite lookup_fmap_Some. split.
    - intros [(cfg & <- & Ho) Hk]. exists cfg. by rewrite <- (Hkeep b).
    - intros (cfg & Ho & -> & Hs). split; [by exists cfg|by apply Hkeep]. }
  split; [split_and!; [done| |]|].
  - intros b. split; [intros [cfg' (cfg & ? & _ & ?)%Hl]; eauto|]. intros (cfg & Ho & Hs). exists (f cfg). apply Hl. eauto.
  - intros b cfg' (cfg & Ho & -> & _)%Hl. eauto.
  - intros b Hn cfg Ho Hs. assert (pc_Backends filtered !! b = Some (f cfg)) by (apply Hl; eauto). congruence.
Qed.

Lemma narrows_all pool pinned suitable : (∀ cfg, suitable cfg) → narrows suitable pool pinned (Ok pool).
Proof.
  intros Hs. split_and!; [done| |].
  - intros b. split; [intros [cfg ?]; eauto|]. by intros (cfg & -> & _).
  - intros b cfg Ho. exists cfg. split_and!; [done|by destruct cfg|done].
Qed.

(** Which backends a request may use: the capability filter leaves exactly the
    backends of the pool that carry every required tag and no excluded one, in
    whatever spelling, and fails exactly when the pinned backend or every backend
    is left out; the timeout filter leaves exactly those whose job limit is not
    below the requested timeout. *)
Theorem request_filters_are_exact pool request :
  narrows (fun cfg => serves cfg request) pool (ar_Backend request) (filterEligibleBackends pool request) ∧
  (0 < ar_JobTimeout request →
   narrows (fits (ar_JobTimeout request)) pool (ar_Backend request) (filterBackendsByTimeout pool request)).
Proof.
  split; [unfold filterEligibleBackends|intros Ht; unfold filterBackendsByTimeout; replace (_ <=? 0) with false by lia].
  - destruct (_ && _) eqn:Hnone.
    { apply narrows_all. intros cfg. apply andb_true_iff in Hnone as [Hr He]. apply Nat.eqb_eq, nil_length_inv in Hr, He.
      apply matches_serves. by rewrite Hr, He. }
    match goal with |- context [keep_backends ?k _] => set (keep := k) end.
    destruct (keep_narrows (fun cfg => serves cfg request) normalize_backend keep pool (ar_Backend request)) as [Hok Hout];
      [done|intros; by apply offers_normalized|intros; apply matches_serves|].
    set (filtered := keep_backends keep _) in *. clearbody filtered.
    destruct (ar_Backend request) as [b|].
    + destruct (pc_Backends pool !! b) as [cfg|] eqn:Ho; [|cbn; rewrite Ho; naive_solver].
      destruct (pc_Backends filtered !! b) eqn:Hb; [done|]. cbn. intros (c & Hc & Hs). by apply (Hout b Hb c Hc).
    + destruct (size _ =? 0)%nat eqn:Hz; [|done]. intros b cfg Ho. apply (Hout b); [|done].
      destruct (pc_Backends filtered !! b) as [c|] eqn:Hc; [|done]. by destruct (no_entries _ Hz b c).
  - match goal with |- context [keep_backends ?k _] => set (keep := k) end.
    destruct (keep_narrows (fits (ar_JobTimeout request)) (fun cfg => cfg) keep pool (ar_Backend request)) as [Hok Hout];
      [by intros []|done| |].
    { intros b cfg. unfold keep, exceeds_limit, fits. rewrite negb_true_iff, andb_false_iff, !Z.ltb_ge. lia. }
    replace (with_backends pool ((fun cfg => cfg) <$> pc_Backends pool)) with pool in *
      by (destruct pool; unfold with_backends, tset, set; cbn; by rewrite map_fmap_id).
    set (filtered := keep_backends keep pool) in *. destruct (ar_Backend request) as [b|].
    + destruct (pc_Backends pool !! b) as [cfg|] eqn:Ho; [|cbn; rewrite Ho; naive_solver].
      destruct (exceeds_limit _ cfg) eqn:Hx; [|done]. cbn. intros (c & Hc & Hs). rewrite Ho in Hc. simplify_eq.
      unfold exceeds_limit, fits in *. reflect_bools. lia.
    + destruct (size _ =? 0)%nat eqn:Hz; [|done]. intros b cfg Ho. apply (Hout b); [|done].
      destruct (pc_Backends filtered !! b) as [c|] eqn:Hc; [|done]. by destruct (no_entries _ Hz b c).
Qed.

Lemma request_filters_are_exact_witness :
  let linux := { zero_BackendConfig with bc_Capabilities := ["Linux"; "x64"]; bc_MaxJobDuration := Hour } in
  let pool := { zero_PoolConfig with pc_Backends := {[ "ec2" := linux; "lambda" := zero_BackendConfig ]} } in
  let request := { zero_AllocationRequest with ar_RequiredCapabilities := [" linux "]; ar_JobTimeout := 2 * Hour } in
  narrows (fits (2 * Hour)) pool None (filterBackendsByTimeout pool request) ∧
  narrows (fun cfg => serves cfg request) pool None (filterEligibleBackends pool request) ∧
  match filterEligibleBackends pool request with Ok pool => size (pc_Backends pool) = 1%nat | Fail _ => False end.
Proof.
  intros linux pool request. destruct (request_filters_are_exact pool request) as [He Ht].
  split; [apply Ht; reflexivity|]. split; [exact He|vm_compute; reflexivity].
Defined.
