(* ===== verification/Service.v ===== *)
(** The allocation service: state and lifecycle operations of
    src/internal/api/service.go.

    [Service] is the Go struct: the allocation store, the scheduler registry,
    the admission state, budgets, live capacity, retries and penalties.  Each
    operation takes the reading of the clock it uses; every reading inside one
    operation is the same.  The calls of the provider's Cleanup and of the
    lifecycle notifier are recorded in the state, oldest first; logs, metrics
    and traces are left out. *)

From S2P Require Import Prelude Errors Model Store Scheduler FairShare Registry Backends Budget Capacity Admission.
From S2P Require Import JobRetry TierPolicy ServicePolicy.

Record Service {S : Type} := {
  sv_store : S;
  sv_scheds : Registry;
  sv_admission : backendAdmission;
  sv_budgets : Tracker;
  sv_capacity : Manager;
  sv_tier : TierManager;
  sv_retries : JobRetries;
  sv_penalties : RegistrationPenalties;
  sv_nextID : nat;
  sv_draining : bool;
  sv_initErr : option error;
  sv_cleanups : list AllocationStatus;
  sv_notices : list AllocationStatus;
}.
Arguments Service : clear implicits.

(** The instance that accounts for a pool: [fairShare.enabled] selects the
    priority fair-share scheduler the registry shares with the service. *)
Definition pool_kind (pool : PoolConfig) : scheduler_kind :=
  if fs_Enabled (pc_FairShare pool) then KindPriorityFairShare else ForPool pool.

Section Service.
Context `{GoRange} {S : Type} `{!AllocationStore S, !AdmissionStateStore S}.
(** The configuration, and which backends are registered and implement CleanupBackend. *)
Context (cfg : BrokerConfig) (has_cleanup : BackendName → bool).
Implicit Types (s : Service S) (pool : PoolConfig) (now : Time).

(** ** Notifications *)

Definition notifyLifecycle s (status : AllocationStatus) : Service S :=
  if String.eqb (as_ID status) "" then s else { s with sv_notices := sv_notices s ++ [status] }.

Definition notifyReady s (status : AllocationStatus) : Service S :=
  if state_eqb (as_State status) StateReady then notifyLifecycle s status else s.

Definition notifyLifecycleTerminal s (status : AllocationStatus) : Service S :=
  if notifies_terminal (as_State status) then notifyLifecycle s status else s.

Definition markState s (id : string) (state : AllocationState) now (message : string) :
    option AllocationStatus * Service S :=
  let '(updated, st) := store_MarkState (sv_store s) id state now message in
  let s := { s with sv_store := st } in
  match updated with
  | Some status => (Some status, notifyLifecycleTerminal s status)
  | None => (None, s)
  end.

(** ** Slots and cleanup *)

Definition reserveScheduled s pool (request : AllocationRequest) now : result BackendName * Service S :=
  if fs_Enabled (pc_FairShare pool) then
    let '(res, f) := Reserve (priorityFairShare (sv_scheds s)) pool request now in
    (res, { s with sv_scheds := { sv_scheds s with priorityFairShare := f } })
  else
    let '(res, r) := Registry_Reserve (sv_scheds s) pool request now in (res, { s with sv_scheds := r }).

Definition cleanupAllocation s (allocation : AllocationStatus) : Service S :=
  if has_cleanup (as_SelectedBackend allocation)
  then { s with sv_cleanups := sv_cleanups s ++ [allocation] } else s.

Definition release_slot s pool (backendName : BackendName) (allocation : AllocationStatus) now : Service S :=
  if fs_Enabled (pc_FairShare pool) then
    let f := Release (priorityFairShare (sv_scheds s)) (pc_Name pool) backendName allocation now in
    { s with sv_scheds := { sv_scheds s with priorityFairShare := f } }
  else { s with sv_scheds := Registry_Release (sv_scheds s) pool backendName allocation now }.

Definition release s pool (backendName : BackendName) (allocation : AllocationStatus) now : Service S :=
  cleanupAllocation (release_slot s pool backendName allocation now) allocation.

Definition backendActiveCount s pool (backendName : BackendName) : Z :=
  if fs_Enabled (pc_FairShare pool) then Active (priorityFairShare (sv_scheds s)) (pc_Name pool) backendName
  else Registry_Active (sv_scheds s) pool backendName.

(** ** Backend health *)

Definition put_admission s (result : transition * backendAdmission * option S) : Service S :=
  { s with sv_admission := result.1.2; sv_store := default (sv_store s) result.2 }.

Definition recordBackendFailureClass s pool (backendName : BackendName) (reason : string) now : Service S :=
  let reason := NormalizeFailureReason reason in
  if String.eqb reason "" then s
  else match pc_Backends pool !! backendName with
       | None => s
       | Some b =>
           put_admission s (recordFailure (sv_admission s) (Some (sv_store s)) (pc_Name pool) backendName b reason now)
       end.

Definition recordBackendFailure s pool (backendName : BackendName) (err : error) now : Service S :=
  match FailureReason err with
  | None => s
  | Some reason => recordBackendFailureClass s pool backendName reason now
  end.

Definition recordBackendSuccess s pool (backendName : BackendName) now : Service S :=
  match pc_Backends pool !! backendName with
  | None => s
  | Some b => put_admission s (recordSuccess (sv_admission s) (Some (sv_store s)) (pc_Name pool) backendName b now)
  end.

Definition recordBackendProbeSuccess s pool (backendName : BackendName) now : Service S :=
  match pc_Backends pool !! backendName with
  | None => s
  | Some b => put_admission s (recordProbeSuccess (sv_admission s) (Some (sv_store s)) (pc_Name pool) backendName b now)
  end.

Definition recordBudgetUsage s pool (backendName : BackendName) now : Service S :=
  match pc_Backends pool !! backendName with
  | None => s
  | Some b =>
      if negb (bu_Enabled (bc_Budget b)) then s
      else
        let '(t, shared) := Tracker_Record (sv_budgets s) (Some (sv_store s)) (pc_Name pool) backendName (bc_Budget b) now in
        let st := default (sv_store s) shared in
        let '(_, t) := Tracker_Snapshot t (Some st) (pc_Name pool) backendName (bc_Budget b) now in
        { s with sv_budgets := t; sv_store := st }
  end.

(** ** Cancel, complete, claim, register *)

(** The loop that retries while the compare-and-mark loses, with the rounds
    left; [None] when they run out.  The inner result is (status, found). *)
Fixpoint Cancel (rounds : nat) s (id : string) now : option (option AllocationStatus * Service S) :=
  match rounds with
  | O => None
  | Datatypes.S rounds =>
      match store_Get (sv_store s) id with
      | None => Some (None, s)
      | Some status =>
          if isTerminalAllocationState (as_State status) then Some (Some status, s)
          else
            let '(updated, st) := store_CompareAndMarkState (sv_store s) id (as_State status) StateCanceled now "" in
            let s := { s with sv_store := st } in
            match updated with
            | None => Cancel rounds s id now
            | Some updated =>
                let s := notifyLifecycleTerminal s updated in
                let s := match resolvePool cfg (as_Pool updated) with
                         | Ok pool => release s pool (as_SelectedBackend updated) updated now
                         | Fail _ => s
                         end in
                Some (Some updated, s)
            end
      end
  end.

Definition Complete s (id : string) (request : completionRequest) now :
    option AllocationStatus * option error * Service S :=
  match store_Get (sv_store s) id with
  | None => (None, None, s)
  | Some status =>
      match parseCompletionState request with
      | Fail err => (None, Some err, s)
      | Ok (targetState, message) =>
          let message := if String.eqb (TrimSpace message) "" then defaultCompletionMessage targetState else message in
          if isTerminalAllocationState (as_State status) then
            if state_eqb (as_State status) targetState then (Some status, None, s)
            else (Some status,
                  Some (Wrapf "" (Sentinel ErrAllocationAlreadyCompleted)
                          (": current=" +:+ state_string (as_State status) +:+ " requested=" +:+ state_string targetState)), s)
          else if state_eqb (as_State status) targetState then (Some status, None, s)
          else
            match markState s id targetState now message with
            | (None, s) => (None, None, s)
            | (Some updated, s) =>
                let s :=
                  if isActiveAllocationState (as_State status) then
                    match resolvePool cfg (as_Pool status) with
                    | Ok pool =>
                        let s := release s pool (as_SelectedBackend status) status now in
                        if state_eqb targetState StateFailed
                        then recordBackendFailureClass s pool (as_SelectedBackend status) (cr_FailureClass request) now
                        else s
                    | Fail _ => s
                    end
                  else s in
                (Some updated, None, s)
            end
      end
  end.

Definition set_time (t : option Time) now : option Time := if time_ptr_set t then t else Some now.

(** The common part of Claim and Register: saving the record read. *)
Definition save_runner s (status : AllocationStatus) : option AllocationStatus * option error * Service S :=
  let '(err, st) := store_Save (sv_store s) status in
  let s := { s with sv_store := st } in
  match err with
  | Some err => (None, Some err, s)
  | None =>
      (Some status, None,
       { s with sv_penalties := recordRegistrationSuccess (sv_penalties s) (as_Pool status) (as_SelectedBackend status) })
  end.

Definition Claim s (id : string) now : option AllocationStatus * option error * Service S :=
  match store_Get (sv_store s) id with
  | None => (None, Some (Sentinel ErrAllocationNotFound), s)
  | Some status =>
      if isTerminalAllocationState (as_State status)
      then (Some status, Some (Sentinel ErrAllocationAlreadyCompleted), s)
      else save_runner s { status with as_ClaimedAt := set_time (as_ClaimedAt status) now;
                                       as_RegisteredAt := set_time (as_RegisteredAt status) now }
  end.

Definition Register s (id : string) now : option AllocationStatus * option error * Service S :=
  match store_Get (sv_store s) id with
  | None => (None, Some (Sentinel ErrAllocationNotFound), s)
  | Some status =>
      if isTerminalAllocationState (as_State status)
      then (Some status, Some (Sentinel ErrAllocationAlreadyCompleted), s)
      else save_runner s { status with as_RegisteredAt := set_time (as_RegisteredAt status) now }
  end.

(** ** The sweep *)

Definition sweep_created_at (status : AllocationStatus) : Time :=
  if negb (IsZero (as_CreatedAt status)) then as_CreatedAt status
  else match as_Request status with
       | Some request =>
           if negb (IsZero (as_ExpiresAt status)) && (0 <? ar_JobTimeout request)
           then TimeAdd (as_ExpiresAt status) (- ar_JobTimeout request) else as_ExpiresAt status
       | None => as_ExpiresAt status
       end.

Definition unclaimed_message : string :=
  "allocation expired: static runner label never claimed within registration timeout".
Definition unregistered_message : string :=
  "allocation expired: runner never registered or claimed within registration timeout".

(** The registration lease has run out: the message. *)
Definition registration_overdue (createdAt : Time) (status : AllocationStatus) now : option string :=
  let regTimeout := effectiveRegistrationTimeout cfg status in
  if (0 <? regTimeout) && negb (IsZero createdAt) && negb (After (TimeAdd createdAt regTimeout) now) then
    if isStaticLabelBackend cfg (as_Pool status) (as_SelectedBackend status)
    then (if negb (IsClaimed status) then Some unclaimed_message else None)
    else (if negb (IsRegistered status) && negb (IsClaimed status) then Some unregistered_message else None)
  else None.

(** Past the job timeout and the grace period. *)
Definition job_overdue (status : AllocationStatus) now : bool :=
  negb (IsZero (as_ExpiresAt status)) && negb (After (TimeAdd (as_ExpiresAt status) (reaperGrace cfg)) now).

(** The state, expiry and message a stale active allocation gets. *)
Definition reap_as now : AllocationState * Time * string :=
  let orphan := br_OrphanCleanup (bk_Broker cfg) in
  if oc_Enabled orphan then
    (StateQuarantined, (if 0 <? oc_QuarantineTTL orphan then TimeAdd now (oc_QuarantineTTL orphan) else now),
     "stale runner label quarantined: allocation past job timeout without finalize")
  else (StateExpired, now, "stale runner label reclaimed: allocation expired without finalize").

Definition sweep_release s (status : AllocationStatus) now : Service S :=
  match resolvePool cfg (as_Pool status) with
  | Ok pool =>
      let s := release s pool (as_SelectedBackend status) status now in
      recordBackendFailureClass s pool (as_SelectedBackend status) FailureReasonWaitTimeout now
  | Fail _ => cleanupAllocation s status
  end.

Definition sweep_one now (acc : Service S * Z) (status : AllocationStatus) : Service S * Z :=
  let '(s, updated) := acc in
  if isActiveAllocationState (as_State status) then
    match registration_overdue (sweep_created_at status) status now with
    | Some message =>
        match markState s (as_ID status) StateExpired now message with
        | (None, s) => (s, updated)
        | (Some _, s) =>
            let s := sweep_release s status now in
            ({ s with sv_penalties := recordRegistrationExpiry (sv_penalties s) (as_Pool status) (as_SelectedBackend status) now },
             updated + 1)
        end
    | None =>
        if negb (job_overdue status now) then acc
        else
          let '(nextState, nextExpiresAt, nextMessage) := reap_as now in
          match markState s (as_ID status) nextState nextExpiresAt nextMessage with
          | (None, s) => (s, updated)
          | (Some _, s) => (sweep_release s status now, updated + 1)
          end
    end
  else if negb (state_eqb (as_State status) StateQuarantined) then acc
  else if After (as_ExpiresAt status) now then acc
  else
    match markState s (as_ID status) StateExpired now "stale runner label quarantine expired" with
    | (None, s) => (s, updated)
    | (Some _, s) => (cleanupAllocation s status, updated + 1)
    end.

Definition pruneFinishedAllocations s now : result Z * Service S :=
  let retention := EffectiveRetention (br_StateStore (bk_Broker cfg)) in
  if retention <=? 0 then (Ok 0, s)
  else let '(res, st) := store_PruneTerminal (sv_store s) now retention in (res, { s with sv_store := st }).

Definition SweepExpired s now : Z * Service S :=
  let '(s, updated) := foldl (sweep_one now) (s, 0) (store_List (sv_store s)) in
  match pruneFinishedAllocations s now with
  | (Ok pruned, s) => (updated + pruned, s)
  | (Fail _, s) => (updated, s)
  end.

(** ** Rehydration at startup *)

Definition expireUnrehydratableAllocation s (status : AllocationStatus) now (reason : string) : Service S :=
  if String.eqb (as_ID status) "" then s
  else
    let nextState := if state_eqb (as_State status) StateWarm then StateFailed else StateExpired in
    (markState s (as_ID status) nextState now reason).2.

Definition rehydrate_pool pool : PoolConfig :=
  let fairShare := pc_FairShare pool in
  if fs_Enabled fairShare && (0 <? size (fs_SoftReserves fairShare))%nat
  then { pool with pc_FairShare := { fairShare with fs_SoftReserves := ∅ } } else pool.

Definition rehydrate_request (status : AllocationStatus) : AllocationRequest :=
  { zero_AllocationRequest with ar_Pool := as_Pool status; ar_Backend := Some (as_SelectedBackend status);
      ar_Tenant := as_Tenant status; ar_PriorityClass := as_PriorityClass status }.

Definition rehydrate_one now s (status : AllocationStatus) : Service S :=
  if negb (isSchedulerAccountedState (as_State status)) then s
  else match resolvePool cfg (as_Pool status) with
  | Fail err => expireUnrehydratableAllocation s status now ("rehydrate skipped: " +:+ Error err)
  | Ok pool =>
      if String.eqb (as_SelectedBackend status) ""
      then expireUnrehydratableAllocation s status now "rehydrate skipped: selected backend is empty"
      else if job_overdue status now
      then expireUnrehydratableAllocation s status now "rehydrate skipped: allocation expired"
      else match registration_overdue (as_CreatedAt status) status now with
      | Some _ => expireUnrehydratableAllocation s status now "rehydrate skipped: registration timeout elapsed"
      | None =>
          match reserveScheduled s (rehydrate_pool pool) (rehydrate_request status) now with
          | (Fail err, s) => expireUnrehydratableAllocation s status now ("rehydrate skipped: " +:+ Error err)
          | (Ok _, s) => s
          end
      end
  end.

Definition rehydrateSchedulerState s now : Service S :=
  foldl (rehydrate_one now) s (store_List (sv_store s)).

(** ** Losing a reservation *)

(** [true]: the allocation was still reserved and now is [terminalState]. *)
Definition abandonReservedAllocation s pool (allocation : AllocationStatus) (terminalState : AllocationState)
    (message : string) now : option AllocationStatus * bool * Service S :=
  let '(updated, st) :=
    store_CompareAndMarkState (sv_store s) (as_ID allocation) StateReserved terminalState now message in
  let s := { s with sv_store := st } in
  match updated with
  | Some updated => (Some updated, true, release s pool (as_SelectedBackend allocation) updated now)
  | None => (store_Get (sv_store s) (as_ID allocation), false, s)
  end.
End Service.

(** ** Construction *)

(** The service before rehydration, on a store. *)
Definition initial_service {S} `{GoRange, !AdmissionStateStore S} (st : S) : Service S :=
  {| sv_store := st; sv_scheds := NewRegistry; sv_admission := newBackendAdmission (Some st);
     sv_budgets := NewTracker (Some st); sv_capacity := NewManager; sv_tier := NewTierManager;
     sv_retries := ∅; sv_penalties := ∅; sv_nextID := 0; sv_draining := false; sv_initErr := None;
     sv_cleanups := []; sv_notices := [] |}.
