(* ===== verification/ServiceFilters.v ===== *)
(** Narrowing a pool to the backends an allocation may try now, and reserving a
    slot: the stateful filters and [reserve] of src/internal/api/service.go. *)

From S2P Require Import Prelude Errors Model Store Scheduler FairShare Registry Backends Budget Capacity Admission.
From S2P Require Import JobRetry TierPolicy ServicePolicy Service.
From stdpp Require Import pretty.
Open Scope Z_scope.
Open Scope go_scope.

(** What the service asks of the quality tracker (src/internal/quality): an
    order on candidate backends with their free slots. *)
Class QualityRanker := {
  rank_candidates : PoolName → list (BackendName * Z) → Time → list BackendName;
  rank_candidates_sub : ∀ pool candidates now b,
    b ∈ rank_candidates pool candidates now → b ∈ candidates.*1;
}.

(** A ranker that keeps the order in which it is given the candidates. *)
Definition keep_order : QualityRanker.
Proof. refine {| rank_candidates := fun _ candidates _ => candidates.*1 |}. done. Defined.

Section Filters.
Context `{GoRange} `{QualityRanker} {S : Type} `{!AllocationStore S, !AdmissionStateStore S}.
Context (cfg : BrokerConfig).
Implicit Types (s : Service S) (pool : PoolConfig) (request : AllocationRequest) (now : Time).

Definition broker : BrokerRuntimeConfig := bk_Broker cfg.

(** ** Admission *)

Definition set_admission s (a : backendAdmission) : Service S := { s with sv_admission := a }.

Definition observe_rejection pool now (filtered : PoolConfig) s (entry : BackendName * BackendConfig) : Service S :=
  match pc_Backends filtered !! entry.1 with
  | Some _ => s
  | None =>
      let '(_, a, _) := allow (sv_admission s) (Some (sv_store s)) (pc_Name pool) entry.1 entry.2 now false false in
      set_admission s a
  end.

(** Reads the decision of every backend left out; only metrics use it. *)
Definition observeAdmissionRejections s pool (filtered : PoolConfig) now : Service S :=
  foldl (observe_rejection pool now filtered) s (range (pc_Backends pool)).

(** Returns the pool, the request to go on with and whether a rate-limited pin was dropped. *)
Definition filterBackendsByAdmission s pool request now : result (PoolConfig * AllocationRequest * bool) * Service S :=
  let '(filtered, a) := admission_filter (sv_admission s) (Some (sv_store s)) pool request now in
  let s := set_admission s a in
  match filtered with
  | Ok filtered => (Ok (filtered, request, false), observeAdmissionRejections s pool filtered now)
  | Fail err =>
      match ar_Backend request with
      | None => (Fail err, s)
      | Some name =>
          if errors_Is err ErrBackendRateLimited then
            let fallbackRequest := { request with ar_Backend := None } in
            let '(fallback, a) := admission_filter (sv_admission s) (Some (sv_store s)) pool fallbackRequest now in
            let s := set_admission s a in
            match fallback with
            | Ok fallback => (Ok (fallback, fallbackRequest, true), observeAdmissionRejections s pool fallback now)
            | Fail fallbackErr =>
                (Fail (Wrapf ("pinned backend " +:+ quote name +:+ " is rate-limited and no fallback backend is available: ")
                         fallbackErr ""), s)
            end
          else (Fail err, s)
      end
  end.

(** ** Live capacity *)

Definition effective_max s pool (name : BackendName) (b : BackendConfig) : Z * bool * string :=
  EffectiveMaxRunners (bc_MaxRunners b) (backendActiveCount s pool name) (Manager_Get (sv_capacity s) name)
    (lc_FailureMode (br_LiveCapacity broker)).

Definition backendHasFreeSchedulerCapacity s pool (name : BackendName) (b : BackendConfig) : bool :=
  if negb (usable b) then false
  else if negb (lc_Enabled (br_LiveCapacity broker)) then backendActiveCount s pool name <? bc_MaxRunners b
  else (effective_max s pool name b).1.2.

Definition clamp_runners (b : BackendConfig) (effectiveMax : Z) : BackendConfig :=
  if (0 <? effectiveMax) && (effectiveMax <? bc_MaxRunners b) then { b with bc_MaxRunners := effectiveMax } else b.

Definition live_backend s pool (name : BackendName) (b : BackendConfig) : BackendConfig :=
  if negb (usable b) then b
  else let '(effectiveMax, available, _) := effective_max s pool name b in
       if negb available then { b with bc_Healthy := false } else clamp_runners b effectiveMax.

Definition skipped_live s pool (entry : BackendName * BackendConfig) : bool :=
  usable entry.2 && negb (effective_max s pool entry.1 entry.2).1.2.

Definition poolHasSchedulableBackend pool : bool :=
  existsb (fun entry => usable entry.2) (map_to_list (pc_Backends pool)).

Definition filterBackendsByLiveCapacity s pool request : result PoolConfig :=
  if negb (lc_Enabled (br_LiveCapacity broker)) then Ok pool
  else
    let filtered := with_backends pool (map_imap (fun name b => Some (live_backend s pool name b)) (pc_Backends pool)) in
    match ar_Backend request with
    | Some name =>
        match pc_Backends pool !! name with
        | None => Fail (Sentinel ErrUnknownBackend)
        | Some b =>
            if negb (usable b)
            then Fail (Wrapf ("pinned backend " +:+ quote name +:+ " is not available: ") (Sentinel ErrNoCapacity) "")
            else
              let '(effectiveMax, available, reason) := effective_max s pool name b in
              if negb available
              then Fail (Wrapf ("pinned backend " +:+ quote name +:+ " live capacity exhausted (" +:+ reason +:+ "): ")
                           (Sentinel ErrBackendLiveCapacity) "")
              else Ok (with_backends pool {[ name := clamp_runners b effectiveMax ]})
        end
    | None =>
        if negb (poolHasSchedulableBackend filtered) then
          if existsb (skipped_live s pool) (map_to_list (pc_Backends pool))
          then Fail (Wrapf "" (Sentinel ErrBackendLiveCapacity)
                       (" for pool " +:+ quote (pc_Name pool) +:+ ": all backends exhausted by live capacity"))
          else Fail (Wrapf "" (Sentinel ErrNoCapacity)
                       (" for pool " +:+ quote (pc_Name pool) +:+ " after live capacity filtering"))
        else Ok filtered
    end.

(** ** Tier policy *)

Inductive tier_verdict := TierEligible | TierDeprioritized | TierFull | TierBlocked (decision : Tier.Decision).

(** The loop body of [tierEligibleBackends]. *)
Definition tier_verdict_of s pool (name : BackendName) (b : BackendConfig) : tier_verdict :=
  let decision := default (Tier.missing_decision (pc_Name pool) name) (TierDecision (sv_tier s) (pc_Name pool) name) in
  if tierDecisionAllowsBackendNormally (tr_FailureMode (br_TierRouting broker)) decision then
    if backendHasFreeSchedulerCapacity s pool name b then TierEligible else TierFull
  else if tierDecisionIsDeprioritized decision then
    if backendHasFreeSchedulerCapacity s pool name b then TierDeprioritized else TierFull
  else TierBlocked decision.

Definition is_eligible (v : tier_verdict) : bool := match v with TierEligible => true | _ => false end.
Definition is_deprioritized (v : tier_verdict) : bool := match v with TierDeprioritized => true | _ => false end.
Definition is_blocked (v : tier_verdict) : bool := match v with TierBlocked _ => true | _ => false end.

Definition tierEligibleBackends s pool : PoolConfig * PoolConfig * gmap BackendName Tier.Decision :=
  (keep_backends (fun name b => is_eligible (tier_verdict_of s pool name b)) pool,
   keep_backends (fun name b => is_deprioritized (tier_verdict_of s pool name b)) pool,
   map_imap (fun name b => match tier_verdict_of s pool name b with TierBlocked d => Some d | _ => None end)
     (pc_Backends pool)).

Definition filterTierFallbackBackends pool (fallbackBackends : list BackendName) : PoolConfig :=
  keep_backends (fun name _ => one_of name fallbackBackends) pool.

Definition no_backends pool : bool := (size (pc_Backends pool) =? 0)%nat.

Definition tier_blocked_error pool (detail : string) : error :=
  Wrapf "" (Sentinel ErrBackendTierBlocked) (" for pool " +:+ quote (pc_Name pool) +:+ detail).

Definition filterBackendsByTierState s pool request : result PoolConfig :=
  if negb (tr_Enabled (br_TierRouting broker)) then Ok pool
  else
    let mode := tr_FailureMode (br_TierRouting broker) in
    let '(eligible, deprioritized, blocked) := tierEligibleBackends s pool in
    match ar_Backend request with
    | Some name =>
        if negb (bool_decide (is_Some (pc_Backends pool !! name))) then Fail (Sentinel ErrUnknownBackend)
        else if pinnedBackendAllowedByTier mode (sv_tier s) (pc_Name pool) name then Ok pool
        else if bool_decide (is_Some (pc_Backends eligible !! name)) then Ok eligible
        else if bool_decide (is_Some (pc_Backends deprioritized !! name)) then Ok deprioritized
        else Fail (Wrapf ("pinned backend " +:+ quote name +:+ " is blocked by tier policy: ") (Sentinel ErrBackendTierBlocked) "")
    | None =>
        if negb (no_backends eligible) then Ok eligible
        else if negb (no_backends deprioritized) then Ok deprioritized
        else if existsb (fun entry => negb (bool_decide (is_Some (blocked !! entry.1))) && usable entry.2)
                  (map_to_list (pc_Backends pool))
        then Fail (Sentinel ErrNoCapacity)
        else if (size blocked =? 0)%nat then Ok pool
        else if String.eqb (normalizeTierFailureMode mode) Tier.FailureModeBlock then Fail (tier_blocked_error pool "")
        else if String.eqb (normalizeTierFailureMode mode) Tier.FailureModeFallback then
          let fallback := filterTierFallbackBackends pool (tr_FallbackBackends (br_TierRouting broker)) in
          if negb (no_backends fallback) then Ok fallback
          else Fail (tier_blocked_error pool ": no fallback backends available")
        else if forallb (fun entry => exceeded_and_disabled entry.2) (map_to_list blocked)
        then Fail (tier_blocked_error pool ": all backends disabled by tier policy")
        else Ok pool
    end.

(** ** Budgets *)

Record budget_scan := {
  bs_tracker : Tracker;
  bs_kept : gmap BackendName BackendConfig;
  bs_overBudget : Z;
  bs_budgeted : Z;
}.

Definition budget_allow s (t : Tracker) pool (name : BackendName) (b : BackendConfig) now : Budget.Decision * Tracker :=
  Tracker_Allow t (Some (sv_store s)) (pc_Name pool) name (bc_Budget b) now.

Definition scan_budget s pool now (acc : budget_scan) (entry : BackendName * BackendConfig) : budget_scan :=
  let '(name, b) := entry in
  if negb (bu_Enabled (bc_Budget b)) then { acc with bs_kept := <[name := b]> (bs_kept acc) }
  else
    let '(decision, t) := budget_allow s (bs_tracker acc) pool name b now in
    let acc := { acc with bs_tracker := t; bs_budgeted := bs_budgeted acc + 1 } in
    if bd_Allowed decision then { acc with bs_kept := <[name := b]> (bs_kept acc) }
    else { acc with bs_overBudget := bs_overBudget acc + 1 }.

Definition set_budgets s (t : Tracker) : Service S := { s with sv_budgets := t }.

Definition filterBackendsByBudget s pool request now : result PoolConfig * Service S :=
  let scan := foldl (scan_budget s pool now)
    {| bs_tracker := sv_budgets s; bs_kept := ∅; bs_overBudget := 0; bs_budgeted := 0 |} (range (pc_Backends pool)) in
  let t := bs_tracker scan in
  let all_over := (0 <? bs_budgeted scan) && (bs_overBudget scan =? bs_budgeted scan) in
  let filtered := with_backends pool (bs_kept scan) in
  let filtered :=
    if all_over && negb (poolHasSchedulableBackend filtered) then with_backends pool ∅ else filtered in
  match ar_Backend request with
  | Some name =>
      match pc_Backends pool !! name with
      | None => (Fail (Sentinel ErrUnknownBackend), set_budgets s t)
      | Some b =>
          if negb (bu_Enabled (bc_Budget b)) then (Ok filtered, set_budgets s t)
          else
            let '(decision, t) := budget_allow s t pool name b now in
            if bd_Allowed decision then (Ok filtered, set_budgets s t)
            else (Fail (Wrapf ("pinned backend " +:+ quote name +:+ " is over budget (" +:+ bd_Reason decision +:+ "): ")
                          (Sentinel ErrBackendBudgetExceeded) ""), set_budgets s t)
      end
  | None =>
      if no_backends filtered then
        if all_over
        then (Fail (Wrapf ("all eligible backends for pool " +:+ quote (pc_Name pool) +:+ " are over budget: ")
                      (Sentinel ErrBackendBudgetExceeded) ""), set_budgets s t)
        else (Fail (Wrapf "" (Sentinel ErrNoCapacity) (" for pool " +:+ quote (pc_Name pool) +:+ " after budget filtering")),
              set_budgets s t)
      else (Ok filtered, set_budgets s t)
  end.

(** ** Reservation *)

Definition free_candidate s pool (entry : BackendName * BackendConfig) : option (BackendName * Z) :=
  let '(name, b) := entry in
  let free := bc_MaxRunners b - backendActiveCount s pool name in
  if negb (usable b) || (free <=? 0) then None else Some (name, free).

(** Highest score first, until the scheduler accepts one. *)
Fixpoint try_ranked s pool request now (ranked : list BackendName) (lastErr : error) : result BackendName * Service S :=
  match ranked with
  | [] => (Fail lastErr, s)
  | name :: ranked =>
      match reserveScheduled s pool { request with ar_Backend := Some name } now with
      | (Ok selected, s) => (Ok selected, s)
      | (Fail err, s) =>
          if errors_Is err ErrQuotaExceeded || errors_Is err ErrUnknownBackend then (Fail err, s)
          else try_ranked s pool request now ranked err
      end
  end.

Definition reserveQualityAware s pool request now : result BackendName * Service S :=
  let candidates := omap (free_candidate s pool) (range (pc_Backends pool)) in
  if (length candidates =? 0)%nat then (Fail (Sentinel ErrNoCapacity), s)
  else try_ranked s pool request now (rank_candidates (pc_Name pool) candidates now) (Sentinel ErrNoCapacity).

Definition reserve s pool request now : result BackendName * Service S :=
  if qa_Enabled (br_QualityAware broker) && (if ar_Backend request is None then true else false)
  then reserveQualityAware s pool request now
  else reserveScheduled s pool request now.

(** The capacity limits of a reserved record are checked by the store. *)
Definition save_limits pool (allocation : AllocationStatus) : Z * Z * Z :=
  let backend := pc_Backends pool !! as_SelectedBackend allocation in
  let maxRunners := match backend with Some b => bc_MaxRunners b | None => 0 end in
  let fairShare := pc_FairShare pool in
  let '(maxRunners, tenantQuota) :=
    if fs_Enabled fairShare then
      let tenant := TrimSpace (as_Tenant allocation) in
      let tenant := if String.eqb tenant "" then "default" else tenant in
      (FairShare.EffectiveMaxRunners maxRunners fairShare (as_PriorityClass allocation),
       default 0 (Quota fairShare tenant))
    else (maxRunners, 0) in
  let backendLimit := match backend with Some b => bc_CrossPoolMaxRunners b | None => 0 end in
  let backendLimit :=
    match br_BackendLimits broker !! as_SelectedBackend allocation with
    | Some limit => if (0 <? limit) && ((backendLimit =? 0) || (limit <? backendLimit)) then limit else backendLimit
    | None => backendLimit
    end in
  (maxRunners, tenantQuota, backendLimit).

Definition saveReservedAllocation s (allocation : AllocationStatus) pool : option error * Service S :=
  let '(maxRunners, tenantQuota, backendLimit) := save_limits pool allocation in
  let '(err, st) := store_SaveIfCapacity (sv_store s) allocation maxRunners tenantQuota backendLimit in
  (err, { s with sv_store := st }).
End Filters.
