(* ===== verification/ServiceTheory.v ===== *)
(** The ledger of the allocation service: scheduler slots and allocation
    records agree.

    [Ledger] is the invariant; the lemmas follow it through each change of a
    record and through the lifecycle operations of Service.v.  The store is any
    [ReliableStore]: one whose operations do what they are asked, such as the
    memory store. *)

From S2P Require Import Prelude Errors Model Store StoreTheory Scheduler SchedulerTheory FairShare FairShareTheory.
From S2P Require Import Registry Backends Budget Capacity Admission JobRetry TierPolicy ServicePolicy Service.
From S2P Require Import ServiceFilters.

(** ** Stores that never fail *)

Definition agrees {S R} (contents : S → Allocations) (r : R * S) (spec : R * Memory.Memory) : Prop :=
  r.1 = spec.1 ∧ contents r.2 = Memory.allocations spec.2.

Class ReliableStore `{GoRange} (S : Type) `{!AllocationStore S, !AdmissionStateStore S} := {
  reliable_laws :: AllocationStoreLaws S;
  reliable_save st status :
    agrees contents (store_Save st status) (Memory.Save (spec_store (contents st)) status);
  reliable_delete st id : agrees contents (store_Delete st id) (Memory.Delete (spec_store (contents st)) id);
  reliable_mark st id state now message :
    agrees contents (store_MarkState st id state now message)
      (Memory.MarkState (spec_store (contents st)) id state now message);
  reliable_compare_and_mark st id from to now message :
    agrees contents (store_CompareAndMarkState st id from to now message)
      (Memory.CompareAndMarkState (spec_store (contents st)) id from to now message);
  reliable_save_if_state st status from :
    agrees contents (store_SaveIfState st status from) (Memory.SaveIfState (spec_store (contents st)) status from);
  reliable_save_if_capacity st status maxRunners tenantQuota backendLimit :
    agrees contents (store_SaveIfCapacity st status maxRunners tenantQuota backendLimit)
      (Memory.SaveIfCapacity (spec_store (contents st)) status maxRunners tenantQuota backendLimit);
  reliable_prune st now retention :
    agrees contents (store_PruneTerminal st now retention) (Memory.PruneTerminal (spec_store (contents st)) now retention);
  reliable_admission st doc : contents (SaveAdmissionState st doc) = contents st;
}.

#[export] Instance memory_reliable `{GoRange} : ReliableStore Memory.Memory.
Proof.
  split; [exact _|..]; intros; try done; unfold agrees.
  - cbn. store_op Memory.MarkState. by case_match.
  - cbn. store_op Memory.CompareAndMarkState. by repeat case_match.
  - cbn. store_op Memory.SaveIfState. by repeat case_match.
  - cbn. store_op Memory.SaveIfCapacity. by repeat case_match.
  - cbn. store_op Memory.PruneTerminal. by repeat case_match.
Qed.

(** ** Lanes *)

(** The slot a record accounts for. *)
Definition lane_of (status : AllocationStatus) : option (PoolName * BackendName) :=
  if isSchedulerAccountedState (as_State status) then Some (as_Pool status, as_SelectedBackend status) else None.

Definition lane_at (m : Allocations) (id : string) : option (PoolName * BackendName) := m !! id ≫= lane_of.

Definition held (m : Allocations) (p : PoolName) (b : BackendName) : Z := countActiveLocked m p b "".

Definition ind (lane : option (PoolName * BackendName)) (p : PoolName) (b : BackendName) : Z :=
  if decide (lane = Some (p, b)) then 1 else 0.

Lemma counts_active_lane p b id status :
  (if counts_active p b "" id status then 1 else 0) = ind (lane_of status) p b.
Proof.
  unfold counts_active, excluded, ind, lane_of. cbn [negb String.eqb andb].
  destruct (String.eqb_spec (as_Pool status) p), (String.eqb_spec (as_SelectedBackend status) b); cbn [negb orb];
    destruct (isSchedulerAccountedState _); case_decide; simplify_eq; done.
Qed.

Lemma held_insert m id status p b :
  held (<[id := status]> m) p b = held m p b - ind (lane_at m id) p b + ind (lane_of status) p b.
Proof.
  unfold held, countActiveLocked, count_map, lane_at. rewrite sum_map_insert.
  destruct (m !! id) as [old|] eqn:Hold; cbn [mbind option_bind]; cbv beta.
  - rewrite (sum_map_delete _ m id old Hold). cbv beta. rewrite !counts_active_lane. lia.
  - rewrite counts_active_lane, delete_id by done. unfold ind at 2. rewrite decide_False by done. lia.
Qed.

Lemma held_delete m id p b : held (delete id m) p b = held m p b - ind (lane_at m id) p b.
Proof.
  unfold held, countActiveLocked, count_map, lane_at. destruct (m !! id) as [old|] eqn:Hold; cbn [mbind option_bind].
  - rewrite (sum_map_delete _ m id old Hold). cbv beta. rewrite counts_active_lane. lia.
  - rewrite delete_id by done. unfold ind. rewrite decide_False by done. lia.
Qed.

Lemma held_pos m id p b : lane_at m id = Some (p, b) → 0 < held m p b.
Proof.
  intros Hl. pose proof (held_delete m id p b) as Hd. rewrite Hl in Hd. unfold ind in Hd. rewrite decide_True in Hd by done.
  assert (0 ≤ held (delete id m) p b) by apply count_map_nonneg. lia.
Qed.

Lemma held_empty p b : held ∅ p b = 0.
Proof. unfold held, countActiveLocked, count_map. by rewrite sum_map_empty. Qed.

Lemma lane_at_None m id : m !! id = None → lane_at m id = None.
Proof. unfold lane_at. by intros ->. Qed.

Lemma lane_at_Some m id status : m !! id = Some status → lane_at m id = lane_of status.
Proof. unfold lane_at. by intros ->. Qed.

Lemma lane_mark status state now message :
  lane_of (applyMarkState status state now message) =
    if isSchedulerAccountedState state then Some (as_Pool status, as_SelectedBackend status) else None.
Proof. unfold lane_of. by destruct (applyMarkState_lane status state now message) as (-> & -> & ->). Qed.

(** ** Pools *)

Lemma find_pool_name name pools pool : find_pool name pools = Some pool → pc_Name pool = name.
Proof.
  induction pools as [|p pools IH]; cbn; [done|]. destruct (String.eqb_spec (pc_Name p) name); [by intros [= <-]|done].
Qed.

(** A resolved pool resolves to itself by its name. *)
Lemma resolvePool_self cfg name pool : resolvePool cfg name = Ok pool → resolvePool cfg (pc_Name pool) = Ok pool.
Proof.
  unfold resolvePool. set (name' := if String.eqb name "" then _ else name).
  destruct (find_pool name' (bk_Pools cfg)) as [found|] eqn:Hf; [|done].
  pose proof (find_pool_name _ _ _ Hf) as Hn. intros Hr.
  assert (Hname : pc_Name pool = name') by (destruct (0 <? _)%nat; injection Hr as <-; done).
  rewrite Hname. destruct (String.eqb_spec name' "") as [He|He].
  - assert (Hd : br_DefaultPool (bk_Broker cfg) = "").
    { subst name'. destruct (String.eqb_spec name ""); [done|congruence]. }
    by rewrite Hd, <- He, Hf.
  - by rewrite Hf.
Qed.

Lemma resolvePool_name cfg name pool : resolvePool cfg name = Ok pool → name ≠ "" → pc_Name pool = name.
Proof.
  unfold resolvePool. intros Hr Hne. destruct (String.eqb_spec name ""); [done|].
  destruct (find_pool name (bk_Pools cfg)) as [found|] eqn:Hf; [|done].
  pose proof (find_pool_name _ _ _ Hf). destruct (0 <? _)%nat; by injection Hr as <-.
Qed.

Lemma resolvePool_unique cfg pool pool' :
  resolvePool cfg (pc_Name pool) = Ok pool → resolvePool cfg (pc_Name pool') = Ok pool' → pc_Name pool = pc_Name pool' → pool = pool'.
Proof. intros H1 H2 He. rewrite He in H1. congruence. Qed.

(** ** Slots *)

Abbreviation slot_counts := (scheduler_kind → PoolName → BackendName → Z) (only parsing).

Definition slots `{GoRange} {S} (s : Service S) : slot_counts := kind_active (sv_scheds s).

Definition nonneg (out : slot_counts) : Prop := ∀ k p b, 0 ≤ out k p b.

Definition at_slot (pool : PoolConfig) (b : BackendName) (k : scheduler_kind) (p : PoolName) (b' : BackendName) : Prop :=
  k = pool_kind pool ∧ pc_Name pool = p ∧ b = b'.

#[export] Instance at_slot_dec pool b k p b' : base.Decision (at_slot pool b k p b').
Proof. unfold at_slot. apply _. Defined.

(** Narrowing a pool's backends changes neither its name nor its scheduler. *)
Definition same_pool (pool pool' : PoolConfig) : Prop := pool_kind pool = pool_kind pool' ∧ pc_Name pool = pc_Name pool'.

#[export] Instance same_pool_equiv : Equivalence same_pool.
Proof. unfold same_pool. split; [done|intros ?? []; done|intros ??? [] []; split; congruence]. Qed.

Lemma same_pool_with_backends pool backends : same_pool (with_backends pool backends) pool.
Proof. done. Qed.

Lemma at_slot_same pool pool' b k p b' : same_pool pool pool' → at_slot pool b k p b' ↔ at_slot pool' b k p b'.
Proof. unfold at_slot. intros [-> ->]. done. Qed.

Section Slots.
Context `{GoRange} {S : Type} `{!AllocationStore S, !AdmissionStateStore S}.
Implicit Types (s : Service S).

(** Case analysis on the instance a call goes to, and the one that is read. *)
Ltac slot_cases k He :=
  unfold tset, set in *; destruct k;
  cbn [kind_active sv_scheds roundRobin weightedRoundRobin priorityFairShare gafu_field_updater
       RecordSettersUsingExistingGetters.const] in *;
  repeat case_decide; unfold at_slot, pool_kind in *; rewrite ?He in *; destruct_and?; simplify_eq;
  first [lia | exfalso; naive_solver].

(** A scheduling call on a pool's instance moves its own count only. *)
Lemma reserveScheduled_slots s pool request now k p b' :
  slots (reserveScheduled s pool request now).2 k p b' =
    slots s k p b' + match (reserveScheduled s pool request now).1 with
                     | Ok b => if decide (at_slot pool b k p b') then 1 else 0
                     | Fail _ => 0
                     end.
Proof.
  unfold reserveScheduled, slots. destruct (fs_Enabled (pc_FairShare pool)) eqn:He.
  - pose proof (active_after_reserve (priorityFairShare (sv_scheds s)) pool request now p b') as Ha.
    destruct (Reserve _ pool request now) as [[b|e] f]; cbn [fst snd] in *; slot_cases k He.
  - pose proof (Registry_Reserve_counts (sv_scheds s) pool request now k p b') as Ha.
    destruct (Registry_Reserve _ pool request now) as [[b|e] r]; cbn [fst snd] in *; slot_cases k He.
Qed.

Lemma reserveScheduled_frame s pool request now :
  sv_store (reserveScheduled s pool request now).2 = sv_store s ∧
  sv_nextID (reserveScheduled s pool request now).2 = sv_nextID s.
Proof.
  unfold reserveScheduled. destruct (fs_Enabled _).
  - by destruct (Reserve _ _ _ _).
  - by destruct (Registry_Reserve _ _ _ _).
Qed.

Lemma reserveScheduled_granted s pool request now b :
  (reserveScheduled s pool request now).1 = Ok b →
  is_Some (pc_Backends pool !! b) ∧ (ar_Backend request = None ∨ ar_Backend request = Some b).
Proof.
  unfold reserveScheduled, Registry_Reserve. intros Hr.
  assert (Hl : ∀ {T} `{SchedulerLedger T} (t : T), (Reserve t pool request now).1 = Ok b →
    is_Some (pc_Backends pool !! b) ∧ (ar_Backend request = None ∨ ar_Backend request = Some b)).
  { intros T ?? t Ht. destruct (Reserve t pool request now) as [r t'] eqn:He. cbn in Ht. subst r.
    apply reserve_granted in He as (c & Hc & Hp & _). split; [by eexists|done]. }
  destruct (fs_Enabled _).
  - apply (Hl _ _ _ (priorityFairShare (sv_scheds s))). by destruct (Reserve _ _ _ _).
  - destruct (ForPool pool).
    + apply (Hl _ _ _ (roundRobin (sv_scheds s))). by destruct (Reserve _ _ _ _).
    + apply (Hl _ _ _ (weightedRoundRobin (sv_scheds s))). by destruct (Reserve _ _ _ _).
    + apply (Hl _ _ _ (priorityFairShare (sv_scheds s))). by destruct (Reserve _ _ _ _).
Qed.

Lemma release_slot_slots s pool b allocation now k p b' :
  slots (release_slot s pool b allocation now) k p b' =
    slots s k p b' - (if decide (at_slot pool b k p b') then (if 0 <? slots s k p b' then 1 else 0) else 0).
Proof.
  unfold release_slot, slots. destruct (fs_Enabled (pc_FairShare pool)) eqn:He.
  - pose proof (active_after_release (priorityFairShare (sv_scheds s)) (pc_Name pool) b allocation now p b') as Ha.
    slot_cases k He.
  - pose proof (Registry_Release_counts (sv_scheds s) pool b allocation now k p b') as Ha. slot_cases k He.
Qed.

Lemma release_slot_frame s pool b allocation now :
  sv_store (release_slot s pool b allocation now) = sv_store s ∧
  sv_nextID (release_slot s pool b allocation now) = sv_nextID s.
Proof. unfold release_slot. by case_match. Qed.

Lemma backendActiveCount_slots s pool b : backendActiveCount s pool b = slots s (pool_kind pool) (pc_Name pool) b.
Proof.
  unfold backendActiveCount, slots, pool_kind. destruct (fs_Enabled _); [done|]. apply Registry_Active_kind.
Qed.
End Slots.

(** ** The ledger *)

Section Ledger.
Context (cfg : BrokerConfig) (ids : nat → string).
Implicit Types (m : Allocations) (act : scheduler_kind → PoolName → BackendName → Z).

(** Records are filed under their identifier, identifiers not drawn yet are
    unused, a record names its pool as the configuration does, and for every
    configured pool and backend the scheduler that serves the pool counts as
    many slots as there are reserved, ready and warm records. *)
Record Ledger act m (next : nat) : Prop := {
  led_ids : ∀ id status, m !! id = Some status → as_ID status = id;
  led_fresh : ∀ n, (next ≤ n)%nat → m !! ids n = None;
  led_pools : ∀ id status pool, m !! id = Some status → isSchedulerAccountedState (as_State status) = true →
    resolvePool cfg (as_Pool status) = Ok pool → pc_Name pool = as_Pool status;
  led_slots : ∀ pool b, resolvePool cfg (pc_Name pool) = Ok pool →
    act (pool_kind pool) (pc_Name pool) b = held m (pc_Name pool) b;
  led_nonneg : ∀ k p b, 0 ≤ act k p b;
}.

Definition take act pool b : scheduler_kind → PoolName → BackendName → Z :=
  fun k p b' => act k p b' + (if decide (at_slot pool b k p b') then 1 else 0).
Definition give act pool b : scheduler_kind → PoolName → BackendName → Z :=
  fun k p b' => act k p b' - (if decide (at_slot pool b k p b') then (if 0 <? act k p b' then 1 else 0) else 0).

Lemma give_take act pool b k p b' : 0 ≤ act k p b' → give (take act pool b) pool b k p b' = act k p b'.
Proof. unfold give, take. intros. repeat case_decide; repeat case_match; reflect_bools; lia. Qed.

Lemma ledger_ext act act' m next : Ledger act m next → (∀ k p b, act' k p b = act k p b) → Ledger act' m next.
Proof. intros [Hi Hf Hp Hs Hn] He. split; try done; intros; rewrite He; auto. Qed.

Lemma ledger_agree act act' m next :
  Ledger act m next → (∀ k p b, 0 ≤ act' k p b) →
  (∀ pool b, resolvePool cfg (pc_Name pool) = Ok pool →
     act' (pool_kind pool) (pc_Name pool) b = act (pool_kind pool) (pc_Name pool) b) → Ledger act' m next.
Proof. intros [Hi Hf Hp Hs Hn] Hn' He. split; try done. intros. rewrite He by done. auto. Qed.

Lemma ledger_next act m next next' : Ledger act m next → (next ≤ next')%nat → Ledger act m next'.
Proof. intros [] ?. split; try done. intros n ?. apply led_fresh0. lia. Qed.

(** An identifier that is in use, or was drawn. *)
Definition known (next : nat) (id : string) : Prop := ∀ n, (next ≤ n)%nat → id ≠ ids n.

Lemma known_stored act m next id status : Ledger act m next → m !! id = Some status → known next id.
Proof. intros Hl Hid n Hn ->. by rewrite (led_fresh _ _ _ Hl) in Hid. Qed.

Lemma resolved_lane act m next id status pool :
  Ledger act m next → m !! id = Some status → isSchedulerAccountedState (as_State status) = true →
  resolvePool cfg (as_Pool status) = Ok pool →
  resolvePool cfg (pc_Name pool) = Ok pool ∧ lane_at m id = Some (pc_Name pool, as_SelectedBackend status).
Proof.
  intros Hl Hid Ha Hr. pose proof (led_pools _ _ _ Hl _ _ _ Hid Ha Hr) as Hn.
  split; [by eapply resolvePool_self|]. rewrite (lane_at_Some _ _ _ Hid). unfold lane_of. by rewrite Ha, Hn.
Qed.

(** Storing a record: the slots move with its lane. *)
Lemma ledger_insert act act' m next id status :
  Ledger act m next → known next id → as_ID status = id →
  (∀ pool, isSchedulerAccountedState (as_State status) = true → resolvePool cfg (as_Pool status) = Ok pool →
     pc_Name pool = as_Pool status) →
  (∀ pool b, resolvePool cfg (pc_Name pool) = Ok pool →
     act' (pool_kind pool) (pc_Name pool) b =
       act (pool_kind pool) (pc_Name pool) b - ind (lane_at m id) (pc_Name pool) b + ind (lane_of status) (pc_Name pool) b) →
  (∀ k p b, 0 ≤ act' k p b) →
  Ledger act' (<[id := status]> m) next.
Proof.
  intros Hl Hk Hid Hpools Hact Hn. split.
  - intros i st. rewrite lookup_insert_Some. intros [[<- <-]|[_ Hi]]; [done|by eapply led_ids].
  - intros n Hle. rewrite lookup_insert_ne by (by apply Hk). by eapply led_fresh.
  - intros i st pool. rewrite lookup_insert_Some. intros [[_ <-]|[_ Hi]]; [by apply Hpools|by eapply led_pools].
  - intros pool b Hr. rewrite Hact, held_insert by done. by rewrite (led_slots _ _ _ Hl) by done.
  - done.
Qed.

(** Rewriting a record in its lane. *)
Lemma ledger_keep act m next id status :
  Ledger act m next → known next id → as_ID status = id → lane_of status = lane_at m id →
  Ledger act (<[id := status]> m) next.
Proof.
  intros Hl Hk Hid Hlane. eapply ledger_insert; [done..| | |].
  - intros pool Ha Hr. unfold lane_at in Hlane. destruct (m !! id) as [old|] eqn:Ho; cbn in Hlane.
    + unfold lane_of in Hlane. rewrite Ha in Hlane. destruct (isSchedulerAccountedState (as_State old)) eqn:Hao; [|done].
      injection Hlane as Hp _. rewrite Hp in *. by eapply led_pools.
    + unfold lane_of in Hlane. by rewrite Ha in Hlane.
  - intros pool b _. rewrite Hlane. lia.
  - apply Hl.
Qed.

(** A record that holds a slot stops holding it, and the slot is given back. *)
Lemma ledger_drop act m next id old status pool :
  Ledger act m next → m !! id = Some old → isSchedulerAccountedState (as_State old) = true →
  as_ID status = id → lane_of status = None → resolvePool cfg (as_Pool old) = Ok pool →
  Ledger (give act pool (as_SelectedBackend old)) (<[id := status]> m) next.
Proof.
  intros Hl Ho Ha Hid Hlane Hr. destruct (resolved_lane _ _ _ _ _ _ Hl Ho Ha Hr) as [Hself Hold].
  eapply ledger_insert; [done|by eapply known_stored|done| | |].
  - intros ? Hs. unfold lane_of in Hlane. by rewrite Hs in Hlane.
  - intros pool' b Hr'. rewrite Hlane, Hold. unfold give. rewrite (led_slots _ _ _ Hl) by done.
    destruct (decide (at_slot pool (as_SelectedBackend old) (pool_kind pool') (pc_Name pool') b)) as [(_ & Hn & <-)|Hno].
    + rewrite <- Hn. pose proof (held_pos _ _ _ _ Hold). unfold ind. rewrite decide_True, decide_False by done.
      destruct (Z.ltb_spec 0 (held m (pc_Name pool) (as_SelectedBackend old))); lia.
    + unfold ind. rewrite !decide_False; [lia|done|]. intros [= Hn Hb]. apply Hno.
      by rewrite (resolvePool_unique _ _ _ Hself Hr' Hn).
  - intros k p b. unfold give. pose proof (led_nonneg _ _ _ Hl k p b). case_decide; [|lia]. case_match; reflect_bools; lia.
Qed.

(** The same when the record's pool is no longer configured: no count moves. *)
Lemma ledger_drop_unknown act m next id old status err :
  Ledger act m next → m !! id = Some old → as_ID status = id → lane_of status = None →
  resolvePool cfg (as_Pool old) = Fail err → Ledger act (<[id := status]> m) next.
Proof.
  intros Hl Ho Hid Hlane Hr. eapply ledger_insert; [done|by eapply known_stored|done| | |apply Hl].
  - intros ? Hs. unfold lane_of in Hlane. by rewrite Hs in Hlane.
  - intros pool b Hself. rewrite Hlane, (lane_at_Some _ _ _ Ho). unfold ind, lane_of.
    rewrite !decide_False; [lia|done|]. case_match; [|done]. intros [= Hp _]. rewrite Hp in Hr. congruence.
Qed.

(** A reserved slot gets its record. *)
Lemma ledger_add act m next id status pool b :
  Ledger act m next → known next id → as_ID status = id → lane_at m id = None →
  resolvePool cfg (pc_Name pool) = Ok pool → lane_of status = Some (pc_Name pool, b) →
  Ledger (take act pool b) (<[id := status]> m) next.
Proof.
  intros Hl Hk Hid Hold Hself Hlane. eapply ledger_insert; [done|done|done| | |].
  - intros pool' Ha Hr. unfold lane_of in Hlane. rewrite Ha in Hlane. injection Hlane as Hp _. rewrite Hp in *. congruence.
  - intros pool' b' Hr'. rewrite Hlane, Hold. unfold take. rewrite (led_slots _ _ _ Hl) by done.
    destruct (decide (at_slot pool b (pool_kind pool') (pc_Name pool') b')) as [(_ & Hn & <-)|Hno].
    + unfold ind. rewrite decide_False, decide_True by (by rewrite ?Hn). lia.
    + unfold ind. rewrite !decide_False; [lia| |done]. intros [= Hn Hb]. apply Hno.
      by rewrite (resolvePool_unique _ _ _ Hself Hr' Hn), Hb.
  - intros k p b'. unfold take. pose proof (led_nonneg _ _ _ Hl k p b'). case_decide; lia.
Qed.

Lemma lane_at_delete m id id' : id ≠ id' → lane_at (delete id m) id' = lane_at m id'.
Proof. intros. unfold lane_at. by rewrite lookup_delete_ne. Qed.

(** Forgetting a record that holds no slot. *)
Lemma ledger_delete act m next id : Ledger act m next → lane_at m id = None → Ledger act (delete id m) next.
Proof.
  intros [Hi Hf Hp Hs Hn] Hlane. split; [| | | |done].
  - intros i st Hst. apply lookup_delete_Some in Hst as [_ Hst]. by apply Hi.
  - intros n Hle. rewrite lookup_delete_None. right. by apply Hf.
  - intros i st pool Hst. apply lookup_delete_Some in Hst as [_ Hst]. by eapply Hp.
  - intros pool b Hr. rewrite held_delete, Hlane, Hs by done. unfold ind. rewrite decide_False by done. lia.
Qed.
(** Forgetting a record whose slot is given back. *)
Lemma ledger_drop_delete act m next id old pool :
  Ledger act m next → m !! id = Some old → isSchedulerAccountedState (as_State old) = true →
  resolvePool cfg (as_Pool old) = Ok pool → Ledger (give act pool (as_SelectedBackend old)) (delete id m) next.
Proof.
  intros Hl Ho Ha Hr. set (gone := applyMarkState old StateFailed 0 "").
  assert (Hlane : lane_of gone = None) by (unfold gone; by rewrite lane_mark).
  assert (Hid : as_ID gone = id) by (unfold gone; rewrite applyMarkState_ID; by eapply led_ids).
  rewrite <- (delete_insert_eq m id gone). apply ledger_delete; [by eapply ledger_drop|].
  by rewrite (lane_at_Some _ _ gone) by apply lookup_insert_eq.
Qed.
End Ledger.

Lemma give_same act pool pool' b k p b' : same_pool pool pool' → give act pool b k p b' = give act pool' b k p b'.
Proof. intros Hs. unfold give. pose proof (at_slot_same _ _ b k p b' Hs). repeat case_decide; tauto || done. Qed.

Lemma take_same act pool pool' b k p b' : same_pool pool pool' → take act pool b k p b' = take act pool' b k p b'.
Proof. intros Hs. unfold take. pose proof (at_slot_same _ _ b k p b' Hs). repeat case_decide; tauto || done. Qed.

(** ** Lifecycle operations *)

Section Lifecycle.
Context `{GoRange} {S : Type} `{!AllocationStore S, !AdmissionStateStore S, !ReliableStore S}.
Context (cfg : BrokerConfig) (has_cleanup : BackendName → bool) (ids : nat → string).
Implicit Types (s : Service S) (now : Time).

Definition records s : Allocations := contents (sv_store s).

(** Slots reserved by somebody who has not saved their record yet. *)
Implicit Types (out : slot_counts).

(** The slots that have records, while those of [out] have none yet. *)
Definition net out s : slot_counts := fun k p b => slots s k p b - out k p b.

(** The ledger of a service, apart from the slots of [out]. *)
Definition Inv out s : Prop := Ledger cfg ids (net out s) (records s) (sv_nextID s).

(** Nothing the ledger looks at has changed. *)
Definition frame s s' : Prop :=
  records s' = records s ∧ sv_scheds s' = sv_scheds s ∧ sv_nextID s' = sv_nextID s.

(** One record was stored, and nothing else changed. *)
Definition stored s s' (id : string) (status : AllocationStatus) : Prop :=
  records s' = <[id := status]> (records s) ∧ sv_scheds s' = sv_scheds s ∧ sv_nextID s' = sv_nextID s.

(** How the records outside [exempt] may change while somebody else runs: a
    record that holds a slot either was drawn since, or held the same slot
    before, in the same state unless it was a warm runner. *)
Record evolves_but (exempt : string → Prop) s s' : Prop := {
  ev_next : (sv_nextID s ≤ sv_nextID s')%nat;
  ev_lane : ∀ id status', ¬ exempt id →
    records s' !! id = Some status' → isSchedulerAccountedState (as_State status') = true →
    (∃ n, (sv_nextID s ≤ n)%nat ∧ id = ids n) ∨
    (∃ status, records s !! id = Some status ∧ lane_of status = lane_of status' ∧
       (as_State status' = as_State status ∨ as_State status = StateWarm));
}.

Definition evolves : Service S → Service S → Prop := evolves_but (fun _ => False).

#[export] Instance evolves_but_preorder exempt : PreOrder (evolves_but exempt).
Proof.
  split.
  - intros s. split; [done|]. intros id status _ Hs Ha. right. exists status. auto.
  - intros s1 s2 s3 [Hn1 H1] [Hn2 H2]. split; [lia|]. intros id st3 Hx Hs3 Ha3.
    destruct (H2 _ _ Hx Hs3 Ha3) as [(n & ? & ->)|(st2 & Hs2 & Hl & Hst)]; [left; exists n; split; [lia|done]|].
    assert (Ha2 : isSchedulerAccountedState (as_State st2) = true).
    { revert Hl. unfold lane_of. rewrite Ha3. by case_match. }
    destruct (H1 _ _ Hx Hs2 Ha2) as [?|(st1 & Hs1 & Hl1 & Hst1)]; [by left|]. right. exists st1.
    split_and!; [done|congruence|]. destruct Hst as [->|Hw]; [done|]. destruct Hst1 as [Heq|]; [|by right].
    right. congruence.
Qed.

#[export] Instance evolves_preorder : PreOrder evolves := evolves_but_preorder _.

(** Keeps the ledger, whatever slots others hold without a record, and changes
    records only as [evolves] says. *)
Definition safe s s' : Prop := ∀ out, nonneg out → Inv out s → Inv out s' ∧ evolves s s'.

#[export] Instance safe_preorder : PreOrder safe.
Proof.
  split; [by intros s out ? ?; split|]. intros s1 s2 s3 H12 H23 out Hout H1. destruct (H12 out Hout H1) as [H2 E12].
  destruct (H23 out Hout H2) as [H3 E23]. split; [done|]. by etrans.
Qed.

Lemma frame_refl s : frame s s.
Proof. done. Qed.
Lemma frame_trans s1 s2 s3 : frame s1 s2 → frame s2 s3 → frame s1 s3.
Proof. intros (? & ? & ?) (? & ? & ?). split_and!; congruence. Qed.

Lemma frame_inv out s s' : frame s s' → Inv out s → Inv out s'.
Proof. intros (Hr & Hs & Hn). unfold Inv, net, slots. by rewrite Hr, Hs, Hn. Qed.

Lemma frame_evolves s s' : frame s s' → evolves s s'.
Proof.
  intros (Hr & _ & Hn). split; [lia|]. intros id st _. rewrite Hr. intros. right. exists st. auto.
Qed.

Lemma frame_safe s s' : frame s s' → safe s s'.
Proof. intros Hf out _ Hi. split; [by eapply frame_inv|by apply frame_evolves]. Qed.

Lemma evolves_put s s' id status :
  records s' = <[id := status]> (records s) → (sv_nextID s ≤ sv_nextID s')%nat →
  lane_of status = None ∨ (∃ n, (sv_nextID s ≤ n)%nat ∧ id = ids n) ∨
  (∃ old, records s !! id = Some old ∧ lane_of old = lane_of status ∧
     (as_State status = as_State old ∨ as_State old = StateWarm)) →
  evolves s s'.
Proof.
  intros Hr Hn Hc. split; [done|]. intros i st _. rewrite Hr, lookup_insert_Some. intros [[<- <-]|[_ Hi]] Ha.
  - destruct Hc as [Hl|[?|?]]; [|by left|by right]. unfold lane_of in Hl. by rewrite Ha in Hl.
  - right. exists st. auto.
Qed.

(** *** Effects outside the ledger *)

Lemma notifyLifecycle_frame s status : frame s (notifyLifecycle s status).
Proof. unfold notifyLifecycle. by case_match. Qed.
Lemma notifyLifecycleTerminal_frame s status : frame s (notifyLifecycleTerminal s status).
Proof. unfold notifyLifecycleTerminal. case_match; [apply notifyLifecycle_frame|done]. Qed.
Lemma notifyReady_frame s status : frame s (notifyReady s status).
Proof. unfold notifyReady. case_match; [apply notifyLifecycle_frame|done]. Qed.
Lemma cleanup_frame s allocation : frame s (cleanupAllocation has_cleanup s allocation).
Proof. unfold cleanupAllocation. by case_match. Qed.

(** A call on the admission state leaves the store, or saves a document in it. *)
Definition saves_document (st : S) (shared : option S) : Prop :=
  shared = Some st ∨ ∃ doc, shared = Some (SaveAdmissionState st doc).

Lemma saves_document_contents st shared st' : saves_document st shared → contents (default st' shared) = contents st.
Proof. intros [->|[doc ->]]; [done|apply reliable_admission]. Qed.

Lemma put_admission_frame s result : saves_document (sv_store s) result.2 → frame s (put_admission s result).
Proof. intros Hr. split_and!; [|done|done]. unfold records, put_admission, tset, set. cbn. by apply saves_document_contents. Qed.

Ltac recorded := unfold saves_document; repeat case_match; simplify_eq/=; eauto.

Lemma recordBackendFailureClass_frame s pool b reason now : frame s (recordBackendFailureClass s pool b reason now).
Proof.
  unfold recordBackendFailureClass. case_match; [done|]. case_match; [|done]. apply put_admission_frame.
  unfold recordFailure. recorded.
Qed.
Lemma recordBackendFailure_frame s pool b err now : frame s (recordBackendFailure s pool b err now).
Proof. unfold recordBackendFailure. case_match; [apply recordBackendFailureClass_frame|done]. Qed.
Lemma recordBackendSuccess_frame s pool b now : frame s (recordBackendSuccess s pool b now).
Proof. unfold recordBackendSuccess. case_match; [|done]. apply put_admission_frame. unfold recordSuccess. recorded. Qed.
Lemma recordBudgetUsage_frame s pool b now : frame s (recordBudgetUsage s pool b now).
Proof.
  unfold recordBudgetUsage, Tracker_Record. case_match; [|done]. destruct (bu_Enabled _); [|done]. cbn [negb].
  destruct (ensureCounterLocked _ _ _) as [c t]. 
  destruct (Tracker_Snapshot _ _ _ _ _ _) as [d t']. split_and!; [|done|done].
  unfold records, tset, set. cbn. apply reliable_admission.
Qed.

(** *** Marking, releasing *)

Lemma markState_spec s id state now message :
  match records s !! id with
  | None => (markState s id state now message).1 = None ∧ frame s (markState s id state now message).2
  | Some st =>
      (markState s id state now message).1 = Some (applyMarkState st state now message) ∧
      stored s (markState s id state now message).2 id (applyMarkState st state now message)
  end.
Proof.
  unfold markState. destruct (reliable_mark (sv_store s) id state now message) as [Hr Hc].
  revert Hr Hc. store_op Memory.MarkState. unfold records.
  destruct (store_MarkState _ _ _ _ _) as [r st]. destruct (contents (sv_store s) !! id) as [old|] eqn:Ho; cbn; intros -> Hc.
  - split; [done|]. destruct (notifyLifecycleTerminal_frame { s with sv_store := st } (applyMarkState old state now message))
      as (Hr & Hs & Hn). split_and!; [|done|done]. exact (eq_trans Hr Hc).
  - done.
Qed.

Lemma release_frame s pool b allocation now :
  records (release has_cleanup s pool b allocation now) = records s ∧
  sv_nextID (release has_cleanup s pool b allocation now) = sv_nextID s ∧
  ∀ k p b', slots (release has_cleanup s pool b allocation now) k p b' = give (slots s) pool b k p b'.
Proof.
  unfold release. destruct (cleanup_frame (release_slot s pool b allocation now) allocation) as (Hr & Hs & Hn).
  destruct (release_slot_frame s pool b allocation now) as (Hst & Hn').
  split_and!; [rewrite Hr; unfold records; by rewrite Hst|congruence|].
  intros k p b'. unfold slots. rewrite Hs. apply release_slot_slots.
Qed.

(** Releasing the slot of a record leaves those without records alone. *)
Lemma net_give out s m next id pool b : nonneg out → Ledger cfg ids (net out s) m next →
  resolvePool cfg (pc_Name pool) = Ok pool ∧ lane_at m id = Some (pc_Name pool, b) →
  ∀ k p b', give (slots s) pool b k p b' - out k p b' = give (net out s) pool b k p b'.
Proof.
  intros Hout Hl [Hself Hlane] k p b'. pose proof (led_slots _ _ _ _ _ Hl pool b Hself) as Hs.
  pose proof (held_pos _ _ _ _ Hlane). pose proof (Hout (pool_kind pool) (pc_Name pool) b).
  unfold give. case_decide as Hat; [|unfold net; lia]. destruct Hat as (-> & <- & <-). unfold net in *.
  repeat case_match; reflect_bools; lia.
Qed.

(** A record loses its slot and the slot is released. *)
Lemma drop_safe s s' id old status pool pool' allocation now :
  records s !! id = Some old → isSchedulerAccountedState (as_State old) = true → as_ID status = id → lane_of status = None →
  resolvePool cfg (as_Pool old) = Ok pool → same_pool pool' pool → stored s s' id status →
  safe s (release has_cleanup s' pool' (as_SelectedBackend old) allocation now).
Proof.
  intros Ho Ha Hid Hl Hr Hp (Hrec & Hs & Hn) out Hout Hinv.
  destruct (release_frame s' pool' (as_SelectedBackend old) allocation now) as (Hrec' & Hn' & Hslots). split.
  - unfold Inv. rewrite Hrec', Hn', Hrec, Hn. eapply ledger_ext; [by eapply (ledger_drop cfg ids (net out s))|].
    intros k p b. unfold net at 1. rewrite Hslots, (give_same _ _ _ _ _ _ _ Hp). unfold slots. rewrite Hs.
    eapply net_give; [done|exact Hinv|]. by eapply resolved_lane.
  - eapply evolves_put; [by rewrite Hrec', Hrec|rewrite Hn', Hn; done|by left].
Qed.

Lemma drop_unknown_safe s s' id old status err :
  records s !! id = Some old → as_ID status = id → lane_of status = None →
  resolvePool cfg (as_Pool old) = Fail err → stored s s' id status → safe s s'.
Proof.
  intros Ho Hid Hl Hr (Hrec & Hs & Hn) out Hout Hinv. split.
  - unfold Inv, net, slots. rewrite Hrec, Hn, Hs. by eapply ledger_drop_unknown.
  - eapply evolves_put; [done|lia|by left].
Qed.

(** A record changes within its lane. *)
Lemma keep_safe s s' id status :
  known ids (sv_nextID s) id → as_ID status = id → lane_of status = lane_at (records s) id →
  (∀ old, records s !! id = Some old → isSchedulerAccountedState (as_State old) = true →
     as_State status = as_State old ∨ as_State old = StateWarm) →
  stored s s' id status → safe s s'.
Proof.
  intros Hk Hid Hl Hst (Hrec & Hs & Hn) out Hout Hinv. split.
  - unfold Inv, net, slots. rewrite Hrec, Hn, Hs. by eapply ledger_keep.
  - eapply evolves_put; [done|lia|]. destruct (lane_of status) as [lane|] eqn:Hlane; [|by left]. right. right.
    unfold lane_at in Hl. destruct (records s !! id) as [old|] eqn:Ho; [|done]. cbn in Hl. exists old.
    split_and!; [done|congruence|]. apply Hst; [done|]. revert Hl. unfold lane_of. by case_match.
Qed.
Lemma stored_frame s s1 s2 id status : stored s s1 id status → frame s1 s2 → stored s s2 id status.
Proof. intros (? & ? & ?) (? & ? & ?). split_and!; congruence. Qed.

(** Marking a record with a state that holds no slot. *)
Section Unaccount.
Context s s' (id : string) (old : AllocationStatus) (state : AllocationState) (at_ : Time) (message : string).
Hypothesis (Ho : records s !! id = Some old) (Hst : isSchedulerAccountedState state = false).
Hypothesis (Hs : stored s s' id (applyMarkState old state at_ message)).

Lemma unaccounted_lane : lane_of (applyMarkState old state at_ message) = None.
Proof. by rewrite lane_mark, Hst. Qed.

Lemma marked_ID out : Inv out s → as_ID (applyMarkState old state at_ message) = id.
Proof. intros Hi. rewrite applyMarkState_ID. by eapply led_ids. Qed.

Lemma unaccount_release pool pool' allocation now :
  isSchedulerAccountedState (as_State old) = true → resolvePool cfg (as_Pool old) = Ok pool → same_pool pool' pool →
  safe s (release has_cleanup s' pool' (as_SelectedBackend old) allocation now).
Proof. intros Ha Hr Hp out Hout Hi. eapply (drop_safe s s'); eauto using unaccounted_lane, marked_ID. Qed.

Lemma unaccount_unknown err : resolvePool cfg (as_Pool old) = Fail err → safe s s'.
Proof. intros Hr out Hout Hi. eapply (drop_unknown_safe s s'); eauto using unaccounted_lane, marked_ID. Qed.

Lemma unaccount_idle : isSchedulerAccountedState (as_State old) = false → safe s s'.
Proof.
  intros Ha out Hout Hi. eapply (keep_safe s s' id); [by eapply known_stored|by eapply marked_ID| | |exact Hs|done|done].
  - rewrite unaccounted_lane, (lane_at_Some _ _ _ Ho). unfold lane_of. by rewrite Ha.
  - intros old' Ho' Ha'. congruence.
Qed.
End Unaccount.

(** Releasing a slot nobody holds. *)
Lemma release_idle_safe s pool b allocation now :
  slots s (pool_kind pool) (pc_Name pool) b ≤ 0 → safe s (release has_cleanup s pool b allocation now).
Proof.
  intros Hz out Hout Hi. destruct (release_frame s pool b allocation now) as (Hr & Hn & Hs). split.
  - unfold Inv. rewrite Hr, Hn. eapply ledger_ext; [exact Hi|]. intros k p b'. unfold net. rewrite Hs. unfold give.
    case_decide as Hat; [|lia]. destruct Hat as (-> & <- & <-). case_match; reflect_bools; lia.
  - split; [rewrite Hn; done|]. intros id st. rewrite Hr. intros. right. exists st. auto.
Qed.

Lemma cas_spec s id from to now message :
  let r := store_CompareAndMarkState (sv_store s) id from to now message in
  match records s !! id with
  | Some st =>
      if state_eqb (as_State st) from
      then r.1 = Some (applyMarkState st to now message) ∧ contents r.2 = <[id := applyMarkState st to now message]> (records s)
      else r.1 = None ∧ contents r.2 = records s
  | None => r.1 = None ∧ contents r.2 = records s
  end.
Proof.
  cbn zeta. destruct (reliable_compare_and_mark (sv_store s) id from to now message) as [Hr Hc].
  revert Hr Hc. store_op Memory.CompareAndMarkState. unfold records.
  destruct (contents (sv_store s) !! id) as [st|]; [|done]. by destruct (state_eqb (as_State st) from).
Qed.

Lemma get_records s id : store_Get (sv_store s) id = records s !! id.
Proof. apply get_law. Qed.

Lemma terminal_unaccounted state : isTerminalAllocationState state = true → isSchedulerAccountedState state = false.
Proof. by destruct state. Qed.

(** *** Cancel *)

(** Cancelling a queued record that names a backend releases a slot it does not
    hold: excluded unless the backend is idle. *)
Definition cancel_ok s (id : string) : bool :=
  match store_Get (sv_store s) id with
  | None => true
  | Some status =>
      isTerminalAllocationState (as_State status) || isSchedulerAccountedState (as_State status) ||
      match resolvePool cfg (as_Pool status) with
      | Ok pool => backendActiveCount s pool (as_SelectedBackend status) <=? 0
      | Fail _ => true
      end
  end.

Lemma Cancel_safe rounds s id now : cancel_ok s id = true →
  ∃ r s', Cancel cfg has_cleanup (Datatypes.S rounds) s id now = Some (r, s') ∧ safe s s'.
Proof.
  intros Hok. cbn [Cancel]. unfold cancel_ok in Hok. rewrite get_records in *.
  destruct (records s !! id) as [st|] eqn:Ho; [|eexists _, _; split; [done|by apply frame_safe]].
  destruct (isTerminalAllocationState (as_State st)) eqn:Ht; [eexists _, _; split; [done|by apply frame_safe]|].
  pose proof (cas_spec s id (as_State st) StateCanceled now "") as Hc. cbn zeta in Hc. rewrite Ho in Hc.
  unfold state_eqb in Hc. rewrite bool_decide_true in Hc by done. destruct Hc as [Hr Hc].
  destruct (store_CompareAndMarkState _ _ _ _ _ _) as [r st']. cbn in Hr, Hc. subst r.
  set (updated := applyMarkState st StateCanceled now "") in *.
  set (s1 := notifyLifecycleTerminal { s with sv_store := st' } updated).
  assert (Hs : stored s s1 id updated) by (eapply stored_frame; [|apply notifyLifecycleTerminal_frame]; done).
  destruct (applyMarkState_lane st StateCanceled now "") as (_ & Hp & Hb). fold updated in Hp, Hb. rewrite Hp, Hb.
  destruct (resolvePool cfg (as_Pool st)) as [pool|err] eqn:Hpool; (eexists _, _; split; [done|]).
  - destruct (isSchedulerAccountedState (as_State st)) eqn:Ha.
    + by apply (unaccount_release s s1 id st StateCanceled now "") with (pool := pool).
    + etrans; [by apply (unaccount_idle s s1 id st StateCanceled now "")|]. apply release_idle_safe. cbn [orb] in Hok.
      rewrite backendActiveCount_slots in Hok. destruct Hs as (_ & Hsch & _). unfold slots in *. rewrite Hsch.
      by apply Z.leb_le.
  - by apply (unaccount_unknown s s1 id st StateCanceled now "") with (err := err).
Qed.

(** *** Complete *)

(** Completing a warm record keeps its slot: excluded. *)
Definition complete_ok s (id : string) : bool :=
  match store_Get (sv_store s) id with
  | None => true
  | Some status => negb (state_eqb (as_State status) StateWarm)
  end.

Lemma parseCompletionState_terminal request state message :
  parseCompletionState request = Ok (state, message) → isTerminalAllocationState state = true.
Proof. unfold parseCompletionState. intros Hp. repeat case_match; simplify_eq; done. Qed.

Lemma active_accounted state : isActiveAllocationState state = true → isSchedulerAccountedState state = true.
Proof. by destruct state. Qed.

Lemma Complete_safe s id request now : complete_ok s id = true → safe s (Complete cfg has_cleanup s id request now).2.
Proof.
  unfold complete_ok, Complete. rewrite get_records. destruct (records s !! id) as [st|] eqn:Ho; [|by intros; apply frame_safe].
  intros Hw. destruct (parseCompletionState request) as [[target message]|] eqn:Hp; [|by apply frame_safe].
  apply parseCompletionState_terminal, terminal_unaccounted in Hp.
  destruct (isTerminalAllocationState (as_State st)) eqn:Ht; [by case_match; apply frame_safe|].
  destruct (state_eqb (as_State st) target); [by apply frame_safe|].
  set (message' := if String.eqb _ _ then _ else _).
  pose proof (markState_spec s id target now message') as Hm. rewrite Ho in Hm. destruct Hm as [Hr Hs].
  destruct (markState s id target now message') as [r s1]. cbn in Hr, Hs. subst r. cbn [snd].
  destruct (isActiveAllocationState (as_State st)) eqn:Ha.
  - apply active_accounted in Ha. destruct (resolvePool cfg (as_Pool st)) as [pool|err] eqn:Hpool.
    + assert (safe s (release has_cleanup s1 pool (as_SelectedBackend st) st now)) by (by apply (unaccount_release s s1 id st target now message') with (pool := pool)).
      case_match; [|done]. etrans; [done|]. apply frame_safe, recordBackendFailureClass_frame.
    + by apply (unaccount_unknown s s1 id st target now message') with (err := err).
  - apply (unaccount_idle s s1 id st target now message'); [done..|]. destruct (as_State st); done.
Qed.

(** *** Claim and Register *)

Lemma save_spec s status : (store_Save (sv_store s) status).1 = None ∧
  contents (store_Save (sv_store s) status).2 = <[as_ID status := status]> (records s).
Proof. exact (reliable_save (sv_store s) status). Qed.

Lemma save_runner_safe s id old status :
  records s !! id = Some old → as_ID status = as_ID old → lane_of status = lane_of old → as_State status = as_State old →
  safe s (save_runner s status).2.
Proof.
  intros Ho Hid Hl Hst. unfold save_runner. destruct (save_spec s status) as [Hr Hc].
  destruct (store_Save _ _) as [r st]. cbn in Hr, Hc. subst r. cbn [snd]. intros out Hout Hi.
  assert (Hid' : as_ID status = id) by (rewrite Hid; by eapply led_ids). rewrite Hid' in Hc.
  eapply (keep_safe s _ id); [by eapply known_stored|done| | |split_and!; done|done|done].
  - by rewrite (lane_at_Some _ _ _ Ho).
  - intros old' Ho' _. left. congruence.
Qed.

Lemma Claim_safe s id now : safe s (Claim s id now).2.
Proof.
  unfold Claim. rewrite get_records. destruct (records s !! id) as [st|] eqn:Ho; [|by apply frame_safe].
  case_match; [by apply frame_safe|]. by eapply save_runner_safe.
Qed.

Lemma Register_safe s id now : safe s (Register s id now).2.
Proof.
  unfold Register. rewrite get_records. destruct (records s !! id) as [st|] eqn:Ho; [|by apply frame_safe].
  case_match; [by apply frame_safe|]. by eapply save_runner_safe.
Qed.
(** *** Pruning *)

Lemma ledger_delete_all act m next doomed :
  (∀ id, id ∈ doomed → lane_at m id = None) → Ledger cfg ids act m next → Ledger cfg ids act (delete_all doomed m) next.
Proof.
  unfold delete_all. revert m. induction doomed as [|id doomed IH]; intros m Hd Hl; cbn [foldl]; [done|].
  apply IH.
  - intros id' Hid'. unfold lane_at. destruct (decide (id = id')) as [->|Hne]; [by rewrite lookup_delete_eq|].
    rewrite lookup_delete_ne by done. apply Hd. by right.
  - apply ledger_delete; [done|]. apply Hd. by left.
Qed.

Lemma prunable_lane cutoff status : prunable cutoff status = true → lane_of status = None.
Proof. unfold prunable, lane_of. destruct (as_State status); done. Qed.

Lemma prune_safe s now : safe s (pruneFinishedAllocations cfg s now).2.
Proof.
  unfold pruneFinishedAllocations. set (retention := EffectiveRetention _).
  destruct (retention <=? 0) eqn:Hret; [by apply frame_safe|].
  destruct (reliable_prune (sv_store s) now retention) as [_ Hc]. revert Hc.
  destruct (store_PruneTerminal _ _ _) as [r st]. unfold Memory.PruneTerminal. rewrite Hret, spec_store_allocations. cbn.
  set (doomed := collectPrunableIDs (contents (sv_store s)) now retention). intros Hc out Hout Hi.
  split.
  - unfold Inv, net, records, tset, set. cbn. rewrite Hc. apply ledger_delete_all; [|exact Hi].
    intros id (_ & status & Hs & Hp)%collectPrunableIDs_in. rewrite (lane_at_Some _ _ _ Hs). by eapply prunable_lane.
  - split; [done|]. intros id status _. unfold records, tset, set. cbn. rewrite Hc, lookup_delete_all. case_decide; [done|].
    intros Hs _. right. exists status. auto.
Qed.

(** *** The sweep *)

(** What a step does to the other records. *)
Definition touches s s' (id : string) : Prop := ∀ id', id' ≠ id → records s' !! id' = records s !! id'.

Lemma stored_touches s s' id status : stored s s' id status → touches s s' id.
Proof. intros (Hr & _) id' Hne. rewrite Hr. by rewrite lookup_insert_ne. Qed.

Lemma touches_trans s1 s2 s3 id : touches s1 s2 id → records s3 = records s2 → touches s1 s3 id.
Proof. intros Ht He id' Hne. rewrite He. by apply Ht. Qed.

Lemma sweep_release_safe s s1 st state at_ message now :
  records s !! as_ID st = Some st → isSchedulerAccountedState (as_State st) = true → isSchedulerAccountedState state = false →
  stored s s1 (as_ID st) (applyMarkState st state at_ message) →
  safe s (sweep_release cfg has_cleanup s1 st now) ∧ touches s (sweep_release cfg has_cleanup s1 st now) (as_ID st).
Proof.
  intros Ho Ha Hst Hs. unfold sweep_release. destruct (resolvePool cfg (as_Pool st)) as [pool|err] eqn:Hp.
  - set (s2 := release _ s1 _ _ _ _).
    pose proof (recordBackendFailureClass_frame s2 pool (as_SelectedBackend st) FailureReasonWaitTimeout now) as Hf. split.
    + etrans; [|by apply frame_safe]. by apply (unaccount_release s s1 (as_ID st) st state at_ message) with (pool := pool).
    + eapply touches_trans; [by eapply stored_touches|]. destruct Hf as [Hf _]. rewrite Hf. apply release_frame.
  - split.
    + etrans; [|apply frame_safe, cleanup_frame]. by apply (unaccount_unknown s s1 (as_ID st) st state at_ message) with (err := err).
    + eapply touches_trans; [by eapply stored_touches|]. apply cleanup_frame.
Qed.

Lemma reap_as_unaccounted now : isSchedulerAccountedState (reap_as cfg now).1.1 = false.
Proof. unfold reap_as. by case_match. Qed.

Lemma sweep_one_safe now s n st : records s !! as_ID st = Some st →
  safe s (sweep_one cfg has_cleanup now (s, n) st).1 ∧ touches s (sweep_one cfg has_cleanup now (s, n) st).1 (as_ID st).
Proof.
  intros Ho. unfold sweep_one. assert (Hidle : safe s s ∧ touches s s (as_ID st)) by (split; [by apply frame_safe|done]).
  assert (Hm : ∀ state at_ message, (markState s (as_ID st) state at_ message).1 = Some (applyMarkState st state at_ message) ∧
    stored s (markState s (as_ID st) state at_ message).2 (as_ID st) (applyMarkState st state at_ message)).
  { intros. pose proof (markState_spec s (as_ID st) state at_ message) as Hm. by rewrite Ho in Hm. }
  destruct (isActiveAllocationState (as_State st)) eqn:Ha.
  - apply active_accounted in Ha. destruct (registration_overdue _ _ _) as [message|].
    + destruct (Hm StateExpired now message) as [Hr Hs]. destruct (markState _ _ _ _ _) as [r s1]. cbn in Hr, Hs. subst r. cbn [fst].
      destruct (sweep_release_safe s s1 st StateExpired now message now) as [Hsafe Ht]; [done..|].
      split; [etrans; [exact Hsafe|by apply frame_safe]|exact Ht].
    + destruct (negb _); [done|]. pose proof (reap_as_unaccounted now) as Hu.
      destruct (reap_as cfg now) as [[state at_] message]. cbn in Hu. destruct (Hm state at_ message) as [Hr Hs].
      destruct (markState _ _ _ _ _) as [r s1]. cbn in Hr, Hs. subst r. cbn [fst]. by eapply sweep_release_safe.
  - destruct (state_eqb _ _) eqn:Hq; cbn [negb]; [|done]. destruct (After _ _); [done|].
    destruct (Hm StateExpired now "stale runner label quarantine expired") as [Hr Hs].
    destruct (markState _ _ _ _ _) as [r s1]. cbn in Hr, Hs. subst r. cbn [fst]. split.
    + etrans; [|apply frame_safe, cleanup_frame].
      apply (unaccount_idle s s1 (as_ID st) st StateExpired now "stale runner label quarantine expired"); [done..|].
      apply bool_decide_eq_true in Hq. by rewrite Hq.
    + eapply touches_trans; [by eapply stored_touches|]. apply cleanup_frame.
Qed.

(** Records listed once each, all current, are visited independently. *)
Definition listed s (l : list AllocationStatus) : Prop :=
  NoDup (as_ID <$> l) ∧ ∀ st, st ∈ l → records s !! as_ID st = Some st.

Lemma listed_touches s s' st l : listed s (st :: l) → touches s s' (as_ID st) → listed s' l.
Proof.
  intros [Hnd Hin] Ht. cbn in Hnd. apply NoDup_cons in Hnd as [Hni Hnd]. split; [done|]. intros st' Hst'.
  rewrite Ht; [apply Hin; by right|]. intros He. apply Hni. rewrite <- He. by apply list_elem_of_fmap_2.
Qed.

Lemma listed_filed s : (∀ id st, records s !! id = Some st → as_ID st = id) → listed s (store_List (sv_store s)).
Proof.
  intros Hids. split.
  - rewrite (list_law (sv_store s)). rewrite <- list_fmap_compose.
    rewrite (list_fmap_ext _ fst _ ); [apply NoDup_fst_map_to_list|].
    intros i [id st] Hl%list_elem_of_lookup_2%elem_of_map_to_list. by apply Hids.
  - intros st Hst. rewrite (list_law (sv_store s)) in Hst. apply list_elem_of_fmap in Hst as ([id st'] & -> & Hl%elem_of_map_to_list).
    cbn. by rewrite (Hids _ _ Hl).
Qed.

Lemma listed_store out s : Inv out s → listed s (store_List (sv_store s)).
Proof. intros Hi. apply listed_filed, Hi. Qed.

Lemma sweep_fold_safe now l : ∀ s n, listed s l → safe s (foldl (sweep_one cfg has_cleanup now) (s, n) l).1.
Proof.
  induction l as [|st l IH]; intros s n Hl; cbn [foldl]; [by apply frame_safe|].
  destruct (sweep_one_safe now s n st) as [Hs Ht]; [apply Hl; by left|].
  destruct (sweep_one cfg has_cleanup now (s, n) st) as [s1 n1]. cbn [fst] in Hs, Ht.
  etrans; [exact Hs|]. apply IH. by eapply listed_touches.
Qed.

Lemma SweepExpired_safe s now : safe s (SweepExpired cfg has_cleanup s now).2.
Proof.
  intros out Hout Hi. pose proof (sweep_fold_safe now _ s 0 (listed_store out s Hi)) as Hf. unfold SweepExpired.
  destruct (foldl _ _ _) as [s1 n1]. cbn [fst] in Hf. assert (Hs : safe s (pruneFinishedAllocations cfg s1 now).2).
  { etrans; [exact Hf|apply prune_safe]. }
  destruct (pruneFinishedAllocations cfg s1 now) as [[p|e] s2]; by apply Hs.
Qed.
(** *** Rehydration *)

(** The slots of the records still to be visited. *)
Definition rest (l : list AllocationStatus) (p : PoolName) (b : BackendName) : Z :=
  sum_of (fun st => ind (lane_of st) p b) l.

Lemma ind_nonneg lane p b : 0 ≤ ind lane p b.
Proof. unfold ind. case_decide; lia. Qed.

Lemma rest_nonneg l p b : 0 ≤ rest l p b.
Proof. apply sum_of_nonneg. intros. apply ind_nonneg. Qed.

(** Rehydration under way: the slots taken and those of the records to come make a ledger. *)
Definition rehydrating s (l : list AllocationStatus) : Prop :=
  Ledger cfg ids (fun k p b => slots s k p b + rest l p b) (records s) (sv_nextID s) ∧
  (∀ k p b, 0 ≤ slots s k p b) ∧ listed s l ∧ records s !! "" = None.

Lemma rehydrate_expire s st l now reason :
  rehydrating s (st :: l) → isSchedulerAccountedState (as_State st) = true →
  let s' := expireUnrehydratableAllocation s st now reason in
  rehydrating s' l ∧ ∃ st', records s' = <[as_ID st := st']> (records s) ∧ isTerminalAllocationState (as_State st') = true.
Proof.
  intros (Hl & Hn & Hlist & Hblank) Ha. cbn zeta. unfold expireUnrehydratableAllocation.
  assert (Ho : records s !! as_ID st = Some st) by (apply Hlist; left).
  destruct (String.eqb_spec (as_ID st) "") as [He|Hne]; [congruence|].
  set (target := if state_eqb (as_State st) StateWarm then StateFailed else StateExpired).
  assert (Hterm : isTerminalAllocationState target = true) by (subst target; by case_match).
  pose proof (markState_spec s (as_ID st) target now reason) as Hm. rewrite Ho in Hm. destruct Hm as [_ Hs].
  set (s' := (markState s (as_ID st) target now reason).2) in *. pose proof Hs as (Hr & Hsch & Hnx).
  split; [|eexists; split; [exact Hr|]; by destruct (applyMarkState_lane st target now reason) as (-> & _)].
  split_and!.
  - rewrite Hr, Hnx. eapply ledger_insert; [exact Hl|by eapply known_stored|by rewrite applyMarkState_ID| | |].
    + intros pool Hacc. destruct (applyMarkState_lane st target now reason) as (Hst & _ & _). rewrite Hst in Hacc.
      rewrite (terminal_unaccounted _ Hterm) in Hacc. done.
    + intros pool b _. unfold slots. rewrite Hsch, (lane_at_Some _ _ _ Ho), lane_mark, (terminal_unaccounted _ Hterm).
      unfold rest. rewrite sum_of_cons. assert (ind None (pc_Name pool) b = 0) as -> by done. lia.
    + intros k p b. unfold slots. rewrite Hsch. pose proof (Hn k p b). pose proof (rest_nonneg l p b). unfold slots in *. lia.
  - intros k p b. unfold slots. rewrite Hsch. apply Hn.
  - eapply listed_touches; [exact Hlist|by eapply stored_touches].
  - rewrite Hr, lookup_insert_ne; done.
Qed.

Lemma rehydrate_pool_same pool : same_pool (rehydrate_pool pool) pool.
Proof.
  unfold rehydrate_pool, same_pool, pool_kind. destruct (fs_Enabled (pc_FairShare pool)) eqn:He; cbn [andb]; [|by rewrite He].
  destruct (0 <? size _)%nat; [|by rewrite He]. unfold tset, set. cbn. by rewrite He.
Qed.

Lemma rehydrate_reserved s s' st l pool :
  rehydrating s (st :: l) → isSchedulerAccountedState (as_State st) = true → resolvePool cfg (as_Pool st) = Ok pool →
  records s' = records s → sv_nextID s' = sv_nextID s →
  (∀ k p b, slots s' k p b = take (slots s) (rehydrate_pool pool) (as_SelectedBackend st) k p b) →
  rehydrating s' l.
Proof.
  intros (Hl & Hn & Hlist & Hblank) Ha Hp Hr Hnx Hs.
  assert (Ho : records s !! as_ID st = Some st) by (apply Hlist; left).
  assert (Hn' : ∀ k p b, 0 ≤ slots s' k p b).
  { intros k p b. rewrite Hs. unfold take. pose proof (Hn k p b). case_decide; lia. }
  destruct (resolved_lane _ _ _ _ _ _ _ _ Hl Ho Ha Hp) as [Hself Hlane]. rewrite (lane_at_Some _ _ _ Ho) in Hlane.
  split_and!; [|done| |by rewrite Hr].
  - rewrite Hr, Hnx. eapply ledger_agree; [exact Hl| |].
    + intros k p b. pose proof (Hn' k p b). pose proof (rest_nonneg l p b). lia.
    + intros pool' b Hp'. cbn beta. rewrite Hs, (take_same _ _ _ _ _ _ _ (rehydrate_pool_same pool)). unfold take, rest.
      rewrite sum_of_cons, Hlane. unfold ind at 2.
      assert (Hiff : at_slot pool (as_SelectedBackend st) (pool_kind pool') (pc_Name pool') b ↔
        Some (pc_Name pool, as_SelectedBackend st) = Some (pc_Name pool', b)).
      { unfold at_slot. split; [by intros (_ & -> & ->)|]. intros [= Hname ->].
        by rewrite (resolvePool_unique _ _ _ Hself Hp' Hname). }
      repeat case_decide; try tauto; lia.
  - eapply listed_touches; [exact Hlist|]. intros id' _. by rewrite Hr.
Qed.

(** Records before and after: none is new, and each is kept, or it held a slot and is terminal now. *)
Definition kept_or_expired (before after : Allocations) : Prop :=
  (∀ id, before !! id = None → after !! id = None) ∧
  ∀ id st, before !! id = Some st → ∃ st', after !! id = Some st' ∧
    (st' = st ∨ isSchedulerAccountedState (as_State st) = true ∧ isTerminalAllocationState (as_State st') = true).

Lemma rehydrate_one_step now s st l : rehydrating s (st :: l) →
  rehydrating (rehydrate_one cfg now s st) l ∧
  (records (rehydrate_one cfg now s st) = records s ∨
   isSchedulerAccountedState (as_State st) = true ∧ ∃ st', isTerminalAllocationState (as_State st') = true ∧
     records (rehydrate_one cfg now s st) = <[as_ID st := st']> (records s)).
Proof.
  intros Hre. unfold rehydrate_one. destruct (isSchedulerAccountedState (as_State st)) eqn:Ha; cbn [negb].
  2: { split; [|by left]. destruct Hre as (Hl & Hn & Hlist & Hb). split_and!; [|done| |done].
    - eapply ledger_ext; [exact Hl|]. intros k p b. cbn beta. unfold rest. rewrite sum_of_cons. unfold lane_of at 2. rewrite Ha.
      by unfold ind.
    - by eapply listed_touches. }
  assert (Hexp : ∀ s1 reason, rehydrating s1 (st :: l) → records s1 = records s →
    rehydrating (expireUnrehydratableAllocation s1 st now reason) l ∧
    (records (expireUnrehydratableAllocation s1 st now reason) = records s ∨
     true = true ∧ ∃ st', isTerminalAllocationState (as_State st') = true ∧
       records (expireUnrehydratableAllocation s1 st now reason) = <[as_ID st := st']> (records s))).
  { intros s1 reason Hre1 Hr. destruct (rehydrate_expire s1 st l now reason Hre1 Ha) as [? (st' & Hr' & ?)].
    split; [done|]. right. split; [done|]. exists st'. by rewrite Hr', Hr. }
  destruct (resolvePool cfg (as_Pool st)) as [pool|err] eqn:Hp; [|by apply Hexp].
  destruct (String.eqb (as_SelectedBackend st) ""); [by apply Hexp|].
  destruct (job_overdue cfg st now); [by apply Hexp|]. destruct (registration_overdue _ _ _ _); [by apply Hexp|].
  pose proof (reserveScheduled_slots s (rehydrate_pool pool) (rehydrate_request st) now) as Hs.
  pose proof (reserveScheduled_frame s (rehydrate_pool pool) (rehydrate_request st) now) as [Hst Hnx].
  pose proof (reserveScheduled_granted s (rehydrate_pool pool) (rehydrate_request st) now) as Hg.
  destruct (reserveScheduled _ _ _ _) as [[b|err] s1]; cbn [fst snd] in *.
  - destruct (Hg b eq_refl) as [_ [Hb|[= Hb]]]; [done|]. subst b. split; [|left; unfold records; by rewrite Hst].
    eapply rehydrate_reserved; [done..|unfold records; by rewrite Hst|done|exact Hs].
  - apply Hexp; [|unfold records; by rewrite Hst]. destruct Hre as (Hl & Hn & Hlist & Hb).
    assert (Hrec : records s1 = records s) by (unfold records; by rewrite Hst).
    split_and!; [|intros; rewrite Hs, Z.add_0_r; apply Hn| |by rewrite Hrec].
    + rewrite Hrec, Hnx. eapply ledger_ext; [exact Hl|]. intros. cbn beta. rewrite Hs. lia.
    + destruct Hlist as [? Hin]. split; [done|]. by rewrite Hrec.
Qed.

Lemma rehydrate_fold now l : ∀ s, rehydrating s l →
  rehydrating (foldl (rehydrate_one cfg now) s l) [] ∧ kept_or_expired (records s) (records (foldl (rehydrate_one cfg now) s l)).
Proof.
  induction l as [|st l IH]; intros s Hre; cbn [foldl].
  - split; [done|]. split; [done|]. intros id st Hs. exists st. auto.
  - destruct (rehydrate_one_step now s st l Hre) as [Hre1 Hc]. destruct (IH _ Hre1) as [Hre2 [Hnone Hk]]. split; [done|].
    assert (Ho : records s !! as_ID st = Some st) by (apply Hre; by left). split.
    { intros id Hid. apply Hnone. destruct Hc as [->|(_ & st' & _ & ->)]; [done|].
      rewrite lookup_insert_ne; [done|]. intros <-. congruence. }
    intros id old Hid. destruct Hc as [Hr|(Ha & st' & Ht & Hr)].
    + apply Hk. by rewrite Hr.
    + destruct (decide (id = as_ID st)) as [->|Hne].
      * destruct (Hk (as_ID st) st') as (st2 & Hst2 & Hc2); [by rewrite Hr, lookup_insert_eq|].
        exists st2. split; [done|]. right. simplify_eq. split; [done|]. destruct Hc2 as [->|[Ha' _]]; [done|].
        rewrite (terminal_unaccounted _ Ht) in Ha'. done.
      * apply Hk. by rewrite Hr, lookup_insert_ne.
Qed.
End Lifecycle.
