(* ===== verification/Auth.v ===== *)
(** Authentication and authorization: src/internal/api/auth.go.

    GitHub Actions OIDC claims, the verification of a token against the keys its
    issuer publishes (with the two caches), the identity policy and allocation
    ownership.  Package encoding/json, the HTTP client, the RSA verification and
    the text of a base64 error are parameters. *)

From stdpp Require Import pretty.
From S2P Require Import Prelude Errors Model.
Open Scope Z_scope.
Open Scope go_scope.

Definition oidcCacheTTL : Duration := Hour.

(** ** Claims *)

Record OIDCClaims := {
  cl_Iss : string;
  cl_Aud : any;
  cl_Sub : string;
  cl_Exp : Z;
  cl_Nbf : Z;
  cl_Repository : string;
  cl_RepositoryOwner : string;
  cl_WorkflowRef : string;
  cl_JobWorkflowRef : string;
  cl_Actor : string;
}.

Definition zero_OIDCClaims : OIDCClaims := Build_OIDCClaims "" AnyNil "" 0 0 "" "" "" "" "".

(** The text before the first [sep], all of it when there is none. *)
Definition before (s : string) (sep : ascii) : string := match Cut s sep with Some (a, _) => a | None => s end.

Definition EffectiveRepository (c : OIDCClaims) : string :=
  let repo := TrimSpace (cl_Repository c) in
  if negb (String.eqb repo "") then repo
  else if negb (HasPrefix (cl_Sub c) "repo:") then ""
  else
    let part := before (TrimPrefix (cl_Sub c) "repo:") colon in
    if ContainsChar part slash then part else "".

Definition EffectiveOwner (c : OIDCClaims) : string :=
  let owner := TrimSpace (cl_RepositoryOwner c) in
  if negb (String.eqb owner "") then owner
  else match Cut (EffectiveRepository c) slash with Some (owner, _) => owner | None => "" end.

Definition audienceMatches (value : any) (expected : string) : bool :=
  match value with
  | AnyString typed => String.eqb typed expected
  | AnyList typed => existsb (fun item => match item with AnyString s => String.eqb s expected | _ => false end) typed
  | _ => false
  end.

Definition ValidateOIDCClaims (claims : OIDCClaims) (expectedAudience : string) (allowedIssuers : list string) : option error :=
  if String.eqb (cl_Sub claims) "" then Some (Sentinel ErrInvalidSubject)
  else if negb (String.eqb expectedAudience "") && negb (audienceMatches (cl_Aud claims) expectedAudience)
  then Some (Sentinel ErrInvalidAudience)
  else if existsb (String.eqb (cl_Iss claims)) allowedIssuers then None
  else Some (Sentinel ErrInvalidIssuer).

(** [time.Unix(sec, 0)]: seconds since 1970, kept in 64 bits as seconds since the zero Time. *)
Definition unixToInternal : Z := 62135596800.
Definition Unix (sec : Z) : Time := wrap64 (sec + unixToInternal) * Second.

Definition validateOIDCTimeClaims (claims : OIDCClaims) (now : Time) : option error :=
  if (cl_Exp claims =? 0) || negb (Before now (Unix (cl_Exp claims))) then Some (Sentinel ErrTokenExpired)
  else if negb (cl_Nbf claims =? 0) && Before now (Unix (cl_Nbf claims)) then Some (Sentinel ErrTokenNotValidYet)
  else None.

(** ** The identity policy *)

Definition normalizeAllowlist (entries : list string) : list string :=
  filter (fun entry => entry ≠ "") (TrimSpace <$> entries).

Definition matchActor (actor : string) (allowed : list string) : bool :=
  let actor := TrimSpace actor in
  negb (String.eqb actor "") && existsb (fun entry => EqualFold entry actor) allowed.

Definition asterisk : ascii := ascii_of_nat 42.

Definition matchAllowlistPattern (value pattern : string) : bool :=
  if String.eqb pattern "*" then true
  else match CutSuffix pattern "/*" with
  | Some prefix => String.eqb prefix "" || String.eqb value prefix || HasPrefix value (prefix +:+ "/")
  | None =>
      match CutSuffix pattern "*" with
      | Some prefix => if negb (ContainsChar prefix asterisk) then HasPrefix value prefix else String.eqb value pattern
      | None => String.eqb value pattern
      end
  end.

Definition matchAllowlist (value : string) (patterns : list string) : bool :=
  negb (String.eqb value "") && existsb (matchAllowlistPattern value) patterns.

Definition AuthorizeOIDCPolicy (claims : OIDCClaims) (policy : OIDCPolicyConfig) : option error :=
  let actors := normalizeAllowlist (op_AllowedActors policy) in
  if (0 <? length actors)%nat && negb (matchActor (cl_Actor claims) actors) then Some (Sentinel ErrOIDCPolicyDenied)
  else
    let repos := normalizeAllowlist (op_AllowedRepositories policy) in
    let owners := normalizeAllowlist (op_AllowedOwners policy) in
    if (length repos =? 0)%nat && (length owners =? 0)%nat then None
    else if (0 <? length repos)%nat && matchAllowlist (EffectiveRepository claims) repos then None
    else if (0 <? length owners)%nat && matchAllowlist (EffectiveOwner claims) owners then None
    else Some (Sentinel ErrOIDCPolicyDenied).

(** ** Ownership *)

Definition OwnershipAllows (claims : OIDCClaims) (status : AllocationStatus) : bool :=
  if String.eqb (as_Subject status) "" then true
  else if String.eqb (cl_Sub claims) "" then false
  else if String.eqb (cl_Sub claims) (as_Subject status) then true
  else
    let repo := EffectiveRepository claims in
    negb (String.eqb (as_Repository status) "") && negb (String.eqb repo "") && String.eqb (as_Repository status) repo.

(** ** Tokens *)

(** A character of the URL alphabet. *)
Definition sextet (c : ascii) : option Z :=
  let n := Z.of_nat (nat_of_ascii c) in
  if (65 <=? n) && (n <=? 90) then Some (n - 65)
  else if (97 <=? n) && (n <=? 122) then Some (n - 71)
  else if (48 <=? n) && (n <=? 57) then Some (n + 4)
  else if n =? 45 then Some 62
  else if n =? 95 then Some 63
  else None.

Fixpoint sextets (s : string) : option (list Z) :=
  match s with
  | EmptyString => Some []
  | String c s =>
      if Ascii.eqb c (ascii_of_nat 10) || Ascii.eqb c (ascii_of_nat 13) then sextets s
      else match sextet c, sextets s with Some v, Some vs => Some (v :: vs) | _, _ => None end
  end.

Definition byte_of (z : Z) : ascii := ascii_of_N (Z.to_N (z mod 256)).

(** Four characters make three bytes; the spare bits of the last are ignored. *)
Fixpoint octets (vs : list Z) : option string :=
  match vs with
  | [] => Some EmptyString
  | [a; b] => Some (String (byte_of (a * 4 + b / 16)) EmptyString)
  | [a; b; c] => Some (String (byte_of (a * 4 + b / 16)) (String (byte_of (b * 16 + c / 4)) EmptyString))
  | a :: b :: c :: d :: vs =>
      match octets vs with
      | Some s => Some (String (byte_of (a * 4 + b / 16)) (String (byte_of (b * 16 + c / 4)) (String (byte_of (c * 64 + d)) s)))
      | None => None
      end
  | _ => None
  end.

(** [base64.RawURLEncoding.DecodeString]. *)
Definition DecodeString (s : string) : option string :=
  match sextets s with Some vs => octets vs | None => None end.

Record jwtHeader := { jh_Alg : string; jh_Kid : string; jh_Typ : string }.

Record jwkKey := { jk_Kty : string; jk_Use : string; jk_Kid : string; jk_Alg : string; jk_N : string; jk_E : string }.

(** [rsa.PublicKey]. *)
Record PublicKey := { pk_N : Z; pk_E : Z }.

Definition bytes_of (s : string) : list Z := (fun c => Z.of_nat (nat_of_ascii c)) <$> String.list_ascii_of_string s.

(** [exponent<<8 + int(b)] in 64 bits; the modulus is a big integer. *)
Definition exponent_of (s : string) : Z := foldl (fun e b => wrap64 (wrap64 (e * 256) + b)) 0 (bytes_of s).
Definition modulus_of (s : string) : Z := foldl (fun n b => n * 256 + b) 0 (bytes_of s).

(** [fmt.Errorf("%w<post>", s)]. *)
Definition sentinel_with (s : sentinel) (post : string) : error := Wrapf "" (Sentinel s) post.

Definition rsaPublicKey (key : jwkKey) : result PublicKey :=
  match DecodeString (jk_N key) with
  | None => Fail (sentinel_with ErrInvalidToken ": invalid rsa modulus")
  | Some n =>
      match DecodeString (jk_E key) with
      | None => Fail (sentinel_with ErrInvalidToken ": invalid rsa exponent")
      | Some e =>
          if exponent_of e =? 0 then Fail (sentinel_with ErrInvalidToken ": invalid rsa exponent")
          else Ok {| pk_N := modulus_of n; pk_E := exponent_of e |}
      end
  end.

(** What a key is refused for. *)
Definition unusable_key (key : jwkKey) : bool :=
  negb (String.eqb (jk_Kty key) "RSA") ||
  (negb (String.eqb (jk_Use key) "") && negb (String.eqb (jk_Use key) "sig")) ||
  (negb (String.eqb (jk_Alg key) "") && negb (String.eqb (jk_Alg key) "RS256")).

Record cachedDiscovery := { cd_jwksURI : string; cd_expires : Time }.
Record cachedJWKS := { cj_keys : list jwkKey; cj_expires : Time }.

(** The caches of the verifier; [vf_requests] counts the requests it has sent. *)
Record OIDCVerifier := {
  vf_discovery : gmap string cachedDiscovery;
  vf_keys : gmap string cachedJWKS;
  vf_requests : nat;
}.

Definition NewOIDCVerifier : OIDCVerifier := {| vf_discovery := ∅; vf_keys := ∅; vf_requests := 0 |}.

(** What the verifier is given: JSON, HTTP and RSA. *)
Record Crypto := {
  cr_header : string → result jwtHeader;
  cr_claims : string → result OIDCClaims;
  cr_discovery : string → result string;
  cr_jwks : string → result (list jwkKey);
  (* the answer to the n-th request, sent at a time: status and body *)
  cr_get : nat → Time → string → result (Z * string);
  cr_rsa : PublicKey → string → string → bool;
  (* the text of base64.CorruptInputError *)
  cr_corrupt : string → string;
}.

(** [strings.TrimRight(s, "/")]. *)
Fixpoint trim_slashes (s : string) : string :=
  match s with
  | EmptyString => EmptyString
  | String c s =>
      match trim_slashes s with
      | EmptyString => if Ascii.eqb c slash then EmptyString else String c EmptyString
      | t => String c t
      end
  end.

Section Tokens.
Context (crypto : Crypto).
Implicit Types (v : OIDCVerifier) (now : Time).

Definition segment (what s : string) : result string :=
  match DecodeString s with
  | Some bytes => Ok bytes
  | None => Fail (sentinel_with ErrInvalidToken (": decode " +:+ what +:+ ": " +:+ cr_corrupt crypto s))
  end.

Definition unmarshal {A} (what : string) (r : result A) : result A :=
  match r with
  | Ok x => Ok x
  | Fail err => Fail (sentinel_with ErrInvalidToken (": decode " +:+ what +:+ ": " +:+ Error err))
  end.

(** (header, claims, signing input, signature). *)
Definition parseJWT (rawToken : string) : result (jwtHeader * OIDCClaims * string * string) :=
  match Split rawToken dot with
  | [p0; p1; p2] =>
      let? headerBytes := segment "header" p0 in
      let? header := unmarshal "header" (cr_header crypto headerBytes) in
      let? payloadBytes := segment "claims" p1 in
      let? claims := unmarshal "claims" (cr_claims crypto payloadBytes) in
      let? signature := segment "signature" p2 in
      Ok (header, claims, p0 +:+ "." +:+ p1, signature)
  | _ => Fail (sentinel_with ErrInvalidToken ": expected JWT with three parts")
  end.

(** [client.Do] of a GET request. *)
Definition get v now (url : string) : result (Z * string) * OIDCVerifier :=
  (cr_get crypto (vf_requests v) now url, { v with vf_requests := Datatypes.S (vf_requests v) }).

Definition jwksURI v (issuer : string) now : result string * OIDCVerifier :=
  let fetch :=
    let '(res, v) := get v now (trim_slashes issuer +:+ "/.well-known/openid-configuration") in
    match res with
    | Fail err => (Fail err, v)
    | Ok (status, body) =>
        if negb (status =? 200) then (Fail (Errorf ("oidc discovery status " +:+ pretty status)), v)
        else match cr_discovery crypto body with
        | Fail err => (Fail err, v)
        | Ok uri =>
            if String.eqb uri "" then (Fail (sentinel_with ErrInvalidToken ": discovery document missing jwks_uri"), v)
            else (Ok uri, { v with vf_discovery :=
                    <[issuer := {| cd_jwksURI := uri; cd_expires := TimeAdd now oidcCacheTTL |}]> (vf_discovery v) })
        end
    end in
  match vf_discovery v !! issuer with
  | Some cached => if Before now (cd_expires cached) then (Ok (cd_jwksURI cached), v) else fetch
  | None => fetch
  end.

Definition jwks v (uri : string) (forceRefresh : bool) now : result (list jwkKey) * OIDCVerifier :=
  let fetch :=
    let '(res, v) := get v now uri in
    match res with
    | Fail err => (Fail err, v)
    | Ok (status, body) =>
        if negb (status =? 200) then (Fail (Errorf ("jwks status " +:+ pretty status)), v)
        else match cr_jwks crypto body with
        | Fail err => (Fail err, v)
        | Ok keys =>
            if (length keys =? 0)%nat then (Fail (sentinel_with ErrInvalidToken ": jwks has no keys"), v)
            else (Ok keys, { v with vf_keys :=
                    <[uri := {| cj_keys := keys; cj_expires := TimeAdd now oidcCacheTTL |}]> (vf_keys v) })
        end
    end in
  match vf_keys v !! uri with
  | Some cached => if negb forceRefresh && Before now (cj_expires cached) then (Ok (cj_keys cached), v) else fetch
  | None => fetch
  end.

Definition find_key (kid : string) (keys : list jwkKey) : option jwkKey :=
  find (fun key => String.eqb (jk_Kid key) kid) keys.

Definition use_key (key : jwkKey) : result PublicKey :=
  if unusable_key key then Fail (Sentinel ErrInvalidToken) else rsaPublicKey key.

(** With [forceRefresh]. *)
Definition refreshedKey v (uri kid : string) now : result PublicKey * OIDCVerifier :=
  match jwks v uri true now with
  | (Fail err, v) => (Fail err, v)
  | (Ok keys, v) =>
      match find_key kid keys with
      | Some key => (use_key key, v)
      | None => (Fail (sentinel_with ErrInvalidSignature ": signing key not found"), v)
      end
  end.

(** Without: a key that is missing is looked for once more. *)
Definition signingKey v (uri kid : string) now : result PublicKey * OIDCVerifier :=
  match jwks v uri false now with
  | (Fail err, v) => (Fail err, v)
  | (Ok keys, v) =>
      match find_key kid keys with
      | Some key => (use_key key, v)
      | None => refreshedKey v uri kid now
      end
  end.

Definition verifyRS256 (signingInput signature : string) (key : PublicKey) : bool := cr_rsa crypto key signingInput signature.

Definition VerifyToken v (rawToken expectedAudience : string) (allowedIssuers : list string) now :
    result OIDCClaims * OIDCVerifier :=
  match parseJWT rawToken with
  | Fail err => (Fail err, v)
  | Ok (header, claims, signingInput, signature) =>
      if negb (String.eqb (jh_Alg header) "RS256") || String.eqb (jh_Kid header) "" then (Fail (Sentinel ErrInvalidToken), v)
      else match ValidateOIDCClaims claims expectedAudience allowedIssuers with
      | Some err => (Fail err, v)
      | None =>
      match validateOIDCTimeClaims claims now with
      | Some err => (Fail err, v)
      | None =>
      match jwksURI v (cl_Iss claims) now with
      | (Fail err, v) => (Fail err, v)
      | (Ok uri, v) =>
      match signingKey v uri (jh_Kid header) now with
      | (Fail err, v) => (Fail err, v)
      | (Ok key, v) =>
          if verifyRS256 signingInput signature key then (Ok claims, v)
          else match refreshedKey v uri (jh_Kid header) now with
          | (Fail err, v) => (Fail err, v)
          | (Ok key, v) =>
              if verifyRS256 signingInput signature key then (Ok claims, v) else (Fail (Sentinel ErrInvalidSignature), v)
          end
      end
      end
      end
      end
  end.
End Tokens.
