(* ===== verification/AuthTheory.v ===== *)
(** Theorems of authentication: what the identity policy allows, and whose
    signature an accepted token carries. *)

From S2P Require Import Prelude Errors Model Auth.
Open Scope Z_scope.
Open Scope go_scope.

(** ** The identity policy *)

Lemma CutSuffix_spec s suffix prefix : CutSuffix s suffix = Some prefix ↔ s = prefix +:+ suffix.
Proof.
  assert (Hcons : ∀ c t, String c t +:+ suffix = String c (t +:+ suffix)) by done.
  assert (Hlen : ∀ t, String.length (t +:+ suffix) = (String.length t + String.length suffix)%nat).
  { induction t as [|c t IH]; [done|]. rewrite Hcons. cbn. by rewrite IH. }
  revert prefix. induction s as [|c s IH]; intros prefix; cbn [CutSuffix].
  - destruct (String.eqb_spec "" suffix) as [<-|Hne]; [split; [by intros [= <-]|]; by destruct prefix|].
    split; [done|]. by destruct prefix.
  - destruct (String.eqb_spec (String c s) suffix) as [He|Hne].
    + split; [intros [= <-]; exact He|]. destruct prefix as [|d prefix]; [done|]. rewrite Hcons, <- He. intros [= -> Hs].
      apply (f_equal String.length) in Hs. rewrite He, Hlen, <- He in Hs. cbn in Hs. lia.
    + split.
      * destruct (CutSuffix s suffix) as [t|] eqn:Ht; [|done]. intros [= <-]. rewrite Hcons. f_equal. by apply IH.
      * destruct prefix as [|d prefix]; [done|]. rewrite Hcons. intros [= -> Hs]. by rewrite (proj2 (IH prefix) Hs).
Qed.

Lemma ContainsChar_app s t c : ContainsChar (s +:+ t) c = ContainsChar s c || ContainsChar t c.
Proof. induction s as [|d s IH]; [done|]. change (String d s +:+ t) with (String d (s +:+ t)). cbn. by rewrite IH, orb_assoc. Qed.

(** A pattern of the allowlists and the values it names: all of them, an owner
    and what is below it, a prefix, or one value. *)
Definition names (pattern value : string) : Prop :=
  pattern = "*" ∨
  (∃ owner, pattern = owner +:+ "/*" ∧ (owner = "" ∨ value = owner ∨ ∃ rest, value = owner +:+ "/" +:+ rest)) ∨
  (∃ prefix rest, pattern = prefix +:+ "*" ∧ CutSuffix prefix "/" = None ∧ ContainsChar prefix asterisk = false ∧
     value = prefix +:+ rest) ∨
  value = pattern.

Lemma string_app_inj (a b c : string) : a +:+ c = b +:+ c → a = b.
Proof.
  intros He. assert (Ha : CutSuffix (a +:+ c) c = Some a) by by apply CutSuffix_spec. rewrite He in Ha.
  assert (CutSuffix (b +:+ c) c = Some b) by by apply CutSuffix_spec. congruence.
Qed.

(** Every prefix pattern with a slash before its star is an owner pattern. *)
Lemma slash_star prefix : is_Some (CutSuffix prefix "/") ↔ is_Some (CutSuffix (prefix +:+ "*") "/*").
Proof.
  split; intros [owner Ho]; apply CutSuffix_spec in Ho; exists owner; apply CutSuffix_spec.
  - by rewrite Ho, string_app_assoc.
  - apply (string_app_inj _ _ "*"). by rewrite string_app_assoc.
Qed.

Lemma pattern_names value pattern : matchAllowlistPattern value pattern = true ↔ names pattern value.
Proof.
  unfold matchAllowlistPattern, names. destruct (String.eqb_spec pattern "*") as [|Hall]; [tauto|].
  destruct (CutSuffix pattern "/*") as [owner|] eqn:Hs.
  { apply CutSuffix_spec in Hs as ->. rewrite !orb_true_iff, !String.eqb_eq, prefix_spec. split.
    - intros Hm. right; left. exists owner. split; [done|]. destruct Hm as [[?|?]|[rest ?]]; [by left|right; by left|].
      right; right. exists rest. by rewrite string_app_assoc in *.
    - intros [?|[(o & Ho%string_app_inj & Hm)|[(p & rest & Hp & Hn & _)| ->]]]; [done| | |].
      + subst o. destruct Hm as [?|[?|[rest ->]]]; [tauto|tauto|]. right. exists rest. by rewrite string_app_assoc.
      + exfalso. assert (is_Some (CutSuffix p "/")) as [? ?]; [|congruence]. apply slash_star. exists owner. by apply CutSuffix_spec.
      + right. exists "*". by rewrite string_app_assoc. }
  assert (Hno : ∀ o, pattern ≠ o +:+ "/*") by (intros o Ho%CutSuffix_spec; congruence).
  destruct (CutSuffix pattern "*") as [prefix|] eqn:Hp.
  - apply CutSuffix_spec in Hp as ->. destruct (ContainsChar prefix asterisk) eqn:Hc; cbn [negb].
    + rewrite String.eqb_eq. split; [tauto|]. intros [?|[(o & Ho & _)|[(p & rest & Hp%string_app_inj & _ & Hc' & _)|?]]]; [done| | |done].
      * by destruct (Hno o).
      * congruence.
    + rewrite prefix_spec. split.
      * intros [rest Hr]. right; right; left. exists prefix, rest. split_and!; try done.
        destruct (CutSuffix prefix "/") eqn:Ho; [|done]. destruct (proj1 (slash_star prefix)) as [? ?]; [by eexists|congruence].
      * intros [?|[(o & Ho & _)|[(p & rest & Hp%string_app_inj & _ & _ & Hr)| ->]]]; [done| | |by exists "*"].
        -- by destruct (Hno o).
        -- exists rest. by subst p.
  - rewrite String.eqb_eq. split; [tauto|]. intros [?|[(o & Ho & _)|[(p & rest & Hp' & _)|?]]]; [done| | |done].
    + by destruct (Hno o).
    + apply CutSuffix_spec in Hp'. congruence.
Qed.

Lemma elem_of_normalizeAllowlist entry entries :
  entry ∈ normalizeAllowlist entries ↔ entry ≠ "" ∧ ∃ raw, raw ∈ entries ∧ entry = TrimSpace raw.
Proof. unfold normalizeAllowlist. rewrite list_elem_of_filter, list_elem_of_fmap. naive_solver. Qed.

Lemma allowlist_names value entries :
  matchAllowlist value (normalizeAllowlist entries) = true ↔
  value ≠ "" ∧ ∃ raw, raw ∈ entries ∧ TrimSpace raw ≠ "" ∧ names (TrimSpace raw) value.
Proof.
  unfold matchAllowlist. rewrite andb_true_iff, negb_true_iff, String.eqb_neq, existsb_exists. split.
  - intros [Hv (e & Hin%list_elem_of_In & Hm%pattern_names)]. apply elem_of_normalizeAllowlist in Hin as (Hne & raw & Hraw & ->).
    split; [done|]. by exists raw.
  - intros [Hv (raw & Hin & Hne & Hm%pattern_names)]. split; [done|]. exists (TrimSpace raw). split; [|done].
    apply list_elem_of_In, elem_of_normalizeAllowlist. split; [done|]. by exists raw.
Qed.

Lemma allowlist_nil entries : normalizeAllowlist entries = [] ↔ ∀ raw, raw ∈ entries → TrimSpace raw = "".
Proof.
  split.
  - intros Hn raw Hin. destruct (decide (TrimSpace raw = "")) as [|Hne]; [done|].
    assert (TrimSpace raw ∈ normalizeAllowlist entries) as Hx by (apply elem_of_normalizeAllowlist; eauto).
    rewrite Hn in Hx. by apply elem_of_nil in Hx.
  - intros Hall. destruct (normalizeAllowlist entries) as [|e l] eqn:Hn; [done|].
    assert (e ∈ normalizeAllowlist entries) as (Hne & raw & Hin & ->)%elem_of_normalizeAllowlist by (rewrite Hn; left).
    by destruct Hne; apply Hall.
Qed.

Lemma length_zero {A} (l : list A) : (length l =? 0)%nat = bool_decide (l = []) ∧ (0 <? length l)%nat = negb (bool_decide (l = [])).
Proof. by destruct l. Qed.

(** An identity the policy lets in: its actor is listed, if actors are; and its
    repository or owner is named, if any are. Entries of spaces do not count. *)
Record policy_allows (policy : OIDCPolicyConfig) (claims : OIDCClaims) : Prop := {
  pa_actor : (∃ raw, raw ∈ op_AllowedActors policy ∧ TrimSpace raw ≠ "") →
    TrimSpace (cl_Actor claims) ≠ "" ∧
    ∃ raw, raw ∈ op_AllowedActors policy ∧ TrimSpace raw ≠ "" ∧ ToLower (TrimSpace raw) = ToLower (TrimSpace (cl_Actor claims));
  pa_identity : (∃ raw, (raw ∈ op_AllowedRepositories policy ∨ raw ∈ op_AllowedOwners policy) ∧ TrimSpace raw ≠ "") →
    (EffectiveRepository claims ≠ "" ∧
     ∃ raw, raw ∈ op_AllowedRepositories policy ∧ TrimSpace raw ≠ "" ∧ names (TrimSpace raw) (EffectiveRepository claims)) ∨
    (EffectiveOwner claims ≠ "" ∧
     ∃ raw, raw ∈ op_AllowedOwners policy ∧ TrimSpace raw ≠ "" ∧ names (TrimSpace raw) (EffectiveOwner claims));
}.

Lemma allowlist_used entries : normalizeAllowlist entries ≠ [] ↔ ∃ raw, raw ∈ entries ∧ TrimSpace raw ≠ "".
Proof.
  split.
  - destruct (normalizeAllowlist entries) as [|e l] eqn:Hn; [done|]. intros _.
    assert (e ∈ normalizeAllowlist entries) as (Hne & raw & Hin & ->)%elem_of_normalizeAllowlist by (rewrite Hn; left).
    by exists raw.
  - intros (raw & Hin & Hne) Hn. by apply Hne, (allowlist_nil entries).
Qed.

Lemma matchActor_spec actor entries : matchActor actor (normalizeAllowlist entries) = true ↔
  TrimSpace actor ≠ "" ∧ ∃ raw, raw ∈ entries ∧ TrimSpace raw ≠ "" ∧ ToLower (TrimSpace raw) = ToLower (TrimSpace actor).
Proof.
  unfold matchActor. rewrite andb_true_iff, negb_true_iff, String.eqb_neq, existsb_exists. split.
  - intros [Hv (e & Hin%list_elem_of_In & Hm%String.eqb_eq)]. apply elem_of_normalizeAllowlist in Hin as (Hne & raw & Hraw & ->).
    split; [done|]. by exists raw.
  - intros [Hv (raw & Hin & Hne & Hm%String.eqb_eq)]. split; [done|]. exists (TrimSpace raw). split; [|done].
    apply list_elem_of_In, elem_of_normalizeAllowlist. split; [done|]. by exists raw.
Qed.

Lemma actors_gate claims policy :
  (0 <? length (normalizeAllowlist (op_AllowedActors policy)))%nat &&
    negb (matchActor (cl_Actor claims) (normalizeAllowlist (op_AllowedActors policy))) = false ↔
  ((∃ raw, raw ∈ op_AllowedActors policy ∧ TrimSpace raw ≠ "") →
   TrimSpace (cl_Actor claims) ≠ "" ∧
   ∃ raw, raw ∈ op_AllowedActors policy ∧ TrimSpace raw ≠ "" ∧ ToLower (TrimSpace raw) = ToLower (TrimSpace (cl_Actor claims))).
Proof.
  rewrite (proj2 (length_zero _)), <- matchActor_spec, <- allowlist_used.
  case_bool_decide as Ha; cbn [negb andb]; [done|]. rewrite negb_false_iff. tauto.
Qed.

Lemma AuthorizeOIDCPolicy_None claims policy : AuthorizeOIDCPolicy claims policy = None ↔ policy_allows policy claims.
Proof.
  unfold AuthorizeOIDCPolicy.
  assert (Hgate : policy_allows policy claims → (0 <? length (normalizeAllowlist (op_AllowedActors policy)))%nat &&
    negb (matchActor (cl_Actor claims) (normalizeAllowlist (op_AllowedActors policy))) = false).
  { intros [Ha _]. by apply actors_gate. }
  destruct (_ && negb (matchActor _ _)) eqn:Hg; [split; [done|]; intros Hp; by apply Hgate in Hp|]. clear Hgate.
  rewrite !(proj1 (length_zero _)), !(proj2 (length_zero _)).
  pose proof (allowlist_names (EffectiveRepository claims) (op_AllowedRepositories policy)) as Hr.
  pose proof (allowlist_names (EffectiveOwner claims) (op_AllowedOwners policy)) as Ho.
  assert (Hu : (∃ raw, (raw ∈ op_AllowedRepositories policy ∨ raw ∈ op_AllowedOwners policy) ∧ TrimSpace raw ≠ "") ↔
    normalizeAllowlist (op_AllowedRepositories policy) ≠ [] ∨ normalizeAllowlist (op_AllowedOwners policy) ≠ []).
  { rewrite !allowlist_used. naive_solver. }
  assert (Hnil : ∀ value, matchAllowlist value [] = false) by (intros; apply andb_false_r).
  trans (normalizeAllowlist (op_AllowedRepositories policy) ≠ [] ∨ normalizeAllowlist (op_AllowedOwners policy) ≠ [] →
         matchAllowlist (EffectiveRepository claims) (normalizeAllowlist (op_AllowedRepositories policy)) = true ∨
         matchAllowlist (EffectiveOwner claims) (normalizeAllowlist (op_AllowedOwners policy)) = true).
  - clear Hr Ho Hu. destruct (normalizeAllowlist (op_AllowedRepositories policy)) as [|r rs],
      (normalizeAllowlist (op_AllowedOwners policy)) as [|o os]; rewrite ?Hnil; cbn [andb negb bool_decide decide_rel];
      repeat case_bool_decide; try done; cbn [negb andb]; repeat case_match; naive_solver.
  - rewrite <- Hu, Hr, Ho. split; [|by intros [_ Hid]]. intros Hid. split; [by apply actors_gate|exact Hid].
Qed.

(** ** Verified tokens *)

Section Verified.
Context (crypto : Crypto).
Implicit Types (v : OIDCVerifier) (now t : Time).

(** What an issuer answered at a time: where its keys are, and the keys. *)
Definition announced t (issuer uri : string) : Prop :=
  ∃ n body, cr_get crypto n t (trim_slashes issuer +:+ "/.well-known/openid-configuration") = Ok (200, body) ∧
    cr_discovery crypto body = Ok uri.
Definition published t (uri : string) (keys : list jwkKey) : Prop :=
  ∃ n body, cr_get crypto n t uri = Ok (200, body) ∧ cr_jwks crypto body = Ok keys.

(** The caches hold answers of the issuers, for an hour. *)
Record caches_answers v : Prop := {
  ca_discovery : ∀ issuer c, vf_discovery v !! issuer = Some c → announced (cd_expires c - oidcCacheTTL) issuer (cd_jwksURI c);
  ca_keys : ∀ uri c, vf_keys v !! uri = Some c → published (cj_expires c - oidcCacheTTL) uri (cj_keys c);
}.

(** Answers not older than the cache. *)
Definition recent now t : Prop := now - oidcCacheTTL < t.

Lemma recent_now now : recent now now.
Proof. unfold recent, oidcCacheTTL, Hour, Minute, Second, Millisecond. lia. Qed.

Lemma jwksURI_answers v issuer now r v' : caches_answers v → jwksURI crypto v issuer now = (r, v') →
  caches_answers v' ∧ ∀ uri, r = Ok uri → ∃ t, recent now t ∧ announced t issuer uri.
Proof.
  intros [Hd Hk]. unfold jwksURI, get.
  match goal with |- context [match vf_discovery v !! issuer with Some _ => if _ then _ else ?f | None => _ end] => set (fetch := f) end.
  assert (Hfetch : fetch = (r, v') → caches_answers v' ∧ ∀ uri, r = Ok uri → ∃ t, recent now t ∧ announced t issuer uri).
  { subst fetch. destruct (cr_get _ _ _ _) as [[status body]|err] eqn:Hget; [|by intros [= <- <-]].
    destruct (Z.eqb_spec status 200) as [->|]; cbn [negb]; [|by intros [= <- <-]].
    destruct (cr_discovery crypto body) as [uri|err] eqn:Hbody; [|by intros [= <- <-]].
    case_match; [by intros [= <- <-]|]. intros [= <- <-]. assert (Ha : announced now issuer uri) by by exists (vf_requests v), body.
    split; [split; [|done]|intros uri' [= <-]; exists now; split; [apply recent_now|done]].
    intros i c. cbn. rewrite lookup_insert_Some. intros [[<- <-]|[_ ?]]; [|by apply Hd]. cbn. unfold TimeAdd.
    by replace (now + oidcCacheTTL - oidcCacheTTL) with now by lia. }
  destruct (vf_discovery v !! issuer) as [c|] eqn:Hc; [|done]. destruct (Before now (cd_expires c)) eqn:Hb; [|done].
  intros [= <- <-]. split; [done|]. intros uri [= <-]. apply Z.ltb_lt in Hb.
  exists (cd_expires c - oidcCacheTTL). split; [unfold recent; lia|by apply Hd].
Qed.

Lemma jwks_answers v uri force now r v' : caches_answers v → jwks crypto v uri force now = (r, v') →
  caches_answers v' ∧ ∀ keys, r = Ok keys → ∃ t, recent now t ∧ published t uri keys.
Proof.
  intros [Hd Hk]. unfold jwks, get.
  match goal with |- context [match vf_keys v !! uri with Some _ => if _ then _ else ?f | None => _ end] => set (fetch := f) end.
  assert (Hfetch : fetch = (r, v') → caches_answers v' ∧ ∀ keys, r = Ok keys → ∃ t, recent now t ∧ published t uri keys).
  { subst fetch. destruct (cr_get _ _ _ _) as [[status body]|err] eqn:Hget; [|by intros [= <- <-]].
    destruct (Z.eqb_spec status 200) as [->|]; cbn [negb]; [|by intros [= <- <-]].
    destruct (cr_jwks crypto body) as [keys|err] eqn:Hbody; [|by intros [= <- <-]].
    case_match; [by intros [= <- <-]|]. intros [= <- <-]. assert (Ha : published now uri keys) by by exists (vf_requests v), body.
    split; [split; [done|]|intros ? [= <-]; exists now; split; [apply recent_now|done]].
    intros i c. cbn. rewrite lookup_insert_Some. intros [[<- <-]|[_ ?]]; [|by apply Hk]. cbn. unfold TimeAdd.
    by replace (now + oidcCacheTTL - oidcCacheTTL) with now by lia. }
  destruct (vf_keys v !! uri) as [c|] eqn:Hc; [|done]. destruct (negb force && _) eqn:Hb; [|done].
  intros [= <- <-]. split; [done|]. intros keys [= <-]. apply andb_true_iff in Hb as [_ Hb%Z.ltb_lt].
  exists (cj_expires c - oidcCacheTTL). split; [unfold recent; lia|by apply Hk].
Qed.

(** A public key of one of the published keys. *)
Definition offered now (uri kid : string) (pk : PublicKey) : Prop :=
  ∃ t keys key, recent now t ∧ published t uri keys ∧ key ∈ keys ∧ jk_Kid key = kid ∧ unusable_key key = false ∧
    rsaPublicKey key = Ok pk.

Lemma found_offered now t uri kid keys key pk : recent now t → published t uri keys → find_key kid keys = Some key →
  use_key key = Ok pk → offered now uri kid pk.
Proof.
  intros Hr Hp [Hin Hk%String.eqb_eq]%find_some. unfold use_key. destruct (unusable_key key) eqn:Hu; [done|]. intros Hpk.
  exists t, keys, key. split_and!; try done. by apply list_elem_of_In.
Qed.

Lemma refreshedKey_offered v uri kid now r v' : caches_answers v → refreshedKey crypto v uri kid now = (r, v') →
  caches_answers v' ∧ ∀ pk, r = Ok pk → offered now uri kid pk.
Proof.
  intros Hc. unfold refreshedKey. destruct (jwks crypto v uri true now) as [[keys|err] v1] eqn:Hj;
    apply jwks_answers in Hj as [Hc1 Hp]; try done; [|by intros [= <- <-]]. destruct (Hp keys eq_refl) as (t & Ht & Hk).
  destruct (find_key kid keys) as [key|] eqn:Hf; intros [= <- <-]; (split; [done|]); [|done].
  intros pk Hpk. by eapply found_offered.
Qed.

Lemma signingKey_offered v uri kid now r v' : caches_answers v → signingKey crypto v uri kid now = (r, v') →
  caches_answers v' ∧ ∀ pk, r = Ok pk → offered now uri kid pk.
Proof.
  intros Hc. unfold signingKey. destruct (jwks crypto v uri false now) as [[keys|err] v1] eqn:Hj;
    apply jwks_answers in Hj as [Hc1 Hp]; try done; [|by intros [= <- <-]]. destruct (Hp keys eq_refl) as (t & Ht & Hk).
  destruct (find_key kid keys) as [key|] eqn:Hf; [|by apply refreshedKey_offered]. intros [= <- <-]. split; [done|].
  intros pk Hpk. by eapply found_offered.
Qed.

(** What an accepted token proves. *)
Record authentic (rawToken expectedAudience : string) (allowedIssuers : list string) now (claims : OIDCClaims) : Prop := {
  at_issuer : cl_Iss claims ∈ allowedIssuers;
  at_subject : cl_Sub claims ≠ "";
  at_audience : expectedAudience ≠ "" → audienceMatches (cl_Aud claims) expectedAudience = true;
  at_unexpired : cl_Exp claims ≠ 0 ∧ now < Unix (cl_Exp claims);
  at_begun : cl_Nbf claims ≠ 0 → Unix (cl_Nbf claims) ≤ now;
  at_signed : ∃ header input signature uri t pk,
    parseJWT crypto rawToken = Ok (header, claims, input, signature) ∧ jh_Alg header = "RS256" ∧
    recent now t ∧ announced t (cl_Iss claims) uri ∧ offered now uri (jh_Kid header) pk ∧
    cr_rsa crypto pk input signature = true;
}.

Lemma ValidateOIDCClaims_None claims aud issuers : ValidateOIDCClaims claims aud issuers = None →
  cl_Iss claims ∈ issuers ∧ cl_Sub claims ≠ "" ∧ (aud ≠ "" → audienceMatches (cl_Aud claims) aud = true).
Proof.
  unfold ValidateOIDCClaims. destruct (String.eqb_spec (cl_Sub claims) ""); [done|].
  destruct (String.eqb_spec aud "") as [->|Ha]; cbn [negb andb].
  - destruct (existsb _ _) eqn:Hi; [|done]. apply existsb_exists in Hi as (i & Hin%list_elem_of_In & ->%String.eqb_eq). done.
  - destruct (audienceMatches _ _); cbn [negb]; [|done].
    destruct (existsb _ _) eqn:Hi; [|done]. apply existsb_exists in Hi as (i & Hin%list_elem_of_In & ->%String.eqb_eq). done.
Qed.

Lemma validateOIDCTimeClaims_None claims now : validateOIDCTimeClaims claims now = None →
  (cl_Exp claims ≠ 0 ∧ now < Unix (cl_Exp claims)) ∧ (cl_Nbf claims ≠ 0 → Unix (cl_Nbf claims) ≤ now).
Proof.
  unfold validateOIDCTimeClaims, Before. destruct (Z.eqb_spec (cl_Exp claims) 0), (Z.ltb_spec now (Unix (cl_Exp claims))); try done.
  cbn [negb orb]. destruct (Z.eqb_spec (cl_Nbf claims) 0), (Z.ltb_spec now (Unix (cl_Nbf claims))); try done.
Qed.

Lemma VerifyToken_authentic v rawToken aud issuers now r v' : caches_answers v →
  VerifyToken crypto v rawToken aud issuers now = (r, v') →
  caches_answers v' ∧ ∀ claims, r = Ok claims → authentic rawToken aud issuers now claims.
Proof.
  intros Hc. unfold VerifyToken. destruct (parseJWT crypto rawToken) as [[[[header claims] input] signature]|err] eqn:Hparse;
    [|by intros [= <- <-]].
  destruct (String.eqb_spec (jh_Alg header) "RS256") as [Halg|]; cbn [negb orb]; [|by intros [= <- <-]].
  case_match; [by intros [= <- <-]|].
  destruct (ValidateOIDCClaims claims aud issuers) eqn:Hv; [by intros [= <- <-]|]. apply ValidateOIDCClaims_None in Hv as (? & ? & ?).
  destruct (validateOIDCTimeClaims claims now) eqn:Ht; [by intros [= <- <-]|]. apply validateOIDCTimeClaims_None in Ht as [? ?].
  destruct (jwksURI crypto v (cl_Iss claims) now) as [[uri|err] v1] eqn:Hu; apply jwksURI_answers in Hu as [Hc1 Ha]; try done;
    [|by intros [= <- <-]]. destruct (Ha uri eq_refl) as (t & Hrec & Hann).
  destruct (signingKey crypto v1 uri (jh_Kid header) now) as [[pk|err] v2] eqn:Hk; apply signingKey_offered in Hk as [Hc2 Ho]; try done;
    [|by intros [= <- <-]].
  assert (Hok : ∀ pk, offered now uri (jh_Kid header) pk → verifyRS256 crypto input signature pk = true →
    authentic rawToken aud issuers now claims).
  { intros pk' Hpk Hsig. split; try done. by exists header, input, signature, uri, t, pk'. }
  destruct (verifyRS256 crypto input signature pk) eqn:Hs.
  { intros [= <- <-]. split; [done|]. intros ? [= <-]. by eapply Hok; [apply Ho|]. }
  destruct (refreshedKey crypto v2 uri (jh_Kid header) now) as [[pk'|err] v3] eqn:Hk'; apply refreshedKey_offered in Hk' as [Hc3 Ho'];
    try done; [|by intros [= <- <-]].
  destruct (verifyRS256 crypto input signature pk') eqn:Hs'; intros [= <- <-]; (split; [done|]); [|done].
  intros ? [= <-]. by eapply Hok; [apply Ho'|].
Qed.

Lemma NewOIDCVerifier_answers : caches_answers NewOIDCVerifier.
Proof. by split. Qed.
End Verified.
