(* ===== verification/Allocate.v ===== *)
(** Allocation: [allocateNow], the admission queue and the warm runners it
    consumes, of src/internal/api/service.go.

    What happens outside the service is an [Environment]: the drivers'
    Provision, the other goroutines that run while this one waits for a
    provider or a timer, and the clock.  The random identifiers of newID are an
    endless sequence of distinct ones, drawn in order.  Every other step is the
    code's, in its order. *)

From S2P Require Import Prelude Errors Model Store Scheduler FairShare Registry Backends Budget Capacity Admission.
From S2P Require Import Warm JobRetry TierPolicy ServicePolicy Service ServiceFilters.

Record principal := { pr_Sub : string; pr_Repository : string; pr_Owner : string }.

(** What the context of a request carries. *)
Record request_context := { rc_CorrelationID : string; rc_Principal : option principal }.

Definition applyPrincipal (status : AllocationStatus) (claims : option principal) : AllocationStatus :=
  match claims with
  | Some claims =>
      if String.eqb (pr_Sub claims) "" then status
      else { status with as_Subject := pr_Sub claims; as_Repository := pr_Repository claims; as_Owner := pr_Owner claims }
  | None => status
  end.

(** A runner label and metadata, what the service keeps of a provisioned runner. *)
Record provisioned_runner := { pv_RunnerLabel : string; pv_Metadata : gmap string string }.

(** While waiting for ARC capacity: the timer fired at a time, or the context is done. *)
Inductive wait_event := TimerFired (at_ : Time) | ContextDone (err : error).

Record Environment {S : Type} := {
  (* registry.Get and the driver's Provision; None: no such backend *)
  env_provision : BackendName → option (AllocationRequest → AllocationStatus → result provisioned_runner);
  (* the other goroutines, while this one waits *)
  env_interfere : Service S → Service S;
  (* the polls before the ARC deadline *)
  env_polls : list wait_event;
  (* the time when a Provision that starts now returns *)
  env_later : Time → Time;
  env_health : option error;
}.
Arguments Environment : clear implicits.

Section Allocate.
Context `{GoRange} `{QualityRanker} {S : Type} `{!AllocationStore S, !AdmissionStateStore S}.
Context (cfg : BrokerConfig) (has_cleanup : BackendName → bool) (ids : nat → string).
Context (env : Environment S) (ctx : request_context).
Implicit Types (s : Service S) (pool : PoolConfig) (request : AllocationRequest) (now : Time)
  (existing allocation : AllocationStatus).

Definition queue_cfg : AdmissionQueueConfig := br_Queue (broker cfg).
Definition blank_id (status : AllocationStatus) : bool := String.eqb (as_ID status) "".

(** ** Building records *)

Definition newID s : string * Service S := (ids (sv_nextID s), { s with sv_nextID := Datatypes.S (sv_nextID s) }).

Definition prepareAllocation s request existing (pool : PoolName) (selected : BackendName) (timeout : Duration) now :
    AllocationStatus * Service S :=
  let '(allocation, s) :=
    if blank_id existing then
      let '(id, s) := newID s in
      ({ existing with as_ID := id; as_CorrelationID := rc_CorrelationID ctx; as_Attempts := 0; as_CreatedAt := now }, s)
    else (if IsZero (as_CreatedAt existing) then { existing with as_CreatedAt := now } else existing, s) in
  let expiresAt :=
    if (ar_WorkflowJobID request =? 0) || blank_id existing || IsZero (as_ExpiresAt allocation)
    then TimeAdd now timeout else as_ExpiresAt allocation in
  (applyPrincipal
    { allocation with as_Pool := pool; as_SelectedBackend := selected; as_Tenant := ar_Tenant request;
        as_PriorityClass := ar_PriorityClass request; as_RequestedLabels := ar_Labels request;
        as_Metadata := {[ MetadataLaunchModeKey := launchModeCold ]}; as_ExpiresAt := expiresAt; as_RetryAfter := 0;
        as_State := StateReserved; as_Error := ""; as_Request := Some request }
    (rc_Principal ctx), s).

(** [None] is [(AllocationStatus{}, false)].  The error of the save is dropped. *)
Definition queueAllocation s request (pool : PoolName) (selected : BackendName) (cause : error) existing now :
    option AllocationStatus * Service S :=
  let capacityWait := workflowCapacityError request cause in
  if negb (aq_Enabled queue_cfg) || (negb (queueableError cause) && negb capacityWait) then (None, s)
  else if negb (blank_id existing) && (normalizeQueueMaxAttempts queue_cfg <=? as_Attempts existing) && negb capacityWait
  then (None, s)
  else
    let timeout := if ar_JobTimeout request <=? 0 then br_DefaultJobTimeout (broker cfg) else ar_JobTimeout request in
    let pool := if String.eqb pool "" then ar_Pool request else pool in
    let '(status, s) :=
      if blank_id existing then
        let '(id, s) := newID s in
        ({ existing with as_ID := id; as_CorrelationID := rc_CorrelationID ctx; as_ExpiresAt := TimeAdd now timeout }, s)
      else (existing, s) in
    let status := applyPrincipal
      { status with as_Pool := pool; as_SelectedBackend := selected; as_Tenant := ar_Tenant request;
          as_PriorityClass := ar_PriorityClass request; as_RequestedLabels := ar_Labels request;
          as_RetryAfter := TimeAdd now (normalizeQueueRetryAfter queue_cfg); as_State := StatePending;
          as_Error := Error cause; as_Request := Some { request with ar_JobTimeout := timeout };
          as_Metadata := <["queue_reason" := queueReason cause]> (as_Metadata status) }
      (rc_Principal ctx) in
    (Some status, { s with sv_store := (store_Save (sv_store s) status).2 }).

(** ** Warm runners *)

(** The runner registered on the default repository serves the request's repository. *)
Definition warmRunnerServes (status : AllocationStatus) : bool :=
  let scope := bk_Scope cfg in
  if negb (IsPerRepository scope) then true
  else match ForRepository scope "", ForRepository scope (TargetRepository status) with
       | Ok warmScope, Ok wanted => EqualFold (gs_Repository wanted) (gs_Repository warmScope)
       | _, _ => false
       end.

Definition warm_less (a b : AllocationStatus) : bool :=
  if negb (as_ExpiresAt a =? as_ExpiresAt b) then Before (as_ExpiresAt a) (as_ExpiresAt b)
  else string_ltb (as_ID a) (as_ID b).

Definition sortWarmByExpiration (warm : list AllocationStatus) : list AllocationStatus := sort_stable warm_less warm.

Definition recycleWarmAllocation s pool (status : AllocationStatus) (reason : string) now : Service S :=
  match markState s (as_ID status) StateFailed now reason with
  | (None, s) => s
  | (Some updated, s) => release has_cleanup s pool (as_SelectedBackend status) updated now
  end.

(** The loop over the candidates, soonest to expire first. *)
Fixpoint claim_warm s pool (ttl : Duration) now (warm : list AllocationStatus) : option AllocationStatus * Service S :=
  match warm with
  | [] => (None, s)
  | candidate :: warm =>
      if isWarmExpired candidate now ttl
      then claim_warm (recycleWarmAllocation s pool candidate "warm allocation expired" now) pool ttl now warm
      else match store_Get (sv_store s) (as_ID candidate) with
      | None => claim_warm s pool ttl now warm
      | Some current =>
          if negb (state_eqb (as_State current) StateWarm) then claim_warm s pool ttl now warm
          else
            let '(claimed, st) := store_MarkState (sv_store s) (as_ID candidate) StateReady now "" in
            let s := { s with sv_store := st } in
            match claimed with
            | None => claim_warm s pool ttl now warm
            | Some claimed =>
                if negb (state_eqb (as_State claimed) StateReady) then claim_warm s pool ttl now warm
                else (Some claimed, s)
            end
      end
  end.

Definition consumeWarmAllocation s pool (backendName : BackendName) (request : AllocationStatus) now :
    option AllocationStatus * Service S :=
  match pc_Backends pool !! backendName with
  | None => (None, s)
  | Some b =>
      if negb (bc_Enabled b) || negb (bc_Healthy b) || negb (isWarmProvisionableBackend backendName) then (None, s)
      else if negb (warmRunnerServes request) then (None, s)
      else
        let warm := filterWarmAllocations (store_List (sv_store s)) (pc_Name pool) backendName in
        claim_warm s pool (resolveWarmTTL b) now (sortWarmByExpiration warm)
  end.

(** The least name among the warm-capable backends that hold a fresh warm runner. *)
Definition preferredWarmBackend s pool now : option BackendName :=
  let statuses := store_List (sv_store s) in
  let fresh (entry : BackendName * BackendConfig) :=
    let '(name, b) := entry in
    bc_Enabled b && bc_Healthy b && isWarmProvisionableBackend name &&
    negb (length (filterFreshWarm statuses (pc_Name pool) name now (resolveWarmTTL b)) =? 0)%nat in
  head (sort_stable string_ltb (filter (fun entry => fresh entry = true) (range (pc_Backends pool))).*1).

(** The record a consumed warm runner becomes. *)
Definition hand_over (warm allocation : AllocationStatus) request (b : BackendConfig) now : AllocationStatus :=
  { warm with as_State := StateReady; as_CorrelationID := as_CorrelationID allocation; as_Tenant := ar_Tenant request;
      as_PriorityClass := ar_PriorityClass request; as_RequestedLabels := ar_Labels request;
      as_ExpiresAt := as_ExpiresAt allocation; as_CreatedAt := now; as_RegisteredAt := Some now; as_ClaimedAt := None;
      as_Subject := as_Subject allocation; as_Repository := as_Repository allocation; as_Owner := as_Owner allocation;
      as_Metadata := withLaunchModeMetadata (WithCapabilitiesMetadata b (as_Metadata warm)) launchModeWarm }.

(** ** One attempt *)

Record loop_state := {
  ls_reservePool : PoolConfig;
  ls_reserveRequest : AllocationRequest;
  ls_preReserved : option BackendName;
  ls_rateLimitedFallback : BackendName;
  ls_capacityFallback : BackendName;
  ls_existing : AllocationStatus;
  ls_now : Time;
}.

(** What does not change while the loop runs. *)
Record loop_env := {
  le_fallbackPool : PoolConfig;
  le_pinned : option BackendName;
  le_fallbackFromRateLimit : bool;
  le_timeout : Duration;
}.

Inductive outcome := Done (status : AllocationStatus) (err : option error) | Again (l : loop_state).

Definition failed (err : error) : outcome := Done zero_AllocationStatus (Some err).

Definition queue_or_fail s request (pool : PoolName) (selected : BackendName) (cause : error) existing now :
    outcome * Service S :=
  match queueAllocation s request pool selected cause existing now with
  | (Some queued, s) => (Done queued None, s)
  | (None, s) => (failed cause, s)
  end.

Definition fallback_error (what : string) (selected : BackendName) (cause : sentinel) : error :=
  Wrapf ("selected backend " +:+ quote selected +:+ " " +:+ what +:+ " and no fallback backend is available: ") (Sentinel cause) "".

(** ARC was selected for an unpinned request and another lane can take over. *)
Definition arc_lane_open (k : loop_env) (selected : BackendName) : bool :=
  is_arc selected && (if le_pinned k is None then true else false) &&
  hasFallbackBackend (withoutBackend (le_fallbackPool k) selected).

Definition arc_fallback_pool (k : loop_env) (selected : BackendName) : PoolConfig :=
  fallbackBackends (withoutBackend (le_fallbackPool k) selected).

Definition unpinned request : AllocationRequest := { request with ar_Backend := None }.

(** No slot could be reserved. *)
Definition on_reserve_error (k : loop_env) (l : loop_state) s (err : error) now : outcome * Service S :=
  let queue := queue_or_fail s (ls_reserveRequest l) (pc_Name (ls_reservePool l)) "" err (ls_existing l) now in
  if errors_Is err ErrNoCapacity then
    if negb (String.eqb (ls_capacityFallback l) "")
    then (failed (fallback_error "capacity exhausted" (ls_capacityFallback l) ErrBackendLiveCapacity), s)
    else if negb (String.eqb (ls_rateLimitedFallback l) "")
    then (failed (fallback_error "is rate-limited" (ls_rateLimitedFallback l) ErrBackendRateLimited), s)
    else match le_pinned k with
         | Some name =>
             if le_fallbackFromRateLimit k
             then (failed (Wrapf ("pinned backend " +:+ quote name +:+ " is rate-limited and no fallback backend is available: ")
                             (Sentinel ErrBackendRateLimited) ""), s)
             else queue
         | None => queue
         end
  else queue.

(** The slot is reserved and the admission decision refuses it. *)
Definition on_refused (k : loop_env) (l : loop_state) s (selected : BackendName) (reason : string) now :
    outcome * Service S :=
  let pool := ls_reservePool l in
  let s := release has_cleanup s pool selected
             { zero_AllocationStatus with as_Pool := pc_Name pool; as_SelectedBackend := selected } now in
  let queue err := queue_or_fail s (ls_reserveRequest l) (pc_Name pool) selected err (ls_existing l) now in
  if String.eqb reason "circuit-open" then
    if arc_lane_open k selected then
      (Again { l with ls_reservePool := arc_fallback_pool k selected; ls_preReserved := None;
                      ls_reserveRequest := unpinned (ls_reserveRequest l) }, s)
    else queue (Wrapf ("selected backend " +:+ quote selected +:+ " is not admissible: ") (Sentinel ErrBackendCircuitOpen) "")
  else if String.eqb reason "rate-limited" then
    let reservePool := if arc_lane_open k selected then arc_fallback_pool k selected else withoutBackend pool selected in
    let l := { l with ls_reservePool := reservePool; ls_preReserved := None;
                      ls_reserveRequest := unpinned (ls_reserveRequest l); ls_rateLimitedFallback := selected } in
    if negb (no_backends reservePool) then (Again l, s)
    else (failed (fallback_error "is rate-limited" selected ErrBackendRateLimited), s)
  else queue (Errorf ("selected backend " +:+ quote selected +:+ " is not admissible: " +:+ reason)).

Definition store_delete s (id : string) : option error * Service S :=
  let '(err, st) := store_Delete (sv_store s) id in (err, { s with sv_store := st }).

(** A consumed warm runner replaces the cold reservation. *)
Definition on_warm (l : loop_state) s (selected : BackendName) (warm allocation : AllocationStatus) now :
    outcome * Service S :=
  let pool := ls_reservePool l in
  let request := ls_reserveRequest l in
  let s :=
    if fs_Enabled (pc_FairShare pool)
    then cleanupAllocation has_cleanup (release_slot s pool selected warm now) allocation
    else release has_cleanup s pool selected allocation now in
  match store_delete s (as_ID allocation) with
  | (Some err, s) => (failed err, s)
  | (None, s) =>
      let warm := hand_over warm allocation request (default zero_BackendConfig (pc_Backends pool !! selected)) now in
      let s := { s with sv_store := (store_Save (sv_store s) warm).2 } in
      (Done warm None, recordBudgetUsage s pool selected now)
  end.

(** Forgets the failed attempt: a fresh record is deleted, a queued one is kept for the next attempt. *)
Definition forget_attempt (l : loop_state) s (allocation : AllocationStatus) (err : error) : AllocationStatus * Service S :=
  if blank_id (ls_existing l) then (zero_AllocationStatus, (store_delete s (as_ID allocation)).2)
  else ({ allocation with as_State := StatePending; as_Error := Error err }, s).

(** Provision failed at time [now]. *)
Definition on_provision_error (k : loop_env) (l : loop_state) s (selected : BackendName) (allocation : AllocationStatus)
    (err : error) now : outcome * Service S :=
  let pool := ls_reservePool l in
  let s := recordBackendFailure s pool selected err now in
  let again s (reservePool : PoolConfig) (l : loop_state) : outcome * Service S :=
    let '(existing, s) := forget_attempt l s allocation err in
    let l := { l with ls_reservePool := reservePool; ls_preReserved := None; ls_existing := existing; ls_now := now;
                      ls_reserveRequest := unpinned (ls_reserveRequest l) } in
    (Again l, s) in
  let current := default zero_AllocationStatus (store_Get (sv_store s) (as_ID allocation)) in
  if state_eqb (as_State current) StateCanceled then (Done current (Some (Sentinel ErrAllocationCanceled)), s)
  else
    let '(abandoned, abandonedOK, s) := abandonReservedAllocation has_cleanup s pool allocation StateFailed (Error err) now in
    let abandoned := default zero_AllocationStatus abandoned in
    if negb abandonedOK && state_eqb (as_State abandoned) StateCanceled
    then (Done abandoned (Some (Sentinel ErrAllocationCanceled)), s)
    else if negb abandonedOK && isTerminalAllocationState (as_State abandoned) then (Done abandoned (Some err), s)
    else if IsCapacityExhausted (Some err) then
      if (if le_pinned k is Some name then String.eqb name selected else false) && negb (le_fallbackFromRateLimit k) then
        let s := if blank_id (ls_existing l) then (store_delete s (as_ID allocation)).2 else s in
        (failed (Wrapf ("pinned backend " +:+ quote selected +:+ " live capacity exhausted: ") (Sentinel ErrBackendLiveCapacity) ""), s)
      else
        let reservePool :=
          if is_arc selected && (if le_pinned k is None then true else false)
          then arc_fallback_pool k selected else withoutBackend pool selected in
        let '(next, s) := again s reservePool { l with ls_capacityFallback := selected } in
        if negb (no_backends reservePool) then (next, s)
        else (failed (fallback_error "capacity exhausted" selected ErrBackendLiveCapacity), s)
    else
      let arc := arc_lane_open k selected && isARCUnavailableFailure err in
      let '(next, s) := if arc then again s (arc_fallback_pool k selected) l else (failed err, s) in
      if arc && negb (no_backends (arc_fallback_pool k selected)) then (next, s)
      else
        match queueAllocation s (ls_reserveRequest l) (pc_Name pool) selected err allocation now with
        | (Some queued, s) => (Done queued None, s)
        | (None, s) =>
            if negb abandonedOK && negb (blank_id abandoned) then (Done abandoned (Some err), s) else (failed err, s)
        end.

(** Provision succeeded but the reservation is gone. *)
Definition finalizeCanceledDuringProvision s (allocation : AllocationStatus) : outcome * Service S :=
  let current := store_Get (sv_store s) (as_ID allocation) in
  let cleanupStatus :=
    match current with
    | Some current =>
        let error := if String.eqb (as_Error allocation) "" then as_Error current else as_Error allocation in
        { allocation with as_State := as_State current; as_Error := error }
    | None => { allocation with as_State := StateCanceled }
    end in
  let s := cleanupAllocation has_cleanup s cleanupStatus in
  match current with
  | None => (failed (Sentinel ErrAllocationNotFound), s)
  | Some current =>
      if state_eqb (as_State current) StateCanceled then (Done current (Some (Sentinel ErrAllocationCanceled)), s)
      else if isTerminalAllocationState (as_State current)
      then (Done current (Some (Errorf ("allocation " +:+ state_string (as_State current) +:+ " during provision"))), s)
      else (Done current (Some (Errorf ("allocation state changed during provision: " +:+ state_string (as_State current)))), s)
  end.

(** Provision returned a runner at time [now]. *)
Definition on_provisioned (l : loop_state) s (selected : BackendName) (allocation : AllocationStatus)
    (runner : provisioned_runner) now : outcome * Service S :=
  let pool := ls_reservePool l in
  let allocation :=
    { allocation with as_RunnerLabel := pv_RunnerLabel runner; as_State := StateReady;
        as_RegisteredAt := (if isStaticLabelBackend cfg (pc_Name pool) selected then Some now else as_RegisteredAt allocation);
        as_Metadata := withLaunchModeMetadata
          (WithCapabilitiesMetadata (default zero_BackendConfig (pc_Backends pool !! selected)) (pv_Metadata runner))
          launchModeCold } in
  let '(saved, st) := store_SaveIfState (sv_store s) allocation StateReserved in
  let s := { s with sv_store := st } in
  match saved with
  | Fail err => (failed err, cleanupAllocation has_cleanup (release has_cleanup s pool selected allocation now) allocation)
  | Ok false => finalizeCanceledDuringProvision s allocation
  | Ok true =>
      let s := notifyReady s allocation in
      let s := recordBackendSuccess s pool selected now in
      (Done allocation None, recordBudgetUsage s pool selected now)
  end.

(** The slot is reserved and admitted. *)
Definition on_admitted (k : loop_env) (l : loop_state) s (selected : BackendName) now : outcome * Service S :=
  let pool := ls_reservePool l in
  let request := ls_reserveRequest l in
  let '(allocation, s) := prepareAllocation s request (ls_existing l) (pc_Name pool) selected (le_timeout k) now in
  match saveReservedAllocation cfg s allocation pool with
  | (Some err, s) =>
      let s := release has_cleanup s pool selected allocation now in
      if errors_Is err StoreErrNoCapacity
      then queue_or_fail s request (pc_Name pool) selected (Sentinel ErrNoCapacity) (ls_existing l) now
      else (failed err, s)
  | (None, s) =>
      match env_provision env selected with
      | None =>
          let s := release has_cleanup s pool selected allocation now in
          let s := (markState s (as_ID allocation) StateFailed now "backend not registered").2 in
          (failed (Errorf ("backend implementation missing: " +:+ selected)), s)
      | Some provision =>
          match consumeWarmAllocation s pool selected allocation now with
          | (Some warm, s) => on_warm l s selected warm allocation now
          | (None, s) =>
              let later := env_later env now in
              let provisioned := provision request allocation in
              let s := env_interfere env s in
              match provisioned with
              | Fail err => on_provision_error k l s selected allocation err later
              | Ok runner => on_provisioned l s selected allocation runner later
              end
          end
      end
  end.

Definition allocate_once (k : loop_env) (l : loop_state) s : outcome * Service S :=
  let pool := ls_reservePool l in
  let now := ls_now l in
  let '(selected, s) :=
    match ls_preReserved l with
    | Some selected => (Ok selected, s)
    | None => reserve cfg s pool (ls_reserveRequest l) now
    end in
  match selected with
  | Fail err => on_reserve_error k l s err now
  | Ok selected =>
      let '(decision, a, shared) :=
        allow (sv_admission s) (Some (sv_store s)) (pc_Name pool) selected
          (default zero_BackendConfig (pc_Backends pool !! selected)) now false true in
      let s := { s with sv_admission := a; sv_store := default (sv_store s) shared } in
      if ad_Allowed decision then on_admitted k l s selected now
      else on_refused k l s selected (ad_Reason decision) now
  end.

(** The two nested loops: every [continue] is another attempt. *)
Fixpoint allocate_loop (fuel : nat) (k : loop_env) (l : loop_state) s :
    option (AllocationStatus * option error) * Service S :=
  match fuel with
  | O => (None, s)
  | Datatypes.S fuel =>
      match allocate_once k l s with
      | (Done status err, s) => (Some (status, err), s)
      | (Again l, s) => allocate_loop fuel k l s
      end
  end.

(** ** The lane *)

Inductive lane := LaneFailed (err : error) | Lane (pool : PoolConfig) (request : AllocationRequest) (preReserved : option BackendName).

(** Polling ARC until its deadline; the pool is then the fallback one. *)
Fixpoint arc_wait (polls : list wait_event) s pool (arcPool : PoolConfig) request now : lane * Service S * Time :=
  let arcRequest := { request with ar_Backend := Some BackendARC } in
  match reserve cfg s arcPool arcRequest now with
  | (Ok selected, s) => (Lane arcPool arcRequest (Some selected), s, now)
  | (Fail err, s) =>
      if negb (errors_Is err ErrNoCapacity) then (LaneFailed err, s, now)
      else match polls with
           | [] => (Lane (fallbackBackends pool) request None, s, now)
           | ContextDone err :: _ => (LaneFailed err, env_interfere env s, now)
           | TimerFired now :: polls => arc_wait polls (env_interfere env s) pool arcPool request now
           end
  end.

Definition choose_lane s pool request (arcWasConfigured : bool) now : lane * Service S * Time :=
  if negb (if ar_Backend request is None then true else false) || negb (hasFallbackBackend pool)
  then (Lane pool request None, s, now)
  else
    let localPool := localBackends pool in
    match pc_Backends pool !! BackendARC with
    | None =>
        if negb arcWasConfigured && negb (no_backends localPool) then
          match reserve cfg s localPool request now with
          | (Ok candidate, s) => (Lane localPool request (Some candidate), s, now)
          | (Fail err, s) =>
              if errors_Is err ErrNoCapacity then (Lane (fallbackBackends pool) request None, s, now)
              else (LaneFailed err, s, now)
          end
        else (Lane (fallbackBackends pool) request None, s, now)
    | Some arcCfg =>
        if negb (usable arcCfg) then (Lane (fallbackBackends pool) request None, s, now)
        else
          let '(wait, _) := arcFirstWaits (br_ARCFirst (broker cfg)) in
          let polls := if wait <=? 0 then [] else env_polls env in
          arc_wait polls s pool (with_backends pool {[ BackendARC := arcCfg ]}) request now
    end.

(** ** The whole allocation *)

Definition ErrDraining : error := Wrapf "broker is draining for shutdown: " (Sentinel ErrNoCapacity) "".

(** The filters in their order; [Fail] carries the error, to be queued or returned. *)
Definition narrow_pool s pool request (explicitTimeout : bool) now :
    result (PoolConfig * AllocationRequest * bool) * AllocationRequest * Service S :=
  match filterEligibleBackends pool request with
  | Fail err => (Fail err, request, s)
  | Ok pool =>
      match (if explicitTimeout then filterBackendsByTimeout pool request else Ok pool) with
      | Fail err => (Fail err, request, s)
      | Ok pool =>
          match filterBackendsByAdmission s pool request now with
          | (Fail err, s) => (Fail err, request, s)
          | (Ok (pool, request, fallbackFromRateLimit), s) =>
              let pool := filterRegistrationPenalized (sv_penalties s) pool request now in
              match filterBackendsByTierState cfg s pool request with
              | Fail err => (Fail err, request, s)
              | Ok pool =>
                  match filterBackendsByLiveCapacity cfg s pool request with
                  | Fail err => (Fail err, request, s)
                  | Ok pool =>
                      match filterBackendsByBudget s pool request now with
                      | (Fail err, s) => (Fail err, request, s)
                      | (Ok pool, s) => (Ok (pool, request, fallbackFromRateLimit), request, s)
                      end
                  end
              end
          end
      end
  end.

(** One attempt per backend of the lane and one per backend of the fallback. *)
Definition allocate_fuel (fallbackPool reservePool : PoolConfig) : nat :=
  (size (pc_Backends fallbackPool) + size (pc_Backends reservePool) + 2)%nat.

Definition allocateNow s request existing now : option (AllocationStatus * option error) * Service S :=
  let fail err s := (Some (zero_AllocationStatus, Some err), s) in
  if sv_draining s then fail ErrDraining s
  else match sv_initErr s, env_health env, resolvePool cfg (ar_Pool request) with
  | Some err, _, _ => fail err s
  | None, Some err, _ => fail err s
  | None, None, Fail err => fail err s
  | None, None, Ok pool =>
      let explicitTimeout := 0 <? ar_JobTimeout request in
      let arcWasConfigured := bool_decide (is_Some (pc_Backends pool !! BackendARC)) in
      let timeout := if ar_JobTimeout request <=? 0 then br_DefaultJobTimeout (broker cfg) else ar_JobTimeout request in
      let request := { request with ar_JobTimeout := timeout } in
      match narrow_pool s pool request explicitTimeout now with
      | (Fail err, request, s) =>
          match queueAllocation s request (pc_Name pool) "" err existing now with
          | (Some queued, s) => (Some (queued, None), s)
          | (None, s) => fail err s
          end
      | (Ok (narrowed, narrowedRequest, fallbackFromRateLimit), _, s) =>
          match choose_lane s narrowed narrowedRequest arcWasConfigured now with
          | (LaneFailed err, s, _) => fail err s
          | (Lane reservePool reserveRequest preReserved, s, now) =>
              let reserveRequest :=
                match ar_Backend narrowedRequest, preReserved, preferredWarmBackend s reservePool now with
                | None, None, Some preferred => { narrowedRequest with ar_Backend := Some preferred }
                | _, _, _ => reserveRequest
                end in
              allocate_loop (allocate_fuel narrowed reservePool)
                {| le_fallbackPool := narrowed; le_pinned := ar_Backend request;
                   le_fallbackFromRateLimit := fallbackFromRateLimit; le_timeout := timeout |}
                {| ls_reservePool := reservePool; ls_reserveRequest := reserveRequest; ls_preReserved := preReserved;
                   ls_rateLimitedFallback := ""; ls_capacityFallback := ""; ls_existing := existing; ls_now := now |} s
          end
      end
  end.

(** ** The queue *)

Definition retry_queued s (status : AllocationStatus) request now : Service S * Z :=
  let capacityWait := waitingForWorkflowCapacity status in
  if negb capacityWait && (normalizeQueueMaxAttempts queue_cfg <=? as_Attempts status)
  then ((markState s (as_ID status) StateFailed now "pending allocation retry attempts exhausted").2, 1)
  else
    let status := { status with as_Attempts := (if capacityWait then as_Attempts status else as_Attempts status + 1);
                                as_RetryAfter := TimeAdd now (normalizeQueueRetryAfter queue_cfg) } in
    let s := { s with sv_store := (store_Save (sv_store s) status).2 } in
    match allocateNow s request status now with
    | (Some (_, Some err), s) =>
        match queueAllocation s request (as_Pool status) (as_SelectedBackend status) err status now with
        | (Some _, s) => (s, 1)
        | (None, s) => ((markState s (as_ID status) StateFailed now (Error err)).2, 1)
        end
    | (_, s) => (s, 1)
    end.

Definition reconcileQueuedAllocation s (status : AllocationStatus) now : Service S * Z :=
  let workflow := match as_Request status with Some request => 0 <? ar_WorkflowJobID request | None => false end in
  match (if workflow then store_Get (sv_store s) (as_ID status) else Some status) with
  | None => (s, 0)
  | Some status =>
      if negb (state_eqb (as_State status) StatePending) ||
         (negb (IsZero (as_RetryAfter status)) && After (as_RetryAfter status) now) then (s, 0)
      else match as_Request status with
      | None => ((markState s (as_ID status) StateFailed now "pending allocation is missing original request").2, 1)
      | Some request =>
          if Before (as_ExpiresAt status) now
          then ((markState s (as_ID status) StateExpired now "pending allocation expired").2, 1)
          else retry_queued s status request now
      end
  end.

Definition ReconcileQueue s now : Z * Service S :=
  if negb (aq_Enabled queue_cfg) || sv_draining s then (0, s)
  else
    let pending := filter (fun status => as_State status = StatePending) (store_List (sv_store s)) in
    foldl (fun acc status => let '(updated, s) := acc in
             let '(s, n) := reconcileQueuedAllocation s status now in (updated + n, s)) (0, s) pending.
End Allocate.
