(* ===== verification/AllocateTheory.v ===== *)
(** Allocation keeps the ledger and terminates: theorems about Allocate.v.

    The other goroutines that run while an allocation waits are any function
    that keeps the ledger ([safe]), which the lifecycle operations and whole
    allocations do. *)

From S2P Require Import Prelude Errors Model Store StoreTheory Scheduler SchedulerTheory FairShare FairShareTheory.
From S2P Require Import Registry Backends Budget Capacity Admission Warm JobRetry TierPolicy ServicePolicy Service.
From S2P Require Import ServiceFilters ServiceTheory Allocate.

(** ** Narrowing keeps the pool *)

Lemma keep_backends_same keep pool : same_pool (keep_backends keep pool) pool.
Proof. done. Qed.

Lemma filterEligible_same pool request pool' : filterEligibleBackends pool request = Ok pool' → same_pool pool' pool.
Proof. unfold filterEligibleBackends. intros Hf. repeat case_match; simplify_eq; done. Qed.

Lemma filterTimeout_same pool request pool' : filterBackendsByTimeout pool request = Ok pool' → same_pool pool' pool.
Proof. unfold filterBackendsByTimeout. intros Hf. repeat case_match; simplify_eq; done. Qed.

Lemma filterPenalized_same m pool request now : same_pool (filterRegistrationPenalized m pool request now) pool.
Proof. unfold filterRegistrationPenalized. by repeat case_match. Qed.

Section Narrowing.
Context `{GoRange} `{QualityRanker} {S : Type} `{!AllocationStore S, !AdmissionStateStore S, !ReliableStore S}.
Context (cfg : BrokerConfig).
Implicit Types (s : Service S) (pool : PoolConfig) (request : AllocationRequest) (now : Time).

Lemma filterTier_same s pool request pool' : filterBackendsByTierState cfg s pool request = Ok pool' → same_pool pool' pool.
Proof. unfold filterBackendsByTierState, tierEligibleBackends. intros Hf. repeat case_match; simplify_eq; done. Qed.

Lemma filterLive_same s pool request pool' : filterBackendsByLiveCapacity cfg s pool request = Ok pool' → same_pool pool' pool.
Proof. unfold filterBackendsByLiveCapacity. intros Hf. repeat case_match; simplify_eq; done. Qed.

Lemma filterBudget_same s pool request now :
  frame s (filterBackendsByBudget s pool request now).2 ∧
  ∀ pool', (filterBackendsByBudget s pool request now).1 = Ok pool' → same_pool pool' pool.
Proof.
  unfold filterBackendsByBudget. set (filtered := if _ && _ then with_backends pool ∅ else _).
  assert (Hs : same_pool filtered pool) by (subst filtered; by case_match).
  clearbody filtered. repeat case_match; cbn [fst snd]; (split; [done|]; intros ? [= <-]; done).
Qed.

Lemma observe_frame s pool filtered now : frame s (observeAdmissionRejections s pool filtered now).
Proof.
  unfold observeAdmissionRejections. generalize (range (pc_Backends pool)) as l. intros l. revert s.
  induction l as [|e l IH]; intros s; cbn [foldl]; [done|]. eapply frame_trans; [|apply IH].
  unfold observe_rejection. case_match; [done|]. by destruct (allow _ _ _ _ _ _ _ _) as [[? ?] ?].
Qed.

Lemma admission_filter_same a shared pool request now pool' :
  (admission_filter a shared pool request now).1 = Ok pool' → same_pool pool' pool.
Proof. unfold admission_filter. destruct (foldl _ _ _) as [[a' kept] n]. intros Hf. repeat case_match; simplify_eq/=; done. Qed.

Lemma filterAdmission_same s pool request now :
  frame s (filterBackendsByAdmission s pool request now).2 ∧
  ∀ pool' request' dropped, (filterBackendsByAdmission s pool request now).1 = Ok (pool', request', dropped) →
    same_pool pool' pool.
Proof.
  unfold filterBackendsByAdmission.
  destruct (admission_filter _ _ pool request now) as [[filtered|err] a] eqn:Hf.
  - pose proof (admission_filter_same (sv_admission s) (Some (sv_store s)) pool request now filtered) as Hsame.
    rewrite Hf in Hsame. cbn. split.
    + eapply frame_trans; [|apply observe_frame]. done.
    + intros ??? [= <- <- <-]. by apply Hsame.
  - clear Hf. destruct (ar_Backend request); [|by split]. destruct (errors_Is err ErrBackendRateLimited); [|by split].
    destruct (admission_filter _ _ pool _ now) as [[fallback|err'] a'] eqn:Hf'; [|by split].
    match type of Hf' with admission_filter ?x ?y pool ?r now = _ =>
      pose proof (admission_filter_same x y pool r now fallback) as Hsame end.
    rewrite Hf' in Hsame. cbn. split.
    + eapply frame_trans; [|apply observe_frame]. done.
    + intros ??? [= <- <- <-]. by apply Hsame.
Qed.

(** The filters change no record and no slot, and only narrow the pool. *)
Lemma narrow_pool_same s pool request explicit now :
  frame s (narrow_pool cfg s pool request explicit now).2 ∧
  ∀ pool' request' dropped,
    (narrow_pool cfg s pool request explicit now).1.1 = Ok (pool', request', dropped) → same_pool pool' pool.
Proof.
  unfold narrow_pool. destruct (filterEligibleBackends pool request) as [p1|] eqn:H1; [|done].
  apply filterEligible_same in H1.
  assert (Ht : ∀ p2, (if explicit then filterBackendsByTimeout p1 request else Ok p1) = Ok p2 → same_pool p2 p1).
  { destruct explicit; [apply filterTimeout_same|by intros ? [= <-]]. }
  destruct (if explicit then _ else _) as [p2|]; [|done]. specialize (Ht _ eq_refl).
  destruct (filterAdmission_same s p2 request now) as [Hf3 H3].
  destruct (filterBackendsByAdmission s p2 request now) as [[[[p3 r3] d3]|] s3]; [|done].
  cbn [fst snd] in Hf3, H3. specialize (H3 _ _ _ eq_refl).
  pose proof (filterPenalized_same (sv_penalties s3) p3 r3 now) as H4.
  set (p4 := filterRegistrationPenalized _ _ _ _) in *. cbn beta zeta.
  destruct (filterBackendsByTierState cfg s3 p4 r3) as [p5|] eqn:H5; [|done]. apply filterTier_same in H5.
  destruct (filterBackendsByLiveCapacity cfg s3 p5 r3) as [p6|] eqn:H6; [|done]. apply filterLive_same in H6.
  destruct (filterBudget_same s3 p6 r3 now) as [Hf7 H7].
  destruct (filterBackendsByBudget s3 p6 r3 now) as [[p7|] s7]; cbn [fst snd] in *; (split; [by eapply frame_trans|done || idtac]).
  intros ??? [= <- <- <-]. specialize (H7 _ eq_refl). by rewrite H7, H6, H5, H4, H3, Ht, H1.
Qed.

(** ** Reserving *)

(** A reservation takes one slot of a backend of the pool; a refusal takes none. *)
Definition reserves s pool (r : result BackendName * Service S) : Prop :=
  sv_store r.2 = sv_store s ∧ sv_nextID r.2 = sv_nextID s ∧
  match r.1 with
  | Ok b => is_Some (pc_Backends pool !! b) ∧ ∀ k p b', slots r.2 k p b' = take (slots s) pool b k p b'
  | Fail _ => ∀ k p b', slots r.2 k p b' = slots s k p b'
  end.

Lemma reserveScheduled_reserves s pool request now : reserves s pool (reserveScheduled s pool request now).
Proof.
  destruct (reserveScheduled_frame s pool request now) as [Hs Hn]. split_and!; [done|done|].
  pose proof (reserveScheduled_slots s pool request now) as Hc.
  pose proof (reserveScheduled_granted s pool request now) as Hg.
  destruct (reserveScheduled _ _ _ _) as [[b|e] s']; cbn [fst snd] in *.
  - split; [by apply Hg|]. intros. by rewrite Hc.
  - intros. rewrite Hc. lia.
Qed.

Lemma try_ranked_reserves pool request now ranked : ∀ s err, reserves s pool (try_ranked s pool request now ranked err).
Proof.
  induction ranked as [|name ranked IH]; intros s err; cbn [try_ranked]; [by split_and!|].
  set (attempt := { request with ar_Backend := Some name }).
  pose proof (reserveScheduled_reserves s pool attempt now) as Hr.
  destruct (reserveScheduled s pool attempt now) as [[b|e] s1]; [done|]. destruct (_ || _); [done|].
  destruct Hr as (Hs & Hn & Hc). cbn [fst snd] in *. destruct (IH s1 e) as (Hs' & Hn' & Hc').
  split_and!; [congruence|congruence|]. destruct (try_ranked _ _ _ _ _ _) as [[b|e'] s2]; cbn [fst snd] in *.
  - destruct Hc' as [? Hc']. split; [done|]. intros. rewrite Hc'. unfold take. by rewrite Hc.
  - intros. by rewrite Hc', Hc.
Qed.

Lemma reserve_reserves s pool request now : reserves s pool (reserve cfg s pool request now).
Proof.
  unfold reserve. case_match; [|apply reserveScheduled_reserves]. unfold reserveQualityAware.
  destruct (_ =? 0)%nat; [by split_and!|]. apply try_ranked_reserves.
Qed.

(** ** The admission decision *)

Lemma rateLimit_contents a (st st' : S) (pool : PoolName) name rcfg now consume :
  contents (default st' (rateLimitDecision a (Some st) pool name rcfg now consume).2) = contents st.
Proof. unfold rateLimitDecision. repeat case_match; cbn; try done; apply reliable_admission. Qed.

Lemma circuit_contents a (st : S) (pool : PoolName) name ccfg now consume :
  ∃ st1, (circuitDecision a (Some st) pool name ccfg now consume).2 = Some st1 ∧ contents st1 = contents st.
Proof.
  unfold circuitDecision. repeat case_match; cbn; eexists; (split; [reflexivity|]); first [done|apply reliable_admission].
Qed.

Lemma allow_contents a (st st' : S) (pool : PoolName) name b now warm consume :
  contents (default st' (allow a (Some st) pool name b now warm consume).2) = contents st.
Proof.
  unfold allow. set (a1 := if consume then _ else a). clearbody a1.
  assert (Hrl : ∀ a st1, contents (default st' (if negb warm && rl_Enabled (bc_RateLimit b)
    then rateLimitDecision a (Some st1) pool name (bc_RateLimit b) now consume
    else (allowed_in circuitStateClosed, a, Some st1)).2) = contents st1).
  { intros. case_match; [apply rateLimit_contents|done]. }
  destruct (cb_Enabled _); [|apply Hrl].
  destruct (circuit_contents a1 st pool name (bc_CircuitBreaker b) now consume) as (st1 & He & Hc).
  destruct (circuitDecision _ _ _ _ _ _ _) as [[d a2] shared]. cbn in He. subst shared.
  destruct (negb (ad_Allowed d)); [exact Hc|]. by rewrite Hrl.
Qed.
End Narrowing.

(** ** One allocation *)

Section Allocation.
Context `{GoRange} `{QualityRanker} {S : Type} `{!AllocationStore S, !AdmissionStateStore S, !ReliableStore S}.
Context (cfg : BrokerConfig) (has_cleanup : BackendName → bool) (ids : nat → string).
Context (env : Environment S) (ctx : request_context).
Hypothesis ids_inj : ∀ n m, ids n = ids m → n = m.
Hypothesis ids_nonblank : ∀ n, ids n ≠ "".
Hypothesis interfere_safe : ∀ s, safe cfg ids s (env_interfere env s).
(** The slots others have reserved and not yet a record for. *)
Context (out : slot_counts).
Hypothesis out_nonneg : nonneg out.
(** The queued record the allocation retries; blank for an allocation that makes a new record. *)
Context (own : string).
Implicit Types (s : Service S) (pool : PoolConfig) (request : AllocationRequest) (now : Time)
  (existing allocation : AllocationStatus).

Local Notation Inv := (Inv cfg ids out).
Local Notation net := (net out).
Local Notation evolves := (evolves ids).

Definition fresh : bool := String.eqb own "".

(** A new allocation changes the records as [evolves] allows; a retry may also do anything with its own queued record. *)
Definition moves s s' : Prop := evolves_but ids (fun id => fresh = false ∧ id = own) s s'.

#[local] Instance moves_preorder : PreOrder moves.
Proof. apply evolves_but_preorder. Qed.

Lemma evolves_moves s s' : evolves s s' → moves s s'.
Proof. intros [Hn He]. split; [done|]. intros id st _. exact (He id st (fun f => f)). Qed.

(** The identifier of the record this allocation writes: drawn since [s], or its queued record's. *)
Definition ours_id s (id : string) : Prop :=
  if fresh then ∃ n, (sv_nextID s ≤ n)%nat ∧ id = ids n else id = own.

(** A record that may be rewritten: it holds no slot, and its identifier will not be drawn again. *)
Definition idle s (id : string) : Prop := lane_at (records s) id = None ∧ known ids (sv_nextID s) id.

(** The queued record the allocation retries holds no slot. *)
Definition own_idle s : Prop := fresh = false → idle s own.

Definition existing_ok s existing : Prop := as_ID existing = own ∧ own_idle s.

Lemma evolves_accounted s s' id status' :
  evolves s s' → known ids (sv_nextID s) id → records s' !! id = Some status' →
  isSchedulerAccountedState (as_State status') = true →
  ∃ status, records s !! id = Some status ∧ lane_of status = lane_of status' ∧
    (as_State status' = as_State status ∨ as_State status = StateWarm).
Proof. intros [_ He] Hk Hs Ha. destruct (He _ _ (fun f => f) Hs Ha) as [(n & Hn & ->)|?]; [by destruct (Hk n Hn)|done]. Qed.

Lemma idle_evolves s s' id : evolves s s' → idle s id → idle s' id.
Proof.
  intros He [Hl Hk]. split; [|intros n Hn; apply Hk; destruct He; lia].
  unfold lane_at in *. destruct (records s' !! id) as [st'|] eqn:Hs'; [|done]. cbn.
  destruct (isSchedulerAccountedState (as_State st')) eqn:Ha; [|unfold lane_of; by rewrite Ha].
  destruct (evolves_accounted _ _ _ _ He Hk Hs' Ha) as (st & Hs & Hlane & _). rewrite Hs in Hl. cbn in Hl. congruence.
Qed.

Lemma own_evolves s s' : evolves s s' → own_idle s → own_idle s'.
Proof. intros He Hi Hf. eapply idle_evolves; eauto. Qed.

Lemma existing_evolves s s' existing : evolves s s' → existing_ok s existing → existing_ok s' existing.
Proof. intros He [Hb Hi]. split; [done|by eapply own_evolves]. Qed.

Lemma existing_own s existing : existing_ok s existing → own_idle s.
Proof. by intros []. Qed.

Lemma own_of s id s0 : ours_id s0 id → idle s id → own_idle s.
Proof. unfold ours_id, own_idle. intros Hid Hi Hf. rewrite Hf in Hid. by subst id. Qed.

(** The configuration knows the pool, whatever backends of it are left. *)
Definition pool_ok pool : Prop := ∃ resolved, resolvePool cfg (pc_Name pool) = Ok resolved ∧ same_pool pool resolved.

Lemma pool_ok_same pool pool' : same_pool pool' pool → pool_ok pool → pool_ok pool'.
Proof. intros Hs (r & Hr & Hp). exists r. split; [by destruct Hs as [_ ->]|by rewrite Hs]. Qed.

(** *** A slot without its record *)

(** A slot of [b] is reserved and its record not saved yet. *)
Definition owed s pool (b : BackendName) : Prop :=
  Ledger cfg ids (fun k p b' => net s k p b' - (if decide (at_slot pool b k p b') then 1 else 0)) (records s) (sv_nextID s).

Lemma owed_after_reserve s s' pool b : Inv s → reserves s pool (Ok b, s') → owed s' pool b ∧ frame s' s' ∧ records s' = records s.
Proof.
  intros Hi (Hs & Hn & _ & Hc). cbn in *. assert (Hr : records s' = records s) by (unfold records; by rewrite Hs).
  split; [|done]. unfold owed. rewrite Hr, Hn. eapply ledger_ext; [exact Hi|]. intros. cbn beta. unfold ServiceTheory.net. rewrite Hc. unfold take. lia.
Qed.

Lemma inv_after_refusal s s' pool e : Inv s → reserves s pool (Fail e, s') → Inv s' ∧ records s' = records s ∧ sv_nextID s' = sv_nextID s.
Proof.
  intros Hi (Hs & Hn & Hc). cbn in *. assert (Hr : records s' = records s) by (unfold records; by rewrite Hs).
  split; [|done]. unfold ServiceTheory.Inv. rewrite Hr, Hn. eapply ledger_ext; [exact Hi|]. intros. unfold ServiceTheory.net. by rewrite Hc.
Qed.

Lemma owed_frame s s' pool b : frame s s' → owed s pool b → owed s' pool b.
Proof. intros (Hr & Hs & Hn). unfold owed, ServiceTheory.net, slots. by rewrite Hr, Hs, Hn. Qed.

Lemma same_records s s' : records s' = records s → (sv_nextID s ≤ sv_nextID s')%nat → evolves s s'.
Proof. intros Hr Hn. split; [done|]. intros id st _. rewrite Hr. intros. right. exists st. auto. Qed.

Lemma owed_release s pool b allocation now : owed s pool b →
  Inv (release has_cleanup s pool b allocation now) ∧ evolves s (release has_cleanup s pool b allocation now) ∧
  records (release has_cleanup s pool b allocation now) = records s.
Proof.
  intros Ho. destruct (release_frame has_cleanup s pool b allocation now) as (Hr & Hn & Hc). split_and!; [|by apply same_records; [|lia]|done].
  unfold ServiceTheory.Inv. rewrite Hr, Hn. eapply ledger_ext; [exact Ho|]. intros k p b'. cbn beta. unfold ServiceTheory.net. rewrite Hc. unfold give.
  pose proof (led_nonneg _ _ _ _ _ Ho k p b') as Hnn. cbn beta in Hnn. unfold ServiceTheory.net in Hnn. pose proof (out_nonneg k p b').
  case_decide; [|lia]. case_match; reflect_bools; lia.
Qed.

(** *** Building records *)

Lemma applyPrincipal_keeps status claims :
  as_ID (applyPrincipal status claims) = as_ID status ∧ lane_of (applyPrincipal status claims) = lane_of status ∧
  as_State (applyPrincipal status claims) = as_State status ∧
  as_SelectedBackend (applyPrincipal status claims) = as_SelectedBackend status.
Proof. unfold applyPrincipal. by repeat case_match. Qed.

Lemma blank_id_same a b : as_ID a = as_ID b → blank_id a = blank_id b.
Proof. unfold blank_id. by intros ->. Qed.

Lemma newID_idle s : Inv s ∨ (∃ pool b, owed s pool b) → idle (newID ids s).2 (ids (sv_nextID s)).
Proof.
  intros Hi. split.
  - apply lane_at_None. destruct Hi as [Hi|(p & b & Hi)]; eapply led_fresh; by (exact Hi || eauto).
  - intros n Hn He. apply ids_inj in He. cbn in Hn. lia.
Qed.
Lemma newID_frame s : records (newID ids s).2 = records s ∧ sv_scheds (newID ids s).2 = sv_scheds s ∧
  sv_nextID (newID ids s).2 = Datatypes.S (sv_nextID s).
Proof. done. Qed.

Lemma owed_next s s' pool b : owed s pool b → records s' = records s → sv_scheds s' = sv_scheds s →
  (sv_nextID s ≤ sv_nextID s')%nat → owed s' pool b.
Proof. intros Ho Hr Hs Hn. unfold owed, ServiceTheory.net, slots. rewrite Hr, Hs. by eapply ledger_next. Qed.

Lemma inv_next s s' : Inv s → records s' = records s → sv_scheds s' = sv_scheds s →
  (sv_nextID s ≤ sv_nextID s')%nat → Inv s'.
Proof. intros Ho Hr Hs Hn. unfold ServiceTheory.Inv, ServiceTheory.net, slots. rewrite Hr, Hs. by eapply ledger_next. Qed.

(** The record about to be saved for a slot of [b]. *)
Record prepared s s1 pool (b : BackendName) allocation : Prop := {
  pre_owed : owed s1 pool b;
  pre_records : records s1 = records s;
  pre_next : (sv_nextID s ≤ sv_nextID s1)%nat;
  pre_idle : idle s1 (as_ID allocation);
  pre_lane : lane_of allocation = Some (pc_Name pool, b);
  pre_state : as_State allocation = StateReserved;
  pre_backend : as_SelectedBackend allocation = b;
  pre_nonblank : blank_id allocation = false;
  pre_ours : ours_id s (as_ID allocation);
}.

Lemma prepare_prepared s request existing pool b timeout now :
  owed s pool b → existing_ok s existing →
  prepared s (prepareAllocation ids ctx s request existing (pc_Name pool) b timeout now).2 pool b
    (prepareAllocation ids ctx s request existing (pc_Name pool) b timeout now).1.
Proof.
  intros Ho [Hb Hidle]. unfold prepareAllocation.
  match goal with |- context [if blank_id existing then ?new else ?old] =>
    set (base := if blank_id existing then new else old) end.
  assert (Hbase : owed base.2 pool b ∧ records base.2 = records s ∧ (sv_nextID s ≤ sv_nextID base.2)%nat ∧
    idle base.2 (as_ID base.1) ∧ blank_id base.1 = false ∧
    ours_id s (as_ID base.1)).
  { subst base. change (blank_id existing) with (String.eqb (as_ID existing) "") in *. unfold ours_id. rewrite Hb in *.
    change (String.eqb own "") with fresh in *. destruct fresh eqn:Hfr.
    - cbn. split_and!; [|done|lia| | |by exists (sv_nextID s)].
      + eapply owed_next; [exact Ho|done|done|]. cbn. lia.
      + apply newID_idle. right. by eexists _, _.
      + unfold blank_id. cbn. apply String.eqb_neq, ids_nonblank.
    - cbn. assert (as_ID (if IsZero (as_CreatedAt existing) then { existing with as_CreatedAt := now } else existing) = as_ID existing)
        as Hid by (by case_match).
      unfold blank_id in *. rewrite Hid, Hb. split_and!; [done|done|lia|by apply Hidle|exact Hfr|done]. }
  clearbody base. destruct base as [a0 s1]. cbn [fst snd] in *. destruct Hbase as (H1 & H2 & H3 & H4 & H5 & H6).
  match goal with |- context [applyPrincipal ?x ?c] => destruct (applyPrincipal_keeps x c) as (Hid & Hl & Hst & Hb') end.
  split; cbn [fst snd]; rewrite ?Hid, ?Hl, ?Hst, ?Hb'; try done.
  rewrite (blank_id_same _ a0); [done|]. by rewrite Hid.
Qed.

Lemma saveReserved_spec s pool b allocation :
  owed s pool b → pool_ok pool → idle s (as_ID allocation) → lane_of allocation = Some (pc_Name pool, b) →
  match saveReservedAllocation cfg s allocation pool with
  | (None, s') => Inv s' ∧ stored s s' (as_ID allocation) allocation
  | (Some _, s') => frame s s'
  end.
Proof.
  intros Ho (r & Hr & Hp) [Hl Hk] Hlane. unfold saveReservedAllocation.
  destruct (save_limits cfg pool allocation) as [[maxRunners quota] limit].
  destruct (reliable_save_if_capacity (sv_store s) allocation maxRunners quota limit) as [Hres Hc].
  revert Hres Hc. store_op Memory.SaveIfCapacity. destruct (store_SaveIfCapacity _ _ _ _ _) as [err st].
  destruct (capacityAllowed _ _ _ _ _) as [e|]; cbn; intros -> Hc; [done|].
  assert (Hs : stored s { s with sv_store := st } (as_ID allocation) allocation) by done. split; [|exact Hs].
  destruct Hs as (Hrec & _ & _). unfold ServiceTheory.Inv. rewrite Hrec. change (sv_nextID { s with sv_store := st }) with (sv_nextID s).
  rewrite (proj2 Hp) in *. eapply ledger_ext; [eapply (ledger_add cfg ids _ _ _ _ _ r b); [exact Ho|done..]|].
  intros k p b'. unfold take. change (net { s with sv_store := st } k p b') with (net s k p b').
  pose proof (at_slot_same _ _ b k p b' Hp). repeat case_decide; tauto || lia.
Qed.

(** Saving without asking for capacity: the slot gets its record. *)
Lemma save_owed s pool b status : owed s pool b → pool_ok pool → idle s (as_ID status) →
  lane_of status = Some (pc_Name pool, b) →
  Inv { s with sv_store := (store_Save (sv_store s) status).2 }.
Proof.
  intros Ho (r & Hr & Hp) [Hl Hk] Hlane. destruct (save_spec s status) as [_ Hc]. unfold ServiceTheory.Inv.
  change (records { s with sv_store := (store_Save (sv_store s) status).2 }) with (contents (store_Save (sv_store s) status).2).
  rewrite Hc. rewrite (proj2 Hp) in *.
  eapply ledger_ext; [eapply (ledger_add cfg ids _ _ _ _ _ r b); [exact Ho|done..]|].
  intros k p b'. unfold ServiceTheory.take. change (net { s with sv_store := _ } k p b') with (net s k p b').
  pose proof (at_slot_same _ _ b k p b' Hp). repeat case_decide; tauto || lia.
Qed.

(** The answer to a client: its record is stored, ready for the job or queued. *)
Definition granted s (status : AllocationStatus) : Prop :=
  records s !! as_ID status = Some status ∧ (as_State status = StateReady ∨ as_State status = StatePending).

Lemma granted_frame s s' status : frame s s' → granted s status → granted s' status.
Proof. intros (Hr & _). unfold granted. by rewrite Hr. Qed.

(** Queueing saves a record that holds no slot. *)
Lemma queue_spec s request (pool : PoolName) b cause existing now :
  Inv s → (blank_id existing = false → idle s (as_ID existing)) →
  Inv (queueAllocation cfg ids ctx s request pool b cause existing now).2 ∧
  evolves s (queueAllocation cfg ids ctx s request pool b cause existing now).2 ∧
  ∀ queued, (queueAllocation cfg ids ctx s request pool b cause existing now).1 = Some queued →
    granted (queueAllocation cfg ids ctx s request pool b cause existing now).2 queued.
Proof.
  intros Hi Hidle. unfold queueAllocation. case_match; [done|]. case_match; [done|].
  match goal with |- context [if blank_id existing then ?new else ?old] =>
    set (base := if blank_id existing then new else old) end.
  assert (Hbase : Inv base.2 ∧ evolves s base.2 ∧ idle base.2 (as_ID base.1)).
  { subst base. destruct (blank_id existing).
    - cbn. assert (Hn : Inv (newID ids s).2) by (eapply inv_next; [exact Hi|done|done|]; cbn; lia). split_and!; [exact Hn| |].
      + apply same_records; [done|]. cbn. lia.
      + apply newID_idle. by left.
    - cbn. split_and!; [done|done|by apply Hidle]. }
  clearbody base. destruct base as [e s1]. cbn [fst snd] in *. destruct Hbase as (Hi1 & He1 & Hl & Hk).
  match goal with |- context [applyPrincipal ?x ?c] => destruct (applyPrincipal_keeps x c) as (Hid & Hlane & Hst & _);
    set (status := applyPrincipal x c) in * end.
  cbn [snd]. destruct (save_spec s1 status) as [_ Hc]. rewrite Hid in Hc. cbn in Hid, Hlane.
  set (s2 := { s1 with sv_store := (store_Save (sv_store s1) status).2 }).
  assert (Hs : stored s1 s2 (as_ID e) status) by (split_and!; [exact Hc|done|done]).
  destruct (keep_safe cfg ids s1 s2 (as_ID e) status) with (out := out) as [Hi2 He2]; [done|done| | |done|done|done|].
  - rewrite Hl, Hlane. done.
  - intros old Ho Ha. unfold lane_at in Hl. rewrite Ho in Hl. cbn in Hl. unfold lane_of in Hl. by rewrite Ha in Hl.
  - split_and!; [done|by etrans|]. cbn [fst snd]. intros ? [= <-]. destruct Hs as (Hr & _). split; [|by right].
    rewrite Hid. change (as_ID _) with (as_ID e). rewrite Hr. apply lookup_insert_eq.
Qed.
(** *** Warm runners *)

Definition warm_of pool (b : BackendName) (st : AllocationStatus) : Prop :=
  as_State st = StateWarm ∧ as_Pool st = pc_Name pool ∧ as_SelectedBackend st = b.

(** A runner handed over: its record is ready and in its lane. *)
Definition claimed s pool (b : BackendName) (w : AllocationStatus) : Prop :=
  records s !! as_ID w = Some w ∧ as_State w = StateReady ∧ as_Pool w = pc_Name pool ∧ as_SelectedBackend w = b.

Lemma recycle_spec s pool b st reason now :
  Inv s → pool_ok pool → records s !! as_ID st = Some st → warm_of pool b st →
  let s' := recycleWarmAllocation has_cleanup s pool st reason now in
  Inv s' ∧ evolves s s' ∧ touches s s' (as_ID st).
Proof.
  intros Hi (r & Hr & Hp) Ho (Hst & Hpool & Hb). cbn zeta. unfold recycleWarmAllocation.
  pose proof (markState_spec s (as_ID st) StateFailed now reason) as Hm. rewrite Ho in Hm. destruct Hm as [Hres Hs].
  destruct (markState s (as_ID st) StateFailed now reason) as [res s1]. cbn in Hres, Hs. subst res.
  destruct (unaccount_release cfg has_cleanup ids s s1 (as_ID st) st StateFailed now reason Ho eq_refl Hs r pool
    (applyMarkState st StateFailed now reason) now) with (out := out) as [H1' H2']; [by rewrite Hst|by rewrite Hpool|done|done|done|].
  split_and!; [done|done|]. eapply touches_trans; [by eapply stored_touches|]. apply release_frame.
Qed.

Lemma claim_warm_spec pool b ttl now warm : ∀ s,
  Inv s → pool_ok pool → listed s warm → (∀ st, st ∈ warm → warm_of pool b st) →
  let '(res, s') := claim_warm has_cleanup s pool ttl now warm in
  Inv s' ∧ evolves s s' ∧ (∀ id, id ∉ as_ID <$> warm → records s' !! id = records s !! id) ∧
  (∀ w, res = Some w → as_ID w ∈ as_ID <$> warm ∧ claimed s' pool b w).
Proof.
  induction warm as [|st warm IH]; intros s Hi Hpool Hlist Hwarm; cbn [claim_warm]; [done|].
  assert (Ho : records s !! as_ID st = Some st) by (apply Hlist; left).
  assert (Hst : warm_of pool b st) by (apply Hwarm; left).
  destruct (isWarmExpired st now ttl).
  - destruct (recycle_spec s pool b st "warm allocation expired" now Hi Hpool Ho Hst) as (Hi1 & He1 & Ht1).
    set (s1 := recycleWarmAllocation _ _ _ _ _ _) in *.
    specialize (IH s1 Hi1 Hpool (listed_touches _ _ _ _ Hlist Ht1) (fun st' Hin => Hwarm st' (list_elem_of_further _ _ _ Hin))).
    destruct (claim_warm _ s1 _ _ _ _) as [res s2]. destruct IH as (Hi2 & He2 & Ho2 & Hw2). split_and!; [done|by etrans| |].
    + cbn. intros id [Hne Hni]%not_elem_of_cons. rewrite Ho2 by done. by apply Ht1.
    + intros w Hw. destruct (Hw2 w Hw). split; [cbn; by right|done].
  - destruct Hst as (Hstate & Hp & Hb). rewrite get_records, Ho, Hstate. cbn [state_eqb negb].
    unfold state_eqb. rewrite bool_decide_true by done. cbn [negb].
    destruct (reliable_mark (sv_store s) (as_ID st) StateReady now "") as [Hres Hc].
    revert Hres Hc. store_op Memory.MarkState. unfold records in Ho.
    destruct (store_MarkState _ _ _ _ _) as [res st1]. rewrite Ho. cbn. intros -> Hc.
    destruct (applyMarkState_lane st StateReady now "") as (Hs1 & Hp1 & Hb1).
    rewrite Hs1. unfold state_eqb. rewrite bool_decide_true by done. cbn [negb].
    set (w := applyMarkState st StateReady now "") in *.
    assert (Hid : as_ID w = as_ID st) by apply applyMarkState_ID.
    set (s1 := { s with sv_store := st1 }). assert (Hs : stored s s1 (as_ID st) w) by (split_and!; done).
    destruct (keep_safe cfg ids s s1 (as_ID st) w) with (out := out) as [Hi1 He1]; [by eapply known_stored|done| | |done|done|done|].
    + rewrite (lane_at_Some _ _ st) by done. unfold w. rewrite lane_mark. unfold lane_of. by rewrite Hstate.
    + intros old Ho' _. right. unfold records in Ho'. congruence.
    + split_and!; [done|done| |].
      * cbn. intros id [Hne _]%not_elem_of_cons. by eapply stored_touches.
      * intros w' [= <-]. rewrite Hid. split; [cbn; by left|]. split_and!; [|done|congruence|congruence].
        destruct Hs as (Hr & _). rewrite Hid, Hr. apply lookup_insert_eq.
Qed.

Lemma warm_candidates s pool b : Inv s →
  listed s (sortWarmByExpiration (filterWarmAllocations (store_List (sv_store s)) (pc_Name pool) b)) ∧
  ∀ st, st ∈ sortWarmByExpiration (filterWarmAllocations (store_List (sv_store s)) (pc_Name pool) b) → warm_of pool b st.
Proof.
  intros Hi. unfold sortWarmByExpiration. set (l := filterWarmAllocations _ _ _).
  pose proof (sort_stable_perm warm_less l) as Hperm. destruct (listed_store cfg ids out s Hi) as [Hnd Hin].
  assert (Hl : ∀ st, st ∈ l → st ∈ store_List (sv_store s) ∧ warm_of pool b st).
  { intros st [Hw Hst]%list_elem_of_filter. split; [done|]. unfold is_warm_of in Hw. reflect_bools.
    unfold state_eqb in *. reflect_bools. done. }
  split; [split|].
  - rewrite Hperm. eapply sublist_NoDup; [exact Hnd|]. by apply fmap_sublist, sublist_filter.
  - intros st Hst. rewrite Hperm in Hst. apply Hin. by apply Hl.
  - intros st Hst. rewrite Hperm in Hst. by apply Hl.
Qed.

(** Consuming a warm runner leaves a reserved record alone. *)
Lemma consume_spec s pool b allocation id now :
  Inv s → pool_ok pool → (∀ st, records s !! id = Some st → as_State st = StateReserved) →
  let '(res, s') := consumeWarmAllocation cfg has_cleanup s pool b allocation now in
  Inv s' ∧ evolves s s' ∧ records s' !! id = records s !! id ∧
  (∀ w, res = Some w → claimed s' pool b w ∧ as_State w = StateReady).
Proof.
  intros Hi Hpool Hid. unfold consumeWarmAllocation.
  destruct (pc_Backends pool !! b) as [c|]; [|done]. destruct (_ || _); [done|]. destruct (negb _); [done|].
  destruct (warm_candidates s pool b Hi) as [Hlist Hwarm].
  pose proof (claim_warm_spec pool b (resolveWarmTTL c) now _ s Hi Hpool Hlist Hwarm) as Hc.
  destruct (claim_warm _ _ _ _ _ _) as [res s']. destruct Hc as (Hi' & He & Ho & Hw). split_and!; [done|done| |].
  - apply Ho. intros (st & -> & Hst)%list_elem_of_fmap. destruct (Hwarm st Hst) as [Hs _]. destruct Hlist as [_ Hl].
    pose proof (Hid st (Hl st Hst)). congruence.
  - intros w Hw'. destruct (Hw w Hw') as [_ Hcl]. split; [done|]. apply Hcl.
Qed.
(** *** Outcomes *)

(** A success grants; a retry that failed leaves its queued record without a slot. *)
Definition answers s (status : AllocationStatus) (err : option error) : Prop :=
  match err with None => granted s status | Some _ => own_idle s end.

(** What an attempt that selected a backend leaves, seen from the state [s0] the loop started in: the ledger
    holds, and another attempt has fewer backends to try. *)
Definition settles (k : loop_env) (l : loop_state) s0 (selected : BackendName) (r : outcome * Service S) : Prop :=
  Inv r.2 ∧ moves s0 r.2 ∧
  match r.1 with
  | Done status err => answers r.2 status err
  | Again l' =>
      ls_preReserved l' = None ∧ existing_ok r.2 (ls_existing l') ∧
      (ls_reservePool l' = withoutBackend (ls_reservePool l) selected ∨
       is_arc selected = true ∧ ls_reservePool l' = arc_fallback_pool k selected)
  end.

(** The allocation is over. *)
Definition ends (r : outcome * Service S) : Prop :=
  match r.1 with Done status err => answers r.2 status err | Again _ => False end.

Lemma failed_ends err s : own_idle s → ends (failed err, s).
Proof. done. Qed.

Lemma settles_done k l s0 selected r : Inv r.2 → moves s0 r.2 → ends r → settles k l s0 selected r.
Proof. intros ?? Hr. split_and!; [done|done|]. by destruct r as [[] ?]. Qed.

Lemma existing_idle s existing : existing_ok s existing → blank_id existing = false → idle s (as_ID existing).
Proof. intros [Hb Hi] Hf. rewrite Hb. apply Hi. rewrite <- Hf. unfold blank_id. by rewrite Hb. Qed.

Lemma queue_or_fail_spec s request (pool : PoolName) b cause existing now :
  Inv s → existing_ok s existing →
  let r := queue_or_fail cfg ids ctx s request pool b cause existing now in Inv r.2 ∧ evolves s r.2 ∧ ends r.
Proof.
  intros Hi Hx. cbn zeta. unfold queue_or_fail.
  destruct (queue_spec s request pool b cause existing now Hi (existing_idle _ _ Hx)) as (Hi' & He' & Hg).
  destruct (queueAllocation _ _ _ _ _ _ _ _ _ _) as [[queued|] s']; (split_and!; [done|done|]); [by apply Hg|].
  apply failed_ends. eapply own_evolves; [exact He'|by eapply existing_own].
Qed.

Lemma on_reserve_error_spec k l s err now :
  Inv s → existing_ok s (ls_existing l) →
  let r := on_reserve_error cfg ids ctx k l s err now in Inv r.2 ∧ evolves s r.2 ∧ ends r.
Proof.
  intros Hi He. cbn zeta. unfold on_reserve_error.
  pose proof (queue_or_fail_spec s (ls_reserveRequest l) (pc_Name (ls_reservePool l)) "" err (ls_existing l) now Hi He) as Hq.
  repeat case_match; try done; split_and!; try done; apply failed_ends; by eapply existing_own.
Qed.

Lemma on_refused_spec k l s0 s selected reason now :
  moves s0 s → owed s (ls_reservePool l) selected → existing_ok s (ls_existing l) →
  settles k l s0 selected (on_refused cfg has_cleanup ids ctx k l s selected reason now).
Proof.
  intros Hm Ho He. unfold on_refused.
  match goal with |- context [release has_cleanup s (ls_reservePool l) selected ?a now] =>
    destruct (owed_release s (ls_reservePool l) selected a now Ho) as (Hi1 & He1 & _);
    set (s1 := release has_cleanup s (ls_reservePool l) selected a now) in * end.
  assert (Hm1 : moves s0 s1) by (etrans; [exact Hm|by apply evolves_moves]).
  assert (Hx1 : existing_ok s1 (ls_existing l)) by (by eapply existing_evolves).
  assert (Hq : ∀ cause, settles k l s0 selected
    (queue_or_fail cfg ids ctx s1 (ls_reserveRequest l) (pc_Name (ls_reservePool l)) selected cause (ls_existing l) now)).
  { intros cause. destruct (queue_or_fail_spec s1 (ls_reserveRequest l) (pc_Name (ls_reservePool l)) selected cause (ls_existing l) now
      Hi1 Hx1) as (? & ? & ?). apply settles_done; [done| |done]. etrans; [exact Hm1|by apply evolves_moves]. }
  assert (Harc : arc_lane_open k selected = true → is_arc selected = true).
  { unfold arc_lane_open. by intros [[? _]%andb_true_iff _]%andb_true_iff. }
  cbn zeta. case_match; [|case_match; [|apply Hq]].
  - destruct (arc_lane_open k selected) eqn:Hopen; [|apply Hq].
    split_and!; [done|done|]. cbn. split_and!; [done|done|]. right. by split; [apply Harc|].
  - destruct (negb (no_backends _)); [|by apply settles_done; [| |apply failed_ends, (existing_own s1 (ls_existing l))]].
    split_and!; [done|done|]. cbn. split_and!; [done|done|].
    destruct (arc_lane_open k selected) eqn:Hopen; [|by left]. right. by split; [apply Harc|].
Qed.

(** Releasing through one record while cleaning up another. *)
Lemma release_cleanup_frame s pool b warm allocation now :
  let s' := cleanupAllocation has_cleanup (release_slot s pool b warm now) allocation in
  records s' = records s ∧ sv_nextID s' = sv_nextID s ∧ ∀ k p b', slots s' k p b' = give (slots s) pool b k p b'.
Proof.
  cbn zeta. destruct (cleanup_frame has_cleanup (release_slot s pool b warm now) allocation) as (Hr & Hs & Hn).
  destruct (release_slot_frame s pool b warm now) as (Hst & Hn').
  split_and!; [rewrite Hr; unfold records; by rewrite Hst|congruence|].
  intros k p b'. unfold slots. rewrite Hs. apply release_slot_slots.
Qed.

(** The reserved record of this allocation. *)
Definition reserved_at s pool (b : BackendName) (id : string) : Prop :=
  ∃ st, records s !! id = Some st ∧ as_State st = StateReserved ∧ lane_of st = Some (pc_Name pool, b).

Lemma evolves_delete s s' id : records s' = delete id (records s) → sv_nextID s' = sv_nextID s → evolves s s'.
Proof.
  intros Hr Hn. split; [lia|]. intros i st _. rewrite Hr, lookup_delete_Some. intros [_ Hst] _. right. exists st. auto.
Qed.

Lemma on_warm_spec k l s0 s selected warm allocation now :
  Inv s → moves s0 s → pool_ok (ls_reservePool l) → reserved_at s (ls_reservePool l) selected (as_ID allocation) →
  claimed s (ls_reservePool l) selected warm →
  settles k l s0 selected (on_warm has_cleanup l s selected warm allocation now).
Proof.
  intros Hi Hm (r & Hr & Hp) (st & Ho & Hst & Hlane) (Hw & Hws & Hwp & Hwb). unfold on_warm.
  set (pool := ls_reservePool l) in *.
  set (s1 := if fs_Enabled (pc_FairShare pool) then _ else _).
  assert (H1 : records s1 = records s ∧ sv_nextID s1 = sv_nextID s ∧
    ∀ k p b', slots s1 k p b' = give (slots s) pool selected k p b').
  { subst s1. destruct (fs_Enabled (pc_FairShare pool)); [apply release_cleanup_frame|apply release_frame]. }
  clearbody s1. destruct H1 as (Hr1 & Hn1 & Hs1). unfold store_delete.
  destruct (reliable_delete (sv_store s1) (as_ID allocation)) as [Hres Hc]. destruct (store_Delete _ _) as [err st2].
  cbn in Hres, Hc. subst err. set (s2 := { s1 with sv_store := st2 }).
  assert (Hr2 : records s2 = delete (as_ID allocation) (records s)) by (rewrite <- Hr1; exact Hc).
  assert (Ha : isSchedulerAccountedState (as_State st) = true) by (by rewrite Hst).
  assert (Hpl : as_Pool st = pc_Name pool ∧ as_SelectedBackend st = selected).
  { unfold lane_of in Hlane. rewrite Ha in Hlane. by injection Hlane. }
  destruct Hpl as [Hpl Hbl].
  assert (Hi2 : Inv s2).
  { unfold ServiceTheory.Inv. rewrite Hr2. change (sv_nextID s2) with (sv_nextID s1). rewrite Hn1.
    eapply ledger_ext; [eapply (ledger_drop_delete cfg ids _ _ _ _ st r); [exact Hi|exact Ho|exact Ha|by rewrite Hpl]|].
    intros k' p b'. unfold ServiceTheory.net at 1. change (slots s2 k' p b') with (slots s1 k' p b').
    rewrite Hs1, Hbl, (give_same _ pool r _ _ _ _ Hp). eapply net_give; [done|exact Hi|]. rewrite <- Hbl.
    eapply resolved_lane; [exact Hi|exact Ho|done|by rewrite Hpl]. }
  assert (He2 : evolves s s2) by (eapply evolves_delete; [exact Hr2|exact Hn1]).
  set (warm' := hand_over _ _ _ _ _). set (s3 := { s2 with sv_store := (store_Save (sv_store s2) warm').2 }).
  assert (Hneq : as_ID allocation ≠ as_ID warm) by (intros He; rewrite He in Ho; congruence).
  assert (Hw2 : records s2 !! as_ID warm = Some warm) by (by rewrite Hr2, lookup_delete_ne).
  assert (Hs3 : stored s2 s3 (as_ID warm) warm') by (split_and!; [exact (proj2 (save_spec s2 warm'))|done|done]).
  destruct (keep_safe cfg ids s2 s3 (as_ID warm) warm') with (out := out) as [Hi3 He3]; [by eapply known_stored|done| | |done|done|done|].
  - rewrite (lane_at_Some _ _ _ Hw2). unfold lane_of. by rewrite Hws.
  - intros old Ho' _. left. rewrite Hw2 in Ho'. injection Ho' as <-. by rewrite Hws.
  - pose proof (recordBudgetUsage_frame s3 pool selected now) as Hf.
    apply settles_done; [by eapply frame_inv| |].
    2: { eapply granted_frame; [exact Hf|]. split; [|by left]. destruct Hs3 as (Hr3 & _). rewrite Hr3. apply lookup_insert_eq. }
    etrans; [exact Hm|]. apply evolves_moves.
    etrans; [exact He2|]. etrans; [exact He3|]. by apply frame_evolves.
Qed.
(** *** After Provision *)

(** Our record while others ran: still reserved, or it no longer holds a slot. *)
Definition ours s pool (b : BackendName) allocation : Prop :=
  known ids (sv_nextID s) (as_ID allocation) ∧
  (lane_at (records s) (as_ID allocation) = None ∨ reserved_at s pool b (as_ID allocation)).

Lemma ours_evolves s s' pool b allocation : evolves s s' → ours s pool b allocation → ours s' pool b allocation.
Proof.
  intros He [Hk Hl]. split; [intros n Hn; apply Hk; destruct He; lia|].
  destruct Hl as [Hl|(st & Ho & Hst & Hlane)]; [left; by apply (idle_evolves s s')|].
  destruct (lane_at (records s') (as_ID allocation)) as [lane|] eqn:Hl'; [|by left]. right.
  unfold lane_at in Hl'. destruct (records s' !! as_ID allocation) as [st'|] eqn:Ho'; [|done]. cbn in Hl'.
  assert (Ha' : isSchedulerAccountedState (as_State st') = true) by (revert Hl'; unfold lane_of; by case_match).
  destruct (evolves_accounted _ _ _ _ He Hk Ho' Ha') as (st0 & Ho0 & Hl0 & Hst0). simplify_eq.
  exists st'. split_and!; [done|destruct Hst0; congruence|congruence].
Qed.

Lemma abandon_spec s pool b allocation message now :
  Inv s → pool_ok pool → ours s pool b allocation → as_SelectedBackend allocation = b →
  let s' := (abandonReservedAllocation has_cleanup s pool allocation StateFailed message now).2 in
  Inv s' ∧ evolves s s' ∧ idle s' (as_ID allocation).
Proof.
  intros Hi (r & Hr & Hp) [Hk Hl] Hb. cbn zeta. unfold abandonReservedAllocation.
  pose proof (cas_spec s (as_ID allocation) StateReserved StateFailed now message) as Hc. cbn zeta in Hc.
  destruct (store_CompareAndMarkState _ _ _ _ _ _) as [res st1]. cbn [fst snd] in Hc.
  set (s1 := { s with sv_store := st1 }). destruct Hl as [Hl|(st & Ho & Hst & Hlane)].
  - assert (Hsame : res = None ∧ contents st1 = records s).
    { unfold lane_at in Hl. destruct (records s !! as_ID allocation) as [st|]; [|done]. cbn in Hl.
      unfold state_eqb in Hc. case_bool_decide as Hst; [|done]. unfold lane_of in Hl. by rewrite Hst in Hl. }
    destruct Hsame as [-> Hsame]. assert (Hf : frame s s1) by (split_and!; [exact Hsame|done|done]). cbn [snd].
    split_and!; [by eapply frame_inv|by apply frame_evolves|]. split; [|done].
    destruct Hf as (Hf & _). by rewrite Hf.
  - rewrite Ho in Hc. unfold state_eqb in Hc. rewrite bool_decide_true in Hc by done. destruct Hc as [-> Hc]. cbn [snd].
    assert (Hs : stored s s1 (as_ID allocation) (applyMarkState st StateFailed now message)) by (split_and!; [exact Hc|done|done]).
    assert (Ha : isSchedulerAccountedState (as_State st) = true) by (by rewrite Hst).
    unfold lane_of in Hlane. rewrite Ha in Hlane. injection Hlane as Hpl Hbl. rewrite Hb, <- Hbl.
    destruct (unaccount_release cfg has_cleanup ids s s1 (as_ID allocation) st StateFailed now message Ho eq_refl Hs r pool
      (applyMarkState st StateFailed now message) now) with (out := out) as [Hi' He']; [done|by rewrite Hpl|done|done|done|].
    split_and!; [done|done|]. destruct (release_frame has_cleanup s1 pool (as_SelectedBackend st)
      (applyMarkState st StateFailed now message) now) as (Hr' & Hn' & _). split; [|rewrite Hn'; exact Hk].
    destruct Hs as (Hrec & _). rewrite Hr', Hrec, (lane_at_Some _ _ _ (lookup_insert_eq _ _ _)). by rewrite lane_mark.
Qed.

Lemma delete_idle s id : Inv s → lane_at (records s) id = None →
  Inv (store_delete s id).2 ∧ evolves s (store_delete s id).2.
Proof.
  intros Hi Hl. unfold store_delete. destruct (reliable_delete (sv_store s) id) as [_ Hc]. destruct (store_Delete _ _) as [err st].
  cbn in Hc |- *. split; [|by eapply evolves_delete]. unfold ServiceTheory.Inv.
  change (records { s with sv_store := st }) with (contents st). rewrite Hc. by apply ledger_delete.
Qed.

Lemma forget_spec l s0 s1 s allocation err :
  existing_ok s0 (ls_existing l) → ours_id s1 (as_ID allocation) → blank_id allocation = false → Inv s → idle s (as_ID allocation) →
  let r := forget_attempt l s allocation err in Inv r.2 ∧ evolves s r.2 ∧ existing_ok r.2 r.1.
Proof.
  intros [Hb _] Hours Hnb Hi [Hl Hk]. cbn zeta. unfold forget_attempt, ours_id, blank_id in *. rewrite Hb.
  change (String.eqb own "") with fresh. destruct fresh eqn:Hfr.
  - destruct (delete_idle s (as_ID allocation) Hi Hl) as [Hi' He']. split_and!; [done|done|].
    split; [symmetry; by apply String.eqb_eq|intros Hf; congruence].
  - cbn. split_and!; [done|done|]. split; [exact Hours|]. intros _. by rewrite <- Hours.
Qed.

Lemma on_provision_error_spec k l s0 t1 t2 s selected allocation err now :
  Inv s → moves s0 s → pool_ok (ls_reservePool l) → existing_ok t1 (ls_existing l) → ours_id t2 (as_ID allocation) → blank_id allocation = false →
  as_SelectedBackend allocation = selected → ours s (ls_reservePool l) selected allocation →
  settles k l s0 selected (on_provision_error cfg has_cleanup ids ctx k l s selected allocation err now).
Proof.
  intros Hi Hm Hpool Hb Hid Hnb Hsel Hours. unfold on_provision_error.
  pose proof (recordBackendFailure_frame s (ls_reservePool l) selected err now) as Hf.
  set (s1 := recordBackendFailure s (ls_reservePool l) selected err now) in *.
  assert (Hi1 : Inv s1) by (by eapply frame_inv).
  assert (Hm1 : moves s0 s1) by (etrans; [exact Hm|by apply evolves_moves, frame_evolves]).
  cbn zeta. destruct (state_eqb _ StateCanceled) eqn:Hcan.
  { apply settles_done; [done|done|]. cbn. eapply (own_of _ _ t2); [exact Hid|]. eapply idle_evolves; [by apply frame_evolves|].
    destruct Hours as [Hk [Hl|(st & Ho & Hst & _)]]; [by split|]. destruct Hf as (Hr & _).
    rewrite get_records, Hr, Ho in Hcan. cbn in Hcan. by rewrite Hst in Hcan. }
  destruct (abandon_spec s1 (ls_reservePool l) selected allocation (Error err) now Hi1 Hpool) as (Hi2 & He2 & Hidle2);
    [by eapply ours_evolves; [apply frame_evolves|]|done|].
  destruct (abandonReservedAllocation _ s1 _ _ _ _ _) as [[abandoned ok] s2]. cbn [snd] in Hi2, He2, Hidle2.
  assert (Hm2 : moves s0 s2) by (etrans; [exact Hm1|by apply evolves_moves]).
  assert (Hown2 : own_idle s2) by (by eapply own_of).
  destruct (_ && _); [by apply settles_done|]. destruct (_ && _); [by apply settles_done|].
  destruct (forget_spec l t1 t2 s2 allocation err Hb Hid Hnb Hi2 Hidle2) as (Hi3 & He3 & Hx3).
  assert (Hm3 : moves s0 (forget_attempt l s2 allocation err).2) by (etrans; [exact Hm2|by apply evolves_moves]).
  assert (Hcap : ∀ name, forget_attempt { l with ls_capacityFallback := name } s2 allocation err = forget_attempt l s2 allocation err) by done.
  destruct (IsCapacityExhausted (Some err)).
  - destruct (_ && _).
    + apply settles_done; cbn [fst snd]; [| |].
      * destruct (blank_id (ls_existing l)); [apply delete_idle; [done|apply Hidle2]|done].
      * destruct (blank_id (ls_existing l)); [|done]. etrans; [exact Hm2|]. apply evolves_moves, delete_idle; [done|apply Hidle2].
      * cbn. destruct (blank_id (ls_existing l)); [|done]. eapply own_evolves; [|exact Hown2]. apply delete_idle; [done|apply Hidle2].
    + rewrite Hcap. destruct (forget_attempt l s2 allocation err) as [existing s3]. cbn [fst snd] in *.
      case_match; [|apply settles_done; [done|done|apply failed_ends; by eapply existing_own]].
      split_and!; [done|done|]. cbn. split_and!; [done|done|].
      destruct (is_arc selected) eqn:Harc; [|by left]. destruct (le_pinned k); [by left|]. by right.
  - destruct (arc_lane_open k selected && isARCUnavailableFailure err) eqn:Harc.
    + assert (Hia : is_arc selected = true).
      { apply andb_true_iff in Harc as [Hopen _]. unfold arc_lane_open in Hopen. by apply andb_true_iff in Hopen as [[? _]%andb_true_iff _]. }
      destruct (forget_attempt l s2 allocation err) as [existing s3]. cbn [fst snd] in *.
      assert (Hidle3 : idle s3 (as_ID allocation)) by (by eapply idle_evolves).
      destruct (negb (no_backends _)); cbn [andb].
      * split_and!; [done|done|]. cbn. split_and!; [done|done|]. by right.
      * destruct (queue_spec s3 (ls_reserveRequest l) (pc_Name (ls_reservePool l)) selected err allocation now Hi3) as (Hi4 & He4 & Hg4); [done|].
        destruct (queueAllocation _ _ _ _ _ _ _ _ _ _) as [[queued|] s4]; cbn [snd] in *; [|case_match];
          (apply settles_done; [done|etrans; [exact Hm3|by apply evolves_moves]|]);
          first [by apply Hg4|eapply own_evolves; [exact He4|by eapply own_of]].
    + cbn [andb]. destruct (queue_spec s2 (ls_reserveRequest l) (pc_Name (ls_reservePool l)) selected err allocation now Hi2) as (Hi4 & He4 & Hg4); [done|].
      destruct (queueAllocation _ _ _ _ _ _ _ _ _ _) as [[queued|] s4]; cbn [snd] in *; [|case_match];
        (apply settles_done; [done|etrans; [exact Hm2|by apply evolves_moves]|]);
        first [by apply Hg4|by eapply own_evolves].
Qed.
(** The allocation's own record may take any state. *)
Lemma moves_put s0 s s' id status :
  moves s0 s → ours_id s0 id → stored s s' id status → moves s0 s'.
Proof.
  intros Hm Hid (Hr & _ & Hn). destruct Hm as [Hnext Hlane]. split; [lia|].
  intros i st Hi. rewrite Hr, lookup_insert_Some. intros [[<- <-]|[_ ?]] Ha; [|by apply Hlane].
  unfold ours_id in Hid. destruct fresh; [by left|by destruct Hi].
Qed.

Lemma finalize_frame s allocation : frame s (finalizeCanceledDuringProvision has_cleanup s allocation).2 ∧
  (own_idle s → ends (finalizeCanceledDuringProvision has_cleanup s allocation)).
Proof.
  unfold finalizeCanceledDuringProvision. match goal with |- context [cleanupAllocation _ _ ?a] =>
    pose proof (cleanup_frame has_cleanup s a) as Hf; set (status := a) in * end.
  repeat case_match; (split; [exact Hf|]); intros Hx; (eapply own_evolves; [by apply frame_evolves|exact Hx]).
Qed.

Lemma on_provisioned_spec k l s0 s selected allocation runner now :
  Inv s → moves s0 s → as_State allocation = StateReserved → lane_of allocation = Some (pc_Name (ls_reservePool l), selected) →
  ours_id s0 (as_ID allocation) →
  ours s (ls_reservePool l) selected allocation →
  settles k l s0 selected (on_provisioned cfg has_cleanup l s selected allocation runner now).
Proof.
  intros Hi Hm Hst Hlane Hfresh [Hk Hours]. unfold on_provisioned.
  match goal with |- context [store_SaveIfState (sv_store s) ?a StateReserved] => set (ready := a) end.
  assert (Hready : as_ID ready = as_ID allocation ∧ lane_of ready = lane_of allocation).
  { split; [done|]. unfold lane_of. by rewrite Hst. }
  destruct Hready as [Hid Hrl]. destruct (reliable_save_if_state (sv_store s) ready StateReserved) as [Hres Hc].
  revert Hres Hc. store_op Memory.SaveIfState. change (contents (sv_store s)) with (records s).
  change (as_ID ready) with (as_ID allocation).
  destruct (store_SaveIfState _ _ _) as [saved st1]. set (s1 := { s with sv_store := st1 }).
  destruct Hours as [Hl|(st & Ho & Hs & Hl)].
  - intros Hres Hc. assert (Hsame : saved = Ok false ∧ contents st1 = records s).
    { unfold lane_at in Hl. destruct (records s !! as_ID allocation) as [st|]; [|done]. cbn in Hl.
      unfold state_eqb in *. case_bool_decide as Hst'; [|done]. unfold lane_of in Hl. by rewrite Hst' in Hl. }
    destruct Hsame as [-> Hsame]. assert (Hf : frame s s1) by (split_and!; [exact Hsame|done|done]).
    destruct (finalize_frame s1 ready) as [Hf2 Hd]. pose proof (frame_trans _ _ _ Hf Hf2) as Hf3.
    apply settles_done; [by eapply frame_inv|etrans; [exact Hm|by apply evolves_moves, frame_evolves]|].
    apply Hd. eapply own_evolves; [by apply frame_evolves|]. eapply own_of; [exact Hfresh|by split].
  - rewrite Ho. unfold state_eqb. rewrite bool_decide_true by done. cbn. intros -> Hc.
    assert (Hst1 : stored s s1 (as_ID allocation) ready) by (split_and!; [exact Hc|done|done]).
    assert (Hi1 : Inv s1).
    { destruct Hst1 as (Hr & _ & _). unfold ServiceTheory.Inv. rewrite Hr. change (sv_nextID s1) with (sv_nextID s).
      apply ledger_keep; [exact Hi|exact Hk|done|]. by rewrite Hrl, Hlane, (lane_at_Some _ _ _ Ho). }
    assert (Hm1 : moves s0 s1) by (by eapply moves_put).
    set (s2 := notifyReady s1 ready). set (s3 := recordBackendSuccess s2 (ls_reservePool l) selected now).
    assert (Hf : frame s1 (recordBudgetUsage s3 (ls_reservePool l) selected now)).
    { eapply frame_trans; [apply notifyReady_frame|]. eapply frame_trans; [apply recordBackendSuccess_frame|apply recordBudgetUsage_frame]. }
    apply settles_done; [by eapply frame_inv|etrans; [exact Hm1|by apply evolves_moves, frame_evolves]|].
    eapply granted_frame; [exact Hf|]. split; [|by left]. destruct Hst1 as (Hr1 & _). rewrite Hr1. apply lookup_insert_eq.
Qed.

Lemma on_admitted_spec k l s0 s selected now :
  moves s0 s → owed s (ls_reservePool l) selected → pool_ok (ls_reservePool l) → existing_ok s (ls_existing l) →
  settles k l s0 selected (on_admitted cfg has_cleanup ids env ctx k l s selected now).
Proof.
  intros Hm Ho Hpool Hx. unfold on_admitted. set (pool := ls_reservePool l) in *. set (request := ls_reserveRequest l).
  pose proof (prepare_prepared s request (ls_existing l) pool selected (le_timeout k) now Ho Hx) as Hpre.
  destruct (prepareAllocation _ _ _ _ _ _ _ _ _) as [allocation s1]. cbn [fst snd] in Hpre.
  destruct Hpre as [Howed Hrec Hnext Hidle Hlane Hstate Hback Hnb Hfresh].
  assert (Hm1 : moves s0 s1) by (etrans; [exact Hm|by apply evolves_moves, same_records]).
  assert (Hx1 : existing_ok s1 (ls_existing l)) by (eapply existing_evolves; [by apply same_records|exact Hx]).
  assert (Hours0 : ours_id s0 (as_ID allocation)).
  { revert Hfresh. unfold ours_id. destruct fresh; [|done]. intros (n & Hn & Hid). exists n. split; [|done]. destruct Hm. lia. }
  pose proof (saveReserved_spec s1 pool selected allocation Howed Hpool Hidle Hlane) as Hsave.
  destruct (saveReservedAllocation cfg s1 allocation pool) as [[err|] s2].
  - assert (Ho2 : owed s2 pool selected) by (by eapply owed_frame).
    destruct (owed_release s2 pool selected allocation now Ho2) as (Hi3 & He3 & _).
    set (s3 := release has_cleanup s2 pool selected allocation now) in *.
    assert (He13 : evolves s1 s3) by (etrans; [by apply frame_evolves|exact He3]).
    assert (Hm3 : moves s0 s3) by (etrans; [exact Hm1|by apply evolves_moves]).
    assert (Hx3 : existing_ok s3 (ls_existing l)) by (by eapply existing_evolves).
    case_match; [|apply settles_done; [done|done|apply failed_ends; by eapply existing_own]].
    destruct (queue_or_fail_spec s3 request (pc_Name pool) selected (Sentinel ErrNoCapacity) (ls_existing l) now Hi3 Hx3) as (Hi4 & He4 & Hd4).
    apply settles_done; [done| |done]. etrans; [exact Hm3|by apply evolves_moves].
  - destruct Hsave as [Hi2 Hst2]. assert (Hm2 : moves s0 s2) by (by eapply moves_put).
    assert (Hrec2 : records s2 !! as_ID allocation = Some allocation) by (destruct Hst2 as (-> & _); apply lookup_insert_eq).
    assert (Hk2 : known ids (sv_nextID s2) (as_ID allocation)) by (destruct Hst2 as (_ & _ & ->); apply Hidle).
    assert (Hra : reserved_at s2 pool selected (as_ID allocation)) by (by exists allocation).
    assert (Ha : isSchedulerAccountedState (as_State allocation) = true) by (by rewrite Hstate).
    destruct Hpool as (r & Hr & Hp). pose proof (ex_intro _ r (conj Hr Hp) : pool_ok pool) as Hpool.
    destruct (env_provision env selected) as [provision|].
    + pose proof (consume_spec s2 pool selected allocation (as_ID allocation) now Hi2 Hpool) as Hc.
      destruct (consumeWarmAllocation _ _ s2 _ _ _ _) as [[warm|] s3].
      * destruct Hc as (Hi3 & He3 & Ho3 & Hw3); [intros st; rewrite Hrec2; by intros [= <-]|].
        destruct (Hw3 warm eq_refl) as [Hcl _]. apply on_warm_spec; [done| |done| |done].
        -- etrans; [exact Hm2|by apply evolves_moves].
        -- exists allocation. by rewrite Ho3.
      * destruct Hc as (Hi3 & He3 & Ho3 & _); [intros st; rewrite Hrec2; by intros [= <-]|].
        destruct (interfere_safe s3 out out_nonneg Hi3) as [Hi4 He4]. set (s4 := env_interfere env s3) in *.
        assert (Hm4 : moves s0 s4) by (etrans; [exact Hm2|apply evolves_moves; by etrans]).
        assert (Hours : ours s4 pool selected allocation).
        { eapply ours_evolves; [etrans; [exact He3|exact He4]|]. split; [done|by right]. }
        destruct (provision request allocation) as [runner|err].
        -- by apply on_provisioned_spec.
        -- eapply on_provision_error_spec; [done..|exact Hx|exact Hours0|done|done|done].
    + destruct (release_frame has_cleanup s2 pool selected allocation now) as (Hr3 & Hn3 & Hs3).
      set (s3 := release has_cleanup s2 pool selected allocation now) in *.
      pose proof (markState_spec s3 (as_ID allocation) StateFailed now "backend not registered") as Hmark.
      rewrite Hr3, Hrec2 in Hmark. destruct Hmark as [_ Hst4].
      set (s4 := (markState s3 (as_ID allocation) StateFailed now "backend not registered").2) in *.
      unfold lane_of in Hlane. rewrite Ha in Hlane. injection Hlane as Hpl Hbl.
      set (gone := applyMarkState allocation StateFailed now "backend not registered") in *.
      assert (Hgone : lane_of gone = None) by (unfold gone; by rewrite lane_mark).
      destruct Hst4 as (Hr4 & Hs4 & Hn4). rewrite Hr3 in Hr4. apply settles_done; cbn [fst snd].
      * unfold ServiceTheory.Inv. rewrite Hr4, Hn4, Hn3.
        eapply ledger_ext; [eapply (ledger_drop cfg ids _ _ _ _ allocation gone r); [exact Hi2|done|done|by unfold gone; rewrite applyMarkState_ID|done|by rewrite Hpl]|].
        intros k' p b'. unfold ServiceTheory.net at 1, slots. rewrite Hs4. change (kind_active (sv_scheds s3) k' p b') with (slots s3 k' p b').
        rewrite Hs3, Hbl, (give_same _ pool r _ _ _ _ Hp). eapply net_give; [done|exact Hi2|]. rewrite <- Hbl.
        eapply resolved_lane; [exact Hi2|exact Hrec2|done|by rewrite Hpl].
      * etrans; [exact Hm2|]. apply evolves_moves. eapply evolves_put; [exact Hr4|lia|by left].
      * eapply own_of; [exact Hours0|]. split; [cbn; by rewrite Hr4, (lane_at_Some _ _ _ (lookup_insert_eq _ _ _))|].
        cbn. by rewrite Hn4, Hn3.
Qed.
(** *** The loop *)

Definition has_backend pool (b : BackendName) : bool := bool_decide (is_Some (pc_Backends pool !! b)).

(** The attempts left: one per backend of the pool, and one per backend of the lane that takes over from ARC. *)
Definition attempts (k : loop_env) pool : nat :=
  size (pc_Backends pool) + (if has_backend pool BackendARC then size (pc_Backends (le_fallbackPool k)) else 0).

Lemma keep_backends_size keep pool : (size (pc_Backends (keep_backends keep pool)) ≤ size (pc_Backends pool))%nat.
Proof. apply map_subseteq_size, map_filter_subseteq. Qed.

Lemma withoutBackend_lookup pool b b' : pc_Backends (withoutBackend pool b) !! b' = if decide (b' = b) then None else pc_Backends pool !! b'.
Proof.
  unfold withoutBackend, keep_backends, with_backends. cbn. case_decide as Hb.
  - apply map_lookup_filter_None. right. intros c _. cbn. subst. by rewrite String.eqb_refl.
  - destruct (pc_Backends pool !! b') as [c|] eqn:Hc.
    + apply map_lookup_filter_Some. split; [done|]. cbn. by apply negb_true_iff, String.eqb_neq.
    + apply map_lookup_filter_None. by left.
Qed.

Lemma withoutBackend_size pool b : is_Some (pc_Backends pool !! b) →
  (size (pc_Backends (withoutBackend pool b)) < size (pc_Backends pool))%nat.
Proof.
  intros [c Hc]. apply map_subset_size. split; [apply map_filter_subseteq|]. intros Hsub.
  pose proof (lookup_weaken _ _ _ _ Hc Hsub) as Hw. rewrite withoutBackend_lookup, decide_True in Hw by done. done.
Qed.

Lemma fallback_without_arc pool : has_backend (fallbackBackends pool) BackendARC = false.
Proof.
  unfold has_backend. apply bool_decide_eq_false_2. intros [c Hc]. unfold fallbackBackends, keep_backends, with_backends in Hc.
  cbn in Hc. by apply map_lookup_filter_Some in Hc as [_ Hk].
Qed.

Lemma attempts_decrease k pool pool' selected :
  is_Some (pc_Backends pool !! selected) →
  pool' = withoutBackend pool selected ∨ is_arc selected = true ∧ pool' = arc_fallback_pool k selected →
  (attempts k pool' < attempts k pool)%nat.
Proof.
  intros Hin [->|[Harc ->]]; unfold attempts.
  - pose proof (withoutBackend_size pool selected Hin).
    assert (has_backend (withoutBackend pool selected) BackendARC = true → has_backend pool BackendARC = true).
    { unfold has_backend. rewrite !bool_decide_eq_true, withoutBackend_lookup. case_decide; [by intros []|done]. }
    destruct (has_backend (withoutBackend _ _) _), (has_backend pool _); lia || naive_solver.
  - unfold is_arc in Harc. apply String.eqb_eq in Harc. subst selected.
    assert (has_backend pool BackendARC = true) as -> by by apply bool_decide_eq_true_2.
    unfold arc_fallback_pool. rewrite fallback_without_arc.
    pose proof (keep_backends_size (fun name _ => isCloudFallback name || (negb (is_arc name) && negb (isCloudFallback name)))
      (withoutBackend (le_fallbackPool k) BackendARC)) as H1'.
    pose proof (keep_backends_size (fun candidate _ => negb (String.eqb candidate BackendARC)) (le_fallbackPool k)) as H2'.
    assert (size (pc_Backends pool) ≠ 0)%nat.
    { intros Hz. apply map_size_empty_iff in Hz. rewrite Hz, lookup_empty in Hin. by destruct Hin. }
    unfold fallbackBackends, withoutBackend in *. lia.
Qed.

(** Before an attempt: a slot is already reserved, or none is. *)
Definition ready s pool (preReserved : option BackendName) : Prop :=
  match preReserved with
  | Some b => owed s pool b ∧ is_Some (pc_Backends pool !! b)
  | None => Inv s
  end.

Lemma allocate_once_spec k l s0 s :
  moves s0 s → ready s (ls_reservePool l) (ls_preReserved l) → pool_ok (ls_reservePool l) → pool_ok (le_fallbackPool k) →
  existing_ok s (ls_existing l) →
  let r := allocate_once cfg has_cleanup ids env ctx k l s in
  Inv r.2 ∧ moves s0 r.2 ∧
  match r.1 with
  | Done status err => answers r.2 status err
  | Again l' => ready r.2 (ls_reservePool l') (ls_preReserved l') ∧ pool_ok (ls_reservePool l') ∧
      existing_ok r.2 (ls_existing l') ∧ (attempts k (ls_reservePool l') < attempts k (ls_reservePool l))%nat
  end.
Proof.
  intros Hm Hready Hpool Hfall Hx. cbn zeta. unfold allocate_once. set (pool := ls_reservePool l) in *.
  set (res := match ls_preReserved l with Some _ => _ | None => _ end).
  assert (Hres : moves s0 res.2 ∧ existing_ok res.2 (ls_existing l) ∧
    match res.1 with
    | Ok b => owed res.2 pool b ∧ is_Some (pc_Backends pool !! b)
    | Fail _ => Inv res.2
    end).
  { subst res. unfold ready in Hready. destruct (ls_preReserved l) as [b|]; [done|].
    pose proof (reserve_reserves cfg s pool (ls_reserveRequest l) (ls_now l)) as Hr.
    assert (Hev : evolves s (reserve cfg s pool (ls_reserveRequest l) (ls_now l)).2).
    { destruct Hr as (Hs & Hn & _). apply same_records; [unfold records; by rewrite Hs|lia]. }
    split_and!; [etrans; [exact Hm|by apply evolves_moves]|by eapply existing_evolves|].
    destruct (reserve _ _ _ _ _) as [[b|e] s1]; cbn [fst snd].
    - split; [|apply Hr]. by eapply owed_after_reserve.
    - by eapply inv_after_refusal. }
  clearbody res. destruct res as [[selected|err] s1]; cbn [fst snd] in Hres; destruct Hres as (Hm1 & Hx1 & Hs1).
  2: { destruct (on_reserve_error_spec k l s1 err (ls_now l) Hs1 Hx1) as (Hi2 & He2 & Hd2).
       destruct (on_reserve_error _ _ _ _ _ _ _ _) as [[] s2]; [|done]. split_and!; [done| |exact Hd2].
       etrans; [exact Hm1|by apply evolves_moves]. }
  destruct Hs1 as [Ho1 Hin].
  match goal with |- context [allow ?a ?sh ?p ?n ?c ?nw ?w ?co] =>
    pose proof (allow_contents a (sv_store s1) (sv_store s1) p n c nw w co) as Hc; destruct (allow a sh p n c nw w co) as [[decision a'] shared] end.
  cbn [snd] in Hc. set (s2 := { s1 with sv_admission := a'; sv_store := default (sv_store s1) shared }).
  assert (Hf : frame s1 s2) by (split_and!; [exact Hc|done|done]).
  assert (Hm2 : moves s0 s2) by (etrans; [exact Hm1|by apply evolves_moves, frame_evolves]).
  assert (Hx2 : existing_ok s2 (ls_existing l)) by (eapply existing_evolves; [by apply frame_evolves|done]).
  assert (Ho2 : owed s2 pool selected) by (by eapply owed_frame).
  set (r := if ad_Allowed decision then _ else _).
  assert (Hsettle : settles k l s0 selected r).
  { subst r. destruct (ad_Allowed decision); [by apply on_admitted_spec|by apply on_refused_spec]. }
  clearbody r. destruct Hsettle as (Hi3 & Hm3 & Ho3). split_and!; [done|done|].
  destruct r as [[?|l'] s3]; cbn [fst snd] in *; [done|]. destruct Ho3 as (Hpre & Hx3 & Hnext). rewrite Hpre.
  split_and!; [done| |done|by eapply attempts_decrease].
  destruct Hnext as [->|[_ ->]]; [by eapply pool_ok_same; [|exact Hpool]|by eapply pool_ok_same; [|exact Hfall]].
Qed.

(** The call returned its answer. *)
Definition returns (r : option (AllocationStatus * option error) * Service S) : Prop :=
  ∃ status err, r.1 = Some (status, err) ∧ answers r.2 status err.

Lemma returns_failed err s : own_idle s → returns (Some (zero_AllocationStatus, Some err), s).
Proof. intros. by exists zero_AllocationStatus, (Some err). Qed.

(** Enough fuel: the loop returns. *)
Lemma allocate_loop_spec k s0 fuel : ∀ l s,
  (attempts k (ls_reservePool l) < fuel)%nat →
  moves s0 s → ready s (ls_reservePool l) (ls_preReserved l) → pool_ok (ls_reservePool l) → pool_ok (le_fallbackPool k) →
  existing_ok s (ls_existing l) →
  let r := allocate_loop cfg has_cleanup ids env ctx fuel k l s in returns r ∧ Inv r.2 ∧ moves s0 r.2.
Proof.
  induction fuel as [|fuel IH]; intros l s Hfuel Hm Hready Hpool Hfall Hx; [lia|]. cbn [allocate_loop].
  destruct (allocate_once_spec k l s0 s Hm Hready Hpool Hfall Hx) as (Hi1 & Hm1 & Ho1).
  destruct (allocate_once _ _ _ _ _ _ _ _) as [[status err|l'] s1]; cbn [fst snd] in *.
  - split_and!; [by exists status, err|done|done].
  - destruct Ho1 as (Hr1 & Hp1 & Hx1 & Hlt). apply IH; try done. lia.
Qed.
(** *** The lane *)

Definition lane_spec s0 pool existing (r : lane * Service S * Time) : Prop :=
  moves s0 r.1.2 ∧
  match r.1.1 with
  | LaneFailed _ => Inv r.1.2 ∧ own_idle r.1.2
  | Lane pool' _ pre => ready r.1.2 pool' pre ∧ same_pool pool' pool ∧ existing_ok r.1.2 existing
  end.

Lemma arc_wait_spec polls existing pool arcPool request : ∀ s0 s now,
  Inv s → moves s0 s → existing_ok s existing → same_pool arcPool pool →
  lane_spec s0 pool existing (arc_wait cfg env polls s pool arcPool request now).
Proof.
  induction polls as [|ev polls IH]; intros s0 s now Hi Hm Hx Hsame; cbn [arc_wait];
    set (arcRequest := { request with ar_Backend := Some BackendARC }).
  all: pose proof (reserve_reserves cfg s arcPool arcRequest now) as Hr.
  all: assert (Hev : evolves s (reserve cfg s arcPool arcRequest now).2)
    by (destruct Hr as (Hs & Hn & _); apply same_records; [unfold records; by rewrite Hs|lia]).
  all: destruct (reserve cfg s arcPool arcRequest now) as [[b|e] s1]; cbn [snd] in Hev.
  all: assert (Hm1 : moves s0 s1) by (etrans; [exact Hm|by apply evolves_moves]).
  all: assert (Hx1 : existing_ok s1 existing) by (by eapply existing_evolves).
  1, 3: split; [done|]; split; [split; [by eapply owed_after_reserve|apply Hr]|split; [exact Hsame|exact Hx1]].
  all: destruct (inv_after_refusal s s1 arcPool e Hi Hr) as (Hi1 & _).
  all: destruct (negb _); [split; [done|split; [done|by eapply existing_own]]|].
  - split; [done|]. split; [exact Hi1|]. split; [done|exact Hx1].
  - destruct (interfere_safe s1 out out_nonneg Hi1) as [Hi2 He2]. destruct ev as [at_|err].
    + apply IH; [done| | |done]; [etrans; [exact Hm1|by apply evolves_moves]|by eapply existing_evolves].
    + split; [cbn; etrans; [exact Hm1|by apply evolves_moves]|split; [done|]].
      eapply own_evolves; [exact He2|by eapply existing_own].
Qed.

Lemma choose_lane_spec s0 s pool request existing was now :
  Inv s → moves s0 s → existing_ok s existing → lane_spec s0 pool existing (choose_lane cfg env s pool request was now).
Proof.
  intros Hi Hm Hx. unfold choose_lane.
  assert (Hkeep : ∀ s' pool', Inv s' → moves s0 s' → existing_ok s' existing → same_pool pool' pool →
    lane_spec s0 pool existing (Lane pool' request None, s', now)).
  { intros. split; [done|]. split; [assumption|]. split; assumption. }
  destruct (_ || _); [by apply Hkeep|]. destruct (pc_Backends pool !! BackendARC) as [arcCfg|].
  - destruct (negb _); [by apply Hkeep|]. destruct (arcFirstWaits _) as [wait poll]. by apply arc_wait_spec.
  - destruct (_ && _); [|by apply Hkeep]. set (localPool := localBackends pool).
    pose proof (reserve_reserves cfg s localPool request now) as Hr.
    assert (Hev : evolves s (reserve cfg s localPool request now).2)
      by (destruct Hr as (Hs & Hn & _); apply same_records; [unfold records; by rewrite Hs|lia]).
    destruct (reserve cfg s localPool request now) as [[b|e] s1]; cbn [snd] in Hev.
    all: assert (Hm1 : moves s0 s1) by (etrans; [exact Hm|by apply evolves_moves]).
    all: assert (Hx1 : existing_ok s1 existing) by (by eapply existing_evolves).
    + split; [done|]. split; [split; [by eapply owed_after_reserve|apply Hr]|split; [done|exact Hx1]].
    + destruct (inv_after_refusal s s1 localPool e Hi Hr) as (Hi1 & _). case_match; [by apply Hkeep|].
      split; [done|split; [done|by eapply existing_own]].
Qed.

(** *** The whole allocation *)

Lemma allocateNow_spec s request existing now :
  Inv s → existing_ok s existing →
  let r := allocateNow cfg has_cleanup ids env ctx s request existing now in returns r ∧ Inv r.2 ∧ moves s r.2.
Proof.
  intros Hi Hx. cbn zeta. assert (Hm : moves s s) by done. unfold allocateNow.
  assert (Hfail : ∀ err, returns (Some (zero_AllocationStatus, Some err), s)) by (intros; apply returns_failed, Hx).
  destruct (sv_draining s); [done|]. destruct (sv_initErr s); [done|]. destruct (env_health env); [done|].
  destruct (resolvePool cfg (ar_Pool request)) as [pool|err] eqn:Hr; [|done].
  assert (Hpool : pool_ok pool) by (exists pool; split; [by eapply resolvePool_self|done]).
  set (request' := { request with ar_JobTimeout := _ }). set (was := bool_decide _). set (explicit := 0 <? _).
  destruct (narrow_pool_same cfg s pool request' explicit now) as [Hf Hn].
  destruct (narrow_pool cfg s pool request' explicit now) as [[[[[narrowed nrequest] dropped]|err] request''] s1]; cbn [fst snd] in Hf, Hn.
  all: assert (Hi1 : Inv s1) by (by eapply frame_inv).
  all: assert (Hm1 : moves s s1) by (by apply evolves_moves, frame_evolves).
  all: assert (Hx1 : existing_ok s1 existing) by (eapply existing_evolves; [by apply frame_evolves|done]).
  2: { destruct (queue_spec s1 request'' (pc_Name pool) "" err existing now Hi1 (existing_idle _ _ Hx1)) as (Hi2 & He2 & Hg2).
       destruct (queueAllocation _ _ _ _ _ _ _ _ _ _) as [[queued|] s2]; cbn [snd] in *;
         (split_and!; [|done|etrans; [exact Hm1|by apply evolves_moves]]).
    - exists queued, None. split; [done|by apply Hg2].
    - apply returns_failed. eapply own_evolves; [exact He2|apply Hx1]. }
  specialize (Hn _ _ _ eq_refl). assert (Hnp : pool_ok narrowed) by (by eapply pool_ok_same).
  destruct (choose_lane_spec s s1 narrowed nrequest existing was now Hi1 Hm1 Hx1) as [Hm2 Hl2].
  destruct (choose_lane _ _ _ _ _ _ _) as [[[err|reservePool reserveRequest pre] s2] now2]; cbn [fst snd] in *.
  { destruct Hl2 as [Hi2 Ho2]. split_and!; [by apply returns_failed|done|done]. }
  destruct Hl2 as (Hr2 & Hs2 & Hx2). apply allocate_loop_spec; cbn; [|done|done|by eapply pool_ok_same|done|done].
  unfold attempts, allocate_fuel. cbn. case_match; lia.
Qed.
End Allocation.

(** *** A new allocation, seen from the ledger *)

Section Fresh.
Context `{GoRange} `{QualityRanker} {S : Type} `{!AllocationStore S, !AdmissionStateStore S, !ReliableStore S}.
Context (cfg : BrokerConfig) (has_cleanup : BackendName → bool) (ids : nat → string).
Hypothesis ids_inj : ∀ n m, ids n = ids m → n = m.
Hypothesis ids_nonblank : ∀ n, ids n ≠ "".

Lemma allocate_safe env ctx s request now out : (∀ t, safe cfg ids t (env_interfere env t)) →
  nonneg out → Inv cfg ids out s →
  let r := allocateNow cfg has_cleanup ids env ctx s request zero_AllocationStatus now in
  (∃ status err, r.1 = Some (status, err) ∧ (err = None → granted r.2 status)) ∧
  Inv cfg ids out r.2 ∧ evolves ids s r.2.
Proof.
  intros Hsafe Hout Hi. destruct (allocateNow_spec cfg has_cleanup ids env ctx ids_inj ids_nonblank Hsafe out Hout "" s request
    zero_AllocationStatus now Hi) as ((status & err & Hr & Ha) & Hi' & [Hn Hm]); [by split|].
  split; [exists status, err; split; [done|]; intros ->; exact Ha|].
  split; [done|]. split; [done|]. intros id st _. apply Hm. by intros [? _].
Qed.

(** Queueing a new allocation. *)
Lemma queue_safe ctx s request pool b cause now out : nonneg out → Inv cfg ids out s →
  let r := queueAllocation cfg ids ctx s request pool b cause zero_AllocationStatus now in
  Inv cfg ids out r.2 ∧ evolves ids s r.2 ∧ ∀ queued, r.1 = Some queued → granted r.2 queued.
Proof. intros Hout Hi. by apply (queue_spec cfg ids ctx ids_inj out Hout). Qed.
End Fresh.
