(* ===== verification/CapacityMatrix.v ===== *)
(** Rich allocation errors: the capacity snapshot of src/internal/api/capacity_matrix.go,
    [Allocate] and the capacity summaries of src/internal/api/service.go. *)

From stdpp Require Import pretty.
From S2P Require Import Prelude Errors Model Store Scheduler FairShare Registry Backends Budget Capacity Admission.
From S2P Require Import Warm JobRetry TierPolicy ServicePolicy Service ServiceFilters Allocate.
Open Scope Z_scope.
Open Scope go_scope.

Record BackendCapacitySummary := {
  su_AvailableSlots : Z;
  su_ActiveAllocations : Z;
  su_MaxConcurrency : Z;
  su_Status : string;
}.

(** [AllocationError] of package api, whose Unwrap is [ae_Err]. *)
Record AllocationError := {
  ae_Err : error;
  ae_ErrorCode : string;
  ae_Message : string;
  ae_Pool : PoolName;
  ae_RequestedBackend : string;
  ae_CapacitySnapshot : gmap string BackendCapacitySummary;
  ae_SuggestedAction : string;
}.

(** What [Allocate] returns: an error as it is, or wrapped. *)
Inductive api_error := Plain (err : error) | Rich (err : AllocationError).

Definition api_Unwrap (e : api_error) : error := match e with Plain err => err | Rich err => ae_Err err end.

Definition AllocationError_Error (e : AllocationError) : string :=
  if negb (String.eqb (ae_Message e) "") then ae_Message e else Error (ae_Err e).

Definition status_available : string := "available".

#[export] Instance error_eq_dec : EqDecision error.
Proof. solve_decision. Defined.

Section Matrix.
Context `{GoRange} `{QualityRanker} {S : Type} `{!AllocationStore S, !AdmissionStateStore S}.
Context (cfg : BrokerConfig) (has_cleanup : BackendName → bool) (ids : nat → string).
Context (env : Environment S) (ctx : request_context).
Implicit Types (s : Service S) (pool : PoolConfig) (request : AllocationRequest) (now : Time) (b : BackendConfig).

(** [scheds.ForPool(pool).Active] *)
Definition matrix_active s pool (name : BackendName) : Z := Registry_Active (sv_scheds s) pool name.

(** Enabled, healthy and admitted. *)
Definition matrix_admission s pool (name : BackendName) b now : string * Service S :=
  if negb (bc_Enabled b) then ("disabled", s)
  else if negb (bc_Healthy b) then ("unhealthy", s)
  else
    let '(decision, a, st) := allow (sv_admission s) (Some (sv_store s)) (pc_Name pool) name b now false false in
    let s := { s with sv_admission := a; sv_store := default (sv_store s) st } in
    (if negb (ad_Allowed decision) then ad_Reason decision else status_available, s).

Definition matrix_tier s pool (name : BackendName) : string :=
  match TierDecision (sv_tier s) (pc_Name pool) name with
  | Some decision =>
      if String.eqb (Tier.td_State decision) Tier.StateExceeded ||
         (String.eqb (Tier.td_State decision) Tier.StateApproaching &&
          String.eqb (Tier.td_Action decision) Tier.ActionDisable)
      then "tier-blocked" else status_available
  | None => status_available
  end.

Definition matrix_budget s pool (name : BackendName) b now : string * Service S :=
  if negb (bu_Enabled (bc_Budget b)) then (status_available, s)
  else
    let '(decision, t) := Tracker_Allow (sv_budgets s) (Some (sv_store s)) (pc_Name pool) name (bc_Budget b) now in
    (if negb (Budget.bd_Allowed decision) then "budget-exceeded" else status_available, { s with sv_budgets := t }).

Definition matrix_live s (name : BackendName) b (active avail : Z) : string * Z :=
  match Manager_Get (sv_capacity s) name with
  | None => (status_available, avail)
  | Some snap =>
      let '(effMax, okAvail, reason) :=
        EffectiveMaxRunners (bc_MaxRunners b) active (Some snap) (lc_FailureMode (br_LiveCapacity (broker cfg))) in
      if negb okAvail then (if String.eqb reason "" || String.eqb reason "local-full" then "exhausted" else reason, 0)
      else
        let avail := Z.min avail (effMax - active) in
        (status_available,
         if negb (sn_Stale snap) && String.eqb (sn_Err snap) "" && negb (String.eqb (sn_Source snap) "error")
         then Z.min avail (Backends.FreeSlots (sn_Status snap)) else avail)
  end.

Definition summarize s pool (name : BackendName) b now : BackendCapacitySummary * Service S :=
  let active := matrix_active s pool name in
  let avail := Z.max 0 (bc_MaxRunners b - active) in
  let summary status avail := {| su_AvailableSlots := avail; su_ActiveAllocations := active;
                                 su_MaxConcurrency := bc_MaxRunners b; su_Status := status |} in
  let '(status, s) := matrix_admission s pool name b now in
  if negb (String.eqb status status_available) then (summary status 0, s)
  else
    let status := matrix_tier s pool name in
    if negb (String.eqb status status_available) then (summary status 0, s)
    else
      let '(status, s) := matrix_budget s pool name b now in
      if negb (String.eqb status status_available) then (summary status 0, s)
      else
        let '(status, avail) := matrix_live s name b active avail in
        (summary (if String.eqb status status_available && (avail <=? 0) then "exhausted" else status) avail, s).

Definition BuildCapacitySnapshot s pool now : gmap string BackendCapacitySummary * Service S :=
  foldl (fun acc entry =>
    let '(summary, s) := summarize acc.2 pool entry.1 entry.2 now in
    (<[entry.1 := summary]> acc.1, s)) (∅, s) (range (pc_Backends pool)).

Definition has_room (summary : BackendCapacitySummary) : bool :=
  String.eqb (su_Status summary) status_available && (0 <? su_AvailableSlots summary).

(** The names with room, sorted. *)
Definition available_backends (snapshot : gmap string BackendCapacitySummary) : list string :=
  sort_stable string_ltb (range_keys (filter (fun entry => has_room entry.2 = true) snapshot)).

Definition FormatSuggestedAction (requestedBackend : option BackendName)
    (snapshot : gmap string BackendCapacitySummary) : string :=
  let available := available_backends snapshot in
  if (0 <? length available)%nat then
    let availList := Join available ", " in
    match requestedBackend with
    | Some name =>
        if negb (String.eqb name "") then
          "Pinned backend " +:+ quote name +:+
          " is unavailable. Retry with backend=auto or fallback to an available backend: [" +:+ availList +:+ "]."
        else "Retry with backend=auto or select an available backend: [" +:+ availList +:+ "]."
    | None => "Retry with backend=auto or select an available backend: [" +:+ availList +:+ "]."
    end
  else "All pool backends are currently exhausted or blocked. Wait for in-flight jobs to complete or check cluster capacity.".

Definition error_code (err : error) : string :=
  if errors_Is err ErrBackendLiveCapacity || errors_Is err ErrNoCapacity then "capacity_exhausted"
  else if errors_Is err ErrBackendRateLimited then "rate_limited"
  else if errors_Is err ErrBackendCircuitOpen then "circuit_open"
  else if errors_Is err ErrBackendTierBlocked then "tier_blocked"
  else if errors_Is err ErrBackendBudgetExceeded then "budget_exceeded"
  else if errors_Is err ErrNoMatchingBackendCapabilities then "no_matching_capabilities"
  else if errors_Is err ErrUnknownPool then "unknown_pool"
  else "allocation_failed".

(** The errors of [allocateNow] hold no AllocationError of package api, so the
    [errors.As] test of the code fails. *)
Definition wrapAllocationError s (rawPool : PoolConfig) request (err : error) now : api_error * Service S :=
  let pool :=
    if (size (pc_Backends rawPool) =? 0)%nat && negb (String.eqb (ar_Pool request) "")
    then match resolvePool cfg (ar_Pool request) with Ok resolved => resolved | Fail _ => rawPool end
    else rawPool in
  let '(snapshot, s) := BuildCapacitySnapshot s pool now in
  (Rich {| ae_Err := err; ae_ErrorCode := error_code err; ae_Message := Error err; ae_Pool := ar_Pool request;
           ae_RequestedBackend := default "" (ar_Backend request); ae_CapacitySnapshot := snapshot;
           ae_SuggestedAction := FormatSuggestedAction (ar_Backend request) snapshot |}, s).

(** [errors.Is(err, s.initErr)]: [allocateNow] returns the service's own
    [initErr], never wrapped. *)
Definition is_init_error s (err : error) : bool := bool_decide (sv_initErr s = Some err).

(** [now] is also the reading of the clock of a failed attempt's report. *)
Definition Allocate s request now : option (AllocationStatus * option api_error) * Service S :=
  match allocateNow cfg has_cleanup ids env ctx s request zero_AllocationStatus now with
  | (None, s) => (None, s)
  | (Some (status, None), s) => (Some (status, None), s)
  | (Some (status, Some err), s) =>
      if errors_Is err DeadlineExceeded || errors_Is err ContextCanceled || is_init_error s err
      then (Some (status, Some (Plain err)), s)
      else
        let pool := match resolvePool cfg (ar_Pool request) with Ok pool => pool | Fail _ => zero_PoolConfig end in
        let '(err, s) := wrapAllocationError s pool request err now in
        (Some (status, Some err), s)
  end.

(** ** What stops a pool *)

(** [None] is "". *)
Definition liveCapacityLimit s (name : BackendName) b (active : Z) : option string :=
  if negb (lc_Enabled (br_LiveCapacity (broker cfg))) then None
  else match Manager_Get (sv_capacity s) name with
  | None => None
  | Some snap =>
      let '(_, available, reason) :=
        EffectiveMaxRunners (bc_MaxRunners b) active (Some snap) (lc_FailureMode (br_LiveCapacity (broker cfg))) in
      if negb available && negb (String.eqb reason "") then Some reason else None
  end.

Definition counted (what : string) (n limit : Z) : string := what +:+ "(" +:+ pretty n +:+ "/" +:+ pretty limit +:+ ")".

Definition backend_cap s pool (name : BackendName) b : string :=
  let active := store_CountActive (sv_store s) (pc_Name pool) name in
  let shared := store_CountBackendActive (sv_store s) name in
  if negb (bc_Enabled b) || negb (bc_Healthy b) then "disabled"
  else if (0 <? bc_CrossPoolMaxRunners b) && (bc_CrossPoolMaxRunners b <=? shared)
  then counted "crossPoolMaxRunners" shared (bc_CrossPoolMaxRunners b)
  else if bc_MaxRunners b <=? active then counted "maxRunners" active (bc_MaxRunners b)
  else if tr_Enabled (br_TierRouting (broker cfg)) &&
          negb (pinnedBackendAllowedByTier (tr_FailureMode (br_TierRouting (broker cfg))) (sv_tier s) (pc_Name pool) name)
  then "pressure-auto-off"
  else default (counted "free" active (bc_MaxRunners b)) (liveCapacityLimit s name b active).

Definition noCapacityCaps s (poolName : PoolName) : string :=
  match resolvePool cfg poolName with
  | Fail _ => "unknown-pool"
  | Ok pool =>
      let names := sort_stable string_ltb (range_keys (pc_Backends pool)) in
      Join ((fun raw => raw +:+ "=" +:+ backend_cap s pool raw (pc_Backends pool).[raw]) <$> names) ","
  end.
End Matrix.
