(* ===== verification/Http.v ===== *)
(** The HTTP surface: src/internal/api/http.go and request.go, with the
    correlation identifiers and principals of observability.go.

    A handler maps the broker and a request to a response; the [Server]'s
    options do not change.  encoding/json and time.ParseDuration are parameters,
    so is the multiplexer; metrics, logs and traces are not modelled. *)

From stdpp Require Import pretty.
From S2P Require Import Prelude Errors Model Store Scheduler FairShare Registry Backends Budget Capacity Admission.
From S2P Require Import Warm JobRetry TierPolicy ServicePolicy Service ServiceFilters Auth Allocate CapacityMatrix.
Open Scope Z_scope.
Open Scope go_scope.

(** ** Requests and responses *)

Record http_request := {
  hr_Method : string;
  hr_Path : string;
  hr_Authorization : string;
  hr_CorrelationID : string;
  hr_Body : string;
}.

Inductive response_body :=
  | BodyError (err : error)
  | BodyRich (err : AllocationError)
  | BodyAllocation (status : AllocationStatus)
  | BodyOK.

Record response := { re_Code : Z; re_RetryAfter : option string; re_Body : response_body }.

Definition writeError (code : Z) (err : error) : response :=
  {| re_Code := code; re_RetryAfter := None; re_Body := BodyError err |}.
Definition writeAllocation (code : Z) (status : AllocationStatus) : response :=
  {| re_Code := code; re_RetryAfter := None; re_Body := BodyAllocation status |}.

Definition MethodGet : string := "GET".
Definition MethodPost : string := "POST".

(** The options of [Server]. *)
Record ServerOptions := {
  so_allowedIssuers : list string;
  so_expectedAud : string;
  so_allowAnon : bool;
  so_oidcPolicy : OIDCPolicyConfig;
}.

(** ** Request bodies *)

(** An allocation request as its JSON has it; the timeouts are the text of their values. *)
Record raw_request := {
  rq_Pool : PoolName;
  rq_Backend : option BackendName;
  rq_JobTimeout : string;
  rq_RegistrationTimeout : string;
  rq_Tenant : string;
  rq_PriorityClass : string;
  rq_Labels : list string;
  rq_RequiredCapabilities : list string;
  rq_ExcludedCapabilities : list string;
}.

Record Json := {
  js_request : string → result raw_request;
  js_completion : string → result completionRequest;
  js_string : string → result string;
  js_int64 : string → result Z;
  js_ParseDuration : string → result Duration;
}.

Definition is_quoted (raw : string) : bool := HasPrefix raw dquote && (if CutSuffix raw dquote then true else false).

(** [UnmarshalJSON] of durationRequestValue and registrationTimeoutDurationValue; an absent value is "". *)
Definition duration_value (json : Json) (what example data : string) : result Duration :=
  let raw := TrimSpace data in
  if String.eqb raw "" || String.eqb raw "null" then Ok 0
  else if is_quoted raw then
    match js_string json raw with
    | Fail err => Fail (Wrapf ("invalid " +:+ what +:+ ": ") err "")
    | Ok encoded =>
        match js_ParseDuration json encoded with
        | Fail err => Fail (Wrapf ("invalid " +:+ what +:+ ": ") err "")
        | Ok d => Ok d
        end
    end
  else match js_int64 json raw with
       | Fail _ => Fail (Errorf ("invalid " +:+ what +:+ ": expected duration string (for example " +:+ dquote +:+ example +:+
                                 dquote +:+ ") or nanosecond integer"))
       | Ok nanos => Ok nanos
       end.

Definition invalid_request {A} (r : result A) : result A :=
  match r with Ok x => Ok x | Fail err => Fail (Wrapf "invalid allocation request: " err "") end.

(** "auto" is no backend. *)
Definition requested_backend (backend : option BackendName) : option BackendName :=
  match backend with
  | Some name => let name := TrimSpace name in if EqualFold name "auto" then None else Some name
  | None => None
  end.

Definition decodeAllocationRequest (json : Json) (body : string) : result AllocationRequest :=
  let? raw := invalid_request (js_request json body) in
  let? timeout := invalid_request (duration_value json "job_timeout" "15m" (rq_JobTimeout raw)) in
  let? registration := invalid_request (duration_value json "registration_timeout" "5m" (rq_RegistrationTimeout raw)) in
  Ok { zero_AllocationRequest with
       ar_Pool := rq_Pool raw; ar_Backend := requested_backend (rq_Backend raw); ar_JobTimeout := timeout;
       ar_RegistrationTimeout := registration; ar_Tenant := rq_Tenant raw; ar_PriorityClass := rq_PriorityClass raw;
       ar_Labels := rq_Labels raw; ar_RequiredCapabilities := rq_RequiredCapabilities raw;
       ar_ExcludedCapabilities := rq_ExcludedCapabilities raw }.

Definition decodeCompletionRequest (json : Json) (body : string) : result completionRequest :=
  match js_completion json body with
  | Fail err => Fail (Wrapf "invalid completion request: " err "")
  | Ok request =>
      Ok { request with cr_State := TrimSpace (cr_State request); cr_Reason := TrimSpace (cr_Reason request);
                        cr_Error := TrimSpace (cr_Error request) }
  end.

Definition retryAfterSeconds (retryAfter now : Time) : string :=
  if negb (After retryAfter now) then "0"
  else pretty (Z.max 1 (TimeSub retryAfter now / Second)).

(** ** Correlation and principals *)

Definition maxCorrelationIDLength : nat := 128.

Definition isCorrelationIDRune (c : ascii) : bool :=
  let n := Z.of_nat (nat_of_ascii c) in
  ((97 <=? n) && (n <=? 122)) || ((65 <=? n) && (n <=? 90)) || ((48 <=? n) && (n <=? 57)) ||
  (n =? 46) || (n =? 95) || (n =? 58) || (n =? 45).

Definition validCorrelationID (id : string) : bool :=
  negb (String.eqb id "") && (String.length id <=? maxCorrelationIDLength)%nat &&
  forallb isCorrelationIDRune (String.list_ascii_of_string id).

(** [withPrincipal]: the claims that [applyPrincipal] writes. *)
Definition principal_of (claims : OIDCClaims) : option principal :=
  if String.eqb (cl_Sub claims) "" then None
  else Some {| pr_Sub := cl_Sub claims; pr_Repository := EffectiveRepository claims; pr_Owner := EffectiveOwner claims |}.

Definition routeName (path : string) : string :=
  if String.eqb path "/v1/allocations" then path
  else if HasPrefix path "/v1/allocations/" then "/v1/allocations/{id}"
  else if String.eqb path "/metrics" || String.eqb path "/healthz" || String.eqb path "/webhooks/github" then path
  else "unknown".

(** ** Handlers *)

Section Handlers.
Context `{GoRange} `{QualityRanker} {S : Type} `{!AllocationStore S, !AdmissionStateStore S}.
Context (cfg : BrokerConfig) (has_cleanup : BackendName → bool) (ids : nat → string).
Context (crypto : Crypto) (json : Json) (opts : ServerOptions).
Implicit Types (s : Service S) (v : OIDCVerifier) (now : Time) (req : http_request) (claims : OIDCClaims).

Definition handleHealth (env : Environment S) s : response :=
  match sv_initErr s with
  | Some err => writeError 503 err
  | None => match env_health env with
            | Some err => writeError 503 err
            | None => {| re_Code := 200; re_RetryAfter := None; re_Body := BodyOK |}
            end
  end.

Definition bearer : string := "Bearer ".

Definition authorize v req now : result OIDCClaims * OIDCVerifier :=
  let authHeader := TrimSpace (hr_Authorization req) in
  if String.eqb authHeader "" then
    (if so_allowAnon opts then Ok zero_OIDCClaims else Fail (Sentinel ErrMissingBearerToken), v)
  else if negb (HasPrefix authHeader bearer) then (Fail (Sentinel ErrInvalidBearerToken), v)
  else
    let token := TrimSpace (TrimPrefix authHeader bearer) in
    if String.eqb token "" then (Fail (Sentinel ErrInvalidBearerToken), v)
    else match VerifyToken crypto v token (so_expectedAud opts) (so_allowedIssuers opts) now with
    | (Fail err, v) => (Fail err, v)
    | (Ok claims, v) =>
        match AuthorizeOIDCPolicy claims (so_oidcPolicy opts) with
        | Some err => (Fail err, v)
        | None => (Ok claims, v)
        end
    end.

(** The response to a refused caller. *)
Definition unauthorized (err : error) : response :=
  writeError (if errors_Is err ErrOIDCPolicyDenied then 403 else 401) err.

Definition authorizeAllocationAccess s claims (id : string) : option error :=
  if so_allowAnon opts && String.eqb (cl_Sub claims) "" then None
  else match store_Get (sv_store s) id with
  | None => Some (Sentinel ErrAllocationNotFound)
  | Some status => if OwnershipAllows claims status then None else Some (Sentinel ErrAllocationForbidden)
  end.

Definition writeOwnershipError (err : error) : response :=
  writeError (if errors_Is err ErrAllocationNotFound then 404 else 403) err.

Definition method_not_allowed : response := writeError 405 (Errorf "method not allowed").
Definition allocation_not_found : response := writeError 404 (Errorf "allocation not found").

(** The identifier of the request's context. *)
Definition correlationIDFromRequest s req : string * Service S :=
  let id := TrimSpace (hr_CorrelationID req) in
  if validCorrelationID id then (id, s) else newID ids s.

(** None: the allocation's environment cut it off. *)
Definition post_allocation (env : Environment S) s (correlation : string) claims (body : string) now :
    option response * Service S :=
  match decodeAllocationRequest json body with
  | Fail err => (Some (writeError 400 err), s)
  | Ok request =>
      let ctx := {| rc_CorrelationID := correlation; rc_Principal := principal_of claims |} in
      match Allocate cfg has_cleanup ids env ctx s request now with
      | (None, s) => (None, s)
      | (Some (_, Some (Rich err)), s) => (Some {| re_Code := 400; re_RetryAfter := None; re_Body := BodyRich err |}, s)
      | (Some (_, Some (Plain err)), s) => (Some (writeError 400 err), s)
      | (Some (allocation, None), s) =>
          (Some (if state_eqb (as_State allocation) StatePending
                 then {| re_Code := 202;
                         re_RetryAfter := (if IsZero (as_RetryAfter allocation) then None
                                           else Some (retryAfterSeconds (as_RetryAfter allocation) now));
                         re_Body := BodyAllocation allocation |}
                 else writeAllocation 201 allocation), s)
      end
  end.

Definition handleAllocations (env : Environment S) s v req now : option response * Service S * OIDCVerifier :=
  let '(correlation, s) := correlationIDFromRequest s req in
  match authorize v req now with
  | (Fail err, v) => (Some (unauthorized err), s, v)
  | (Ok claims, v) =>
      if String.eqb (hr_Method req) MethodPost then (post_allocation env s correlation claims (hr_Body req) now, v)
      else (Some method_not_allowed, s, v)
  end.

(** What follows the access check of an action. *)
Inductive action := CancelAction | CompleteAction | RegisterAction | ClaimAction.

Definition suffixes : list (string * action) :=
  [("/cancel", CancelAction); ("/complete", CompleteAction); ("/register", RegisterAction); ("/claim", ClaimAction)].

(** The first suffix of the path, and the identifier before it. *)
Fixpoint action_of (l : list (string * action)) (path : string) : option (string * action) :=
  match l with
  | [] => None
  | (suffix, a) :: l =>
      match CutSuffix path suffix with
      | Some id => Some (TrimSuffix id "/", a)
      | None => action_of l path
      end
  end.

(** The answer to an operation that reports (status, err). *)
Definition operation_response (status : option AllocationStatus) (err : option error) : response :=
  match err with
  | Some err => writeError (if errors_Is err ErrAllocationNotFound then 404 else 400) err
  | None => match status with Some status => writeAllocation 200 status | None => allocation_not_found end
  end.

Definition run_action (rounds : nat) s (a : action) (id body : string) now : option response * Service S :=
  match a with
  | CancelAction =>
      match Cancel cfg has_cleanup rounds s id now with
      | None => (None, s)
      | Some (status, s) => (Some (operation_response status None), s)
      end
  | CompleteAction =>
      match decodeCompletionRequest json body with
      | Fail err => (Some (writeError 400 err), s)
      | Ok completion =>
          let '(status, err, s) := Complete cfg has_cleanup s id completion now in
          (Some (operation_response status err), s)
      end
  | RegisterAction => let '(status, err, s) := Register s id now in (Some (operation_response status err), s)
  | ClaimAction => let '(status, err, s) := Claim s id now in (Some (operation_response status err), s)
  end.

(** Behind authentication. *)
Definition allocation_route (rounds : nat) s claims req now : option response * Service S :=
  let path := TrimPrefix (hr_Path req) "/v1/allocations/" in
  if String.eqb path "" then (Some (writeError 404 (Errorf "allocation id is required")), s)
  else match action_of suffixes path with
  | Some (id, a) =>
      if negb (String.eqb (hr_Method req) MethodPost) then (Some method_not_allowed, s)
      else match authorizeAllocationAccess s claims id with
      | Some err => (Some (writeOwnershipError err), s)
      | None => run_action rounds s a id (hr_Body req) now
      end
  | None =>
      if negb (String.eqb (hr_Method req) MethodGet) then (Some method_not_allowed, s)
      else match authorizeAllocationAccess s claims path with
      | Some err => (Some (writeOwnershipError err), s)
      | None => (Some (operation_response (store_Get (sv_store s) path) None), s)
      end
  end.

Definition handleAllocationByID (rounds : nat) s v req now : option response * Service S * OIDCVerifier :=
  let '(_, s) := correlationIDFromRequest s req in
  match authorize v req now with
  | (Fail err, v) => (Some (unauthorized err), s, v)
  | (Ok claims, v) => (allocation_route rounds s claims req now, v)
  end.
End Handlers.
