(* ===== verification/WorkflowJob.v ===== *)
(** GitHub workflow jobs: src/internal/api/service_workflow_job.go.

    Which pool serves a job's labels, which repositories the broker serves,
    allocation for a queued job, and the binding of a running or finished job to
    the runner GitHub assigned.  The operations hold workflowJobMu throughout,
    so no two of them interleave. *)

From stdpp Require Import pretty.
From S2P Require Import Prelude Errors Model Store Scheduler FairShare Registry Backends Budget Capacity Admission.
From S2P Require Import Warm JobRetry TierPolicy ServicePolicy Service ServiceFilters Allocate CapacityMatrix.
Open Scope Z_scope.
Open Scope go_scope.

(** ** Packages strconv and time *)

Definition all_digits (s : string) : bool :=
  forallb (fun c => match digit_value c with Some _ => true | None => false end) (String.list_ascii_of_string s).

(** The value of [strconv.ParseInt(s, 10, 64)] when its error is dropped: 0 on a
    syntax error, the nearest int64 out of range. *)
Definition ParseInt (s : string) : Z :=
  let '(sign, digits) :=
    match s with
    | String c s' =>
        if Ascii.eqb c (ascii_of_nat 45) then (-1, s')
        else if Ascii.eqb c (ascii_of_nat 43) then (1, s') else (1, s)
    | EmptyString => (1, s)
    end in
  if String.eqb digits "" || negb (all_digits digits) then 0
  else saturate64 (sign * default 0 (scan_digits digits None)).

Definition FormatInt (n : Z) : string := pretty n.

(** The first [n] characters and the rest. *)
Fixpoint split_at (n : nat) (s : string) : string * string :=
  match n, s with
  | O, _ => (EmptyString, s)
  | Datatypes.S n, String c s => let '(a, b) := split_at n s in (String c a, b)
  | Datatypes.S _, EmptyString => (EmptyString, EmptyString)
  end.

(** [width] digits within [min, max]. *)
Definition parse_uint (width : nat) (min max : Z) (s : string) : option (Z * string) :=
  let '(digits, rest) := split_at width s in
  if (String.length digits =? width)%nat && all_digits digits then
    let n := default 0 (scan_digits digits None) in
    if (n <? min) || (max <? n) then None else Some (n, rest)
  else None.

Definition expect (c : ascii) (s : string) : option string :=
  match s with String d rest => if Ascii.eqb c d then Some rest else None | EmptyString => None end.

(** Days from 0001-01-01 to January 1st of a year, and to the 1st of its months. *)
Definition days_before_year (year : Z) : Z :=
  let y := year - 1 in 365 * y + y / 4 - y / 100 + y / 400.
Definition leap_year (year : Z) : bool := (year mod 4 =? 0) && (negb (year mod 100 =? 0) || (year mod 400 =? 0)).
Definition days_in (year month : Z) : Z :=
  if month =? 2 then if leap_year year then 29 else 28
  else if (month =? 4) || (month =? 6) || (month =? 9) || (month =? 11) then 30 else 31.
Definition days_before_month (year month : Z) : Z :=
  sum_of (fun m => if Z.of_nat m <? month then days_in year (Z.of_nat m) else 0) (seq 1 12).

(** The digits of a fraction, as nanoseconds: nine count. *)
Fixpoint fraction (digits : nat) (s : string) (acc : Z) : Z * string :=
  match s with
  | String c rest =>
      match digit_value c, digits with
      | Some d, Datatypes.S digits => fraction digits rest (acc + d * 10 ^ Z.of_nat digits)
      | Some _, O => fraction O rest acc
      | None, _ => (acc, s)
      end
  | EmptyString => (acc, s)
  end.

Definition parse_fraction (s : string) : Z * string :=
  match s with
  | String dot (String d _ as digits) =>
      if Ascii.eqb dot (ascii_of_nat 46) && (if digit_value d then true else false) then fraction 9 digits 0 else (0, s)
  | _ => (0, s)
  end.

Definition parse_offset (s : string) : option Duration :=
  if String.eqb s "Z" then Some 0
  else match s with
  | String sign s =>
      match parse_uint 2 0 23 s with
      | Some (hours, s) =>
          match expect colon s with
          | Some s =>
              match parse_uint 2 0 59 s with
              | Some (minutes, EmptyString) =>
                  let offset := hours * Hour + minutes * Minute in
                  if Ascii.eqb sign (ascii_of_nat 43) then Some offset
                  else if Ascii.eqb sign (ascii_of_nat 45) then Some (- offset) else None
              | _ => None
              end
          | None => None
          end
      | None => None
      end
  | EmptyString => None
  end.

Definition minus_sign : ascii := ascii_of_nat 45.
Definition letter_T : ascii := ascii_of_nat 84.

(** A field of fixed width followed by a separator. *)
Definition field (width : nat) (min max : Z) (separator : ascii) (s : string) : option (Z * string) :=
  match parse_uint width min max s with
  | Some (n, s) => match expect separator s with Some s => Some (n, s) | None => None end
  | None => None
  end.

(** [time.Parse(time.RFC3339, s)]; what the parser accepts beyond RFC 3339 (an
    hour of one digit, a comma before the fraction, an offset of 24 hours) is not
    modelled. *)
Definition ParseRFC3339 (s : string) : option Time :=
  '(year, s) ← field 4 0 9999 minus_sign s;
  '(month, s) ← field 2 1 12 minus_sign s;
  '(day, s) ← field 2 1 (days_in year month) letter_T s;
  '(hour, s) ← field 2 0 23 colon s;
  '(minute, s) ← field 2 0 59 colon s;
  '(second, s) ← parse_uint 2 0 59 s;
  let '(nanoseconds, s) := parse_fraction s in
  offset ← parse_offset s;
  let days := days_before_year year + days_before_month year month + (day - 1) in
  Some (days * Day + hour * Hour + minute * Minute + second * Second + nanoseconds - offset).

(** ** Pools and repositories *)

Definition self_hosted : string := "self-hosted".

Definition normalizeLabelSet (labels : list string) : gset string :=
  list_to_set (filter (fun label => label ≠ "") ((fun label => ToLower (TrimSpace label)) <$> labels)).

(** Some label other than self-hosted. *)
Definition specific (wanted : gset string) : bool := bool_decide (wanted ∖ {[self_hosted]} ≠ ∅).

Definition pool_covers (allow : PoolConfig → bool) (wanted : gset string) (pool : PoolConfig) : bool :=
  negb (length (pc_WebhookLabels pool) =? 0)%nat && allow pool &&
  bool_decide (wanted ⊆ normalizeLabelSet (pc_WebhookLabels pool)).

Definition executionJobKey : string := "workflow_job_execution_id".
Definition deferredConclusionKey : string := "workflow_job_deferred_conclusion".
Definition runnerIDKey : string := "github_runner_id".
Definition LeaseStartedKey : string := "runner_lease_started_at".

Record WorkflowJobRunner := {
  wr_Repository : string;
  wr_Name : string;
  wr_ID : Z;
  wr_StartedAt : Time;
}.

Definition executionJob (status : AllocationStatus) : Z := ParseInt (as_Metadata status).[executionJobKey].

Definition has_identity (runner : WorkflowJobRunner) : bool :=
  negb (String.eqb (wr_Name runner) "") || (0 <? wr_ID runner).

Section WorkflowJob.
Context `{GoRange} `{QualityRanker} {S : Type} `{!AllocationStore S, !AdmissionStateStore S}.
Context (cfg : BrokerConfig) (has_cleanup : BackendName → bool) (ids : nat → string).
Implicit Types (s : Service S) (pool : PoolConfig) (now : Time) (status : AllocationStatus) (runner : WorkflowJobRunner).

Definition matchWebhookPool (jobLabels : list string) (allow : PoolConfig → bool) : option PoolConfig :=
  let wanted := normalizeLabelSet jobLabels in
  if negb (specific wanted) then None else find (pool_covers allow wanted) (bk_Pools cfg).

Definition MatchWebhookPool (jobLabels : list string) : option PoolConfig :=
  matchWebhookPool jobLabels (fun _ => true).

Definition MatchWebhookPoolForRepository (jobLabels : list string) (repository : string) : option PoolConfig :=
  matchWebhookPool jobLabels (fun pool => ServesWebhookRepository pool repository).

(** Prefer a non-terminal allocation if a job somehow has several. *)
Definition better_match (jobID : Z) (found : option AllocationStatus) status : option AllocationStatus :=
  if negb (bool_decide (job_of status = Some jobID)) then found
  else match found with
       | None => Some status
       | Some old =>
           if isTerminalAllocationState (as_State old) && negb (isTerminalAllocationState (as_State status))
           then Some status else found
       end.

Definition findByWorkflowJobID s (jobID : Z) : option AllocationStatus :=
  if jobID =? 0 then None else foldl (better_match jobID) None (store_List (sv_store s)).

Definition AcceptsWebhookRepository (repository : string) : bool :=
  let repository := TrimSpace repository in
  match Cut repository slash with
  | None => false
  | Some (owner, name) =>
      if String.eqb owner "" || String.eqb name "" || ContainsChar name slash then false
      else
        let scope := bk_Scope cfg in
        let type := TrimSpace (gs_Type scope) in
        if String.eqb type GitHubScopeOwner then is_Ok (ForRepository scope repository)
        else if String.eqb type GitHubScopeRepository
        then EqualFold repository (TrimSpace (gs_Owner scope) +:+ "/" +:+ TrimSpace (gs_Repository scope))
        else if String.eqb type GitHubScopeOrganization then EqualFold owner (TrimSpace (gs_Organization scope))
        else false
  end.

(** ** Allocation for a queued job *)

Section AllocateJob.
Context (env : Environment S) (ctx : request_context).

Definition workflow_request pool (jobID : Z) (repository : string) : AllocationRequest :=
  { zero_AllocationRequest with
      ar_Pool := pc_Name pool; ar_JobTimeout := pc_WebhookJobTimeout pool;
      ar_Tenant := (if IsPerRepository (bk_Scope cfg) then ToLower (TrimSpace repository) else "");
      ar_Labels := pc_WebhookLabels pool; ar_WorkflowJobID := jobID; ar_TargetRepository := TrimSpace repository }.

Definition note_reallocated s (jobID : Z) (again : bool) now : Service S :=
  if again then { s with sv_retries := noteWorkflowJobReallocated (sv_store s) (sv_retries s) jobID now } else s.

(** [again]: the job had an allocation that ended.  The result is (status, created, err). *)
Definition allocate_job s pool (jobID : Z) (repository : string) (again : bool) now :
    option (AllocationStatus * bool * option api_error) * Service S :=
  let request := workflow_request pool jobID repository in
  match Allocate cfg has_cleanup ids env ctx s request now with
  | (None, s) => (None, s)
  | (Some (status, None), s) => (Some (status, true, None), note_reallocated s jobID again now)
  | (Some (_, Some err), s) =>
      let queued :=
        if workflowCapacityError request (api_Unwrap err)
        then queueAllocation cfg ids ctx s request (pc_Name pool) "" (api_Unwrap err) zero_AllocationStatus now
        else (None, s) in
      match queued with
      | (Some pending, s) => (Some (pending, true, None), note_reallocated s jobID again now)
      | (None, s) => (Some (zero_AllocationStatus, false, Some err), s)
      end
  end.

(** [retryFailed]: the context of the reconciler. *)
Definition AllocateForWorkflowJob s pool (jobID : Z) (repository : string) (retryFailed : bool) now :
    option (AllocationStatus * bool * option api_error) * Service S :=
  match findByWorkflowJobID s jobID with
  | Some existing =>
      if negb (isTerminalAllocationState (as_State existing)) || negb retryFailed ||
         negb (mayReallocateWorkflowJob (sv_store s) (sv_retries s) jobID now)
      then (Some (existing, false, None), s)
      else allocate_job s pool jobID repository true now
  | None => allocate_job s pool jobID repository false now
  end.
End AllocateJob.

(** ** The allocation a job runs on *)

Definition allocationServesRepository status (repository : string) : bool :=
  if String.eqb repository "" then true
  else if negb (AcceptsWebhookRepository repository) then false
  else
    let target := TargetRepository status in
    if negb (String.eqb target "") then EqualFold target repository
    else negb (IsPerRepository (bk_Scope cfg)).

(** Whether a record is passed over, is the one, or may be the one. *)
Inductive ownership := NotOwner | Owner | MayOwn (lease : Time).

(** [None] when an older or unproven event names a newer lease. *)
Definition lease_of runner status : option Time :=
  let raw := (as_Metadata status).[LeaseStartedKey] in
  if String.eqb raw "" then Some 0
  else match ParseRFC3339 raw with
  | None => None
  | Some lease =>
      if (wr_ID runner <=? 0) || String.eqb (as_Metadata status).[runnerIDKey] "" || IsZero (wr_StartedAt runner) ||
         Before (wr_StartedAt runner) lease
      then None else Some lease
  end.

Definition owns (jobID : Z) runner status : ownership :=
  let id := (as_Metadata status).[runnerIDKey] in
  let bound := executionJob status in
  if negb (allocationServesRepository status (wr_Repository runner)) then NotOwner
  else if negb (has_identity runner) then if bound =? jobID then Owner else NotOwner
  else if negb (String.eqb (wr_Name runner) "") &&
          negb (EqualFold (TrimSpace (as_RunnerLabel status)) (TrimSpace (wr_Name runner))) then NotOwner
  else if (0 <? wr_ID runner) && negb (String.eqb id "") && negb (String.eqb id (FormatInt (wr_ID runner))) then NotOwner
  else if String.eqb (wr_Name runner) "" && String.eqb id "" then NotOwner
  else if negb (bound =? 0) && negb (bound =? jobID) then NotOwner
  else match lease_of runner status with
       | None => NotOwner
       | Some lease => if bound =? jobID then Owner else MayOwn lease
       end.

(** The candidate with the newest lease; of equal leases, one that is not over. *)
Definition prefer (chosen : option (AllocationStatus * Time)) status (lease : Time) : option (AllocationStatus * Time) :=
  match chosen with
  | None => Some (status, lease)
  | Some (old, chosenLease) =>
      if After lease chosenLease ||
         ((lease =? chosenLease) && isTerminalAllocationState (as_State old) &&
          negb (isTerminalAllocationState (as_State status)))
      then Some (status, lease) else chosen
  end.

Fixpoint choose_owner (jobID : Z) runner (chosen : option (AllocationStatus * Time)) (l : list AllocationStatus) :
    option AllocationStatus :=
  match l with
  | [] => fst <$> chosen
  | status :: l =>
      match owns jobID runner status with
      | NotOwner => choose_owner jobID runner chosen l
      | Owner => Some status
      | MayOwn lease => choose_owner jobID runner (prefer chosen status lease) l
      end
  end.

Definition executionAllocation s (jobID : Z) runner : option AllocationStatus :=
  choose_owner jobID runner None (store_List (sv_store s)).

Definition set_metadata status (key value : string) : AllocationStatus :=
  { status with as_Metadata := <[key := value]> (as_Metadata status) }.

(** [SaveIfState(status, status.State)]: an error, or ErrAllocationAlreadyCompleted. *)
Definition save_current s status : option error * Service S :=
  let '(saved, st) := store_SaveIfState (sv_store s) status (as_State status) in
  (match saved with
   | Fail err => Some err
   | Ok false => Some (Sentinel ErrAllocationAlreadyCompleted)
   | Ok true => None
   end, { s with sv_store := st }).

Definition bindWorkflowExecution s status (jobID : Z) : AllocationStatus * option error * Service S :=
  if executionJob status =? jobID then (status, None, s)
  else
    let status := set_metadata status executionJobKey (FormatInt jobID) in
    let '(err, s) := save_current s status in (status, err, s).

(** A save that loses to another change is not an error here. *)
Definition recordDemandConclusion s (jobID : Z) (repository conclusion : string) : option error * Service S :=
  match findByWorkflowJobID s jobID with
  | None => (None, s)
  | Some origin =>
      if negb (allocationServesRepository origin repository) then (None, s)
      else
        let '(saved, st) :=
          store_SaveIfState (sv_store s) (set_metadata origin deferredConclusionKey conclusion) (as_State origin) in
        (match saved with Fail err => Some err | Ok _ => None end, { s with sv_store := st })
  end.

Definition cancelPendingWorkflowDemand s status now : option AllocationStatus * Service S :=
  let '(updated, st) :=
    store_CompareAndMarkState (sv_store s) (as_ID status) StatePending StateCanceled now
      "workflow demand no longer pending" in
  let s := { s with sv_store := st } in
  match updated with
  | Some updated => (Some updated, notifyLifecycleTerminal s updated)
  | None => (None, s)
  end.

Definition suppressSurplusDemand s (jobID : Z) (repository : string) (actual : AllocationStatus) now : Service S :=
  match job_of actual with
  | None => s
  | Some demand =>
      if (demand =? jobID) || negb (bool_decide (is_Some (as_Metadata actual !! deferredConclusionKey))) then s
      else match findByWorkflowJobID s jobID with
      | None => s
      | Some origin =>
          if negb (String.eqb (as_ID origin) (as_ID actual)) && allocationServesRepository origin repository &&
             state_eqb (as_State origin) StatePending
          then (cancelPendingWorkflowDemand s origin now).2 else s
      end
  end.

Definition legacyARCWorkflowAllocation status : bool :=
  if negb (String.eqb (as_SelectedBackend status) BackendARC) then false
  else match find_pool (as_Pool status) (bk_Pools cfg) with
       | Some pool => negb (String.eqb (bc_Driver (pc_Backends pool).[BackendARC]) "kubernetes")
       | None => false
       end.

(** ** Finishing and claiming *)

(** (status, found, err); None when a cancellation runs out of rounds. *)
Abbreviation job_result := (option (AllocationStatus * bool * option error * Service S)) (only parsing).

Definition canceled_conclusion (conclusion : string) : bool :=
  EqualFold (TrimSpace conclusion) "cancelled" || EqualFold (TrimSpace conclusion) "canceled".

Definition job_completed : completionRequest :=
  {| cr_State := "completed"; cr_Error := ""; cr_Reason := "workflow_job completed"; cr_FailureClass := "" |}.

Definition finishWorkflowExecution (rounds : nat) s status (conclusion : string) now : job_result :=
  if canceled_conclusion conclusion || state_eqb (as_State status) StatePending then
    match Cancel cfg has_cleanup rounds s (as_ID status) now with
    | None => None
    | Some (None, s) => Some (status, true, Some (Sentinel ErrAllocationNotFound), s)
    | Some (Some updated, s) => Some (updated, true, None, s)
    end
  else
    match Complete cfg has_cleanup s (as_ID status) job_completed now with
    | (updated, err, s) =>
        match err with
        | Some err =>
            if errors_Is err ErrAllocationAlreadyCompleted
            then match updated with
                 | Some updated => Some (updated, true, None, s)
                 | None => Some (status, true, Some (Sentinel ErrAllocationNotFound), s)
                 end
            else Some (status, true, Some err, s)
        | None =>
            match updated with
            | Some updated => Some (updated, true, None, s)
            | None => Some (status, true, Some (Sentinel ErrAllocationNotFound), s)
            end
        end
    end.

(** The demand's own record, when no runner was named. *)
Definition finalize_demand (rounds : nat) s (jobID : Z) runner (conclusion : string) now : job_result :=
  match findByWorkflowJobID s jobID with
  | None => Some (zero_AllocationStatus, false, None, s)
  | Some status =>
      if negb (allocationServesRepository status (wr_Repository runner)) then Some (zero_AllocationStatus, false, None, s)
      else if isTerminalAllocationState (as_State status) then Some (status, true, None, s)
      else if legacyARCWorkflowAllocation status then finishWorkflowExecution rounds s status conclusion now
      else if state_eqb (as_State status) StatePending then
        match cancelPendingWorkflowDemand s status now with
        | (Some updated, s) => Some (updated, true, None, s)
        | (None, s) =>
            match store_Get (sv_store s) (as_ID status) with
            | Some current => Some (current, true, None, s)
            | None => Some (zero_AllocationStatus, false, None, s)
            end
        end
      else Some (status, true, None, s)
  end.

Definition FinalizeWorkflowJob (rounds : nat) s (jobID : Z) (conclusion : string) runner now : job_result :=
  match recordDemandConclusion s jobID (wr_Repository runner) conclusion with
  | (Some err, s) => Some (zero_AllocationStatus, false, Some err, s)
  | (None, s) =>
      match executionAllocation s jobID runner with
      | Some status =>
          if isTerminalAllocationState (as_State status) then Some (status, true, None, s)
          else match bindWorkflowExecution s status jobID with
          | (status, Some err, s) => Some (status, true, Some err, s)
          | (status, None, s) =>
              let s := suppressSurplusDemand s jobID (wr_Repository runner) status now in
              finishWorkflowExecution rounds s status conclusion now
          end
      | None =>
          if has_identity runner then Some (zero_AllocationStatus, false, None, s)
          else finalize_demand rounds s jobID runner conclusion now
      end
  end.

Definition managedPersistentRunner (name repository : string) : bool :=
  existsb (fun pool => match bc_AzureVM (pc_Backends pool).[BackendAzureVM] with
                       | None => false
                       | Some target => EqualFold (az_Repository target) repository &&
                                        existsb (fun allowed => EqualFold allowed name) (az_RunnerNames target)
                       end) (bk_Pools cfg).

(** The pending demand of a job a persistent worker already serves. *)
Definition served_demand s (jobID : Z) runner now : option AllocationStatus * Service S :=
  if (0 <? wr_ID runner) && negb (String.eqb (wr_Name runner) "") &&
     managedPersistentRunner (wr_Name runner) (wr_Repository runner)
  then match findByWorkflowJobID s jobID with
       | Some origin =>
           if state_eqb (as_State origin) StatePending && allocationServesRepository origin (wr_Repository runner)
           then cancelPendingWorkflowDemand s origin now else (None, s)
       | None => (None, s)
       end
  else (None, s).

(** Once the owner is known. *)
Definition claim_owner (rounds : nat) s status (jobID : Z) runner now : job_result :=
  if isTerminalAllocationState (as_State status) then Some (status, true, None, s)
  else match bindWorkflowExecution s status jobID with
  | (status, Some err, s) => Some (status, true, Some err, s)
  | (status, None, s) =>
      let status := { status with as_ClaimedAt := set_time (as_ClaimedAt status) now;
                                  as_RegisteredAt := set_time (as_RegisteredAt status) now } in
      match save_current s status with
      | (Some err, s) => Some (status, true, Some err, s)
      | (None, s) =>
          let s := { s with sv_penalties :=
                       recordRegistrationSuccess (sv_penalties s) (as_Pool status) (as_SelectedBackend status) } in
          let s := suppressSurplusDemand s jobID (wr_Repository runner) status now in
          match findByWorkflowJobID s jobID with
          | Some origin =>
              if allocationServesRepository origin (wr_Repository runner)
              then match as_Metadata origin !! deferredConclusionKey with
                   | Some conclusion => finishWorkflowExecution rounds s status conclusion now
                   | None => Some (status, true, None, s)
                   end
              else Some (status, true, None, s)
          | None => Some (status, true, None, s)
          end
      end
  end.

(** [runner] carries the runner's name; the labels are not used. *)
Definition ClaimWorkflowJob (rounds : nat) s (jobID : Z) runner now : job_result :=
  match executionAllocation s jobID runner with
  | Some status => claim_owner rounds s status jobID runner now
  | None =>
      match served_demand s jobID runner now with
      | (Some updated, s) => Some (updated, true, None, s)
      | (None, s) =>
          match findByWorkflowJobID s jobID with
          | Some origin =>
              if legacyARCWorkflowAllocation origin && allocationServesRepository origin (wr_Repository runner)
              then claim_owner rounds s origin jobID runner now
              else Some (zero_AllocationStatus, false, None, s)
          | None => Some (zero_AllocationStatus, false, None, s)
          end
      end
  end.
End WorkflowJob.
