(* ===== verification/Webhook.v ===== *)
(** The GitHub webhook: src/internal/api/github_webhook.go, without the
    reconciler of missed webhooks (WebhookReconcile.v).

    A delivery is authenticated, its GUID claimed, and queued for the one worker
    goroutine; a replica that does not lead puts it into the shared inbox, which
    the leader drains.  encoding/json, the random bytes of a generated delivery
    identifier and the look-up of a workflow run are parameters; the signature is
    computed (Sha256.v).  Metrics and logs are not modelled. *)

From stdpp Require Import pretty.
From S2P Require Import Prelude Errors Model Sha256 Store Scheduler FairShare Registry Backends Budget Capacity Admission.
From S2P Require Import Warm JobRetry TierPolicy ServicePolicy Service ServiceFilters Auth Allocate CapacityMatrix.
From S2P Require Import WorkflowJob.
Open Scope Z_scope.
Open Scope go_scope.

Definition maxGitHubWebhookBody : Z := 26 * 1048576.
Definition deliveryTTL : Duration := 24 * Hour.
Definition maxTrackedDeliveries : Z := 50000.
Definition inboxBatch : Z := 50.
Definition inboxMaxAge : Duration := 24 * Hour.
Definition inboxLease : Duration := 30 * Second.
(** The capacity of [workCh]. *)
Definition workCapacity : nat := 256.

(** ** Deliveries and their tracker *)

(** [workflowJobPayload]. *)
Record workflowJobPayload := {
  wp_Action : string;
  wp_ID : Z;
  wp_RunID : Z;
  wp_RunnerName : string;
  wp_RunnerID : Z;
  wp_StartedAt : Time;
  wp_Labels : list string;
  wp_Conclusion : string;
  wp_FullName : string;
}.

(** [deliveryTracker.seen]: GUID to expiry; zero means in flight. *)
Abbreviation deliveryTracker := (gmap string Time) (only parsing).

Module Tracker.
Section Tracker.
Implicit Types (t : gmap string Time) (guid : string) (now : Time).

(** In flight, or processed and not expired. *)
Definition seen t guid now : bool :=
  match t !! guid with Some expiry => IsZero expiry || After expiry now | None => false end.

Definition prune_expired t now : gmap string Time :=
  filter (fun kv => negb (negb (IsZero kv.2) && negb (After kv.2 now)) = true) t.

Definition claim t guid now : bool * gmap string Time :=
  if seen t guid now then (false, t)
  else
    let t := if maxTrackedDeliveries <=? Z.of_nat (size t) then prune_expired t now else t in
    (true, <[guid := 0]> t).

Definition done t guid now : gmap string Time := <[guid := TimeAdd now deliveryTTL]> t.
Definition release t guid : gmap string Time := delete guid t.
End Tracker.
End Tracker.

Record githubWebhookWork := { gw_payload : workflowJobPayload; gw_guid : string }.

(** [githubWebhookHandler]: the tracker, the buffer of [workCh] and the work its goroutine has received. *)
Record githubWebhookHandler := {
  wh_deliveries : gmap string Time;
  wh_workCh : list githubWebhookWork;
  wh_current : option githubWebhookWork;
}.

(** [SetGitHubWebhook]. *)
Definition newHandler : githubWebhookHandler := {| wh_deliveries := ∅; wh_workCh := []; wh_current := None |}.

(** What the options configure; the other options are answers of the environment below. *)
Record GitHubWebhookOptions := {
  wo_IsLeader : bool;
  wo_Inbox : bool;
  wo_RejectForks : bool;
  wo_AllowedActors : list string;
}.

(** [github.WorkflowRun]. *)
Record WorkflowRun := { rn_HeadRepository : string; rn_Actor : string; rn_TriggeringActor : string }.

Record Payloads := {
  pl_Unmarshal : string → result workflowJobPayload;
  pl_Marshal : workflowJobPayload → result string;
}.

(** ** The shared inbox of a store *)

Class WebhookInbox (S : Type) := {
  inbox_Enqueue : S → string → string → Time → option error * S;
  inbox_Claim : S → Z → Duration → Time → result (list Memory.WebhookDelivery) * S;
  inbox_Ack : S → Z → option error * S;
}.

#[export] Instance memory_inbox `{GoRange} : WebhookInbox Memory.Memory := {
  inbox_Enqueue m id payload now := (None, Memory.EnqueueWebhook m id (list_byte_of_string payload) now);
  inbox_Claim m limit lease now := let '(out, m) := Memory.ClaimWebhooks m limit lease now in (Ok out, m);
  inbox_Ack m id := (None, Memory.AckWebhook m id);
}.

(** ** Signatures and secrets *)

Definition validGitHubSignature (secret body header : string) : bool :=
  if negb (HasPrefix header "sha256=") then false
  else match HexDecode (TrimPrefix header "sha256=") with
       | None => false
       | Some got => bool_decide (got = HMAC (octets_of secret) (octets_of body))
       end.

(** [read]: None is nil. *)
Definition GitHubWebhookSecretFunc (cfg : GitHubWebhookConfig) (read : option (string → result (gmap string string))) :
    result string :=
  let secret := TrimSpace (gw_Secret cfg) in
  if negb (String.eqb secret "") then Ok secret
  else
    let ref := TrimSpace (gw_SecretRef cfg) in
    match read with
    | Some read =>
        if String.eqb ref "" then Fail (Errorf "githubWebhook secret is not configured")
        else
          let? data := read ref in
          let key := TrimSpace (gw_SecretKey cfg) in
          let key := if String.eqb key "" then "webhook_secret" else key in
          let value := TrimSpace data.[key] in
          if String.eqb value "" then Fail (Errorf ("githubWebhook secret key " +:+ key +:+ " is empty")) else Ok value
    | None => Fail (Errorf "githubWebhook secret is not configured")
    end.

(** ** Processing *)

(** A JSON object of strings and a status code, or an error. *)
Abbreviation process_result := (gmap string string * Z * option api_error)%type (only parsing).

Definition ignored_body (reason : string) : gmap string string := {[ "status" := "ignored"; "reason" := reason ]}.
Definition ignored (reason : string) : process_result := (ignored_body reason, 200, None).
Definition failed_delivery (err : api_error) : process_result := (∅, 0, Some err).

(** [string(pool)] of a result. *)
Definition named_body (status : string) (allocation : AllocationStatus) (key value : string) : gmap string string :=
  {[ "status" := status; "allocation_id" := as_ID allocation; key := value ]}.

Definition background : request_context := {| rc_CorrelationID := ""; rc_Principal := None |}.

(** What a delivery meets while it is processed: the time, the allocation's
    environment, the look-up of runs when it is configured, and what the other
    goroutines did before. *)
Record step {S : Type} := {
  st_now : Time;
  st_env : Environment S;
  st_WorkflowRun : option (string → Z → result WorkflowRun);
  st_others : Service S → Service S;
}.
Arguments step : clear implicits.

Section Webhook.
Context `{GoRange} `{QualityRanker} {S : Type} `{!AllocationStore S, !AdmissionStateStore S, !WebhookInbox S}.
Context (cfg : BrokerConfig) (has_cleanup : BackendName → bool) (ids : nat → string).
Context (opts : GitHubWebhookOptions) (payloads : Payloads).
(** The rounds of a cancellation that other replicas may force. *)
Context (rounds : nat).
Implicit Types (s : Service S) (h : githubWebhookHandler) (now : Time) (payload : workflowJobPayload).

(** An ignore reason, "" for none, or an error. *)
Definition checkWorkflowRun (lookup : option (string → Z → result WorkflowRun)) s (repository : string) (jobID runID : Z) :
    result string :=
  let actors := wo_AllowedActors opts in
  if negb (wo_RejectForks opts) && (length actors =? 0)%nat then Ok ""
  else if (if findByWorkflowJobID s jobID is Some _ then true else false) then Ok ""
  else match lookup with
  | None => Fail (Errorf "workflow run lookup is not configured")
  | Some lookup =>
      match lookup repository runID with
      | Fail err => Fail (Wrapf ("check workflow run " +:+ pretty runID +:+ " of " +:+ repository +:+ ": ") err "")
      | Ok run =>
          if wo_RejectForks opts && negb (EqualFold (TrimSpace (rn_HeadRepository run)) repository) then Ok "fork_pull_request"
          else if (0 <? length actors)%nat &&
                  (negb (matchActor (rn_Actor run) actors) || negb (matchActor (rn_TriggeringActor run) actors))
          then Ok "actor_not_allowed" else Ok ""
      end
  end.

(** The runner of an event. *)
Definition event_runner payload (repository : string) : WorkflowJobRunner :=
  {| wr_Repository := repository; wr_Name := wp_RunnerName payload; wr_ID := wp_RunnerID payload;
     wr_StartedAt := wp_StartedAt payload |}.

Definition process_queued (st : step S) s payload (repository : string) (retryFailed : bool) :
    option process_result * Service S :=
  match MatchWebhookPoolForRepository cfg (wp_Labels payload) repository with
  | None =>
      (Some (ignored (if MatchWebhookPool cfg (wp_Labels payload) is Some _ then "repository_not_allowed" else "no_matching_pool")), s)
  | Some pool =>
      match checkWorkflowRun (st_WorkflowRun st) s repository (wp_ID payload) (wp_RunID payload) with
      | Fail err => (Some (failed_delivery (Plain err)), s)
      | Ok reason =>
          if negb (String.eqb reason "") then (Some (ignored reason), s)
          else match AllocateForWorkflowJob cfg has_cleanup ids (st_env st) background s pool (wp_ID payload) repository
                       retryFailed (st_now st) with
          | (None, s) => (None, s)
          | (Some (_, _, Some err), s) => (Some (failed_delivery err), s)
          | (Some (allocation, created, None), s) =>
              (Some (if negb created then ignored "duplicate_job"
                     else (named_body "allocated" allocation "pool" (pc_Name pool), 202, None)), s)
          end
      end
  end.

(** A running or finished job: [status] and the last entry of the answer. *)
Definition answer_event s (r : option (AllocationStatus * bool * option error * Service S))
    (status : string) (entry : AllocationStatus → string * string) : option process_result * Service S :=
  match r with
  | None => (None, s)
  | Some (_, _, Some err, s) => (Some (failed_delivery (Plain err)), s)
  | Some (allocation, found, None, s) =>
      (Some (if negb found then ignored "unknown_job"
             else (named_body status allocation (entry allocation).1 (entry allocation).2, 200, None)), s)
  end.

(** None: an allocation that its environment cuts off, or a cancellation out of rounds. *)
Definition process (st : step S) s payload (retryFailed : bool) : option process_result * Service S :=
  let repository := TrimSpace (wp_FullName payload) in
  if negb (AcceptsWebhookRepository cfg repository) then (Some (ignored "foreign_repository"), s)
  else
    let runner := event_runner payload repository in
    if String.eqb (wp_Action payload) "queued" then process_queued st s payload repository retryFailed
    else if String.eqb (wp_Action payload) "in_progress" then
      answer_event s (ClaimWorkflowJob cfg has_cleanup (Datatypes.S rounds) s (wp_ID payload) runner (st_now st))
        "claimed" (fun allocation => ("pool", as_Pool allocation))
    else
      answer_event s (FinalizeWorkflowJob cfg has_cleanup (Datatypes.S rounds) s (wp_ID payload) (wp_Conclusion payload) runner (st_now st))
        "finalized" (fun allocation => ("state", state_string (as_State allocation))).

(** ** The inbox *)

Definition completed_unknown payload (body : gmap string string) : bool :=
  String.eqb (wp_Action payload) "completed" && bool_decide (body !! "reason" = Some "unknown_job").

(** Whether the delivery is acknowledged; None as for [process]. *)
Definition handle_delivery (st : step S) s (d : Memory.WebhookDelivery) : option bool * Service S :=
  match pl_Unmarshal payloads (string_of_list_byte (Memory.wd_Payload d)) with
  | Fail _ => (Some true, s)
  | Ok payload =>
      if inboxMaxAge <? TimeSub (st_now st) (Memory.wd_ReceivedAt d) then (Some true, s)
      else match process st s payload false with
      | (None, s) => (None, s)
      | (Some (_, _, Some _), s) => (Some false, s)
      | (Some (body, _, None), s) => (Some (negb (completed_unknown payload body)), s)
      end
  end.

Section Drain.
(** What the deliveries of a drain meet, in order. *)
Context (steps : nat → step S).

(** How many were processed, and the error that ended it; the steps made. *)
Abbreviation drained := (option (Z * option error) * nat * Service S)%type (only parsing).

Fixpoint drain_batch (k : nat) s (processed : Z) (batch : list Memory.WebhookDelivery) : drained :=
  match batch with
  | [] => (Some (processed, None), k, s)
  | d :: batch =>
      match handle_delivery (steps k) (st_others (steps k) s) d with
      | (None, s) => (None, Datatypes.S k, s)
      | (Some false, s) => drain_batch (Datatypes.S k) s processed batch
      | (Some true, s) =>
          match inbox_Ack (sv_store s) (Memory.wd_ID d) with
          | (Some err, store) => (Some (processed, Some err), Datatypes.S k, { s with sv_store := store })
          | (None, store) => drain_batch (Datatypes.S k) { s with sv_store := store } (processed + 1) batch
          end
      end
  end.

(** Batches until one is not full; None also when [fuel] batches were full. *)
Fixpoint drain_batches (fuel k : nat) s (processed : Z) : drained :=
  match fuel with
  | O => (None, k, s)
  | Datatypes.S fuel =>
      let s := st_others (steps k) s in
      match inbox_Claim (sv_store s) inboxBatch inboxLease (st_now (steps k)) with
      | (Fail err, store) => (Some (processed, Some err), Datatypes.S k, { s with sv_store := store })
      | (Ok batch, store) =>
          let s := { s with sv_store := store } in
          if (length batch =? 0)%nat then (Some (processed, None), Datatypes.S k, s)
          else match drain_batch (Datatypes.S k) s processed batch with
          | (Some (processed, None), k, s) =>
              if Z.of_nat (length batch) <? inboxBatch then (Some (processed, None), k, s)
              else drain_batches fuel k s processed
          | r => r
          end
      end
  end.

Definition drainInbox (fuel k : nat) s : drained :=
  if wo_Inbox opts then drain_batches fuel k s 0 else (Some (0, None), k, s).

(** ** The worker *)

(** The worker's part of a delivery: the error of [process]. *)
Definition run_work (fuel : nat) s (work : githubWebhookWork) : option (option api_error) * Service S :=
  match (if wo_IsLeader opts then drainInbox fuel O s else (Some (0, None), O, s)) with
  | (None, _, s) => (None, s)
  | (Some _, k, s) =>
      match process (steps k) (st_others (steps k) s) (gw_payload work) false with
      | (None, s) => (None, s)
      | (Some (_, _, err), s) => (Some err, s)
      end
  end.
End Drain.

(** The worker receives the next delivery. *)
Definition take_work h : githubWebhookHandler :=
  match wh_current h, wh_workCh h with
  | None, work :: rest => { h with wh_workCh := rest; wh_current := Some work }
  | _, _ => h
  end.

(** And is done with it. *)
Definition settle_work h (err : option api_error) now : githubWebhookHandler :=
  match wh_current h with
  | None => h
  | Some work =>
      let guid := gw_guid work in
      { h with wh_current := None;
               wh_deliveries := (if String.eqb guid "" then wh_deliveries h
                                 else match err with
                                      | Some _ => Tracker.release (wh_deliveries h) guid
                                      | None => Tracker.done (wh_deliveries h) guid now
                                      end) }
  end.

(** ** The endpoint *)

Record webhook_request := {
  wq_Method : string;
  wq_Body : string;
  (* the body was read without an error *)
  wq_Readable : bool;
  wq_Signature : string;
  wq_Event : string;
  wq_Delivery : string;
}.

Record webhook_response := { ws_Code : Z; ws_Body : gmap string string }.

(** What a request meets: the secret (a nil resolver answers ""), the leader
    election, and the hexadecimal text of 16 random bytes. *)
Record arrival := {
  av_now : Time;
  av_Secret : result string;
  av_IsLeader : result bool;
  av_random : string;
}.

Definition webhook_error (code : Z) (message : string) : webhook_response :=
  {| ws_Code := code; ws_Body := {[ "error" := message ]} |}.

Definition ignore (reason : string) : webhook_response := {| ws_Code := 200; ws_Body := ignored_body reason |}.

Definition enqueueForLeader (av : arrival) s (req : webhook_request) payload : webhook_response * Service S :=
  if negb (wo_Inbox opts) then ({| ws_Code := 503; ws_Body := ignored_body "not_leader" |}, s)
  else
    let id := TrimSpace (wq_Delivery req) in
    let id := if String.eqb id "" then "generated-" +:+ av_random av else id in
    let '(err, store) :=
      match pl_Marshal payloads payload with
      | Fail err => (Some err, sv_store s)
      | Ok raw => inbox_Enqueue (sv_store s) id raw (av_now av)
      end in
    let s := { s with sv_store := store } in
    (match err with
     | Some _ => webhook_error 503 "unable to queue webhook delivery"
     | None => {| ws_Code := 202; ws_Body := {[ "status" := "queued"; "reason" := "not_leader" ]} |}
     end, s).

(** Claims the GUID and queues the delivery for the worker. *)
Definition accept (av : arrival) h (req : webhook_request) payload : webhook_response * githubWebhookHandler :=
  let guid := TrimSpace (wq_Delivery req) in
  let '(claimed, deliveries) :=
    if String.eqb guid "" then (true, wh_deliveries h) else Tracker.claim (wh_deliveries h) guid (av_now av) in
  if negb claimed then (ignore "duplicate_delivery", { h with wh_deliveries := deliveries })
  else if (length (wh_workCh h) <? workCapacity)%nat then
    ({| ws_Code := 202; ws_Body := {[ "status" := "accepted" ]} |},
     { h with wh_deliveries := deliveries; wh_workCh := wh_workCh h ++ [{| gw_payload := payload; gw_guid := guid |}] })
  else
    (webhook_error 503 "webhook processing queue full",
     { h with wh_deliveries := (if String.eqb guid "" then deliveries else Tracker.release deliveries guid) }).

(** The delivery a request carries, or the answer to one that carries none. *)
Definition authenticated (av : arrival) (req : webhook_request) : webhook_response + workflowJobPayload :=
  if negb (wq_Readable req) || (maxGitHubWebhookBody <? Z.of_nat (String.length (wq_Body req)))
  then inl (webhook_error 400 "unable to read request body")
  else match av_Secret av with
  | Fail _ => inl (webhook_error 503 "webhook secret unavailable")
  | Ok secret =>
      let signature := TrimSpace (wq_Signature req) in
      if String.eqb secret "" then inl (webhook_error 503 "webhook secret unavailable")
      else if String.eqb signature "" then inl (webhook_error 401 "missing X-Hub-Signature-256")
      else if negb (validGitHubSignature secret (wq_Body req) signature) then inl (webhook_error 401 "invalid signature")
      else if negb (String.eqb (TrimSpace (wq_Event req)) "workflow_job") then inl (ignore "unsupported_event")
      else match pl_Unmarshal payloads (wq_Body req) with
      | Fail _ => inl (webhook_error 400 "invalid workflow_job payload")
      | Ok payload =>
          if negb (existsb (String.eqb (wp_Action payload)) ["queued"; "in_progress"; "completed"])
          then inl (ignore "unsupported_action")
          else if wp_ID payload =? 0 then inl (webhook_error 400 "workflow_job.id is required")
          else inr payload
      end
  end.

Definition leads (av : arrival) : bool :=
  negb (wo_IsLeader opts) || (match av_IsLeader av with Ok leader => leader | Fail _ => false end).

Definition serve (av : arrival) h s (req : webhook_request) : webhook_response * githubWebhookHandler * Service S :=
  match authenticated av req with
  | inl response => (response, h, s)
  | inr payload =>
      if leads av then let '(response, h) := accept av h req payload in (response, h, s)
      else let '(response, s) := enqueueForLeader av s req payload in (response, h, s)
  end.

(** [Server.githubWebhook] is nil until SetGitHubWebhook. *)
Definition handleGitHubWebhook (av : arrival) (h : option githubWebhookHandler) s (req : webhook_request) :
    webhook_response * option githubWebhookHandler * Service S :=
  match h with
  | None => (webhook_error 404 "github webhook is not enabled", None, s)
  | Some h =>
      if negb (String.eqb (wq_Method req) "POST") then (webhook_error 405 "method not allowed", Some h, s)
      else let '(response, h, s) := serve av h s req in (response, Some h, s)
  end.
End Webhook.
