(* ===== verification/WebhookReconcile.v ===== *)
(** The reconciler of missed webhooks: ReconcileQueuedGitHubJobs of
    src/internal/api/github_webhook.go.

    A cycle re-serves jobs whose allocation ended, then scans the repositories
    for queued runs: those of the last hour in every cycle, all of the last week
    in a deep pass that may take several cycles.  A [cycle] counts its events,
    the requests it sends and the deliveries it processes; GitHub's answers, the
    call counter, the clock and the ends of the contexts are functions of that
    count. *)

From stdpp Require Import pretty.
From S2P Require Import Prelude Errors Model Store Scheduler FairShare Registry Backends Budget Capacity Admission.
From S2P Require Import Warm JobRetry TierPolicy ServicePolicy Service ServiceFilters Auth Allocate CapacityMatrix.
From S2P Require Import WorkflowJob Webhook.
Open Scope Z_scope.
Open Scope go_scope.

Definition reconcileRunWindow : Duration := 7 * 24 * Hour.
Definition reconcileRecentWindow : Duration := Hour.
Definition reconcileDeepInterval : Duration := 10 * Minute.
Definition reconcileDeepMaxOpen : Duration := Hour.
Definition reconcileCallBudget : Z := 100.
Definition reconcileDeepReserve : Z := 40.
Definition reconcileRunMaxCutoffs : Z := 3.
Definition reconcileReposTTL : Duration := 5 * Minute.
Definition reconcileTruncatedReposTTL : Duration := Minute.
Definition reconcileRateLimitFloor : Z := 1000.
Definition reconcileRateLimitBackof : Duration := 5 * Minute.

(** ** State *)

(** Where a scan is: the next repository, the repository whose runs are pending. *)
Record repoScanner := {
  sn_cursor : Z;
  sn_repo : string;
  sn_runs : list Z;
  sn_pos : nat;
  sn_remaining : Z;
}.

Definition zero_repoScanner : repoScanner :=
  {| sn_cursor := 0; sn_repo := ""; sn_runs := []; sn_pos := 0; sn_remaining := 0 |}.

Record reconcileState := {
  rc_recent : repoScanner;
  rc_deep : repoScanner;
  rc_lastDeep : Time;
  rc_deepOpen : bool;
  rc_deepOpenedAt : Time;
  rc_deepAllAges : bool;
  rc_sawAllocations : bool;
  rc_lastDeepSpent : Z;
  rc_cutoffs : gmap string Z;
  rc_repos : option (list string);
  rc_reposAt : Time;
  rc_reposTTL : Duration;
}.

Definition zero_reconcileState : reconcileState :=
  {| rc_recent := zero_repoScanner; rc_deep := zero_repoScanner; rc_lastDeep := 0; rc_deepOpen := false;
     rc_deepOpenedAt := 0; rc_deepAllAges := false; rc_sawAllocations := false; rc_lastDeepSpent := 0;
     rc_cutoffs := ∅; rc_repos := None; rc_reposAt := 0; rc_reposTTL := 0 |}.

(** The two scans of a cycle. *)
Inductive scan_kind := RecentScan | DeepScan.

(** The contexts of a cycle: its own, and one with a deadline per scan. *)
Inductive scope := CycleScope | ScanScope (kind : scan_kind).

(** [github.WorkflowJob]. *)
Record github_job := { gj_ID : Z; gj_RunID : Z; gj_Status : string; gj_Labels : list string }.

Inductive list_request :=
  | ListRepositories
  | ListQueuedWorkflowRuns (repository : string) (since : Time)
  | ListWorkflowJobs (repository : string) (runID : Z)
  | GetWorkflowJob (repository : string) (jobID : Z).

(** [opts.WorkflowJobs]: the answers to the n-th event, a list and an error. *)
Record WorkflowJobs := {
  (* the client counts its API calls: those of the n-th event, a request or a delivery *)
  wj_counted : bool;
  wj_calls : nat → option list_request → Z;
  (* after n events; None when not known *)
  wj_RateLimit : nat → option (Z * Time);
  wj_ListRepositories : nat → list string * option error;
  wj_ListQueuedWorkflowRuns : nat → string → Time → list Z * option error;
  wj_ListWorkflowJobs : nat → string → Z → list github_job * option error;
  wj_GetWorkflowJob : option (nat → string → Z → result github_job);
}.

(** One cycle: [reconcileRun] with its [cycleBudget], the state and the broker. *)
Record cycle {S : Type} := {
  cy_service : Service S;
  cy_state : reconcileState;
  cy_events : nat;
  cy_sent : list list_request;
  cy_calls : Z;
  cy_fallback : Z;
  cy_allocated : Z;
  cy_firstErr : option error;
}.
Arguments cycle : clear implicits.

(** "1h0m0s": [Duration.String] for whole seconds, from an hour on. *)
Definition window_text (d : Duration) : string :=
  pretty (d / Hour) +:+ "h" +:+ pretty (d mod Hour / Minute) +:+ "m" +:+ pretty (d mod Minute / Second) +:+ "s".

Definition deepScanLimit (recentSpent : Z) : Z :=
  if reconcileCallBudget <? recentSpent + reconcileDeepReserve then recentSpent + reconcileDeepReserve
  else reconcileCallBudget.

Section Reconcile.
Context `{GoRange} `{QualityRanker} {S : Type} `{!AllocationStore S, !AdmissionStateStore S, !WebhookInbox S}.
Context (cfg : BrokerConfig) (has_cleanup : BackendName → bool) (ids : nat → string).
Context (opts : GitHubWebhookOptions) (rounds : nat).
Context (lister : WorkflowJobs) (clock : nat → Time) (ctx_Err : scope → nat → option error) (steps : nat → step S).
Implicit Types (w : cycle S) (sc : repoScanner) (st : reconcileState) (now : Time).

(** ** The budget of a cycle *)

Definition reconcileRateLimited (limit : option (Z * Time)) now : bool :=
  match limit with
  | None => false
  | Some (remaining, reset) =>
      if reconcileRateLimitFloor <=? remaining then false
      else Before now (if IsZero reset then TimeAdd now reconcileRateLimitBackof else reset)
  end.

Definition spent w : Z := if wj_counted lister then cy_calls w else cy_fallback w.

(** The error of a context, the floor, the budget, or a request reserved. *)
Definition take_call w (where_ : scope) (limit : Z) : option error * cycle S :=
  match ctx_Err where_ (cy_events w) with
  | Some err => (Some err, w)
  | None =>
      if reconcileRateLimited (wj_RateLimit lister (cy_events w)) (clock (cy_events w))
      then (Some (Sentinel ErrReconcileRateLimited), w)
      else if limit <=? spent w then (Some (Sentinel errReconcileBudgetSpent), w)
      else (None, { w with cy_fallback := cy_fallback w + 1 })
  end.

(** An event happened. *)
Definition event w (request : option list_request) : cycle S :=
  { w with cy_events := Datatypes.S (cy_events w); cy_calls := cy_calls w + wj_calls lister (cy_events w) request }.

Definition send w (request : list_request) : cycle S := event { w with cy_sent := cy_sent w ++ [request] } (Some request).

Definition keepErr w (err : error) : cycle S :=
  match cy_firstErr w with None => { w with cy_firstErr := Some err } | Some _ => w end.

Definition set_state w st : cycle S := { w with cy_state := st }.

(** Whether the unit was cut off so often that it is skipped. *)
Definition cutoff w (key : string) : bool * cycle S :=
  let cutoffs := rc_cutoffs (cy_state w) in
  let n := default 0 (cutoffs !! key) + 1 in
  let cutoffs := <[key := n]> cutoffs in
  if n <? reconcileRunMaxCutoffs then (false, set_state w { cy_state w with rc_cutoffs := cutoffs })
  else (true, set_state w { cy_state w with rc_cutoffs := delete key cutoffs }).

Definition clear_cutoff w (key : string) : cycle S :=
  set_state w { cy_state w with rc_cutoffs := delete key (rc_cutoffs (cy_state w)) }.

(** ** Jobs *)

Definition queued_payload (repository : string) (jobID runID : Z) (labels : list string) : workflowJobPayload :=
  {| wp_Action := "queued"; wp_ID := jobID; wp_RunID := runID; wp_RunnerName := ""; wp_RunnerID := 0;
     wp_StartedAt := 0; wp_Labels := labels; wp_Conclusion := ""; wp_FullName := repository |}.

(** The body of the answer or the error; None as for [process]. *)
Definition process_at w payload : option (gmap string string * option api_error) * cycle S :=
  let st := steps (cy_events w) in
  let '(r, s) := process cfg has_cleanup ids opts rounds st (st_others st (cy_service w)) payload true in
  (match r with Some (body, _, err) => Some (body, err) | None => None end, event { w with cy_service := s } None).

Definition allocated_body (body : gmap string string) : bool := bool_decide (body !! "status" = Some "allocated").

Definition terminalPriority (s : Service S) (jobID : Z) : Z :=
  match findByWorkflowJobID s jobID with
  | Some existing => if isTerminalAllocationState (as_State existing) then 1 else 0
  | None => 0
  end.

(** None: a delivery was cut off. *)
Fixpoint process_jobs w (repository : string) (runID : Z) (jobs : list github_job) : option (cycle S) :=
  match jobs with
  | [] => Some w
  | job :: jobs =>
      if (gj_ID job <=? 0) || negb (String.eqb (gj_Status job) "queued") ||
         negb (if MatchWebhookPoolForRepository cfg (gj_Labels job) repository is Some _ then true else false)
      then process_jobs w repository runID jobs
      else
        let run := if gj_RunID job =? 0 then runID else gj_RunID job in
        match process_at w (queued_payload repository (gj_ID job) run (gj_Labels job)) with
        | (None, _) => None
        | (Some (_, Some err), w) =>
            process_jobs (keepErr w (Wrapf ("reconcile " +:+ repository +:+ " job " +:+ pretty (gj_ID job) +:+ ": ") (api_Unwrap err) ""))
              repository runID jobs
        | (Some (body, None), w) =>
            process_jobs (if allocated_body body then { w with cy_allocated := cy_allocated w + 1 } else w) repository runID jobs
        end
  end.

(** What [errors.Is(err, github.ErrPageCapReached)] lets pass. *)
Definition listing_failed (err : option error) : option error :=
  match err with Some err => if errors_Is err ErrPageCapReached then None else Some err | None => None end.

Definition processRun w (where_ : scope) (repository : string) (runID : Z) : option (cycle S) :=
  let '(jobs, err) := wj_ListWorkflowJobs lister (cy_events w) repository runID in
  let w := send w (ListWorkflowJobs repository runID) in
  match ctx_Err where_ (cy_events w) with
  | Some _ => Some w
  | None =>
      match listing_failed err with
      | Some err => Some (keepErr w err)
      | None =>
          let priority job := terminalPriority (cy_service w) (gj_ID job) in
          process_jobs w repository runID (sort_stable (fun a b => priority b <? priority a) jobs)
      end
  end.

(** ** Scanning *)

(** How a scan ends; Cut when a delivery was cut off. *)
Inductive scan_end := Cut | Ended (err : option error).

Definition unit_key (unit_ : string) (window : Duration) : string := unit_ +:+ "@" +:+ window_text window.
Definition run_key (repository : string) (runID : Z) (window : Duration) : string :=
  unit_key (repository +:+ "#" +:+ pretty runID) window.

(** The runs of [sn_repo] from [sn_pos] on. *)
Fixpoint scan_runs w sc (where_ : scope) (window : Duration) (limit : Z) (runs : list Z) : scan_end * repoScanner * cycle S :=
  match runs with
  | [] => (Ended None, sc, w)
  | runID :: runs =>
      match take_call w where_ limit with
      | (Some err, w) => (Ended (Some err), sc, w)
      | (None, w) =>
          let key := run_key (sn_repo sc) runID window in
          let next := { sc with sn_pos := Datatypes.S (sn_pos sc) } in
          match processRun w where_ (sn_repo sc) runID with
          | None => (Cut, sc, w)
          | Some w =>
              match ctx_Err where_ (cy_events w) with
              | Some err =>
                  let '(skip, w) := cutoff w key in
                  (Ended (Some err), (if skip then next else sc), w)
              | None => scan_runs (clear_cutoff w key) next where_ window limit runs
              end
          end
      end
  end.

(** One repository: listed, or passed over; [None] when the scan goes on. *)
Definition scan_list w sc (repos : list string) (since : Time) (where_ : scope) (window : Duration) (limit : Z) :
    option scan_end * repoScanner * cycle S :=
  let idx := sn_cursor sc mod Z.of_nat (length repos) in
  let repository := TrimSpace (default "" (repos !! Z.to_nat idx)) in
  let skipped := { sc with sn_cursor := idx + 1; sn_remaining := sn_remaining sc - 1 } in
  if negb (AcceptsWebhookRepository cfg repository) then (None, skipped, w)
  else match take_call w where_ limit with
  | (Some err, w) => (Some (Ended (Some err)), sc, w)
  | (None, w) =>
      let '(runs, err) := wj_ListQueuedWorkflowRuns lister (cy_events w) repository since in
      let w := send w (ListQueuedWorkflowRuns repository since) in
      let key := unit_key repository window in
      match ctx_Err where_ (cy_events w) with
      | Some ctxErr =>
          let '(skip, w) := cutoff w key in
          (Some (Ended (Some ctxErr)), (if skip then skipped else sc), w)
      | None =>
          let w := clear_cutoff w key in
          match listing_failed err with
          | Some err => (None, skipped, keepErr w err)
          | None => (None, { sc with sn_cursor := idx + 1; sn_repo := repository; sn_runs := runs; sn_pos := O }, w)
          end
      end
  end.

(** The pending runs, then the repository is left. *)
Definition scan_pending w sc (where_ : scope) (window : Duration) (limit : Z) : option scan_end * repoScanner * cycle S :=
  match scan_runs w sc where_ window limit (drop (sn_pos sc) (sn_runs sc)) with
  | (Ended None, sc, w) =>
      (None, { sc with sn_repo := ""; sn_runs := []; sn_pos := O; sn_remaining := sn_remaining sc - 1 }, w)
  | (e, sc, w) => (Some e, sc, w)
  end.

Fixpoint scan_loop (fuel : nat) w sc (repos : list string) (since : Time) (where_ : scope) (window : Duration) (limit : Z) :
    option scan_end * repoScanner * cycle S :=
  match fuel with
  | O => (None, sc, w)
  | Datatypes.S fuel =>
      if (sn_remaining sc <=? 0) && String.eqb (sn_repo sc) "" then (Some (Ended None), sc, w)
      else
        let '(e, sc, w) :=
          if String.eqb (sn_repo sc) "" then scan_list w sc repos since where_ window limit else (None, sc, w) in
        match e with
        | Some e => (Some e, sc, w)
        | None =>
            if String.eqb (sn_repo sc) "" then scan_loop fuel w sc repos since where_ window limit
            else match scan_pending w sc where_ window limit with
            | (Some e, sc, w) => (Some e, sc, w)
            | (None, sc, w) => scan_loop fuel w sc repos since where_ window limit
            end
        end
  end.

(** Enough rounds: each leaves one repository behind. *)
Definition scan_fuel sc : nat := Datatypes.S (Datatypes.S (Z.to_nat (sn_remaining sc))).

(** None: out of fuel, which never happens. *)
Definition scan w sc (repos : list string) (since : Time) (where_ : scope) (window : Duration) (limit : Z) :
    option scan_end * repoScanner * cycle S :=
  scan_loop (scan_fuel sc) w sc repos since where_ window limit.

(** ** Jobs whose allocation ended *)

Record candidate := { cd_jobID : Z; cd_repo : string; cd_labels : list string; cd_created : Time }.

(** The candidate of a record, if it is one. *)
Definition candidate_of (s : Service S) (taken : list Z) (status : AllocationStatus) : option candidate :=
  match as_Request status with
  | None => None
  | Some request =>
      let jobID := ar_WorkflowJobID request in
      let target := TrimSpace (ar_TargetRepository request) in
      let repo := if String.eqb target "" then TrimSpace (as_Repository status) else target in
      if (jobID <=? 0) || negb (isTerminalAllocationState (as_State status)) || bool_decide (jobID ∈ taken) ||
         (match findByWorkflowJobID s jobID with
          | Some live => negb (isTerminalAllocationState (as_State live))
          | None => false
          end) || String.eqb repo ""
      then None
      else Some {| cd_jobID := jobID; cd_repo := repo; cd_labels := ar_Labels request; cd_created := as_CreatedAt status |}
  end.

Definition candidates (s : Service S) : list candidate :=
  sort_stable (fun a b => Before (cd_created a) (cd_created b))
    (foldl (fun found status =>
       match candidate_of s (cd_jobID <$> found) status with Some c => found ++ [c] | None => found end)
     [] (store_List (sv_store s))).

Fixpoint rescue_jobs w (get : nat → string → Z → result github_job) (limit rescued : Z) (l : list candidate) :
    scan_end * Z * cycle S :=
  match l with
  | [] => (Ended None, rescued, w)
  | c :: l =>
      match take_call w CycleScope limit with
      | (Some err, w) => (Ended (Some err), rescued, w)
      | (None, w) =>
          let answer := get (cy_events w) (cd_repo c) (cd_jobID c) in
          let w := send w (GetWorkflowJob (cd_repo c) (cd_jobID c)) in
          match answer with
          | Fail err =>
              rescue_jobs (keepErr w (Wrapf ("rescue get job " +:+ cd_repo c +:+ "#" +:+ pretty (cd_jobID c) +:+ ": ") err ""))
                get limit rescued l
          | Ok job =>
              let labels := if (length (gj_Labels job) =? 0)%nat then cd_labels c else gj_Labels job in
              if negb (String.eqb (gj_Status job) "queued") ||
                 negb (if MatchWebhookPoolForRepository cfg labels (cd_repo c) is Some _ then true else false)
              then rescue_jobs w get limit rescued l
              else match process_at w (queued_payload (cd_repo c) (cd_jobID c) (gj_RunID job) labels) with
              | (None, w) => (Cut, rescued, w)
              | (Some (_, Some err), w) =>
                  rescue_jobs (keepErr w (Wrapf ("rescue " +:+ cd_repo c +:+ " job " +:+ pretty (cd_jobID c) +:+ ": ") (api_Unwrap err) ""))
                    get limit rescued l
              | (Some (body, None), w) =>
                  if allocated_body body
                  then rescue_jobs { w with cy_allocated := cy_allocated w + 1 } get limit (rescued + 1) l
                  else rescue_jobs w get limit rescued l
              end
          end
      end
  end.

Definition rescueTerminalQueuedJobs w (callLimit : Z) : scan_end * Z * cycle S :=
  match wj_GetWorkflowJob lister with
  | None => (Ended None, 0, w)
  | Some get => rescue_jobs w get (if callLimit <=? 0 then 10 else callLimit) 0 (candidates (cy_service w))
  end.

(** ** The cycle *)

Definition fetchRepositories w now : result (list string) * cycle S :=
  match take_call w CycleScope reconcileCallBudget with
  | (Some err, w) => (Fail err, w)
  | (None, w) =>
      let '(repos, err) := wj_ListRepositories lister (cy_events w) in
      let w := send w ListRepositories in
      match listing_failed err with
      | Some err => (Fail err, w)
      | None =>
          let ttl := if err is Some _ then reconcileTruncatedReposTTL else reconcileReposTTL in
          (Ok repos, set_state w { cy_state w with rc_repos := Some repos; rc_reposAt := now; rc_reposTTL := ttl })
      end
  end.

Definition reconcileRepositories w now : result (list string) * cycle S :=
  let st := cy_state w in
  match rc_repos st with
  | Some repos => if TimeSub now (rc_reposAt st) <? rc_reposTTL st then (Ok repos, w) else fetchRepositories w now
  | None => fetchRepositories w now
  end.

(** Whether the deep pass is restarted or opened, before the scans. *)
Definition open_deep st (stateEmpty : bool) (repos : list string) now : reconcileState :=
  let stateReset := stateEmpty && rc_sawAllocations st in
  let st := { st with rc_sawAllocations := if negb stateEmpty then true else if stateReset then false else rc_sawAllocations st } in
  let restart := rc_deepOpen st && (stateReset || (reconcileDeepMaxOpen <=? TimeSub now (rc_deepOpenedAt st))) in
  let st := if restart then { st with rc_deepOpen := false; rc_deep := zero_repoScanner } else st in
  if negb (rc_deepOpen st) &&
     (stateReset || restart || IsZero (rc_lastDeep st) || (reconcileDeepInterval <=? TimeSub now (rc_lastDeep st)))
  then { st with rc_deepOpen := true; rc_deepOpenedAt := now; rc_deepAllAges := stateEmpty;
                 rc_deep := { rc_deep st with sn_repo := ""; sn_runs := []; sn_pos := O;
                                              sn_remaining := Z.of_nat (length repos) } }
  else st.

(** An error that does not end the cycle with an error. *)
Definition scan_interrupted (err : error) : bool :=
  errors_Is err errReconcileBudgetSpent || errors_Is err DeadlineExceeded.

(** The error of a cycle: the recent scan's, the deep scan's, the first kept one. *)
Definition cycle_error (recentErr deepErr : option error) w : option error :=
  let serious err := match err with Some err => if scan_interrupted err then None else Some err | None => None end in
  match serious recentErr with
  | Some err => Some err
  | None => match serious deepErr with Some err => Some err | None => cy_firstErr w end
  end.

(** (allocated, err); None when a delivery was cut off. *)
Abbreviation cycle_result := (option (Z * option error) * cycle S)%type (only parsing).

Definition deep_scan w (repos : list string) (recentErr : option error) now : cycle_result :=
  let recentSpent := spent w in
  let st := cy_state w in
  let stop :=
    negb (rc_deepOpen st) || (if ctx_Err CycleScope (cy_events w) is Some _ then true else false) ||
    (match recentErr with Some err => errors_Is err ErrReconcileRateLimited | None => false end) in
  if stop then
    let w := set_state w { st with rc_lastDeepSpent := 0 } in
    (Some (cy_allocated w, cycle_error recentErr None w), w)
  else
    let since := if rc_deepAllAges st then 0 else TimeAdd now (- reconcileRunWindow) in
    match scan w (rc_deep st) repos since (ScanScope DeepScan) reconcileRunWindow (deepScanLimit recentSpent) with
    | (Some (Ended deepErr), sc, w) =>
        let over := match deepErr with None => sn_remaining sc <=? 0 | Some _ => false end in
        let st := { cy_state w with rc_deep := sc; rc_lastDeepSpent := spent w - recentSpent } in
        let w := set_state w (if over then { st with rc_deepOpen := false; rc_lastDeep := now } else st) in
        (Some (cy_allocated w, cycle_error recentErr deepErr w), w)
    | (_, _, w) => (None, w)
    end.

Definition scans w (repos : list string) now : cycle_result :=
  let stateEmpty := (length (store_List (sv_store (cy_service w))) =? 0)%nat in
  let st := open_deep (cy_state w) stateEmpty repos now in
  let limit := if rc_deepOpen st then reconcileCallBudget - reconcileDeepReserve else reconcileCallBudget in
  let recent := { rc_recent st with sn_remaining := Z.of_nat (length repos) } in
  match scan (set_state w st) recent repos (TimeAdd now (- reconcileRecentWindow)) (ScanScope RecentScan)
          reconcileRecentWindow limit with
  | (Some (Ended recentErr), sc, w) =>
      deep_scan (set_state w { cy_state w with rc_recent := sc }) repos recentErr now
  | (_, _, w) => (None, w)
  end.

(** After the rescue: the repositories, and the scans. *)
Definition scan_repositories w now : cycle_result :=
  match reconcileRepositories w now with
  | (Fail err, w) => (Some (0, Some err), w)
  | (Ok repos, w) =>
      if (length repos =? 0)%nat then
        (Some (0, None),
         set_state w { cy_state w with rc_recent := zero_repoScanner; rc_deep := zero_repoScanner;
                                       rc_deepOpen := false; rc_lastDeep := now })
      else scans w repos now
  end.

Definition start_cycle (s : Service S) st : cycle S :=
  {| cy_service := s; cy_state := st; cy_events := O; cy_sent := []; cy_calls := 0; cy_fallback := 0;
     cy_allocated := 0; cy_firstErr := None |}.

(** [busy]: the previous cycle still holds the lock. *)
Definition ReconcileQueuedGitHubJobs (s : Service S) st (busy : bool) : cycle_result :=
  let now := clock O in
  let w := start_cycle s st in
  if reconcileRateLimited (wj_RateLimit lister O) now then (Some (0, Some (Sentinel ErrReconcileRateLimited)), w)
  else if busy then (Some (0, None), w)
  else match rescueTerminalQueuedJobs w (reconcileCallBudget / 4) with
  | (Cut, _, w) => (None, w)
  | (Ended (Some err), _, w) =>
      if negb (scan_interrupted err) && negb (errors_Is err ErrReconcileRateLimited)
      then (Some (cy_allocated w, Some err), w) else scan_repositories w now
  | (Ended None, _, w) => scan_repositories w now
  end.
End Reconcile.
