(* ===== verification/WorkflowTheory.v ===== *)
(** Theorems of the workflow-job operations: who owns a job, and that they keep
    the ledger. *)

From stdpp Require Import pretty.
From S2P Require Import Prelude Errors Model Store StoreTheory Scheduler SchedulerTheory FairShare FairShareTheory.
From S2P Require Import Registry Backends Budget Capacity Admission Warm JobRetry TierPolicy ServicePolicy Service.
From S2P Require Import ServiceFilters ServiceTheory Allocate AllocateTheory CapacityMatrix WorkflowJob.
Open Scope Z_scope.
Open Scope go_scope.

(** ** Matching pools *)

Lemma elem_of_normalizeLabelSet label labels :
  label ∈ normalizeLabelSet labels ↔ label ≠ "" ∧ ∃ l, l ∈ labels ∧ label = ToLower (TrimSpace l).
Proof.
  unfold normalizeLabelSet. rewrite elem_of_list_to_set, list_elem_of_filter, list_elem_of_fmap. naive_solver.
Qed.

Lemma find_first {A} (p : A → bool) l x :
  find p l = Some x ↔ ∃ l1 l2, l = l1 ++ x :: l2 ∧ p x = true ∧ ∀ y, y ∈ l1 → p y = false.
Proof.
  induction l as [|y l IH]; cbn [find].
  - split; [done|by intros ([] & ? & ? & _)].
  - destruct (p y) eqn:Hy.
    + split; [intros [= ->]; exists [], l; split_and!; [done|done|by intros ? ?%elem_of_nil]|].
      intros ([|z l1] & l2 & [= -> ->] & Hx & Hl1); [done|]. rewrite (Hl1 z) in Hy by left. done.
    + rewrite IH. split.
      * intros (l1 & l2 & -> & Hx & Hl1). exists (y :: l1), l2. split_and!; [done|done|].
        intros z [->|Hz]%elem_of_cons; [done|by apply Hl1].
      * intros ([|z l1] & l2 & [= -> ->] & Hx & Hl1); [congruence|]. exists l1, l2. split_and!; [done|done|].
        intros w Hw. apply Hl1. by right.
Qed.

Lemma find_absent {A} (p : A → bool) l : find p l = None ↔ ∀ x, x ∈ l → p x = false.
Proof.
  split; [intros Hf x Hx; eapply find_none; [done|by apply list_elem_of_In]|].
  intros Hall. destruct (find p l) as [x|] eqn:Hf; [|done]. apply find_some in Hf as [Hin Hp].
  apply list_elem_of_In in Hin. by rewrite Hall in Hp.
Qed.

(** ** Ownership *)

Section Ownership.
Context `{GoRange} `{QualityRanker} {S : Type} `{!AllocationStore S, !AdmissionStateStore S, !ReliableStore S}.
Context (cfg : BrokerConfig) (has_cleanup : BackendName → bool) (ids : nat → string).
Implicit Types (s : Service S) (now : Time) (status : AllocationStatus) (runner : WorkflowJobRunner).

(** The evidence that a runner GitHub named is the runner of a record. *)
Record proven (jobID : Z) runner status : Prop := {
  pv_served : allocationServesRepository cfg status (wr_Repository runner) = true;
  pv_name : wr_Name runner ≠ "" → EqualFold (TrimSpace (as_RunnerLabel status)) (TrimSpace (wr_Name runner)) = true;
  pv_number : 0 < wr_ID runner → (as_Metadata status).[runnerIDKey] ≠ "" →
    (as_Metadata status).[runnerIDKey] = FormatInt (wr_ID runner);
  pv_something : wr_Name runner ≠ "" ∨ (as_Metadata status).[runnerIDKey] ≠ "";
  pv_unbound : executionJob status = 0 ∨ executionJob status = jobID;
  pv_lease : (as_Metadata status).[LeaseStartedKey] ≠ "" →
    ∃ lease, ParseRFC3339 (as_Metadata status).[LeaseStartedKey] = Some lease ∧ 0 < wr_ID runner ∧
      (as_Metadata status).[runnerIDKey] ≠ "" ∧ wr_StartedAt runner ≠ 0 ∧ lease ≤ wr_StartedAt runner;
}.

Lemma lease_of_Some runner status lease : lease_of runner status = Some lease →
  (as_Metadata status).[LeaseStartedKey] = "" ∧ lease = 0 ∨
  ParseRFC3339 (as_Metadata status).[LeaseStartedKey] = Some lease ∧ 0 < wr_ID runner ∧
  (as_Metadata status).[runnerIDKey] ≠ "" ∧ wr_StartedAt runner ≠ 0 ∧ lease ≤ wr_StartedAt runner.
Proof.
  unfold lease_of. case_match; reflect_bools; [intros [= <-]; by left|]. destruct (ParseRFC3339 _) as [l|]; [|done].
  case_match eqn:Hb; [done|]. intros [= ->]. right. unfold IsZero, Before in Hb. reflect_bools. split_and!; done.
Qed.

Lemma owns_proven jobID runner status : has_identity runner = true → owns cfg jobID runner status ≠ NotOwner →
  proven jobID runner status ∧ (owns cfg jobID runner status = Owner ↔ executionJob status = jobID).
Proof.
  intros Hid. unfold owns. rewrite Hid. cbn [negb].
  destruct (allocationServesRepository _ _ _) eqn:Hs; cbn [negb]; [|done].
  destruct (negb (String.eqb (wr_Name runner) "") && _) eqn:Hname; [done|].
  destruct ((0 <? wr_ID runner) && _ && _) eqn:Hnum; [done|].
  destruct (String.eqb (wr_Name runner) "" && _) eqn:Hany; [done|].
  destruct (negb (executionJob status =? 0) && _) eqn:Hb; [done|].
  destruct (lease_of runner status) as [lease|] eqn:Hl; [|done]. intros _.
  apply lease_of_Some in Hl. split.
  - split; [done| | | | |].
    + intros Hn. reflect_bools. rewrite negb_false_iff in Hname. destruct Hname as [Hn'|]; [|by apply negb_false_iff].
      by apply String.eqb_eq in Hn'.
    + intros Hpos Hne. destruct (String.eqb_spec (as_Metadata status).[runnerIDKey] (FormatInt (wr_ID runner))); [done|].
      apply Z.ltb_lt in Hpos. apply String.eqb_neq in Hne. by rewrite Hpos, Hne in Hnum.
    + destruct (String.eqb_spec (wr_Name runner) ""); [right|by left]. by apply String.eqb_neq.
    + destruct (Z.eqb_spec (executionJob status) 0); [by left|right]. by destruct (Z.eqb_spec (executionJob status) jobID).
    + intros Hne. destruct Hl as [[? _]|?]; [done|]. by exists lease.
  - destruct (Z.eqb_spec (executionJob status) jobID); naive_solver.
Qed.

Lemma proven_owns jobID runner status : has_identity runner = true → proven jobID runner status →
  owns cfg jobID runner status ≠ NotOwner.
Proof.
  intros Hid [Hs Hname Hnum Hany Hb Hl]. unfold owns. rewrite Hid, Hs. cbn [negb].
  destruct (negb (String.eqb (wr_Name runner) "") && _) eqn:H1.
  { apply andb_true_iff in H1 as [Hn%negb_true_iff%String.eqb_neq He]. by rewrite (Hname Hn) in He. }
  destruct ((0 <? wr_ID runner) && _ && _) eqn:H2.
  { rewrite !andb_true_iff, !negb_true_iff, Z.ltb_lt, !String.eqb_neq in H2. destruct H2 as [[Hpos Hk] Hne]. by destruct Hne; apply Hnum. }
  destruct (String.eqb (wr_Name runner) "" && _) eqn:H3.
  { apply andb_true_iff in H3 as [Hn%String.eqb_eq Hk%String.eqb_eq]. by destruct Hany. }
  destruct (negb (executionJob status =? 0) && _) eqn:H4.
  { rewrite andb_true_iff, !negb_true_iff, !Z.eqb_neq in H4. tauto. }
  unfold lease_of. destruct (String.eqb_spec (as_Metadata status).[LeaseStartedKey] "") as [|Hraw]; [by case_match|].
  destruct (Hl Hraw) as (lease & -> & Hpos & Hkey & Hst & Hle).
  match goal with |- context [if ?c then None else Some lease] => destruct c eqn:Hc end; [|by case_match]. exfalso. revert Hc.
  unfold IsZero, Before. rewrite !orb_true_iff, Z.leb_le, Z.ltb_lt, Z.eqb_eq, String.eqb_eq. intuition lia.
Qed.

(** The candidate a scan keeps is of the scanned records, or the one it started with. *)
Lemma choose_owner_in jobID runner chosen l status : choose_owner cfg jobID runner chosen l = Some status →
  (status ∈ l ∧ owns cfg jobID runner status ≠ NotOwner) ∨ (∃ lease, chosen = Some (status, lease)).
Proof.
  revert chosen. induction l as [|x l IH]; intros chosen; cbn [choose_owner].
  - destruct chosen as [[old lease]|]; [|done]. intros [= ->]. right. by exists lease.
  - destruct (owns cfg jobID runner x) as [| |lease] eqn:Ho.
    + intros Hc. destruct (IH _ Hc) as [[? ?]|?]; [left; split; [by right|done]|by right].
    + intros [= ->]. left. split; [left|by rewrite Ho].
    + intros Hc. destruct (IH _ Hc) as [[? ?]|[l' Hp]]; [left; split; [by right|done]|]. unfold prefer in Hp.
      destruct chosen as [[old chosenLease]|]; [case_match|]; simplify_eq; try (left; split; [left|by rewrite Ho]).
      right. by eexists.
Qed.

(** A record bound to the job is never passed over. *)
Lemma choose_owner_bound jobID runner chosen l :
  (∃ x, x ∈ l ∧ owns cfg jobID runner x = Owner) →
  ∃ status, choose_owner cfg jobID runner chosen l = Some status ∧ status ∈ l ∧ owns cfg jobID runner status = Owner.
Proof.
  revert chosen. induction l as [|y l IH]; intros chosen (x & Hx & Ho); [by apply elem_of_nil in Hx|].
  cbn [choose_owner]. destruct (owns cfg jobID runner y) as [| |lease] eqn:Hy.
  2: { exists y. split_and!; [done|left|done]. }
  all: apply elem_of_cons in Hx as [->|Hx]; [congruence|];
    edestruct IH as (st & -> & ? & ?); [by exists x|]; exists st; split_and!; [done|by right|done].
Qed.

Lemma owns_lease jobID runner status lease : owns cfg jobID runner status = MayOwn lease → lease_of runner status = Some lease.
Proof. unfold owns. repeat (case_match; try done). by intros [= ->]. Qed.

Lemma lease_owns jobID runner status lease : has_identity runner = true → proven jobID runner status →
  executionJob status ≠ jobID → lease_of runner status = Some lease → owns cfg jobID runner status = MayOwn lease.
Proof.
  intros Hid Hp Hb Hl. pose proof (proven_owns _ _ _ Hid Hp) as Hn. destruct (owns_proven _ _ _ Hid Hn) as [_ Hiff].
  destruct (owns cfg jobID runner status) as [| |lease'] eqn:Ho; [done|tauto|]. apply owns_lease in Ho. congruence.
Qed.

(** Without a bound record, the newest lease wins. *)
Lemma choose_owner_newest jobID runner chosen l status :
  (∀ x, x ∈ l → owns cfg jobID runner x ≠ Owner) → choose_owner cfg jobID runner chosen l = Some status →
  ∃ lease, ((status ∈ l ∧ owns cfg jobID runner status = MayOwn lease) ∨ chosen = Some (status, lease)) ∧
    (∀ x lx, x ∈ l → owns cfg jobID runner x = MayOwn lx → lx ≤ lease) ∧
    (∀ old lo, chosen = Some (old, lo) → lo ≤ lease).
Proof.
  revert chosen. induction l as [|x l IH]; intros chosen Hno; cbn [choose_owner].
  - destruct chosen as [[old lo]|]; [|done]. intros [= ->]. exists lo. split_and!; [by right|by intros ?? ?%elem_of_nil|].
    by intros ?? [= _ ->].
  - assert (Hno' : ∀ y, y ∈ l → owns cfg jobID runner y ≠ Owner) by (intros y Hy; apply Hno; by right).
    destruct (owns cfg jobID runner x) as [| |lx] eqn:Ho; [|by destruct (Hno x); [left|]|].
    + intros (lease & Hc & Hl & Hold)%IH; [|done]. exists lease. split_and!; [|  |done].
      * destruct Hc as [[? ?]|?]; [left; split; [by right|done]|by right].
      * intros y ly [->|Hy]%elem_of_cons; [congruence|by apply Hl].
    + intros (lease & Hc & Hl & Hold)%IH; [|done]. exists lease.
      assert (Hpref : lx ≤ lease ∧ ∀ old lo, chosen = Some (old, lo) → lo ≤ lease).
      { unfold prefer in Hold. destruct chosen as [[old lo]|]; [|split; [by eapply Hold|done]].
        case_match eqn:Hp; unfold After in Hp.
        - specialize (Hold _ _ eq_refl). split; [done|]. intros ?? [= _ <-]. reflect_bools. lia.
        - specialize (Hold _ _ eq_refl). apply orb_false_iff in Hp as [Hlt%Z.ltb_ge _]. split; [lia|]. by intros ?? [= _ <-]. }
      destruct Hpref as [Hlx Hch]. split_and!; [|intros y ly [->|Hy]%elem_of_cons; [intros; congruence|by apply Hl]|done].
      destruct Hc as [[? ?]|Hc]; [left; split; [by right|done]|]. unfold prefer in Hc.
      destruct chosen as [[old lo]|]; [case_match|]; simplify_eq; first [by right|left; split; [by left|done]].
Qed.

Lemma choose_owner_none jobID runner chosen l : choose_owner cfg jobID runner chosen l = None →
  chosen = None ∧ ∀ x, x ∈ l → owns cfg jobID runner x = NotOwner.
Proof.
  revert chosen. induction l as [|y l IH]; intros chosen; cbn [choose_owner].
  - destruct chosen; [done|]. split; [done|by intros ? ?%elem_of_nil].
  - destruct (owns cfg jobID runner y) as [| |lease] eqn:Hy; [|done|].
    + intros [-> Hl]%IH. split; [done|]. intros x [->|Hx]%elem_of_cons; [done|by apply Hl].
    + intros [Hp _]%IH. unfold prefer in Hp. destruct chosen as [[? ?]|]; [by case_match|done].
Qed.

Lemma executionAllocation_listed s jobID runner status : executionAllocation cfg s jobID runner = Some status →
  status ∈ store_List (sv_store s) ∧ owns cfg jobID runner status ≠ NotOwner.
Proof. intros Hc%choose_owner_in. destruct Hc as [?|[? ?]]; [done|done]. Qed.

Lemma findByWorkflowJobID_listed s jobID status : findByWorkflowJobID s jobID = Some status →
  status ∈ store_List (sv_store s) ∧ job_of status = Some jobID.
Proof.
  unfold findByWorkflowJobID. case_match; [done|].
  assert (Hfold : ∀ l found, foldl (better_match jobID) found l = Some status →
    (status ∈ l ∧ job_of status = Some jobID) ∨ found = Some status); [|by intros [?|?]%Hfold].
  induction l as [|x l IH]; intros found; cbn [foldl]; [by right|].
  intros [[? ?]|Hb]%IH; [left; split; [by right|done]|]. revert Hb. unfold better_match.
  case_bool_decide as Hj; cbn [negb]; [|by right].
  destruct found; [case_match|]; intros [= ->]; first [by right|left; split; [left|done]].
Qed.
End Ownership.

(** ** The ledger *)

Section Bookkeeping.
Context `{GoRange} `{QualityRanker} {S : Type} `{!AllocationStore S, !AdmissionStateStore S, !ReliableStore S}.
Context (cfg : BrokerConfig) (has_cleanup : BackendName → bool) (ids : nat → string).
Implicit Types (s : Service S) (now : Time) (status old : AllocationStatus) (runner : WorkflowJobRunner).

Local Notation safe := (safe cfg ids).

(** The same record as far as slots go: only queued demand may be canceled. *)
Definition same_slot old status : Prop :=
  as_ID status = as_ID old ∧ as_Pool status = as_Pool old ∧ as_SelectedBackend status = as_SelectedBackend old ∧
  (as_State status = as_State old ∨ as_State old = StatePending ∧ as_State status = StateCanceled).

#[local] Instance same_slot_preorder : PreOrder same_slot.
Proof.
  split; [intros x; split_and!; auto|]. intros x y z (? & ? & ? & Hxy) (? & ? & ? & Hyz). split_and!; try congruence.
  destruct Hxy as [Hxy|[Hx Hy]], Hyz as [Hyz|[Hy' Hz]]; [left; congruence|right; split; congruence|right; split; congruence|congruence].
Qed.

(** Records were rewritten, no slot and no runner was touched. *)
Record bookkeeping s s' : Prop := {
  bk_scheds : sv_scheds s' = sv_scheds s;
  bk_cleanups : sv_cleanups s' = sv_cleanups s;
  bk_records : ∀ id, option_Forall2 same_slot (records s !! id) (records s' !! id);
}.

#[local] Instance bookkeeping_preorder : PreOrder bookkeeping.
Proof.
  split.
  - intros s. split; [done|done|]. intros id. destruct (records s !! id); constructor. reflexivity.
  - intros s1 s2 s3 [? ? H1] [? ? H2]. split; [congruence|congruence|]. intros id. specialize (H1 id). specialize (H2 id).
    destruct H1 as [x y Hxy|]; inversion H2; subst; constructor. by etrans.
Qed.

Definition filed s : Prop := ∀ id status, records s !! id = Some status → as_ID status = id.

Lemma Inv_filed out s : Inv cfg ids out s → filed s.
Proof. intros Hi id status. apply (led_ids _ _ _ _ _ Hi). Qed.

Lemma bookkeeping_filed s s' : bookkeeping s s' → filed s → filed s'.
Proof.
  intros [_ _ Hr] Hf id status Hs. specialize (Hr id). rewrite Hs in Hr. inversion Hr as [old x [Hid _] Ho|]; subst.
  rewrite Hid. by apply Hf.
Qed.

Lemma filed_listed s status : filed s → status ∈ store_List (sv_store s) → records s !! as_ID status = Some status.
Proof.
  intros Hf. rewrite (list_law (sv_store s)). intros ([id st] & -> & Hin%elem_of_map_to_list)%list_elem_of_fmap. cbn.
  fold (records s) in Hin. by rewrite (Hf _ _ Hin).
Qed.

Lemma stored_bookkeeping s s' id old status : records s !! id = Some old → same_slot old status →
  stored s s' id status → sv_cleanups s' = sv_cleanups s → bookkeeping s s'.
Proof.
  intros Ho Hsame (Hr & Hs & _) Hc. split; [done|done|]. intros i. rewrite Hr. destruct (decide (id = i)) as [<-|Hne].
  - rewrite Ho, lookup_insert_eq. by constructor.
  - rewrite lookup_insert_ne by done. destruct (records s !! i); constructor. reflexivity.
Qed.

Lemma frame_bookkeeping s s' : frame s s' → sv_cleanups s' = sv_cleanups s → bookkeeping s s'.
Proof. intros (Hr & Hs & _) Hc. split; [done|done|]. intros id. rewrite Hr. destruct (records s !! id); constructor. reflexivity. Qed.

Lemma stored_safe s s' id old status : records s !! id = Some old → as_ID old = id → same_slot old status →
  stored s s' id status → safe s s'.
Proof.
  intros Ho Hid (Hi' & Hp & Hb & Hst) Hs out Hout Hi.
  eapply (keep_safe cfg ids s s' id status); [by eapply known_stored|congruence| | |exact Hs|done|done].
  - rewrite (lane_at_Some _ _ _ Ho). unfold lane_of. rewrite Hp, Hb. destruct Hst as [->|[-> ->]]; done.
  - intros old' Ho' Ha. left. destruct Hst as [Hst|[Hst _]]; [congruence|]. assert (old' = old) as -> by congruence.
    by rewrite Hst in Ha.
Qed.

(** Saving a record that is stored, with its slot unchanged. *)
Lemma resave s status old : records s !! as_ID status = Some old → same_slot old status → as_State status = as_State old →
  let r := store_SaveIfState (sv_store s) status (as_State status) in
  r.1 = Ok true ∧ stored s { s with sv_store := r.2 } (as_ID status) status.
Proof.
  intros Ho _ Hst. cbn zeta. destruct (reliable_save_if_state (sv_store s) status (as_State status)) as [Hr Hc].
  revert Hr Hc. store_op Memory.SaveIfState. change (contents (sv_store s)) with (records s). rewrite Ho.
  unfold state_eqb. rewrite bool_decide_true by done. cbn. intros Hr Hc. by split_and!.
Qed.

(** What a step of bookkeeping gives. *)
Definition kept_books s s' : Prop := safe s s' ∧ bookkeeping s s'.

#[local] Instance kept_books_preorder : PreOrder kept_books.
Proof. split; [intros s; split; reflexivity|]. intros s1 s2 s3 [? ?] [? ?]. split; by etrans. Qed.

Lemma save_current_books s status old : filed s → records s !! as_ID status = Some old → same_slot old status →
  as_State status = as_State old → (save_current s status).1 = None ∧ kept_books s (save_current s status).2 ∧
  records (save_current s status).2 !! as_ID status = Some status.
Proof.
  intros Hf Ho Hs Hst. unfold save_current. destruct (resave s status old Ho Hs Hst) as [Hr Hstored].
  destruct (store_SaveIfState _ _ _) as [saved st]. cbn in Hr, Hstored. subst saved. split; [done|]. split; [split|].
  - eapply stored_safe; [exact Ho|by apply Hf|done|done].
  - by eapply stored_bookkeeping.
  - destruct Hstored as (Hrec & _). cbn [snd]. rewrite Hrec. apply lookup_insert_eq.
Qed.

Lemma set_metadata_slot status key value : same_slot status (set_metadata status key value).
Proof. split_and!; auto. Qed.

Lemma bind_books s status jobID : filed s → records s !! as_ID status = Some status →
  let r := bindWorkflowExecution s status jobID in
  r.1.2 = None ∧ kept_books s r.2 ∧ same_slot status r.1.1 ∧ as_State r.1.1 = as_State status ∧
  records r.2 !! as_ID status = Some r.1.1.
Proof.
  intros Hf Ho. unfold bindWorkflowExecution. case_match; [split_and!; [done|reflexivity|reflexivity|done|done]|].
  set (bound := set_metadata status executionJobKey (FormatInt jobID)).
  destruct (save_current_books s bound status Hf Ho (set_metadata_slot _ _ _) eq_refl) as (He & Hk & Hr).
  destruct (save_current s bound) as [err s']. cbn in *. split_and!; [done|done|apply set_metadata_slot|done|done].
Qed.

Lemma record_books s jobID repository conclusion : filed s →
  (recordDemandConclusion cfg s jobID repository conclusion).1 = None ∧
  kept_books s (recordDemandConclusion cfg s jobID repository conclusion).2.
Proof.
  intros Hf. unfold recordDemandConclusion. destruct (findByWorkflowJobID s jobID) as [origin|] eqn:Ho; [|by split].
  apply findByWorkflowJobID_listed in Ho as [Hin _]. pose proof (filed_listed s origin Hf Hin) as Hrec. case_match; [by split|].
  set (noted := set_metadata origin deferredConclusionKey conclusion).
  destruct (resave s noted origin Hrec (set_metadata_slot _ _ _) eq_refl) as [Hr Hs]. cbn in Hr, Hs.
  change (as_State noted) with (as_State origin) in *. destruct (store_SaveIfState _ _ _) as [saved st]. cbn in Hr, Hs.
  subst saved. split; [done|]. split; [eapply stored_safe|eapply stored_bookkeeping]; try exact Hrec; try exact Hs;
    try apply set_metadata_slot; done.
Qed.

Lemma cancelPending_books s status now : filed s → kept_books s (cancelPendingWorkflowDemand s status now).2.
Proof.
  intros Hf. unfold cancelPendingWorkflowDemand.
  pose proof (cas_spec s (as_ID status) StatePending StateCanceled now "workflow demand no longer pending") as Hc. cbn zeta in Hc.
  destruct (store_CompareAndMarkState _ _ _ _ _ _) as [updated st]. cbn [fst snd] in Hc.
  assert (Hsame : contents st = records s → kept_books s { s with sv_store := st }).
  { intros He. assert (frame s { s with sv_store := st }) by done. split; [by apply frame_safe|by apply frame_bookkeeping]. }
  destruct (records s !! as_ID status) as [old|] eqn:Ho.
  2: { destruct Hc as [-> He]. by apply Hsame. }
  unfold state_eqb in Hc. case_bool_decide as Hp; destruct Hc as [-> He]; [|by apply Hsame].
  set (canceled := applyMarkState old StateCanceled now "workflow demand no longer pending") in *. cbn [snd].
  set (s1 := { s with sv_store := st }). assert (Hs1 : stored s s1 (as_ID status) canceled) by done.
  assert (Hslot : same_slot old canceled).
  { destruct (applyMarkState_lane old StateCanceled now "workflow demand no longer pending") as (Hst & Hpool & Hb).
    split_and!; [apply applyMarkState_ID|done|done|right; split; done]. }
  assert (Hframe : frame s1 (notifyLifecycleTerminal s1 canceled)) by apply notifyLifecycleTerminal_frame.
  assert (sv_cleanups (notifyLifecycleTerminal s1 canceled) = sv_cleanups s1).
  { unfold notifyLifecycleTerminal, notifyLifecycle. by repeat case_match. }
  etrans; [|split; [by apply frame_safe|by apply frame_bookkeeping]].
  split; [eapply stored_safe|eapply stored_bookkeeping]; try exact Ho; try exact Hs1; try done. by apply Hf.
Qed.

Lemma suppress_books s jobID repository actual now : filed s →
  kept_books s (suppressSurplusDemand cfg s jobID repository actual now).
Proof.
  intros Hf. unfold suppressSurplusDemand. destruct (job_of actual); [|done]. case_match; [done|].
  destruct (findByWorkflowJobID s jobID); [|done]. case_match; [|done]. by apply cancelPending_books.
Qed.

(** *** Finishing *)

(** The record may be canceled and completed: it is not warm, and not queued on a
    backend whose slot it does not hold. *)
Definition finish_ok s (id : string) : bool := cancel_ok cfg s id && complete_ok s id.

Lemma finish_ok_books s s' id : bookkeeping s s' → finish_ok s id = true → finish_ok s' id = true.
Proof.
  intros [Hs _ Hr]. specialize (Hr id). unfold finish_ok, cancel_ok, complete_ok. rewrite !get_records.
  destruct Hr as [old status (_ & Hp & Hb & Hst)|]; [|done]. rewrite Hp, Hb. unfold backendActiveCount. rewrite Hs.
  destruct Hst as [->|[-> ->]]; [done|]. done.
Qed.

Lemma finish_safe rounds s status conclusion now r s' : finish_ok s (as_ID status) = true →
  finishWorkflowExecution cfg has_cleanup (Datatypes.S rounds) s status conclusion now = Some (r, s') → safe s s'.
Proof.
  unfold finish_ok. intros [Hc Hd]%andb_true_iff. unfold finishWorkflowExecution. case_match.
  - destruct (Cancel_safe cfg has_cleanup ids rounds s (as_ID status) now Hc) as (u & t & -> & Hs).
    destruct u; intros; by simplify_eq.
  - pose proof (Complete_safe cfg has_cleanup ids s (as_ID status) job_completed now Hd) as Hs.
    destruct (Complete _ _ _ _ _ _) as [[updated err] t]. repeat case_match; intros; by simplify_eq.
Qed.

(** *** Finalizing and claiming *)

Definition is_owner (o : ownership) : bool := match o with NotOwner => false | _ => true end.

(** The records an event about a job may act on. *)
Definition involved (jobID : Z) runner status : bool :=
  is_owner (owns cfg jobID runner status) || bool_decide (job_of status = Some jobID).

Definition job_ok s (jobID : Z) runner : bool :=
  forallb (fun status => negb (involved jobID runner status) || finish_ok s (as_ID status)) (store_List (sv_store s)).

Lemma job_ok_record s jobID runner id status : filed s → job_ok s jobID runner = true →
  records s !! id = Some status → involved jobID runner status = true → finish_ok s id = true.
Proof.
  intros Hf Hok Ho Hi. unfold job_ok in Hok. rewrite forallb_forall in Hok. specialize (Hok status). rewrite Hi in Hok.
  rewrite (Hf _ _ Ho) in Hok. apply Hok. apply list_elem_of_In. rewrite (list_law (sv_store s)). apply list_elem_of_fmap.
  exists (id, status). split; [done|]. by apply elem_of_map_to_list.
Qed.

Lemma owns_noted jobID runner status conclusion :
  owns cfg jobID runner (set_metadata status deferredConclusionKey conclusion) = owns cfg jobID runner status.
Proof.
  unfold owns, lease_of, executionJob, allocationServesRepository, set_metadata, tset, set. cbn.
  by rewrite !map_read_insert_ne by done.
Qed.

Lemma involved_noted jobID runner status conclusion :
  involved jobID runner (set_metadata status deferredConclusionKey conclusion) = involved jobID runner status.
Proof. unfold involved. by rewrite owns_noted. Qed.

(** Noting a conclusion changes one metadata entry of one record. *)
Lemma record_noted s jobID repository conclusion id status' : filed s →
  records (recordDemandConclusion cfg s jobID repository conclusion).2 !! id = Some status' →
  ∃ status, records s !! id = Some status ∧
    (status' = status ∨ status' = set_metadata status deferredConclusionKey conclusion).
Proof.
  intros Hf. unfold recordDemandConclusion. destruct (findByWorkflowJobID s jobID) as [origin|] eqn:Ho; [|eauto].
  apply findByWorkflowJobID_listed in Ho as [Hin _]. pose proof (filed_listed s origin Hf Hin) as Hrec. case_match; [eauto|].
  set (noted := set_metadata origin deferredConclusionKey conclusion).
  destruct (resave s noted origin Hrec (set_metadata_slot _ _ _) eq_refl) as [_ (Hr & _)].
  change (as_State noted) with (as_State origin) in *. destruct (store_SaveIfState _ _ _) as [saved st].
  cbn [fst snd] in *. rewrite Hr, lookup_insert_Some. change (as_ID noted) with (as_ID origin).
  intros [[<- <-]|[_ Hs]]; eauto.
Qed.

Lemma record_involved s jobID runner conclusion id status' : filed s →
  records (recordDemandConclusion cfg s jobID (wr_Repository runner) conclusion).2 !! id = Some status' →
  ∃ status, records s !! id = Some status ∧ involved jobID runner status' = involved jobID runner status.
Proof.
  intros Hf (status & Ho & Hs)%record_noted; [|done]. exists status. split; [done|].
  destruct Hs as [->| ->]; [done|apply involved_noted].
Qed.

Lemma executionAllocation_involved s jobID runner status : executionAllocation cfg s jobID runner = Some status →
  involved jobID runner status = true.
Proof.
  intros [_ Ho]%executionAllocation_listed. unfold involved, is_owner. by destruct (owns _ _ _ _).
Qed.

Lemma found_involved s jobID runner status : findByWorkflowJobID s jobID = Some status → involved jobID runner status = true.
Proof. intros [_ Hj]%findByWorkflowJobID_listed. unfold involved. rewrite bool_decide_true by done. apply orb_true_r. Qed.

Lemma finalize_demand_safe rounds s jobID runner conclusion now r s' : filed s →
  (∀ status, findByWorkflowJobID s jobID = Some status → finish_ok s (as_ID status) = true) →
  finalize_demand cfg has_cleanup (Datatypes.S rounds) s jobID runner conclusion now = Some (r, s') → safe s s'.
Proof.
  intros Hf Hok. unfold finalize_demand. destruct (findByWorkflowJobID s jobID) as [status|]; [|intros; by simplify_eq].
  specialize (Hok status eq_refl). repeat (case_match; [intros; by simplify_eq|]).
  case_match; [by apply finish_safe|]. case_match; [|intros; by simplify_eq].
  pose proof (cancelPending_books s status now Hf) as [Hs _]. destruct (cancelPendingWorkflowDemand _ _ _) as [updated t].
  repeat case_match; intros; by simplify_eq.
Qed.

Lemma bound_finish_safe rounds s jobID runner status conclusion now r s' : filed s →
  records s !! as_ID status = Some status → finish_ok s (as_ID status) = true →
  match bindWorkflowExecution s status jobID with
  | (status, Some err, s) => Some (status, true, Some err, s)
  | (status, None, s) =>
      finishWorkflowExecution cfg has_cleanup (Datatypes.S rounds)
        (suppressSurplusDemand cfg s jobID (wr_Repository runner) status now) status conclusion now
  end = Some (r, s') → safe s s'.
Proof.
  intros Hf Ho Hok. destruct (bind_books s status jobID Hf Ho) as (He & [Hsafe Hb] & (Hid & _) & _).
  destruct (bindWorkflowExecution s status jobID) as [[bound err] s1]. cbn in *. subst err.
  destruct (suppress_books s1 jobID (wr_Repository runner) bound now) as [Hsafe2 Hb2]; [by eapply bookkeeping_filed|].
  intros Hfin%finish_safe; [etrans; [exact Hsafe|]; by etrans|]. rewrite Hid. eapply finish_ok_books; [exact Hb2|].
  by eapply finish_ok_books.
Qed.

Lemma FinalizeWorkflowJob_safe rounds s jobID conclusion runner now r s' : job_ok s jobID runner = true →
  FinalizeWorkflowJob cfg has_cleanup (Datatypes.S rounds) s jobID conclusion runner now = Some (r, s') → safe s s'.
Proof.
  intros Hok Hfin out Hout Hi. pose proof (Inv_filed _ _ Hi) as Hf.
  apply (λ h : safe s s', h out Hout Hi). clear Hout Hi out. revert Hfin. unfold FinalizeWorkflowJob.
  destruct (record_books s jobID (wr_Repository runner) conclusion Hf) as (He & Hsafe & Hb).
  pose proof (record_involved s jobID runner conclusion) as Hinv.
  destruct (recordDemandConclusion _ _ _ _ _) as [err s1]. cbn in *. subst err.
  pose proof (bookkeeping_filed _ _ Hb Hf) as Hf1.
  assert (Hok1 : ∀ status, status ∈ store_List (sv_store s1) → involved jobID runner status = true →
    records s1 !! as_ID status = Some status ∧ finish_ok s1 (as_ID status) = true).
  { intros status Hin Hs. pose proof (filed_listed _ _ Hf1 Hin) as Ho. split; [done|].
    destruct (Hinv _ _ Hf Ho) as (old & Hold & Heq). eapply finish_ok_books; [exact Hb|].
    eapply job_ok_record; [done|done|exact Hold|congruence]. }
  destruct (executionAllocation cfg s1 jobID runner) as [status|] eqn:Hx.
  - pose proof (executionAllocation_involved _ _ _ _ Hx) as Hs. apply executionAllocation_listed in Hx as [Hin _].
    destruct (Hok1 _ Hin Hs) as [Ho Hfo]. case_match; [intros; by simplify_eq|].
    intros Hr. etrans; [exact Hsafe|]. by eapply bound_finish_safe.
  - case_match; [intros; by simplify_eq|]. intros Hr. etrans; [exact Hsafe|].
    eapply finalize_demand_safe; [done| |exact Hr]. intros status Hfound.
    pose proof (found_involved _ _ runner _ Hfound). apply findByWorkflowJobID_listed in Hfound as [Hin _]. by apply Hok1.
Qed.

Lemma set_runner_times_slot status claimed registered :
  same_slot status { status with as_ClaimedAt := claimed; as_RegisteredAt := registered }.
Proof. split_and!; auto. Qed.

Lemma claim_owner_safe rounds s status jobID runner now r s' : filed s →
  records s !! as_ID status = Some status → finish_ok s (as_ID status) = true →
  claim_owner cfg has_cleanup (Datatypes.S rounds) s status jobID runner now = Some (r, s') → safe s s'.
Proof.
  intros Hf Ho Hok. unfold claim_owner. case_match; [intros; by simplify_eq|].
  destruct (bind_books s status jobID Hf Ho) as (He & Hk1 & Hs1 & Hst1 & Ho1).
  destruct (bindWorkflowExecution s status jobID) as [[bound err] s1]. cbn in *. subst err.
  pose proof (bookkeeping_filed _ _ (proj2 Hk1) Hf) as Hf1. pose proof Hs1 as [Hid1 _]. rewrite <- Hid1 in Ho1.
  set (claimed := { bound with as_ClaimedAt := set_time (as_ClaimedAt bound) now;
                               as_RegisteredAt := set_time (as_RegisteredAt bound) now }).
  destruct (save_current_books s1 claimed bound Hf1 Ho1 (set_runner_times_slot _ _ _) eq_refl) as (He2 & Hk2 & Ho2).
  destruct (save_current s1 claimed) as [err s2]. cbn in He2, Hk2, Ho2. subst err.
  set (s3 := { s2 with sv_penalties := _ }). assert (Hk3 : kept_books s2 s3).
  { assert (frame s2 s3) by done. split; [by apply frame_safe|by apply frame_bookkeeping]. }
  assert (Hf3 : filed s3) by (eapply bookkeeping_filed; [apply (proj2 Hk3)|by eapply bookkeeping_filed; [apply (proj2 Hk2)|]]).
  pose proof (suppress_books s3 jobID (wr_Repository runner) claimed now Hf3) as Hk4.
  set (s4 := suppressSurplusDemand _ _ _ _ _ _) in *.
  assert (Hk : kept_books s s4) by (etrans; [exact Hk1|]; etrans; [exact Hk2|]; by etrans). destruct Hk as [Hsafe Hb].
  assert (Hok4 : finish_ok s4 (as_ID claimed) = true).
  { change (as_ID claimed) with (as_ID bound). rewrite Hid1. by eapply finish_ok_books. }
  repeat (case_match; try (intros; by simplify_eq)). intros Hr. etrans; [exact Hsafe|]. by eapply finish_safe.
Qed.

Lemma served_books s jobID runner now : filed s → kept_books s (served_demand cfg s jobID runner now).2.
Proof.
  intros Hf. unfold served_demand. case_match; [|done]. destruct (findByWorkflowJobID s jobID); [|done].
  case_match; [by apply cancelPending_books|done].
Qed.

(** Demand that was not pending after all is left as it was. *)
Lemma cancelPending_lost s status now s' : cancelPendingWorkflowDemand s status now = (None, s') → frame s s'.
Proof.
  unfold cancelPendingWorkflowDemand.
  pose proof (cas_spec s (as_ID status) StatePending StateCanceled now "workflow demand no longer pending") as Hc. cbn zeta in Hc.
  destruct (store_CompareAndMarkState _ _ _ _ _ _) as [updated st]. cbn [fst snd] in Hc.
  destruct updated; [done|]. intros [= <-]. split_and!; [|done|done]. unfold records at 1. cbn.
  repeat case_match; by destruct Hc.
Qed.

Lemma served_lost s jobID runner now s' : served_demand cfg s jobID runner now = (None, s') → frame s s'.
Proof.
  unfold served_demand. case_match; [|by intros [= <-]]. destruct (findByWorkflowJobID s jobID); [|by intros [= <-]].
  case_match; [by apply cancelPending_lost|by intros [= <-]].
Qed.

Lemma ClaimWorkflowJob_safe rounds s jobID runner now r s' : job_ok s jobID runner = true →
  ClaimWorkflowJob cfg has_cleanup (Datatypes.S rounds) s jobID runner now = Some (r, s') → safe s s'.
Proof.
  intros Hok Hclaim out Hout Hi. pose proof (Inv_filed _ _ Hi) as Hf.
  apply (λ h : safe s s', h out Hout Hi). clear Hout Hi out. revert Hclaim. unfold ClaimWorkflowJob.
  destruct (executionAllocation cfg s jobID runner) as [status|] eqn:Hx.
  - pose proof (executionAllocation_involved _ _ _ _ Hx) as Hs. apply executionAllocation_listed in Hx as [Hin _].
    pose proof (filed_listed _ _ Hf Hin) as Ho. apply claim_owner_safe; [done|done|]. by eapply job_ok_record.
  - pose proof (served_books s jobID runner now Hf) as [Hsafe Hb].
    destruct (served_demand cfg s jobID runner now) as [updated s1] eqn:Hserved. cbn in Hsafe, Hb.
    destruct updated as [updated|]; [intros; by simplify_eq|]. apply served_lost in Hserved as (Hr & _).
    pose proof (bookkeeping_filed _ _ Hb Hf) as Hf1.
    destruct (findByWorkflowJobID s1 jobID) as [origin|] eqn:Ho; [|intros; by simplify_eq].
    pose proof (found_involved _ _ runner _ Ho) as Hs. apply findByWorkflowJobID_listed in Ho as [Hin _].
    pose proof (filed_listed _ _ Hf1 Hin) as Hrec. case_match; [|intros; by simplify_eq].
    intros Hc. etrans; [exact Hsafe|]. eapply claim_owner_safe; [exact Hf1|exact Hrec| |exact Hc].
    eapply finish_ok_books; [exact Hb|]. rewrite Hr in Hrec. by eapply job_ok_record.
Qed.

(** ** Whose runner is deleted *)

(** The calls of Cleanup that an operation adds. *)
Definition cleans (id : string) s s' : Prop :=
  sv_cleanups s' = sv_cleanups s ∨ ∃ allocation, sv_cleanups s' = sv_cleanups s ++ [allocation] ∧ as_ID allocation = id.

Lemma cleanups_notify s status : sv_cleanups (notifyLifecycleTerminal s status) = sv_cleanups s.
Proof. unfold notifyLifecycleTerminal, notifyLifecycle. by repeat case_match. Qed.

Lemma release_cleans s pool b allocation now :
  cleans (as_ID allocation) s (release has_cleanup s pool b allocation now).
Proof.
  unfold release, cleanupAllocation, cleans. assert (sv_cleanups (release_slot s pool b allocation now) = sv_cleanups s) as Heq.
  { unfold release_slot. by case_match. }
  case_match; cbn; rewrite Heq; [right; by eexists|by left].
Qed.

Lemma Cancel_cleans rounds s id now r s' : filed s → Cancel cfg has_cleanup rounds s id now = Some (r, s') → cleans id s s'.
Proof.
  revert s. induction rounds as [|rounds IH]; intros s Hf; [done|]. cbn [Cancel].
  destruct (store_Get (sv_store s) id) as [status|]; [|intros [= _ <-]; by left]. case_match; [intros [= _ <-]; by left|].
  pose proof (cas_spec s id (as_State status) StateCanceled now "") as Hc. cbn zeta in Hc.
  destruct (store_CompareAndMarkState _ _ _ _ _ _) as [updated st]. cbn [fst snd] in Hc. destruct updated as [updated|].
  - intros [= _ <-]. assert (Hid : as_ID updated = id).
    { destruct (records s !! id) as [old|] eqn:Ho; [|by destruct Hc]. case_match; destruct Hc as [Hc _]; [|done].
      injection Hc as ->. rewrite applyMarkState_ID. by apply Hf. }
    assert (Hn : ∀ t, cleans id (notifyLifecycleTerminal { s with sv_store := st } updated) t → cleans id s t).
    { unfold cleans. by rewrite cleanups_notify. }
    apply Hn. destruct (resolvePool cfg (as_Pool updated)); [|by left]. rewrite <- Hid. apply release_cleans.
  - intros Hrest. apply IH in Hrest; [exact Hrest|]. intros i x Hx. apply Hf. revert Hx. unfold records at 1. cbn.
    repeat case_match; destruct Hc as [? ->]; done.
Qed.

Lemma markState_cleanups s id state now message : sv_cleanups (markState s id state now message).2 = sv_cleanups s.
Proof.
  unfold markState. destruct (store_MarkState _ _ _ _ _) as [[u|] st]; [|done]. cbn [snd]. by rewrite cleanups_notify.
Qed.

Lemma failure_cleanups s pool b reason now : sv_cleanups (recordBackendFailureClass s pool b reason now) = sv_cleanups s.
Proof. unfold recordBackendFailureClass. by repeat case_match. Qed.

Lemma Complete_cleans s id request now : filed s → cleans id s (Complete cfg has_cleanup s id request now).2.
Proof.
  intros Hf. unfold Complete. rewrite get_records. destruct (records s !! id) as [st|] eqn:Ho; [|by left].
  destruct (parseCompletionState request) as [[target message]|]; [|by left].
  destruct (isTerminalAllocationState (as_State st)); [case_match; by left|]. case_match; [by left|].
  set (message' := if String.eqb _ _ then _ else _). pose proof (markState_cleanups s id target now message') as Hm.
  destruct (markState s id target now message') as [[u|] s1]; cbn [snd] in *; [|by left].
  destruct (isActiveAllocationState (as_State st)); [|by left]. destruct (resolvePool cfg (as_Pool st)) as [pool|]; [|by left].
  pose proof (release_cleans s1 pool (as_SelectedBackend st) st now) as Hr. rewrite (Hf _ _ Ho) in Hr. unfold cleans in *.
  rewrite Hm in Hr. case_match; [by rewrite failure_cleanups|done].
Qed.

Lemma finish_cleans rounds s status conclusion now r s' : filed s →
  finishWorkflowExecution cfg has_cleanup rounds s status conclusion now = Some (r, s') → cleans (as_ID status) s s'.
Proof.
  intros Hf. unfold finishWorkflowExecution. case_match.
  - destruct (Cancel _ _ _ _ _ _) as [[u t]|] eqn:Hc; [|done]. apply Cancel_cleans in Hc; [|done].
    destruct u; intros; by simplify_eq.
  - pose proof (Complete_cleans s (as_ID status) job_completed now Hf) as Hc.
    destruct (Complete _ _ _ _ _ _) as [[u err] t]. cbn in Hc. repeat case_match; intros; by simplify_eq.
Qed.

(** Bookkeeping first, then one record is finished. *)
Lemma books_then_finish s s1 rounds status conclusion now r s' : filed s → bookkeeping s s1 →
  finishWorkflowExecution cfg has_cleanup rounds s1 status conclusion now = Some (r, s') → cleans (as_ID status) s s'.
Proof.
  intros Hf Hb Hfin. apply finish_cleans in Hfin; [|by eapply bookkeeping_filed]. unfold cleans in *.
  by rewrite (bk_cleanups _ _ Hb) in Hfin.
Qed.

Lemma bound_finish_cleans rounds s jobID runner status conclusion now r s' : filed s → records s !! as_ID status = Some status →
  match bindWorkflowExecution s status jobID with
  | (status, Some err, s) => Some (status, true, Some err, s)
  | (status, None, s) =>
      finishWorkflowExecution cfg has_cleanup rounds
        (suppressSurplusDemand cfg s jobID (wr_Repository runner) status now) status conclusion now
  end = Some (r, s') → cleans (as_ID status) s s'.
Proof.
  intros Hf Ho. destruct (bind_books s status jobID Hf Ho) as (He & [_ Hb] & (Hid & _) & _).
  destruct (bindWorkflowExecution s status jobID) as [[bound err] s1]. cbn in *. subst err.
  destruct (suppress_books s1 jobID (wr_Repository runner) bound now) as [_ Hb2]; [by eapply bookkeeping_filed|].
  rewrite <- Hid. apply books_then_finish; [done|]. by etrans.
Qed.

Lemma claim_owner_cleans rounds s status jobID runner now r s' : filed s → records s !! as_ID status = Some status →
  claim_owner cfg has_cleanup rounds s status jobID runner now = Some (r, s') → cleans (as_ID status) s s'.
Proof.
  intros Hf Ho. unfold claim_owner. case_match; [intros; simplify_eq; by left|].
  destruct (bind_books s status jobID Hf Ho) as (He & Hk1 & Hs1 & Hst1 & Ho1).
  destruct (bindWorkflowExecution s status jobID) as [[bound err] s1]. cbn in *. subst err.
  pose proof (bookkeeping_filed _ _ (proj2 Hk1) Hf) as Hf1. destruct Hs1 as [Hid1 _]. rewrite <- Hid1 in Ho1.
  set (claimed := { bound with as_ClaimedAt := set_time (as_ClaimedAt bound) now;
                               as_RegisteredAt := set_time (as_RegisteredAt bound) now }).
  destruct (save_current_books s1 claimed bound Hf1 Ho1 (set_runner_times_slot _ _ _) eq_refl) as (He2 & Hk2 & _).
  destruct (save_current s1 claimed) as [err s2]. cbn in He2, Hk2. subst err.
  set (s3 := { s2 with sv_penalties := _ }). assert (Hb3 : bookkeeping s s3).
  { etrans; [apply (proj2 Hk1)|]. etrans; [apply (proj2 Hk2)|]. by apply frame_bookkeeping. }
  destruct (suppress_books s3 jobID (wr_Repository runner) claimed now) as [_ Hb4]; [by eapply bookkeeping_filed|].
  set (s4 := suppressSurplusDemand _ _ _ _ _ _) in *. assert (Hb : bookkeeping s s4) by by etrans.
  repeat (case_match; try (intros; simplify_eq; left; by rewrite (bk_cleanups _ _ Hb))).
  rewrite <- Hid1. change (as_ID bound) with (as_ID claimed). by apply books_then_finish.
Qed.

(** The evidence on which a record's runner may be deleted for a job: the runner
    GitHub named, or an earlier binding, or the label-only ARC adapter. *)
Definition entitled (jobID : Z) runner status : Prop :=
  (has_identity runner = true ∧ proven cfg jobID runner status) ∨
  (has_identity runner = false ∧ executionJob status = jobID) ∨
  (legacyARCWorkflowAllocation cfg status = true ∧ job_of status = Some jobID).

Lemma owner_entitled jobID runner status : owns cfg jobID runner status ≠ NotOwner → entitled jobID runner status.
Proof.
  intros Ho. destruct (has_identity runner) eqn:Hid; [left; split; [done|]; by eapply owns_proven|]. right; left.
  split; [done|]. revert Ho. unfold owns. rewrite Hid. cbn [negb]. case_match; [done|].
  by destruct (Z.eqb_spec (executionJob status) jobID).
Qed.

Lemma entitled_noted jobID runner status status' conclusion :
  status' = status ∨ status' = set_metadata status deferredConclusionKey conclusion →
  (owns cfg jobID runner status' ≠ NotOwner → owns cfg jobID runner status ≠ NotOwner) ∧
  legacyARCWorkflowAllocation cfg status' = legacyARCWorkflowAllocation cfg status ∧ job_of status' = job_of status.
Proof. intros [->| ->]; [done|]. by rewrite owns_noted. Qed.

(** What was deleted, and that it could be. *)
Definition deletes_entitled (jobID : Z) runner s s' : Prop :=
  ∃ deleted, sv_cleanups s' = sv_cleanups s ++ deleted ∧ (length deleted ≤ 1)%nat ∧
    ∀ allocation, allocation ∈ deleted →
      ∃ status, records s !! as_ID allocation = Some status ∧ entitled jobID runner status.

Lemma cleans_entitled jobID runner s s' id status : records s !! id = Some status → entitled jobID runner status →
  cleans id s s' → deletes_entitled jobID runner s s'.
Proof.
  intros Ho He [Hc|(a & Hc & Hid)].
  - exists []. rewrite app_nil_r. split_and!; [done|cbn; lia|by intros ? ?%elem_of_nil].
  - exists [a]. split_and!; [done|done|]. intros b ->%list_elem_of_singleton. rewrite Hid. by exists status.
Qed.

Lemma cleans_nothing jobID runner s s' : sv_cleanups s' = sv_cleanups s → deletes_entitled jobID runner s s'.
Proof. intros Hc. exists []. rewrite app_nil_r. split_and!; [done|cbn; lia|by intros ? ?%elem_of_nil]. Qed.

Lemma finalize_demand_cleans rounds s jobID runner conclusion now r s' : filed s →
  finalize_demand cfg has_cleanup rounds s jobID runner conclusion now = Some (r, s') →
  sv_cleanups s' = sv_cleanups s ∨ ∃ status, findByWorkflowJobID s jobID = Some status ∧
    legacyARCWorkflowAllocation cfg status = true ∧ cleans (as_ID status) s s'.
Proof.
  intros Hf. unfold finalize_demand. destruct (findByWorkflowJobID s jobID) as [status|]; [|intros; simplify_eq; by left].
  repeat (case_match; [intros; simplify_eq; by left|]).
  destruct (legacyARCWorkflowAllocation cfg status) eqn:Hl; [intros Hr; right; exists status; split_and!; [done|done|];
    by eapply finish_cleans|].
  case_match; [|intros; simplify_eq; by left].
  pose proof (cancelPending_books s status now Hf) as [_ Hb]. destruct (cancelPendingWorkflowDemand _ _ _) as [updated t].
  left. rewrite <- (bk_cleanups _ _ Hb). repeat case_match; by simplify_eq.
Qed.

Lemma FinalizeWorkflowJob_deletes rounds s jobID conclusion runner now r s' : filed s →
  FinalizeWorkflowJob cfg has_cleanup rounds s jobID conclusion runner now = Some (r, s') →
  deletes_entitled jobID runner s s'.
Proof.
  intros Hf. unfold FinalizeWorkflowJob.
  destruct (record_books s jobID (wr_Repository runner) conclusion Hf) as (He & _ & Hb).
  pose proof (record_noted s jobID (wr_Repository runner) conclusion) as Hnoted.
  destruct (recordDemandConclusion _ _ _ _ _) as [err s1]. cbn in *. subst err.
  pose proof (bookkeeping_filed _ _ Hb Hf) as Hf1. pose proof (bk_cleanups _ _ Hb) as Hcl.
  assert (Hback : ∀ status, status ∈ store_List (sv_store s1) → entitled jobID runner status → (
      owns cfg jobID runner status ≠ NotOwner ∨ legacyARCWorkflowAllocation cfg status = true ∧ job_of status = Some jobID) →
    records s1 !! as_ID status = Some status ∧ ∃ old, records s !! as_ID status = Some old ∧ entitled jobID runner old).
  { intros status Hin _ Hcase. pose proof (filed_listed _ _ Hf1 Hin) as Ho. split; [done|].
    destruct (Hnoted _ _ Hf Ho) as (old & Hold & Hs). exists old. split; [done|].
    destruct (entitled_noted jobID runner _ _ _ Hs) as (Hw & Hl & Hj).
    destruct Hcase as [Hcase|[? ?]]; [by apply owner_entitled, Hw|]. right; right. split; congruence. }
  destruct (executionAllocation cfg s1 jobID runner) as [status|] eqn:Hx.
  - apply executionAllocation_listed in Hx as [Hin Hown].
    destruct (Hback _ Hin (owner_entitled _ _ _ Hown) (or_introl Hown)) as (Ho & old & Hold & Hent).
    case_match; [intros; simplify_eq; by apply cleans_nothing|].
    intros Hr%bound_finish_cleans; [|done|done]. eapply cleans_entitled; [exact Hold|done|]. unfold cleans in *. by rewrite <- Hcl.
  - case_match; [intros; simplify_eq; by apply cleans_nothing|].
    intros [Hr|(status & Hfound & Hl & Hr)]%finalize_demand_cleans; [apply cleans_nothing; congruence| |done].
    apply findByWorkflowJobID_listed in Hfound as [Hin Hj].
    assert (entitled jobID runner status) as Hent0 by (right; right; by split).
    destruct (Hback _ Hin Hent0 (or_intror (conj Hl Hj))) as (_ & old & Hold & Hent).
    eapply cleans_entitled; [exact Hold|done|]. unfold cleans in *. by rewrite <- Hcl.
Qed.

Lemma ClaimWorkflowJob_deletes rounds s jobID runner now r s' : filed s →
  ClaimWorkflowJob cfg has_cleanup rounds s jobID runner now = Some (r, s') → deletes_entitled jobID runner s s'.
Proof.
  intros Hf. unfold ClaimWorkflowJob. destruct (executionAllocation cfg s jobID runner) as [status|] eqn:Hx.
  - apply executionAllocation_listed in Hx as [Hin Hown]. pose proof (filed_listed _ _ Hf Hin) as Ho.
    intros Hr%claim_owner_cleans; [|done|done]. eapply cleans_entitled; [exact Ho| |exact Hr]. by apply owner_entitled.
  - pose proof (served_books s jobID runner now Hf) as [_ Hb].
    destruct (served_demand cfg s jobID runner now) as [updated s1] eqn:Hserved. cbn in Hb.
    pose proof (bk_cleanups _ _ Hb) as Hcl.
    destruct updated as [updated|]; [intros; simplify_eq; by apply cleans_nothing|]. apply served_lost in Hserved as (Hr & _).
    destruct (findByWorkflowJobID s1 jobID) as [origin|] eqn:Ho; [|intros; simplify_eq; by apply cleans_nothing].
    apply findByWorkflowJobID_listed in Ho as [Hin Hj]. pose proof (bookkeeping_filed _ _ Hb Hf) as Hf1.
    pose proof (filed_listed _ _ Hf1 Hin) as Hrec. case_match eqn:Hl; [|intros; simplify_eq; by apply cleans_nothing].
    intros Hc%claim_owner_cleans; [|done|done]. apply andb_true_iff in Hl as [Hl _]. rewrite Hr in Hrec.
    eapply cleans_entitled; [exact Hrec|right; right; by split|]. unfold cleans in *. by rewrite <- Hcl.
Qed.
End Bookkeeping.

(** ** Allocating for a job *)

Section AllocateJob.
Context `{GoRange} `{QualityRanker} {S : Type} `{!AllocationStore S, !AdmissionStateStore S, !ReliableStore S}.
Context (cfg : BrokerConfig) (has_cleanup : BackendName → bool) (ids : nat → string).
Context (env : Environment S) (ctx : request_context).
Implicit Types (s : Service S) (now : Time).

(** The capacity report consults admission and the budgets; it touches no record and no slot. *)
Lemma matrix_admission_frame s pool name b now : frame s (matrix_admission s pool name b now).2.
Proof.
  unfold matrix_admission. case_match; [done|]. case_match; [done|].
  pose proof (allow_contents (sv_admission s) (sv_store s) (sv_store s) (pc_Name pool) name b now false false) as Hc.
  destruct (allow _ _ _ _ _ _ _ _) as [[decision a] st]. by split_and!.
Qed.

Lemma matrix_budget_frame s pool name b now : frame s (matrix_budget s pool name b now).2.
Proof. unfold matrix_budget. case_match; [done|]. by destruct (Tracker_Allow _ _ _ _ _ _). Qed.

Lemma summarize_frame s pool name b now : frame s (summarize cfg s pool name b now).2.
Proof.
  unfold summarize. pose proof (matrix_admission_frame s pool name b now) as Hadm.
  destruct (matrix_admission s pool name b now) as [status s1]. cbn [fst snd] in Hadm. case_match; [done|]. case_match; [done|].
  pose proof (matrix_budget_frame s1 pool name b now) as Hbud. destruct (matrix_budget s1 pool name b now) as [status' s2].
  cbn [fst snd] in Hbud. pose proof (frame_trans _ _ _ Hadm Hbud). case_match; [done|]. by destruct (matrix_live _ _ _ _ _ _).
Qed.

Lemma snapshot_frame s pool now : frame s (BuildCapacitySnapshot cfg s pool now).2.
Proof.
  unfold BuildCapacitySnapshot. change s with ((∅ : gmap string BackendCapacitySummary, s).2) at 1.
  generalize (∅ : gmap string BackendCapacitySummary, s). induction (range (pc_Backends pool)) as [|[name b] l IH]; [done|].
  intros [m s1]. cbn [foldl fst snd]. pose proof (summarize_frame s1 pool name b now) as Hs.
  destruct (summarize cfg s1 pool name b now) as [summary s2]. cbn [fst snd] in *. eapply frame_trans; [exact Hs|].
  apply (IH (<[name := summary]> m, s2)).
Qed.

Lemma wrapAllocationError_frame s pool request err now : frame s (wrapAllocationError cfg s pool request err now).2.
Proof.
  unfold wrapAllocationError. set (p := if _ && _ then _ else _). pose proof (snapshot_frame s p now) as Hf.
  by destruct (BuildCapacitySnapshot cfg s p now).
Qed.

Section Safe.
Hypothesis ids_inj : ∀ n m, ids n = ids m → n = m.
Hypothesis ids_nonblank : ∀ n, ids n ≠ "".
Hypothesis interfere_safe : ∀ t, safe cfg ids t (env_interfere env t).

(** [Allocate] answers what [allocateNow] does, with its error at most wrapped. *)
Lemma Allocate_answers s request now :
  let r := allocateNow cfg has_cleanup ids env ctx s request zero_AllocationStatus now in
  let a := Allocate cfg has_cleanup ids env ctx s request now in
  frame r.2 a.2 ∧
  option_map (fun answer => (answer.1, option_map api_Unwrap answer.2)) a.1 = r.1.
Proof.
  cbn zeta. unfold Allocate. destruct (allocateNow _ _ _ _ _ _ _ _ _) as [[[status [err|]]|] s1]; cbn [fst snd]; [|done..].
  case_match; [done|]. set (pool := match resolvePool _ _ with Ok p => p | Fail _ => _ end).
  pose proof (wrapAllocationError_frame s1 pool request err now) as Hf.
  destruct (wrapAllocationError _ _ _ _ _ _) as [e s2] eqn:He. cbn [fst snd] in *. split; [done|].
  assert (api_Unwrap e = err) as <-; [|done]. revert He. unfold wrapAllocationError. destruct (BuildCapacitySnapshot _ _ _ _).
  by intros [= <- _].
Qed.

Lemma Allocate_safe s request now : safe cfg ids s (Allocate cfg has_cleanup ids env ctx s request now).2.
Proof.
  intros out Hout Hi. destruct (Allocate_answers s request now) as [Hf _].
  destruct (allocate_safe cfg has_cleanup ids ids_inj ids_nonblank env ctx s request now out interfere_safe Hout Hi) as (_ & Hi' & He).
  split; [by eapply frame_inv|]. etrans; [exact He|]. by apply frame_evolves.
Qed.

Lemma note_frame s jobID again now : frame s (note_reallocated s jobID again now).
Proof. by destruct again. Qed.

Lemma AllocateForWorkflowJob_safe s pool jobID repository retryFailed now :
  safe cfg ids s (AllocateForWorkflowJob cfg has_cleanup ids env ctx s pool jobID repository retryFailed now).2.
Proof.
  assert (Hjob : ∀ again, safe cfg ids s (allocate_job cfg has_cleanup ids env ctx s pool jobID repository again now).2).
  { intros again. unfold allocate_job. pose proof (Allocate_safe s (workflow_request cfg pool jobID repository) now) as Ha.
    destruct (Allocate _ _ _ _ _ _ _ _) as [[[status [err|]]|] s1]; cbn [fst snd] in *; [|etrans; [exact Ha|]; apply frame_safe, note_frame|done].
    match goal with |- context [if workflowCapacityError ?r ?e then ?q else ?n] =>
      set (queued := if workflowCapacityError r e then q else n) end.
    assert (Hq : safe cfg ids s1 queued.2).
    { subst queued. case_match; [|done]. intros out Hout Hi.
      by destruct (queue_safe cfg ids ids_inj ctx s1 (workflow_request cfg pool jobID repository) (pc_Name pool) "" (api_Unwrap err) now out Hout Hi)
        as (? & ? & _). }
    destruct queued as [[pending|] s2]; cbn [fst snd] in *; [|by etrans]. etrans; [exact Ha|]. etrans; [exact Hq|]. apply frame_safe, note_frame. }
  unfold AllocateForWorkflowJob. case_match; [case_match; [done|]|]; apply Hjob.
Qed.
End Safe.
End AllocateJob.
