(* ===== verification/Reconcile.v ===== *)
(** Reconciling with the providers: the restart path and the inventory passes of
    src/internal/api/service.go, and service_finished_runners.go.

    What a registered driver can be asked, beyond Provision, is a [Driver]; a
    field is None when the driver does not implement that interface.  An answer
    may differ from pool to pool of one pass.  While a driver is asked, other
    goroutines run ([interfere]); at construction there are none. *)

From S2P Require Import Prelude Errors Model Store Scheduler FairShare Registry Backends Budget Capacity Admission.
From S2P Require Import JobRetry TierPolicy ServicePolicy Service ServiceFilters.
From stdpp Require Import pretty.
Open Scope Z_scope.
Open Scope go_scope.

(** internal/backend/backend.go *)
Record LiveRunner := {
  lr_AllocationID : string;
  lr_Pool : PoolName;
  lr_Repository : string;
  lr_WorkflowJobID : Z;
  lr_CreatedAt : Time;
  lr_Metadata : gmap string string;
  lr_RunnerRunning : bool;
}.

Record FinishedRunner := {
  fr_AllocationID : string;
  fr_Pool : PoolName;
  fr_Repository : string;
  fr_Failed : bool;
  fr_Metadata : gmap string string;
}.

(** CapacityBackend, InventoryBackend, FinishedRunnerBackend and backendProbe. *)
Record Driver := {
  dr_Capacity : option (PoolConfig → result CapacityStatus);
  dr_LiveRunners : option (PoolConfig → result (list LiveRunner));
  dr_FinishedRunners : option (PoolConfig → result (list FinishedRunner));
  dr_Probe : option (PoolConfig → BackendConfig → option error);
}.

Section Reconcile.
Context `{GoRange} `{QualityRanker} {S : Type} `{!AllocationStore S, !AdmissionStateStore S}.
Context (cfg : BrokerConfig) (has_cleanup : BackendName → bool).
(** registry.Get *)
Context (drivers : BackendName → option Driver).
Context (interfere : Service S → Service S).
Implicit Types (s : Service S) (pool : PoolConfig) (now : Time) (backendName : BackendName).

(** ** Backends in the order of the configuration, each once *)

Definition pool_entries : list (PoolConfig * BackendName * BackendConfig) :=
  bk_Pools cfg ≫= fun pool => (fun entry => (pool, entry.1, entry.2)) <$> range (pc_Backends pool).

(** The loops over the pools with their set [seen]. *)
Definition visit (keep : BackendConfig → bool) (acc : gset BackendName * list (PoolConfig * BackendName))
    (entry : PoolConfig * BackendName * BackendConfig) : gset BackendName * list (PoolConfig * BackendName) :=
  let '(seen, visited) := acc in
  let '(pool, backendName, b) := entry in
  if negb (keep b) || bool_decide (backendName ∈ seen) then acc
  else ({[ backendName ]} ∪ seen, visited ++ [(pool, backendName)]).

Definition visited (keep : BackendConfig → bool) : list (PoolConfig * BackendName) :=
  (foldl (visit keep) (∅, []) pool_entries).2.

(** ** Finished runners *)

Definition finished_request (runner : FinishedRunner) : completionRequest :=
  if fr_Failed runner
  then {| cr_State := "failed"; cr_Error := "runner pod exited with failure"; cr_Reason := ""; cr_FailureClass := "" |}
  else {| cr_State := "completed"; cr_Error := ""; cr_Reason := "runner pod exited"; cr_FailureClass := "" |}.

Definition already_completed (err : option error) : bool :=
  match err with None => true | Some err => errors_Is err ErrAllocationAlreadyCompleted end.

Definition releaseFinishedRunner s backendName (runner : FinishedRunner) now : bool * Service S :=
  let leftover :=
    { zero_AllocationStatus with
        as_ID := fr_AllocationID runner; as_Pool := fr_Pool runner; as_SelectedBackend := backendName;
        as_Repository := fr_Repository runner; as_State := StateCompleted; as_Metadata := fr_Metadata runner } in
  match store_Get (sv_store s) (fr_AllocationID runner) with
  | Some status =>
      if String.eqb (as_SelectedBackend status) backendName && isActiveAllocationState (as_State status) then
        let '(_, err, s) := Complete cfg has_cleanup s (as_ID status) (finished_request runner) now in
        (already_completed err, s)
      else (false, cleanupAllocation has_cleanup s leftover)
  | None => (false, cleanupAllocation has_cleanup s leftover)
  end.

Definition release_finished backendName now (acc : Z * Service S) (runner : FinishedRunner) : Z * Service S :=
  let '(released, s) := acc in
  let '(done, s) := releaseFinishedRunner s backendName runner now in
  (if done then released + 1 else released, s).

Definition finished_of_backend now (acc : Z * Service S) (entry : PoolConfig * BackendName) : Z * Service S :=
  let '(released, s) := acc in
  let '(pool, backendName) := entry in
  match drivers backendName ≫= dr_FinishedRunners with
  | None => acc
  | Some ask =>
      let s := interfere s in
      match ask pool with
      | Fail _ => (released, s)
      | Ok runners => foldl (release_finished backendName now) (released, s) runners
      end
  end.

Definition ReconcileFinishedRunners s now : Z * Service S :=
  foldl (finished_of_backend now) (0, s) (visited bc_Enabled).

(** ** Orphaned allocations *)

Definition orphanedAllocationGrace : Duration := 3 * Minute.

Definition markRunningRunnerRegistered s backendName (id : string) now : Service S :=
  match store_Get (sv_store s) id with
  | None => s
  | Some status =>
      if negb (String.eqb (as_SelectedBackend status) backendName) || negb (isActiveAllocationState (as_State status)) then s
      else if time_ptr_set (as_RegisteredAt status) || time_ptr_set (as_ClaimedAt status) then s
      else (Register s id now).2
  end.

(** The loop over the live runners of a backend: their identifiers. *)
Definition note_live backendName now (acc : gset string * Service S) (runner : LiveRunner) : gset string * Service S :=
  let '(ids, s) := acc in
  ({[ lr_AllocationID runner ]} ∪ ids,
   if lr_RunnerRunning runner then markRunningRunnerRegistered s backendName (lr_AllocationID runner) now else s).

Definition inventory_of now (acc : gmap BackendName (gset string) * Service S) (entry : PoolConfig * BackendName * BackendConfig) :
    gmap BackendName (gset string) * Service S :=
  let '(live, s) := acc in
  let '(pool, backendName, b) := entry in
  if negb (bc_Enabled b) || bool_decide (is_Some (live !! backendName)) then acc
  else match drivers backendName ≫= dr_LiveRunners with
       | None => acc
       | Some ask =>
           let s := interfere s in
           match ask pool with
           | Fail _ => (live, s)
           | Ok runners =>
               let '(ids, s) := foldl (note_live backendName now) (∅, s) runners in (<[backendName := ids]> live, s)
           end
       end.

Definition orphan_request : completionRequest :=
  {| cr_State := "failed"; cr_Error := "runner pod gone, terminating, or on a NotReady node"; cr_Reason := ""; cr_FailureClass := "" |}.

(** A ready, pod-backed allocation past the grace whose pod the inventory does not list. *)
Definition orphaned (live : gmap BackendName (gset string)) now (status : AllocationStatus) : bool :=
  state_eqb (as_State status) StateReady && negb (String.eqb (as_Metadata status).["pod_name"] "") &&
  match live !! as_SelectedBackend status with
  | None => false
  | Some ids => negb (bool_decide (as_ID status ∈ ids))
  end &&
  negb (TimeSub now (as_CreatedAt status) <? orphanedAllocationGrace).

Definition release_orphan (live : gmap BackendName (gset string)) now (acc : Z * Service S) (status : AllocationStatus) :
    Z * Service S :=
  let '(released, s) := acc in
  if negb (orphaned live now status) then acc
  else
    let '(_, err, s) := Complete cfg has_cleanup s (as_ID status) orphan_request now in
    (if already_completed err then released + 1 else released, s).

Definition ReconcileOrphanedAllocations s now : Z * Service S :=
  let '(live, s) := foldl (inventory_of now) (∅, s) pool_entries in
  foldl (release_orphan live now) (0, s) (store_List (sv_store s)).

(** ** Backend health *)

Definition probe_backend now s (entry : PoolConfig * BackendName * BackendConfig) : Service S :=
  let '(pool, backendName, b) := entry in
  if negb (bc_Enabled b) || negb (bc_Healthy b) then s
  else
    let '(due, a) := probeDue (sv_admission s) (pc_Name pool) backendName b now in
    let s := { s with sv_admission := a } in
    if negb due then s
    else match drivers backendName ≫= dr_Probe with
         | None => s
         | Some probe =>
             let s := interfere s in
             match probe pool b with
             | Some _ =>
                 let '(a, shared) := deferProbe (sv_admission s) (Some (sv_store s)) (pc_Name pool) backendName
                   (bc_CircuitBreaker b) now FailureReasonProbeFailed in
                 { s with sv_admission := a; sv_store := default (sv_store s) shared }
             | None => recordBackendProbeSuccess s pool backendName now
             end
         end.

Definition ReconcileBackendHealth s now : Service S := foldl (probe_backend now) s pool_entries.
End Reconcile.
