(* ===== verification/Restart.v ===== *)
(** Starting the service: newServiceWithStore and the restart reconciliation of
    src/internal/api/service.go.

    Construction is sequential: it rehydrates the schedulers from the store,
    ends reservations a crash left half made, and, for a store that lives in
    the process, rebuilds records from the providers' inventories and holds
    slots for runners nobody remembers. *)

From S2P Require Import Prelude Errors Model Store Scheduler FairShare Registry Backends Budget Capacity Admission.
From S2P Require Import JobRetry TierPolicy ServicePolicy Service ServiceFilters Reconcile.
From stdpp Require Import pretty.
Open Scope Z_scope.
Open Scope go_scope.

Definition restartOrphanHoldMetadataKey : string := "restart_orphan_hold".
Definition restartOrphanHoldMetadataVal : string := "true".
Definition restoredFromProviderMetadataKey : string := "restored_from_provider".

Section Restart.
Context `{GoRange} `{QualityRanker} {S : Type} `{!AllocationStore S, !AdmissionStateStore S}.
Context (cfg : BrokerConfig) (has_cleanup : BackendName → bool).
Context (drivers : BackendName → option Driver).
Implicit Types (s : Service S) (pool : PoolConfig) (now : Time) (backendName : BackendName).

Definition is_hold (status : AllocationStatus) : bool :=
  String.eqb (as_Metadata status).[restartOrphanHoldMetadataKey] restartOrphanHoldMetadataVal.

Definition blank (s : string) : bool := String.eqb (TrimSpace s) "".

(** ** Reservations a crash left half made *)

Definition incomplete (status : AllocationStatus) : bool :=
  state_eqb (as_State status) StateReserved && blank (as_RunnerLabel status) && negb (is_hold status).

(** With the label the driver would have given its runner. *)
Definition relabel (status : AllocationStatus) : AllocationStatus :=
  if negb (String.eqb (as_SelectedBackend status) "") && negb (String.eqb (as_ID status) "")
  then { status with as_RunnerLabel := DefaultRunnerLabel (as_SelectedBackend status) (as_ID status) } else status.

Definition incomplete_as now : AllocationState * Time * string :=
  let orphan := br_OrphanCleanup (broker cfg) in
  if oc_Enabled orphan then
    (StateQuarantined, (if 0 <? oc_QuarantineTTL orphan then TimeAdd now (oc_QuarantineTTL orphan) else now),
     "restart reconcile: incomplete reserved allocation quarantined")
  else (StateExpired, now, "restart reconcile: incomplete reserved allocation (mid-allocate)").

Definition terminalize_one now (acc : Z * Service S) (status : AllocationStatus) : Z * Service S :=
  let '(updated, s) := acc in
  if negb (incomplete status) then acc
  else
    let status := relabel status in
    let '(nextState, nextExpiresAt, nextMessage) := incomplete_as now in
    let '(err, st) := store_Save (sv_store s) status in
    let s := { s with sv_store := st } in
    match err with
    | Some _ => (updated, s)
    | None =>
        let '(marked, st) := store_MarkState (sv_store s) (as_ID status) nextState nextExpiresAt nextMessage in
        let s := { s with sv_store := st } in
        match marked with
        | None => (updated, s)
        | Some _ =>
            let s := match resolvePool cfg (as_Pool status) with
                     | Ok pool => release has_cleanup s pool (as_SelectedBackend status) status now
                     | Fail _ => s
                     end in
            (updated + 1, s)
        end
    end.

Definition terminalizeIncompleteReserved s now : Z * Service S :=
  foldl (terminalize_one now) (0, s) (store_List (sv_store s)).

(** ** Live runners *)

Definition restart_timeout : Duration :=
  let timeout := br_DefaultJobTimeout (broker cfg) in if timeout <=? 0 then 60 * Minute else timeout.

Definition pinned_request pool backendName (tenant : string) : AllocationRequest :=
  { zero_AllocationRequest with ar_Pool := pc_Name pool; ar_Backend := Some backendName; ar_Tenant := tenant }.

Definition rebuilt_status pool backendName (runner : LiveRunner) now : AllocationStatus :=
  let metadata := lr_Metadata runner ∪ {[ restoredFromProviderMetadataKey := "true" ]} in
  let created := if IsZero (lr_CreatedAt runner) then now else lr_CreatedAt runner in
  let label := metadata.["runner_label"] in
  { zero_AllocationStatus with
      as_ID := lr_AllocationID runner; as_Pool := pc_Name pool; as_SelectedBackend := backendName;
      as_RunnerLabel := if String.eqb label "" then DefaultRunnerLabel backendName (lr_AllocationID runner) else label;
      as_Repository := lr_Repository runner; as_CreatedAt := created; as_RegisteredAt := Some created;
      as_ExpiresAt := TimeAdd now restart_timeout; as_State := StateReady;
      as_Error := "rebuilt after restart from live provider runner"; as_Metadata := metadata;
      as_Request := Some { pinned_request pool backendName "" with
                             ar_TargetRepository := lr_Repository runner; ar_WorkflowJobID := lr_WorkflowJobID runner } }.

Definition rebuildLiveRunner s pool backendName (runner : LiveRunner) now : bool * Service S :=
  let status := rebuilt_status pool backendName runner now in
  match reserve cfg s pool (pinned_request pool backendName "") now with
  | (Fail _, s) => (false, s)
  | (Ok _, s) =>
      let '(err, st) := store_Save (sv_store s) status in
      let s := { s with sv_store := st } in
      match err with
      | Some _ => (false, release has_cleanup s pool backendName status now)
      | None => (true, s)
      end
  end.

(** The loop body over the runners of a backend. *)
Definition rebuild_one backendName now (acc : Z * Service S) (runner : LiveRunner) : Z * Service S :=
  let '(rebuilt, s) := acc in
  match store_Get (sv_store s) (lr_AllocationID runner), resolvePool cfg (lr_Pool runner) with
  | None, Ok pool =>
      if bool_decide (is_Some (pc_Backends pool !! backendName)) then
        let '(ok, s) := rebuildLiveRunner s pool backendName runner now in
        (if ok then rebuilt + 1 else rebuilt, s)
      else acc
  | _, _ => acc
  end.

Definition rebuild_backend now (acc : Z * Service S) (entry : PoolConfig * BackendName) : Z * Service S :=
  let '(pool, backendName) := entry in
  match drivers backendName ≫= dr_LiveRunners with
  | None => acc
  | Some ask =>
      match ask pool with
      | Fail _ => acc
      | Ok runners => foldl (rebuild_one backendName now) acc runners
      end
  end.

Definition rebuildFromLiveRunners s now : Z * Service S :=
  foldl (rebuild_backend now) (0, s) (visited cfg bc_Enabled).

(** ** Holds for the runners nobody remembers *)

Definition countLocalAccounted s backendName : Z :=
  count_if (fun status => String.eqb (as_SelectedBackend status) backendName && isSchedulerAccountedState (as_State status))
    (store_List (sv_store s)).

Definition hold_id backendName (i : nat) : string := "restart-orphan-" +:+ backendName +:+ "-" +:+ pretty i.

Definition new_hold pool backendName (i : nat) now : AllocationStatus :=
  { zero_AllocationStatus with
      as_ID := hold_id backendName i; as_Pool := pc_Name pool; as_SelectedBackend := backendName;
      as_Tenant := "restart-orphan"; as_State := StateReserved;
      as_Error := "capacity hold for provider runners detected after process restart (lost local allocation state)";
      as_ExpiresAt := TimeAdd now restart_timeout;
      as_Metadata := {[ restartOrphanHoldMetadataKey := restartOrphanHoldMetadataVal ]} }.

Definition refreshed_hold (existing : AllocationStatus) now : AllocationStatus :=
  { existing with
      as_ExpiresAt := TimeAdd now restart_timeout; as_Error := "restart orphan capacity hold refreshed";
      as_State := StateReserved;
      as_Metadata := <[restartOrphanHoldMetadataKey := restartOrphanHoldMetadataVal]> (as_Metadata existing) }.

(** The marker saved when no slot is left and orphan cleanup is on. *)
Definition unslotted_hold (hold : AllocationStatus) now : AllocationStatus :=
  let ttl := oc_QuarantineTTL (br_OrphanCleanup (broker cfg)) in
  { hold with as_State := StateQuarantined; as_ExpiresAt := if 0 <? ttl then TimeAdd now ttl else now }.

Definition create_hold pool backendName now (acc : Z * Service S) (i : nat) : Z * Service S :=
  let '(created, s) := acc in
  match store_Get (sv_store s) (hold_id backendName i) with
  | Some existing =>
      (created + 1, { s with sv_store := (store_Save (sv_store s) (refreshed_hold existing now)).2 })
  | None =>
      let hold := new_hold pool backendName i now in
      match reserve cfg s pool (pinned_request pool backendName (as_Tenant hold)) now with
      | (Fail _, s) =>
          if oc_Enabled (br_OrphanCleanup (broker cfg))
          then (created + 1, { s with sv_store := (store_Save (sv_store s) (unslotted_hold hold now)).2 })
          else (created, s)
      | (Ok _, s) =>
          let '(err, st) := store_Save (sv_store s) hold in
          let s := { s with sv_store := st } in
          match err with
          | Some _ => (created, release has_cleanup s pool backendName hold now)
          | None => (created + 1, s)
          end
      end
  end.

Definition createRestartOrphanHolds s pool backendName (gap : Z) now : Z * Service S :=
  if gap <=? 0 then (0, s) else foldl (create_hold pool backendName now) (0, s) (seq 0 (Z.to_nat gap)).

Definition capacity_gap s backendName (status : CapacityStatus) : Z :=
  let providerUsed := used_slots status in
  let providerUsed := if providerUsed <? 0 then 0 else providerUsed in
  wrap64 (providerUsed - countLocalAccounted s backendName).

Definition close_gap now s (entry : PoolConfig * BackendName) : Service S :=
  let '(pool, backendName) := entry in
  match drivers backendName ≫= dr_Capacity with
  | None => s
  | Some ask =>
      match ask pool with
      | Fail _ => s
      | Ok status =>
          let gap := capacity_gap s backendName status in
          if gap <=? 0 then s else (createRestartOrphanHolds s pool backendName gap now).2
      end
  end.

Definition reconcileProviderCapacityGaps s now : Service S :=
  foldl (close_gap now) s (visited cfg (fun b => bc_Enabled b && bc_Healthy b)).

(** ** Construction *)

Definition reconcileRestartOrphans s now : Service S :=
  let storeType := ToLower (TrimSpace (ss_Type (br_StateStore (broker cfg)))) in
  let storeType := if String.eqb storeType "" then TypeMemory else storeType in
  let s := (terminalizeIncompleteReserved s now).2 in
  if IsProcessLocal storeType then
    let s := (rebuildFromLiveRunners s now).2 in
    reconcileProviderCapacityGaps s now
  else s.

Definition firstErr (errs : list (option error)) : option error := head (omap id errs).

Fixpoint validateSchedulers (pools : list PoolConfig) : option error :=
  match pools with
  | [] => None
  | pool :: pools =>
      match ValidateName (pc_Scheduler pool) with
      | Some err => Some (Wrapf ("pool " +:+ quote (pc_Name pool) +:+ ": ") err "")
      | None => validateSchedulers pools
      end
  end.

(** [storeErr] is the error of a store given as a typed nil.  Rehydration and
    the restart reconciliation return no error. *)
Definition newServiceWithStore (st : S) (storeErr : option error) now : Service S :=
  let s := rehydrateSchedulerState cfg (initial_service st) now in
  let s := reconcileRestartOrphans s now in
  { s with sv_initErr := firstErr [storeErr; validateSchedulers (bk_Pools cfg); None; None] }.

Definition BeginDrain s : Service S := { s with sv_draining := true }.
End Restart.
