(* ===== verification/WarmPool.v ===== *)
(** Keeping the warm pools filled: ReconcileWarmPools of src/internal/api/service.go.

    A pass recycles the warm allocations that expired, are no longer wanted or
    exceed the bounds, and provisions new ones up to the target.  It takes one
    snapshot of the store at its start, and waits for a provider in every
    creation while other goroutines run ([env_interfere]). *)

From S2P Require Import Prelude Errors Model Store Scheduler FairShare Registry Backends Budget Capacity Admission.
From S2P Require Import Warm JobRetry TierPolicy ServicePolicy Service ServiceFilters Allocate.

Section WarmPool.
Context `{GoRange} `{QualityRanker} {S : Type} `{!AllocationStore S, !AdmissionStateStore S}.
Context (cfg : BrokerConfig) (has_cleanup : BackendName → bool) (ids : nat → string).
(** The zone database, as for [effectiveWarmBounds]. *)
Context (zone : string → result (Time → Duration)).
Context (env : Environment S).
Implicit Types (s : Service S) (pool : PoolConfig) (now : Time) (backendName : BackendName) (b : BackendConfig).

Definition tierBlockedForWarm s pool backendName : bool :=
  backendTierBlockedForWarm (tr_FailureMode (br_TierRouting (broker cfg))) (tr_Enabled (br_TierRouting (broker cfg)))
    (sv_tier s) (pc_Name pool) backendName.

(** [None] is [(0, false)]: live capacity does not constrain the refill. *)
Definition warmLiveCapacityHeadroom s pool backendName b : option Z :=
  if negb (lc_Enabled (br_LiveCapacity (broker cfg))) then None
  else
    let active := backendActiveCount s pool backendName in
    match Manager_Get (sv_capacity s) backendName with
    | None => None
    | Some snap =>
        let '(effectiveMax, available, _) := effective_max cfg s pool backendName b in
        if negb available then Some 0
        else
          let remaining := effectiveMax - active in
          let remaining := if remaining <? 0 then 0 else remaining in
          Some (if negb (sn_Stale snap) && String.eqb (sn_Err snap) "" && negb (String.eqb (sn_Source snap) "error")
                then (let free := Backends.FreeSlots (sn_Status snap) in if free <? remaining then free else remaining)
                else remaining)
    end.

Definition validateWarmBackend pool backendName : option error :=
  match pc_Backends pool !! backendName with
  | None => Some (Errorf ("backend " +:+ quote backendName +:+ " is not configured for pool " +:+ quote (pc_Name pool)))
  | Some b =>
      if negb (bc_Enabled b) then Some (Errorf ("backend " +:+ quote backendName +:+ " is not enabled"))
      else if negb (bc_Healthy b) then Some (Errorf ("backend " +:+ quote backendName +:+ " is unhealthy"))
      else if negb (isWarmProvisionableBackend backendName)
      then Some (Errorf ("backend " +:+ quote backendName +:+ " does not support warm provisioning"))
      else None
  end.

Definition reserveForBackend s pool backendName now : result BackendName * Service S :=
  reserve cfg s pool { zero_AllocationRequest with ar_Pool := pc_Name pool; ar_Backend := Some backendName } now.

(** The record of a new warm allocation, and the request the provider gets. *)
Definition warm_allocation (id : string) pool backendName b now : AllocationStatus :=
  { zero_AllocationStatus with
      as_ID := id; as_Pool := pc_Name pool; as_SelectedBackend := backendName;
      as_Metadata := {[ MetadataLaunchModeKey := launchModeWarm ]};
      as_ExpiresAt := TimeAdd now (resolveWarmTTL b); as_State := StateReserved }.

Definition warm_request pool backendName b : AllocationRequest :=
  { zero_AllocationRequest with
      ar_Pool := pc_Name pool; ar_Backend := Some backendName;
      ar_JobTimeout := if 0 <? bc_MaxJobDuration b then bc_MaxJobDuration b else br_DefaultJobTimeout (broker cfg) }.

(** After the slot is reserved. *)
Definition provision_warm s pool backendName b now : option error * Service S :=
  let '(id, s) := newID ids s in
  let allocation := warm_allocation id pool backendName b now in
  match env_provision env backendName with
  | None =>
      (Some (Errorf ("backend implementation missing: " +:+ backendName)),
       release has_cleanup s pool backendName allocation now)
  | Some provision =>
      let provisioned := provision (warm_request pool backendName b) allocation in
      let s := env_interfere env s in
      match provisioned with
      | Fail err =>
          let s := release has_cleanup s pool backendName allocation now in
          (Some err, recordBackendFailure s pool backendName err now)
      | Ok runner =>
          let s := recordBackendSuccess s pool backendName now in
          let allocation :=
            { allocation with
                as_RunnerLabel := pv_RunnerLabel runner; as_State := StateWarm;
                as_Metadata := withLaunchModeMetadata (WithCapabilitiesMetadata b (pv_Metadata runner)) launchModeWarm } in
          (None, { s with sv_store := (store_Save (sv_store s) allocation).2 })
      end
  end.

(** [None]: the runner is provisioned.  The error of the save is dropped. *)
Definition createWarmAllocation s pool backendName now : option error * Service S :=
  match pc_Backends pool !! backendName with
  | None => (Some (Errorf ("backend " +:+ quote backendName +:+ " is not configured for pool " +:+ quote (pc_Name pool))), s)
  | Some b =>
      match validateWarmBackend pool backendName with
      | Some err => (Some err, s)
      | None =>
          if (if warmLiveCapacityHeadroom s pool backendName b is Some remaining then remaining <=? 0 else false)
          then (Some (Errorf ("warm backend " +:+ quote backendName +:+ " has no live capacity headroom")), s)
          else
            let '(decision, a, shared) :=
              allow (sv_admission s) (Some (sv_store s)) (pc_Name pool) backendName b now false true in
            let s := { s with sv_admission := a; sv_store := default (sv_store s) shared } in
            if negb (ad_Allowed decision)
            then (Some (Errorf ("warm backend " +:+ quote backendName +:+ " is not admissible: " +:+ ad_Reason decision)), s)
            else if tierBlockedForWarm s pool backendName
            then (Some (Errorf ("warm backend " +:+ quote backendName +:+ " is blocked by tier policy")), s)
            else match reserveForBackend s pool backendName now with
                 | (Fail err, s) => (Some err, s)
                 | (Ok selection, s) =>
                     if negb (String.eqb selection backendName)
                     then (Some (Errorf ("expected warm reservation for " +:+ backendName +:+ ", got " +:+ selection)), s)
                     else provision_warm s pool backendName b now
                 end
      end
  end.

(** The loop [for len(warm) < target], with the creations left. *)
Fixpoint refill_warm (missing : nat) s pool backendName now : Service S :=
  match missing with
  | O => s
  | Datatypes.S missing =>
      match createWarmAllocation s pool backendName now with
      | (Some _, s) => s
      | (None, s) => refill_warm missing s pool backendName now
      end
  end.

Definition recycle_all s pool (warm : list AllocationStatus) (reason : string) now : Service S :=
  foldl (fun s status => recycleWarmAllocation has_cleanup s pool status reason now) s warm.

(** Invalid schedules fail closed. *)
Definition warm_bounds b now : Z * Z :=
  match effectiveWarmBounds zone b now with Ok bounds => bounds | Fail _ => (0, 0) end.

(** The creations wanted when [count] fresh warm runners are left. *)
Definition warm_missing s pool backendName b (warmMin warmMax count : Z) : Z :=
  let target := normalizeWarmTarget warmMin warmMax (bc_MaxRunners b) in
  match warmLiveCapacityHeadroom s pool backendName b with
  | Some remaining =>
      if remaining <=? 0 then 0
      else (if count + remaining <? target then count + remaining else target) - count
  | None => target - count
  end.

(** Recycles the expired runners of the snapshot and those above the maximum;
    also returns the fresh ones left. *)
Definition trim_warm s pool backendName (warm : list AllocationStatus) (ttl : Duration) (warmMax : Z) now :
    Service S * list AllocationStatus :=
  let expired := filter (fun status => isWarmExpired status now ttl = true) (sortWarmByExpiration warm) in
  let s := recycle_all s pool expired "warm allocation expired" now in
  let warm := filterFreshWarm (store_List (sv_store s)) (pc_Name pool) backendName now ttl in
  (recycle_all s pool (drop (Z.to_nat warmMax) warm) "warm pool at max capacity" now, take (Z.to_nat warmMax) warm).

Definition reconcileWarmForBackend s pool backendName b (statuses : list AllocationStatus) now : Service S :=
  let '(warmMin, warmMax) := warm_bounds b now in
  let ttl := resolveWarmTTL b in
  let warm := filterWarmAllocations statuses (pc_Name pool) backendName in
  if negb (usable b) then recycle_all s pool warm "warm backend disabled or unhealthy" now
  else if warmMax <=? 0 then recycle_all s pool warm "warm disabled" now
  else if tierBlockedForWarm s pool backendName then recycle_all s pool warm "warm backend blocked by tier policy" now
  else
    let '(s, warm) := trim_warm s pool backendName warm ttl warmMax now in
    refill_warm (Z.to_nat (warm_missing s pool backendName b warmMin warmMax (Z.of_nat (length warm)))) s pool backendName now.

Definition reconcileWarmForPool s pool (statuses : list AllocationStatus) now : Service S :=
  foldl (fun s '(backendName, b) =>
           if negb (isWarmProvisionableBackend backendName) then s
           else reconcileWarmForBackend s pool backendName b statuses now) s (range (pc_Backends pool)).

Definition ReconcileWarmPools s now : Service S :=
  if sv_draining s then s
  else
    let statuses := store_List (sv_store s) in
    foldl (fun s pool => reconcileWarmForPool s pool statuses now) s (bk_Pools cfg).
End WarmPool.
