(* ===== verification/ReconcileTheory.v ===== *)
(** Theorems of the inventory passes: they keep the ledger, whatever the drivers
    answer. *)

From S2P Require Import Prelude Errors Model Store StoreTheory Scheduler SchedulerTheory FairShare FairShareTheory.
From S2P Require Import Registry Backends Budget Capacity Admission JobRetry TierPolicy ServicePolicy Service.
From S2P Require Import ServiceFilters ServiceTheory Reconcile.

Section Reconcile.
Context `{GoRange} `{QualityRanker} {S : Type} `{!AllocationStore S, !AdmissionStateStore S, !ReliableStore S}.
Context (cfg : BrokerConfig) (has_cleanup : BackendName → bool) (ids : nat → string).
Context (drivers : BackendName → option Driver) (interfere : Service S → Service S).
Hypothesis interfere_safe : ∀ s, safe cfg ids s (interfere s).
Implicit Types (s : Service S) (now : Time).

Local Notation safe := (safe cfg ids).

(** A pass is a sequence of steps that keep the ledger. *)
Lemma fold_safe {A B} (f : B * Service S → A → B * Service S) (l : list A) :
  (∀ acc x, x ∈ l → safe acc.2 (f acc x).2) → ∀ acc, safe acc.2 (foldl f acc l).2.
Proof.
  intros Hf. induction l as [|x l IH]; intros acc; cbn [foldl]; [by apply frame_safe|].
  etrans; [apply (Hf acc x); left|]. apply IH. intros; apply Hf; by right.
Qed.

(** *** Finished runners *)

Lemma releaseFinished_safe s b runner now : safe s (releaseFinishedRunner cfg has_cleanup s b runner now).2.
Proof.
  unfold releaseFinishedRunner. rewrite get_records.
  destruct (records s !! fr_AllocationID runner) as [status|] eqn:Ho; [|by apply frame_safe, cleanup_frame].
  destruct (String.eqb _ b && _) eqn:Hb; [|by apply frame_safe, cleanup_frame].
  intros out Hout Hi. apply andb_true_iff in Hb as [_ Ha].
  pose proof (led_ids _ _ _ _ _ Hi _ _ Ho) as Hid.
  pose proof (Complete_safe cfg has_cleanup ids s (as_ID status) (finished_request runner) now) as Hc.
  destruct (Complete _ _ _ _ _ _) as [[r err] s1]. cbn [snd] in *. apply Hc; [|done|done].
  unfold complete_ok. rewrite get_records, Hid, Ho. by destruct (as_State status).
Qed.

Lemma ReconcileFinishedRunners_safe s now :
  safe s (ReconcileFinishedRunners cfg has_cleanup drivers interfere s now).2.
Proof.
  unfold ReconcileFinishedRunners.
  apply (fold_safe (finished_of_backend cfg has_cleanup drivers interfere now) _) with (acc := (0, s)).
  intros [n t] [pool b] _. cbn [finished_of_backend snd]. unfold finished_of_backend.
  destruct (drivers b ≫= dr_FinishedRunners) as [ask|]; [|by apply frame_safe].
  destruct (ask pool) as [runners|]; [|apply interfere_safe]. etrans; [apply interfere_safe|].
  apply (fold_safe (release_finished cfg has_cleanup b now) _) with (acc := (n, interfere t)).
  intros [n' t'] runner _. unfold release_finished. pose proof (releaseFinished_safe t' b runner now) as Hs.
  by destruct (releaseFinishedRunner _ _ _ _ _ _).
Qed.

(** *** Orphaned allocations *)

Lemma markRunning_safe s b id now : safe s (markRunningRunnerRegistered s b id now).
Proof.
  unfold markRunningRunnerRegistered. repeat case_match; try by apply frame_safe. apply Register_safe.
Qed.

Lemma Complete_touches s id request now : touches s (Complete cfg has_cleanup s id request now).2 id.
Proof.
  unfold Complete. rewrite get_records. destruct (records s !! id) as [st|] eqn:Ho; [|done].
  destruct (parseCompletionState request) as [[target message]|]; [|done].
  destruct (isTerminalAllocationState _); [by case_match|]. destruct (state_eqb _ target); [done|].
  set (message' := if String.eqb _ _ then _ else _).
  pose proof (markState_spec s id target now message') as Hm. rewrite Ho in Hm. destruct Hm as [Hr Hs].
  destruct (markState s id target now message') as [r s1]. cbn in Hr, Hs. subst r. cbn [snd].
  apply stored_touches in Hs. destruct (isActiveAllocationState _); [|done].
  destruct (resolvePool cfg (as_Pool st)) as [pool|]; [|done].
  assert (Hr : records (release has_cleanup s1 pool (as_SelectedBackend st) st now) = records s1) by apply release_frame.
  case_match; [|by eapply touches_trans]. eapply touches_trans; [exact Hs|]. rewrite <- Hr.
  apply recordBackendFailureClass_frame.
Qed.

Lemma release_orphan_safe live now acc status : records acc.2 !! as_ID status = Some status →
  safe acc.2 (release_orphan cfg has_cleanup live now acc status).2 ∧
  touches acc.2 (release_orphan cfg has_cleanup live now acc status).2 (as_ID status).
Proof.
  destruct acc as [n s]. cbn [snd]. intros Ho. unfold release_orphan.
  destruct (orphaned live now status) eqn:Horph; cbn [negb]; [|by split; [apply frame_safe|]].
  assert (Hst : as_State status = StateReady).
  { unfold orphaned, state_eqb in Horph. reflect_bools. by destruct_and?. }
  pose proof (Complete_safe cfg has_cleanup ids s (as_ID status) orphan_request now) as Hs.
  pose proof (Complete_touches s (as_ID status) orphan_request now) as Ht.
  destruct (Complete _ _ _ _ _ _) as [[r err] s1]. cbn [snd] in *. split; [|done]. apply Hs.
  unfold complete_ok. by rewrite get_records, Ho, Hst.
Qed.

Lemma release_orphans_safe live now l : ∀ acc, listed acc.2 l →
  safe acc.2 (foldl (release_orphan cfg has_cleanup live now) acc l).2.
Proof.
  induction l as [|st l IH]; intros acc Hl; cbn [foldl]; [by apply frame_safe|].
  destruct (release_orphan_safe live now acc st) as [Hs Ht]; [apply Hl; by left|].
  etrans; [exact Hs|]. apply IH. by eapply listed_touches.
Qed.

Lemma inventory_safe now acc entry : safe acc.2 (inventory_of drivers interfere now acc entry).2.
Proof.
  destruct acc as [live s], entry as [[pool b] c]. unfold inventory_of. cbn [snd]. destruct (_ || _); [by apply frame_safe|].
  destruct (drivers b ≫= dr_LiveRunners) as [ask|]; [|by apply frame_safe].
  destruct (ask pool) as [runners|]; [|apply interfere_safe]. etrans; [apply interfere_safe|].
  pose proof (fold_safe (note_live b now) runners) as Hf.
  specialize (Hf ltac:(intros [i t] runner _; unfold note_live; case_match; [apply markRunning_safe|by apply frame_safe])).
  specialize (Hf (∅, interfere s)). by destruct (foldl _ _ _).
Qed.

Lemma ReconcileOrphanedAllocations_safe s now :
  safe s (ReconcileOrphanedAllocations cfg has_cleanup drivers interfere s now).2.
Proof.
  unfold ReconcileOrphanedAllocations.
  pose proof (fold_safe (inventory_of drivers interfere now) (pool_entries cfg)
    (fun acc entry _ => inventory_safe now acc entry) (∅, s)) as Hf.
  destruct (foldl (inventory_of _ _ _) _ _) as [live s1]. cbn [snd] in Hf.
  intros out Hout Hi. destruct (Hf out Hout Hi) as [Hi1 He1].
  destruct (release_orphans_safe live now (store_List (sv_store s1)) (0, s1)) with (out := out) as [Hi2 He2]; [|done|done|].
  - by eapply listed_store.
  - split; [done|by etrans].
Qed.

(** *** Health *)

Lemma recordBackendProbeSuccess_frame s pool b now : frame s (recordBackendProbeSuccess s pool b now).
Proof.
  unfold recordBackendProbeSuccess. case_match; [|done]. apply put_admission_frame. unfold recordProbeSuccess, saves_document.
  repeat case_match; simplify_eq/=; eauto.
Qed.

Lemma probe_safe now s entry : safe s (probe_backend drivers interfere now s entry).
Proof.
  destruct entry as [[pool b] c]. unfold probe_backend. destruct (_ || _); [by apply frame_safe|].
  destruct (probeDue _ _ _ _ _) as [due a]. destruct (negb due); [by apply frame_safe|].
  destruct (drivers b ≫= dr_Probe) as [probe|]; [|by apply frame_safe]. cbv zeta.
  set (s1 := { s with sv_admission := a }). etrans; [apply (frame_safe cfg ids s s1); done|].
  etrans; [apply interfere_safe|]. apply frame_safe. destruct (probe pool c); [|apply recordBackendProbeSuccess_frame].
  unfold deferProbe. destruct (circuit _ _) as [ci a']. split_and!; [|done|done].
  unfold records, persistSharedLocked, tset, set. cbn. apply reliable_admission.
Qed.

Lemma ReconcileBackendHealth_safe s now : safe s (ReconcileBackendHealth cfg drivers interfere s now).
Proof.
  unfold ReconcileBackendHealth. generalize (pool_entries cfg) as l. intros l. revert s.
  induction l as [|e l IH]; intros s; cbn [foldl]; [by apply frame_safe|]. etrans; [apply probe_safe|apply IH].
Qed.
End Reconcile.
