(* ===== verification/WarmPoolTheory.v ===== *)
(** Theorems of the warm pools: a pass keeps the ledger, and leaves no more warm
    runners than its bounds. *)

From S2P Require Import Prelude Errors Model Store StoreTheory Scheduler SchedulerTheory FairShare FairShareTheory.
From S2P Require Import Registry Backends Budget Capacity Admission Warm JobRetry TierPolicy ServicePolicy Service.
From S2P Require Import ServiceFilters ServiceTheory Allocate AllocateTheory WarmPool.

(** Pools have names, and distinct ones.  The broker relies on it; the configuration
    rules do not check it. *)
Definition pools_named (cfg : BrokerConfig) : Prop :=
  NoDup (pc_Name <$> bk_Pools cfg) ∧ ∀ pool, pool ∈ bk_Pools cfg → pc_Name pool ≠ "".

Lemma find_pool_listed pools pool : NoDup (pc_Name <$> pools) → pool ∈ pools → find_pool (pc_Name pool) pools = Some pool.
Proof.
  induction pools as [|p pools IH]; [by intros _ ?%elem_of_nil|]. rewrite fmap_cons. intros [Hni Hnd]%NoDup_cons Hin. cbn.
  apply elem_of_cons in Hin as [->|Hin]; [by rewrite String.eqb_refl|].
  destruct (String.eqb_spec (pc_Name p) (pc_Name pool)) as [He|]; [|by apply IH].
  destruct Hni. rewrite He. by apply list_elem_of_fmap_2.
Qed.

Lemma configured_pool_ok cfg pool : pools_named cfg → pool ∈ bk_Pools cfg → pool_ok cfg pool.
Proof.
  intros [Hnd Hname] Hin. unfold pool_ok, resolvePool.
  destruct (String.eqb_spec (pc_Name pool) "") as [He|_]; [by destruct (Hname pool Hin)|].
  rewrite (find_pool_listed _ _ Hnd Hin). case_match; by eexists.
Qed.

(** ** Counting the warm runners of a backend *)

Definition warm_held (m : Allocations) (p : PoolName) (b : BackendName) : Z :=
  count_map (fun _ status => is_warm_of p b status) m.

(** The warm runners of a store, as the code lists them. *)
Lemma warm_listed {S : Type} `{AllocationStore S, !AllocationStoreLaws S} (st : S) p b :
  Z.of_nat (length (filterWarmAllocations (store_List st) p b)) = warm_held (contents st) p b.
Proof.
  unfold filterWarmAllocations, warm_held, count_map, sum_map. rewrite (list_law st).
  induction (map_to_list (contents st)) as [|[id status] l IH]; [done|].
  rewrite fmap_cons, filter_cons, sum_of_cons. cbn [snd]. case_decide as Hw; cbn [length]; rewrite <- IH.
  - rewrite Hw. lia.
  - apply not_true_is_false in Hw. rewrite Hw. lia.
Qed.

(** A warm runner stops being one. *)
Lemma warm_held_retire m id old status p b : m !! id = Some old → is_warm_of p b old = true → is_warm_of p b status = false →
  warm_held (<[id := status]> m) p b = warm_held m p b - 1.
Proof. intros Ho Hw Hs. unfold warm_held. rewrite count_map_insert, Ho, Hw, Hs. lia. Qed.

Lemma warm_held_store m id status p b : warm_held (<[id := status]> m) p b ≤ warm_held m p b + 1.
Proof. unfold warm_held. rewrite count_map_insert. repeat case_match; lia. Qed.

(** ** The pass *)

Section WarmPool.
Context `{GoRange} `{QualityRanker} {S : Type} `{!AllocationStore S, !AdmissionStateStore S, !ReliableStore S}.
Context (cfg : BrokerConfig) (has_cleanup : BackendName → bool) (ids : nat → string).
Context (zone : string → result (Time → Duration)) (env : Environment S).
Hypothesis ids_inj : ∀ n m, ids n = ids m → n = m.
Hypothesis interfere_safe : ∀ s, safe cfg ids s (env_interfere env s).
(** Nobody takes or cancels a warm runner while the pass waits for a provider. *)
Hypothesis interfere_spares : ∀ s id st,
  records s !! id = Some st → as_State st = StateWarm → records (env_interfere env s) !! id = Some st.
Context (out : slot_counts).
Hypothesis out_nonneg : nonneg out.
Implicit Types (s : Service S) (pool : PoolConfig) (now : Time) (b : BackendName) (c : BackendConfig).

Local Notation Inv := (Inv cfg ids out).
Local Notation evolves := (evolves ids).

(** Warm runners other than those of one backend of one pool stay. *)
Definition spares (p : PoolName) b s s' : Prop :=
  ∀ id st, records s !! id = Some st → as_State st = StateWarm → is_warm_of p b st = false → records s' !! id = Some st.

#[local] Instance spares_preorder p b : PreOrder (spares p b).
Proof. split; [by intros s id st|]. intros s1 s2 s3 H12 H23 id st Ho Hw Hn. by eapply H23, Hn; [apply H12|]. Qed.

(** A step of the pass on one backend. *)
Definition tends p b s s' : Prop := Inv s' ∧ evolves s s' ∧ spares p b s s'.

Lemma tends_trans p b s1 s2 s3 : tends p b s1 s2 → tends p b s2 s3 → tends p b s1 s3.
Proof. intros (_ & He & Hs) (Hi & He' & Hs'). split_and!; [done|by etrans..]. Qed.

Lemma tends_frame p b s s' : Inv s → frame s s' → tends p b s s'.
Proof.
  intros Hi Hf. split_and!; [by eapply frame_inv|by apply frame_evolves|]. intros id st Ho _ _. by destruct Hf as (-> & _).
Qed.

Lemma warm_of_iff pool b st : is_warm_of (pc_Name pool) b st = true ↔ warm_of pool b st.
Proof. unfold is_warm_of, warm_of, state_eqb. rewrite !andb_true_iff, !String.eqb_eq, bool_decide_eq_true. tauto. Qed.

(** *** Recycling *)

Definition failed_at s (id : string) : Prop := ∃ st, records s !! id = Some st ∧ as_State st = StateFailed.

Lemma recycle_tends s pool b st reason now :
  Inv s → pool_ok cfg pool → records s !! as_ID st = Some st → warm_of pool b st →
  let s' := recycleWarmAllocation has_cleanup s pool st reason now in
  tends (pc_Name pool) b s s' ∧ touches s s' (as_ID st) ∧ failed_at s' (as_ID st) ∧
  warm_held (records s') (pc_Name pool) b = warm_held (records s) (pc_Name pool) b - 1.
Proof.
  intros Hi Hp Ho Hw. cbn zeta.
  destruct (recycle_spec cfg has_cleanup ids out out_nonneg s pool b st reason now Hi Hp Ho Hw) as (Hi' & He & Ht).
  split; [split_and!; [done|done|]|split; [done|]].
  - intros id st' Ho' _ Hn. destruct (decide (id = as_ID st)) as [->|Hne]; [|by rewrite Ht].
    rewrite Ho in Ho'. injection Ho' as <-. apply warm_of_iff in Hw. congruence.
  - unfold recycleWarmAllocation. pose proof (markState_spec s (as_ID st) StateFailed now reason) as Hm. rewrite Ho in Hm.
    destruct Hm as [Hr (Hrec & _)]. destruct (markState s (as_ID st) StateFailed now reason) as [r s1]. cbn in Hr, Hrec. subst r.
    destruct (release_frame has_cleanup s1 pool (as_SelectedBackend st) (applyMarkState st StateFailed now reason) now) as (Hr1 & _).
    destruct (applyMarkState_lane st StateFailed now reason) as (Hst & _). unfold failed_at. rewrite Hr1, Hrec. split.
    + eexists. by rewrite lookup_insert_eq.
    + eapply warm_held_retire; [exact Ho|by apply warm_of_iff|]. unfold is_warm_of. rewrite Hst. apply andb_false_r.
Qed.

Lemma recycle_all_tends pool b reason now l : ∀ s,
  Inv s → pool_ok cfg pool → listed s l → (∀ st, st ∈ l → warm_of pool b st) →
  let s' := recycle_all has_cleanup s pool l reason now in
  tends (pc_Name pool) b s s' ∧ (∀ id, id ∉ as_ID <$> l → records s' !! id = records s !! id) ∧
  (∀ st, st ∈ l → failed_at s' (as_ID st)) ∧
  warm_held (records s') (pc_Name pool) b = warm_held (records s) (pc_Name pool) b - Z.of_nat (length l).
Proof.
  unfold recycle_all. induction l as [|st l IH]; intros s Hi Hp Hl Hw; cbn [foldl length].
  - split_and!; [by apply tends_frame|done|by intros ? ?%elem_of_nil|lia].
  - destruct (recycle_tends s pool b st reason now Hi Hp) as (Ht & Htouch & Hfail & Hc); [apply Hl; by left|apply Hw; by left|].
    destruct (IH (recycleWarmAllocation has_cleanup s pool st reason now)) as (Ht' & Ho' & Hf' & Hc');
      [apply Ht|done|by eapply listed_touches|by intros st' ?; apply Hw; right|].
    split_and!; [by eapply tends_trans|intros id [Hne Hni]%not_elem_of_cons; by rewrite Ho', Htouch| |lia].
    intros st' [->|Hin]%elem_of_cons; [|by apply Hf']. unfold failed_at. rewrite Ho'; [done|].
    destruct Hl as [Hnd _]. rewrite fmap_cons in Hnd. by apply NoDup_cons in Hnd as [? _].
Qed.
(** *** Creating *)

(** While the provider works, the slot is one without a record. *)
Definition out_with pool b : slot_counts := fun k p b' => out k p b' + (if decide (at_slot pool b k p b') then 1 else 0).

Lemma out_with_nonneg pool b : nonneg (out_with pool b).
Proof. intros k p b'. unfold out_with. pose proof (out_nonneg k p b'). case_decide; lia. Qed.

Lemma owed_out s pool b : owed cfg ids out s pool b ↔ ServiceTheory.Inv cfg ids (out_with pool b) s.
Proof.
  unfold owed, ServiceTheory.Inv, out_with, net.
  split; intros Hl; (eapply ledger_ext; [exact Hl|]); intros k p b'; cbn beta; lia.
Qed.

(** A warm runner of the store is not the record about to be stored. *)
Lemma warm_not_idle s id st : records s !! id = Some st → as_State st = StateWarm → idle ids s id → False.
Proof. intros Ho Hw [Hl _]. rewrite (lane_at_Some _ _ _ Ho) in Hl. unfold lane_of in Hl. by rewrite Hw in Hl. Qed.

(** Nobody else changes a record meanwhile. *)
Definition quiet_env : Prop := ∀ s, records (env_interfere env s) = records s.

(** [n] more warm runners at most, unless somebody else adds some. *)
Definition grows (p : PoolName) b (n : Z) s s' : Prop :=
  quiet_env → warm_held (records s') p b ≤ warm_held (records s) p b + n.

Lemma grows_same p b s s' : records s' = records s → ∀ n, 0 ≤ n → grows p b n s s'.
Proof. intros Hr n Hn _. rewrite Hr. lia. Qed.

Lemma provision_warm_tends s pool b c now : owed cfg ids out s pool b → pool_ok cfg pool →
  let s' := (provision_warm cfg has_cleanup ids env s pool b c now).2 in
  tends (pc_Name pool) b s s' ∧ grows (pc_Name pool) b 1 s s'.
Proof.
  intros Ho Hp. cbn zeta. unfold provision_warm. set (s1 := (newID ids s).2).
  change (newID ids s) with (ids (sv_nextID s), s1). cbv iota beta.
  set (allocation := warm_allocation _ pool b c now).
  assert (Ho1 : owed cfg ids out s1 pool b) by (eapply owed_next; [exact Ho|done|done|cbn; lia]).
  assert (He1 : evolves s s1) by (apply same_records; [done|cbn; lia]).
  assert (Hidle1 : idle ids s1 (as_ID allocation)) by (apply (newID_idle cfg ids ids_inj out); right; by eexists _, _).
  assert (Hsame : ∀ s2 r, owed cfg ids out s2 pool b → evolves s s2 → spares (pc_Name pool) b s s2 →
    grows (pc_Name pool) b 0 s s2 →
    r = release has_cleanup s2 pool b allocation now →
    tends (pc_Name pool) b s r ∧ grows (pc_Name pool) b 1 s r).
  { intros s2 r Ho2 He2 Hs2 Hg2 ->. destruct (owed_release cfg has_cleanup ids out out_nonneg s2 pool b allocation now Ho2) as (Hi3 & He3 & Hr3).
    split; [split_and!; [done|by etrans|]|].
    - intros id st Ho' Hw Hn. rewrite Hr3. by apply Hs2.
    - intros Hq. rewrite Hr3. specialize (Hg2 Hq). lia. }
  destruct (env_provision env b) as [provision|].
  2: { cbn [snd]. eapply Hsame; [exact Ho1|done|by intros id st|by apply grows_same|done]. }
  destruct (interfere_safe s1 (out_with pool b) (out_with_nonneg pool b)) as [Hi2 He2]; [by apply owed_out|].
  set (s2 := env_interfere env s1) in *. apply owed_out in Hi2.
  assert (Hsp2 : spares (pc_Name pool) b s s2) by (intros id st Ho' Hw _; by apply interfere_spares).
  assert (Hg2 : grows (pc_Name pool) b 0 s s2) by (intros Hq; unfold s2; rewrite Hq; change (records s1) with (records s); lia).
  assert (He : evolves s s2) by (by etrans).
  destruct (provision _ allocation) as [runner|err]; cbn [snd].
  - pose proof (recordBackendSuccess_frame s2 pool b now) as Hf. set (s3 := recordBackendSuccess s2 pool b now) in *.
    match goal with |- context [store_Save (sv_store s3) ?a] => set (warm := a) end.
    assert (Hlane : lane_of warm = Some (pc_Name pool, b)) by done.
    assert (Hidle3 : idle ids s3 (as_ID warm)).
    { eapply idle_evolves; [by apply frame_evolves|]. eapply idle_evolves; [exact He2|exact Hidle1]. }
    set (s4 := { s3 with sv_store := (store_Save (sv_store s3) warm).2 }).
    assert (Hi4 : Inv s4) by (by apply (save_owed cfg has_cleanup ids out "" s3 pool b); [by eapply owed_frame|..]).
    assert (Hr4 : records s4 = <[as_ID warm := warm]> (records s3)) by exact (proj2 (save_spec s3 warm)).
    assert (Hr3 : records s3 = records s2) by apply Hf.
    split; [split_and!; [done| |]|].
    + destruct He as [Hn He]. destruct Hf as (_ & _ & Hn3). split; [change (sv_nextID s4) with (sv_nextID s3); lia|].
      intros id st Hx. rewrite Hr4, lookup_insert_Some. intros [[<- <-]|[_ Hst]] Ha; [left; by exists (sv_nextID s)|].
      apply He; [done|by rewrite <- Hr3|done].
    + intros id st Ho' Hw Hn. rewrite Hr4, lookup_insert_ne; [rewrite Hr3; by apply Hsp2|].
      intros <-. by eapply (warm_not_idle s3); [rewrite Hr3; by apply Hsp2| |].
    + intros Hq. rewrite Hr4. pose proof (warm_held_store (records s3) (as_ID warm) warm (pc_Name pool) b). specialize (Hg2 Hq).
      rewrite Hr3 in *. lia.
  - set (r := release has_cleanup s2 pool b allocation now).
    destruct (Hsame s2 r Hi2 He Hsp2 Hg2 eq_refl) as [Ht Hg].
    pose proof (recordBackendFailure_frame r pool b err now) as Hf. split.
    + eapply tends_trans; [exact Ht|]. apply tends_frame; [apply Ht|done].
    + intros Hq. destruct Hf as (-> & _). by apply Hg.
Qed.

Lemma createWarm_tends s pool b now : Inv s → pool_ok cfg pool →
  let s' := (createWarmAllocation cfg has_cleanup ids env s pool b now).2 in
  tends (pc_Name pool) b s s' ∧ grows (pc_Name pool) b 1 s s'.
Proof.
  intros Hi Hp. cbn zeta. unfold createWarmAllocation.
  assert (Hstay : ∀ s', frame s s' → tends (pc_Name pool) b s s' ∧ grows (pc_Name pool) b 1 s s').
  { intros s' Hf. split; [by apply tends_frame|]. apply grows_same; [by destruct Hf|lia]. }
  destruct (pc_Backends pool !! b) as [c|]; [|by apply Hstay]. destruct (validateWarmBackend pool b); [by apply Hstay|].
  match goal with |- context [if ?t then (Some ?e, s) else _] => destruct t; [by apply Hstay|] end.
  match goal with |- context [allow ?a ?sh ?p ?n ?c ?nw ?w ?co] =>
    pose proof (allow_contents a (sv_store s) (sv_store s) p n c nw w co) as Hc; destruct (allow a sh p n c nw w co) as [[decision a'] shared] end.
  cbn [snd] in Hc. cbv zeta.
  set (s1 := { s with sv_admission := a'; sv_store := default (sv_store s) shared }).
  assert (Hf : frame s s1) by (split_and!; [exact Hc|done|done]).
  destruct (negb (ad_Allowed decision)); [by apply Hstay|]. destruct (tierBlockedForWarm cfg s1 pool b); [by apply Hstay|].
  pose proof (reserve_reserves cfg s1 pool { zero_AllocationRequest with ar_Pool := pc_Name pool; ar_Backend := Some b } now) as Hr.
  unfold reserveForBackend. set (request := { zero_AllocationRequest with ar_Pool := pc_Name pool; ar_Backend := Some b }) in *.
  assert (Hgrant : (reserve cfg s1 pool request now).1 = Ok b ∨ ∃ e, (reserve cfg s1 pool request now).1 = Fail e).
  { unfold reserve. cbn [ar_Backend]. change (ar_Backend request) with (Some b). rewrite andb_false_r.
    pose proof (reserveScheduled_granted s1 pool request now) as Hg.
    destruct (reserveScheduled s1 pool request now) as [[b'|e] s2]; [left|right; by eexists]. cbn in Hg |- *.
    destruct (Hg b' eq_refl) as [_ [Hb|[= Hb]]]; [done|by subst]. }
  assert (Hi1 : Inv s1) by (by eapply frame_inv).
  destruct (reserve cfg s1 pool request now) as [[b'|e] s2]; cbn [fst] in Hgrant.
  - destruct Hgrant as [[= ->]|[e He]]; [|done]. rewrite String.eqb_refl. cbn [negb].
    destruct (owed_after_reserve cfg ids out s1 s2 pool b Hi1 Hr) as (Ho2 & _ & Hr2).
    destruct (provision_warm_tends s2 pool b c now Ho2 Hp) as [(Hi3 & He3 & Hs3) Hg3].
    assert (Hrs : records s2 = records s) by (rewrite Hr2; apply Hf). destruct Hr as (_ & Hn & _). cbn in Hn.
    split; [split_and!; [done| |]|].
    + etrans; [|exact He3]. apply same_records; [done|]. destruct Hf as (_ & _ & Hn'). lia.
    + intros id st Ho Hw Hx. apply Hs3; by rewrite ?Hrs.
    + intros Hq. rewrite <- Hrs. by apply Hg3.
  - destruct (inv_after_refusal cfg ids out s1 s2 pool e Hi1 Hr) as (Hi2 & Hr2 & Hn2).
    assert (Hrs : records s2 = records s) by (rewrite Hr2; apply Hf). cbn [snd].
    split; [split_and!; [done| |]|].
    + apply same_records; [done|]. destruct Hf as (_ & _ & Hn'). lia.
    + intros id st Ho _ _. by rewrite Hrs.
    + by apply grows_same.
Qed.

Lemma refill_tends pool b now n : ∀ s, Inv s → pool_ok cfg pool →
  let s' := refill_warm cfg has_cleanup ids env n s pool b now in
  tends (pc_Name pool) b s s' ∧ grows (pc_Name pool) b (Z.of_nat n) s s'.
Proof.
  induction n as [|n IH]; intros s Hi Hp; cbn [refill_warm]; cbn zeta.
  - split; [by apply tends_frame|by apply grows_same].
  - destruct (createWarm_tends s pool b now Hi Hp) as [Ht Hg].
    destruct (createWarmAllocation cfg has_cleanup ids env s pool b now) as [[err|] s1]; cbn [snd] in Ht, Hg.
    + split; [done|]. intros Hq. specialize (Hg Hq). lia.
    + destruct (IH s1) as [Ht' Hg']; [apply Ht|done|]. split; [by eapply tends_trans|].
      intros Hq. specialize (Hg Hq). specialize (Hg' Hq). lia.
Qed.

(** *** One backend *)

Lemma list_filter_iff_elem {A} (P Q : A → Prop) `{∀ x, base.Decision (P x), ∀ x, base.Decision (Q x)} (l : list A) :
  (∀ x, x ∈ l → P x ↔ Q x) → filter P l = filter Q l.
Proof.
  induction l as [|x l IH]; intros He; [done|]. rewrite !filter_cons.
  assert (P x ↔ Q x) by (apply He; left). rewrite IH by (intros; apply He; by right). repeat case_decide; tauto || done.
Qed.

Lemma in_warm statuses pool b st :
  st ∈ filterWarmAllocations statuses (pc_Name pool) b ↔ st ∈ statuses ∧ warm_of pool b st.
Proof. unfold filterWarmAllocations. rewrite list_elem_of_filter, warm_of_iff. tauto. Qed.

Lemma listed_filter s (P : AllocationStatus → Prop) `{∀ st, base.Decision (P st)} l : listed s l → listed s (filter P l).
Proof.
  intros [Hnd Hin]. split; [|intros st [_ ?]%list_elem_of_filter; by apply Hin].
  eapply sublist_NoDup; [exact Hnd|]. by apply fmap_sublist, sublist_filter.
Qed.

Lemma listed_perm s l l' : l ≡ₚ l' → listed s l → listed s l'.
Proof. intros Hp [Hnd Hin]. split; [by rewrite <- Hp|]. intros st Hst. apply Hin. by rewrite Hp. Qed.

Lemma listed_drop s n l : listed s l → listed s (drop n l).
Proof.
  intros [Hnd Hin]. split; [|intros st Hst; apply Hin; eapply elem_of_sublist; [exact Hst|apply sublist_drop]].
  rewrite fmap_drop. eapply sublist_NoDup; [exact Hnd|]. apply sublist_drop.
Qed.

(** Expired runners and those above the maximum go; the list returned is what is left, when the snapshot was current. *)
Lemma trim_tends s pool b warm ttl warmMax now :
  Inv s → pool_ok cfg pool → listed s warm → (∀ st, st ∈ warm → warm_of pool b st) →
  let '(s', kept) := trim_warm has_cleanup s pool b warm ttl warmMax now in
  tends (pc_Name pool) b s s' ∧ Z.of_nat (length kept) ≤ Z.max 0 warmMax ∧
  (warm = filterWarmAllocations (store_List (sv_store s)) (pc_Name pool) b →
   warm_held (records s') (pc_Name pool) b = Z.of_nat (length kept)).
Proof.
  intros Hi Hp Hl Hw. unfold trim_warm. set (expired := filter _ (sortWarmByExpiration warm)).
  pose proof (sort_stable_perm warm_less warm) as Hperm. fold (sortWarmByExpiration warm) in Hperm.
  assert (Hl1 : listed s expired) by (by eapply listed_filter, listed_perm; [symmetry; exact Hperm|]).
  destruct (recycle_all_tends pool b "warm allocation expired" now expired s Hi Hp Hl1) as (Ht1 & Ho1 & Hf1 & Hc1).
  { intros st [_ Hst]%list_elem_of_filter. rewrite Hperm in Hst. by apply Hw. }
  set (s1 := recycle_all has_cleanup s pool expired _ now) in *. set (fresh := filterFreshWarm _ _ _ _ _).
  pose proof (listed_store cfg ids out s1 (proj1 Ht1)) as Hstore.
  assert (Hfresh : ∀ st, st ∈ fresh → warm_of pool b st).
  { intros st [Hx _]%list_elem_of_filter. apply andb_true_iff in Hx as [Hx _]. by apply warm_of_iff. }
  assert (Hl2 : listed s1 (drop (Z.to_nat warmMax) fresh)) by (by apply listed_drop, listed_filter).
  destruct (recycle_all_tends pool b "warm pool at max capacity" now _ s1 (proj1 Ht1) Hp Hl2) as (Ht2 & _ & _ & Hc2).
  { intros st Hst. apply Hfresh. eapply elem_of_sublist; [exact Hst|apply sublist_drop]. }
  split_and!; [by eapply tends_trans|rewrite length_take; lia|]. intros Hwarm.
  rewrite Hc2, length_drop, length_take.
  assert (Hall : fresh = filterWarmAllocations (store_List (sv_store s1)) (pc_Name pool) b).
  { unfold fresh, filterFreshWarm, filterWarmAllocations. apply list_filter_iff_elem. intros st Hst.
    rewrite andb_true_iff, negb_true_iff. split; [by intros []|]. intros Hx. split; [done|].
    destruct (isWarmExpired st now ttl) eqn:Hexp; [|done]. exfalso. apply warm_of_iff in Hx.
    destruct Hstore as [_ Hstore]. pose proof (Hstore st Hst) as Ho.
    destruct (decide (as_ID st ∈ as_ID <$> expired)) as [Hin|Hni].
    - apply list_elem_of_fmap in Hin as (st' & He & Hin'). destruct (Hf1 st' Hin') as (st2 & Ho2 & Hst2).
      rewrite <- He, Ho in Ho2. injection Ho2 as <-. destruct Hx as [Hx _]. congruence.
    - apply Hni. apply list_elem_of_fmap_2. apply list_elem_of_filter. split; [done|]. rewrite Hperm, Hwarm. apply in_warm. split; [|done].
      rewrite Ho1 in Ho by done. rewrite (list_law (sv_store s)). apply list_elem_of_fmap. exists (as_ID st, st).
      split; [done|]. by apply elem_of_map_to_list. }
  pose proof (warm_listed (sv_store s1) (pc_Name pool) b) as Hc. rewrite <- Hall in Hc. unfold records. lia.
Qed.

(** The most warm runners the configuration allows now. *)
Definition warm_limit s pool b c now : Z :=
  if negb (usable c) || tierBlockedForWarm cfg s pool b then 0 else Z.max 0 (warm_bounds zone c now).2.

Lemma normalizeWarmTarget_le min max maxRunners : normalizeWarmTarget min max maxRunners ≤ Z.max 0 max.
Proof. unfold normalizeWarmTarget. repeat case_match; reflect_bools; lia. Qed.

Lemma warm_missing_le s pool b c warmMin warmMax count : 0 ≤ count →
  count + Z.of_nat (Z.to_nat (warm_missing cfg s pool b c warmMin warmMax count)) ≤ Z.max count (Z.max 0 warmMax).
Proof.
  intros Hc. unfold warm_missing. pose proof (normalizeWarmTarget_le warmMin warmMax (bc_MaxRunners c)).
  repeat case_match; reflect_bools; lia.
Qed.

Lemma reconcileBackend_tends s pool b c statuses now :
  Inv s → pool_ok cfg pool → listed s (filterWarmAllocations statuses (pc_Name pool) b) →
  let s' := reconcileWarmForBackend cfg has_cleanup ids zone env s pool b c statuses now in
  tends (pc_Name pool) b s s' ∧
  (statuses = store_List (sv_store s) → quiet_env → warm_held (records s') (pc_Name pool) b ≤ warm_limit s pool b c now).
Proof.
  intros Hi Hp Hl. cbn zeta. unfold reconcileWarmForBackend, warm_limit.
  destruct (warm_bounds zone c now) as [warmMin warmMax]. cbn [snd]. set (warm := filterWarmAllocations _ _ _) in *.
  assert (Hw : ∀ st, st ∈ warm → warm_of pool b st) by (by intros st [_ Hst]%in_warm).
  assert (Hall : ∀ reason, let s' := recycle_all has_cleanup s pool warm reason now in
    tends (pc_Name pool) b s s' ∧ (statuses = store_List (sv_store s) → warm_held (records s') (pc_Name pool) b = 0)).
  { intros reason. destruct (recycle_all_tends pool b reason now warm s Hi Hp Hl Hw) as (Ht & _ & _ & Hc). split; [done|].
    intros Hs. rewrite Hc. unfold warm. rewrite Hs, (warm_listed (sv_store s)). unfold records. lia. }
  destruct (negb (usable c)); cbn [orb]; [|destruct (warmMax <=? 0) eqn:Hmax; [|destruct (tierBlockedForWarm cfg s pool b)]].
  1-3: match goal with |- context [recycle_all _ _ _ _ ?reason _] => destruct (Hall reason) as [Ht Hz] end; split; [exact Ht|]; intros Hs _; rewrite (Hz Hs); repeat case_match; lia.
  pose proof (trim_tends s pool b warm (resolveWarmTTL c) warmMax now Hi Hp Hl Hw) as Htrim.
  destruct (trim_warm _ _ _ _ _ _ _ _) as [s1 kept]. destruct Htrim as (Ht1 & Hle & Hc1).
  set (missing := Z.to_nat _). destruct (refill_tends pool b now missing s1 (proj1 Ht1) Hp) as [Ht2 Hg2].
  split; [by eapply tends_trans|]. intros Hs Hq. specialize (Hg2 Hq). rewrite Hc1 in Hg2 by (unfold warm; by rewrite Hs).
  pose proof (warm_missing_le s1 pool b c warmMin warmMax (Z.of_nat (length kept)) ltac:(lia)) as Hm. fold missing in Hm.
  reflect_bools. lia.
Qed.

(** *** The whole pass *)

(** Warm runners of pools or backends other than those still to be visited stay. *)
Lemma pool_pass_tends pool statuses now l : ∀ s,
  Inv s → pool_ok cfg pool → NoDup (l.*1) → NoDup (as_ID <$> statuses) →
  (∀ st, st ∈ statuses → as_State st = StateWarm → as_Pool st = pc_Name pool → as_SelectedBackend st ∈ l.*1 →
     records s !! as_ID st = Some st) →
  let s' := foldl (fun s '(backendName, c) =>
    if negb (isWarmProvisionableBackend backendName) then s
    else reconcileWarmForBackend cfg has_cleanup ids zone env s pool backendName c statuses now) s l in
  Inv s' ∧ evolves s s' ∧
  ∀ id st, records s !! id = Some st → as_State st = StateWarm → as_Pool st ≠ pc_Name pool → records s' !! id = Some st.
Proof.
  induction l as [|[b c] l IH]; intros s Hi Hp Hnd Hst Hin; cbn [foldl]; [done|].
  cbn in Hnd. apply NoDup_cons in Hnd as [Hni Hnd].
  set (s1 := if negb (isWarmProvisionableBackend b) then s else _).
  assert (Ht : tends (pc_Name pool) b s s1).
  { subst s1. destruct (negb _); [by apply tends_frame|]. apply reconcileBackend_tends; [done|done|]. split.
    - eapply sublist_NoDup; [exact Hst|]. by apply fmap_sublist, sublist_filter.
    - intros st (Hs & Hw & Hpl & Hb)%in_warm. apply Hin; [done..|]. rewrite Hb. by left. }
  destruct Ht as (Hi1 & He1 & Hs1). destruct (IH s1 Hi1 Hp Hnd Hst) as (Hi2 & He2 & Hs2).
  - intros st Hs Hw Hpl Hb. apply Hs1; [by apply Hin; [..|right]|done|]. unfold is_warm_of.
    destruct (String.eqb_spec (as_SelectedBackend st) b) as [He|]; [destruct Hni; by rewrite <- He|]. by rewrite andb_false_r.
  - split_and!; [done|by etrans|]. intros id st Ho Hw Hpl. apply Hs2; [|done|done]. apply Hs1; [done|done|].
    unfold is_warm_of. by destruct (String.eqb_spec (as_Pool st) (pc_Name pool)).
Qed.

Lemma pass_tends statuses now l : ∀ s,
  Inv s → (∀ pool, pool ∈ l → pool_ok cfg pool) → NoDup (pc_Name <$> l) → NoDup (as_ID <$> statuses) →
  (∀ st, st ∈ statuses → as_State st = StateWarm → as_Pool st ∈ pc_Name <$> l → records s !! as_ID st = Some st) →
  let s' := foldl (fun s pool => reconcileWarmForPool cfg has_cleanup ids zone env s pool statuses now) s l in
  Inv s' ∧ evolves s s'.
Proof.
  induction l as [|pool l IH]; intros s Hi Hp Hnd Hst Hin; cbn [foldl]; [done|].
  rewrite fmap_cons in Hnd. apply NoDup_cons in Hnd as [Hni Hnd].
  destruct (pool_pass_tends pool statuses now (range (pc_Backends pool)) s Hi) as (Hi1 & He1 & Hs1).
  - apply Hp. by left.
  - rewrite range_perm. apply NoDup_fst_map_to_list.
  - done.
  - intros st Hs Hw Hpl _. apply Hin; [done|done|]. rewrite fmap_cons, Hpl. by left.
  - destruct (IH (reconcileWarmForPool cfg has_cleanup ids zone env s pool statuses now)) as (Hi2 & He2); [done| |done|done| |].
    + intros p ?. apply Hp. by right.
    + intros st Hs Hw Hpl. apply Hs1; [apply Hin; [done|done|by rewrite fmap_cons; right]|done|]. by intros Heq; apply Hni; rewrite <- Heq.
    + split; [exact Hi2|by etrans].
Qed.

Lemma ReconcileWarmPools_tends s now : Inv s → pools_named cfg →
  let s' := ReconcileWarmPools cfg has_cleanup ids zone env s now in Inv s' ∧ evolves s s'.
Proof.
  intros Hi Hc. cbn zeta. unfold ReconcileWarmPools. destruct (sv_draining s); [done|].
  destruct (listed_store cfg ids out s Hi) as [Hnd Hin].
  apply pass_tends; [done|by intros; apply configured_pool_ok|apply Hc|done|by intros; apply Hin].
Qed.
End WarmPool.
