(* ===== verification/RestartTheory.v ===== *)
(** Theorems of the restart path: it ends half-made reservations, and gives
    every record it makes its slot. *)

From S2P Require Import Prelude Errors Model Store StoreTheory Scheduler SchedulerTheory FairShare FairShareTheory.
From S2P Require Import Registry Backends Budget Capacity Admission Warm JobRetry TierPolicy ServicePolicy Service.
From S2P Require Import ServiceFilters ServiceTheory Allocate AllocateTheory Reconcile Restart WarmPoolTheory.
From stdpp Require Import pretty.
Open Scope Z_scope.
Open Scope go_scope.

(** ** Identifiers of holds *)

Definition dash : ascii := ascii_of_nat 45.

Fixpoint dashless (s : string) : Prop :=
  match s with EmptyString => True | String c s => c ≠ dash ∧ dashless s end.

Lemma pretty_digit_dash x : pretty_N_char x ≠ dash.
Proof. unfold pretty_N_char. repeat case_match; done. Qed.

Lemma pretty_dashless (i : nat) : dashless (pretty i).
Proof.
  change (pretty i) with (pretty (N.of_nat i)). unfold pretty, pretty_N. case_decide; [done|].
  assert (∀ x s, dashless s → dashless (pretty_N_go x s)) as Hgo; [|by apply Hgo].
  intros x. induction (N.lt_wf_0 x) as [x _ IH]. intros s Hs. destruct (decide (0 < x)%N) as [Hx|Hx].
  - rewrite pretty_N_go_step by done. apply IH; [|by split; [apply pretty_digit_dash|]]. apply N.div_lt; lia.
  - assert (x = 0%N) as -> by lia. done.
Qed.

Lemma dash_split a b d e : dashless d → dashless e → a +:+ String dash d = b +:+ String dash e → a = b ∧ d = e.
Proof.
  intros Hd He. revert b. induction a as [|c a IH]; intros [|c' b]; cbn; intros Heq.
  - by injection Heq as ->.
  - injection Heq as <- ->. exfalso. clear -Hd. induction b as [|c b IH]; cbn in Hd; [by destruct Hd as [? _]|].
    apply IH, Hd.
  - injection Heq as -> <-. exfalso. clear -He. induction a as [|c a IH]; cbn in He; [by destruct He as [? _]|].
    apply IH, He.
  - injection Heq as -> Heq. destruct (IH b Heq) as [-> ->]. done.
Qed.

Lemma hold_id_inj b b' i j : hold_id b i = hold_id b' j → b = b' ∧ i = j.
Proof.
  unfold hold_id. intros Heq.
  assert (Hd : ∀ b i, "restart-orphan-" +:+ b +:+ "-" +:+ pretty (i : nat) = ("restart-orphan-" +:+ b) +:+ String dash (pretty i)).
  { intros b0 i0. change ("-" +:+ pretty i0) with (String dash (pretty i0)). generalize "restart-orphan-" as p. induction p as [|c p IH]; cbn; [done|exact (f_equal (String c) IH)]. }
  rewrite !Hd in Heq. apply dash_split in Heq as [Hb Hi]; [|apply pretty_dashless..]. split.
  - by simplify_eq.
  - by apply (inj pretty) in Hi.
Qed.

(** ** The restart *)

Section Restart.
Context `{GoRange} `{QualityRanker} {S : Type} `{!AllocationStore S, !AdmissionStateStore S, !ReliableStore S}.
Context (cfg : BrokerConfig) (has_cleanup : BackendName → bool) (ids : nat → string).
Context (drivers : BackendName → option Driver).
Implicit Types (s : Service S) (pool : PoolConfig) (now : Time) (b : BackendName).

Local Notation Inv := (Inv cfg ids (fun _ _ _ => 0)).
Local Notation owed := (owed cfg ids (fun _ _ _ => 0)).

(** New or changed records satisfy [P]. *)
Definition grown (P : string → AllocationStatus → Prop) s s' : Prop :=
  ∀ id st, records s' !! id = Some st → records s !! id = Some st ∨ P id st.

#[local] Instance grown_preorder P : PreOrder (grown P).
Proof. split; [by intros s id st; left|]. intros s1 s2 s3 H12 H23 id st Ho. destruct (H23 _ _ Ho) as [Ho'|?]; [by apply H12|by right]. Qed.

Lemma grown_same P s s' : records s' = records s → grown P s s'.
Proof. intros Hr id st. rewrite Hr. by left. Qed.

Lemma grown_put (P : string → AllocationStatus → Prop) s s' id st :
  records s' = <[id := st]> (records s) → P id st → grown P s s'.
Proof. intros Hr HP id' st'. rewrite Hr, lookup_insert_Some. intros [[<- <-]|[_ Ho]]; [by right|by left]. Qed.

Lemma store_put s status : records { s with sv_store := (store_Save (sv_store s) status).2 } = <[as_ID status := status]> (records s).
Proof. exact (proj2 (save_spec s status)). Qed.

(** *** Reservations a crash left half made *)

Lemma incomplete_as_unaccounted now : isSchedulerAccountedState (incomplete_as cfg now).1.1 = false.
Proof. unfold incomplete_as. by case_match. Qed.

Lemma relabel_keeps st : as_ID (relabel st) = as_ID st ∧ lane_of (relabel st) = lane_of st ∧ as_State (relabel st) = as_State st ∧
  as_Pool (relabel st) = as_Pool st ∧ as_SelectedBackend (relabel st) = as_SelectedBackend st.
Proof. unfold relabel. by case_match. Qed.

Lemma terminalize_one_spec now acc st : Inv acc.2 → records acc.2 !! as_ID st = Some st →
  let s' := (terminalize_one cfg has_cleanup now acc st).2 in
  Inv s' ∧ ∃ st', records s' = <[as_ID st := st']> (records acc.2) ∧ incomplete st' = false.
Proof.
  destruct acc as [n s]. cbn [snd]. intros Hi Ho. cbn zeta. unfold terminalize_one.
  destruct (incomplete st) eqn:Hin; cbn [negb]; [|split; [done|]; exists st; by rewrite insert_id].
  assert (Hst : as_State st = StateReserved).
  { unfold incomplete, state_eqb in Hin. reflect_bools. by destruct_and?. }
  destruct (relabel_keeps st) as (Hid & Hlane & Hrs & Hrp & Hrb). set (st1 := relabel st) in *. cbv zeta.
  pose proof (incomplete_as_unaccounted now) as Hun. destruct (incomplete_as cfg now) as [[state at_] message]. cbn in Hun.
  destruct (save_spec s st1) as [He Hc]. destruct (store_Save (sv_store s) st1) as [err s1st]. cbn in He, Hc. subst err.
  set (s1 := { s with sv_store := s1st }). rewrite Hid in Hc.
  assert (Hs1 : stored s s1 (as_ID st) st1) by (split_and!; [exact Hc|done|done]).
  destruct (keep_safe cfg ids s s1 (as_ID st) st1) with (out := fun (_ : scheduler_kind) (_ : PoolName) (_ : BackendName) => 0) as [Hi1 _];
    [by eapply known_stored|done|by rewrite (lane_at_Some _ _ _ Ho)|by intros old Ho' _; left; congruence|done|done|done|].
  assert (Ho1 : records s1 !! as_ID st = Some st1) by (destruct Hs1 as (-> & _); apply lookup_insert_eq).
  destruct (reliable_mark (sv_store s1) (as_ID st1) state at_ message) as [Hr Hm]. revert Hr Hm. store_op Memory.MarkState.
  rewrite Hid. pose proof (Ho1 : contents s1st !! as_ID st = Some st1) as Ho1'.
  destruct (store_MarkState _ _ _ _ _) as [marked s2st]. rewrite Ho1'. cbn. intros -> Hm.
  set (s2 := { s1 with sv_store := s2st }). set (gone := applyMarkState st1 state at_ message) in *.
  assert (Hs2 : stored s1 s2 (as_ID st) gone) by (split_and!; [exact Hm|done|done]).
  assert (Ha : isSchedulerAccountedState (as_State st1) = true) by (by rewrite Hrs, Hst).
  assert (Hgone : incomplete gone = false).
  { unfold incomplete. destruct (applyMarkState_lane st1 state at_ message) as (Hg & _). fold gone in Hg. rewrite Hg. by destruct state. }
  assert (Hrec : records s2 = <[as_ID st := gone]> (records s)).
  { destruct Hs2 as (-> & _), Hs1 as (-> & _). by rewrite insert_insert_eq. }
  destruct (resolvePool cfg (as_Pool st1)) as [pool|err] eqn:Hp.
  - destruct (unaccount_release cfg has_cleanup ids s1 s2 (as_ID st) st1 state at_ message Ho1 Hun Hs2 pool pool st1 now Ha Hp)
      with (out := fun (_ : scheduler_kind) (_ : PoolName) (_ : BackendName) => 0) as [Hi2 _]; [done|done|done|].
    split; [exact Hi2|]. exists gone. split; [|done]. rewrite <- Hrec. apply release_frame.
  - destruct (unaccount_unknown cfg ids s1 s2 (as_ID st) st1 state at_ message Ho1 Hun Hs2 err Hp)
      with (out := fun (_ : scheduler_kind) (_ : PoolName) (_ : BackendName) => 0) as [Hi2 _]; [done|done|].
    split; [exact Hi2|]. by exists gone.
Qed.

Lemma terminalize_fold now l : ∀ acc, Inv acc.2 → listed acc.2 l →
  let s' := (foldl (terminalize_one cfg has_cleanup now) acc l).2 in
  Inv s' ∧ (∀ id, records acc.2 !! id = None → id ∉ as_ID <$> l → records s' !! id = None) ∧
  ∀ id st, records s' !! id = Some st → incomplete st = false ∨ (id ∉ as_ID <$> l ∧ records acc.2 !! id = Some st).
Proof.
  induction l as [|st l IH]; intros acc Hi Hl; cbn [foldl].
  - split_and!; [done|done|]. intros id st Ho. right. split; [apply not_elem_of_nil|done].
  - assert (Ho : records acc.2 !! as_ID st = Some st) by (apply Hl; left).
    destruct (terminalize_one_spec now acc st Hi Ho) as (Hi1 & st' & Hr & Hin).
    destruct (IH (terminalize_one cfg has_cleanup now acc st) Hi1) as (Hi2 & Hnone & Hrest).
    { eapply listed_touches; [exact Hl|]. intros id Hne. by rewrite Hr, lookup_insert_ne. }
    split_and!; [done| |].
    + intros id Hid [Hne Hni]%not_elem_of_cons. apply Hnone; [|done]. by rewrite Hr, lookup_insert_ne.
    + intros id st2 Ho2. destruct (Hrest id st2 Ho2) as [?|[Hni Hacc]]; [by left|].
      rewrite Hr, lookup_insert_Some in Hacc. destruct Hacc as [[<- <-]|[Hne Hacc]]; [by left|]. right.
      split; [|done]. by apply not_elem_of_cons.
Qed.
(** *** A slot and its record *)

Lemma none_nonneg : nonneg (fun _ _ _ => 0).
Proof. by intros ???. Qed.

Lemma reserve_grants_pinned s pool b tenant now b' :
  (reserve cfg s pool (pinned_request pool b tenant) now).1 = Ok b' → b' = b.
Proof.
  unfold reserve, pinned_request. cbn [ar_Backend]. rewrite andb_false_r.
  intros Hr. by destruct (reserveScheduled_granted _ _ _ _ _ Hr) as [_ [?|[= ->]]].
Qed.

(** Reserving a pinned slot, and saving a record for it under an unused identifier. *)
Lemma reserve_and_save s pool b tenant now status s1 b' :
  Inv s → pool_ok cfg pool → reserve cfg s pool (pinned_request pool b tenant) now = (Ok b', s1) →
  records s !! as_ID status = None → known ids (sv_nextID s) (as_ID status) → lane_of status = Some (pc_Name pool, b) →
  records s1 = records s ∧ Inv { s1 with sv_store := (store_Save (sv_store s1) status).2 }.
Proof.
  intros Hi Hp Hres Hno Hk Hlane. pose proof (reserve_reserves cfg s pool (pinned_request pool b tenant) now) as Hr.
  pose proof (reserve_grants_pinned s pool b tenant now b') as Hb. rewrite Hres in Hr, Hb. specialize (Hb eq_refl). subst b'.
  destruct (owed_after_reserve cfg ids _ s s1 pool b Hi Hr) as (Ho & _ & Hrec). split; [done|].
  eapply (save_owed cfg has_cleanup ids _ "" s1 pool b); [exact Ho|done| |done]. split.
  - rewrite Hrec. by apply lane_at_None.
  - destruct Hr as (_ & Hn & _). cbn in Hn. by rewrite Hn.
Qed.

Lemma reserve_refused s pool b tenant now s1 e :
  Inv s → reserve cfg s pool (pinned_request pool b tenant) now = (Fail e, s1) → Inv s1 ∧ records s1 = records s ∧ sv_nextID s1 = sv_nextID s.
Proof.
  intros Hi Hres. pose proof (reserve_reserves cfg s pool (pinned_request pool b tenant) now) as Hr. rewrite Hres in Hr.
  by apply (inv_after_refusal cfg ids _ s s1 pool e Hi Hr).
Qed.

(** *** Live runners *)

(** The providers know no identifier this broker is still going to draw. *)
Definition runners_known (next : nat) : Prop :=
  ∀ b ask pool runners runner, drivers b ≫= dr_LiveRunners = Some ask → ask pool = Ok runners → runner ∈ runners →
    known ids next (lr_AllocationID runner).

Definition slotted (_ : string) (st : AllocationStatus) : Prop :=
  isSchedulerAccountedState (as_State st) = true ∧ incomplete st = false.

(** What a step of the restart does: the ledger holds, no identifier is drawn, records are added. *)
Definition restarts (P : string → AllocationStatus → Prop) s s' : Prop :=
  Inv s' ∧ sv_nextID s' = sv_nextID s ∧ grown P s s'.

Lemma restarts_refl P s : Inv s → restarts P s s.
Proof. intros Hi. split; [done|]. split; [done|by intros id st; left]. Qed.

Lemma restarts_trans P s1 s2 s3 : restarts P s1 s2 → restarts P s2 s3 → restarts P s1 s3.
Proof. intros (_ & Hn & Hg) (Hi & Hn' & Hg'). split_and!; [done|congruence|by etrans]. Qed.

Lemma fold_restarts P next {A B} (f : B * Service S → A → B * Service S) (l : list A) :
  (∀ acc x, x ∈ l → Inv acc.2 → sv_nextID acc.2 = next → restarts P acc.2 (f acc x).2) →
  ∀ acc, Inv acc.2 → sv_nextID acc.2 = next → restarts P acc.2 (foldl f acc l).2.
Proof.
  induction l as [|x l IH]; intros Hf acc Hi Hn; cbn [foldl]; [by apply restarts_refl|].
  assert (H1 : restarts P acc.2 (f acc x).2) by (apply Hf; [by left|done|done]).
  eapply restarts_trans; [exact H1|]. destruct H1 as (Hi1 & Hn1 & _).
  apply IH; [intros acc' y Hy; apply Hf; by right|done|congruence].
Qed.

Lemma rebuild_one_restarts b now acc runner : Inv acc.2 → known ids (sv_nextID acc.2) (lr_AllocationID runner) →
  restarts slotted acc.2 (rebuild_one cfg has_cleanup b now acc runner).2.
Proof.
  destruct acc as [n s]. cbn [snd]. intros Hi Hk. unfold rebuild_one. rewrite get_records.
  destruct (records s !! lr_AllocationID runner) as [st|] eqn:Ho; [by apply restarts_refl|].
  destruct (resolvePool cfg (lr_Pool runner)) as [pool|] eqn:Hp; [|by apply restarts_refl].
  case_bool_decide; [|by apply restarts_refl]. unfold rebuildLiveRunner. set (status := rebuilt_status cfg pool b runner now).
  assert (Hpool : pool_ok cfg pool) by (exists pool; split; [by eapply resolvePool_self|done]).
  destruct (reserve cfg s pool (pinned_request pool b "") now) as [[b'|e] s1] eqn:Hres.
  - destruct (reserve_and_save s pool b "" now status s1 b' Hi Hpool Hres Ho Hk eq_refl) as [Hr1 Hi2].
    pose proof (reserve_reserves cfg s pool (pinned_request pool b "") now) as Hr. rewrite Hres in Hr. destruct Hr as (_ & Hn & _).
    destruct (save_spec s1 status) as [He Hc]. destruct (store_Save (sv_store s1) status) as [err st2]. cbn in He, Hc, Hi2, Hn |- *.
    subst err. cbn [snd]. split; [done|]. split; [done|]. apply (grown_put slotted s _ (as_ID status) status); [|by split].
    rewrite <- Hr1. exact Hc.
  - destruct (reserve_refused s pool b "" now s1 e Hi Hres) as (Hi1 & Hr1 & Hn1). cbn [snd].
    split; [done|]. split; [done|by apply grown_same].
Qed.

Lemma rebuild_restarts s now : Inv s → runners_known (sv_nextID s) →
  restarts slotted s (rebuildFromLiveRunners cfg has_cleanup drivers s now).2.
Proof.
  intros Hi Hk. unfold rebuildFromLiveRunners. set (next := sv_nextID s) in *.
  apply (fold_restarts slotted next) with (acc := (0, s)); [|done|done]. intros acc [pool b] _ Hia Hn. unfold rebuild_backend.
  destruct (drivers b ≫= dr_LiveRunners) as [ask|] eqn:Hd; [|by apply restarts_refl].
  destruct (ask pool) as [runners|] eqn:Hask; [|by apply restarts_refl].
  apply (fold_restarts slotted next); [|done|done]. intros acc' runner Hin Hi' Hn'. apply rebuild_one_restarts; [done|].
  rewrite Hn'. by eapply Hk.
Qed.
(** *** Holds *)

Definition hold_of b (id : string) (st : AllocationStatus) : Prop := (∃ i, id = hold_id b i) ∧ incomplete st = false.

Hypothesis holds_foreign : ∀ b i n, ids n ≠ hold_id b i.

Lemma hold_known next b i : known ids next (hold_id b i).
Proof. intros n _ Heq. by destruct (holds_foreign b i n). Qed.

(** The holds of [b] numbered in [l] that the store has hold a slot. *)
Definition live_holds s b (l : list nat) : Prop :=
  ∀ i st, i ∈ l → records s !! hold_id b i = Some st → isSchedulerAccountedState (as_State st) = true.

Lemma is_hold_new pool b i now : is_hold (new_hold cfg pool b i now) = true.
Proof. reflexivity. Qed.

Lemma is_hold_refreshed st now : is_hold (refreshed_hold cfg st now) = true.
Proof.
  unfold is_hold. change (as_Metadata (refreshed_hold cfg st now)) with
    (<[restartOrphanHoldMetadataKey := restartOrphanHoldMetadataVal]> (as_Metadata st)). by rewrite map_read_insert_eq.
Qed.

Lemma hold_complete st : is_hold st = true → incomplete st = false.
Proof. unfold incomplete. intros ->. apply andb_false_r. Qed.

Lemma create_hold_restarts pool b now acc i :
  Inv acc.2 → pool_ok cfg pool → live_holds acc.2 b [i] →
  restarts (fun id st => id = hold_id b i ∧ incomplete st = false) acc.2 (create_hold cfg has_cleanup pool b now acc i).2.
Proof.
  destruct acc as [n s]. cbn [snd]. intros Hi Hp Hlive. unfold create_hold. rewrite get_records.
  destruct (records s !! hold_id b i) as [st|] eqn:Ho.
  - pose proof (led_ids _ _ _ _ _ Hi _ _ Ho) as Hid. specialize (Hlive i st (list_elem_of_here _ _) Ho).
    set (refreshed := refreshed_hold cfg st now). cbn [snd].
    assert (Hr : records { s with sv_store := (store_Save (sv_store s) refreshed).2 } = <[hold_id b i := refreshed]> (records s)).
    { rewrite store_put. change (as_ID refreshed) with (as_ID st). by rewrite Hid. }
    split_and!; [|done|].
    + unfold ServiceTheory.Inv. rewrite Hr. apply (ledger_keep cfg ids _ (records s) (sv_nextID s)); [exact Hi|apply hold_known|exact Hid|].
      rewrite (lane_at_Some _ _ _ Ho). unfold lane_of. by rewrite Hlive.
    + eapply grown_put; [exact Hr|]. split; [done|]. apply hold_complete, is_hold_refreshed.
  - set (hold := new_hold cfg pool b i now).
    destruct (reserve cfg s pool (pinned_request pool b (as_Tenant hold)) now) as [[b'|e] s1] eqn:Hres.
    + destruct (reserve_and_save s pool b (as_Tenant hold) now hold s1 b' Hi Hp Hres Ho (hold_known _ b i) eq_refl) as [Hr1 Hi2].
      pose proof (reserve_reserves cfg s pool (pinned_request pool b (as_Tenant hold)) now) as Hr. rewrite Hres in Hr. destruct Hr as (_ & Hn & _).
      destruct (save_spec s1 hold) as [He Hc]. destruct (store_Save (sv_store s1) hold) as [err st2]. cbn in He, Hc, Hi2, Hn |- *.
      subst err. cbn [snd]. split; [done|]. split; [done|]. apply (grown_put _ s _ (hold_id b i) hold).
      * rewrite <- Hr1. exact Hc.
      * split; [done|]. apply hold_complete, is_hold_new.
    + destruct (reserve_refused s pool b (as_Tenant hold) now s1 e Hi Hres) as (Hi1 & Hr1 & Hn1).
      destruct (oc_Enabled _); cbn [snd]; [|split; [done|]; split; [done|by apply grown_same]].
      set (marker := unslotted_hold cfg hold now).
      assert (Hr : records { s1 with sv_store := (store_Save (sv_store s1) marker).2 } = <[hold_id b i := marker]> (records s1))
        by apply store_put.
      split; [|split; [done|]].
      * unfold ServiceTheory.Inv. rewrite Hr. apply (ledger_keep cfg ids _ (records s1) (sv_nextID s1)); [exact Hi1|apply hold_known|done|].
        by rewrite Hr1, lane_at_None.
      * apply (grown_put _ s _ (hold_id b i) marker); [by rewrite Hr, Hr1|done].
Qed.

Lemma create_holds_restarts pool b now l : ∀ acc,
  Inv acc.2 → pool_ok cfg pool → NoDup l → live_holds acc.2 b l →
  restarts (hold_of b) acc.2 (foldl (create_hold cfg has_cleanup pool b now) acc l).2.
Proof.
  induction l as [|i l IH]; intros acc Hi Hp Hnd Hlive; cbn [foldl]; [by apply restarts_refl|].
  apply NoDup_cons in Hnd as [Hni Hnd].
  destruct (create_hold_restarts pool b now acc i Hi Hp) as (Hi1 & Hn1 & Hg1).
  { intros j st ->%list_elem_of_singleton. apply Hlive. by left. }
  destruct (IH (create_hold cfg has_cleanup pool b now acc i) Hi1 Hp Hnd) as (Hi2 & Hn2 & Hg2).
  { intros j st Hj Ho. destruct (Hg1 _ _ Ho) as [Ho'|[Heq _]]; [by eapply Hlive; [right|]|].
    apply hold_id_inj in Heq as [_ ->]. done. }
  split; [done|]. split; [congruence|]. etrans; [|exact Hg2]. intros id st Ho.
  destruct (Hg1 _ _ Ho) as [?|[-> ?]]; [by left|right]. split; [by eexists|done].
Qed.

(** *** Backends visited *)

Lemma visited_spec keep : NoDup ((visited cfg keep).*2) ∧ ∀ entry, entry ∈ visited cfg keep → entry.1 ∈ bk_Pools cfg.
Proof.
  unfold visited. assert (Hentries : ∀ e, e ∈ pool_entries cfg → e.1.1 ∈ bk_Pools cfg).
  { intros e. unfold pool_entries. intros (pool & Hpool & Hin)%list_elem_of_bind. by apply list_elem_of_fmap in Hpool as (entry & -> & _). }
  assert (Hfold : ∀ l acc, (∀ e, e ∈ l → e.1.1 ∈ bk_Pools cfg) → NoDup (acc.2.*2) → (∀ b, b ∈ acc.2.*2 → b ∈ acc.1) →
    (∀ e, e ∈ acc.2 → e.1 ∈ bk_Pools cfg) →
    let acc' := foldl (visit keep) acc l in NoDup (acc'.2.*2) ∧ ∀ e, e ∈ acc'.2 → e.1 ∈ bk_Pools cfg).
  { induction l as [|[[pool b] c] l IH]; intros [seen out] Hl Hnd Hsub Hpools; cbn [foldl]; [done|].
    apply IH; [by intros; apply Hl; right|..]; unfold visit; destruct (negb (keep c) || _) eqn:Hskip; try done; cbn [fst snd].
    all: apply orb_false_iff in Hskip as [_ Hnew]; apply bool_decide_eq_false in Hnew.
    - rewrite fmap_app. apply NoDup_app. split_and!; [done| |apply NoDup_singleton].
      intros b' Hb' ->%list_elem_of_singleton. by apply Hnew, Hsub.
    - intros b'. rewrite fmap_app, elem_of_app. intros [Hb'| ->%list_elem_of_singleton]; [by apply elem_of_union_r, Hsub|].
      by apply elem_of_union_l, elem_of_singleton.
    - intros e [He| ->%list_elem_of_singleton]%elem_of_app; [by apply Hpools|]. apply (Hl (pool, b, c)). by left. }
  apply Hfold; [done|apply NoDup_nil_2|by intros ? ?%elem_of_nil|by intros ? ?%elem_of_nil].
Qed.

(** *** Closing the gaps *)

Definition any_hold (id : string) (st : AllocationStatus) : Prop := ∃ b, hold_of b id st.

Lemma close_gaps_restarts now l : ∀ s,
  Inv s → pools_named cfg → NoDup (l.*2) → (∀ e, e ∈ l → e.1 ∈ bk_Pools cfg) →
  (∀ b i st, b ∈ l.*2 → records s !! hold_id b i = Some st → isSchedulerAccountedState (as_State st) = true) →
  restarts any_hold s (foldl (close_gap cfg has_cleanup drivers now) s l).
Proof.
  induction l as [|[pool b] l IH]; intros s Hi Hc Hnd Hl Hlive; cbn [foldl]; [by apply restarts_refl|].
  cbn in Hnd. apply NoDup_cons in Hnd as [Hni Hnd].
  assert (H1 : restarts (hold_of b) s (close_gap cfg has_cleanup drivers now s (pool, b))).
  { unfold close_gap. destruct (drivers b ≫= dr_Capacity) as [ask|]; [|by apply restarts_refl].
    destruct (ask pool) as [status|]; [|by apply restarts_refl]. destruct (_ <=? 0); [by apply restarts_refl|].
    unfold createRestartOrphanHolds. destruct (_ <=? 0); [by apply restarts_refl|].
    apply create_holds_restarts with (acc := (0, s)); [done| |apply NoDup_seq|].
    - apply configured_pool_ok; [done|]. apply (Hl (pool, b)). by left.
    - intros i st _ Ho. eapply Hlive; [|exact Ho]. by left. }
  destruct H1 as (Hi1 & Hn1 & Hg1). destruct (IH (close_gap cfg has_cleanup drivers now s (pool, b)) Hi1 Hc Hnd) as (Hi2 & Hn2 & Hg2).
  - intros e He. apply Hl. by right.
  - intros b' i st Hb' Ho. destruct (Hg1 _ _ Ho) as [Ho'|[[j Heq] _]]; [by eapply Hlive; [right|]|].
    apply hold_id_inj in Heq as [-> _]. done.
  - split; [done|]. split; [congruence|]. etrans; [|exact Hg2]. intros id st Ho.
    destruct (Hg1 _ _ Ho) as [?|?]; [by left|right; by exists b].
Qed.
(** *** The whole restart *)

(** The store holds no capacity hold of an earlier restart. *)
Definition unheld (m : Allocations) : Prop := ∀ b i, m !! hold_id b i = None.

Lemma reconcileRestart_spec s now : Inv s → pools_named cfg → unheld (records s) → runners_known 0 →
  let s' := reconcileRestartOrphans cfg has_cleanup drivers s now in
  Inv s' ∧ ∀ id st, records s' !! id = Some st → incomplete st = false.
Proof.
  intros Hi Hc Hun Hk. cbn zeta. unfold reconcileRestartOrphans.
  assert (Hlisted : listed s (store_List (sv_store s))) by (by eapply listed_store).
  destruct (terminalize_fold now (store_List (sv_store s)) (0, s) Hi Hlisted) as (Hi1 & Hnone1 & Hinc1).
  fold (terminalizeIncompleteReserved cfg has_cleanup s now) in Hi1, Hnone1, Hinc1.
  set (s1 := (terminalizeIncompleteReserved cfg has_cleanup s now).2) in *. cbn [snd] in *.
  assert (Hinc : ∀ id st, records s1 !! id = Some st → incomplete st = false).
  { intros id st Ho. destruct (Hinc1 id st Ho) as [?|[Hni Ho']]; [done|]. destruct Hni.
    pose proof (led_ids _ _ _ _ _ Hi _ _ Ho') as <-. apply list_elem_of_fmap_2. rewrite (list_law (sv_store s)).
    apply list_elem_of_fmap. exists (as_ID st, st). split; [done|]. by apply elem_of_map_to_list. }
  assert (Hun1 : unheld (records s1)).
  { intros b i. apply Hnone1; [apply Hun|]. intros (st & Heq & Hin)%list_elem_of_fmap.
    destruct Hlisted as [_ Hl]. specialize (Hl st Hin). by rewrite <- Heq, Hun in Hl. }
  destruct (IsProcessLocal _); [|done].
  assert (Hk1 : runners_known (sv_nextID s1)).
  { intros b ask pool runners runner Hd Ha Hr n _. eapply Hk; [exact Hd|exact Ha|exact Hr|lia]. }
  destruct (rebuild_restarts s1 now Hi1 Hk1) as (Hi2 & _ & Hg2).
  set (s2 := (rebuildFromLiveRunners cfg has_cleanup drivers s1 now).2) in *.
  destruct (visited_spec (fun c => bc_Enabled c && bc_Healthy c)) as [Hnd Hpools].
  destruct (close_gaps_restarts now _ s2 Hi2 Hc Hnd Hpools) as (Hi3 & _ & Hg3).
  { intros b i st _ Ho. destruct (Hg2 _ _ Ho) as [Ho'|[? _]]; [by rewrite Hun1 in Ho'|done]. }
  split; [exact Hi3|]. intros id st Ho. destruct (Hg3 _ _ Ho) as [Ho2|(b & _ & ?)]; [|done].
  destruct (Hg2 _ _ Ho2) as [Ho1|[_ ?]]; [by eapply Hinc|done].
Qed.
End Restart.
