(* ===== verification/ServiceBehaviour.v ===== *)
(** What the allocation service does as a whole: reachable states of the
    broker, and the slots they keep.

    [runs] collects the requests and background passes that may be served while
    an allocation waits for a provider, [reachable] adds the queue reconciler.
    The provider and the other goroutines are an [Environment]; the identifiers
    are any injective sequence of non-blank strings. *)

From S2P Require Import Prelude Errors Model Store StoreTheory Scheduler SchedulerTheory FairShare FairShareTheory.
From S2P Require Import Registry Backends Budget Capacity Admission Warm JobRetry TierPolicy ServicePolicy Service.
From S2P Require Import ServiceFilters ServiceTheory Allocate AllocateTheory CapacityMatrix WorkflowJob WorkflowTheory.
From S2P Require Import Reconcile ReconcileTheory Restart WarmPool WarmPoolTheory RestartTheory.

Section Behaviour.
Context `{GoRange} `{QualityRanker} {S : Type} `{!AllocationStore S, !AdmissionStateStore S, !ReliableStore S}.
Context (cfg : BrokerConfig) (has_cleanup : BackendName → bool) (ids : nat → string).
Implicit Types (s : Service S) (request : AllocationRequest) (now : Time).

(** At rest: every slot has its record. *)
Abbreviation none := (fun _ _ _ => 0).

Local Notation Inv := (Inv cfg ids none).
#[local] Hint Resolve none_nonneg : core.

(** ** The queue reconciler *)

Section Queue.
Context (env : Environment S) (ctx : request_context).
Hypothesis ids_inj : ∀ n m, ids n = ids m → n = m.
Hypothesis ids_nonblank : ∀ n, ids n ≠ "".
Hypothesis interfere_safe : ∀ s, safe cfg ids s (env_interfere env s).

(** Retrying [id] keeps the ledger and leaves the records of the others as [evolves] allows. *)
Definition retries s s' (id : string) : Prop := Inv s' ∧ evolves_but ids (fun i => i = id) s s'.

Lemma evolves_retries s s' id : Inv s' → evolves ids s s' → retries s s' id.
Proof. intros Hi [Hn He]. split; [done|]. split; [done|]. intros i st _. exact (He i st (fun f => f)). Qed.

Lemma moves_retries s s' id : Inv s' → moves ids id s s' → retries s s' id.
Proof. intros Hi [Hn He]. split; [done|]. split; [done|]. intros i st Hne. apply He. tauto. Qed.

Lemma retries_trans s1 s2 s3 id : retries s1 s2 id → retries s2 s3 id → retries s1 s3 id.
Proof. intros [_ He] [Hi He']. split; [done|]. by etrans. Qed.

(** A record without a slot may be rewritten into any other. *)
Lemma put_idle s s' id status : Inv s → idle ids s id → stored s s' id status → as_ID status = id → lane_of status = None →
  retries s s' id.
Proof.
  intros Hi [Hl Hk] Hs Hid Hnone. apply evolves_retries.
  - destruct Hs as (Hr & Hsch & Hn). unfold ServiceTheory.Inv, net, slots. rewrite Hr, Hsch, Hn. by apply ledger_keep; [| | |congruence].
  - destruct Hs as (Hr & Hsch & Hn). eapply evolves_put; [exact Hr|lia|by left].
Qed.

Lemma mark_idle s id state now message : Inv s → idle ids s id → isSchedulerAccountedState state = false →
  retries s (markState s id state now message).2 id.
Proof.
  intros Hi Hidle Ha. pose proof (markState_spec s id state now message) as Hm.
  destruct (records s !! id) as [st|] eqn:Ho; [|destruct Hm as [_ Hf]].
  { destruct Hm as [_ Hs]. eapply put_idle; [done|done|exact Hs|rewrite applyMarkState_ID; by eapply led_ids|].
    by rewrite lane_mark, Ha. }
  apply evolves_retries; [by eapply frame_inv|by apply frame_evolves].
Qed.

Lemma idle_after s s' id : evolves ids s s' → idle ids s id → idle ids s' id.
Proof. by apply idle_evolves. Qed.

(** A failed retry leaves the record without a slot, whatever it did. *)
Lemma returned_idle s s' id status err :
  returns ids id (Some (status, Some err), s') → moves ids id s s' → idle ids s id → idle ids s' id.
Proof.
  intros (st & e & [= <- <-] & Hown) Hm Hidle. cbn in Hown. destruct (fresh id) eqn:Hf; [|by apply Hown].
  eapply idle_after; [|exact Hidle]. destruct Hm as [Hn Hm]. split; [done|]. intros i st _. apply Hm. intros [? _]. congruence.
Qed.

Lemma retry_queued_retries s status request now : Inv s → idle ids s (as_ID status) → as_State status = StatePending →
  retries s (retry_queued cfg has_cleanup ids env ctx s status request now).1 (as_ID status).
Proof.
  intros Hi Hidle Hp. unfold retry_queued. destruct (_ && _); [by apply mark_idle|].
  match goal with |- context [store_Save (sv_store s) ?st] => set (status' := st) end. cbv zeta.
  set (s1 := { s with sv_store := (store_Save (sv_store s) status').2 }).
  assert (Hs1 : stored s s1 (as_ID status) status') by (split_and!; [exact (proj2 (save_spec s status'))|done|done]).
  assert (Hlane : lane_of status' = None) by (unfold lane_of; cbn; by rewrite Hp).
  destruct (put_idle s s1 (as_ID status) status' Hi Hidle Hs1 eq_refl Hlane) as [Hi1 He1].
  assert (Hidle1 : idle ids s1 (as_ID status)).
  { destruct Hs1 as (Hr & _ & Hn), Hidle as [_ Hk]. split; [|by rewrite Hn].
    by rewrite Hr, (lane_at_Some _ _ _ (lookup_insert_eq _ _ _)). }
  eapply retries_trans; [split; [exact Hi1|exact He1]|].
  destruct (allocateNow_spec cfg has_cleanup ids env ctx ids_inj ids_nonblank interfere_safe none none_nonneg (as_ID status) s1 request status' now Hi1)
    as (Hret & Hi2 & Hm2); [by split; [|intros _]|].
  destruct (allocateNow _ _ _ _ _ _ _ _ _) as [[[st [err|]]|] s2]; cbn [fst snd] in *; [|by apply moves_retries..].
  pose proof (returned_idle _ _ _ _ _ Hret Hm2 Hidle1) as Hidle2.
  destruct (queue_spec cfg ids ctx ids_inj none none_nonneg s2 request (as_Pool status') (as_SelectedBackend status') err status' now Hi2)
    as (Hi3 & He3 & _); [done|].
  destruct (queueAllocation _ _ _ _ _ _ _ _ _ _) as [queued s3]; cbn [snd] in Hi3, He3.
  apply (retries_trans _ s2); [by apply moves_retries|]. apply (retries_trans _ s3); [by apply evolves_retries|].
  destruct queued; cbn [fst]; [by apply evolves_retries|].
  apply mark_idle; [done| |done]. by eapply idle_after.
Qed.

Lemma reconcileQueued_retries s status now : Inv s → idle ids s (as_ID status) → as_State status = StatePending →
  retries s (reconcileQueuedAllocation cfg has_cleanup ids env ctx s status now).1 (as_ID status).
Proof.
  intros Hi Hidle Hp. unfold reconcileQueuedAllocation. rewrite get_records.
  assert (Hstay : retries s s (as_ID status)) by (by apply evolves_retries).
  match goal with |- context [if ?b then records s !! as_ID status else Some status] => set (workflow := b) end.
  assert (Hst : ∀ st, (if workflow then records s !! as_ID status else Some status) = Some st → as_ID st = as_ID status).
  { intros st. destruct workflow; [|by intros [= <-]]. intros Ho. by eapply led_ids. }
  destruct (if workflow then records s !! as_ID status else Some status) as [st|]; [|done].
  specialize (Hst st eq_refl). unfold state_eqb. case_bool_decide as Hps; [|done]. cbn [negb orb].
  destruct (_ && _); [done|]. destruct (as_Request st) as [request|]; [|rewrite <- Hst in *; by apply mark_idle].
  destruct (Before _ _); rewrite <- Hst in *; [by apply mark_idle|by apply retry_queued_retries].
Qed.

(** Every queued record holds no slot while the others are retried. *)
Lemma reconcile_fold now l : ∀ s n, Inv s → NoDup (as_ID <$> l) →
  (∀ st, st ∈ l → idle ids s (as_ID st) ∧ as_State st = StatePending) →
  Inv (foldl (fun acc status => let '(updated, s) := acc in
    let '(s, n) := reconcileQueuedAllocation cfg has_cleanup ids env ctx s status now in (updated + n, s)) (n, s) l).2.
Proof.
  induction l as [|st l IH]; intros s n Hi Hnd Hl; cbn [foldl]; [done|].
  destruct (Hl st) as [Hidle Hp]; [by left|].
  pose proof (reconcileQueued_retries s st now Hi Hidle Hp) as [Hi1 He1].
  destruct (reconcileQueuedAllocation _ _ _ _ _ _ _ _) as [s1 n1]. cbn in Hi1, He1.
  rewrite fmap_cons in Hnd. apply NoDup_cons in Hnd as [Hni Hnd]. apply IH; [done|done|]. intros st' Hin.
  destruct (Hl st') as [[Hlane Hk] Hp']; [by right|]. split; [|done]. split; [|intros n' Hn'; apply Hk; destruct He1; lia].
  assert (Hne : as_ID st' ≠ as_ID st) by (intros Heq; apply Hni; rewrite <- Heq; by apply list_elem_of_fmap_2).
  destruct (lane_at (records s1) (as_ID st')) as [lane|] eqn:Hl1; [|done].
  unfold lane_at in Hl1. destruct (records s1 !! as_ID st') as [st1|] eqn:Ho1; [|done]. cbn in Hl1.
  assert (Ha : isSchedulerAccountedState (as_State st1) = true) by (revert Hl1; unfold lane_of; by case_match).
  destruct He1 as [Hn He1]. destruct (He1 _ _ Hne Ho1 Ha) as [(m & Hm & Hid)|(old & Ho & Hl' & _)].
  - by destruct (Hk m Hm).
  - rewrite (lane_at_Some _ _ _ Ho) in Hlane. congruence.
Qed.

Lemma ReconcileQueue_inv s now : Inv s → Inv (ReconcileQueue cfg has_cleanup ids env ctx s now).2.
Proof.
  intros Hi. unfold ReconcileQueue. destruct (_ || _); [done|]. destruct (listed_store cfg ids none s Hi) as [Hnd Hin].
  apply reconcile_fold; [done| |].
  - eapply sublist_NoDup; [exact Hnd|]. by apply fmap_sublist, sublist_filter.
  - intros st [Hp Hst]%list_elem_of_filter. split; [|done]. pose proof (Hin st Hst) as Ho.
    split; [|by eapply known_stored]. rewrite (lane_at_Some _ _ _ Ho). unfold lane_of. by rewrite Hp.
Qed.
End Queue.

(** ** Behaviours *)

(** Nobody takes or cancels a warm runner while the warm pass waits for a
    provider: the pass recycles from a snapshot it took before. *)
Definition spares_warm (env : Environment S) : Prop :=
  ∀ s id st, records s !! id = Some st → as_State st = StateWarm → records (env_interfere env s) !! id = Some st.

(** What may happen while an allocation waits: requests of other clients, the
    background passes, whole allocations, and any step elsewhere in the broker
    that touches neither records, slots nor identifiers.  A cancellation is
    excluded when it would release the slot of another record ([cancel_ok]), a
    completion when it would keep the slot of a warm record ([complete_ok]), and
    an event about a workflow job when it could do one of these ([job_ok]). *)
Inductive runs : Service S → Service S → Prop :=
| runs_elsewhere s s' : frame s s' → runs s s'
| runs_then s1 s2 s3 : runs s1 s2 → runs s2 s3 → runs s1 s3
| runs_cancel rounds s id now r s' :
    cancel_ok cfg s id = true → Cancel cfg has_cleanup rounds s id now = Some (r, s') → runs s s'
| runs_complete s id (completion : completionRequest) now :
    complete_ok s id = true → runs s (Complete cfg has_cleanup s id completion now).2
| runs_claim s id now : runs s (Claim s id now).2
| runs_register s id now : runs s (Register s id now).2
| runs_sweep s now : runs s (SweepExpired cfg has_cleanup s now).2
| runs_allocate env ctx s request now :
    (∀ t, runs t (env_interfere env t)) →
    runs s (allocateNow cfg has_cleanup ids env ctx s request zero_AllocationStatus now).2
| runs_warm zone env s now :
    (∀ t, runs t (env_interfere env t)) → spares_warm env →
    runs s (ReconcileWarmPools cfg has_cleanup ids zone env s now)
| runs_finished drivers interfere s now :
    (∀ t, runs t (interfere t)) → runs s (ReconcileFinishedRunners cfg has_cleanup drivers interfere s now).2
| runs_orphaned drivers interfere s now :
    (∀ t, runs t (interfere t)) → runs s (ReconcileOrphanedAllocations cfg has_cleanup drivers interfere s now).2
| runs_health drivers interfere s now :
    (∀ t, runs t (interfere t)) → runs s (ReconcileBackendHealth cfg drivers interfere s now)
| runs_job_queued env ctx s pool jobID repository retryFailed now :
    (∀ t, runs t (env_interfere env t)) →
    runs s (AllocateForWorkflowJob cfg has_cleanup ids env ctx s pool jobID repository retryFailed now).2
| runs_job_running rounds s jobID runner now r s' :
    job_ok cfg s jobID runner = true →
    ClaimWorkflowJob cfg has_cleanup (Datatypes.S rounds) s jobID runner now = Some (r, s') → runs s s'
| runs_job_finished rounds s jobID conclusion runner now r s' :
    job_ok cfg s jobID runner = true →
    FinalizeWorkflowJob cfg has_cleanup (Datatypes.S rounds) s jobID conclusion runner now = Some (r, s') → runs s s'.

(** The environments whose interference is such behaviour. *)
Definition behaves (env : Environment S) : Prop := ∀ t, runs t (env_interfere env t).

(** States of a broker that started on the store [st] at [start], with any drivers
    whose runners carry no identifier that is still to be drawn. *)
Inductive reachable (st : S) (start : Time) : Service S → Prop :=
| reach_start drivers storeErr : unheld (contents st) → runners_known ids drivers 0 →
    reachable st start (newServiceWithStore cfg has_cleanup drivers st storeErr start)
| reach_runs s s' : reachable st start s → runs s s' → reachable st start s'
| reach_queue env ctx s now : reachable st start s → behaves env →
    reachable st start (ReconcileQueue cfg has_cleanup ids env ctx s now).2.

(** Records filed under their identifier, with an identifier not drawn yet;
    those that hold a slot name their pool. *)
Definition well_filed (m : Allocations) : Prop :=
  (∀ id st, m !! id = Some st → as_ID st = id ∧ id ≠ "" ∧
     (isSchedulerAccountedState (as_State st) = true → as_Pool st ≠ "")) ∧
  ∀ n, m !! ids n = None.

Section Claims.
Hypothesis ids_inj : ∀ n m, ids n = ids m → n = m.
Hypothesis ids_nonblank : ∀ n, ids n ≠ "".
Hypothesis ids_hold : ∀ b i n, ids n ≠ hold_id b i.
Hypothesis pools : pools_named cfg.

Lemma runs_safe s s' : runs s s' → safe cfg ids s s'.
Proof.
  induction 1 as [s s' Hf|s1 s2 s3 _ H12 _ H23|rounds s id now r s' Hok Hc|s id completion now Hok|s id now|s id now|s now
                 |env ctx s request now _ Henv|zone env s now _ Henv Hw|drivers f s now _ Hf|drivers f s now _ Hf|drivers f s now _ Hf
                 |env ctx s pool jobID repository again now _ Henv|rounds s jobID runner now r s' Hok Hr
                 |rounds s jobID conclusion runner now r s' Hok Hr].
  - by apply frame_safe.
  - by etrans.
  - destruct rounds as [|rounds]; [done|]. destruct (Cancel_safe cfg has_cleanup ids rounds s id now Hok) as (r' & t & Hc' & Hs).
    rewrite Hc in Hc'; by simplify_eq.
  - by apply Complete_safe.
  - apply Claim_safe.
  - apply Register_safe.
  - apply SweepExpired_safe.
  - intros out Hout Hi. by destruct (allocate_safe cfg has_cleanup ids ids_inj ids_nonblank env ctx s request now out Henv Hout Hi) as (_ & ? & ?).
  - intros out Hout Hi. by apply ReconcileWarmPools_tends.
  - by apply ReconcileFinishedRunners_safe.
  - by apply ReconcileOrphanedAllocations_safe.
  - by apply ReconcileBackendHealth_safe.
  - by apply AllocateForWorkflowJob_safe.
  - by eapply ClaimWorkflowJob_safe.
  - by eapply FinalizeWorkflowJob_safe.
Qed.

Lemma behaves_safe env : behaves env → ∀ t, safe cfg ids t (env_interfere env t).
Proof. intros He t. by apply runs_safe. Qed.

(** *** Starting up *)

Lemma rest_held (st : S) p b : rest (store_List st) p b = held (contents st) p b.
Proof.
  unfold rest, held, countActiveLocked, count_map, sum_map. rewrite (sum_of_perm _ _ _ (list_law st)), sum_of_fmap.
  apply sum_of_ext. intros [id status] _. symmetry. apply counts_active_lane.
Qed.

Lemma initial_slots (st : S) k p b : slots (initial_service st) k p b = 0.
Proof. by destruct k. Qed.

Lemma start_rehydrating (st : S) : well_filed (contents st) → rehydrating cfg ids (initial_service st) (store_List st).
Proof.
  intros [Hm Hids]. split_and!.
  - split; [by intros id status Ho; destruct (Hm _ _ Ho)|by intros n _| | |].
    + intros id status pool Ho Ha Hr. destruct (Hm _ _ Ho) as (_ & _ & Hp). eapply resolvePool_name; [exact Hr|by apply Hp].
    + intros pool b _. by rewrite rest_held, initial_slots.
    + intros k p b. pose proof (rest_nonneg (store_List st) p b). rewrite initial_slots. lia.
  - intros. by rewrite initial_slots.
  - apply listed_filed. intros id status Ho. by destruct (Hm _ _ Ho).
  - destruct (contents st !! "") as [status|] eqn:Ho; [|done]. by destruct (Hm _ _ Ho) as (_ & ? & _).
Qed.

Lemma start_inv (st : S) start : well_filed (contents st) →
  Inv (rehydrateSchedulerState cfg (initial_service st) start) ∧
  kept_or_expired (contents st) (records (rehydrateSchedulerState cfg (initial_service st) start)).
Proof.
  intros Hm. destruct (rehydrate_fold cfg has_cleanup ids start _ _ (start_rehydrating st Hm)) as [(Hl & _) Hk]. split; [|exact Hk].
  unfold ServiceTheory.Inv. eapply ledger_ext; [exact Hl|]. intros k p b. unfold net, rest. cbn beta. rewrite sum_of_nil.
  change (store_List st) with (store_List (sv_store (initial_service st))). unfold rehydrateSchedulerState. lia.
Qed.

Lemma restart_inv (st : S) drivers storeErr start :
  well_filed (contents st) → unheld (contents st) → runners_known ids drivers 0 →
  let s := newServiceWithStore cfg has_cleanup drivers st storeErr start in
  Inv s ∧ ∀ id status, records s !! id = Some status → incomplete status = false.
Proof.
  intros Hm Hu Hk. destruct (start_inv st start Hm) as [Hi [Hnone _]].
  destruct (reconcileRestart_spec cfg has_cleanup ids drivers ids_hold _ start Hi pools) as [Hi' Hinc]; [|done|].
  - intros b i. by apply Hnone.
  - split; [|exact Hinc]. eapply frame_inv; [|exact Hi']. by split_and!.
Qed.

Lemma reachable_inv (st : S) start s : well_filed (contents st) → reachable st start s → Inv s.
Proof.
  intros Hm. induction 1 as [drivers storeErr Hu Hk|s s' _ IH Hr|env ctx s now _ IH Henv].
  - by apply restart_inv.
  - by apply (runs_safe s s').
  - apply ReconcileQueue_inv; [done|done|by apply behaves_safe|done].
Qed.

Lemma inv_counts s pool b : Inv s → resolvePool cfg (pc_Name pool) = Ok pool →
  backendActiveCount s pool b = store_CountActive (sv_store s) (pc_Name pool) b.
Proof. intros Hi Hp. pose proof (led_slots _ _ _ _ _ Hi pool b Hp) as Hs. unfold net in Hs.
  rewrite backendActiveCount_slots. rewrite (count_active_law (sv_store s) (pc_Name pool) b).
  change (countActiveLocked _ _ _ _) with (held (records s) (pc_Name pool) b). lia. Qed.


(** C7. An allocation always returns: in every reachable state, for any request, any
    provider and any interference, the retry loops end after at most one attempt
    per backend of the lane and one per backend of the fallback pool.  A success
    answers with a record that is stored as answered, ready for the job or queued;
    and success or not, no slot is left without a record. *)
Theorem allocation_returns (st : S) start s env ctx request now :
  well_filed (contents st) → reachable st start s → behaves env →
  let r := allocateNow cfg has_cleanup ids env ctx s request zero_AllocationStatus now in
  (∃ status err, r.1 = Some (status, err) ∧
     (err = None → store_Get (sv_store r.2) (as_ID status) = Some status ∧
        (as_State status = StateReady ∨ as_State status = StatePending))) ∧
  ∀ pool b, resolvePool cfg (pc_Name pool) = Ok pool →
    backendActiveCount r.2 pool b = store_CountActive (sv_store r.2) (pc_Name pool) b.
Proof.
  intros Hm Hr He. destruct (allocate_safe cfg has_cleanup ids ids_inj ids_nonblank env ctx s request now none (behaves_safe env He)) as ((status & err & Hret & Hg) & Hi & _);
    [done|by eapply reachable_inv|].
  split; [|intros; by apply inv_counts]. exists status, err. split; [done|]. rewrite get_records. exact Hg.
Qed.

(** C21. Restart: rehydrating from the records of any store gives every record that
    keeps a slot its slot back; a record is kept as it is, or it held a slot and
    is terminal now. *)
Theorem rehydration_restores_slots (st : S) start :
  well_filed (contents st) →
  let s := rehydrateSchedulerState cfg (initial_service st) start in
  kept_or_expired (contents st) (contents (sv_store s)) ∧
  ∀ pool b, resolvePool cfg (pc_Name pool) = Ok pool →
    backendActiveCount s pool b = store_CountActive (sv_store s) (pc_Name pool) b.
Proof.
  intros Hm. destruct (start_inv st start Hm) as [Hi Hk]. split; [exact Hk|]. intros. by apply inv_counts.
Qed.

(** Cancelling a queued allocation that names a backend gives back a slot it does
    not hold: the scheduler then counts one slot fewer than there are records. *)
Theorem canceling_queued_frees_a_held_slot rounds s id status pool now :
  store_Get (sv_store s) id = Some status → as_State status = StatePending →
  resolvePool cfg (as_Pool status) = Ok pool → pc_Name pool = as_Pool status → 
  0 < backendActiveCount s pool (as_SelectedBackend status) →
  backendActiveCount s pool (as_SelectedBackend status) = store_CountActive (sv_store s) (pc_Name pool) (as_SelectedBackend status) →
  ∃ canceled s', Cancel cfg has_cleanup (Datatypes.S rounds) s id now = Some (Some canceled, s') ∧
    as_State canceled = StateCanceled ∧
    backendActiveCount s' pool (as_SelectedBackend status) =
      store_CountActive (sv_store s') (pc_Name pool) (as_SelectedBackend status) - 1.
Proof.
  rewrite get_records. intros Ho Hst Hp Hname Hpos Heq. cbn [Cancel]. rewrite get_records, Ho, Hst. cbn [isTerminalAllocationState].
  pose proof (cas_spec s id StatePending StateCanceled now "") as Hc. cbn zeta in Hc. rewrite Ho in Hc.
  unfold state_eqb in Hc. rewrite bool_decide_true in Hc by done. destruct Hc as [Hr Hc].
  destruct (store_CompareAndMarkState _ _ _ _ _ _) as [r st']. cbn in Hr, Hc. subst r.
  set (updated := applyMarkState status StateCanceled now "") in *.
  destruct (applyMarkState_lane status StateCanceled now "") as (Hs & Hup & Hub). fold updated in Hs, Hup, Hub. rewrite Hup, Hub.
  set (s1 := notifyLifecycleTerminal { s with sv_store := st' } updated).
  destruct (notifyLifecycleTerminal_frame { s with sv_store := st' } updated) as (Hr1 & Hs1 & _).
  rewrite Hp. eexists _, _. split_and!; [reflexivity|exact Hs|].
  destruct (release_frame has_cleanup s1 pool (as_SelectedBackend status) updated now) as (Hr2 & _ & Hs2).
  pose proof (eq_trans Hr2 (eq_trans Hr1 Hc) : contents _ = _) as Hrec.
  rewrite !backendActiveCount_slots, !count_active_law in *. rewrite Hs2, Hrec.
  change (countActiveLocked ?m ?p ?b "") with (held m p b). rewrite held_insert, (lane_at_Some _ _ _ Ho).
  unfold give. rewrite decide_True by done.
  assert (Hlane : lane_of status = None ∧ lane_of updated = None) by (unfold lane_of; by rewrite Hst, Hs).
  destruct Hlane as [-> ->]. assert (Hsl : slots s1 = slots s) by (unfold slots; exact (f_equal kind_active Hs1)). rewrite Hsl.
  change (countActiveLocked (contents (sv_store s)) ?p ?b "") with (held (records s) p b) in Heq.
  assert (Hz : ∀ p b, ind None p b = 0) by done. rewrite !Hz. case_match; reflect_bools; lia.
Qed.

(** Completing a warm runner's record keeps its slot: the scheduler then counts one
    slot more than there are records. *)
Theorem completing_warm_keeps_its_slot s id status pool completion state message now :
  store_Get (sv_store s) id = Some status → as_State status = StateWarm →
  resolvePool cfg (as_Pool status) = Ok pool → pc_Name pool = as_Pool status →
  parseCompletionState completion = Ok (state, message) →
  backendActiveCount s pool (as_SelectedBackend status) = store_CountActive (sv_store s) (pc_Name pool) (as_SelectedBackend status) →
  let r := Complete cfg has_cleanup s id completion now in
  (∃ completed, r.1 = (Some completed, None) ∧ as_State completed = state) ∧
  backendActiveCount r.2 pool (as_SelectedBackend status) =
    store_CountActive (sv_store r.2) (pc_Name pool) (as_SelectedBackend status) + 1.
Proof.
  rewrite get_records. intros Ho Hst Hp Hname Hparse Heq. unfold Complete. rewrite get_records, Ho, Hparse, Hst.
  pose proof (parseCompletionState_terminal _ _ _ Hparse) as Hterm.
  assert (Hne : state_eqb StateWarm state = false) by (by destruct state). cbn [isTerminalAllocationState isActiveAllocationState].
  rewrite Hne. set (message' := if String.eqb _ _ then _ else _).
  pose proof (markState_spec s id state now message') as Hm. rewrite Ho in Hm. destruct Hm as [Hr (Hrec & Hsch & _)].
  destruct (markState s id state now message') as [r s1]. cbn in Hr, Hrec, Hsch |- *. subst r.
  destruct (applyMarkState_lane status state now message') as (Hs & _ & _).
  change (isActiveAllocationState StateWarm) with false. cbn [fst snd].
  split; [by eexists|]. rewrite !backendActiveCount_slots, !count_active_law in *.
  change (contents (sv_store s1)) with (records s1). rewrite Hrec.
  change (countActiveLocked ?m ?p ?b "") with (held m p b) in *. rewrite held_insert, (lane_at_Some _ _ _ Ho), lane_mark.
  rewrite (terminal_unaccounted _ Hterm). unfold lane_of, slots. rewrite Hst, Hsch. cbn. rewrite <- Hname. unfold ind.
  rewrite decide_True, decide_False by done. unfold slots in Heq. rewrite Heq. change (records s) with (contents (sv_store s)). lia.
Qed.
End Claims.
End Behaviour.

(** ** A concrete broker *)

Module Example_broker.
#[local] Existing Instance range_forward.
#[local] Existing Instance keep_order.

Definition ec2 : BackendConfig := { zero_BackendConfig with bc_Enabled := true; bc_Healthy := true; bc_MaxRunners := 4 }.
Definition lite : PoolConfig := { zero_PoolConfig with pc_Name := "lite"; pc_Backends := {[ "ec2" := ec2 ]} }.

Definition config : BrokerConfig :=
  { zero_BrokerConfig with
      bk_Broker := { zero_BrokerRuntimeConfig with br_DefaultPool := "lite"; br_DefaultJobTimeout := Hour;
        br_Queue := {| aq_Enabled := true; aq_RetryAfter := 0; aq_MaxAttempts := 0 |} };
      bk_Pools := [lite] }.

Definition cleanup (_ : BackendName) : bool := true.

(** Identifiers of increasing length. *)
Fixpoint tally (n : nat) : string := match n with O => "alloc" | Datatypes.S n => String "i" (tally n) end.

Lemma tally_length n : String.length (tally n) = (n + 5)%nat.
Proof. induction n as [|n IH]; [done|]. cbn. by rewrite IH. Qed.

Lemma tally_inj n m : tally n = tally m → n = m.
Proof. intros He. apply (f_equal String.length) in He. rewrite !tally_length in He. lia. Qed.

Lemma tally_nonblank n : tally n ≠ "".
Proof. by destruct n. Qed.

(** Providers that answer with a label, and nobody else. *)
Definition quiet : Environment Memory.Memory :=
  {| env_provision := fun _ => Some (fun _ _ => Ok {| pv_RunnerLabel := "runner"; pv_Metadata := ∅ |});
     env_interfere := fun s => s; env_polls := []; env_later := fun now => now + 1; env_health := None |}.

Definition anonymous : request_context := {| rc_CorrelationID := ""; rc_Principal := None |}.

Lemma quiet_behaves : behaves config cleanup tally quiet.
Proof. intros t. by apply runs_elsewhere. Qed.

Definition record (id : string) (state : AllocationState) : AllocationStatus :=
  { zero_AllocationStatus with as_ID := id; as_Pool := "lite"; as_SelectedBackend := "ec2"; as_State := state }.

Definition stored_records : Memory.Memory :=
  Memory.set_allocations Memory.NewMemory
    {[ "r" := record "r" StateReady; "w" := record "w" StateWarm; "p" := record "p" StatePending ]}.

Lemma stored_records_filed : well_filed tally (contents stored_records).
Proof.
  split.
  - intros id st. cbn. rewrite !lookup_insert_Some, lookup_singleton_Some. intros [[<- <-]|[_ [[<- <-]|[_ [<- <-]]]]]; (split; [reflexivity|split; [discriminate|intros _; discriminate]]).
  - intros n. cbn. assert (Hlen : ∀ c, tally n = String c "" → False).
    { intros c He. apply (f_equal String.length) in He. rewrite tally_length in He. cbn in He. lia. }
    rewrite !lookup_insert_ne, lookup_singleton_ne by (intros He; by apply (Hlen _ (eq_sym He))). done.
Qed.

(** A provider that counts three runners: one more than the store remembers. *)
Definition three_runners : CapacityStatus := { zero_CapacityStatus with cs_MaxRunners := 4; cs_ActiveRunners := 3 }.
Definition drivers (_ : BackendName) : option Driver :=
  Some {| dr_Capacity := Some (fun _ => Ok three_runners); dr_LiveRunners := None; dr_FinishedRunners := None; dr_Probe := None |}.

Definition started : Service Memory.Memory := newServiceWithStore config cleanup drivers stored_records None 10.

Lemma tally_hold b i n : tally n ≠ hold_id b i.
Proof. by destruct n. Qed.

Lemma config_pools : pools_named config.
Proof.
  split; [apply NoDup_singleton|]. intros pool ->%list_elem_of_singleton. done.
Qed.

Lemma stored_records_unheld : unheld (contents stored_records).
Proof.
  intros b i. cbn. rewrite !lookup_insert_ne, lookup_singleton_ne; done.
Qed.

Lemma drivers_known : runners_known tally drivers 0.
Proof. done. Qed.

Lemma started_reachable : reachable config cleanup tally stored_records 10 started.
Proof. apply reach_start; [apply stored_records_unheld|apply drivers_known]. Qed.
End Example_broker.

Import Example_broker.
#[local] Existing Instance range_forward.
#[local] Existing Instance keep_order.


Lemma allocation_returns_witness :
  let r := allocateNow config cleanup tally quiet anonymous started zero_AllocationRequest zero_AllocationStatus 20 in
  ∃ status err, r.1 = Some (status, err) ∧
    (err = None → store_Get (sv_store r.2) (as_ID status) = Some status ∧
       (as_State status = StateReady ∨ as_State status = StatePending)).
Proof.
  apply (allocation_returns config cleanup tally tally_inj tally_nonblank tally_hold config_pools stored_records 10 started quiet anonymous
    zero_AllocationRequest 20 stored_records_filed started_reachable quiet_behaves).
Defined.

Lemma rehydration_restores_slots_witness :
  let s := rehydrateSchedulerState config (initial_service stored_records) 10 in
  backendActiveCount s lite "ec2" = store_CountActive (sv_store s) "lite" "ec2" ∧ backendActiveCount s lite "ec2" = 2.
Proof.
  split; [|vm_compute; reflexivity].
  by apply (rehydration_restores_slots config cleanup tally stored_records 10 stored_records_filed).
Defined.

Lemma canceling_queued_frees_a_held_slot_witness :
  ∃ canceled s', Cancel config cleanup 1 started "p" 20 = Some (Some canceled, s') ∧
    as_State canceled = StateCanceled ∧
    backendActiveCount s' lite "ec2" = store_CountActive (sv_store s') "lite" "ec2" - 1.
Proof.
  apply (canceling_queued_frees_a_held_slot config cleanup 0 started "p" (record "p" StatePending) lite 20);
    vm_compute; reflexivity.
Defined.

Lemma completing_warm_keeps_its_slot_witness :
  let r := Complete config cleanup started "w" {| cr_State := ""; cr_Error := ""; cr_Reason := ""; cr_FailureClass := "" |} 20 in
  (∃ completed, r.1 = (Some completed, None) ∧ as_State completed = StateCompleted) ∧
  backendActiveCount r.2 lite "ec2" = store_CountActive (sv_store r.2) "lite" "ec2" + 1.
Proof.
  apply (completing_warm_keeps_its_slot config cleanup started "w" (record "w" StateWarm) lite _ StateCompleted "" 20);
    vm_compute; reflexivity.
Defined.
