(* ===== verification/BackgroundBehaviour.v ===== *)
(** What the background passes and the restart do: warm pools, half-made
    reservations and capacity holds. *)

From S2P Require Import Prelude Errors Model Store StoreTheory Scheduler SchedulerTheory FairShare FairShareTheory.
From S2P Require Import Registry Backends Budget Capacity Admission Warm JobRetry TierPolicy ServicePolicy Service.
From S2P Require Import ServiceFilters ServiceTheory Allocate AllocateTheory Reconcile ReconcileTheory Restart.
From S2P Require Import WarmPool WarmPoolTheory RestartTheory ServiceBehaviour.

Section Background.
Context `{GoRange} `{QualityRanker} {S : Type} `{!AllocationStore S, !AdmissionStateStore S, !ReliableStore S}.
Context (cfg : BrokerConfig) (has_cleanup : BackendName → bool) (ids : nat → string).
Hypothesis ids_inj : ∀ n m, ids n = ids m → n = m.
Hypothesis ids_nonblank : ∀ n, ids n ≠ "".
Hypothesis ids_hold : ∀ b i n, ids n ≠ hold_id b i.
Hypothesis pools : pools_named cfg.
Implicit Types (s : Service S) (pool : PoolConfig) (now : Time) (b : BackendName).

(** C35. Warm bounds: when no other goroutine changes a record meanwhile, the pass
    leaves a backend with at most the scheduled number of warm runners, and with
    none when it is disabled, unhealthy, full-size zero or blocked by the tier
    policy, whatever the provider answers. *)
Theorem warm_pool_within_bounds (st : S) start s zone env pool b (c : BackendConfig) now :
  well_filed ids (contents st) → reachable cfg has_cleanup ids st start s → behaves cfg has_cleanup ids env → quiet_env env →
  pool ∈ bk_Pools cfg →
  let s' := reconcileWarmForBackend cfg has_cleanup ids zone env s pool b c (store_List (sv_store s)) now in
  Z.of_nat (length (filterWarmAllocations (store_List (sv_store s')) (pc_Name pool) b)) ≤ warm_limit cfg zone s pool b c now.
Proof.
  intros Hm Hr He Hq Hin. cbn zeta. rewrite (warm_listed (sv_store _)).
  assert (Hi : Inv cfg ids (fun _ _ _ => 0) s) by (by eapply reachable_inv).
  apply (reconcileBackend_tends cfg has_cleanup ids zone env ids_inj) with (out := fun _ _ _ => 0); try done.
  - by eapply behaves_safe.
  - intros t id status Ho _. by rewrite Hq.
  - by apply configured_pool_ok.
  - by eapply listed_filter, listed_store.
Qed.

(** The warm pass trusts its snapshot: recycling an allocation of the snapshot
    fails whatever record has its identifier now and releases a slot for it.  A
    runner handed over meanwhile is failed and cleaned up under its job; for one
    canceled meanwhile a second slot is released, and the scheduler then counts one
    slot fewer than there are records. *)
Theorem stale_warm_snapshot_is_recycled s pool (warm current : AllocationStatus) reason now :
  resolvePool cfg (pc_Name pool) = Ok pool →
  store_Get (sv_store s) (as_ID warm) = Some current →
  as_Pool current = pc_Name pool → as_SelectedBackend current = as_SelectedBackend warm →
  0 < backendActiveCount s pool (as_SelectedBackend warm) →
  let s' := recycleWarmAllocation has_cleanup s pool warm reason now in
  (∃ failed, store_Get (sv_store s') (as_ID warm) = Some failed ∧ as_State failed = StateFailed) ∧
  backendActiveCount s' pool (as_SelectedBackend warm) = backendActiveCount s pool (as_SelectedBackend warm) - 1 ∧
  store_CountActive (sv_store s') (pc_Name pool) (as_SelectedBackend warm) =
    store_CountActive (sv_store s) (pc_Name pool) (as_SelectedBackend warm) -
      (if isSchedulerAccountedState (as_State current) then 1 else 0).
Proof.
  rewrite get_records. intros Hp Ho Hpool Hb Hpos. cbn zeta. unfold recycleWarmAllocation.
  pose proof (markState_spec s (as_ID warm) StateFailed now reason) as Hm. rewrite Ho in Hm. destruct Hm as [Hr (Hrec & Hsch & _)].
  destruct (markState s (as_ID warm) StateFailed now reason) as [r s1]. cbn in Hr, Hrec, Hsch. subst r.
  set (failed := applyMarkState current StateFailed now reason) in *.
  destruct (release_frame has_cleanup s1 pool (as_SelectedBackend warm) failed now) as (Hr2 & _ & Hs2).
  rewrite get_records, Hr2, Hrec. split; [|split].
  - exists failed. split; [apply lookup_insert_eq|]. by destruct (applyMarkState_lane current StateFailed now reason) as (? & _).
  - rewrite !backendActiveCount_slots in *. rewrite Hs2. unfold give. rewrite decide_True by done.
    unfold slots in *. rewrite Hsch. case_match; reflect_bools; lia.
  - rewrite !count_active_law. change (contents (sv_store (release has_cleanup s1 pool (as_SelectedBackend warm) failed now)))
      with (records (release has_cleanup s1 pool (as_SelectedBackend warm) failed now)). rewrite Hr2, Hrec.
    change (countActiveLocked ?m ?p ?b "") with (held m p b). rewrite held_insert, (lane_at_Some _ _ _ Ho).
    unfold failed. rewrite lane_mark. unfold lane_of, ind. rewrite Hpool, Hb. cbn.
    change (records s) with (contents (sv_store s)). destruct (isSchedulerAccountedState (as_State current)); repeat case_decide; simplify_eq; lia.
Qed.


(** Refreshing holds that exist reserves nothing. *)
Definition is_reserved (_ : string) (status : AllocationStatus) : Prop := as_State status = StateReserved.

Lemma refresh_holds pool b now l : ∀ acc : Z * Service S,
  (∀ i, i ∈ l → is_Some (records acc.2 !! hold_id b i)) →
  (∀ id status, records acc.2 !! id = Some status → as_ID status = id) →
  let acc' := foldl (create_hold cfg has_cleanup pool b now) acc l in
  acc'.1 = acc.1 + Z.of_nat (length l) ∧ sv_scheds acc'.2 = sv_scheds acc.2 ∧
  (∀ id, is_Some (records acc.2 !! id) → is_Some (records acc'.2 !! id)) ∧ grown is_reserved acc.2 acc'.2 ∧
  ∀ i, i ∈ l → ∃ status, records acc'.2 !! hold_id b i = Some status ∧ as_State status = StateReserved.
Proof.
  induction l as [|i l IH]; intros [n s] Hl Hids; cbn [foldl length]; cbn [snd] in *.
  - split_and!; [cbn; lia|done|done|by intros id st; left|]. by intros i ?%elem_of_nil.
  - destruct (Hl i) as [st Ho]; [by left|]. cbn [create_hold]. rewrite get_records, Ho.
    set (refreshed := refreshed_hold cfg st now). set (s1 := { s with sv_store := (store_Save (sv_store s) refreshed).2 }).
    assert (Hr : records s1 = <[hold_id b i := refreshed]> (records s)).
    { unfold s1. rewrite store_put. change (as_ID refreshed) with (as_ID st). by rewrite (Hids _ _ Ho). }
    assert (Hdom : ∀ id, is_Some (records s !! id) → is_Some (records s1 !! id)).
    { intros id Hid. rewrite Hr, lookup_insert_is_Some. destruct (decide (hold_id b i = id)); tauto. }
    destruct (IH (n + 1, s1)) as (Hc & Hs & Hd & Hg & Hres).
    + cbn [snd]. intros j Hj. apply Hdom, Hl. by right.
    + cbn [snd]. intros id status. rewrite Hr, lookup_insert_Some. intros [[<- <-]|[_ ?]]; [|by apply Hids].
      exact (Hids _ _ Ho).
    + cbn [fst snd] in *. split; [lia|]. split; [by rewrite Hs|]. split; [by intros id Hid; apply Hd, Hdom|]. split.
      * intros id status Ho'. destruct (Hg _ _ Ho') as [Ho1|?]; [|by right].
        rewrite Hr, lookup_insert_Some in Ho1. destruct Ho1 as [[_ <-]|[_ ?]]; [by right|by left].
      * intros j [->|Hj]%elem_of_cons; [|by apply Hres]. destruct (Hd (hold_id b i)) as [st' Ho']; [rewrite Hr, lookup_insert_eq; by eexists|].
        exists st'. split; [done|]. destruct (Hg _ _ Ho') as [Ho1|?]; [|done]. rewrite Hr, lookup_insert_eq in Ho1. by simplify_eq.
Qed.

(** A second restart does not cover its gap: holds are numbered from 0 at every
    start, so when the store still has the holds of an earlier start (alive and
    counted, or ended and without a slot) they are only refreshed.  The whole gap
    is reported as held and not one slot is reserved. *)
Theorem restart_reuses_capacity_holds s pool b gap now :
  0 < gap →
  (∀ id status, store_Get (sv_store s) id = Some status → as_ID status = id) →
  (∀ i, (i < Z.to_nat gap)%nat → is_Some (store_Get (sv_store s) (hold_id b i))) →
  let '(created, s') := createRestartOrphanHolds cfg has_cleanup s pool b gap now in
  created = gap ∧ (∀ pool' b', backendActiveCount s' pool' b' = backendActiveCount s pool' b') ∧
  ∀ i, (i < Z.to_nat gap)%nat → ∃ status, store_Get (sv_store s') (hold_id b i) = Some status ∧ as_State status = StateReserved.
Proof.
  intros Hgap Hids Hl. unfold createRestartOrphanHolds. destruct (Z.leb_spec gap 0); [lia|].
  destruct (refresh_holds pool b now (seq 0 (Z.to_nat gap)) (0, s)) as (Hc & Hs & _ & _ & Hres).
  - intros i Hi%elem_of_seq. cbn [snd]. specialize (Hl i ltac:(lia)). by rewrite get_records in Hl.
  - intros id status Ho. apply Hids. by rewrite get_records.
  - destruct (foldl _ _ _) as [created s']. cbn [fst snd] in *. rewrite length_seq in Hc. split_and!; [lia| |].
    + intros. rewrite !backendActiveCount_slots. unfold slots. by rewrite Hs.
    + intros i Hi. rewrite get_records. apply Hres. apply elem_of_seq. lia.
Qed.
End Background.

(** ** Concrete passes *)

Import Example_broker.
#[local] Existing Instance range_forward.
#[local] Existing Instance keep_order.

Definition warm_ec2 : BackendConfig := { ec2 with bc_WarmMin := 2; bc_WarmMax := 2 }.

Lemma warm_pool_within_bounds_witness :
  let s' := reconcileWarmForBackend config cleanup tally no_zone quiet started lite "ec2" warm_ec2 (store_List (sv_store started)) 20 in
  Z.of_nat (length (filterWarmAllocations (store_List (sv_store s')) "lite" "ec2")) ≤ 2 ∧
  length (filterWarmAllocations (store_List (sv_store s')) "lite" "ec2") = 2%nat.
Proof.
  split; [|vm_compute; reflexivity].
  apply (warm_pool_within_bounds config cleanup tally tally_inj tally_nonblank tally_hold config_pools stored_records 10 started
    no_zone quiet lite "ec2" warm_ec2 20 stored_records_filed started_reachable quiet_behaves).
  - done.
  - apply list_elem_of_singleton. reflexivity.
Defined.

(** A pool of Lambda runners is filled first; while its runner is provisioned, a
    client cancels the warm runner of the other pool. *)
Definition lambda : BackendConfig := { ec2 with bc_WarmMin := 1; bc_WarmMax := 1 }.
Definition first : PoolConfig := { zero_PoolConfig with pc_Name := "first"; pc_Backends := {[ "lambda" := lambda ]} }.
Definition two_pools : BrokerConfig := { config with bk_Pools := [first; lite] }.

Definition cancel_w (s : Service Memory.Memory) : Service Memory.Memory :=
  match Cancel two_pools cleanup 1 s "w" 25 with Some (_, s') => s' | None => s end.

Definition impatient : Environment Memory.Memory :=
  {| env_provision := fun _ => Some (fun _ _ => Ok {| pv_RunnerLabel := "runner"; pv_Metadata := ∅ |});
     env_interfere := cancel_w; env_polls := []; env_later := fun now => now + 1; env_health := None |}.

Lemma stale_warm_snapshot_is_recycled_witness :
  (let s := cancel_w started in
   let s' := recycleWarmAllocation cleanup s lite (record "w" StateWarm) "warm disabled" 30 in
   backendActiveCount s' lite "ec2" = backendActiveCount s lite "ec2" - 1 ∧
   store_CountActive (sv_store s') "lite" "ec2" = store_CountActive (sv_store s) "lite" "ec2") ∧
  (let s := ReconcileWarmPools two_pools cleanup tally no_zone impatient started 20 in
   backendActiveCount s lite "ec2" = store_CountActive (sv_store s) "lite" "ec2" - 1).
Proof.
  split; [|vm_compute; reflexivity].
  destruct (stale_warm_snapshot_is_recycled config cleanup (cancel_w started) lite (record "w" StateWarm)
    (applyMarkState (record "w" StateWarm) StateCanceled 25 "") "warm disabled" 30) as (_ & Ha & Hc);
    [reflexivity|vm_compute; reflexivity|reflexivity|reflexivity|vm_compute; reflexivity|].
  split; [exact Ha|]. etrans; [exact Hc|]. vm_compute. reflexivity.
Defined.

(** A store with a reservation its broker never finished. *)
Definition crashed_records : Memory.Memory :=
  Memory.set_allocations Memory.NewMemory {[ "m" := record "m" StateReserved; "r" := record "r" StateReady ]}.

Lemma crashed_records_filed : well_filed tally (contents crashed_records).
Proof.
  split.
  - intros id st. cbn. rewrite lookup_insert_Some, lookup_singleton_Some.
    intros [[<- <-]|[_ [<- <-]]]; (split; [reflexivity|split; [discriminate|intros _; discriminate]]).
  - intros n. cbn. assert (Hlen : ∀ c, tally n = String c "" → False).
    { intros c He. apply (f_equal String.length) in He. rewrite tally_length in He. cbn in He. lia. }
    rewrite lookup_insert_ne, lookup_singleton_ne by (intros He; by apply (Hlen _ (eq_sym He))). done.
Qed.

Lemma crashed_records_unheld : unheld (contents crashed_records).
Proof. intros b i. cbn. rewrite lookup_insert_ne, lookup_singleton_ne; done. Qed.


(** The hold of [started] has expired when the broker starts again. *)
Definition swept : Service Memory.Memory := (SweepExpired config cleanup started (10 * Hour)).2.

Lemma restart_reuses_capacity_holds_witness :
  let '(created, s') := createRestartOrphanHolds config cleanup swept lite "ec2" 1 (11 * Hour) in
  created = 1 ∧ (∀ pool' b', backendActiveCount s' pool' b' = backendActiveCount swept pool' b') ∧
  (∀ i, (i < 1)%nat → ∃ status, store_Get (sv_store s') (hold_id "ec2" i) = Some status ∧ as_State status = StateReserved).
Proof.
  apply (restart_reuses_capacity_holds config cleanup swept lite "ec2" 1 (11 * Hour)); [reflexivity| |].
  - assert (Hids : map_Forall (fun id status => as_ID status = id) (contents (sv_store swept))) 
      by (apply (bool_decide_eq_true_1 (map_Forall _ _)); vm_compute; reflexivity).
    intros id status Ho. by apply Hids.
  - intros i Hi. assert (i = 0%nat) as -> by lia. eexists. vm_compute. reflexivity.
Defined.
