(* ===== verification/WorkflowBehaviour.v ===== *)
(** What the workflow-job operations and the capacity report do: the pool that
    serves a job, the record a runner belongs to, whose runner is deleted, and a
    report that counts the wrong scheduler. *)

From stdpp Require Import pretty.
From S2P Require Import Prelude Errors Model Store StoreTheory Scheduler SchedulerTheory FairShare FairShareTheory.
From S2P Require Import Registry Backends Budget Capacity Admission Warm Config JobRetry TierPolicy ServicePolicy Service.
From S2P Require Import ServiceFilters ServiceTheory Allocate AllocateTheory CapacityMatrix WorkflowJob WorkflowTheory.
From S2P Require Import Reconcile Restart WarmPool WarmPoolTheory RestartTheory ServiceBehaviour.
Open Scope Z_scope.
Open Scope go_scope.

(** ** Which pool serves a job *)

(** A label as it is compared. *)
Definition canonical_label (label : string) : string := ToLower (TrimSpace label).

(** The pool opted in, serves the repository and has every label of the job. *)
Record serves_job (jobLabels : list string) (repository : string) (pool : PoolConfig) : Prop := {
  sj_opted_in : pc_WebhookLabels pool ≠ [];
  sj_repository : ServesWebhookRepository pool repository = true;
  sj_labels : ∀ label, label ∈ jobLabels → canonical_label label ≠ "" →
    ∃ own, own ∈ pc_WebhookLabels pool ∧ canonical_label own = canonical_label label;
}.

Lemma specific_iff labels :
  specific (normalizeLabelSet labels) = true ↔
  ∃ label, label ∈ labels ∧ canonical_label label ≠ "" ∧ canonical_label label ≠ self_hosted.
Proof.
  unfold specific, canonical_label. rewrite bool_decide_eq_true. split.
  - intros (x & Hx)%set_choose_L. apply elem_of_difference in Hx as [(Hne & l & Hl & ->)%elem_of_normalizeLabelSet Hs].
    exists l. split_and!; [done|done|set_solver].
  - intros (l & Hl & Hne & Hs) He. assert (Hin : ToLower (TrimSpace l) ∈ normalizeLabelSet labels).
    { apply elem_of_normalizeLabelSet. eauto. }
    assert (ToLower (TrimSpace l) ∈ normalizeLabelSet labels ∖ {[self_hosted]}) by set_solver. set_solver.
Qed.

Lemma pool_covers_iff jobLabels repository pool :
  pool_covers (fun pool => ServesWebhookRepository pool repository) (normalizeLabelSet jobLabels) pool = true ↔
  serves_job jobLabels repository pool.
Proof.
  unfold pool_covers. rewrite !andb_true_iff, bool_decide_eq_true, negb_true_iff, Nat.eqb_neq. split.
  - intros [[Hl Hr] Hsub]. split; [by intros He; rewrite He in Hl|done|]. intros label Hin Hne.
    destruct (proj1 (elem_of_normalizeLabelSet (canonical_label label) (pc_WebhookLabels pool))) as (_ & l & Hl' & He).
    { apply Hsub, elem_of_normalizeLabelSet. split; [done|]. by exists label. }
    by exists l.
  - intros [Ho Hr Hl]. split; [split; [by intros He%nil_length_inv|done]|].
    intros x (Hne & label & Hin & ->)%elem_of_normalizeLabelSet. destruct (Hl label Hin Hne) as (own & Hown & He).
    apply elem_of_normalizeLabelSet. split; [done|]. by exists own.
Qed.

(** Matching a job: the pool a webhook allocates from is the first, in the order of
    the configuration, that opted in, serves the repository and has every label of
    the job, compared without case and surrounding spaces; and a job is matched
    only when it names some label besides self-hosted. *)
Theorem webhook_pool_is_first_that_covers cfg jobLabels repository pool :
  MatchWebhookPoolForRepository cfg jobLabels repository = Some pool ↔
  (∃ label, label ∈ jobLabels ∧ canonical_label label ≠ "" ∧ canonical_label label ≠ self_hosted) ∧
  ∃ before after, bk_Pools cfg = before ++ pool :: after ∧ serves_job jobLabels repository pool ∧
    ∀ other, other ∈ before → ¬ serves_job jobLabels repository other.
Proof.
  unfold MatchWebhookPoolForRepository, matchWebhookPool. rewrite <- specific_iff.
  destruct (specific _) eqn:Hs; cbn [negb]; [|naive_solver]. rewrite find_first. split.
  - intros (l1 & l2 & Hp & Hc & Hl). split; [done|]. exists l1, l2. rewrite <- pool_covers_iff. split_and!; [done|done|].
    intros other Ho. rewrite <- pool_covers_iff. by rewrite Hl.
  - intros (_ & l1 & l2 & Hp & Hc%pool_covers_iff & Hl). exists l1, l2. split_and!; [done|done|].
    intros other Ho. apply not_true_is_false. rewrite pool_covers_iff. by apply Hl.
Qed.

(** ** Whose runner it is *)

Section Jobs.
Context `{GoRange} `{QualityRanker} {S : Type} `{!AllocationStore S, !AdmissionStateStore S, !ReliableStore S}.
Context (cfg : BrokerConfig) (has_cleanup : BackendName → bool) (ids : nat → string).
Implicit Types (s : Service S) (now : Time) (status : AllocationStatus) (runner : WorkflowJobRunner).


Hypothesis ids_inj : ∀ n m, ids n = ids m → n = m.
Hypothesis ids_nonblank : ∀ n, ids n ≠ "".
Hypothesis ids_hold : ∀ b i n, ids n ≠ hold_id b i.
Hypothesis pools : pools_named cfg.

(** C22. Webhooks delete at most the job's own runner: in every reachable state, the
    events "running" and "completed" of a job call Cleanup at most once, and only
    for a record that was stored when the event came and that the event may
    delete: one proven to be the runner GitHub named, or, when GitHub named none,
    one bound to the job, or the label-only ARC record allocated for the job. *)
Theorem job_events_delete_only_its_runner (st : S) start s rounds jobID conclusion runner now r s' :
  well_filed ids (contents st) → reachable cfg has_cleanup ids st start s →
  FinalizeWorkflowJob cfg has_cleanup rounds s jobID conclusion runner now = Some (r, s') ∨
  ClaimWorkflowJob cfg has_cleanup rounds s jobID runner now = Some (r, s') →
  ∃ deleted, sv_cleanups s' = sv_cleanups s ++ deleted ∧ (length deleted ≤ 1)%nat ∧
    ∀ allocation, allocation ∈ deleted →
      ∃ status, store_Get (sv_store s) (as_ID allocation) = Some status ∧
        ((has_identity runner = true ∧ proven cfg jobID runner status) ∨
         (has_identity runner = false ∧ executionJob status = jobID) ∨
         (legacyARCWorkflowAllocation cfg status = true ∧ job_of status = Some jobID)).
Proof.
  intros Hm Hr He. assert (Hf : filed s) by (eapply Inv_filed, reachable_inv; done).
  assert (Hd : deletes_entitled cfg jobID runner s s').
  { destruct He; [by eapply FinalizeWorkflowJob_deletes|by eapply ClaimWorkflowJob_deletes]. }
  destruct Hd as (deleted & Hd & Hlen & Hall). exists deleted. split_and!; [done|done|]. intros allocation Hin.
  destruct (Hall allocation Hin) as (status & Hs & Hent). exists status. by rewrite get_records.
Qed.

(** ** The capacity report of fair-share pools *)

Lemma summarize_active s pool name b now :
  su_ActiveAllocations (summarize cfg s pool name b now).1 = matrix_active s pool name ∧
  sv_scheds (summarize cfg s pool name b now).2 = sv_scheds s.
Proof.
  split; [|by apply summarize_frame]. unfold summarize. destruct (matrix_admission s pool name b now) as [status s1].
  repeat (case_match; [done|]). destruct (matrix_budget s1 pool name b now) as [status' s2]. case_match; [done|].
  by destruct (matrix_live _ _ _ _ _ _).
Qed.

Lemma snapshot_fold s pool now l name : ∀ acc : gmap string BackendCapacitySummary * Service S,
  sv_scheds acc.2 = sv_scheds s →
  su_ActiveAllocations <$> ((foldl (fun acc entry =>
    let '(summary, s) := summarize cfg acc.2 pool entry.1 entry.2 now in
    (<[entry.1 := summary]> acc.1, s)) acc l).1 !! name) =
  if decide (name ∈ l.*1) then Some (matrix_active s pool name) else su_ActiveAllocations <$> (acc.1 !! name).
Proof.
  induction l as [|[n b] l IH]; intros acc Hs; cbn [foldl fmap list_fmap fst snd].
  { rewrite decide_False by apply not_elem_of_nil. done. }
  destruct (summarize_active acc.2 pool n b now) as [Ha Hsch].
  destruct (summarize cfg acc.2 pool n b now) as [summary s1]. cbn [fst snd] in *. rewrite IH by (cbn; congruence). cbn [fst].
  destruct (decide (name = n)) as [->|Hne].
  - rewrite lookup_insert_eq, (decide_True (P := n ∈ n :: l.*1)) by left. cbn. rewrite Ha.
    unfold matrix_active. rewrite Hs. by case_decide.
  - rewrite lookup_insert_ne by done. destruct (decide (name ∈ l.*1)) as [Hin|Hin].
    + by rewrite decide_True by by right.
    + rewrite decide_False; [done|]. by intros [?|?]%elem_of_cons.
Qed.

Lemma snapshot_active s pool now name :
  su_ActiveAllocations <$> ((BuildCapacitySnapshot cfg s pool now).1 !! name) =
  (fun _ => matrix_active s pool name) <$> (pc_Backends pool !! name).
Proof.
  unfold BuildCapacitySnapshot. rewrite (snapshot_fold s) by done. cbn [fst]. rewrite lookup_empty.
  assert (Hin : name ∈ (range (pc_Backends pool)).*1 ↔ is_Some (pc_Backends pool !! name)).
  { rewrite (range_perm (pc_Backends pool)), list_elem_of_fmap. split.
    - intros ([n b] & -> & Hb%elem_of_map_to_list). by exists b.
    - intros [b Hb]. exists (name, b). split; [done|]. by apply elem_of_map_to_list. }
  destruct (pc_Backends pool !! name) as [b|]; case_decide as Hd; try done.
  - exfalso. apply Hd, Hin. by exists b.
  - by apply Hin in Hd as [? ?].
Qed.

(** The capacity report of a pool that composes fair share with another scheduler
    reads the wrong scheduler: a reservation takes a slot of the fair-share
    instance, and the ActiveAllocations that the report gives for every backend of
    the pool stay what they were. *)
Theorem fair_share_pool_reports_no_reservation s pool request b now later :
  fs_Enabled (pc_FairShare pool) = true → ForPool pool ≠ KindPriorityFairShare →
  (reserveScheduled s pool request now).1 = Ok b →
  let s' := (reserveScheduled s pool request now).2 in
  backendActiveCount s' pool b = backendActiveCount s pool b + 1 ∧
  ∀ name, su_ActiveAllocations <$> ((BuildCapacitySnapshot cfg s' pool later).1 !! name) =
          su_ActiveAllocations <$> ((BuildCapacitySnapshot cfg s pool later).1 !! name).
Proof.
  intros Hfs Hk Hb. cbn zeta. pose proof (reserveScheduled_slots s pool request now) as Hs. rewrite Hb in Hs. split.
  - rewrite !backendActiveCount_slots, Hs. rewrite decide_True; [done|]. by unfold at_slot.
  - intros name. rewrite !snapshot_active. destruct (pc_Backends pool !! name); [|done]. cbn. f_equal.
    unfold matrix_active. specialize (Hs (ForPool pool) (pc_Name pool) name). unfold slots in Hs.
    rewrite !Registry_Active_kind. rewrite Hs, decide_False; [lia|]. unfold at_slot, pool_kind. rewrite Hfs. intros (? & _). congruence.
Qed.

(** ** Warm runners and the records of their requests *)

(** A request that is served by a warm runner loses its own record: the record it
    was reserved under, which for a queued request is the one its client was told,
    is deleted, and the answer lives under the warm runner's identifier with the
    warm runner's own request, so it names no workflow job. *)
Theorem warm_handover_forgets_the_request l s selected (warm allocation : AllocationStatus) now :
  as_ID warm ≠ as_ID allocation →
  let r := on_warm has_cleanup l s selected warm allocation now in
  store_Get (sv_store r.2) (as_ID allocation) = None ∧
  ∃ handed, r.1 = Done handed None ∧ store_Get (sv_store r.2) (as_ID handed) = Some handed ∧
    as_ID handed = as_ID warm ∧ as_State handed = StateReady ∧ job_of handed = job_of warm.
Proof.
  intros Hne. cbn zeta. unfold on_warm, store_delete. set (s1 := if fs_Enabled _ then _ else _).
  destruct (reliable_delete (sv_store s1) (as_ID allocation)) as [Hres Hc]. destruct (store_Delete _ _) as [err st2].
  cbn in Hres, Hc. subst err. set (s2 := { s1 with sv_store := st2 }). set (handed := hand_over _ _ _ _ _).
  set (s3 := { s2 with sv_store := (store_Save (sv_store s2) handed).2 }).
  assert (Hr3 : records s3 = <[as_ID warm := handed]> (delete (as_ID allocation) (records s1))).
  { exact (eq_trans (proj2 (save_spec s2 handed)) (f_equal (<[as_ID warm := handed]>) Hc)). }
  destruct (recordBudgetUsage_frame s3 (ls_reservePool l) selected now) as [Hf _]. cbn [fst snd]. rewrite !get_records, Hf, Hr3.
  split; [by rewrite lookup_insert_ne, lookup_delete_eq|]. exists handed. split_and!; try done.
  rewrite get_records, Hf, Hr3. apply lookup_insert_eq.
Qed.
End Jobs.

(** ** On a concrete broker *)

Import Example_broker.
#[local] Existing Instance range_forward.
#[local] Existing Instance keep_order.

Definition allocated_once (s : Service Memory.Memory) : Service Memory.Memory :=
  (allocateNow config cleanup tally quiet anonymous s zero_AllocationRequest zero_AllocationStatus 20).2.

(** The first allocation takes the warm runner, the second provisions one called "runner". *)
Definition allocated : Service Memory.Memory := allocated_once (allocated_once started).

Lemma allocated_reachable : reachable config cleanup tally stored_records 10 allocated.
Proof.
  eapply reach_runs; [apply started_reachable|]. eapply runs_then; apply runs_allocate, quiet_behaves.
Qed.

Definition the_runner : WorkflowJobRunner := {| wr_Repository := ""; wr_Name := "runner"; wr_ID := 31; wr_StartedAt := 0 |}.


(** The runner of job 7 finished: it is deleted, and nothing else. *)
Definition finished := FinalizeWorkflowJob config cleanup 2 allocated 7 "success" the_runner 30.

Lemma job_events_delete_only_its_runner_witness :
  ∃ r s', finished = Some (r, s') ∧
  ∃ deleted, sv_cleanups s' = sv_cleanups allocated ++ deleted ∧ (length deleted ≤ 1)%nat ∧
    ∀ allocation, allocation ∈ deleted →
      ∃ status, store_Get (sv_store allocated) (as_ID allocation) = Some status ∧
        ((has_identity the_runner = true ∧ proven config 7 the_runner status) ∨
         (has_identity the_runner = false ∧ executionJob status = 7) ∨
         (legacyARCWorkflowAllocation config status = true ∧ job_of status = Some 7)).
Proof.
  destruct finished as [[r s']|] eqn:Hx; [|vm_compute in Hx; discriminate]. exists r, s'. split; [reflexivity|].
  apply (job_events_delete_only_its_runner config cleanup tally tally_inj tally_nonblank tally_hold config_pools stored_records 10
    allocated 2 7 "success" the_runner 30 r s' stored_records_filed allocated_reachable).
  left. exact Hx.
Defined.

Example one_runner_deleted : option_map (fun a => length (sv_cleanups a.2)) finished = Some (Datatypes.S (length (sv_cleanups allocated))).
Proof. vm_compute. reflexivity. Qed.

(** The configuration the documentation recommends: fair share over round robin. *)
Definition shared_pool : PoolConfig := { lite with pc_FairShare := { zero_FairShareConfig with fs_Enabled := true } }.

Lemma fair_share_pool_reports_no_reservation_witness :
  let s := initial_service Memory.NewMemory in
  let s' := (reserveScheduled s shared_pool zero_AllocationRequest 20).2 in
  backendActiveCount s' shared_pool "ec2" = backendActiveCount s shared_pool "ec2" + 1 ∧
  ∀ name, su_ActiveAllocations <$> ((BuildCapacitySnapshot config s' shared_pool 20).1 !! name) =
          su_ActiveAllocations <$> ((BuildCapacitySnapshot config s shared_pool 20).1 !! name).
Proof.
  apply fair_share_pool_reports_no_reservation; [reflexivity|vm_compute; discriminate|vm_compute; reflexivity].
Defined.

(** Four reservations fill the pool, and the report still offers four slots. *)
Definition filled : Service Memory.Memory :=
  Nat.iter 4 (fun s => (reserveScheduled s shared_pool zero_AllocationRequest 20).2) (initial_service Memory.NewMemory).

Example full_pool_reported_free :
  is_Ok (reserveScheduled filled shared_pool zero_AllocationRequest 20).1 = false ∧
  su_AvailableSlots <$> ((BuildCapacitySnapshot config filled shared_pool 20).1 !! "ec2") = Some 4.
Proof. by vm_compute. Qed.

(** ** Label sets *)

Definition labelled (name : PoolName) (labels : list string) : PoolConfig :=
  { zero_PoolConfig with pc_Name := name; pc_WebhookLabels := labels }.

(** Two pools of one label set, one of them with a label twice: the rules accept
    both, and no job ever matches the second. *)
Definition twice : BrokerConfig :=
  { zero_BrokerConfig with
      bk_Broker := { zero_BrokerRuntimeConfig with br_GitHubWebhook :=
        { (br_GitHubWebhook zero_BrokerRuntimeConfig) with gw_Secret := "secret" } };
      bk_Pools := [labelled "first" ["gpu"]; labelled "second" ["gpu"; "GPU"]] }.

Example repeated_labels_accepted : Config.Validate (fun _ => Fail (Errorf "unknown time zone")) twice = None.
Proof. vm_compute. reflexivity. Qed.

Example second_never_matches jobLabels pool : MatchWebhookPool twice jobLabels = Some pool → pc_Name pool = "first".
Proof.
  unfold MatchWebhookPool, matchWebhookPool. case_match; [done|].
  assert (Hset : pool_covers (fun _ => true) (normalizeLabelSet jobLabels) (labelled "second" ["gpu"; "GPU"]) =
                 pool_covers (fun _ => true) (normalizeLabelSet jobLabels) (labelled "first" ["gpu"])).
  { unfold pool_covers. by replace (normalizeLabelSet (pc_WebhookLabels (labelled "second" ["gpu"; "GPU"])))
      with (normalizeLabelSet (pc_WebhookLabels (labelled "first" ["gpu"]))) by (vm_compute; reflexivity). }
  change (bk_Pools twice) with [labelled "first" ["gpu"]; labelled "second" ["gpu"; "GPU"]]. cbn [find]. rewrite Hset.
  by case_match; intros [= <-].
Qed.

(** ** A warm runner for a queued request and for a job *)

(** A pool whose Lambda runners are kept warm, a warm runner and a queued request. *)
Definition warm_pool : PoolConfig :=
  { lite with pc_Backends := {[ BackendLambda := { ec2 with bc_WarmMax := 1; bc_WarmTTL := Hour } ]} }.
Definition warm_config : BrokerConfig := { config with bk_Pools := [warm_pool] }.

Definition on_lambda (id : string) (state : AllocationState) : AllocationStatus :=
  { record id state with as_SelectedBackend := BackendLambda; as_ExpiresAt := 60 * Minute; as_CreatedAt := 5;
      as_Request := Some { zero_AllocationRequest with ar_JobTimeout := Minute } }.

Definition warm_store : Memory.Memory :=
  Memory.set_allocations Memory.NewMemory {[ "w" := on_lambda "w" StateWarm; "q" := on_lambda "q" StatePending ]}.
Definition warm_broker : Service Memory.Memory := newServiceWithStore warm_config cleanup (fun _ => None) warm_store None 10.

Lemma warm_handover_forgets_the_request_witness :
  let l := {| ls_reservePool := warm_pool; ls_reserveRequest := zero_AllocationRequest; ls_existing := on_lambda "q" StatePending;
              ls_preReserved := None; ls_rateLimitedFallback := ""; ls_capacityFallback := ""; ls_now := 20 |} in
  store_Get (sv_store (on_warm cleanup l warm_broker BackendLambda (on_lambda "w" StateReady) (on_lambda "q" StateReserved) 20).2) "q" = None.
Proof.
  apply (warm_handover_forgets_the_request cleanup _ warm_broker BackendLambda (on_lambda "w" StateReady) (on_lambda "q" StateReserved) 20).
  discriminate.
Defined.

(** The queue's retry of "q" consumes "w": whoever asks for "q" is told it does not exist. *)
Example queued_record_disappears :
  let s := (ReconcileQueue warm_config cleanup tally quiet anonymous warm_broker 20).2 in
  store_Get (sv_store s) "q" = None ∧ as_State <$> store_Get (sv_store s) "w" = Some StateReady.
Proof. by vm_compute. Qed.

(** A second delivery of job 7 creates a second allocation. *)
Example job_allocated_twice :
  let first := AllocateForWorkflowJob warm_config cleanup tally quiet anonymous warm_broker warm_pool 7 "" false 20 in
  let second := AllocateForWorkflowJob warm_config cleanup tally quiet anonymous first.2 warm_pool 7 "" false 30 in
  (snd <$> (fst <$> first.1), findByWorkflowJobID first.2 7, snd <$> (fst <$> second.1)) = (Some true, None, Some true).
Proof. vm_compute. reflexivity. Qed.
