(* ===== verification/HttpBehaviour.v ===== *)
(** What the HTTP surface guarantees: who is let in, and whose allocation a
    request reaches. *)

From S2P Require Import Prelude Errors Model Store StoreTheory Scheduler SchedulerTheory FairShare FairShareTheory.
From S2P Require Import Registry Backends Budget Capacity Admission Warm JobRetry TierPolicy ServicePolicy Service.
From S2P Require Import ServiceFilters ServiceTheory Auth AuthTheory Allocate AllocateTheory CapacityMatrix Http.
From S2P Require Import WorkflowJob WorkflowTheory Reconcile Restart WarmPool WarmPoolTheory RestartTheory ServiceBehaviour.
Open Scope Z_scope.
Open Scope go_scope.

(** ** One record *)

Section Actions.
Context `{GoRange} `{QualityRanker} {S : Type} `{!AllocationStore S, !AdmissionStateStore S, !ReliableStore S}.
Context (cfg : BrokerConfig) (has_cleanup : BackendName → bool) (json : Json).
Implicit Types (s : Service S) (now : Time) (status : AllocationStatus).

Definition same_owner old status : Prop := as_Subject status = as_Subject old ∧ as_Repository status = as_Repository old.

(** An operation on the record [id]: the others stay, its owner stays, and what it
    answers is what is stored. *)
Record on_record (id : string) s s' (answer : option AllocationStatus) : Prop := {
  or_others : ∀ i, i ≠ id → records s' !! i = records s !! i;
  or_owner : ∀ status, records s' !! id = Some status → ∃ old, records s !! id = Some old ∧ same_owner old status;
  or_answer : ∀ status, answer = Some status → records s' !! id = Some status;
}.

Lemma on_record_frame id s s' answer : frame s s' → (∀ status, answer = Some status → records s !! id = Some status) →
  on_record id s s' answer.
Proof. intros (Hr & _) Ha. split; rewrite Hr; [done| |done]. intros status Hs. by exists status. Qed.

Lemma on_record_put id s s' old status : records s !! id = Some old → same_owner old status →
  records s' = <[id := status]> (records s) → on_record id s s' (Some status).
Proof.
  intros Ho Hs Hr. split; rewrite Hr.
  - intros i Hi. by rewrite lookup_insert_ne.
  - intros st. rewrite lookup_insert_eq. intros [= <-]. by exists old.
  - intros st [= <-]. apply lookup_insert_eq.
Qed.

Lemma on_record_silent id s s' answer : on_record id s s' answer → on_record id s s' None.
Proof. by intros [? ? ?]. Qed.

(** Slots, admission and notifications come after. *)
Lemma on_record_after id s s1 s2 answer : on_record id s s1 answer → records s2 = records s1 → on_record id s s2 answer.
Proof. intros [? ? ?] Hr. split; by rewrite Hr. Qed.

Lemma applyMarkState_owner old state now message : same_owner old (applyMarkState old state now message).
Proof. unfold applyMarkState. by repeat case_match. Qed.

Lemma Cancel_on_record rounds s id now r s' : Cancel cfg has_cleanup rounds s id now = Some (r, s') → on_record id s s' r.
Proof.
  revert s. induction rounds as [|rounds IH]; intros s; [done|]. cbn [Cancel]. rewrite get_records.
  destruct (records s !! id) as [old|] eqn:Ho; [|by intros [= <- <-]; apply on_record_frame].
  case_match; [by intros [= <- <-]; apply on_record_frame; [|intros ? [= <-]]|].
  pose proof (cas_spec s id (as_State old) StateCanceled now "") as Hc. cbn zeta in Hc. rewrite Ho in Hc.
  unfold state_eqb in Hc. rewrite bool_decide_true in Hc by done. destruct Hc as [Hr Hc].
  destruct (store_CompareAndMarkState _ _ _ _ _ _) as [updated st]. cbn [fst snd] in Hr, Hc. subst updated.
  set (updated := applyMarkState old StateCanceled now ""). set (s1 := { s with sv_store := st }).
  intros [= <- <-]. eapply on_record_after; [by eapply (on_record_put id s s1 old updated Ho); [apply applyMarkState_owner|]|].
  destruct (notifyLifecycleTerminal_frame s1 updated) as [Hn _].
  destruct (resolvePool cfg _) as [pool|]; [|done].
  by rewrite (proj1 (release_frame has_cleanup (notifyLifecycleTerminal s1 updated) pool _ updated now)).
Qed.

Lemma markState_on_record s id old state now message : records s !! id = Some old →
  (markState s id state now message).1 = Some (applyMarkState old state now message) ∧
  on_record id s (markState s id state now message).2 (Some (applyMarkState old state now message)).
Proof.
  intros Ho. pose proof (markState_spec s id state now message) as Hm. rewrite Ho in Hm. destruct Hm as [Hr (Hs & _)].
  split; [done|]. eapply on_record_put; [exact Ho|apply applyMarkState_owner|done].
Qed.

Lemma Complete_on_record s id request now r err s' : Complete cfg has_cleanup s id request now = (r, err, s') →
  on_record id s s' r.
Proof.
  unfold Complete. rewrite get_records. destruct (records s !! id) as [old|] eqn:Ho; [|by intros [= <- <- <-]; apply on_record_frame].
  destruct (parseCompletionState request) as [[target message]|err']; [|by intros [= <- <- <-]; apply on_record_frame].
  set (message' := if String.eqb _ _ then _ else _).
  assert (Hsame : on_record id s s (Some old)) by (apply on_record_frame; [done|by intros ? [= <-]]).
  destruct (isTerminalAllocationState _); [case_match; by intros [= <- <- <-]|]. case_match; [by intros [= <- <- <-]|].
  destruct (markState_on_record s id old target now message' Ho) as [Hr Hon].
  destruct (markState s id target now message') as [u s1]. cbn [fst snd] in Hr, Hon. subst u.
  intros [= <- <- <-]. eapply on_record_after; [exact Hon|]. case_match; [|done].
  destruct (resolvePool cfg (as_Pool old)) as [pool|]; [|done].
  destruct (release_frame has_cleanup s1 pool (as_SelectedBackend old) old now) as [Hrel _].
  set (s2 := release has_cleanup s1 pool _ _ _) in *. case_match; [|done].
  destruct (recordBackendFailureClass_frame s2 pool (as_SelectedBackend old) (cr_FailureClass request) now) as [Hf _]. by rewrite Hf.
Qed.

Lemma save_runner_on_record s id old status r err s' : records s !! id = Some old → as_ID status = id → same_owner old status →
  save_runner s status = (r, err, s') → on_record id s s' r.
Proof.
  intros Ho Hid Hs. unfold save_runner. destruct (save_spec s status) as [Hn Hc]. rewrite Hid in Hc.
  destruct (store_Save (sv_store s) status) as [e st]. cbn in Hn, Hc. subst e. intros [= <- <- <-].
  eapply on_record_put; [exact Ho|done|exact Hc].
Qed.

Lemma Register_on_record s id now r err s' : filed s → Register s id now = (r, err, s') → on_record id s s' r.
Proof.
  intros Hf. unfold Register. rewrite get_records. destruct (records s !! id) as [old|] eqn:Ho;
    [|by intros [= <- <- <-]; apply on_record_frame].
  case_match; [by intros [= <- <- <-]; apply on_record_frame; [|intros ? [= <-]]|].
  apply save_runner_on_record with (old := old); [done|exact (Hf _ _ Ho)|done].
Qed.

Lemma Claim_on_record s id now r err s' : filed s → Claim s id now = (r, err, s') → on_record id s s' r.
Proof.
  intros Hf. unfold Claim. rewrite get_records. destruct (records s !! id) as [old|] eqn:Ho;
    [|by intros [= <- <- <-]; apply on_record_frame].
  case_match; [by intros [= <- <- <-]; apply on_record_frame; [|intros ? [= <-]]|].
  apply save_runner_on_record with (old := old); [done|exact (Hf _ _ Ho)|done].
Qed.

(** The allocation a response shows. *)
Definition shown (resp : option response) : option AllocationStatus :=
  match resp with
  | Some resp => match re_Body resp with BodyAllocation status => Some status | _ => None end
  | None => None
  end.

Lemma operation_shown id s s' r err : on_record id s s' r →
  on_record id s s' (shown (Some (operation_response r err))).
Proof.
  intros Hon. unfold operation_response. destruct err; [by eapply on_record_silent|].
  destruct r; [done|by eapply on_record_silent].
Qed.

Lemma run_action_on_record rounds s a id body now resp s' : filed s →
  run_action cfg has_cleanup json rounds s a id body now = (resp, s') → on_record id s s' (shown resp).
Proof.
  intros Hf. destruct a; cbn [run_action].
  - destruct (Cancel _ _ _ _ _ _) as [[r t]|] eqn:Hc; intros [= <- <-]; [|by apply on_record_frame].
    apply Cancel_on_record in Hc.
    exact (operation_shown _ _ _ _ None Hc).
  - destruct (decodeCompletionRequest json body); [|by intros [= <- <-]; apply on_record_frame].
    destruct (Complete _ _ _ _ _ _) as [[r err] t] eqn:Hc. intros [= <- <-]. apply Complete_on_record in Hc. by apply operation_shown.
  - destruct (Register s id now) as [[r err] t] eqn:Hc. intros [= <- <-]. apply Register_on_record in Hc; [|done]. by apply operation_shown.
  - destruct (Claim s id now) as [[r err] t] eqn:Hc. intros [= <- <-]. apply Claim_on_record in Hc; [|done]. by apply operation_shown.
Qed.
End Actions.

(** ** Who is let in *)

(** The verifiers a server may have: new, and after any verifications. *)
Inductive serving (crypto : Crypto) : OIDCVerifier → Prop :=
| serving_new : serving crypto NewOIDCVerifier
| serving_verified v rawToken aud issuers now : serving crypto v →
    serving crypto (VerifyToken crypto v rawToken aud issuers now).2.

Lemma serving_answers crypto v : serving crypto v → caches_answers crypto v.
Proof.
  induction 1 as [|v raw aud issuers now _ IH]; [apply NewOIDCVerifier_answers|].
  destruct (VerifyToken _ _ _ _ _ _) as [r v'] eqn:Hv. by apply VerifyToken_authentic in Hv as [? _].
Qed.


Section Access.
Context `{GoRange} `{QualityRanker} {S : Type} `{!AllocationStore S, !AdmissionStateStore S, !ReliableStore S}.
Context (cfg : BrokerConfig) (has_cleanup : BackendName → bool) (ids : nat → string).
Context (crypto : Crypto) (json : Json) (opts : ServerOptions).
Implicit Types (s : Service S) (v : OIDCVerifier) (now : Time) (req : http_request) (claims : OIDCClaims).

Lemma authorize_authentic v req now claims v' : so_allowAnon opts = false → caches_answers crypto v →
  authorize crypto opts v req now = (Ok claims, v') →
  ∃ raw, TrimSpace (hr_Authorization req) = bearer +:+ raw ∧
    authentic crypto (TrimSpace raw) (so_expectedAud opts) (so_allowedIssuers opts) now claims ∧
    policy_allows (so_oidcPolicy opts) claims.
Proof.
  intros Hanon Hc. unfold authorize. rewrite Hanon. case_match; [done|].
  destruct (HasPrefix (TrimSpace (hr_Authorization req)) bearer) eqn:Hp; cbn [negb]; [|done].
  apply prefix_spec in Hp as [raw Hraw]. rewrite Hraw, TrimPrefix_app. case_match; [done|].
  destruct (VerifyToken _ _ _ _ _ _) as [[c|err] v1] eqn:Hv; [|done]. apply VerifyToken_authentic in Hv as [_ Ha]; [|done].
  destruct (AuthorizeOIDCPolicy c (so_oidcPolicy opts)) eqn:Hpol; [done|]. intros [= <- <-]. exists raw.
  split_and!; [done|by apply Ha|by apply AuthorizeOIDCPolicy_None].
Qed.

(** The caller's subject or repository is the record's, or the record is bound to nobody. *)
Definition may_access claims status : Prop :=
  as_Subject status = "" ∨ cl_Sub claims = as_Subject status ∨
  (as_Repository status ≠ "" ∧ EffectiveRepository claims = as_Repository status).

Lemma OwnershipAllows_may claims status : OwnershipAllows claims status = true → may_access claims status.
Proof.
  unfold OwnershipAllows, may_access. destruct (String.eqb_spec (as_Subject status) ""); [tauto|].
  case_match; [done|]. destruct (String.eqb_spec (cl_Sub claims) (as_Subject status)); [tauto|].
  rewrite !andb_true_iff, !negb_true_iff, !String.eqb_neq, String.eqb_eq. intuition.
Qed.

Lemma route_reaches rounds s claims req now resp s' : so_allowAnon opts = false → filed s →
  allocation_route cfg has_cleanup json opts rounds s claims req now = (resp, s') →
  (s' = s ∧ shown resp = None) ∨
  ∃ id status, store_Get (sv_store s) id = Some status ∧ may_access claims status ∧ on_record id s s' (shown resp).
Proof.
  intros Hanon Hf. unfold allocation_route. case_match; [intros [= <- <-]; by left|].
  assert (Haccess : ∀ id, authorizeAllocationAccess opts s claims id = None →
    ∃ status, store_Get (sv_store s) id = Some status ∧ may_access claims status).
  { intros id. unfold authorizeAllocationAccess. rewrite Hanon. cbn [andb].
    destruct (store_Get (sv_store s) id) as [status|]; [|done]. destruct (OwnershipAllows claims status) eqn:Ho; [|done].
    intros _. exists status. split; [done|]. by apply OwnershipAllows_may. }
  destruct (action_of suffixes _) as [[id a]|].
  - case_match; [intros [= <- <-]; by left|]. destruct (authorizeAllocationAccess opts s claims id) eqn:Ha.
    { intros [= <- <-]. by left. }
    intros Hrun. right. destruct (Haccess id Ha) as (status & ? & ?). exists id, status. split_and!; [done|done|].
    by eapply run_action_on_record.
  - case_match; [intros [= <- <-]; by left|]. set (id := TrimPrefix _ _) in *.
    destruct (authorizeAllocationAccess opts s claims id) eqn:Ha; [intros [= <- <-]; by left|]. intros [= <- <-].
    right. destruct (Haccess id Ha) as (status & Hg & ?). exists id, status. split_and!; [done|done|].
    apply on_record_frame; [done|]. rewrite Hg. intros st [= <-]. by rewrite <- get_records.
Qed.

End Access.

(** ** On a concrete broker *)

Module Example_http.
Import Example_broker.
#[local] Existing Instance range_forward.
#[local] Existing Instance keep_order.

Definition issuer : string := "https://token.actions.githubusercontent.com".

Definition caller : OIDCClaims :=
  {| cl_Iss := issuer; cl_Aud := AnyList [AnyString "uecb-broker"]; cl_Sub := "repo:octo/app:ref:refs/heads/main"; cl_Exp := 3600;
     cl_Nbf := 0; cl_Repository := ""; cl_RepositoryOwner := ""; cl_WorkflowRef := ""; cl_JobWorkflowRef := ""; cl_Actor := "mona" |}.

(** One issuer with one key; every signature is right. *)
Definition trusting : Crypto :=
  {| cr_header := fun _ => Ok {| jh_Alg := "RS256"; jh_Kid := "k1"; jh_Typ := "" |};
     cr_claims := fun _ => Ok caller;
     cr_discovery := fun _ => Ok "https://keys";
     cr_jwks := fun _ => Ok [{| jk_Kty := "RSA"; jk_Use := "sig"; jk_Kid := "k1"; jk_Alg := ""; jk_N := "AQAB"; jk_E := "AQAB" |}];
     cr_get := fun _ _ _ => Ok (200, "");
     cr_rsa := fun key _ _ => (pk_N key =? 65537) && (pk_E key =? 65537);
     cr_corrupt := fun _ => "" |}.

Definition no_json : Json :=
  {| js_request := fun _ => Fail (Errorf "EOF"); js_completion := fun _ => Fail (Errorf "EOF");
     js_string := fun _ => Fail (Errorf "EOF"); js_int64 := fun _ => Fail (Errorf "EOF");
     js_ParseDuration := fun _ => Fail (Errorf "EOF") |}.

Definition options : ServerOptions :=
  {| so_allowedIssuers := [issuer]; so_expectedAud := "uecb-broker"; so_allowAnon := false;
     so_oidcPolicy := {| op_AllowedRepositories := ["octo/*"]; op_AllowedOwners := []; op_AllowedActors := [] |} |}.

Definition get_r : http_request :=
  {| hr_Method := "GET"; hr_Path := "/v1/allocations/r"; hr_Authorization := "Bearer aGRy.Y2xt.c2ln"; hr_CorrelationID := "";
     hr_Body := "" |}.

(** 1970, in nanoseconds since the zero time. *)
Definition today : Time := unixToInternal * Second.

Definition answer := handleAllocationByID config cleanup tally trusting no_json options 2 started NewOIDCVerifier get_r today.

Lemma started_filed : filed started.
Proof.
  eapply Inv_filed. eapply (reachable_inv config cleanup tally tally_inj tally_nonblank tally_hold config_pools stored_records 10);
    [apply stored_records_filed|apply started_reachable].
Qed.

(** An entry of spaces lists nothing: such a policy lets everybody in. *)
Example blank_policy_allows_everyone claims :
  AuthorizeOIDCPolicy claims {| op_AllowedRepositories := [" "]; op_AllowedOwners := []; op_AllowedActors := [] |} = None.
Proof. reflexivity. Qed.
End Example_http.

Import Example_broker Example_http.
#[local] Existing Instance range_forward.
#[local] Existing Instance keep_order.

