(* ===== verification/WebhookBehaviour.v ===== *)
(** What the webhook endpoint and its worker achieve: who can make the broker
    act, that a delivery is worked on once, which jobs get a runner, and that the
    worker keeps the broker's states reachable. *)

From stdpp Require Import pretty.
From S2P Require Import Prelude Errors Model Sha256 Store StoreTheory StoreCoordination Scheduler SchedulerTheory FairShare FairShareTheory.
From S2P Require Import Registry Backends Budget Capacity Admission Warm Config JobRetry TierPolicy ServicePolicy Service.
From S2P Require Import ServiceFilters ServiceTheory Auth AuthTheory Allocate AllocateTheory CapacityMatrix WorkflowJob WorkflowTheory.
From S2P Require Import Reconcile Restart WarmPool WarmPoolTheory RestartTheory ServiceBehaviour Webhook HttpBehaviour.
Open Scope Z_scope.
Open Scope go_scope.

(** ** Signatures *)

Lemma validGitHubSignature_true secret body header :
  validGitHubSignature secret body header = true ↔
  ∃ digits, header = "sha256=" +:+ digits ∧ HexDecode digits = Some (HMAC (octets_of secret) (octets_of body)).
Proof.
  unfold validGitHubSignature. destruct (HasPrefix header "sha256=") eqn:Hp; cbn [negb].
  - apply prefix_spec in Hp as [digits ->]. rewrite TrimPrefix_app. split.
    + destruct (HexDecode digits) as [got|] eqn:Hd; [|done]. intros ->%bool_decide_eq_true. by exists digits.
    + intros (d & He & Hd). assert (d = digits) as ->. { by injection He. }
      rewrite Hd. by apply bool_decide_eq_true.
  - split; [done|]. intros (digits & -> & _). assert (HasPrefix ("sha256=" +:+ digits) "sha256=" = true) by (apply prefix_spec; by exists digits). congruence.
Qed.

(** GitHub's own example. *)
Example documented_signature :
  validGitHubSignature "It's a Secret to Everybody" "Hello, World!"
    "sha256=757107ea0eb2509fc211221cce984b8a37570b6d7586c22c46f4379c8b043e17" = true.
Proof. vm_compute. reflexivity. Qed.

Section Endpoint.
Context `{GoRange} {S : Type} `{!AllocationStore S, !AdmissionStateStore S, !WebhookInbox S}.
Context (opts : GitHubWebhookOptions) (payloads : Payloads).
Implicit Types (s : Service S) (h : githubWebhookHandler) (payload : workflowJobPayload).

(** The request carries a job event that GitHub signed with the secret. *)
Record signed (av : arrival) (req : webhook_request) payload : Prop := {
  sg_secret : ∃ secret digits, av_Secret av = Ok secret ∧ secret ≠ "" ∧
    TrimSpace (wq_Signature req) = "sha256=" +:+ digits ∧
    HexDecode digits = Some (HMAC (octets_of secret) (octets_of (wq_Body req)));
  sg_event : TrimSpace (wq_Event req) = "workflow_job";
  sg_payload : pl_Unmarshal payloads (wq_Body req) = Ok payload;
  sg_action : wp_Action payload ∈ ["queued"; "in_progress"; "completed"];
  sg_job : wp_ID payload ≠ 0;
}.

Lemma authenticated_signed av req payload : authenticated payloads av req = inr payload → signed av req payload.
Proof.
  unfold authenticated. case_match; [done|]. destruct (av_Secret av) as [secret|] eqn:Hs; [|done].
  destruct (String.eqb_spec secret ""); [done|]. case_match; [done|].
  destruct (validGitHubSignature secret (wq_Body req) (TrimSpace (wq_Signature req))) eqn:Hv; cbn [negb]; [|done].
  apply validGitHubSignature_true in Hv as (digits & Hd & Hx).
  destruct (String.eqb_spec (TrimSpace (wq_Event req)) "workflow_job") as [He|]; cbn [negb]; [|done].
  destruct (pl_Unmarshal payloads (wq_Body req)) as [p|] eqn:Hp; [|done].
  destruct (existsb _ _) eqn:Ha; cbn [negb]; [|done]. destruct (Z.eqb_spec (wp_ID p) 0) as [|Hid]; [done|]. intros [= <-].
  split; [eauto 6|done|done| |done]. apply existsb_exists in Ha as (a & Hin & ->%String.eqb_eq). by apply list_elem_of_In.
Qed.

(** What a signed delivery may change: the leader claims its GUID and queues it
    for the worker, or turns it down; another replica files it in the inbox. *)
Definition acted av h s (req : webhook_request) payload h' s' : Prop :=
  (leads opts av = true ∧ s' = s ∧
   (wh_workCh h' = wh_workCh h ++ [{| gw_payload := payload; gw_guid := TrimSpace (wq_Delivery req) |}] ∨
    wh_workCh h' = wh_workCh h) ∧ wh_current h' = wh_current h) ∨
  (leads opts av = false ∧ h' = h ∧ ∃ id raw, pl_Marshal payloads payload = Ok raw ∧
   s' = { s with sv_store := (inbox_Enqueue (sv_store s) id raw (av_now av)).2 }).

(** C11. The endpoint is closed to forgeries: a request changes nothing unless its body
    has the HMAC-SHA256 that its signature header claims under the configured
    secret, and is a job event with an identifier.  Then the leader does no more
    than queue that event for its worker, and another replica no more than file
    it in the shared inbox. *)
Theorem only_signed_deliveries_act av (h h' : option githubWebhookHandler) s s' req response :
  handleGitHubWebhook opts payloads av h s req = (response, h', s') →
  (h' = h ∧ s' = s) ∨
  ∃ payload old new, signed av req payload ∧ h = Some old ∧ h' = Some new ∧ acted av old s req payload new s'.
Proof.
  unfold handleGitHubWebhook. destruct h as [h|]; [|intros [= _ <- <-]; by left].
  case_match; [intros [= _ <- <-]; by left|]. unfold serve.
  destruct (authenticated payloads av req) as [|payload] eqn:Ha; [intros [= _ <- <-]; by left|].
  apply authenticated_signed in Ha. destruct (leads opts av) eqn:Hl.
  - destruct (accept av h req payload) as [r h1] eqn:Hacc. intros [= _ <- <-]. right. exists payload, h, h1.
    split_and!; [done|done|done|]. left. split_and!; [done|done| |]; revert Hacc; unfold accept; repeat case_match; intros [= _ <-];
      cbn; auto.
  - unfold enqueueForLeader. destruct (wo_Inbox opts); cbn [negb]; [|intros [= _ <- <-]; by left].
    destruct (pl_Marshal payloads payload) as [raw|] eqn:Hm.
    + match goal with |- context [inbox_Enqueue _ ?i raw _] => set (id := i) end.
      destruct (inbox_Enqueue (sv_store s) id raw (av_now av)) as [err store] eqn:Hq. intros [= _ <- <-].
      right. exists payload, h, h. split_and!; [done|done|done|]. right. split_and!; [done|done|]. exists id, raw. by rewrite Hq.
    + intros [= _ <- <-]. left. split; [done|]. by destruct s.
Qed.
End Endpoint.

(** ** Deliveries and redeliveries *)

(** What happens to a delivery that has a GUID. *)
Inductive delivery_event :=
  | Accepted (guid : string) (at_ : Time)
  | Done (guid : string) (at_ : Time)
  | Failed (guid : string).

Definition guid_of (e : delivery_event) : string :=
  match e with Accepted guid _ | Done guid _ | Failed guid => guid end.

(** The latest event of a GUID. *)
Definition latest (trace : list delivery_event) (guid : string) : option delivery_event :=
  last (filter (fun e => guid_of e = guid) trace).

Lemma latest_snoc trace e guid : latest (trace ++ [e]) guid = if decide (guid_of e = guid) then Some e else latest trace guid.
Proof.
  unfold latest. rewrite filter_app, filter_cons, filter_nil. case_decide; [by rewrite last_snoc|by rewrite app_nil_r].
Qed.

(** After an event of the GUID, the latest one is that event or a later one. *)
Lemma latest_app pre e mid :
  latest (pre ++ e :: mid) (guid_of e) = Some e ∨
  ∃ e', e' ∈ mid ∧ guid_of e' = guid_of e ∧ latest (pre ++ e :: mid) (guid_of e) = Some e'.
Proof.
  induction mid as [|e' mid IH] using rev_ind; [left; by rewrite latest_snoc, decide_True|].
  rewrite (app_assoc pre (e :: mid) [e'] : pre ++ e :: mid ++ [e'] = _), latest_snoc. case_decide as Hg.
  - right. exists e'. split_and!; [set_solver|done|done].
  - destruct IH as [->|(e2 & Hin & Hg2 & ->)]; [by left|]. right. exists e2. split_and!; [set_solver|done|done].
Qed.

Section Deliveries.
Context `{GoRange} {S : Type} `{!AllocationStore S, !AdmissionStateStore S, !WebhookInbox S}.
Context (opts : GitHubWebhookOptions) (payloads : Payloads).
Implicit Types (s : Service S) (h : githubWebhookHandler) (trace : list delivery_event) (now : Time) (guid : string).

(** The event of a request: accepted, when it was queued under a GUID. *)
Definition accepted_event av (req : webhook_request) h h' : list delivery_event :=
  let guid := TrimSpace (wq_Delivery req) in
  if (length (wh_workCh h) <? length (wh_workCh h'))%nat && negb (String.eqb guid "") then [Accepted guid (av_now av)] else [].

Definition settled_event (work : githubWebhookWork) (err : option api_error) now : list delivery_event :=
  if String.eqb (gw_guid work) "" then []
  else [match err with Some _ => Failed (gw_guid work) | None => Done (gw_guid work) now end].

(** Requests and the worker interleave in any order; the clock does not go back. *)
Inductive handled : list delivery_event → Time → githubWebhookHandler → Prop :=
| handled_start now : handled [] now newHandler
| handled_request trace now h av s req response h' s' :
    handled trace now h → now ≤ av_now av → serve opts payloads av h s req = (response, h', s') →
    handled (trace ++ accepted_event av req h h') (av_now av) h'
| handled_take trace now h : handled trace now h → handled trace now (take_work h)
| handled_settle trace now h work err now' :
    handled trace now h → now ≤ now' → wh_current h = Some work →
    handled (trace ++ settled_event work err now') now' (settle_work h err now').

(** The GUIDs of the deliveries that wait or are worked on. *)
Definition guids (l : list githubWebhookWork) : list string := filter (fun guid => guid ≠ "") (gw_guid <$> l).
Definition waiting h : list string := guids (option_list (wh_current h) ++ wh_workCh h).

(** What the tracker has of a GUID, from its latest event. *)
Definition tracked trace now h guid : Prop :=
  match latest trace guid with
  | Some (Accepted _ _) => wh_deliveries h !! guid = Some 0 ∧ guid ∈ waiting h
  | Some (Done _ t) =>
      (wh_deliveries h !! guid = Some (TimeAdd t deliveryTTL) ∨
       (wh_deliveries h !! guid = None ∧ TimeAdd t deliveryTTL ≤ now)) ∧ guid ∉ waiting h
  | _ => wh_deliveries h !! guid = None ∧ guid ∉ waiting h
  end.

(** A GUID may be accepted again after a failure, or when its success has expired. *)
Definition may_accept trace guid now : Prop :=
  match latest trace guid with
  | Some (Accepted _ _) => False
  | Some (Done _ t) => TimeAdd t deliveryTTL ≤ now
  | _ => True
  end.

Record tracking trace now h : Prop := {
  tk_nodup : NoDup (waiting h);
  tk_tracked : ∀ guid, guid ≠ "" → tracked trace now h guid;
  tk_accepts : ∀ pre guid t post, trace = pre ++ Accepted guid t :: post → may_accept pre guid t;
}.

(** An entry may be kept, or pruned when it has expired. *)
Definition kept_or_expired now (before after : option Time) : Prop :=
  after = before ∨ ∃ expiry, before = Some expiry ∧ expiry ≠ 0 ∧ expiry ≤ now ∧ after = None.

Lemma tracked_later trace now now' h h' guid :
  now ≤ now' → kept_or_expired now' (wh_deliveries h !! guid) (wh_deliveries h' !! guid) →
  (guid ∈ waiting h' ↔ guid ∈ waiting h) → tracked trace now h guid → tracked trace now' h' guid.
Proof.
  intros Hn Hd Hw. unfold tracked. destruct (latest trace guid) as [[g t|g t|g]|].
  - intros [Hl Hin]. split; [|tauto]. destruct Hd as [->|(expiry & Hb & Hz & _)]; [done|congruence].
  - intros [Hl Hin]. split; [|tauto]. destruct Hl as [Hl|[Hl Ht]].
    + destruct Hd as [->|(expiry & Hb & _ & He & Ha)]; [by left|]. right. split; [done|]. by simplify_eq.
    + destruct Hd as [->|(expiry & Hb & _)]; [|congruence]. right. split; [done|lia].
  - intros [Hl Hin]. split; [|tauto]. destruct Hd as [->|(expiry & Hb & _)]; [done|congruence].
  - intros [Hl Hin]. split; [|tauto]. destruct Hd as [->|(expiry & Hb & _)]; [done|congruence].
Qed.

Lemma tracked_other trace e now h guid : guid_of e ≠ guid → tracked trace now h guid → tracked (trace ++ [e]) now h guid.
Proof. intros Hne. unfold tracked. by rewrite latest_snoc, decide_False. Qed.

(** One more event that is no acceptance. *)
Lemma accepts_snoc trace e :
  (∀ guid t, e = Accepted guid t → may_accept trace guid t) →
  (∀ pre guid t post, trace = pre ++ Accepted guid t :: post → may_accept pre guid t) →
  ∀ pre guid t post, trace ++ [e] = pre ++ Accepted guid t :: post → may_accept pre guid t.
Proof.
  intros He Ht pre guid t post Heq. destruct post as [|e' post _] using rev_ind.
  - apply app_inj_tail in Heq as [<- ->]. by apply He.
  - rewrite app_comm_cons, app_assoc in Heq. apply app_inj_tail in Heq as [-> _]. by eapply Ht.
Qed.

Lemma seen_false t guid now : Tracker.seen t guid now = false →
  t !! guid = None ∨ ∃ expiry, t !! guid = Some expiry ∧ expiry ≠ 0 ∧ expiry ≤ now.
Proof.
  unfold Tracker.seen. destruct (t !! guid) as [expiry|]; [|by left]. intros [Hz Ha]%orb_false_iff. right. exists expiry.
  split_and!; [done|by intros ->|]. revert Ha. unfold After. lia.
Qed.

(** What claiming a GUID leaves of the others. *)
Lemma claim_spec t guid now t' : Tracker.claim t guid now = (true, t') →
  Tracker.seen t guid now = false ∧ t' !! guid = Some 0 ∧
  ∀ other, other ≠ guid → kept_or_expired now (t !! other) (t' !! other).
Proof.
  unfold Tracker.claim. destruct (Tracker.seen t guid now); [done|]. intros [= <-]. split; [done|]. split; [by rewrite lookup_insert_eq|].
  intros other Hne. rewrite lookup_insert_ne by done. case_match; [|by left]. unfold Tracker.prune_expired.
  destruct (t !! other) as [expiry|] eqn:Ho; [|left; by apply map_lookup_filter_None_2; left].
  destruct (decide (expiry ≠ 0 ∧ expiry ≤ now)) as [[Hz He]|Hn].
  - right. exists expiry. split_and!; [done|done|done|]. apply map_lookup_filter_None_2. right. intros x Hx [= Hb]. simplify_eq.
    revert Hb. cbn. unfold IsZero, After. lia.
  - left. apply map_lookup_filter_Some_2; [done|]. cbn. revert Hn. unfold IsZero, After. intros Hn. lia.
Qed.

Lemma guids_cons work l : guids (work :: l) = (if decide (gw_guid work = "") then [] else [gw_guid work]) ++ guids l.
Proof. unfold guids. rewrite fmap_cons, filter_cons. by repeat case_decide. Qed.

Lemma waiting_push h deliveries work :
  waiting { h with wh_deliveries := deliveries; wh_workCh := wh_workCh h ++ [work] } =
  waiting h ++ (if decide (gw_guid work = "") then [] else [gw_guid work]).
Proof.
  change (guids (option_list (wh_current h) ++ wh_workCh h ++ [work]) =
          guids (option_list (wh_current h) ++ wh_workCh h) ++ (if decide (gw_guid work = "") then [] else [gw_guid work])).
  rewrite (app_assoc _ _ [work]). unfold guids at 1. rewrite fmap_app, filter_app. fold (guids [work]).
  rewrite guids_cons. by rewrite app_nil_r.
Qed.

Lemma waiting_take h : waiting (take_work h) = waiting h.
Proof.
  unfold take_work, waiting. destruct (wh_current h) as [w|] eqn:Hc; [by rewrite Hc|].
  destruct (wh_workCh h) as [|work rest] eqn:Hq; [by rewrite Hc, Hq|done].
Qed.

Lemma waiting_settle h work err now : wh_current h = Some work →
  waiting h = (if decide (gw_guid work = "") then [] else [gw_guid work]) ++ waiting (settle_work h err now).
Proof. intros Hc. unfold waiting, settle_work. rewrite Hc. apply guids_cons. Qed.

(** A delivery that is turned down, and one that is queued. *)
Lemma accept_tracking trace now h av req payload response h' :
  tracking trace now h → now ≤ av_now av → accept av h req payload = (response, h') →
  tracking (trace ++ accepted_event av req h h') (av_now av) h'.
Proof.
  intros [Hnd Ht Hacc] Hn. unfold accept, accepted_event. set (guid := TrimSpace (wq_Delivery req)).
  assert (Hstay : tracking trace (av_now av) h).
  { split; [done| |done]. intros g Hg. apply (tracked_later trace now _ h); [exact Hn|by left|done|by apply Ht]. }
  assert (Hno : (length (wh_workCh h) <? length (wh_workCh h))%nat = false) by (apply Nat.ltb_ge; lia).
  destruct (String.eqb_spec guid "") as [Hb|Hb].
  - cbn [negb]. rewrite andb_false_r, app_nil_r. case_match; intros [= _ <-].
    + split; [rewrite waiting_push; cbn; rewrite decide_True by done; by rewrite app_nil_r| |done].
      intros g Hg. apply (tracked_later trace now _ h); [exact Hn|by left| |by apply Ht]. rewrite waiting_push. cbn.
      rewrite decide_True by done. by rewrite app_nil_r.
    + destruct Hstay. by split.
  - destruct (Tracker.claim (wh_deliveries h) guid (av_now av)) as [[|] t'] eqn:Hc; cbn [negb].
    2: { intros [= _ <-]. change (wh_workCh { h with wh_deliveries := t' }) with (wh_workCh h). rewrite Hno. cbn [andb]. rewrite app_nil_r.
         assert (t' = wh_deliveries h) as ->. { revert Hc. unfold Tracker.claim. case_match; [by intros [= <-]|done]. }
         destruct Hstay. by split. }
    destruct (claim_spec _ _ _ _ Hc) as (Hs & Hz & Hother). specialize (Ht guid Hb) as Hg0.
    assert (Hfree : guid ∉ waiting h ∧ may_accept trace guid (av_now av)).
    { revert Hg0. unfold tracked, may_accept. apply seen_false in Hs as [Hs|(x & Hs & Hx0 & Hx)].
      - destruct (latest trace guid) as [[]|]; rewrite Hs; try naive_solver lia.
      - destruct (latest trace guid) as [[g t|g t|g]|]; rewrite Hs; intros [Hl ?]; [congruence| |congruence|congruence].
        split; [done|]. destruct Hl as [[= ->]|[? ?]]; [done|congruence]. }
    destruct Hfree as [Hfree Hmay]. case_match; intros [= _ <-].
    + match goal with |- context [(length (wh_workCh h) <? ?n)%nat] => replace (length (wh_workCh h) <? n)%nat with true end.
      2: { symmetry. apply Nat.ltb_lt. change (length (wh_workCh h) < length (wh_workCh h ++ [{| gw_payload := payload; gw_guid := guid |}]))%nat.
           rewrite length_app. cbn. lia. }
      cbn [andb negb]. split.
      * rewrite waiting_push. cbn. rewrite decide_False by done. apply NoDup_app. split_and!; [done| |apply NoDup_singleton].
        intros x Hx ->%list_elem_of_singleton. done.
      * intros g Hg. destruct (decide (g = guid)) as [->|Hne].
        { unfold tracked. rewrite latest_snoc, decide_True by done. cbn. split; [done|]. rewrite waiting_push. cbn.
          rewrite decide_False by done. set_solver. }
        apply tracked_other; [done|]. apply (tracked_later trace now _ h); [exact Hn|by apply Hother| |by apply Ht].
        rewrite waiting_push. cbn. rewrite decide_False by done. set_solver.
      * apply accepts_snoc; [|done]. intros g t He. injection He as <- <-. exact Hmay.
    + change (wh_workCh { h with wh_deliveries := Tracker.release t' guid }) with (wh_workCh h).
      rewrite Hno. cbn [andb]. rewrite app_nil_r. split; [done| |done].
      intros g Hg. destruct (decide (g = guid)) as [->|Hne].
      * unfold Tracker.release. revert Hg0 Hmay. unfold tracked, may_accept. cbn. rewrite lookup_delete_eq.
        change (waiting { h with wh_deliveries := delete guid t' }) with (waiting h).
        destruct (latest trace guid) as [[]|]; naive_solver.
      * apply (tracked_later trace now _ h); [exact Hn| |done|by apply Ht]. cbn. unfold Tracker.release. rewrite lookup_delete_ne by done. by apply Hother.
Qed.

Lemma settle_tracking trace now h work err now' :
  tracking trace now h → now ≤ now' → wh_current h = Some work →
  tracking (trace ++ settled_event work err now') now' (settle_work h err now').
Proof.
  intros [Hnd Ht Hacc] Hn Hc. pose proof (waiting_settle h work err now' Hc) as Hw. rewrite Hw in Hnd. unfold settled_event.
  set (guid := gw_guid work) in *. assert (Hd : ∀ g, g ≠ guid → wh_deliveries (settle_work h err now') !! g = wh_deliveries h !! g).
  { intros g Hne. unfold settle_work. rewrite Hc. fold guid. destruct (String.eqb guid ""); [reflexivity|].
    destruct err; [by apply lookup_delete_ne|by apply lookup_insert_ne]. }
  destruct (String.eqb_spec guid "") as [Hb|Hb].
  - rewrite decide_True in Hnd, Hw by done. rewrite app_nil_r. split; [done| |done]. intros g Hg.
    apply (tracked_later trace now _ h); [done|left; apply Hd; congruence|by rewrite Hw|by apply Ht].
  - rewrite decide_False in Hnd, Hw by done. apply NoDup_cons in Hnd as [Hni Hnd]. split; [done| |].
    + intros g Hg. destruct (decide (g = guid)) as [->|Hne].
      * unfold tracked. rewrite latest_snoc. rewrite decide_True by (by destruct err).
        assert (Hl : wh_deliveries (settle_work h err now') !! guid =
                     match err with Some _ => None | None => Some (TimeAdd now' deliveryTTL) end).
        { unfold settle_work. rewrite Hc. fold guid. destruct (String.eqb_spec guid ""); [done|].
          destruct err; [apply lookup_delete_eq|apply lookup_insert_eq]. }
        destruct err; (split; [|done]); [done|by left].
      * apply tracked_other; [by destruct err|].
        apply (tracked_later trace now _ h); [done|left; by apply Hd|rewrite Hw; set_solver|by apply Ht].
    + apply accepts_snoc; [|done]. by destruct err.
Qed.

Lemma handled_tracking trace now h : handled trace now h → tracking trace now h.
Proof.
  induction 1 as [now|trace now h av s req response h' s' _ IH Hn Hs|trace now h _ IH|trace now h work err now' _ IH Hn Hc].
  - split; [constructor|by split; [|apply not_elem_of_nil]|]. by intros [|? ?].
  - revert Hs. unfold serve. destruct (authenticated payloads av req) as [|payload].
    + intros [= _ <- _]. unfold accepted_event. rewrite (proj2 (Nat.ltb_ge _ _)) by lia. cbn [andb]. rewrite app_nil_r.
      destruct IH as [Hnd Ht Hacc]. split; [done| |done]. intros g Hg. apply (tracked_later trace now _ h); [done|by left|done|by apply Ht].
    + destruct (leads opts av).
      * destruct (accept av h req payload) as [r h1] eqn:Ha. intros [= _ <- _]. by eapply accept_tracking.
      * destruct (enqueueForLeader _ _ _ _ _ _) as [r s1]. intros [= _ <- _]. unfold accepted_event.
        rewrite (proj2 (Nat.ltb_ge _ _)) by lia. cbn [andb]. rewrite app_nil_r.
        destruct IH as [Hnd Ht Hacc]. split; [done| |done]. intros g Hg. apply (tracked_later trace now _ h); [done|by left|done|by apply Ht].
  - destruct IH as [Hnd Ht Hacc]. split; [by rewrite waiting_take| |done]. intros g Hg.
    apply (tracked_later trace now _ h); [done| |by rewrite waiting_take|by apply Ht].
    left. unfold take_work. by repeat case_match.
  - by apply (settle_tracking trace now).
Qed.

(** C12. A delivery is worked on once: however requests and the worker interleave, a
    GUID that was accepted is accepted again only after its processing failed, or
    when 24 hours have passed since it succeeded.  And nothing accepted is lost:
    the deliveries that wait or are worked on are exactly those that were accepted
    and not settled, each once. *)
Theorem deliveries_are_worked_on_once trace now h :
  handled trace now h →
  (∀ pre guid t1 mid t2 post, trace = pre ++ Accepted guid t1 :: mid ++ Accepted guid t2 :: post →
     Failed guid ∈ mid ∨ ∃ t, Done guid t ∈ mid ∧ TimeAdd t deliveryTTL ≤ t2) ∧
  NoDup (waiting h) ∧
  ∀ guid, guid ≠ "" → guid ∈ waiting h ↔ ∃ t, latest trace guid = Some (Accepted guid t).
Proof.
  intros [Hnd Ht Hacc]%handled_tracking. split_and!; [|done|].
  - intros pre guid t1 mid t2 post Htr. rewrite app_comm_cons, app_assoc in Htr. specialize (Hacc _ _ _ _ Htr). revert Hacc.
    unfold may_accept. destruct (latest_app pre (Accepted guid t1) mid) as [Hl|([g t|g t|g] & Hin & Hg & Hl)]; cbn in Hl;
      rewrite Hl; [done|done|..]; cbn in Hg; subst g.
    + intros Hle. right. by exists t.
    + by left.
  - intros guid Hg. specialize (Ht guid Hg). unfold tracked in Ht. split.
    + intros Hin. destruct (latest trace guid) as [[g t|g t|g]|] eqn:Hl; [|tauto..]. exists t.
      apply last_Some_elem_of in Hl as [Hgu _]%list_elem_of_filter. by cbn in Hgu; subst g.
    + intros [t Hl]. rewrite Hl in Ht. tauto.
Qed.
End Deliveries.

(** ** Which jobs get a runner *)

Section Processing.
Context `{GoRange} `{QualityRanker} {S : Type} `{!AllocationStore S, !AdmissionStateStore S, !WebhookInbox S}.
Context (cfg : BrokerConfig) (has_cleanup : BackendName → bool) (ids : nat → string).
Context (opts : GitHubWebhookOptions) (payloads : Payloads) (rounds : nat).
Implicit Types (s : Service S) (payload : workflowJobPayload) (repository : string).

(** The policies on forks and actors let the run have a runner. *)
Record trusted_run repository (run : WorkflowRun) : Prop := {
  tr_head : wo_RejectForks opts = true → EqualFold (TrimSpace (rn_HeadRepository run)) repository = true;
  tr_actors : wo_AllowedActors opts ≠ [] →
    matchActor (rn_Actor run) (wo_AllowedActors opts) = true ∧ matchActor (rn_TriggeringActor run) (wo_AllowedActors opts) = true;
}.

(** Why a queued job may get a runner from [pool]. *)
Record entitled (st : step S) s payload (retryFailed : bool) (pool : PoolConfig) : Prop := {
  en_repository : AcceptsWebhookRepository cfg (TrimSpace (wp_FullName payload)) = true;
  en_pool : MatchWebhookPoolForRepository cfg (wp_Labels payload) (TrimSpace (wp_FullName payload)) = Some pool;
  en_policy :
    (wo_RejectForks opts = false ∧ wo_AllowedActors opts = []) ∨
    (retryFailed = true ∧ ∃ old, findByWorkflowJobID s (wp_ID payload) = Some old ∧ isTerminalAllocationState (as_State old) = true) ∨
    (∃ lookup run, st_WorkflowRun st = Some lookup ∧ lookup (TrimSpace (wp_FullName payload)) (wp_RunID payload) = Ok run ∧
       trusted_run (TrimSpace (wp_FullName payload)) run);
}.

(** What an empty reason means. *)
Lemma checkWorkflowRun_ok lookup s repository jobID runID : checkWorkflowRun opts lookup s repository jobID runID = Ok "" →
  (wo_RejectForks opts = false ∧ wo_AllowedActors opts = []) ∨ is_Some (findByWorkflowJobID s jobID) ∨
  ∃ get run, lookup = Some get ∧ get repository runID = Ok run ∧ trusted_run repository run.
Proof.
  unfold checkWorkflowRun. set (actors := wo_AllowedActors opts). destruct (negb _ && _) eqn:Hnone.
  { intros _. left. apply andb_true_iff in Hnone as [Hf%negb_true_iff Ha%Nat.eqb_eq]. by apply nil_length_inv in Ha. }
  destruct (findByWorkflowJobID s jobID); [intros _; right; left; by eexists|]. destruct lookup as [get|]; [|done].
  destruct (get repository runID) as [run|] eqn:Hr; [|done]. destruct (wo_RejectForks opts && _) eqn:Hf; [done|].
  destruct ((0 <? length actors)%nat && _) eqn:Ha; [done|]. intros _. right; right. exists get, run. split_and!; [done|done|].
  split.
  - intros Hrej. rewrite Hrej in Hf. by apply negb_false_iff in Hf.
  - intros Hne. apply andb_false_iff in Ha as [Ha%Nat.ltb_ge|[Hx%negb_false_iff Hy%negb_false_iff]%orb_false_iff]; [|done].
    destruct Hne. apply nil_length_inv. fold actors. lia.
Qed.

End Processing.

(** ** On a concrete broker *)

Import Example_broker.
#[local] Existing Instance range_forward.
#[local] Existing Instance keep_order.

Definition gpu_pool : PoolConfig := { lite with pc_WebhookLabels := ["gpu"] }.
Definition hook_config : BrokerConfig :=
  { config with bk_Pools := [gpu_pool];
      bk_Scope := { (bk_Scope zero_BrokerConfig) with gs_Type := GitHubScopeOrganization; gs_Organization := "acme" } }.

(** A replica that leads, and accepts no forks. *)
Definition hook_options : GitHubWebhookOptions :=
  {| wo_IsLeader := true; wo_Inbox := true; wo_RejectForks := true; wo_AllowedActors := [] |}.

Definition job_event (action : string) : workflowJobPayload :=
  {| wp_Action := action; wp_ID := 7; wp_RunID := 70; wp_RunnerName := ""; wp_RunnerID := 0; wp_StartedAt := 0;
     wp_Labels := ["gpu"]; wp_Conclusion := ""; wp_FullName := "acme/app" |}.

(** Events are written as their action. *)
Definition plain_payloads : Payloads :=
  {| pl_Unmarshal := fun body => Ok (job_event body); pl_Marshal := fun payload => Ok (wp_Action payload) |}.

Definition own_run : WorkflowRun := {| rn_HeadRepository := "Acme/App"; rn_Actor := "alice"; rn_TriggeringActor := "alice" |}.

Definition step_at (now : Time) (run : result WorkflowRun) : step Memory.Memory :=
  {| st_now := now; st_env := quiet; st_WorkflowRun := Some (fun _ _ => run); st_others := fun s => s |}.

Definition hook_broker : Service Memory.Memory :=
  newServiceWithStore hook_config cleanup (fun _ => None) Memory.NewMemory None 10.

Definition delivery (body : string) : webhook_request :=
  {| wq_Method := "POST"; wq_Body := body; wq_Readable := true;
     wq_Signature := "sha256=" +:+ HexEncode (HMAC (octets_of "secret") (octets_of body));
     wq_Event := "workflow_job"; wq_Delivery := "guid-1" |}.

Definition arrives (now : Time) (leader : bool) : arrival :=
  {| av_now := now; av_Secret := Ok "secret"; av_IsLeader := Ok leader; av_random := "00" |}.

Lemma only_signed_deliveries_act_witness :
  let r := handleGitHubWebhook hook_options plain_payloads (arrives 20 true) (Some newHandler) hook_broker (delivery "queued") in
  wh_workCh <$> r.1.2 = Some [{| gw_payload := job_event "queued"; gw_guid := "guid-1" |}] ∧
  ((r.1.2 = Some newHandler ∧ r.2 = hook_broker) ∨
   ∃ payload old new, signed plain_payloads (arrives 20 true) (delivery "queued") payload ∧ Some newHandler = Some old ∧ r.1.2 = Some new ∧
     acted hook_options plain_payloads (arrives 20 true) old hook_broker (delivery "queued") payload new r.2).
Proof.
  set (r := handleGitHubWebhook _ _ _ _ _ _). split; [vm_compute; reflexivity|].
  apply (only_signed_deliveries_act hook_options plain_payloads (arrives 20 true) (Some newHandler) r.1.2 hook_broker r.2 (delivery "queued") r.1.1).
  fold r. by destruct r as [[response h] s].
Defined.

(** A delivery that failed and was sent again. *)
Definition serves (now : Time) (h : githubWebhookHandler) : githubWebhookHandler :=
  (serve hook_options plain_payloads (arrives now true) h hook_broker (delivery "queued")).1.2.
Definition first_accepted : githubWebhookHandler := serves 20 newHandler.
Definition first_failed : githubWebhookHandler := settle_work (take_work first_accepted) (Some (Plain (Errorf "down"))) 30.
Definition accepted_again : githubWebhookHandler := serves 40 first_failed.

Lemma handled_by_serving trace now h at_ events :
  handled hook_options plain_payloads trace now h → now ≤ at_ →
  accepted_event (arrives at_ true) (delivery "queued") h (serves at_ h) = events →
  handled hook_options plain_payloads (trace ++ events) at_ (serves at_ h).
Proof.
  intros Hh Hn <-. unfold serves. destruct (serve _ _ _ _ _ _) as [[response h'] s'] eqn:Hs. cbn [fst snd].
  by eapply (handled_request _ _ trace now h (arrives at_ true)).
Qed.

Lemma redelivered : handled hook_options plain_payloads [Accepted "guid-1" 20; Failed "guid-1"; Accepted "guid-1" 40] 40 accepted_again.
Proof.
  apply (handled_by_serving [Accepted "guid-1" 20; Failed "guid-1"] 30); [|lia|vm_compute; reflexivity].
  apply (handled_settle _ _ [Accepted "guid-1" 20] 20 (take_work first_accepted) {| gw_payload := job_event "queued"; gw_guid := "guid-1" |}
           (Some (Plain (Errorf "down"))) 30); [|lia|vm_compute; reflexivity].
  apply handled_take, (handled_by_serving [] 10); [apply handled_start|lia|vm_compute; reflexivity].
Qed.

Lemma deliveries_are_worked_on_once_witness :
  Failed "guid-1" ∈ [Failed "guid-1"] ∨ ∃ t, Done "guid-1" t ∈ [Failed "guid-1"] ∧ TimeAdd t deliveryTTL ≤ 40.
Proof. exact (proj1 (deliveries_are_worked_on_once hook_options plain_payloads _ 40 accepted_again redelivered) [] "guid-1" 20 [Failed "guid-1"] 40 [] eq_refl). Defined.

Definition queued_served := process hook_config cleanup tally hook_options 1 (step_at 20 (Ok own_run)) hook_broker (job_event "queued") false.


Example queued_job_allocated : option_map (fun r => r.1.1 !! "status") queued_served.1 = Some (Some "allocated").
Proof. vm_compute. reflexivity. Qed.

(** A fork's job changes nothing. *)
Example fork_ignored :
  process hook_config cleanup tally hook_options 1 (step_at 20 (Ok { own_run with rn_HeadRepository := "mallory/app" })) hook_broker
    (job_event "queued") false = (Some (ignored "fork_pull_request"), hook_broker).
Proof. vm_compute. reflexivity. Qed.

(** A completed event overtakes its queued event: the leader could not look up the
    run of the queued event, which stays leased in the inbox; the completed event
    is settled as unknown; when the lease ends the finished job gets a runner. *)
Definition filed_broker : Service Memory.Memory :=
  { hook_broker with sv_store := (inbox_Enqueue (sv_store hook_broker) "guid-0" "queued" 15).2 }.

Definition overtaken :=
  run_work hook_config cleanup tally hook_options plain_payloads 1
    (fun n => step_at (20 + Z.of_nat n) (Fail (Errorf "rate limited"))) 1 filed_broker
    {| gw_payload := job_event "completed"; gw_guid := "guid-1" |}.

Example completed_overtakes_queued :
  overtaken.1 = Some None ∧
  let drained := drainInbox hook_config cleanup tally hook_options plain_payloads 1
                   (fun n => step_at (40 * Second + Z.of_nat n) (Ok own_run)) 1 O overtaken.2 in
  drained.1.1 = Some (1, None) ∧ as_State <$> findByWorkflowJobID drained.2 7 = Some StateReady.
Proof. by vm_compute. Qed.
