(* ===== verification/WebhookReconcileTheory.v ===== *)
(** What a cycle of the reconciler of missed webhooks is made of: the moves every
    operation is a sequence of, the budget they keep to, and the plan a scan
    follows. *)

From stdpp Require Import pretty.
From S2P Require Import Prelude Errors Model Store StoreTheory Scheduler SchedulerTheory FairShare FairShareTheory.
From S2P Require Import Registry Backends Budget Capacity Admission Warm JobRetry TierPolicy ServicePolicy Service.
From S2P Require Import ServiceFilters ServiceTheory Auth Allocate AllocateTheory CapacityMatrix WorkflowJob WorkflowTheory.
From S2P Require Import Reconcile Restart WarmPool WarmPoolTheory RestartTheory ServiceBehaviour Webhook WebhookReconcile.
Open Scope Z_scope.
Open Scope go_scope.

Section Moves.
Context `{GoRange} `{QualityRanker} {S : Type} `{!AllocationStore S, !AdmissionStateStore S, !ReliableStore S, !WebhookInbox S}.
Context (cfg : BrokerConfig) (has_cleanup : BackendName → bool) (ids : nat → string).
Context (opts : GitHubWebhookOptions) (rounds : nat).
Context (lister : WorkflowJobs) (clock : nat → Time) (ctx_Err : scope → nat → option error) (steps : nat → step S).
Implicit Types (w : cycle S) (sc : repoScanner) (st : reconcileState) (now limit : Z).

Local Notation spent := (spent lister).
Local Notation take_call := (take_call lister clock ctx_Err).
Local Notation process_at := (process_at cfg has_cleanup ids opts rounds lister steps).

(** The broker, the requests and the counters are untouched. *)
Definition quiet w w' : Prop :=
  cy_service w' = cy_service w ∧ cy_events w' = cy_events w ∧ cy_sent w' = cy_sent w ∧
  cy_calls w' = cy_calls w ∧ cy_fallback w' = cy_fallback w.

(** And no deep pass was opened or closed. *)
Definition calm w w' : Prop := quiet w w' ∧ rc_deepOpen (cy_state w') = rc_deepOpen (cy_state w).

(** The moves of a cycle whose requests stay below [limit]. *)
Inductive moves limit : cycle S → cycle S → Prop :=
| mv_calm w w' : calm w w' → moves limit w w'
| mv_request w request : spent w < limit → moves limit w (send lister { w with cy_fallback := cy_fallback w + 1 } request)
| mv_process w payload : wp_Action payload = "queued" → moves limit w (process_at w payload).2
| mv_trans w1 w2 w3 : moves limit w1 w2 → moves limit w2 w3 → moves limit w1 w3.

Lemma quiet_refl w : quiet w w.
Proof. by repeat split. Qed.
Lemma calm_refl w : calm w w.
Proof. by repeat split. Qed.
#[local] Hint Resolve quiet_refl calm_refl : core.

Lemma moves_refl limit w : moves limit w w.
Proof. by apply mv_calm. Qed.
#[local] Hint Resolve moves_refl : core.

Lemma take_none w where_ limit w' : take_call w where_ limit = (None, w') →
  w' = { w with cy_fallback := cy_fallback w + 1 } ∧ spent w < limit ∧ ctx_Err where_ (cy_events w) = None.
Proof.
  unfold WebhookReconcile.take_call. destruct (ctx_Err _ _); [done|]. case_match; [done|].
  destruct (Z.leb_spec limit (spent w)); [done|]. by intros [= <-].
Qed.

Lemma take_some w where_ limit err w' : take_call w where_ limit = (Some err, w') → w' = w.
Proof. unfold WebhookReconcile.take_call. repeat case_match; congruence. Qed.

Lemma keepErr_calm w err : calm w (keepErr w err).
Proof. unfold keepErr. by case_match. Qed.

Lemma cutoff_calm w key : calm w (cutoff w key).2.
Proof. unfold cutoff. by case_match. Qed.

Lemma mv_keepErr limit w w' err : moves limit w w' → moves limit w (keepErr w' err).
Proof. intros Hm. eapply mv_trans; [exact Hm|apply mv_calm, keepErr_calm]. Qed.

(** A reserved request is sent. *)
Lemma mv_send limit w where_ w' request : take_call w where_ limit = (None, w') → moves limit w (send lister w' request).
Proof. intros (-> & Hs & _)%take_none. by apply mv_request. Qed.

(** ** Every operation is a sequence of moves *)

Lemma process_jobs_moves limit w repository runID jobs w' :
  process_jobs cfg has_cleanup ids opts rounds lister steps w repository runID jobs = Some w' → moves limit w w'.
Proof.
  revert w. induction jobs as [|job jobs IH]; intros w; cbn [process_jobs]; [by intros [= <-]|].
  case_match; [apply IH|].
  match goal with |- context [process_at w ?p] => pose proof (mv_process limit w p eq_refl) as Hp; destruct (process_at w p) as [[[body [err|]]|] w1] end;
    cbn in Hp; [| |done]; intros Hw; (eapply mv_trans; [exact Hp|]).
  - eapply mv_trans; [apply mv_calm, keepErr_calm|by apply IH in Hw].
  - apply IH in Hw. eapply mv_trans; [|exact Hw]. apply mv_calm. by case_match.
Qed.

Lemma processRun_moves limit w where_ w1 repository runID w' :
  take_call w where_ limit = (None, w1) →
  processRun cfg has_cleanup ids opts rounds lister ctx_Err steps w1 where_ repository runID = Some w' → moves limit w w'.
Proof.
  intros Ht. pose proof (fun r => mv_send limit w where_ w1 r Ht) as Hs. unfold processRun.
  destruct (wj_ListWorkflowJobs _ _ _ _) as [jobs err]. case_match; [intros [= <-]; apply Hs|].
  case_match; [intros [= <-]; apply mv_keepErr, Hs|]. intros Hp%(process_jobs_moves limit). by eapply mv_trans; [apply Hs|].
Qed.

Lemma scan_runs_moves limit w sc where_ window runs e sc' w' :
  scan_runs cfg has_cleanup ids opts rounds lister clock ctx_Err steps w sc where_ window limit runs = (e, sc', w') →
  e ≠ Cut → moves limit w w'.
Proof.
  revert w sc. induction runs as [|runID runs IH]; intros w sc; cbn [scan_runs]; [by intros [= _ _ <-]|].
  destruct (take_call w where_ limit) as [[err|] w1] eqn:Ht; [apply take_some in Ht as ->; by intros [= _ _ <-]|].
  destruct (processRun _ _ _ _ _ _ _ _ _ _ _ _) as [w2|] eqn:Hp; [|by intros [= <- _ _]].
  pose proof (processRun_moves _ _ _ _ _ _ _ Ht Hp) as Hm. destruct (ctx_Err where_ (cy_events w2)).
  - pose proof (cutoff_calm w2 (run_key (sn_repo sc) runID window)) as Hq.
    destruct (cutoff w2 _) as [skip w3]. intros [= _ _ <-] _. eapply mv_trans; [exact Hm|by apply mv_calm].
  - intros Hr He. eapply mv_trans; [exact Hm|]. eapply mv_trans; [|by eapply IH]. by apply mv_calm.
Qed.

Lemma scan_list_moves limit w sc repos since where_ window e sc' w' :
  scan_list cfg lister clock ctx_Err w sc repos since where_ window limit = (e, sc', w') → moves limit w w'.
Proof.
  unfold scan_list. case_match; [by intros [= _ _ <-]|].
  destruct (take_call w where_ limit) as [[err|] w1] eqn:Ht; [apply take_some in Ht as ->; by intros [= _ _ <-]|].
  destruct (wj_ListQueuedWorkflowRuns _ _ _ _) as [runs err]. pose proof (fun r => mv_send limit w where_ w1 r Ht) as Hs.
  case_match.
  - match goal with |- context [cutoff ?w2 ?key] => pose proof (cutoff_calm w2 key) as Hq; destruct (cutoff w2 key) as [skip w3] end.
    intros [= _ _ <-]. eapply mv_trans; [apply Hs|by apply mv_calm].
  - case_match; intros [= _ _ <-]; [apply mv_keepErr|]; (eapply mv_trans; [apply Hs|by apply mv_calm]).
Qed.

Lemma scan_loop_moves limit fuel w sc repos since where_ window e sc' w' :
  scan_loop cfg has_cleanup ids opts rounds lister clock ctx_Err steps fuel w sc repos since where_ window limit = (e, sc', w') →
  e ≠ Some Cut → moves limit w w'.
Proof.
  revert w sc. induction fuel as [|fuel IH]; intros w sc; cbn [scan_loop]; [by intros [= _ _ <-]|].
  case_match; [by intros [= _ _ <-]|].
  assert (Hl : ∀ e1 sc1 w1, (if String.eqb (sn_repo sc) "" then scan_list cfg lister clock ctx_Err w sc repos since where_ window limit
                             else (None, sc, w)) = (e1, sc1, w1) → moves limit w w1).
  { intros e1 sc1 w1. case_match; [apply scan_list_moves|by intros [= _ _ <-]]. }
  destruct (if String.eqb (sn_repo sc) "" then _ else _) as [[[e1|] sc1] w1]; specialize (Hl _ _ _ eq_refl).
  - by intros [= _ _ <-].
  - case_match; [intros Hr He; by eapply mv_trans; [|eapply IH]|]. unfold scan_pending.
    destruct (scan_runs _ _ _ _ _ _ _ _ _ _ _ _ _ _ _) as [[e2 sc2] w2] eqn:Hr2. pose proof (scan_runs_moves _ _ _ _ _ _ _ _ _ Hr2) as Hm2.
    destruct e2 as [|[err|]]; [by intros [= <- _ _]|intros [= _ _ <-] _; eapply mv_trans; [exact Hl|by apply Hm2]|].
    intros Hr He. eapply mv_trans; [exact Hl|]. eapply mv_trans; [by apply Hm2|by eapply IH].
Qed.

Lemma rescue_jobs_moves w get limit rescued l e n w' :
  rescue_jobs cfg has_cleanup ids opts rounds lister clock ctx_Err steps w get limit rescued l = (e, n, w') →
  e ≠ Cut → moves limit w w'.
Proof.
  revert w rescued. induction l as [|c l IH]; intros w rescued; cbn [rescue_jobs]; [by intros [= _ _ <-]|].
  destruct (take_call w CycleScope limit) as [[err|] w1] eqn:Ht; [apply take_some in Ht as ->; by intros [= _ _ <-]|].
  match goal with |- context [send lister w1 ?r] => pose proof (mv_send limit w CycleScope w1 r Ht) as Hs; set (w2 := send lister w1 r) in * end.
  destruct (get _ _ _) as [job|err].
  2: { intros Hr He. eapply mv_trans; [exact Hs|]. eapply mv_trans; [apply mv_calm, keepErr_calm|by eapply IH]. }
  case_match; [intros Hr He; eapply mv_trans; [exact Hs|by eapply IH]|].
  match goal with |- context [process_at w2 ?p] => pose proof (mv_process limit w2 p eq_refl) as Hp; destruct (process_at w2 p) as [[[body [err|]]|] w3] end;
    cbn in Hp; [| |by intros [= <- _ _]].
  - intros Hr He. eapply mv_trans; [exact Hs|]. eapply mv_trans; [exact Hp|].
    eapply mv_trans; [apply mv_calm, keepErr_calm|by eapply IH].
  - assert (Hq : ∀ w4, calm w3 w4 → moves limit w w4).
    { intros w4 Hq. eapply mv_trans; [exact Hs|]. eapply mv_trans; [exact Hp|by apply mv_calm]. }
    destruct (allocated_body body); intros Hr He; (eapply mv_trans; [|by eapply IH]); by apply Hq.
Qed.

Lemma rescueTerminalQueuedJobs_moves w limit e n w' : 0 < limit →
  rescueTerminalQueuedJobs cfg has_cleanup ids opts rounds lister clock ctx_Err steps w limit = (e, n, w') → e ≠ Cut →
  moves limit w w'.
Proof.
  intros Hl. unfold rescueTerminalQueuedJobs. rewrite (proj2 (Z.leb_gt limit 0)) by done.
  destruct (wj_GetWorkflowJob lister); [apply rescue_jobs_moves|by intros [= _ _ <-]].
Qed.

(** At most one request, below [limit]. *)
Definition one_request limit w w' : Prop :=
  quiet w w' ∨ ∃ request, spent w < limit ∧ quiet (send lister { w with cy_fallback := cy_fallback w + 1 } request) w'.

Lemma reconcileRepositories_moves w now r w' :
  reconcileRepositories lister clock ctx_Err w now = (r, w') → one_request reconcileCallBudget w w'.
Proof.
  assert (Hf : fetchRepositories lister clock ctx_Err w now = (r, w') → one_request reconcileCallBudget w w').
  { unfold fetchRepositories. destruct (take_call w CycleScope reconcileCallBudget) as [[err|] w1] eqn:Ht.
    - apply take_some in Ht as ->. intros [= _ <-]. by left.
    - apply take_none in Ht as (-> & Hs & _). destruct (wj_ListRepositories _ _) as [repos err]. cbv zeta.
      destruct (listing_failed err); intros [= _ <-]; right; exists ListRepositories; by repeat split. }
  unfold reconcileRepositories. destruct (rc_repos (cy_state w)); [|done]. case_match; [|done]. intros [= _ <-]. by left.
Qed.

Lemma moves_deepOpen limit w w' : moves limit w w' → rc_deepOpen (cy_state w') = rc_deepOpen (cy_state w).
Proof.
  induction 1 as [w w' [_ Hc]|w request Hs|w payload Hp|w1 w2 w3 _ IH1 _ IH2]; [done|done| |congruence].
  unfold WebhookReconcile.process_at. by destruct (process _ _ _ _ _ _ _ _ _) as [r s].
Qed.

(** The scans of a cycle: the recent one, then perhaps the deep one. *)
Definition scanned w w' : Prop :=
  ∃ limit w0 w1 w2, quiet w w0 ∧ moves limit w0 w1 ∧ quiet w1 w2 ∧
    (limit ≤ reconcileCallBudget ∧ w' = w2 ∨
     limit = reconcileCallBudget - reconcileDeepReserve ∧ ∃ w3, moves (deepScanLimit (spent w2)) w2 w3 ∧ quiet w3 w').

Lemma scans_moves w repos now r w' :
  scans cfg has_cleanup ids opts rounds lister clock ctx_Err steps w repos now = (Some r, w') → scanned w w'.
Proof.
  unfold scans. cbv zeta. set (st := open_deep _ _ _ _). set (limit := if rc_deepOpen st then _ else _). unfold scan.
  destruct (scan_loop _ _ _ _ _ _ _ _ _ _ _ _ _ _ _ _ _) as [[[[|recentErr]|] sc1] w1] eqn:Hr1; [done| |done].
  pose proof (scan_loop_moves _ _ _ _ _ _ _ _ _ _ _ Hr1) as Hm1. assert (Hm : moves limit (set_state w st) w1) by by apply Hm1.
  unfold deep_scan. cbv zeta. set (w2 := set_state w1 _). assert (Hq : quiet w1 w2) by by repeat split.
  assert (Hl : limit ≤ reconcileCallBudget).
  { unfold limit. case_match; unfold reconcileCallBudget, reconcileDeepReserve; lia. }
  case_match eqn:Hstop.
  - intros [= _ <-]. exists limit, (set_state w st), w1, (set_state w2 { cy_state w2 with rc_lastDeepSpent := 0 }).
    split_and!; [by repeat split|done|by repeat split|by left].
  - unfold scan. destruct (scan_loop _ _ _ _ _ _ _ _ _ _ w2 _ _ _ _ _ _) as [[[[|deepErr]|] sc2] w3] eqn:Hr2; [done| |done].
    pose proof (scan_loop_moves _ _ _ _ _ _ _ _ _ _ _ Hr2) as Hm3. intros [= _ <-].
    exists limit, (set_state w st), w1, w2. split_and!; [by repeat split|done|done|]. right.
    split; [|exists w3; split; [by apply Hm3|by repeat split]].
    apply orb_false_iff in Hstop as [[Ho _]%orb_false_iff _]. apply negb_false_iff in Ho.
    assert (He : rc_deepOpen st = true) by (by rewrite <- Ho; symmetry; apply (moves_deepOpen _ _ _ Hm)).
    unfold limit. by rewrite He.
Qed.

(** A cycle: the rescue, the list of repositories, the scans. *)
Lemma cycle_moves s st busy r w :
  ReconcileQueuedGitHubJobs cfg has_cleanup ids opts rounds lister clock ctx_Err steps s st busy = (Some r, w) →
  ∃ w1 w2, moves (reconcileCallBudget / 4) (start_cycle s st) w1 ∧ one_request reconcileCallBudget w1 w2 ∧
    (quiet w2 w ∨ scanned w2 w).
Proof.
  unfold ReconcileQueuedGitHubJobs. cbv zeta. set (w0 := start_cycle s st).
  assert (Hnone : ∃ w1 w2, moves (reconcileCallBudget / 4) w0 w1 ∧ one_request reconcileCallBudget w1 w2 ∧ (quiet w2 w0 ∨ scanned w2 w0)).
  { exists w0, w0. split_and!; [done|by left|by left]. }
  case_match; [by intros [= _ <-]|]. destruct busy; [by intros [= _ <-]|].
  destruct (rescueTerminalQueuedJobs _ _ _ _ _ _ _ _ _ _ _) as [[e n] w1] eqn:Hr.
  assert (Hm : e ≠ Cut → moves (reconcileCallBudget / 4) w0 w1) by (intros He; by eapply rescueTerminalQueuedJobs_moves).
  assert (Hscan : e ≠ Cut → scan_repositories cfg has_cleanup ids opts rounds lister clock ctx_Err steps w1 (clock O) = (Some r, w) →
                  ∃ w1 w2, moves (reconcileCallBudget / 4) w0 w1 ∧ one_request reconcileCallBudget w1 w2 ∧ (quiet w2 w ∨ scanned w2 w)).
  { intros He. specialize (Hm He). unfold scan_repositories. destruct (reconcileRepositories _ _ _ _ _) as [[repos|err] w2] eqn:Hl;
      apply reconcileRepositories_moves in Hl.
    - case_match; [intros [= _ <-]; exists w1, w2; split_and!; [done|done|left; by repeat split]|].
      intros Hsc%scans_moves. exists w1, w2. split_and!; [done|done|by right].
    - intros [= _ <-]. exists w1, w2. split_and!; [done|done|by left]. }
  destruct e as [|[err|]]; [done| |by apply Hscan]. case_match; [|by apply Hscan].
  intros [= _ <-]. exists w1, w1. split_and!; [by apply Hm|by left|by left].
Qed.

(** ** The budget *)

Section Budget.
(** A client that counts its calls counts at least one for every request. *)
Hypothesis charged : wj_counted lister = true →
  ∀ n, 0 ≤ wj_calls lister n None ∧ ∀ request, 1 ≤ wj_calls lister n (Some request).

(** Requests sent. *)
Definition sent w : Z := Z.of_nat (length (cy_sent w)).

Lemma quiet_budget w w' : quiet w w' → sent w' = sent w ∧ spent w' = spent w.
Proof. intros (_ & _ & Hs & Hc & Hf). unfold sent, WebhookReconcile.spent. by rewrite Hs, Hc, Hf. Qed.

Lemma request_budget w request w' : w' = send lister { w with cy_fallback := cy_fallback w + 1 } request →
  sent w' = sent w + 1 ∧ spent w + 1 ≤ spent w'.
Proof.
  intros ->. unfold sent, WebhookReconcile.spent, send, event. cbn. split; [rewrite length_app; cbn; lia|].
  destruct (wj_counted lister) eqn:Hc; [|lia]. destruct (charged eq_refl (cy_events w)) as [_ Hr]. specialize (Hr request). lia.
Qed.

Lemma process_budget w payload w' : w' = (process_at w payload).2 → sent w' = sent w ∧ spent w ≤ spent w'.
Proof.
  intros ->.   unfold WebhookReconcile.process_at. destruct (process _ _ _ _ _ _ _ _ _) as [r s]. cbn.
  unfold sent, WebhookReconcile.spent, event. cbn. split; [done|]. destruct (wj_counted lister) eqn:Hc; [|lia].
  destruct (charged eq_refl (cy_events w)). lia.
Qed.

(** Each request is charged, and is sent only below the limit. *)
Lemma moves_budget limit w w' : moves limit w w' →
  sent w ≤ sent w' ∧ sent w' - sent w ≤ spent w' - spent w ∧ sent w' - sent w ≤ Z.max 0 (limit - spent w).
Proof.
  induction 1 as [w w' [Hq _]|w request Hs|w payload Hp|w1 w2 w3 _ IH1 _ IH2].
  - apply quiet_budget in Hq. lia.
  - pose proof (request_budget w request _ eq_refl). lia.
  - pose proof (process_budget w payload _ eq_refl). lia.
  - lia.
Qed.

Lemma one_request_budget limit w w' : one_request limit w w' → sent w ≤ sent w' ≤ sent w + 1 ∧ sent w' - sent w ≤ spent w' - spent w.
Proof.
  intros [Hq|(request & Hs & Hq)]; apply quiet_budget in Hq; [lia|]. pose proof (request_budget w request _ eq_refl). lia.
Qed.

Lemma cycle_budget s st busy r w :
  ReconcileQueuedGitHubJobs cfg has_cleanup ids opts rounds lister clock ctx_Err steps s st busy = (Some r, w) →
  sent w ≤ reconcileCallBudget.
Proof.
  intros (w1 & w2 & Hm1 & Hm2 & Hs)%cycle_moves. apply moves_budget in Hm1. apply one_request_budget in Hm2.
  assert (Hz : sent (start_cycle s st) = 0 ∧ spent (start_cycle s st) = 0).
  { split; [done|]. unfold WebhookReconcile.spent. by case_match. }
  unfold reconcileCallBudget in *. change (100 / 4) with 25 in Hm1. destruct Hs as [Hq|Hs]; [apply quiet_budget in Hq; lia|].
  destruct Hs as (limit & w3 & w4 & w5 & Hq1 & Hm3 & Hq2 & Hs). apply moves_budget in Hm3. apply quiet_budget in Hq1, Hq2.
  unfold reconcileCallBudget, reconcileDeepReserve in *. destruct Hs as [[Hl ->]|[-> (w6 & Hm4 & Hq3)]]; [lia|].
  apply moves_budget in Hm4. apply quiet_budget in Hq3. unfold deepScanLimit, reconcileCallBudget, reconcileDeepReserve in Hm4.
  revert Hm4. case_match; lia.
Qed.
End Budget.

(** ** The broker *)

Section Broker.
Context (others : ∀ n s, runs cfg has_cleanup ids s (st_others (steps n) s)).
Context (behaved : ∀ n, behaves cfg has_cleanup ids (st_env (steps n))).

Local Notation runs := (runs cfg has_cleanup ids).

Lemma runs_refl s : runs s s.
Proof. by apply runs_elsewhere. Qed.

Lemma process_queued_runs (sp : step S) s payload repository again :
  behaves cfg has_cleanup ids (st_env sp) → runs s (process_queued cfg has_cleanup ids opts sp s payload repository again).2.
Proof.
  intros Hb. unfold process_queued. case_match; [|apply runs_refl]. case_match; [|apply runs_refl]. case_match; [apply runs_refl|].
  match goal with |- context [AllocateForWorkflowJob ?a ?b ?c ?d ?e ?f ?g ?h ?i ?j ?k] =>
    pose proof (runs_job_queued a b c d e f g h i j k Hb) as Hr; destruct (AllocateForWorkflowJob a b c d e f g h i j k) as [[[[allocation created] [err|]]|] s1] end;
    exact Hr.
Qed.

Lemma process_at_runs w payload : wp_Action payload = "queued" → runs (cy_service w) (cy_service (process_at w payload).2).
Proof.
  intros Ha. unfold WebhookReconcile.process_at. set (st := steps (cy_events w)).
  assert (Hr : runs (st_others st (cy_service w)) (process cfg has_cleanup ids opts rounds st (st_others st (cy_service w)) payload true).2).
  { unfold process. rewrite Ha. case_match; [apply runs_refl|]. apply process_queued_runs, behaved. }
  destruct (process _ _ _ _ _ _ _ _ _) as [r s]. cbn in *. eapply runs_then; [apply others|exact Hr].
Qed.

Lemma moves_runs limit w w' : moves limit w w' → runs (cy_service w) (cy_service w').
Proof.
  induction 1 as [w w' [Hq _]|w request Hs|w payload Hp|w1 w2 w3 _ IH1 _ IH2].
  - destruct Hq as [-> _]. apply runs_refl.
  - apply runs_refl.
  - by apply process_at_runs.
  - by eapply runs_then.
Qed.

Lemma cycle_runs s st busy r w :
  ReconcileQueuedGitHubJobs cfg has_cleanup ids opts rounds lister clock ctx_Err steps s st busy = (Some r, w) →
  runs s (cy_service w).
Proof.
  intros (w1 & w2 & Hm1%moves_runs & Hm2 & Hs)%cycle_moves. eapply runs_then; [exact Hm1|].
  assert (H12 : cy_service w2 = cy_service w1) by (destruct Hm2 as [[-> _]|(request & _ & -> & _)]; done). rewrite <- H12.
  destruct Hs as [[-> _]|(limit & w3 & w4 & w5 & [Hq1 _] & Hm3%moves_runs & [Hq2 _] & Hs)]; [apply runs_refl|].
  rewrite <- Hq1. eapply runs_then; [exact Hm3|]. rewrite <- Hq2.
  destruct Hs as [[_ ->]|[_ (w6 & Hm4%moves_runs & [-> _])]]; [apply runs_refl|done].
Qed.
End Broker.

(** ** A scan returns *)

Lemma accepted_nonblank repository : AcceptsWebhookRepository cfg repository = true → repository ≠ "".
Proof. by intros Ha ->. Qed.

(** The repositories a scan has left, that it lists among them. *)
Definition left_over sc : nat := (if String.eqb (sn_repo sc) "" then 0 else 1) + Z.to_nat (sn_remaining sc - (if String.eqb (sn_repo sc) "" then 0 else 1)).

(** Scanning the pending runs moves the position only. *)
Lemma scan_runs_scanner w sc where_ window limit l e sc' w' :
  scan_runs cfg has_cleanup ids opts rounds lister clock ctx_Err steps w sc where_ window limit l = (e, sc', w') →
  ∃ n, sc' = { sc with sn_pos := n }.
Proof.
  revert w sc. induction l as [|runID l IH]; intros w sc; cbn [scan_runs].
  { intros [= _ <- _]. exists (sn_pos sc). by destruct sc. }
  assert (Hsame : ∃ n, sc = { sc with sn_pos := n }) by (exists (sn_pos sc); by destruct sc).
  destruct (take_call w where_ limit) as [[err|] w1]; [by intros [= _ <- _]|].
  destruct (processRun _ _ _ _ _ _ _ _ _ _ _ _) as [w2|]; [|by intros [= _ <- _]].
  destruct (ctx_Err where_ (cy_events w2)).
  - destruct (cutoff _ _) as [[] w3]; intros [= _ <- _]; [by eexists|done].
  - intros (n & ->)%IH. by exists n.
Qed.

Lemma scan_pending_scanner w sc where_ window limit sc' w' :
  scan_pending cfg has_cleanup ids opts rounds lister clock ctx_Err steps w sc where_ window limit = (None, sc', w') →
  sc' = { sc with sn_repo := ""; sn_runs := []; sn_pos := O; sn_remaining := sn_remaining sc - 1 }.
Proof.
  unfold scan_pending. destruct (scan_runs _ _ _ _ _ _ _ _ _ _ _ _ _ _ _) as [[[|[e|]] sc2] w2] eqn:Hr; [done|done|].
  apply scan_runs_scanner in Hr as [n ->]. by intros [= <- _].
Qed.

(** Listing passes over a repository or makes it the pending one. *)
Lemma scan_list_scanner w sc repos since where_ window limit sc' w' :
  sn_repo sc = "" →
  scan_list cfg lister clock ctx_Err w sc repos since where_ window limit = (None, sc', w') →
  (sn_repo sc' = "" ∧ sn_remaining sc' = sn_remaining sc - 1) ∨ (sn_repo sc' ≠ "" ∧ sn_remaining sc' = sn_remaining sc).
Proof.
  intros Hb. unfold scan_list. destruct (AcceptsWebhookRepository cfg _) eqn:Ha; cbn [negb].
  2: { intros [= <- _]. by left. }
  apply accepted_nonblank in Ha. destruct (take_call w where_ limit) as [[err|] w1]; [done|].
  destruct (wj_ListQueuedWorkflowRuns _ _ _ _) as [runs err]. cbv zeta.
  destruct (ctx_Err _ _); [by destruct (cutoff _ _)|]. destruct (listing_failed err); intros [= <- _]; [by left|by right].
Qed.

Lemma scan_loop_ends fuel w sc repos since where_ window limit :
  (left_over sc < fuel)%nat →
  (scan_loop cfg has_cleanup ids opts rounds lister clock ctx_Err steps fuel w sc repos since where_ window limit).1.1 ≠ None.
Proof.
  revert w sc. induction fuel as [|fuel IH]; intros w sc Hf; [lia|]. cbn [scan_loop]. case_match eqn:Hdone; [done|].
  apply andb_false_iff in Hdone.
  assert (Hp : ∀ w1 sc1, sn_remaining sc1 = sn_remaining sc →
    (let '(e, sc, w) := scan_pending cfg has_cleanup ids opts rounds lister clock ctx_Err steps w1 sc1 where_ window limit in
     match e with
     | Some e => (Some e, sc, w)
     | None => scan_loop cfg has_cleanup ids opts rounds lister clock ctx_Err steps fuel w sc repos since where_ window limit
     end).1.1 ≠ None).
  { intros w1 sc1 Hr1. destruct (scan_pending _ _ _ _ _ _ _ _ _ _ _ _ _ _) as [[[e|] sc2] w2] eqn:Hr2; [done|].
    apply scan_pending_scanner in Hr2 as ->. apply IH. revert Hf. unfold left_over. cbn. rewrite Hr1.
    destruct (String.eqb_spec (sn_repo sc) "") as [Hb|Hb]; [|lia].
    destruct Hdone as [Hr%Z.leb_gt|]; [|done]. lia. }
  destruct (String.eqb_spec (sn_repo sc) "") as [Hb|Hb].
  - destruct Hdone as [Hr%Z.leb_gt|]; [|done].
    destruct (scan_list _ _ _ _ _ _ _ _ _ _ _) as [[[e|] sc1] w1] eqn:Hl; [done|]. apply scan_list_scanner in Hl; [|done].
    destruct Hl as [[Hb1 Hr1]|[Hb1 Hr1]].
    + rewrite Hb1. cbn. apply IH. revert Hf. unfold left_over. rewrite Hb, Hb1, Hr1. cbn. lia.
    + destruct (String.eqb_spec (sn_repo sc1) ""); [done|]. by apply Hp.
  - destruct (String.eqb_spec (sn_repo sc) ""); [done|]. by apply Hp.
Qed.

(** The scan is total: its fuel is enough. *)
Lemma scan_ends w sc repos since where_ window limit :
  (scan cfg has_cleanup ids opts rounds lister clock ctx_Err steps w sc repos since where_ window limit).1.1 ≠ None.
Proof.
  unfold scan. apply scan_loop_ends. unfold left_over, scan_fuel. case_match; lia.
Qed.

(** ** The plan of a scan *)

Section Plan.
Context (where_ : scope) (repos : list string) (since : Time) (window : Duration) (answers : string → list Z).
(** The context does not end, and GitHub's answers do not change. *)
Hypothesis no_deadline : ∀ n, ctx_Err where_ n = None.
Hypothesis steady : ∀ n repository, ∃ err,
  wj_ListQueuedWorkflowRuns lister n repository since = (answers repository, err) ∧ listing_failed err = None.

Definition repository_at (c : Z) : string := TrimSpace (default "" (repos !! Z.to_nat (c mod Z.of_nat (length repos)))).

(** A repository: its queued runs, and the jobs of each. *)
Definition unit_requests (repository : string) : list list_request :=
  ListQueuedWorkflowRuns repository since :: (ListWorkflowJobs repository <$> answers repository).

(** The next [n] repositories from a cursor, in a circle. *)
Fixpoint upcoming (c : Z) (n : nat) : list list_request :=
  match n with
  | O => []
  | Datatypes.S n =>
      (if AcceptsWebhookRepository cfg (repository_at c) then unit_requests (repository_at c) else []) ++ upcoming (c + 1) n
  end.

Definition plan sc : list list_request :=
  if String.eqb (sn_repo sc) "" then upcoming (sn_cursor sc) (Z.to_nat (sn_remaining sc))
  else (ListWorkflowJobs (sn_repo sc) <$> drop (sn_pos sc) (sn_runs sc)) ++
       upcoming (sn_cursor sc) (Z.to_nat (sn_remaining sc - 1)).

Lemma upcoming_mod c n : upcoming (c mod Z.of_nat (length repos) + 1) n = upcoming (c + 1) n.
Proof.
  assert (Hgen : ∀ n c c', c mod Z.of_nat (length repos) = c' mod Z.of_nat (length repos) → upcoming c n = upcoming c' n).
  { clear c n. induction n as [|n IH]; intros c c' He; [done|]. cbn [upcoming]. unfold repository_at. rewrite He. f_equal.
    apply IH. rewrite (Zplus_mod c 1), (Zplus_mod c' 1), He. done. }
  apply Hgen. destruct (decide (length repos = O)) as [->|Hn]; [by rewrite !Zmod_0_r|]. by rewrite Zplus_mod_idemp_l.
Qed.

Lemma process_jobs_sent w repository runID jobs w' :
  process_jobs cfg has_cleanup ids opts rounds lister steps w repository runID jobs = Some w' → cy_sent w' = cy_sent w.
Proof.
  revert w. induction jobs as [|job jobs IH]; intros w; cbn [process_jobs]; [by intros [= <-]|]. case_match; [apply IH|].
  match goal with |- context [process_at w ?p] => assert (Hs : cy_sent (process_at w p).2 = cy_sent w) end.
  { unfold WebhookReconcile.process_at. by destruct (process _ _ _ _ _ _ _ _ _) as [r s]. }
  destruct (process_at w _) as [[[body [err|]]|] w1]; cbn in Hs; [| |done]; intros ->%IH; rewrite <- Hs.
  - apply keepErr_calm.
  - by destruct (allocated_body body).
Qed.

Lemma processRun_sent w repository runID w' :
  processRun cfg has_cleanup ids opts rounds lister ctx_Err steps w where_ repository runID = Some w' →
  cy_sent w' = cy_sent w ++ [ListWorkflowJobs repository runID].
Proof.
  unfold processRun. destruct (wj_ListWorkflowJobs _ _ _ _) as [jobs err]. rewrite no_deadline.
  destruct (listing_failed err); [|by intros ->%process_jobs_sent]. intros [= <-]. apply keepErr_calm.
Qed.

Local Notation scan_runs := (scan_runs cfg has_cleanup ids opts rounds lister clock ctx_Err steps).
Local Notation scan_loop := (scan_loop cfg has_cleanup ids opts rounds lister clock ctx_Err steps).
Local Notation jobs sc := (fmap (ListWorkflowJobs (sn_repo sc))).

Lemma scan_runs_plan w sc limit l e sc' w' :
  l = drop (sn_pos sc) (sn_runs sc) → scan_runs w sc where_ window limit l = (e, sc', w') → e ≠ Cut →
  ∃ part n, cy_sent w' = cy_sent w ++ part ∧ sc' = { sc with sn_pos := n } ∧
    jobs sc l = part ++ jobs sc (drop n (sn_runs sc)) ∧ (e = Ended None → drop n (sn_runs sc) = []).
Proof.
  revert w sc. induction l as [|runID l IH]; intros w sc Hl; cbn [WebhookReconcile.scan_runs].
  { intros [= <- <- <-] _. exists [], (sn_pos sc). rewrite <- Hl, app_nil_r. split_and!; [done|by destruct sc|done|done]. }
  destruct (take_call w where_ limit) as [[err|] w1] eqn:Ht.
  { apply take_some in Ht as ->. intros [= <- <- <-] _. exists [], (sn_pos sc). rewrite <- Hl, app_nil_r.
    split_and!; [done|by destruct sc|done|done]. }
  apply take_none in Ht as (-> & _). destruct (processRun _ _ _ _ _ _ _ _ _ _ _ _) as [w2|] eqn:Hp; [|by intros [= <- _ _]].
  apply processRun_sent in Hp. rewrite no_deadline. intros Hr He.
  apply (IH _ { sc with sn_pos := Datatypes.S (sn_pos sc) }) in Hr as (part & n & Hs & -> & Hj & Hend); [| |done].
  - exists (ListWorkflowJobs (sn_repo sc) runID :: part), n. split_and!; [|done| |done].
    + rewrite Hs. change (cy_sent (clear_cutoff w2 ?k)) with (cy_sent w2). rewrite Hp. by rewrite <- app_assoc.
    + rewrite fmap_cons. cbn in Hj. by rewrite Hj.
  - cbn. rewrite <- Nat.add_1_r, <- drop_drop, <- Hl. done.
Qed.

(** A scan sends the next requests of its plan, and all of them when it ends by itself. *)
Lemma scan_loop_plan fuel w sc limit e sc' w' :
  scan_loop fuel w sc repos since where_ window limit = (Some (Ended e), sc', w') →
  ∃ part, cy_sent w' = cy_sent w ++ part ∧ plan sc = part ++ plan sc' ∧ (e = None → plan sc' = []).
Proof.
  revert w sc. induction fuel as [|fuel IH]; intros w sc; cbn [WebhookReconcile.scan_loop]; [done|].
  destruct ((sn_remaining sc <=? 0) && String.eqb (sn_repo sc) "") eqn:Hdone.
  { apply andb_true_iff in Hdone as [Hr%Z.leb_le Hb]. intros [= <- <- <-]. exists []. rewrite app_nil_r. split_and!; [done|done|].
    intros _. unfold plan. rewrite Hb. by replace (Z.to_nat (sn_remaining sc)) with O by lia. }
  apply andb_false_iff in Hdone.
  (* the pending runs of [sc1], after what [sc] sent so far *)
  assert (Hp : ∀ w1 sc1 part1, sn_repo sc1 ≠ "" → cy_sent w1 = cy_sent w ++ part1 → plan sc = part1 ++ plan sc1 →
    (let '(e, sc, w) := scan_pending cfg has_cleanup ids opts rounds lister clock ctx_Err steps w1 sc1 where_ window limit in
     match e with
     | Some e => (Some e, sc, w)
     | None => scan_loop fuel w sc repos since where_ window limit
     end) = (Some (Ended e), sc', w') →
    ∃ part, cy_sent w' = cy_sent w ++ part ∧ plan sc = part ++ plan sc' ∧ (e = None → plan sc' = [])).
  { intros w1 sc1 part1 Hb1 Hs1 Hplan1. unfold scan_pending.
    destruct (scan_runs w1 sc1 where_ window limit _) as [[e2 sc2] w2] eqn:Hr2.
    destruct e2 as [|e2]; [done|]. apply scan_runs_plan in Hr2 as (part2 & n & Hs2 & -> & Hj & Hend); [|done|done].
    assert (Hplan2 : plan sc1 = part2 ++ jobs sc1 (drop n (sn_runs sc1)) ++ upcoming (sn_cursor sc1) (Z.to_nat (sn_remaining sc1 - 1))).
    { unfold plan. destruct (String.eqb_spec (sn_repo sc1) ""); [done|]. rewrite Hj. by rewrite <- app_assoc. }
    destruct e2 as [err|].
    - intros [= <- <- <-]. exists (part1 ++ part2). rewrite Hs2, Hs1, <- !app_assoc. split_and!; [done| |done].
      rewrite Hplan1, Hplan2. f_equal. f_equal. unfold plan. cbn. by destruct (String.eqb_spec (sn_repo sc1) "").
    - intros (part3 & Hs3 & Hplan3 & Hend3)%IH. exists (part1 ++ part2 ++ part3). split_and!; [|..|done].
      + rewrite Hs3, Hs2, Hs1. by rewrite <- !app_assoc.
      + rewrite Hplan1, Hplan2, Hend by done. rewrite <- !app_assoc. do 2 f_equal. rewrite <- Hplan3. done. }
  destruct (String.eqb_spec (sn_repo sc) "") as [Hb|Hb].
  2: { destruct (String.eqb_spec (sn_repo sc) ""); [done|]. intros Hr. eapply (Hp w sc []); [done|by rewrite app_nil_r|done|exact Hr]. }
  destruct Hdone as [Hrem%Z.leb_gt|]; [|done].
  assert (Hplan : plan sc = (if AcceptsWebhookRepository cfg (repository_at (sn_cursor sc)) then unit_requests (repository_at (sn_cursor sc)) else []) ++
    upcoming (sn_cursor sc + 1) (Z.to_nat (sn_remaining sc - 1))).
  { unfold plan. rewrite Hb. cbn. by replace (Z.to_nat (sn_remaining sc)) with (Datatypes.S (Z.to_nat (sn_remaining sc - 1))) by lia. }
  unfold scan_list. cbv zeta. fold (repository_at (sn_cursor sc)). set (repository := repository_at (sn_cursor sc)) in *.
  set (idx := sn_cursor sc mod _).
  destruct (AcceptsWebhookRepository cfg repository) eqn:Ha; cbn [negb].
  2: { cbn. rewrite Hb. cbn. intros (part3 & Hs3 & Hplan3 & Hend3)%IH. exists part3. split_and!; [done| |done].
       rewrite Hplan, <- Hplan3. cbn. unfold plan. cbn. rewrite Hb. symmetry. apply upcoming_mod. }
  destruct (take_call w where_ limit) as [[err|] w1] eqn:Ht.
  { apply take_some in Ht as ->. intros [= <- <- <-]. exists []. by rewrite app_nil_r. }
  apply take_none in Ht as (-> & _). destruct (steady (cy_events { w with cy_fallback := cy_fallback w + 1 }) repository) as (err & -> & Hok).
  cbv zeta. rewrite no_deadline, Hok. intros Hr.
  apply accepted_nonblank in Ha. revert Hr. cbn [sn_repo]. intros Hr.
  destruct (String.eqb_spec (sn_repo { sc with sn_cursor := idx + 1; sn_repo := repository; sn_runs := answers repository; sn_pos := O }) "") as [He|He]; [done|].
  refine (Hp _ _ [ListQueuedWorkflowRuns repository since] He _ _ Hr); [done|].
  rewrite Hplan. unfold plan. apply String.eqb_neq in He. rewrite He. cbn. do 2 f_equal. symmetry. apply upcoming_mod.
Qed.
End Plan.
End Moves.
