(* ===== verification/WebhookReconcileBehaviour.v ===== *)
(** What the reconciler of missed webhooks achieves: its API budget, the slots it
    keeps, and the repositories and runs it looks at. *)

From stdpp Require Import pretty.
From S2P Require Import Prelude Errors Model Store StoreTheory Scheduler SchedulerTheory FairShare FairShareTheory.
From S2P Require Import Registry Backends Budget Capacity Admission Warm JobRetry TierPolicy ServicePolicy Service.
From S2P Require Import ServiceFilters ServiceTheory Auth Allocate AllocateTheory CapacityMatrix WorkflowJob WorkflowTheory.
From S2P Require Import Reconcile Restart WarmPool WarmPoolTheory RestartTheory ServiceBehaviour Webhook WebhookBehaviour.
From S2P Require Import WebhookReconcile WebhookReconcileTheory.
Open Scope Z_scope.
Open Scope go_scope.

Section Behaviour.
Context `{GoRange} `{QualityRanker} {S : Type} `{!AllocationStore S, !AdmissionStateStore S, !ReliableStore S, !WebhookInbox S}.
Context (cfg : BrokerConfig) (has_cleanup : BackendName → bool) (ids : nat → string).
Context (opts : GitHubWebhookOptions) (rounds : nat).
Context (lister : WorkflowJobs) (clock : nat → Time) (ctx_Err : scope → nat → option error) (steps : nat → step S).
Implicit Types (w : cycle S) (sc : repoScanner) (s : Service S).

Local Notation reconcile := (ReconcileQueuedGitHubJobs cfg has_cleanup ids opts rounds lister clock ctx_Err steps).
Local Notation scan := (scan cfg has_cleanup ids opts rounds lister clock ctx_Err steps).

(** C14. The API budget: one cycle sends at most 100 list requests to GitHub, whatever
    GitHub answers, however many repositories, runs and jobs there are and however
    the contexts end - also when the deep scan gets its reserve after the recent
    scan overshot its share - as long as a client that counts its calls counts at
    least one per request. *)
Theorem cycles_keep_to_the_budget s st busy r w :
  (wj_counted lister = true →
   ∀ n, 0 ≤ wj_calls lister n None ∧ ∀ request, 1 ≤ wj_calls lister n (Some request)) →
  reconcile s st busy = (Some r, w) → (length (cy_sent w) ≤ 100)%nat.
Proof.
  intros Hc Hr. pose proof (cycle_budget cfg has_cleanup ids opts rounds lister clock ctx_Err steps Hc s st busy r w Hr) as Hb.
  unfold sent, reconcileCallBudget in Hb. lia.
Qed.

(** Serving missed jobs keeps the slots: from every reachable state of the broker a
    cycle ends in a reachable state, whatever the other goroutines do meanwhile, so
    every backend still has as many occupied slots as the store holds records. *)
Theorem serving_missed_jobs_keeps_slots (store : S) start s st busy r w pool b :
  (∀ n m, ids n = ids m → n = m) → (∀ n, ids n ≠ "") → (∀ b i n, ids n ≠ hold_id b i) → pools_named cfg →
  (∀ n t, runs cfg has_cleanup ids t (st_others (steps n) t)) → (∀ n, behaves cfg has_cleanup ids (st_env (steps n))) →
  well_filed ids (contents store) → reachable cfg has_cleanup ids store start s →
  reconcile s st busy = (Some r, w) → resolvePool cfg (pc_Name pool) = Ok pool →
  reachable cfg has_cleanup ids store start (cy_service w) ∧
  backendActiveCount (cy_service w) pool b = store_CountActive (sv_store (cy_service w)) (pc_Name pool) b.
Proof.
  intros Hinj Hnb Hh Hp Ho Hb Hf Hs Hr Hpool.
  assert (Hreach : reachable cfg has_cleanup ids store start (cy_service w)).
  { eapply reach_runs; [exact Hs|]. eapply cycle_runs; [exact Ho|exact Hb|exact Hr]. }
  split; [done|]. eapply inv_counts; [|exact Hpool]. by eapply reachable_inv.
Qed.

(** A pass that starts with the next repository. *)
Definition fresh_pass (repos : list string) sc : Prop :=
  sn_repo sc = "" ∧ sn_remaining sc = Z.of_nat (length repos).

Lemma upcoming_in repos since answers c n k : (k < n)%nat →
  AcceptsWebhookRepository cfg (repository_at repos (c + Z.of_nat k)) = true →
  ∀ request, request ∈ unit_requests since answers (repository_at repos (c + Z.of_nat k)) → request ∈ upcoming cfg repos since answers c n.
Proof.
  revert c k. induction n as [|n IH]; intros c k Hk Ha request Hin; [lia|]. cbn [upcoming]. destruct k as [|k].
  - rewrite Z.add_0_r in *. rewrite Ha. set_solver.
  - apply elem_of_app. right. apply (IH (c + 1) k); [lia|..]; by replace (c + 1 + Z.of_nat k) with (c + Z.of_nat (Datatypes.S k)) by lia.
Qed.

(** Every repository is one of the next as many as there are. *)
Lemma repository_within repos repository c : repository ∈ repos →
  ∃ k, (k < length repos)%nat ∧ repository_at repos (c + Z.of_nat k) = TrimSpace repository.
Proof.
  intros [i Hi]%list_elem_of_lookup. pose proof (lookup_lt_Some _ _ _ Hi) as Hlt. set (len := Z.of_nat (length repos)).
  assert (Hlen : 0 < len) by lia. exists (Z.to_nat ((Z.of_nat i - c) mod len)).
  pose proof (Z.mod_pos_bound (Z.of_nat i - c) len Hlen) as Hb. split; [lia|]. unfold repository_at. fold len.
  rewrite Z2Nat.id by lia. rewrite Zplus_mod_idemp_r. replace (c + (Z.of_nat i - c)) with (Z.of_nat i) by lia.
  rewrite Z.mod_small by lia. by rewrite Nat2Z.id, Hi.
Qed.

End Behaviour.

(** ** On a concrete broker *)

Import Example_broker.
#[local] Existing Instance range_forward.
#[local] Existing Instance keep_order.

(** Two repositories within the scope, one without: each has runs with a queued job. *)
Definition queued_job (id : Z) : github_job := {| gj_ID := id; gj_RunID := 0; gj_Status := "queued"; gj_Labels := ["gpu"] |}.

Definition runs_of (repository : string) : list Z := if String.eqb repository "acme/app" then [70; 71] else [80].

Definition github : WorkflowJobs :=
  {| wj_counted := false; wj_calls := fun _ _ => 0; wj_RateLimit := fun _ => None;
     wj_ListRepositories := fun _ => (["acme/app"; "other/app"; "acme/web"], None);
     wj_ListQueuedWorkflowRuns := fun _ repository _ => (runs_of repository, None);
     wj_ListWorkflowJobs := fun _ _ runID => ([queued_job runID], None);
     wj_GetWorkflowJob := None |}.

Definition ticks (n : nat) : Time := 20 + Z.of_nat n.
Definition endless (_ : scope) (_ : nat) : option error := None.
Definition hook_steps (n : nat) : step Memory.Memory := step_at (ticks n) (Ok own_run).

Definition reconciled :=
  ReconcileQueuedGitHubJobs hook_config cleanup tally hook_options 1 github ticks endless hook_steps hook_broker zero_reconcileState false.

(** Both scans of the first cycle look at everything; the jobs of acme/app get
    runners, once, and the one whose run comes from elsewhere gets none. *)
Example first_cycle : reconciled.1 = Some (2, None) ∧ length (cy_sent reconciled.2) = 11%nat ∧
  rc_deepOpen (cy_state reconciled.2) = false.
Proof. by vm_compute. Qed.

Lemma cycles_keep_to_the_budget_witness : (length (cy_sent reconciled.2) ≤ 100)%nat.
Proof.
  apply (cycles_keep_to_the_budget hook_config cleanup tally hook_options 1 github ticks endless hook_steps hook_broker zero_reconcileState false
           (2, None)); [discriminate|vm_compute; reflexivity].
Defined.

Lemma hook_broker_reachable : reachable hook_config cleanup tally Memory.NewMemory 10 hook_broker.
Proof. apply reach_start; [|done]. intros b i. apply lookup_empty. Qed.

Lemma hook_steps_run n t : runs hook_config cleanup tally t (st_others (hook_steps n) t).
Proof. by apply runs_elsewhere. Qed.

Lemma hook_steps_behave n : behaves hook_config cleanup tally (st_env (hook_steps n)).
Proof. intros t. by apply runs_elsewhere. Qed.

Lemma serving_missed_jobs_keeps_slots_witness :
  reachable hook_config cleanup tally Memory.NewMemory 10 (cy_service reconciled.2) ∧
  backendActiveCount (cy_service reconciled.2) gpu_pool "ec2" = store_CountActive (sv_store (cy_service reconciled.2)) "lite" "ec2".
Proof.
  apply (serving_missed_jobs_keeps_slots hook_config cleanup tally hook_options 1 github ticks endless hook_steps Memory.NewMemory 10 hook_broker
           zero_reconcileState false (2, None) reconciled.2 gpu_pool "ec2" tally_inj tally_nonblank tally_hold);
    [|exact hook_steps_run|exact hook_steps_behave| |exact hook_broker_reachable|vm_compute; reflexivity|vm_compute; reflexivity].
  - split; [apply NoDup_singleton|]. intros pool ->%list_elem_of_singleton. discriminate.
  - change (contents Memory.NewMemory) with (∅ : Allocations).
    split; [intros id status Hl; by rewrite lookup_empty in Hl|intros n; apply lookup_empty].
Defined.

Example two_slots_taken : backendActiveCount (cy_service reconciled.2) gpu_pool "ec2" = 2.
Proof. vm_compute. reflexivity. Qed.

Definition pass : repoScanner := { zero_repoScanner with sn_cursor := 4; sn_remaining := 3 }.
Definition scanned_once :=
  scan hook_config cleanup tally hook_options 1 github ticks endless hook_steps (start_cycle hook_broker zero_reconcileState) pass
    ["acme/app"; "other/app"; "acme/web"] 0 (ScanScope DeepScan) reconcileRunWindow 4.


(** The scan stopped at its share; what it left is the second run of acme/app. *)
Example stopped_at_its_share :
  scanned_once.1.1 = Some (Ended (Some (Sentinel errReconcileBudgetSpent))) ∧ cy_sent scanned_once.2 =
  [ListQueuedWorkflowRuns "acme/web" 0; ListWorkflowJobs "acme/web" 80; ListQueuedWorkflowRuns "acme/app" 0; ListWorkflowJobs "acme/app" 70] ∧
  plan hook_config ["acme/app"; "other/app"; "acme/web"] 0 runs_of scanned_once.1.2 = [ListWorkflowJobs "acme/app" 71].
Proof. by vm_compute. Qed.

(** ** What a cycle reports *)

(** A GitHub that shows a job as queued and fails to list repositories. *)
Definition failing : WorkflowJobs :=
  { github with wj_ListRepositories := fun _ => ([], Some (Errorf "unavailable"));
                wj_GetWorkflowJob := Some (fun _ _ id => Ok (queued_job id)) }.

(** The allocation of job 7 ended. *)
Definition ended_record : AllocationStatus :=
  { (record "a" StateFailed) with as_CreatedAt := 1;
      as_Request := Some { zero_AllocationRequest with ar_WorkflowJobID := 7; ar_TargetRepository := "acme/app"; ar_Labels := ["gpu"] } }.
Definition ended_broker : Service Memory.Memory :=
  newServiceWithStore hook_config cleanup (fun _ => None)
    (Memory.set_allocations Memory.NewMemory {[ "a" := ended_record ]}) None 10.

(** The rescued job got its runner, and the cycle reports that it allocated none. *)
Example rescued_job_not_reported :
  let r := ReconcileQueuedGitHubJobs hook_config cleanup tally hook_options 1 failing ticks endless hook_steps ended_broker zero_reconcileState false in
  r.1 = Some (0, Some (Errorf "unavailable")) ∧ cy_allocated r.2 = 1 ∧
  as_State <$> findByWorkflowJobID (cy_service r.2) 7 = Some StateReady.
Proof. by vm_compute. Qed.
