(* ===== verification/TierBehaviour.v ===== *)
(** What tier routing achieves: when a rule's limit counts as exceeded, that a
    refresh keeps the most restrictive decision of each backend, that a rule that
    disables keeps jobs away, and what an observing rule hides. *)

From Stdlib Require Import Floats.SpecFloat.
From stdpp Require Import pretty.
From S2P Require Import Prelude Errors Model Store Scheduler FairShare Registry Backends Budget Capacity Admission Warm Config.
From S2P Require Import JobRetry TierPolicy TierRefresh ServicePolicy Service ServiceFilters Allocate WorkflowJob Reconcile Restart.
Open Scope Z_scope.
Open Scope go_scope.

(** ** When a limit is exceeded *)

Lemma positive_not_nonpositive f : positive f = true → SFleb f float_zero = false.
Proof. destruct f as [[]|[]| |[] m e]; done. Qed.

Definition answered (snapshot : SourceSnapshot) : Prop :=
  TrimSpace (ss_Err snapshot) = "" ∧ ss_UpdatedAt snapshot ≠ 0.

(** A source of numbers is over the hard limit, or below the least credit. *)
Definition over_limit (rule : Rule) (snapshot : SourceSnapshot) : Prop :=
  (IsNaN (ss_Used snapshot) = false ∧ IsNaN (ss_Limit snapshot) = false ∧ IsNaN (ss_BurnRate snapshot) = false ∧
   IsNaN (ss_RemainingCredit snapshot) = false) ∧
  ((positive (ss_Limit snapshot) = true ∧ positive (ru_HardLimitRatio rule) = true ∧
    at_least (fdiv (ss_Used snapshot) (ss_Limit snapshot)) (ru_HardLimitRatio rule) = true) ∨
   (positive (ru_MinRemainingCredit rule) = true ∧ SFltb (ss_RemainingCredit snapshot) (ru_MinRemainingCredit rule) = true)).

Lemma usage_exceeded rule snapshot now :
  (usage_state rule snapshot now).1 = Tier.StateExceeded ↔
  positive (ss_Limit snapshot) = true ∧ positive (ru_HardLimitRatio rule) = true ∧
  at_least (fdiv (ss_Used snapshot) (ss_Limit snapshot)) (ru_HardLimitRatio rule) = true.
Proof.
  unfold usage_state. destruct (positive (ss_Limit snapshot)); cbn [negb]; [|naive_solver].
  destruct (positive (ru_HardLimitRatio rule)) eqn:Hh; cbn [andb].
  - destruct (at_least (fdiv _ _) _) eqn:Ha.
    + split; [done|]. intros _. destruct (projectedUsage _ _ _); [|done].
      by rewrite andb_false_r, andb_false_r.
    + split; [|naive_solver]. repeat case_match; done.
  - split; [|naive_solver]. repeat case_match; done.
Qed.

Lemma evaluateSnapshot_exceeded rule snapshot now :
  (evaluateSnapshot rule snapshot now).1 = Tier.StateExceeded ↔ over_limit rule snapshot.
Proof.
  unfold evaluateSnapshot, over_limit. pose proof (usage_exceeded rule snapshot now) as Hu. rewrite <- Hu.
  destruct (usage_state rule snapshot now) as [state reasons]. cbn [fst] in *.
  destruct (positive (ru_MinRemainingCredit rule) && SFltb (ss_RemainingCredit snapshot) (ru_MinRemainingCredit rule)) eqn:Hm.
  - apply andb_true_iff in Hm as [Hp Hlt]. rewrite (positive_not_nonpositive _ Hp), andb_false_r.
    destruct (IsNaN (ss_Used snapshot)), (IsNaN (ss_Limit snapshot)), (IsNaN (ss_BurnRate snapshot)), (IsNaN (ss_RemainingCredit snapshot));
      cbn; naive_solver.
  - assert (Hno : ¬ (positive (ru_MinRemainingCredit rule) = true ∧ SFltb (ss_RemainingCredit snapshot) (ru_MinRemainingCredit rule) = true)).
    { intros [Hp Hlt]. by rewrite Hp, Hlt in Hm. }
    destruct (SFleb (ss_Limit snapshot) float_zero && _) eqn:Hnone.
    { apply andb_true_iff in Hnone as [Hl _]. split; [done|]. intros [_ [He|?]]; [|done]. apply Hu in He as [Hp _].
      apply positive_not_nonpositive in Hp. congruence. }
    destruct (IsNaN (ss_Used snapshot)), (IsNaN (ss_Limit snapshot)), (IsNaN (ss_BurnRate snapshot)), (IsNaN (ss_RemainingCredit snapshot));
      cbn; naive_solver.
Qed.

Lemma restrictiveness_exceeded state : restrictiveness state = 3 ↔ state = Tier.StateExceeded.
Proof.
  unfold restrictiveness. destruct (String.eqb_spec state Tier.StateExceeded); [done|]. repeat case_match; split; done || lia.
Qed.

Lemma restrictiveness_bound state : 0 ≤ restrictiveness state ≤ 3.
Proof. unfold restrictiveness. repeat case_match; lia. Qed.

Lemma evaluate_snapshots_exceeded rule now l : ∀ state reasons,
  (evaluate_snapshots rule now state reasons l).1 = Tier.StateExceeded ↔
  (∀ s, s ∈ l → answered s) ∧ (state = Tier.StateExceeded ∨ ∃ s, s ∈ l ∧ over_limit rule s).
Proof.
  induction l as [|s l IH]; intros state reasons; cbn [evaluate_snapshots].
  { cbn. split; [intros ->|intros [_ [?|(s & Hs & _)]]; [done|]]; [split; [by intros ? ?%elem_of_nil|by left]|by apply elem_of_nil in Hs]. }
  destruct (String.eqb_spec (TrimSpace (ss_Err s)) "") as [He|He]; cbn [negb].
  2: { split; [done|]. intros [Hall _]. destruct (Hall s) as [? _]; [by left|done]. }
  destruct (IsZero (ss_UpdatedAt s)) eqn:Hz.
  { apply Z.eqb_eq in Hz. split; [done|]. intros [Hall _]. destruct (Hall s) as [_ ?]; [by left|done]. }
  apply Z.eqb_neq in Hz. pose proof (evaluateSnapshot_exceeded rule s now) as Hs. destruct (evaluateSnapshot rule s now) as [st reason].
  cbn [fst] in Hs. rewrite IH. setoid_rewrite elem_of_cons.
  assert (Hm : (if moreRestrictive st state then st else state) = Tier.StateExceeded ↔ state = Tier.StateExceeded ∨ st = Tier.StateExceeded).
  { unfold moreRestrictive. pose proof (restrictiveness_bound st). pose proof (restrictiveness_bound state).
    destruct (Z.ltb_spec (restrictiveness state) (restrictiveness st)); rewrite <- !restrictiveness_exceeded; lia. }
  rewrite Hm, Hs. unfold answered at 1. split.
  - intros [Hall Hex]. split; [intros x [->|Hx]; [by split|by apply Hall]|]. naive_solver.
  - intros [Hall Hex]. split; [intros x Hx; apply Hall; by right|]. naive_solver.
Qed.

(** Exceeded means a limit was passed: a rule's decision is "exceeded" exactly when
    it has sources, every one of them answered with a time, and one of them, whose
    numbers are numbers, is at or over the hard limit ratio or below the least
    credit.  So a projection alone never exceeds, and one source that fails hides
    every other. *)
Theorem exceeded_means_a_limit_was_passed wall input :
  Tier.td_State (Evaluate wall input) = Tier.StateExceeded ↔
  (∀ s, s ∈ ei_Snapshots input → answered s) ∧ ∃ s, s ∈ ei_Snapshots input ∧ over_limit (ei_Rule input) s.
Proof.
  unfold Evaluate. set (now := if IsZero _ then _ else _).
  assert (Hrule : ∀ s, over_limit (normalizeRule (ei_Rule input)) s ↔ over_limit (ei_Rule input) s).
  { intros s. unfold normalizeRule. by case_match. }
  destruct (ei_Snapshots input) as [|s l] eqn:Hl.
  { cbn. split; [done|]. intros [_ (s & Hs & _)]. by apply elem_of_nil in Hs. }
  change (length (s :: l) =? 0)%nat with false. cbv iota.
  pose proof (evaluate_snapshots_exceeded (normalizeRule (ei_Rule input)) now (s :: l) Tier.StateHealthy []) as He.
  destruct (evaluate_snapshots _ _ _ _ _) as [state reason]. cbn [fst Tier.td_State] in *. rewrite He. setoid_rewrite Hrule.
  split; intros [Hall Hex]; (split; [exact Hall|]); [destruct Hex as [?|?]; done|by right].
Qed.

(** ** Merging decisions *)

(** State first, then action. *)
Definition severity (d : Tier.Decision) : Z := 4 * decisionStateRank d + decisionActionRank (Tier.td_Action d).

Lemma decisionActionRank_bound action : 1 ≤ decisionActionRank action ≤ 3.
Proof. unfold decisionActionRank. repeat case_match; lia. Qed.

Lemma decisionMoreRestrictive_severity c d : decisionMoreRestrictive c d = true ↔ severity d < severity c.
Proof.
  unfold decisionMoreRestrictive, severity. pose proof (decisionActionRank_bound (Tier.td_Action c)).
  pose proof (decisionActionRank_bound (Tier.td_Action d)).
  destruct (Z.eqb_spec (decisionStateRank c) (decisionStateRank d)); cbn [negb]; lia.
Qed.

(** The decision of a key is one of those made for it, and none of them is more severe. *)
Lemma merged_spec l k :
  match foldl mergeDecision ∅ l !! k with
  | None => ∀ d, d ∈ l → decision_key d ≠ k
  | Some d => d ∈ l ∧ decision_key d = k ∧ ∀ d', d' ∈ l → decision_key d' = k → severity d' ≤ severity d
  end.
Proof.
  induction l as [|x l IH] using rev_ind; [change (foldl mergeDecision ∅ [] !! k) with (None : option Tier.Decision); by intros d ?%elem_of_nil|].
  rewrite foldl_app. cbn. unfold mergeDecision at 1. set (m := foldl mergeDecision ∅ l) in *.
  destruct (decide (decision_key x = k)) as [<-|Hne].
  - destruct (m !! decision_key x) as [d|] eqn:Hd.
    + destruct IH as (Hin & Hk & Hmax). pose proof (decisionMoreRestrictive_severity x d) as Hs.
      destruct (decisionMoreRestrictive x d).
      * rewrite lookup_insert_eq. split_and!; [set_solver|done|]. intros d' [Hl| ->%list_elem_of_singleton]%elem_of_app Hk'; [|lia].
        specialize (Hmax d' Hl Hk'). lia.
      * rewrite Hd. split_and!; [set_solver|done|]. intros d' [Hl| ->%list_elem_of_singleton]%elem_of_app Hk'; [by apply Hmax|].
        apply Z.nlt_ge. intros Hlt. by apply Hs in Hlt.
    + rewrite lookup_insert_eq. split_and!; [set_solver|done|]. intros d' [Hl| ->%list_elem_of_singleton]%elem_of_app Hk'; [|lia].
      by destruct (IH d' Hl).
  - assert (Hm : (match m !! decision_key x with
                  | None => <[decision_key x := x]> m
                  | Some current => if decisionMoreRestrictive x current then <[decision_key x := x]> m else m
                  end) !! k = m !! k) by (repeat case_match; by rewrite ?lookup_insert_ne).
    rewrite Hm. destruct (m !! k) as [d|].
    + destruct IH as (Hin & Hk & Hmax). split_and!; [set_solver|done|].
      intros d' [Hl| ->%list_elem_of_singleton]%elem_of_app Hk'; [by apply Hmax|done].
    + intros d' [Hl| ->%list_elem_of_singleton]%elem_of_app; [by apply IH|done].
Qed.

(** Storing decisions of distinct keys. *)
Lemma set_decisions ds m k : NoDup (decision_key <$> ds) →
  foldl SetDecision m ds !! k =
  match list_find (fun d => decision_key d = k) ds with Some (_, d) => Some (Tier.normalizeDecision d) | None => m !! k end.
Proof.
  revert m. induction ds as [|d ds IH]; intros m Hnd; [done|]. rewrite fmap_cons in Hnd. apply NoDup_cons in Hnd as [Hni Hnd].
  cbn [foldl list_find]. rewrite IH by done. change (SetDecision m d) with (<[decision_key d := Tier.normalizeDecision d]> m).
  case_decide as Hk.
  - destruct (list_find _ ds) as [[i d']|] eqn:Hf; [|by rewrite <- Hk, lookup_insert_eq].
    apply list_find_Some in Hf as (Hl & Hd' & _). destruct Hni. apply list_elem_of_lookup_2 in Hl. rewrite Hk, <- Hd'.
    by apply list_elem_of_fmap_2.
  - destruct (list_find _ ds) as [[i d']|]; [done|]. by rewrite lookup_insert_ne.
Qed.

Section Refresh.
Context `{GoRange} (cfg : BrokerConfig) (sources : TierSources) (wall : Time).
Implicit Types (now : Time) (d : Tier.Decision).

Local Notation routing := (br_TierRouting (bk_Broker cfg)).
Local Notation decisions now := (rule_decisions cfg sources wall now).1.1.

(** A refresh stores, for every key some rule decided on, the merged decision. *)
Lemma refresh_round_lookup m now k : tr_Enabled routing = true →
  refresh_round cfg sources wall m now !! k =
  match foldl mergeDecision ∅ (decisions now) !! k with Some d => Some (Tier.normalizeDecision d) | None => m !! k end.
Proof.
  intros He. unfold refresh_round, TierRefresh. rewrite He. cbn [negb].
  destruct (rule_decisions cfg sources wall now) as [[l err] n]. cbn [fst snd]. set (merged := foldl mergeDecision ∅ l).
  assert (Hkey : ∀ k d, merged !! k = Some d → decision_key d = k).
  { intros k' d Hd. pose proof (merged_spec l k') as Hs. fold merged in Hs. rewrite Hd in Hs. tauto. }
  unfold sortedDecisions.
  assert (Hperm : sort_stable decision_less ((fun kv => kv.2) <$> range merged) ≡ₚ (fun kv => kv.2) <$> map_to_list merged).
  { rewrite sort_stable_perm. by rewrite range_perm. }
  set (ds := sort_stable _ _) in *.
  assert (Hnd : NoDup (decision_key <$> ds)).
  { rewrite Hperm, <- list_fmap_compose. rewrite (list_fmap_ext _ fst); [apply NoDup_fst_map_to_list|].
    intros i [k' d] Hl. cbn. apply list_elem_of_lookup_2, elem_of_map_to_list in Hl. by apply Hkey. }
  rewrite set_decisions by done. destruct (list_find _ ds) as [[i d]|] eqn:Hf.
  - apply list_find_Some in Hf as (Hl & Hd & _). apply list_elem_of_lookup_2 in Hl. rewrite Hperm in Hl.
    apply list_elem_of_fmap in Hl as ([k' d'] & -> & Hin%elem_of_map_to_list). cbn in Hd |- *. pose proof (Hkey _ _ Hin) as Hk'.
    assert (k' = k) as -> by congruence. by rewrite Hin.
  - apply list_find_None in Hf. destruct (merged !! k) as [d|] eqn:Hd; [|done]. exfalso.
    rewrite List.Forall_forall in Hf. apply (Hf d); [|by apply Hkey]. apply list_elem_of_In. rewrite Hperm. apply list_elem_of_fmap.
    exists (k, d). split; [done|]. by apply elem_of_map_to_list.
Qed.

(** A decision as rules make them. *)
Definition well_made d : Prop :=
  Tier.td_Stale d = false ∧ Tier.td_Action d ∈ [Tier.ActionObserveOnly; Tier.ActionDeprioritize; Tier.ActionDisable].

Lemma normalizeAction_in action : normalizeAction action ∈ [Tier.ActionObserveOnly; Tier.ActionDeprioritize; Tier.ActionDisable].
Proof. unfold normalizeAction. repeat case_match; set_solver. Qed.

Lemma refreshRule_well_made n pool backend ruleCfg now : well_made (refreshRule cfg sources wall n pool backend ruleCfg now).1.1.
Proof.
  unfold refreshRule, Evaluate. cbn [fst]. destruct (if (length _ =? 0)%nat then _ else _) as [state reason]. split; [done|].
  unfold normalizeRule. cbn. pose proof (normalizeAction_in (tu_Action ruleCfg)) as Hin.
  destruct (String.eqb_spec (normalizeAction (tu_Action ruleCfg)) ""); [set_solver|exact Hin].
Qed.

Lemma rule_decisions_well_made now d : d ∈ decisions now → well_made d.
Proof.
  intros Hin. assert (Hall : Forall well_made (decisions now)); [|by eapply Forall_forall in Hall].
  unfold rule_decisions, refresh_backend_rules.
  assert (Hp : Forall well_made (refresh_provider_rules cfg sources wall now ([], None, O)).1.1).
  { unfold refresh_provider_rules. apply (foldl_invariant (fun st : list Tier.Decision * option error * nat => Forall well_made st.1.1)); [done|].
    intros [[l err] n] ruleCfg Hl. unfold refreshProviderRule.
    pose proof (refreshRule_well_made n "" "" (provider_rule ruleCfg) now) as Hw.
    destruct (refreshRule _ _ _ _ _ _ _ _) as [[x ruleErr] n']. cbn in *. apply Forall_app. split; [done|].
    unfold addProviderRuleDecisions. case_match; [|constructor]. by apply Forall_fmap, Forall_true. }
  revert Hp. generalize (refresh_provider_rules cfg sources wall now ([], None, O)). intros st Hst.
  apply (foldl_invariant (fun st : list Tier.Decision * option error * nat => Forall well_made st.1.1)); [done|].
  clear st Hst. intros st [[pool name] b] Hst.
  apply (foldl_invariant (fun st : list Tier.Decision * option error * nat => Forall well_made st.1.1)); [done|].
  clear st Hst. intros [[l err] n] ruleCfg Hl.
  pose proof (refreshRule_well_made n pool name ruleCfg now) as Hw. destruct (refreshRule _ _ _ _ _ _ _ _) as [[x ruleErr] n']. cbn in *.
  apply Forall_app. split; [done|by constructor].
Qed.

(** A refresh keeps, for the backend a rule decided on, a decision some rule made that
    is at least as severe. *)
Lemma refresh_keeps_the_most_severe m now d : tr_Enabled routing = true → d ∈ decisions now →
  ∃ d', refresh_round cfg sources wall m now !! decision_key d = Some (Tier.normalizeDecision d') ∧ d' ∈ decisions now ∧
    decision_key d' = decision_key d ∧ severity d ≤ severity d'.
Proof.
  intros He Hd. rewrite refresh_round_lookup by done. pose proof (merged_spec (decisions now) (decision_key d)) as Hm.
  destruct (foldl mergeDecision ∅ _ !! _) as [d'|]; [|by destruct (Hm d Hd)].
  destruct Hm as (Hin & Hk & Hmax). exists d'. split_and!; [done..|]. by apply Hmax.
Qed.

Lemma decisionStateRank_exceeded d : Tier.td_Stale d = false → decisionStateRank d = 4 ↔ Tier.td_State d = Tier.StateExceeded.
Proof.
  intros Hs. unfold decisionStateRank. rewrite Hs. destruct (String.eqb_spec (Tier.td_State d) Tier.StateExceeded); [done|].
  repeat case_match; split; done || lia.
Qed.

Lemma decisionStateRank_bound d : 1 ≤ decisionStateRank d ≤ 4.
Proof. unfold decisionStateRank. repeat case_match; lia. Qed.

(** Once a rule is exceeded, so is what the refresh keeps; and it is the decision of a
    rule, unchanged. *)
Lemma refresh_keeps_exceeded m now d : tr_Enabled routing = true → d ∈ decisions now → Tier.td_State d = Tier.StateExceeded →
  ∃ d', refresh_round cfg sources wall m now !! decision_key d = Some d' ∧ d' ∈ decisions now ∧
    decision_key d' = decision_key d ∧ Tier.td_State d' = Tier.StateExceeded ∧ Tier.td_Stale d' = false ∧
    decisionActionRank (Tier.td_Action d) ≤ decisionActionRank (Tier.td_Action d').
Proof.
  intros He Hd Hs. destruct (refresh_keeps_the_most_severe m now d He Hd) as (d' & Hl & Hin & Hk & Hsev).
  destruct (rule_decisions_well_made now d Hd) as [Hst _], (rule_decisions_well_made now d' Hin) as [Hst' Hact].
  apply (decisionStateRank_exceeded d Hst) in Hs. unfold severity in Hsev.
  pose proof (decisionStateRank_bound d'). pose proof (decisionActionRank_bound (Tier.td_Action d)).
  pose proof (decisionActionRank_bound (Tier.td_Action d')).
  assert (Hs' : Tier.td_State d' = Tier.StateExceeded) by (apply (decisionStateRank_exceeded d' Hst'); lia).
  exists d'. split_and!; [|done..|lia]. rewrite Hl. f_equal. unfold Tier.normalizeDecision. rewrite Hs'.
  change (String.eqb Tier.StateExceeded "") with false. cbv iota. destruct (String.eqb_spec (Tier.td_Action d') ""); [|done].
  rewrite e, !elem_of_cons, elem_of_nil in Hact. by destruct Hact as [?|[?|[?|[]]]].
Qed.
End Refresh.

(** ** What the service does with the decisions *)

Section Routing.
Context `{GoRange} `{QualityRanker} {S : Type} `{!AllocationStore S, !AdmissionStateStore S}.
Context (cfg : BrokerConfig) (sources : TierSources) (wall : Time).
Implicit Types (s : Service S) (pool : PoolConfig) (d : Tier.Decision).

Local Notation routing := (br_TierRouting (bk_Broker cfg)).
Local Notation mode := (tr_FailureMode routing).
Local Notation decisions now := (rule_decisions cfg sources wall now).1.1.

Lemma exceeded_not_allowed d : Tier.td_State d = Tier.StateExceeded → Tier.td_Stale d = false → Tier.td_Action d = Tier.ActionDisable →
  tierDecisionAllowsBackendNormally mode d = false ∧ tierDecisionIsDeprioritized d = false ∧ stale_or_unknown d = false.
Proof.
  intros Hs Hst Ha. unfold tierDecisionAllowsBackendNormally, tierDecisionIsDeprioritized, stale_or_unknown. by rewrite Hs, Hst, Ha.
Qed.

Lemma keep_backends_lookup f pool name b :
  pc_Backends (keep_backends f pool) !! name = Some b ↔ pc_Backends pool !! name = Some b ∧ f name b = true.
Proof. unfold keep_backends. cbn. rewrite map_lookup_filter_Some. naive_solver. Qed.

Lemma no_backends_kept f pool name b :
  no_backends (keep_backends f pool) = true → pc_Backends pool !! name = Some b → f name b = false.
Proof.
  intros Hno Hb. apply Nat.eqb_eq, map_size_empty_inv in Hno. apply not_true_iff_false. intros Hf.
  assert (Hin : pc_Backends (keep_backends f pool) !! name = Some b) by by apply keep_backends_lookup.
  by rewrite Hno, lookup_empty in Hin.
Qed.

Lemma blocked_nonempty s pool name b d : pc_Backends pool !! name = Some b → tier_verdict_of cfg s pool name b = TierBlocked d →
  (size (map_imap (fun name b => match tier_verdict_of cfg s pool name b with TierBlocked d => Some d | _ => None end)
           (pc_Backends pool)) =? 0)%nat = false.
Proof.
  intros Hb Hv. apply Nat.eqb_neq. intros Hz. apply map_size_empty_inv in Hz.
  apply (f_equal (fun blocked => blocked !! name)) in Hz. by rewrite map_lookup_imap, Hb, lookup_empty in Hz; cbn in Hz; rewrite Hv in Hz.
Qed.

(** C33. A disabling rule keeps jobs away: once a rule with the action "disable" is
    exceeded for a backend, and whatever every other rule found, the decision the
    refresh stores blocks the backend: a request pinned to it fails as blocked, warm
    runners are not kept on it, and an unpinned request is offered it only when no
    backend is eligible or deprioritized and the failure mode is not "block". *)
Theorem a_disabling_rule_keeps_jobs_away s m pool name request now d :
  tr_Enabled routing = true →
  d ∈ decisions now → decision_key d = (pc_Name pool, name) →
  Tier.td_State d = Tier.StateExceeded → Tier.td_Action d = Tier.ActionDisable →
  sv_tier s = refresh_round cfg sources wall m now →
  backendTierBlockedForWarm mode true (sv_tier s) (pc_Name pool) name = true ∧
  (ar_Backend request = Some name → is_Some (pc_Backends pool !! name) →
   ∃ text, filterBackendsByTierState cfg s pool request = Fail (Wrapf text (Sentinel ErrBackendTierBlocked) "")) ∧
  (ar_Backend request = None → ∀ pool', filterBackendsByTierState cfg s pool request = Ok pool' → is_Some (pc_Backends pool' !! name) →
   normalizeTierFailureMode mode ≠ Tier.FailureModeBlock ∧
   ∀ other b, pc_Backends pool !! other = Some b →
     is_eligible (tier_verdict_of cfg s pool other b) = false ∧ is_deprioritized (tier_verdict_of cfg s pool other b) = false).
Proof.
  intros He Hd Hk Hs Ha Htier.
  destruct (refresh_keeps_exceeded cfg sources wall m now d He Hd Hs) as (d' & Hl & Hin & _ & Hs' & Hst' & Hrank).
  destruct (rule_decisions_well_made cfg sources wall now d' Hin) as [_ Hact].
  assert (Ha' : Tier.td_Action d' = Tier.ActionDisable).
  { rewrite Ha in Hrank. rewrite !elem_of_cons, elem_of_nil in Hact.
    destruct Hact as [Hact|[Hact|[Hact|[]]]]; [rewrite Hact in Hrank; vm_compute in Hrank; by destruct Hrank..|done]. }
  rewrite Hk, <- Htier in Hl. change (TierDecision (sv_tier s) (pc_Name pool) name = Some d') in Hl.
  destruct (exceeded_not_allowed d' Hs' Hst' Ha') as (Hno & Hnodep & Hknown).
  assert (Hverdict : ∀ b, tier_verdict_of cfg s pool name b = TierBlocked d').
  { intros b. unfold tier_verdict_of. rewrite Hl. cbv beta zeta iota delta [from_option id broker]. by rewrite Hno, Hnodep. }
  assert (Hpin : pinnedBackendAllowedByTier mode (sv_tier s) (pc_Name pool) name = false).
  { unfold pinnedBackendAllowedByTier. rewrite Hl. cbv beta zeta iota delta [from_option id]. by rewrite Ha', Hknown, Hs'. }
  assert (Hout : ∀ f, f (TierBlocked d') = false →
            pc_Backends (keep_backends (fun name b => f (tier_verdict_of cfg s pool name b)) pool) !! name = None).
  { intros f Hf. apply eq_None_not_Some. intros [b [_ Hb]%keep_backends_lookup]. congruence. }
  unfold filterBackendsByTierState, tierEligibleBackends, broker. rewrite He. cbn [negb]. split_and!.
  - unfold backendTierBlockedForWarm. rewrite Hl, Ha', Hknown, Hs'. done.
  - intros -> Hb. rewrite bool_decide_eq_true_2, Hpin, !Hout by done. cbn. by eexists.
  - intros ->. destruct (no_backends _) eqn:Hel; cbn [negb].
    2: { intros pool' [= <-] [b Hb]. by rewrite Hout in Hb. }
    destruct (no_backends (keep_backends _ pool)) eqn:Hdep in |- *; cbn [negb].
    2: { intros pool' [= <-] [b Hb]. by rewrite Hout in Hb. }
    intros pool' Hok Hin'. split.
    + intros Hblock. rewrite Hblock in Hok. destruct (existsb _ _); [done|].
      destruct (size _ =? 0)%nat eqn:Hsize in Hok; [|done]. injection Hok as <-. destruct Hin' as [b Hb].
      by rewrite (blocked_nonempty s pool name b d' Hb (Hverdict b)) in Hsize.
    + intros other b Hb. by split; [apply (no_backends_kept _ _ _ _ Hel Hb)|apply (no_backends_kept _ _ _ _ Hdep Hb)].
Qed.

(** An observing rule hides a disabling one: states are compared before actions, so
    once a rule that only observes is exceeded, and no other rule of the backend is
    exceeded with another action, the stored decision lets every request through,
    even when a rule that disables is approaching its limit and would have closed
    the backend to pinned requests by itself. *)
Theorem observing_rule_hides_a_disabling_one s m pool name now d hidden :
  tr_Enabled routing = true →
  d ∈ decisions now → decision_key d = (pc_Name pool, name) →
  Tier.td_State d = Tier.StateExceeded → Tier.td_Action d = Tier.ActionObserveOnly →
  (∀ d', d' ∈ decisions now → decision_key d' = (pc_Name pool, name) → Tier.td_State d' = Tier.StateExceeded →
     Tier.td_Action d' = Tier.ActionObserveOnly) →
  hidden ∈ decisions now → decision_key hidden = (pc_Name pool, name) →
  Tier.td_State hidden = Tier.StateApproaching → Tier.td_Action hidden = Tier.ActionDisable →
  sv_tier s = refresh_round cfg sources wall m now →
  pinnedBackendAllowedByTier mode (SetDecision (sv_tier s) hidden) (pc_Name pool) name = false ∧
  pinnedBackendAllowedByTier mode (sv_tier s) (pc_Name pool) name = true ∧
  backendTierBlockedForWarm mode true (sv_tier s) (pc_Name pool) name = false ∧
  ∀ b, is_blocked (tier_verdict_of cfg s pool name b) = false.
Proof.
  intros He Hd Hk Hs Ha Hothers Hh Hhk Hhs Hha Htier.
  destruct (refresh_keeps_exceeded cfg sources wall m now d He Hd Hs) as (d' & Hl & Hin & Hk' & Hs' & Hst' & _).
  assert (Ha' : Tier.td_Action d' = Tier.ActionObserveOnly) by (apply Hothers; congruence).
  destruct (rule_decisions_well_made cfg sources wall now hidden Hh) as [Hhst _].
  rewrite Hk, <- Htier in Hl. change (TierDecision (sv_tier s) (pc_Name pool) name = Some d') in Hl. split_and!.
  - unfold pinnedBackendAllowedByTier, TierDecision, SetDecision. fold (decision_key hidden). rewrite Hhk, lookup_insert_eq.
    assert (Hn : Tier.normalizeDecision hidden = hidden) by (unfold Tier.normalizeDecision; rewrite Hhs; cbn; by rewrite Hha).
    rewrite Hn. cbv beta zeta iota delta [from_option id]. unfold stale_or_unknown. by rewrite Hha, Hhst, Hhs.
  - unfold pinnedBackendAllowedByTier. rewrite Hl. cbv beta zeta iota delta [from_option id]. by rewrite Ha'.
  - unfold backendTierBlockedForWarm. rewrite Hl. by rewrite Ha'.
  - intros b. unfold tier_verdict_of, tierDecisionAllowsBackendNormally. rewrite Hl. cbv beta zeta iota delta [from_option id].
    rewrite Ha'. cbn. by destruct (backendHasFreeSchedulerCapacity _ _ _ _ _).
Qed.
End Routing.

(** ** A concrete refresh *)

Module Example_tier.
#[local] Existing Instance range_forward.
#[local] Existing Instance keep_order.

(** A rule on one query. *)
Definition on_query (action : string) (soft hard : Z) : TierRuleConfig :=
  {| tu_Name := action; tu_ProviderRef := ""; tu_Dimension := ""; tu_UsageQuery := "minutes"; tu_BurnRateQuery := "";
     tu_LimitSources := []; tu_Combine := ""; tu_SoftLimitRatio := float_of soft; tu_HardLimitRatio := float_of hard;
     tu_MinRemainingCredit := float_zero; tu_ProjectionWindow := 0; tu_Action := action |}.

Definition pool_of (rules : list TierRuleConfig) : PoolConfig :=
  { zero_PoolConfig with pc_Name := "lite";
    pc_Backends := {[ "ec2" := { zero_BackendConfig with bc_Enabled := true; bc_Healthy := true; bc_MaxRunners := 4; bc_TierRules := rules } ]} }.

Definition config_of (rules : list TierRuleConfig) : BrokerConfig :=
  { zero_BrokerConfig with
      bk_Broker := { zero_BrokerRuntimeConfig with br_TierRouting := { (br_TierRouting zero_BrokerRuntimeConfig) with tr_Enabled := true } };
      bk_Pools := [pool_of rules] }.

(** Everything is used once. *)
Definition all_used : TierSources :=
  {| ts_ReadSecret := None; ts_Snapshot := fun _ _ => Fail (Errorf "no provider"); ts_QueryInstant := fun _ _ _ => Ok float_one |}.

Definition verdict (state action : string) : Tier.Decision :=
  {| Tier.td_Pool := "lite"; Tier.td_Backend := "ec2"; Tier.td_State := state; Tier.td_Action := action;
     Tier.td_Reason := "prometheus usage 1/1"; Tier.td_UpdatedAt := 100; Tier.td_Stale := false |}.

Definition tier_refreshed (rules : list TierRuleConfig) : Service Memory.Memory :=
  let s := newServiceWithStore (config_of rules) (fun _ => true) (fun _ => None) Memory.NewMemory None 10 in
  { s with sv_tier := refresh_round (config_of rules) all_used 0 NewTierManager 100 }.

Definition pinned : AllocationRequest := { zero_AllocationRequest with ar_Backend := Some "ec2" }.

Definition two_disabling := [on_query "observe-only" 1 1; on_query "disable" 1 1].
Definition one_observing := [on_query "observe-only" 1 1; on_query "disable" 1 2].

Lemma two_disabling_found : (rule_decisions (config_of two_disabling) all_used 0 100).1.1 =
  [verdict "exceeded" "observe-only"; verdict "exceeded" "disable"].
Proof. by vm_compute. Qed.

Lemma one_observing_found : (rule_decisions (config_of one_observing) all_used 0 100).1.1 =
  [verdict "exceeded" "observe-only"; verdict "approaching" "disable"].
Proof. by vm_compute. Qed.
End Example_tier.

Import Example_tier.
#[local] Existing Instance range_forward.
#[local] Existing Instance keep_order.

Lemma a_disabling_rule_keeps_jobs_away_witness :
  ∃ text, filterBackendsByTierState (config_of two_disabling) (tier_refreshed two_disabling) (pool_of two_disabling) pinned =
    Fail (Wrapf text (Sentinel ErrBackendTierBlocked) "").
Proof.
  destruct (a_disabling_rule_keeps_jobs_away (config_of two_disabling) all_used 0 (tier_refreshed two_disabling) NewTierManager
    (pool_of two_disabling) "ec2" pinned 100 (verdict "exceeded" "disable")) as (_ & Hpinned & _);
    [reflexivity| |reflexivity..|apply Hpinned; vm_compute; eauto].
  rewrite two_disabling_found. apply elem_of_cons. right. by apply list_elem_of_singleton.
Defined.

Lemma observing_rule_hides_a_disabling_one_witness :
  pinnedBackendAllowedByTier "" (SetDecision (sv_tier (tier_refreshed one_observing)) (verdict "approaching" "disable")) "lite" "ec2" = false ∧
  pinnedBackendAllowedByTier "" (sv_tier (tier_refreshed one_observing)) "lite" "ec2" = true.
Proof.
  destruct (observing_rule_hides_a_disabling_one (config_of one_observing) all_used 0 (tier_refreshed one_observing) NewTierManager
    (pool_of one_observing) "ec2" 100 (verdict "exceeded" "observe-only") (verdict "approaching" "disable")) as (Hclosed & Hopen & _);
    [reflexivity| |reflexivity|reflexivity|reflexivity| | |reflexivity..|by split].
  - rewrite one_observing_found. by left.
  - intros d'. rewrite one_observing_found. intros [->|[->|[]%elem_of_nil]%elem_of_cons]%elem_of_cons; [done|]. intros _ Hs. discriminate Hs.
  - rewrite one_observing_found. apply elem_of_cons. right. by apply list_elem_of_singleton.
Defined.
