(* ===== verification/Dispatcher.v ===== *)
(** Lifecycle webhooks: src/internal/webhook/dispatcher.go.

    A delivery runs in its own goroutine and shares nothing with the others but the
    network; it is a function of what the network answers to its attempts.  What the
    encoder, the URL parser, the clock's text and the secrets give are parameters. *)

From stdpp Require Import pretty.
From S2P Require Import Prelude Errors Model Sha256.
Open Scope Z_scope.
Open Scope go_scope.

Module Lifecycle.

Definition EventReady : string := "ready".
Definition EventFailed : string := "failed".
Definition EventExpired : string := "expired".
Definition EventCompleted : string := "completed".
Definition EventCanceled : string := "canceled".
Definition EventQuarantined : string := "quarantined".

Definition EventName (state : AllocationState) : string :=
  match state with
  | StateReady => EventReady
  | StateFailed => EventFailed
  | StateExpired => EventExpired
  | StateCompleted => EventCompleted
  | StateCanceled => EventCanceled
  | StateQuarantined => EventQuarantined
  | _ => ""
  end.

Record Envelope := {
  ev_ID : string;
  ev_Event : string;
  ev_OccurredAt : Time;
  ev_Allocation : AllocationStatus;
}.

Definition normalizeEvent (event : string) : string :=
  let event := TrimPrefix (ToLower (TrimSpace event)) "allocation." in
  if existsb (String.eqb event) [EventReady; EventFailed; EventExpired; EventCompleted; EventCanceled; EventQuarantined] then event
  else if String.eqb event "cancelled" then EventCanceled else "".

Definition endpointWantsEvent (endpoint : WebhookEndpointConfig) (event : string) : bool :=
  match we_Events endpoint with
  | [] => true
  | events => existsb (fun raw => String.eqb (normalizeEvent raw) event) events
  end.

Definition signBody (secret body : string) : string := HexEncode (HMAC (octets_of secret) (octets_of body)).

Definition VerifySignature (secret header body : string) : bool :=
  match HexDecode (TrimPrefix (TrimSpace header) "sha256=") with
  | None => false
  | Some expected => bool_decide (expected = HMAC (octets_of secret) (octets_of body))
  end.

(** A request as it is sent; every one is a POST. *)
Record webhook_post := { rq_URL : string; rq_Headers : gmap string string; rq_Body : string }.

(** The type of an error decides whether it is retried. *)
Inductive delivery_error := permanentError (err : error) | otherError (err : error).

Definition isRetryable (err : delivery_error) : bool := match err with permanentError _ => false | otherError _ => true end.

(** What a dispatcher is given; [di_Secrets] is None without a secret reader, and a
    client without a timeout of its own gets [clientTimeout]. *)
Record Dispatcher := {
  di_cfg : WebhooksConfig;
  di_Marshal : Envelope → result string;
  di_NewRequest : string → option error;
  di_FormatTime : Time → string;
  di_Secrets : option (string → result (gmap string string));
}.

Definition clientTimeout (cfg : WebhooksConfig) : Duration :=
  if wc_Timeout cfg <=? 0 then 5 * Second else wc_Timeout cfg.

Definition ReadSecret (d : Dispatcher) (ref : string) : result (gmap string string) :=
  match di_Secrets d with None => Fail (Errorf "secret reader is not configured") | Some read => read ref end.

Definition resolveSigningSecret (d : Dispatcher) (endpoint : WebhookEndpointConfig) : result string :=
  let secret := TrimSpace (we_SigningSecret endpoint) in
  if negb (String.eqb secret "") then Ok secret
  else
    let ref := TrimSpace (we_SigningSecretRef endpoint) in
    if String.eqb ref "" then Fail (Errorf "endpoint has no signing secret")
    else match ReadSecret d ref with
    | Fail err => Fail (Wrapf ("read signing secret " +:+ quote ref +:+ ": ") err "")
    | Ok data =>
        let key := TrimSpace (we_SigningSecretKey endpoint) in
        let key := if String.eqb key "" then "signing_secret" else key in
        let secret := TrimSpace data.[key] in
        if String.eqb secret "" then Fail (Errorf ("signing secret " +:+ quote ref +:+ " missing key " +:+ quote key)) else Ok secret
    end.

(** A delivery in the making: the arguments of [deliverWithRetry]. *)
Record delivery_job := {
  dl_index : nat;
  dl_endpoint : WebhookEndpointConfig;
  dl_event : string;
  dl_ID : string;
  dl_body : string;
  dl_occurredAt : Time;
}.

Definition request_of (d : Dispatcher) (dl : delivery_job) (secret : string) : webhook_post :=
  {| rq_URL := TrimSpace (we_URL (dl_endpoint dl));
     rq_Headers := {[ "Content-Type" := "application/json"; "User-Agent" := "uecb-broker-webhooks/1.0";
                      "X-UECB-Event" := "allocation." +:+ dl_event dl; "X-UECB-Delivery" := dl_ID dl;
                      "X-UECB-Timestamp" := di_FormatTime d (dl_occurredAt dl);
                      "X-UECB-Signature" := "sha256=" +:+ signBody secret (dl_body dl) ]};
     rq_Body := dl_body dl |}.

Definition status_error (code : Z) : option delivery_error :=
  if (200 <=? code) && (code <? 300) then None
  else
    let err := Errorf ("webhook HTTP " +:+ pretty code) in
    if (code =? 408) || (code =? 429) || (500 <=? code) then Some (otherError err) else Some (permanentError err).

(** [answer]: the status the client got, or its error.  Returns the request, if one
    was sent. *)
Definition deliverOnce (d : Dispatcher) (dl : delivery_job) (answer : webhook_post → result Z) :
    option webhook_post * option delivery_error :=
  match resolveSigningSecret d (dl_endpoint dl) with
  | Fail err => (None, Some (permanentError err))
  | Ok secret =>
      match di_NewRequest d (TrimSpace (we_URL (dl_endpoint dl))) with
      | Some err => (None, Some (permanentError err))
      | None =>
          let req := request_of d dl secret in
          (Some req, match answer req with Fail err => Some (otherError err) | Ok code => status_error code end)
      end
  end.

(** What a delivery did, and how it ended. *)
Inductive delivery_step := Sent (req : webhook_post) | Slept (backoff : Duration).
Inductive delivery_end := Delivered | Permanent (err : delivery_error) | Exhausted (err : option delivery_error).

Definition sent_steps (req : option webhook_post) : list delivery_step := match req with None => [] | Some req => [Sent req] end.

(** The loop: [remaining] attempts from the [n]-th one on.  [secrets] is the dispatcher at
    the n-th attempt: its secrets may change. *)
Fixpoint deliver_loop (d : nat → Dispatcher) (dl : delivery_job) (answer : nat → webhook_post → result Z) (maxBackoff : Duration)
    (remaining n : nat) (backoff : Duration) (lastErr : option delivery_error) : list delivery_step * delivery_end :=
  match remaining with
  | O => ([], Exhausted lastErr)
  | Datatypes.S remaining =>
      let '(req, err) := deliverOnce (d n) dl (answer n) in
      match err with
      | None => (sent_steps req, Delivered)
      | Some err =>
          if (remaining =? 0)%nat then (sent_steps req, Exhausted (Some err))
          else if negb (isRetryable err) then (sent_steps req, Permanent err)
          else
            let next := wrap64 (backoff * 2) in
            let next := if maxBackoff <? next then maxBackoff else next in
            let '(steps, outcome) := deliver_loop d dl answer maxBackoff remaining (Datatypes.S n) next (Some err) in
            (sent_steps req ++ Slept backoff :: steps, outcome)
      end
  end.

Definition max_attempts (cfg : WebhooksConfig) : Z := if wc_MaxAttempts cfg <=? 0 then 3 else wc_MaxAttempts cfg.
Definition initial_backoff (cfg : WebhooksConfig) : Duration :=
  if wc_InitialBackoff cfg <=? 0 then 500 * Millisecond else wc_InitialBackoff cfg.
Definition max_backoff (cfg : WebhooksConfig) : Duration := if wc_MaxBackoff cfg <=? 0 then 10 * Second else wc_MaxBackoff cfg.

Definition deliverWithRetry (cfg : WebhooksConfig) (d : nat → Dispatcher) (dl : delivery_job) (answer : nat → webhook_post → result Z) :
    list delivery_step * delivery_end :=
  deliver_loop d dl answer (max_backoff cfg) (Z.to_nat (max_attempts cfg)) 0 (initial_backoff cfg) None.

(** The deliveries that are started: one goroutine each. *)
Definition NotifyEvent (d : Dispatcher) (deliveryID : string) (now : Time) (event : string) (status : AllocationStatus) : list delivery_job :=
  if negb (wc_Enabled (di_cfg d)) || (length (wc_Endpoints (di_cfg d)) =? 0)%nat then []
  else
    let event := normalizeEvent event in
    if String.eqb event "" then []
    else
      let envelope := {| ev_ID := deliveryID; ev_Event := "allocation." +:+ event; ev_OccurredAt := now; ev_Allocation := status |} in
      match di_Marshal d envelope with
      | Fail _ => []
      | Ok body =>
          omap (fun '(i, endpoint) =>
            if endpointWantsEvent endpoint event
            then Some {| dl_index := i; dl_endpoint := endpoint; dl_event := event; dl_ID := deliveryID; dl_body := body; dl_occurredAt := now |}
            else None) (imap pair (wc_Endpoints (di_cfg d)))
      end.

Definition Notify (d : Dispatcher) (deliveryID : string) (now : Time) (status : AllocationStatus) : list delivery_job :=
  if negb (wc_Enabled (di_cfg d)) || (length (wc_Endpoints (di_cfg d)) =? 0)%nat then []
  else
    let event := EventName (as_State status) in
    if String.eqb event "" then [] else NotifyEvent d deliveryID now event status.
End Lifecycle.
