(* ===== verification/DispatcherBehaviour.v ===== *)
(** What lifecycle webhooks achieve: a subscriber can check what it gets, a delivery
    makes a bounded number of attempts, and an accepted endpoint hears exactly what it
    lists. *)

From stdpp Require Import pretty.
From S2P Require Import Prelude Errors Model Sha256 Config ConfigTheory Dispatcher.
Open Scope Z_scope.
Open Scope go_scope.
Import Lifecycle.

(** ** Signatures *)

Lemma bytes_of_word_bytes w : Forall is_byte (bytes_of_word w).
Proof. unfold bytes_of_word, is_byte. repeat constructor; apply Z.mod_pos_bound; lia. Qed.

Lemma Sum256_bytes message : Forall is_byte (Sum256 message).
Proof.
  unfold Sum256. set (d := foldl _ _ _). clearbody d.
  apply Forall_concat. repeat (constructor; [apply bytes_of_word_bytes|]). constructor.
Qed.

Lemma HMAC_bytes key message : Forall is_byte (HMAC key message).
Proof. apply Sum256_bytes. Qed.

Lemma hex_digit_no_space n : 0 <= n < 16 → ascii_is_space (hex_digit n) = false.
Proof.
  intros Hn. assert (Hall : forallb (fun k => negb (ascii_is_space (hex_digit (Z.of_nat k)))) (seq 0 16) = true) by reflexivity.
  rewrite forallb_forall in Hall. specialize (Hall (Z.to_nat n)). rewrite Z2Nat.id, negb_true_iff in Hall by lia.
  apply Hall, in_seq. lia.
Qed.

Lemma HexEncode_no_space bytes : Forall is_byte bytes → no_space (HexEncode bytes) = true.
Proof.
  induction 1 as [|b bytes [Hl Hh] _ IH]; [done|]. cbn [HexEncode no_space].
  assert (0 <= b / 16 < 16) by (split; [by apply Z.div_pos|by apply Z.div_lt_upper_bound]).
  rewrite !hex_digit_no_space, IH by (by try apply Z.mod_pos_bound). done.
Qed.

Lemma VerifySignature_signed secret body other body' :
  VerifySignature other ("sha256=" +:+ signBody secret body) body' = true ↔
  HMAC (octets_of other) (octets_of body') = HMAC (octets_of secret) (octets_of body).
Proof.
  pose proof (HMAC_bytes (octets_of secret) (octets_of body)) as Hb. unfold VerifySignature, signBody.
  generalize dependent (HMAC (octets_of secret) (octets_of body)). intros mac Hb. rewrite no_space_TrimSpace.
  2: { rewrite no_space_app, HexEncode_no_space by done. done. }
  rewrite TrimPrefix_app, HexDecode_HexEncode, bool_decide_eq_true by done. by split.
Qed.

(** ** One delivery *)

Section Delivery.
Context (cfg : WebhooksConfig) (d : nat → Dispatcher) (dl : delivery_job) (answer : nat → webhook_post → result Z).

(** The i-th attempt. *)
Definition attempt (i : nat) : option webhook_post * option delivery_error := deliverOnce (d i) dl (answer i).

Lemma attempt_request i req : (attempt i).1 = Some req →
  ∃ secret, resolveSigningSecret (d i) (dl_endpoint dl) = Ok secret ∧ req = request_of (d i) dl secret.
Proof.
  unfold attempt, deliverOnce. destruct (resolveSigningSecret _ _) as [secret|]; [|done].
  case_match; [done|]. intros [= <-]. by exists secret.
Qed.

Lemma sent_by_an_attempt maxBackoff remaining : ∀ n backoff lastErr req,
  Sent req ∈ (deliver_loop d dl answer maxBackoff remaining n backoff lastErr).1 → ∃ i, (attempt i).1 = Some req.
Proof.
  assert (Hsent : ∀ n req, Sent req ∈ sent_steps (attempt n).1 → ∃ i, (attempt i).1 = Some req).
  { intros n req. destruct (attempt n).1 as [r|] eqn:Hr; [|by intros ?%elem_of_nil]. intros [= ->]%list_elem_of_singleton. by exists n. }
  induction remaining as [|remaining IH]; intros n backoff lastErr req; cbn [deliver_loop]; [by intros ?%elem_of_nil|].
  fold (attempt n). specialize (Hsent n req). destruct (attempt n) as [r err]. cbn [fst] in Hsent.
  destruct err as [err|]; [|exact Hsent]. destruct (remaining =? 0)%nat; [exact Hsent|].
  destruct (isRetryable err); cbn [negb]; [|exact Hsent].
  set (next := if _ <? _ then _ else _). specialize (IH (Datatypes.S n) next (Some err) req).
  destruct (deliver_loop _ _ _ _ _ _ _ _) as [steps outcome]. cbn [fst] in IH |- *.
  intros [Hs|[Hs|Hs]%elem_of_cons]%elem_of_app; [by apply Hsent|done|by apply IH].
Qed.

(** The wait after the i-th attempt, if it was not the last. *)
Definition pause (i : nat) : Duration :=
  if (i =? 0)%nat then initial_backoff cfg else Z.min (max_backoff cfg) (initial_backoff cfg * 2 ^ Z.of_nat i).

Definition steps_of (n : nat) (i : nat) : list delivery_step :=
  sent_steps (attempt i).1 ++ (if (Datatypes.S i <? n)%nat then [Slept (pause i)] else []).

Lemma initial_backoff_pos : 0 < initial_backoff cfg.
Proof. unfold initial_backoff. destruct (Z.leb_spec (wc_InitialBackoff cfg) 0); [done|lia]. Qed.

Lemma max_backoff_pos : 0 < max_backoff cfg.
Proof. unfold max_backoff. destruct (Z.leb_spec (wc_MaxBackoff cfg) 0); [done|lia]. Qed.

Lemma pause_next i : initial_backoff cfg < 2 ^ 62 → max_backoff cfg < 2 ^ 62 →
  (if max_backoff cfg <? wrap64 (pause i * 2) then max_backoff cfg else wrap64 (pause i * 2)) = pause (Datatypes.S i).
Proof.
  intros Hi Hm. pose proof initial_backoff_pos. pose proof max_backoff_pos.
  assert (Hp : 0 < pause i < 2 ^ 62).
  { unfold pause. case_match; [done|]. assert (0 < 2 ^ Z.of_nat i) by (by apply Z.pow_pos_nonneg; lia).
    assert (0 < initial_backoff cfg * 2 ^ Z.of_nat i) by (by apply Z.mul_pos_pos). lia. }
  rewrite wrap64_id by (unfold in_int64, min_int64, max_int64; lia). unfold pause.
  change (Datatypes.S i =? 0)%nat with false. cbv iota. rewrite Nat2Z.inj_succ, Z.pow_succ_r by lia.
  destruct (Nat.eqb_spec i 0) as [->|Hi0].
  - rewrite Z.pow_0_r. destruct (Z.ltb_spec (max_backoff cfg) (initial_backoff cfg * 2)); lia.
  - set (x := initial_backoff cfg * 2 ^ Z.of_nat i).
    replace (initial_backoff cfg * (2 * 2 ^ Z.of_nat i)) with (2 * x) by (unfold x; ring).
    destruct (Z.ltb_spec (max_backoff cfg) (Z.min (max_backoff cfg) x * 2)); lia.
Qed.

(** How a delivery of [k] attempts out of [allowed] ended, the last one being the
    [last]-th. *)
Definition ended (outcome : delivery_end) (last k allowed : nat) : Prop :=
  match outcome with
  | Delivered => (attempt last).2 = None
  | Permanent err => (attempt last).2 = Some err ∧ isRetryable err = false ∧ (k < allowed)%nat
  | Exhausted err => (attempt last).2 = err ∧ is_Some err ∧ k = allowed
  end.

(** The attempts from the [n]-th on: [k] of them, all but the last retryable. *)
Definition delivery_spec (n allowed : nat) (r : list delivery_step * delivery_end) : Prop :=
  ∃ k, (0 < k ≤ allowed)%nat ∧ r.1 = mjoin (steps_of (n + k) <$> seq n k) ∧
    (∀ i, (n ≤ i < n + k - 1)%nat → ∃ err, (attempt i).2 = Some (otherError err)) ∧ ended r.2 (n + k - 1) k allowed.

Lemma one_attempt n allowed outcome : (0 < allowed)%nat → ended outcome n 1 allowed →
  delivery_spec n allowed (sent_steps (attempt n).1, outcome).
Proof.
  intros Ha He. exists 1%nat. rewrite Nat.add_sub. split_and!; [lia..| |intros; lia|exact He].
  cbn. unfold steps_of. by rewrite Nat.add_1_r, Nat.ltb_irrefl, !app_nil_r.
Qed.

Lemma deliver_loop_spec remaining n lastErr :
  initial_backoff cfg < 2 ^ 62 → max_backoff cfg < 2 ^ 62 → (0 < remaining)%nat →
  delivery_spec n remaining (deliver_loop d dl answer (max_backoff cfg) remaining n (pause n) lastErr).
Proof.
  intros Hi Hm. revert n lastErr. induction remaining as [|remaining IH]; intros n lastErr Hr; [lia|].
  pose proof (one_attempt n (Datatypes.S remaining)) as Hone. cbn [deliver_loop]. fold (attempt n).
  destruct (attempt n) as [req err] eqn:Ha. unfold ended in Hone. rewrite Ha in Hone. cbn [fst snd] in Hone.
  destruct err as [err|]; [|by apply (Hone Delivered)].
  destruct (Nat.eqb_spec remaining 0) as [->|Hr0]; [apply (Hone (Exhausted _)); by eauto|].
  destruct (isRetryable err) eqn:Hret; cbn [negb]; [|apply (Hone (Permanent _)); split_and?; by auto with lia].
  cbv zeta. rewrite pause_next by done. specialize (IH (Datatypes.S n) (Some err) ltac:(lia)).
  destruct (deliver_loop _ _ _ _ _ _ _ _) as [steps outcome]. destruct IH as (k & Hk & Hsteps & Hearly & Hend). cbn [fst snd] in *.
  exists (Datatypes.S k). replace (n + Datatypes.S k)%nat with (Datatypes.S n + k)%nat by lia. split_and!; [lia..| | |].
  - cbn [fst seq fmap list_fmap mjoin list_join]. unfold steps_of at 1. rewrite Ha, Hsteps. cbn [fst].
    destruct (Nat.ltb_spec (Datatypes.S n) (Datatypes.S n + k)); [|lia]. by rewrite <- app_assoc.
  - intros i Hrange. destruct (decide (i = n)) as [->|]; [|apply Hearly; lia]. rewrite Ha. destruct err; [done|]. by eexists.
  - destruct outcome; [exact Hend|destruct Hend as (? & ? & ?); split_and!; [done..|lia]|destruct Hend as (? & ? & ?); split_and!; [done..|lia]].
Qed.
End Delivery.

(** C40. A subscriber can check what it gets: every request of a delivery carries the body
    and a signature header that [VerifySignature] accepts, with the secret the
    endpoint had at that attempt, for this body and for no other of a different MAC,
    and under no other secret. *)
Theorem subscribers_can_verify_deliveries cfg d dl answer req :
  Sent req ∈ (deliverWithRetry cfg d dl answer).1 →
  ∃ i secret header, resolveSigningSecret (d i) (dl_endpoint dl) = Ok secret ∧ rq_Body req = dl_body dl ∧
    rq_Headers req !! "X-UECB-Signature" = Some header ∧
    ∀ other body, VerifySignature other header body = true ↔
      HMAC (octets_of other) (octets_of body) = HMAC (octets_of secret) (octets_of (dl_body dl)).
Proof.
  intros Hs. apply sent_by_an_attempt in Hs as [i Hi]. apply attempt_request in Hi as (secret & Hsec & ->).
  exists i, secret, ("sha256=" +:+ signBody secret (dl_body dl)). split_and!; [done..| |].
  - unfold request_of. cbn [rq_Headers]. by simplify_map_eq.
  - intros other body. apply VerifySignature_signed.
Qed.

(** Retries follow the schedule: a delivery makes between one and the configured
    number of attempts (three by default), each but the last failing with an error
    worth a retry; it ends delivered, with a permanent error before the last allowed
    attempt, or after the last one; between two attempts it waits the initial backoff
    the first time, even when that is above the maximum, and then twice as long each
    time up to the maximum. *)
Theorem retries_follow_the_schedule cfg d dl answer :
  initial_backoff cfg < 2 ^ 62 → max_backoff cfg < 2 ^ 62 →
  delivery_spec cfg d dl answer 0 (Z.to_nat (max_attempts cfg)) (deliverWithRetry cfg d dl answer).
Proof.
  intros Hi Hm. unfold deliverWithRetry. change (initial_backoff cfg) with (pause cfg 0).
  apply deliver_loop_spec; [done..|]. unfold max_attempts. destruct (Z.leb_spec (wc_MaxAttempts cfg) 0); lia.
Qed.

(** ** Who is notified *)

(** [raw] spells [event]: in any case, with or without "allocation.". *)
Definition spells (raw event : string) : Prop :=
  let s := TrimPrefix (normalizeString raw) "allocation." in s = event ∨ (s = "cancelled" ∧ event = EventCanceled).

Lemma EventName_normal state : EventName state ≠ "" → normalizeEvent (EventName state) = EventName state.
Proof. by destruct state. Qed.

Lemma normalizeEvent_spells raw state : EventName state ≠ "" →
  String.eqb (normalizeEvent raw) (EventName state) = true ↔ spells raw (EventName state).
Proof.
  intros He. rewrite String.eqb_eq. unfold normalizeEvent, spells. fold (normalizeString raw).
  set (s := TrimPrefix (normalizeString raw) "allocation."). clearbody s. cbv zeta.
  destruct (existsb (String.eqb s) _) eqn:Hin.
  - split; [by left|]. intros [?|[-> _]]; [done|discriminate Hin].
  - destruct (String.eqb_spec s "cancelled") as [->|Hc].
    + by destruct state; cbn; naive_solver.
    + split; [by intros Hempty|]. intros [->|[? _]]; [|done]. by destruct state.
Qed.

Lemma event_ok_spells raw : event_ok raw → TrimSpace raw = "" ∨ ∃ state, EventName state ≠ "" ∧ spells raw (EventName state).
Proof.
  intros Hok. unfold event_ok in Hok. destruct (String.eqb_spec (TrimSpace raw) "") as [|Hne]; [by left|right].
  assert (Hn : normalizeString raw ≠ "") by (unfold normalizeString; intros He; by destruct (TrimSpace raw)).
  specialize (Hok Hn). unfold spells. cbv zeta. unfold supportedWebhookEvents in Hok.
  rewrite !elem_of_cons, elem_of_nil in Hok.
  destruct Hok as [->|[->|[->|[->|[->|[->|[->|[]]]]]]]];
    [exists StateReady|exists StateFailed|exists StateExpired|exists StateCompleted|exists StateCanceled|exists StateCanceled|exists StateQuarantined];
    (split; [done|]); by auto.
Qed.

(** The deliveries started for an event. *)
Lemma omap_index (f : WebhookEndpointConfig → bool) (make : nat → WebhookEndpointConfig → delivery_job) (l : list WebhookEndpointConfig) :
  (∀ i e, dl_index (make i e) = i) →
  NoDup (dl_index <$> omap (fun '(i, e) => if f e then Some (make i e) else None) (imap pair l)).
Proof.
  intros Hm. apply (sublist_NoDup _ (imap pair l).*1).
  - rewrite fmap_imap. change (λ n, fst ∘ pair n) with (λ (n : nat) (_ : WebhookEndpointConfig), n).
    rewrite (imap_seq_0 l (fun n => n)). change (fun n : nat => n) with (@id nat). rewrite list_fmap_id. apply NoDup_seq.
  - induction (imap pair l) as [|[i e] l' IH]; [constructor|]. cbn. destruct (f e); cbn; [rewrite Hm|]; by constructor.
Qed.

(** An endpoint hears what it lists: in an accepted configuration every entry of an
    endpoint's events is blank or spells a lifecycle event; and a transition starts
    one delivery, with the encoded envelope, for exactly the endpoints that list no
    events or spell its event, and none for a state that is no lifecycle event. *)
Theorem endpoints_hear_what_they_list d id now status body :
  validateWebhooks (di_cfg d) = None → wc_Enabled (di_cfg d) = true →
  di_Marshal d {| ev_ID := id; ev_Event := "allocation." +:+ EventName (as_State status); ev_OccurredAt := now; ev_Allocation := status |}
    = Ok body →
  (∀ endpoint raw, endpoint ∈ wc_Endpoints (di_cfg d) → raw ∈ we_Events endpoint →
     TrimSpace raw = "" ∨ ∃ state, EventName state ≠ "" ∧ spells raw (EventName state)) ∧
  (∀ i endpoint, (∃ dl, dl ∈ Notify d id now status ∧ dl_index dl = i ∧ dl_endpoint dl = endpoint ∧ dl_body dl = body) ↔
     wc_Endpoints (di_cfg d) !! i = Some endpoint ∧ EventName (as_State status) ≠ "" ∧
     (we_Events endpoint = [] ∨ ∃ raw, raw ∈ we_Events endpoint ∧ spells raw (EventName (as_State status)))) ∧
  NoDup (dl_index <$> Notify d id now status).
Proof.
  intros Hv Hon Hbody. apply (validateWebhooks_None (fun _ => Ok (fun t => t))) in Hv as (_ & _ & _ & _ & Hend). destruct (Hend Hon) as [Hne Hok]. split.
  { intros endpoint raw He Hr. apply event_ok_spells. by apply (Hok endpoint He). }
  unfold Notify, NotifyEvent. rewrite Hon. destruct (wc_Endpoints (di_cfg d)) as [|e0 es] eqn:Hes; [done|]. cbn [negb orb length Nat.eqb].
  destruct (String.eqb_spec (EventName (as_State status)) "") as [He|He].
  { split; [|constructor]. intros i endpoint. split; [by intros (dl & ?%elem_of_nil & _)|by intros (_ & ? & _)]. }
  rewrite EventName_normal, (proj2 (String.eqb_neq _ _) He), Hbody by done.
  set (make := fun i endpoint => {| dl_index := i; dl_endpoint := endpoint; dl_event := EventName (as_State status); dl_ID := id;
                                    dl_body := body; dl_occurredAt := now |}).
  split; [|by apply (omap_index (fun e => endpointWantsEvent e _) make)].
  intros i endpoint. assert (Hw : endpointWantsEvent endpoint (EventName (as_State status)) = true ↔
    we_Events endpoint = [] ∨ ∃ raw, raw ∈ we_Events endpoint ∧ spells raw (EventName (as_State status))).
  { unfold endpointWantsEvent. destruct (we_Events endpoint) as [|r rs]; [naive_solver|]. rewrite existsb_exists.
    setoid_rewrite normalizeEvent_spells; [|done]. setoid_rewrite <- list_elem_of_In. naive_solver. }
  rewrite <- Hw. split.
  - intros (dl & Hin & <- & <- & _). apply list_elem_of_omap in Hin as ([i' e] & Hin & Hf).
    apply elem_of_lookup_imap_1 in Hin as (i & e' & [= -> ->] & Hl). destruct (endpointWantsEvent e' _) eqn:Hwant; [|done].
    injection Hf as <-. by split_and!.
  - intros (Hl & _ & Hwant). exists (make i endpoint). split_and!; [|done..]. apply list_elem_of_omap. exists (i, endpoint).
    rewrite Hwant. split; [|done]. by apply elem_of_lookup_imap_2.
Qed.

(** ** A concrete endpoint *)

Module Example_lifecycle.

Definition endpoint (events : list string) : WebhookEndpointConfig :=
  {| we_URL := "https://hooks.example/uecb"; we_SigningSecret := "secret"; we_SigningSecretRef := ""; we_SigningSecretKey := "";
     we_Events := events |}.

Definition config (events : list string) : WebhooksConfig :=
  {| wc_Enabled := true; wc_Timeout := 0; wc_MaxAttempts := 2; wc_InitialBackoff := 20 * Second; wc_MaxBackoff := 0;
     wc_Endpoints := [endpoint events] |}.

Definition dispatcher (events : list string) : Dispatcher :=
  {| di_cfg := config events; di_Marshal := fun envelope => Ok (ev_Event envelope); di_NewRequest := fun _ => None;
     di_FormatTime := fun _ => "2026-01-01T00:00:00Z"; di_Secrets := None |}.

Definition ready : AllocationStatus := { zero_AllocationStatus with as_ID := "r"; as_State := StateReady }.

Definition first_delivery : delivery_job :=
  {| dl_index := 0; dl_endpoint := endpoint []; dl_event := "ready"; dl_ID := "id"; dl_body := "allocation.ready"; dl_occurredAt := 100 |}.

(** Unavailable, then accepted. *)
Definition recovers (i : nat) (_ : webhook_post) : result Z := if (i =? 0)%nat then Ok 503 else Ok 200.

Definition run := deliverWithRetry (config []) (fun _ => dispatcher []) first_delivery recovers.

(** The wait of 20 seconds is above the maximum of 10. *)
Lemma run_steps :
  run = ([Sent (request_of (dispatcher []) first_delivery "secret"); Slept (20 * Second);
          Sent (request_of (dispatcher []) first_delivery "secret")], Delivered).
Proof. vm_compute. reflexivity. Qed.

(** An endpoint that lists one blank event is accepted and hears nothing. *)
Example blank_event_hears_nothing :
  validateWebhooks (config [" "]) = None ∧ Notify (dispatcher [" "]) "id" 100 ready = [].
Proof. by vm_compute. Qed.

(** [VerifySignature] takes digits without "sha256=". *)
Example bare_digits_verify : VerifySignature "secret" (signBody "secret" "body") "body" = true.
Proof. vm_compute. reflexivity. Qed.
End Example_lifecycle.

Import Example_lifecycle.

Lemma subscribers_can_verify_deliveries_witness :
  ∃ secret header, resolveSigningSecret (dispatcher []) (endpoint []) = Ok secret ∧
    rq_Headers (request_of (dispatcher []) first_delivery "secret") !! "X-UECB-Signature" = Some header ∧
    VerifySignature secret header "allocation.ready" = true.
Proof.
  destruct (subscribers_can_verify_deliveries (config []) (fun _ => dispatcher []) first_delivery recovers
    (request_of (dispatcher []) first_delivery "secret")) as (i & secret & header & Hs & _ & Hh & Hv).
  { change (deliverWithRetry _ _ _ _) with run. rewrite run_steps. by left. }
  exists secret, header. split; [exact Hs|]. split; [exact Hh|]. by apply Hv.
Defined.

Lemma retries_follow_the_schedule_witness :
  delivery_spec (config []) (fun _ => dispatcher []) first_delivery recovers 0 2 run ∧ pause (config []) 0 = 20 * Second.
Proof.
  split; [|vm_compute; reflexivity].
  apply (retries_follow_the_schedule (config []) (fun _ => dispatcher []) first_delivery recovers); vm_compute; reflexivity.
Defined.

Lemma endpoints_hear_what_they_list_witness :
  ∃ dl, dl ∈ Notify (dispatcher [" Allocation.READY "]) "id" 100 ready ∧ dl_endpoint dl = endpoint [" Allocation.READY "].
Proof.
  destruct (endpoints_hear_what_they_list (dispatcher [" Allocation.READY "]) "id" 100 ready "allocation.ready") as (_ & Hiff & _);
    [vm_compute; reflexivity..|].
  destruct (proj2 (Hiff 0%nat (endpoint [" Allocation.READY "]))) as (dl & Hin & _ & He & _).
  { split; [reflexivity|]. split; [vm_compute; discriminate|]. right. exists " Allocation.READY ". split; [by left|]. left. vm_compute. reflexivity. }
  exists dl. split; [exact Hin|exact He].
Defined.
