(* ===== verification/GithubClient.v ===== *)
(** The GitHub client: src/internal/github/api.go.

    A client is its rate-limit and call counters with the requests it sent so far.
    The network, the token source, the JSON decoders and the text of times are
    parameters: what they give at the n-th call.  Page loops share [read_pages]. *)

From stdpp Require Import pretty.
From S2P Require Import Prelude Errors Model Store Scheduler FairShare Registry Backends Budget Capacity Admission.
From S2P Require Import Warm JobRetry TierPolicy ServicePolicy Service ServiceFilters Auth Allocate CapacityMatrix Http WorkflowJob.
From S2P Require Import Webhook WebhookReconcile.
Open Scope Z_scope.
Open Scope go_scope.

Module GitHub.

(** ** Escaping, package net/url *)

Definition unreserved (c : ascii) : bool :=
  let n := Z.of_nat (nat_of_ascii c) in
  ((97 <=? n) && (n <=? 122)) || ((65 <=? n) && (n <=? 90)) || ((48 <=? n) && (n <=? 57)) ||
  existsb (Ascii.eqb c) (String.list_ascii_of_string "-_.~").

Definition upper_hex (n : Z) : ascii := ascii_of_N (Z.to_N (if n <? 10 then n + 48 else n + 55)).

Fixpoint escape (keep : ascii → bool) (s : string) : string :=
  match s with
  | EmptyString => EmptyString
  | String c s =>
      let n := Z.of_nat (nat_of_ascii c) in
      if keep c then String c (escape keep s)
      else String (ascii_of_nat 37) (String (upper_hex (n / 16)) (String (upper_hex (n mod 16)) (escape keep s)))
  end.

(** A path segment keeps $ & + = : and @. *)
Definition PathEscape (s : string) : string :=
  escape (fun c => unreserved c || existsb (Ascii.eqb c) (String.list_ascii_of_string "$&+=:@")) s.

Fixpoint space_as_plus (s : string) : string :=
  match s with
  | EmptyString => EmptyString
  | String c s => String (if Ascii.eqb c " "%char then "+"%char else c) (space_as_plus s)
  end.

(** [url.QueryEscape]: a space is a plus. *)
Definition QueryEscape (s : string) : string := space_as_plus (escape (fun c => unreserved c || Ascii.eqb c " "%char) s).

Example escaped : PathEscape "a/b c" = "a%2Fb%20c" ∧ QueryEscape ">=2026-01-01 00:00Z" = "%3E%3D2026-01-01+00%3A00Z".
Proof. by vm_compute. Qed.

(** ** Requests *)

Inductive request_body :=
  | JITBody (name : string) (runnerGroupID : Z) (labels : list string)
  | LabelsBody (labels : list string).

Record api_request := { aq_Method : string; aq_URL : string; aq_Token : string; aq_Body : option request_body }.

(** A response: its status, two of its headers and its body. *)
Record api_answer := { an_StatusCode : Z; an_Remaining : string; an_Reset : string; an_Data : string }.

Inductive client_error := StatusError (code : Z) (message : string) | otherError (err : error).

Definition api_err (err : client_error) : error :=
  match err with
  | StatusError code message => Errorf ("github api status " +:+ pretty code +:+ ": " +:+ message)
  | otherError err => err
  end.

Definition has_status (codes : list Z) (err : client_error) : bool :=
  match err with StatusError code _ => existsb (Z.eqb code) codes | otherError _ => false end.

Record RunnerRegistration := {
  ru_ID : Z;
  ru_Name : string;
  ru_Status : string;
  ru_Busy : bool;
  ru_Labels : list (string * string);
}.

Record JITConfig := { jc_RunnerID : Z; jc_Encoded : string }.

(** What a client is given. *)
Record Wire := {
  wi_Token : option (nat → result string);
  wi_NewRequest : string → option error;
  wi_Do : nat → api_request → result api_answer;
  wi_FormatTime : Time → string;
  (* the message of an error's body, if it has one *)
  wi_Message : string → string;
  wi_Repositories : string → result (list string);
  wi_UserRepositories : string → result (list (string * bool));
  wi_InstallationRepositories : string → result (list (string * bool));
  wi_Runs : string → result (list Z);
  wi_Jobs : string → result (list github_job);
  wi_Job : string → result github_job;
  wi_Run : string → result (option string * option string * option string);
  wi_Groups : string → result (list (Z * string));
  wi_JIT : string → result (Z * string);
  wi_Runners : string → result (list RunnerRegistration);
}.

Record Client := {
  cl_baseURL : string;
  cl_rateRemaining : Z;
  cl_rateReset : Time;
  cl_rateKnown : bool;
  cl_apiCalls : Z;
  cl_steps : nat;
  cl_sent : list api_request;
}.

Definition NewClient : Client :=
  {| cl_baseURL := "https://api.github.com"; cl_rateRemaining := 0; cl_rateReset := 0; cl_rateKnown := false; cl_apiCalls := 0;
     cl_steps := 0; cl_sent := [] |}.

Definition WithBaseURL (c : Client) (base : string) : Client := { c with cl_baseURL := trim_slashes base }.

(** The token of the n-th call; [reader] is None without a secret reader. *)
Definition TokenFromSecret (reader : option (nat → string → result (gmap string string))) (name key : string) (n : nat) : result string :=
  let key := if blank key then "github_token" else key in
  match reader with
  | None => Fail (Errorf "github.auth.secretRef is not configured")
  | Some read =>
      if blank name then Fail (Errorf "github.auth.secretRef is not configured")
      else match read n name with
      | Fail err => Fail (Wrapf ("read github token secret " +:+ name +:+ ": ") err "")
      | Ok data =>
          let token := TrimSpace data.[key] in
          if String.eqb token "" then Fail (Errorf ("github token secret " +:+ name +:+ " has no " +:+ quote key)) else Ok token
      end
  end.

Definition RateLimit (c : Client) : option (Z * Time) :=
  if cl_rateKnown c then Some (cl_rateRemaining c, cl_rateReset c) else None.

Definition APICalls (c : Client) : Z := cl_apiCalls c.

(** [strconv.Atoi]: None is an error. *)
Definition Atoi (s : string) : option Z :=
  let digits := match s with
                | String c s' => if existsb (Ascii.eqb c) (String.list_ascii_of_string "+-") then s' else s
                | EmptyString => s
                end in
  if String.eqb digits "" || negb (all_digits digits) then None
  else
    let n := match s with
             | String c _ => (if Ascii.eqb c (ascii_of_nat 45) then -1 else 1) * default 0 (scan_digits digits None)
             | EmptyString => 0
             end in
    if (min_int64 <=? n) && (n <=? max_int64) then Some n else None.

Definition recordRateLimit (c : Client) (answer : api_answer) : Client :=
  let raw := TrimSpace (an_Remaining answer) in
  if String.eqb raw "" then c
  else match Atoi raw with
  | None => c
  | Some remaining =>
      let reset := match Atoi (TrimSpace (an_Reset answer)) with
                   | Some secs => if 0 <? secs then Unix secs else 0
                   | None => 0
                   end in
      { c with cl_rateRemaining := remaining; cl_rateReset := reset; cl_rateKnown := true }
  end.

(** [io.LimitReader(body, 1<<20)], read to its end. *)
Fixpoint limited (n : Z) (s : string) : string :=
  match s with
  | EmptyString => EmptyString
  | String c s => if n <=? 0 then EmptyString else String c (limited (n - 1) s)
  end.

Definition repositoryPath (repository : string) : result string :=
  match Prelude.Cut (TrimSpace repository) slash with
  | None => Fail (Errorf ("invalid repository " +:+ quote repository))
  | Some (owner, repo) =>
      if String.eqb owner "" || String.eqb repo "" || ContainsChar repo slash
      then Fail (Errorf ("invalid repository " +:+ quote repository))
      else Ok ("/repos/" +:+ PathEscape owner +:+ "/" +:+ PathEscape repo)
  end.

Definition scopePath (scope : GitHubScope) : result string :=
  let scopeType := TrimSpace (gs_Type scope) in
  if String.eqb scopeType GitHubScopeOrganization then Ok ("/orgs/" +:+ PathEscape (TrimSpace (gs_Organization scope)))
  else if String.eqb scopeType GitHubScopeRepository then
    Ok ("/repos/" +:+ PathEscape (TrimSpace (gs_Owner scope)) +:+ "/" +:+ PathEscape (TrimSpace (gs_Repository scope)))
  else Fail (Errorf ("github scope " +:+ quote (gs_Type scope) +:+ " must be resolved to an organization or repository first")).

Section Client.
Context (w : Wire).
Implicit Types (c : Client) (scope : GitHubScope).

(** A call; [zero] is the output of an empty body. *)
Definition do_ {A} c (method path : string) (body : option request_body) (decode : string → result A) (zero : A) (want : Z) :
    (A + client_error) * Client :=
  match wi_Token w with
  | None => (inr (otherError (Errorf "github client is not configured")), c)
  | Some token =>
      let n := cl_steps c in
      let c := { c with cl_steps := Datatypes.S n } in
      match token n with
      | Fail err => (inr (otherError err), c)
      | Ok token =>
          let c := { c with cl_apiCalls := wrap64 (cl_apiCalls c + 1) } in
          let url := cl_baseURL c +:+ path in
          match wi_NewRequest w url with
          | Some err => (inr (otherError err), c)
          | None =>
              let request := {| aq_Method := method; aq_URL := url; aq_Token := token; aq_Body := body |} in
              let c := { c with cl_sent := cl_sent c ++ [request] } in
              match wi_Do w n request with
              | Fail err => (inr (otherError err), c)
              | Ok answer =>
                  let c := recordRateLimit c answer in
                  let data := limited 1048576 (an_Data answer) in
                  if negb (an_StatusCode answer =? want) then
                    let message := wi_Message w data in
                    (inr (StatusError (an_StatusCode answer) (if String.eqb message "" then TrimSpace data else message)), c)
                  else if String.eqb data "" then (inl zero, c)
                  else match decode data with
                       | Fail err => (inr (otherError (Wrapf "decode github response: " err "")), c)
                       | Ok out => (inl out, c)
                       end
              end
          end
      end
  end.

Definition get_json {A} c (path : string) (decode : string → result A) (zero : A) : (A + client_error) * Client :=
  do_ c "GET" path None decode zero 200.

Definition no_output (data : string) : result unit := Ok tt.

(** [path] with its page. *)
Definition on_page (path : string) (page : Z) : string := path +:+ "per_page=100&page=" +:+ pretty page.

(** Pages from [page] on until one is short or [remaining] are read: what [keep] makes
    of them, and whether the cap was reached; or the error and its page. *)
Fixpoint read_pages {A B} (ask : Client → Z → (list A + client_error) * Client) (keep : B → list A → B) (remaining : nat) (page : Z)
    (acc : B) c : (B * bool + Z * client_error) * Client :=
  match remaining with
  | O => (inl (acc, true), c)
  | Datatypes.S remaining =>
      match ask c page with
      | (inr err, c) => (inr (page, err), c)
      | (inl items, c) =>
          let acc := keep acc items in
          if (length items <? 100)%nat then (inl (acc, false), c) else read_pages ask keep remaining (page + 1) acc c
      end
  end.

Definition page_cap (text : string) (pages : Z) : error :=
  Wrapf (text +:+ ": ") (Sentinel ErrPageCapReached) (" (" +:+ pretty pages +:+ " pages)").

(** ** Repositories *)

Definition MaxRepositoryPages : Z := 100.

(** Repositories of [owner] that are not archived. *)
Definition owned (owner : string) (repos : list (string * bool)) : list string :=
  omap (fun '(fullName, archived) =>
    let name := TrimSpace fullName in
    match Prelude.Cut name slash with
    | Some (repoOwner, _) => if negb archived && EqualFold repoOwner owner then Some name else None
    | None => None
    end) repos.

(** [None] is not ok. *)
Definition listAuthenticatedUserRepositories c (owner : string) : option (list string) * Client :=
  match read_pages (fun c page => get_json c (on_page "/user/repos?affiliation=owner&visibility=all&" page) (wi_UserRepositories w) [])
          (fun repos out => repos ++ owned owner out) (Z.to_nat MaxRepositoryPages) 1 [] c with
  | (inr _, c) => (None, c)
  | (inl (repos, _), c) => ((if (length repos =? 0)%nat then None else Some repos), c)
  end.

(** Repositories and an error, when ok. *)
Definition listInstallationRepositories c (owner : string) : option (list string * option error) * Client :=
  match read_pages (fun c page => get_json c (on_page "/installation/repositories?" page) (wi_InstallationRepositories w) [])
          (fun repos out => repos ++ owned owner out) (Z.to_nat MaxRepositoryPages) 1 [] c with
  | (inr (page, err), c) =>
      if (page =? 1) && has_status [401; 403; 404] err then (None, c)
      else (Some ([], Some (Wrapf ("list installation repositories for " +:+ owner +:+ ": ") (api_err err) "")), c)
  | (inl (repos, truncated), c) =>
      (Some (repos, if truncated then Some (page_cap ("list installation repositories for " +:+ owner) MaxRepositoryPages) else None), c)
  end.

Definition named_repositories (out : list string) : list string := List.filter (fun name => negb (blank name)) out.

(** The rest of the owner listing: every page but the first asks for all types. *)
Definition owner_pages c (owner path : string) (first : list string) : (list string * option error) * Client :=
  let repos := named_repositories first in
  if (length first <? 100)%nat then ((repos, None), c)
  else match read_pages (fun c page => get_json c (on_page (path +:+ "?type=all&") page) (wi_Repositories w) [])
               (fun repos out => repos ++ named_repositories out) (Z.to_nat (MaxRepositoryPages - 1)) 2 repos c with
  | (inr (_, err), c) => (([], Some (Wrapf ("list repositories for " +:+ owner +:+ ": ") (api_err err) "")), c)
  | (inl (repos, truncated), c) =>
      ((repos, if truncated then Some (page_cap ("list repositories for " +:+ owner) MaxRepositoryPages) else None), c)
  end.

(** The listing of an owner: an organization's, else, for the owner scope, the token's
    own account's or a user's public one. *)
Definition list_owner c scope (owner : string) : (list string * option error) * Client :=
  let listed err := ([], Some (Wrapf ("list repositories for " +:+ owner +:+ ": ") (api_err err) "")) in
  let orgs := "/orgs/" +:+ PathEscape owner +:+ "/repos" in
  match get_json c (on_page (orgs +:+ "?type=all&") 1) (wi_Repositories w) [] with
  | (inl out, c) => owner_pages c owner orgs out
  | (inr err, c) =>
      if negb (String.eqb (gs_Type scope) GitHubScopeOwner && has_status [404] err) then (listed err, c)
      else match listAuthenticatedUserRepositories c owner with
      | (Some own, c) => ((own, None), c)
      | (None, c) =>
          let users := "/users/" +:+ PathEscape owner +:+ "/repos" in
          match get_json c (on_page (users +:+ "?type=owner&") 1) (wi_Repositories w) [] with
          | (inr err, c) => (listed err, c)
          | (inl out, c) => owner_pages c owner users out
          end
      end
  end.

Definition ListRepositories c scope : (list string * option error) * Client :=
  if String.eqb (gs_Type scope) GitHubScopeRepository then
    match ForRepository scope "" with
    | Fail err => (([], Some err), c)
    | Ok repo => (([gs_Owner repo +:+ "/" +:+ gs_Repository repo], None), c)
    end
  else
    let owner := if String.eqb (gs_Type scope) GitHubScopeOrganization then TrimSpace (gs_Organization scope) else TrimSpace (gs_Owner scope) in
    if String.eqb owner "" then (([], Some (Errorf "GitHub owner scope is empty")), c)
    else match listInstallationRepositories c owner with
         | (Some r, c) => (r, c)
         | (None, c) => list_owner c scope owner
         end.

(** ** Workflow runs and jobs *)

Definition MaxQueuedRunPages : Z := 10.
Definition MaxWorkflowJobPages : Z := 10.

(** Positive identifiers that were not seen. *)
Definition add_runs (ids out : list Z) : list Z :=
  foldl (fun ids id => if (id <=? 0) || existsb (Z.eqb id) ids then ids else ids ++ [id]) ids out.

Definition queued_runs_path (base : string) (since : Time) : string :=
  base +:+ "/actions/runs?status=queued" +:+
  (if IsZero since then "" else "&created=" +:+ QueryEscape (">=" +:+ wi_FormatTime w since)) +:+ "&".

Definition ListQueuedWorkflowRuns c (repository : string) (since : Time) : (list Z * option error) * Client :=
  match repositoryPath repository with
  | Fail err => (([], Some err), c)
  | Ok base =>
      match read_pages (fun c page => get_json c (on_page (queued_runs_path base since) page) (wi_Runs w) [])
              add_runs (Z.to_nat MaxQueuedRunPages) 1 [] c with
      | (inr (_, err), c) => (([], Some (Wrapf ("list queued workflow runs for " +:+ repository +:+ ": ") (api_err err) "")), c)
      | (inl (ids, truncated), c) =>
          ((ids, if truncated then Some (page_cap ("list queued workflow runs for " +:+ repository) MaxQueuedRunPages) else None), c)
      end
  end.

(** A job without its run gets the one that was asked for. *)
Definition with_run (runID : Z) (job : github_job) : github_job := if gj_RunID job =? 0 then { job with gj_RunID := runID } else job.

Definition ListWorkflowJobs c (repository : string) (runID : Z) : (list github_job * option error) * Client :=
  match repositoryPath repository with
  | Fail err => (([], Some err), c)
  | Ok base =>
      if runID <=? 0 then (([], Some (Errorf "workflow run id must be positive")), c)
      else
        let what := "list workflow jobs for " +:+ repository +:+ " run " +:+ pretty runID in
        match read_pages (fun c page => get_json c (on_page (base +:+ "/actions/runs/" +:+ pretty runID +:+ "/jobs?") page) (wi_Jobs w) [])
                (fun jobs out => jobs ++ (with_run runID <$> out)) (Z.to_nat MaxWorkflowJobPages) 1 [] c with
        | (inr (_, err), c) => (([], Some (Wrapf (what +:+ ": ") (api_err err) "")), c)
        | (inl (jobs, truncated), c) => ((jobs, if truncated then Some (page_cap what MaxWorkflowJobPages) else None), c)
        end
  end.

Definition zero_github_job : github_job := {| gj_ID := 0; gj_RunID := 0; gj_Status := ""; gj_Labels := [] |}.

Definition GetWorkflowJob c (repository : string) (jobID : Z) : result github_job * Client :=
  match repositoryPath repository with
  | Fail err => (Fail err, c)
  | Ok base =>
      if jobID <=? 0 then (Fail (Errorf "workflow job id must be positive"), c)
      else match get_json c (base +:+ "/actions/jobs/" +:+ pretty jobID) (wi_Job w) zero_github_job with
      | (inr err, c) => (Fail (Wrapf ("get workflow job " +:+ repository +:+ "#" +:+ pretty jobID +:+ ": ") (api_err err) ""), c)
      | (inl job, c) => (Ok job, c)
      end
  end.

Definition GetWorkflowRun c (repository : string) (runID : Z) : result WorkflowRun * Client :=
  let invalid := (Fail (Errorf ("invalid workflow run " +:+ repository +:+ "#" +:+ pretty runID)), c) in
  match Prelude.Cut (TrimSpace repository) slash with
  | None => invalid
  | Some (owner, repo) =>
      if String.eqb owner "" || String.eqb repo "" || (runID <=? 0) then invalid
      else match get_json c ("/repos/" +:+ PathEscape owner +:+ "/" +:+ PathEscape repo +:+ "/actions/runs/" +:+ pretty runID)
                   (wi_Run w) (None, None, None) with
      | (inr err, c) => (Fail (Wrapf "get workflow run: " (api_err err) ""), c)
      | (inl (head, actor, triggering), c) =>
          match head with
          | None => (Fail (Errorf "get workflow run: no head_repository"), c)
          | Some head =>
              if blank head then (Fail (Errorf "get workflow run: no head_repository"), c)
              else (Ok {| rn_HeadRepository := head; rn_Actor := default "" actor; rn_TriggeringActor := default "" triggering |}, c)
          end
      end
  end.

(** ** Runner registrations *)

Definition MaxRunnerPages : Z := 50.

(** The first group of the one page that has the name. *)
Definition runnerGroupID c (base name : string) : result Z * Client :=
  match get_json c (base +:+ "/actions/runner-groups?per_page=100") (wi_Groups w) [] with
  | (inr err, c) => (Fail (Wrapf "list runner groups: " (api_err err) ""), c)
  | (inl groups, c) =>
      (match List.find (fun group => EqualFold group.2 name) groups with
       | Some group => Ok group.1
       | None => Fail (Errorf ("runner group " +:+ quote name +:+ " not found"))
       end, c)
  end.

Definition register_runner c (base : string) (groupID : Z) (name : string) (labels : list string) : result JITConfig * Client :=
  match do_ c "POST" (base +:+ "/actions/runners/generate-jitconfig") (Some (JITBody name groupID labels)) (wi_JIT w) (0, "") 201 with
  | (inr err, c) => (Fail (Wrapf "generate jit config: " (api_err err) ""), c)
  | (inl (id, encoded), c) =>
      if String.eqb encoded "" then (Fail (Errorf "generate jit config: empty encoded_jit_config"), c)
      else (Ok {| jc_RunnerID := id; jc_Encoded := encoded |}, c)
  end.

Definition GenerateJITConfig c scope (runnerGroup name : string) (labels : list string) : result JITConfig * Client :=
  match scopePath scope with
  | Fail err => (Fail err, c)
  | Ok base =>
      if negb (blank runnerGroup) && String.eqb (gs_Type scope) GitHubScopeOrganization then
        match runnerGroupID c base runnerGroup with
        | (Fail err, c) => (Fail err, c)
        | (Ok groupID, c) => register_runner c base groupID name labels
        end
      else register_runner c base 1 name labels
  end.

(** Gone already is no error. *)
Definition gone_is_ok (r : (unit + client_error) * Client) : option client_error * Client :=
  match r with
  | (inl _, c) => (None, c)
  | (inr err, c) => ((if has_status [404] err then None else Some err), c)
  end.

Definition DeleteRunner c scope (runnerID : Z) : option client_error * Client :=
  match scopePath scope with
  | Fail err => (Some (otherError err), c)
  | Ok base => gone_is_ok (do_ c "DELETE" (base +:+ "/actions/runners/" +:+ pretty runnerID) None no_output tt 204)
  end.

Definition ListRunners c scope : (list RunnerRegistration * option error) * Client :=
  match scopePath scope with
  | Fail err => (([], Some err), c)
  | Ok base =>
      match read_pages (fun c page => get_json c (on_page (base +:+ "/actions/runners?") page) (wi_Runners w) [])
              (fun runners out => runners ++ out) (Z.to_nat MaxRunnerPages) 1 [] c with
      | (inr (_, err), c) => (([], Some (api_err err)), c)
      | (inl (runners, truncated), c) =>
          ((runners, if truncated then Some (page_cap ("list runners for " +:+ base) MaxRunnerPages) else None), c)
      end
  end.

Definition AddRunnerLabels c scope (id : Z) (labels : list string) : option client_error * Client :=
  match scopePath scope with
  | Fail err => (Some (otherError err), c)
  | Ok base =>
      match do_ c "POST" (base +:+ "/actions/runners/" +:+ pretty id +:+ "/labels") (Some (LabelsBody labels)) no_output tt 200 with
      | (inl _, c) => (None, c)
      | (inr err, c) => (Some err, c)
      end
  end.

Definition RemoveRunnerLabel c scope (id : Z) (label : string) : option client_error * Client :=
  match scopePath scope with
  | Fail err => (Some (otherError err), c)
  | Ok base =>
      gone_is_ok (do_ c "DELETE" (base +:+ "/actions/runners/" +:+ pretty id +:+ "/labels/" +:+ PathEscape label) None no_output tt 200)
  end.
End Client.
End GitHub.
