(* ===== verification/GithubBehaviour.v ===== *)
(** What the GitHub client does on the wire: how many requests an operation sends,
    where they go, and that a listing is exact or says that it is not. *)

From stdpp Require Import pretty.
From S2P Require Import Prelude Errors Model Auth Webhook WebhookReconcile GithubClient.
Open Scope Z_scope.
Open Scope go_scope.
Import GitHub.

Section Wire.
Context (w : Wire).
Implicit Types (c : Client) (scope : GitHubScope).

(** ** Requests *)

(** A request below the base URL with a token of the token source. *)
Definition authorized (baseURL : string) (request : api_request) : Prop :=
  (∃ path, aq_URL request = baseURL +:+ path) ∧ ∃ token n, wi_Token w = Some token ∧ token n = Ok (aq_Token request).

(** From [c] to [c'] with at most [k] calls: the counter counts them, and every request
    that was sent is one of them. *)
Definition within (k : nat) c c' : Prop :=
  cl_baseURL c' = cl_baseURL c ∧
  ∃ calls requests, (length requests ≤ calls ≤ k)%nat ∧ cl_apiCalls c' = wrap64 (cl_apiCalls c + Z.of_nat calls) ∧
    cl_sent c' = cl_sent c ++ requests ∧ Forall (authorized (cl_baseURL c)) requests.

Definition counted c : Prop := in_int64 (cl_apiCalls c).

Lemma within_refl c : counted c → within 0 c c.
Proof.
  intros Hc. split; [done|]. exists O, []. split_and!; [done..| |by rewrite app_nil_r|constructor].
  by rewrite Z.add_0_r, wrap64_id.
Qed.

Lemma within_counted k c c' : within k c c' → counted c'.
Proof. intros (_ & calls & requests & _ & Hn & _). unfold counted. rewrite Hn. apply wrap64_range. Qed.

Lemma within_trans k1 k2 c1 c2 c3 : within k1 c1 c2 → within k2 c2 c3 → within (k1 + k2) c1 c3.
Proof.
  intros (Hb1 & n1 & r1 & Hn1 & Hc1 & Hs1 & Hf1) (Hb2 & n2 & r2 & Hn2 & Hc2 & Hs2 & Hf2). split; [congruence|].
  exists (n1 + n2)%nat, (r1 ++ r2). rewrite length_app. split_and!; [lia..| |by rewrite Hs2, Hs1, app_assoc|].
  - rewrite Hc2, Hc1. unfold wrap64. Z.to_euclidean_division_equations. lia.
  - apply Forall_app. split; [done|]. by rewrite Hb1 in Hf2.
Qed.

Lemma within_mono k k' c c' : (k ≤ k')%nat → within k c c' → within k' c c'.
Proof. intros Hk (Hb & n & r & Hn & Hrest). split; [done|]. exists n, r. split; [lia|done]. Qed.

Lemma recordRateLimit_frame c answer :
  cl_baseURL (recordRateLimit c answer) = cl_baseURL c ∧ cl_apiCalls (recordRateLimit c answer) = cl_apiCalls c ∧
  cl_sent (recordRateLimit c answer) = cl_sent c.
Proof. unfold recordRateLimit. repeat case_match; done. Qed.

Lemma do_within {A} c method path body (decode : string → result A) zero want : counted c →
  within 1 c (do_ w c method path body decode zero want).2.
Proof.
  intros Hc. assert (Hsame : ∀ c', cl_baseURL c' = cl_baseURL c → cl_apiCalls c' = cl_apiCalls c → cl_sent c' = cl_sent c → within 1 c c').
  { intros c' Hb Ha Hs. split; [done|]. exists O, []. split_and!; [done|lia| |by rewrite app_nil_r|constructor].
    rewrite Ha, Z.add_0_r, wrap64_id; done. }
  assert (Hunsent : ∀ c', cl_baseURL c' = cl_baseURL c → cl_apiCalls c' = wrap64 (cl_apiCalls c + 1) → cl_sent c' = cl_sent c → within 1 c c').
  { intros c' Hb Ha Hs. split; [done|]. exists 1%nat, []. by split_and!; [cbn; lia..| |rewrite app_nil_r|]. }
  unfold do_. destruct (wi_Token w) as [token|] eqn:Htok; [|by apply Hsame].
  destruct (token (cl_steps c)) as [tok|] eqn:Ht; [|by apply Hsame]. cbv zeta.
  destruct (wi_NewRequest w _); [by apply Hunsent|].
  match goal with |- context [wi_Do w _ ?r] => set (request := r) end.
  assert (Hsent : ∀ c', cl_baseURL c' = cl_baseURL c → cl_apiCalls c' = wrap64 (cl_apiCalls c + 1) → cl_sent c' = cl_sent c ++ [request] →
            within 1 c c').
  { intros c' Hb Ha Hs. split; [done|]. exists 1%nat, [request]. split_and!; [cbn; lia..|exact Ha|exact Hs|].
    constructor; [|constructor]. split; [by exists path|]. by exists token, (cl_steps c). }
  destruct (wi_Do w _ _) as [answer|]; [|by apply Hsent].
  match goal with |- context [recordRateLimit ?c1 answer] => destruct (recordRateLimit_frame c1 answer) as (Hb & Ha & Hs) end.
  repeat case_match; by apply Hsent.
Qed.

Lemma get_within {A} c path (decode : string → result A) zero : counted c → within 1 c (get_json w c path decode zero).2.
Proof. apply do_within. Qed.

Lemma within_step k k' c c1 c2 : within k c c1 → (counted c1 → within k' c1 c2) → within (k + k') c c2.
Proof. intros H1 H2. eapply within_trans; [exact H1|]. by apply H2, (within_counted k c). Qed.

(** ** Page loops *)

Section Pages.
Context {A B : Type} (ask : Client → Z → (list A + client_error) * Client) (keep : B → list A → B).

Lemma read_pages_within remaining page acc c : counted c → (∀ c page, counted c → within 1 c (ask c page).2) →
  within remaining c (read_pages ask keep remaining page acc c).2.
Proof.
  intros Hc Hask. revert page acc c Hc. induction remaining as [|remaining IH]; intros page acc c Hc; [by apply within_refl|].
  cbn [read_pages]. pose proof (Hask c page Hc) as H1. destruct (ask c page) as [[items|err] c1]; cbn [snd] in H1.
  - cbv zeta. case_match; [by apply (within_mono 1); [lia|]|]. apply (within_step 1 remaining c c1); [done|]. intros Hc1. by apply IH.
  - by apply (within_mono 1); [lia|].
Qed.

Lemma read_pages_error_page remaining page acc c p err c' :
  read_pages ask keep remaining page acc c = (inr (p, err), c') → page ≤ p ∧ (p = page → c' = (ask c page).2).
Proof.
  revert page acc c. induction remaining as [|remaining IH]; intros page acc c; [done|]. cbn [read_pages].
  destruct (ask c page) as [[items|e] c1]; [|by intros [= <- <- <-]].
  cbv zeta. case_match; [done|]. intros Hr. apply IH in Hr as [Hp _]. split; [lia|]. intros ->. lia.
Qed.

(** Consecutive pages that were answered. *)
Inductive answered : Client → Z → list (list A) → Client → Prop :=
| answered_none c page : answered c page [] c
| answered_one c page items c1 pages c2 : ask c page = (inl items, c1) → answered c1 (page + 1) pages c2 →
    answered c page (items :: pages) c2.

Definition full (items : list A) : Prop := (100 ≤ length items)%nat.

(** What was read: pages that are full, and after them a short one, none because the
    cap is reached, or an error. *)
Lemma read_pages_spec remaining page acc c :
  ∃ pages c1, answered c page pages c1 ∧ (length pages ≤ remaining)%nat ∧
  match read_pages ask keep remaining page acc c with
  | (inl (kept, truncated), c') => c' = c1 ∧ kept = foldl keep acc pages ∧
      (if truncated then Forall full pages ∧ length pages = remaining
       else ∃ before short, pages = before ++ [short] ∧ Forall full before ∧ ¬ full short)
  | (inr (p, err), c') => ask c1 p = (inr err, c') ∧ Forall full pages ∧ p = page + Z.of_nat (length pages) ∧ (length pages < remaining)%nat
  end.
Proof.
  revert page acc c. induction remaining as [|remaining IH]; intros page acc c.
  { exists [], c. split; [constructor|]. cbn. by split_and!. }
  cbn [read_pages]. destruct (ask c page) as [[items|err] c1] eqn:Ha.
  2: { exists [], c. split; [constructor|]. cbn. split_and!; [lia|exact Ha|constructor|lia..]. }
  cbv zeta. destruct (Nat.ltb_spec (length items) 100) as [Hshort|Hfull].
  { exists [items], c1. split; [by repeat econstructor|]. cbn. split_and!; [lia|done..|]. exists [], items.
    split_and!; [done|constructor|unfold full; lia]. }
  destruct (IH (page + 1) (keep acc items) c1) as (pages & c2 & Hp & Hlen & Hr). exists (items :: pages), c2.
  split; [by econstructor|]. split; [cbn; lia|].
  destruct (read_pages _ _ _ _ _ _) as [[[kept truncated]|[p e]] c'].
  - destruct Hr as (-> & -> & Hr). split_and!; [done..|]. destruct truncated.
    + destruct Hr as [Hf <-]. split; [by constructor|done].
    + destruct Hr as (before & short & -> & Hf & Hs). exists (items :: before), short. split_and!; [done|by constructor|done].
  - destruct Hr as (Hask & Hf & -> & Hlt). split_and!; [|by constructor|cbn; lia..]. done.
Qed.
End Pages.

(** ** Every operation *)

Lemma pages_within {A B} path (decode : string → result (list A)) (keep : B → list A → B) remaining page acc c : counted c →
  within remaining c (read_pages (fun c page => get_json w c (on_page path page) decode []) keep remaining page acc c).2.
Proof. intros Hc. apply read_pages_within; [done|]. intros c' page' Hc'. by apply get_within. Qed.

Lemma gone_within k c r : within k c r.2 → within k c (gone_is_ok r).2.
Proof. by destruct r as [[?|?] ?]. Qed.

Lemma listInstallation_within c owner : counted c →
  within (if (listInstallationRepositories w c owner).1 then 100 else 1) c (listInstallationRepositories w c owner).2.
Proof.
  intros Hc. unfold listInstallationRepositories.
  pose proof (pages_within "/installation/repositories?" (wi_InstallationRepositories w)
    (fun repos out => repos ++ owned owner out) (Z.to_nat MaxRepositoryPages) 1 [] c Hc) as Hw.
  destruct (read_pages _ _ _ _ _ _) as [[[repos truncated]|[p err]] c'] eqn:Hr; [exact Hw|].
  destruct (Z.eqb_spec p 1) as [->|]; cbn [andb]; [|exact Hw]. destruct (has_status _ err); [|exact Hw].
  apply read_pages_error_page in Hr as [_ ->]; [|done]. by apply get_within.
Qed.

Lemma owner_pages_within c owner path first : counted c → within 99 c (owner_pages w c owner path first).2.
Proof.
  intros Hc. unfold owner_pages. case_match; [by apply (within_mono 0); [lia|apply within_refl]|].
  pose proof (pages_within (path +:+ "?type=all&") (wi_Repositories w) (fun repos out => repos ++ named_repositories out)
    (Z.to_nat (MaxRepositoryPages - 1)) 2 (named_repositories first) c Hc) as Hw.
  by destruct (read_pages _ _ _ _ _ _) as [[[? ?]|[? ?]] ?].
Qed.

Lemma listAuthenticated_within c owner : counted c → within 100 c (listAuthenticatedUserRepositories w c owner).2.
Proof.
  intros Hc. unfold listAuthenticatedUserRepositories.
  pose proof (pages_within "/user/repos?affiliation=owner&visibility=all&" (wi_UserRepositories w)
    (fun repos out => repos ++ owned owner out) (Z.to_nat MaxRepositoryPages) 1 [] c Hc) as Hw.
  by destruct (read_pages _ _ _ _ _ _) as [[[? ?]|?] ?].
Qed.

Lemma list_owner_within c scope owner : counted c → within 201 c (list_owner w c scope owner).2.
Proof.
  intros Hc. unfold list_owner. cbv zeta.
  match goal with |- context [get_json w c ?p ?d ?z] => pose proof (get_within c p d z Hc) as Hw1; destruct (get_json w c p d z) as [[out|err] c1] end;
    cbn [snd] in Hw1.
  { apply (within_step 1 200 c c1); [done|]. intros Hc1. apply (within_mono 99); [lia|]. by apply owner_pages_within. }
  case_match; [by apply (within_mono 1); [lia|]|]. apply (within_step 1 200 c c1); [done|]. intros Hc1.
  pose proof (listAuthenticated_within c1 owner Hc1) as Hw2. destruct (listAuthenticatedUserRepositories _ _ _) as [[own|] c2]; cbn [snd] in Hw2.
  { by apply (within_mono 100); [lia|]. }
  apply (within_step 100 100 c1 c2); [done|]. intros Hc2.
  match goal with |- context [get_json w c2 ?p ?d ?z] => pose proof (get_within c2 p d z Hc2) as Hw3; destruct (get_json w c2 p d z) as [[out|err'] c3] end;
    cbn [snd] in Hw3.
  - apply (within_step 1 99 c2 c3); [done|]. intros Hc3. by apply owner_pages_within.
  - by apply (within_mono 1); [lia|].
Qed.

Lemma ListRepositories_within c scope : counted c → within 202 c (ListRepositories w c scope).2.
Proof.
  intros Hc. unfold ListRepositories. assert (Hz : within 202 c c) by (by apply (within_mono 0); [lia|apply within_refl]).
  case_match; [by case_match|]. cbv zeta. match goal with |- context [listInstallationRepositories w c ?o] => set (owner := o) end. case_match; [done|].
  pose proof (listInstallation_within c owner Hc) as Hw. destruct (listInstallationRepositories _ _ _) as [[r|] c1]; cbn [fst snd] in Hw.
  - by apply (within_mono 100); [lia|].
  - apply (within_step 1 201 c c1); [done|]. intros Hc1. by apply list_owner_within.
Qed.

Lemma ListQueuedWorkflowRuns_within c repository since : counted c → within 10 c (ListQueuedWorkflowRuns w c repository since).2.
Proof.
  intros Hc. unfold ListQueuedWorkflowRuns. destruct (repositoryPath _) as [base|]; [|by apply (within_mono 0); [lia|apply within_refl]].
  pose proof (pages_within (queued_runs_path w base since) (wi_Runs w) add_runs (Z.to_nat MaxQueuedRunPages) 1 [] c Hc) as Hw.
  by destruct (read_pages _ _ _ _ _ _) as [[[? ?]|[? ?]] ?].
Qed.

Lemma ListWorkflowJobs_within c repository runID : counted c → within 10 c (ListWorkflowJobs w c repository runID).2.
Proof.
  intros Hc. unfold ListWorkflowJobs. assert (Hz : within 10 c c) by (by apply (within_mono 0); [lia|apply within_refl]).
  destruct (repositoryPath _) as [base|]; [|done]. case_match; [done|]. cbv zeta.
  pose proof (pages_within (base +:+ "/actions/runs/" +:+ pretty runID +:+ "/jobs?") (wi_Jobs w)
    (fun jobs out => jobs ++ (with_run runID <$> out)) (Z.to_nat MaxWorkflowJobPages) 1 [] c Hc) as Hw.
  by destruct (read_pages _ _ _ _ _ _) as [[[? ?]|[? ?]] ?].
Qed.

Lemma ListRunners_within c scope : counted c → within 50 c (ListRunners w c scope).2.
Proof.
  intros Hc. unfold ListRunners. destruct (scopePath scope) as [base|]; [|by apply (within_mono 0); [lia|apply within_refl]].
  pose proof (pages_within (base +:+ "/actions/runners?") (wi_Runners w) (fun runners out => runners ++ out)
    (Z.to_nat MaxRunnerPages) 1 [] c Hc) as Hw.
  by destruct (read_pages _ _ _ _ _ _) as [[[? ?]|[? ?]] ?].
Qed.

Lemma register_runner_within c base groupID name labels : counted c → within 1 c (register_runner w c base groupID name labels).2.
Proof.
  intros Hc. unfold register_runner. match goal with |- context [do_ w c ?m ?p ?b ?d ?z ?n] => pose proof (do_within c m p b d z n Hc) as Hw end.
  destruct (do_ _ _ _ _ _ _ _ _) as [[[? ?]|?] ?]; [by case_match|done].
Qed.

Lemma GenerateJITConfig_within c scope runnerGroup name labels : counted c →
  within 2 c (GenerateJITConfig w c scope runnerGroup name labels).2.
Proof.
  intros Hc. unfold GenerateJITConfig. destruct (scopePath scope) as [base|]; [|by apply (within_mono 0); [lia|apply within_refl]].
  case_match; [|by apply (within_mono 1); [lia|apply register_runner_within]].
  assert (Hw1 : within 1 c (runnerGroupID w c base runnerGroup).2).
  { unfold runnerGroupID. pose proof (get_within c (base +:+ "/actions/runner-groups?per_page=100") (wi_Groups w) [] Hc) as Hw.
    by destruct (get_json _ _ _ _ _) as [[?|?] ?]. }
  destruct (runnerGroupID _ _ _ _) as [[groupID|err] c1]; cbn [snd] in Hw1; [|by apply (within_mono 1); [lia|]].
  apply (within_step 1 1 c c1); [done|]. intros Hc1. by apply register_runner_within.
Qed.

Lemma GetWorkflowJob_within c repository jobID : counted c → within 1 c (GetWorkflowJob w c repository jobID).2.
Proof.
  intros Hc. unfold GetWorkflowJob. assert (Hz : within 1 c c) by (by apply (within_mono 0); [lia|apply within_refl]).
  destruct (repositoryPath _) as [base|]; [|done]. case_match; [done|].
  match goal with |- context [get_json w c ?p ?d ?z] => pose proof (get_within c p d z Hc) as Hw end.
  by destruct (get_json _ _ _ _ _) as [[?|?] ?].
Qed.

Lemma GetWorkflowRun_within c repository runID : counted c → within 1 c (GetWorkflowRun w c repository runID).2.
Proof.
  intros Hc. unfold GetWorkflowRun. assert (Hz : within 1 c c) by (by apply (within_mono 0); [lia|apply within_refl]).
  cbv zeta. destruct (Prelude.Cut _ _) as [[owner repo]|]; [|done]. case_match; [done|].
  match goal with |- context [get_json w c ?p ?d ?z] => pose proof (get_within c p d z Hc) as Hw end.
  destruct (get_json _ _ _ _ _) as [[[[[head|] ?] ?]|?] ?]; [by case_match|done..].
Qed.

(** Operations on registered runners that call once. *)
Lemma runner_call_within c scope (call : string → option client_error * Client) : counted c →
  (∀ base, within 1 c (call base).2) →
  within 1 c (match scopePath scope with Fail err => (Some (otherError err), c) | Ok base => call base end).2.
Proof. intros Hc Hcall. destruct (scopePath scope); [done|]. by apply (within_mono 0); [lia|apply within_refl]. Qed.

(** ** Sequences of operations *)

Inductive operation :=
  | CallListRepositories (scope : GitHubScope)
  | CallListQueuedWorkflowRuns (repository : string) (since : Time)
  | CallListWorkflowJobs (repository : string) (runID : Z)
  | CallGetWorkflowJob (repository : string) (jobID : Z)
  | CallGetWorkflowRun (repository : string) (runID : Z)
  | CallGenerateJITConfig (scope : GitHubScope) (runnerGroup name : string) (labels : list string)
  | CallDeleteRunner (scope : GitHubScope) (runnerID : Z)
  | CallListRunners (scope : GitHubScope)
  | CallAddRunnerLabels (scope : GitHubScope) (id : Z) (labels : list string)
  | CallRemoveRunnerLabel (scope : GitHubScope) (id : Z) (label : string).

Definition perform c (op : operation) : Client :=
  match op with
  | CallListRepositories scope => (ListRepositories w c scope).2
  | CallListQueuedWorkflowRuns repository since => (ListQueuedWorkflowRuns w c repository since).2
  | CallListWorkflowJobs repository runID => (ListWorkflowJobs w c repository runID).2
  | CallGetWorkflowJob repository jobID => (GetWorkflowJob w c repository jobID).2
  | CallGetWorkflowRun repository runID => (GetWorkflowRun w c repository runID).2
  | CallGenerateJITConfig scope runnerGroup name labels => (GenerateJITConfig w c scope runnerGroup name labels).2
  | CallDeleteRunner scope runnerID => (DeleteRunner w c scope runnerID).2
  | CallListRunners scope => (ListRunners w c scope).2
  | CallAddRunnerLabels scope id labels => (AddRunnerLabels w c scope id labels).2
  | CallRemoveRunnerLabel scope id label => (RemoveRunnerLabel w c scope id label).2
  end.

Definition call_cap (op : operation) : nat :=
  match op with
  | CallListRepositories _ => 202
  | CallListQueuedWorkflowRuns _ _ | CallListWorkflowJobs _ _ => 10
  | CallListRunners _ => 50
  | CallGenerateJITConfig _ _ _ _ => 2
  | _ => 1
  end.

Lemma perform_within c op : counted c → within (call_cap op) c (perform c op).
Proof.
  intros Hc. destruct op; cbn [perform call_cap].
  - by apply ListRepositories_within.
  - by apply ListQueuedWorkflowRuns_within.
  - by apply ListWorkflowJobs_within.
  - by apply GetWorkflowJob_within.
  - by apply GetWorkflowRun_within.
  - by apply GenerateJITConfig_within.
  - apply runner_call_within; [done|]. intros base. by apply gone_within, do_within.
  - by apply ListRunners_within.
  - apply runner_call_within; [done|]. intros base.
    match goal with |- context [do_ w c ?m ?p ?b ?d ?z ?n] => pose proof (do_within c m p b d z n Hc) as Hw end.
    by destruct (do_ _ _ _ _ _ _ _ _) as [[?|?] ?].
  - apply runner_call_within; [done|]. intros base. by apply gone_within, do_within.
Qed.

Lemma performs_within ops c : counted c → within (list_sum (call_cap <$> ops)) c (foldl perform c ops).
Proof.
  revert c. induction ops as [|op ops IH]; intros c Hc; [by apply within_refl|]. cbn [foldl fmap list_fmap list_sum foldr].
  apply (within_step _ _ c (perform c op)); [by apply perform_within|]. apply IH.
Qed.

(** Few requests, and only to GitHub: whatever the operations of a client, and whatever
    the answers, every request it sends is below its base URL with a token its token
    source gave, and it sends at most the sum of their caps: 202 to list
    repositories, 10 to list queued runs or the jobs of a run, 50 to list runners, 2
    to register a runner and one for the rest; [APICalls] counts them, and the calls
    that failed before they were sent. *)
Theorem requests_are_authorized_and_few base ops :
  let c := foldl perform (WithBaseURL NewClient base) ops in
  Forall (authorized (trim_slashes base)) (cl_sent c) ∧
  ∃ calls, (length (cl_sent c) ≤ calls ≤ list_sum (call_cap <$> ops))%nat ∧ APICalls c = wrap64 (Z.of_nat calls).
Proof.
  destruct (performs_within ops (WithBaseURL NewClient base)) as (_ & calls & requests & Hn & Hc & Hs & Hf); [done|].
  cbn in Hs, Hc, Hf. cbv zeta. rewrite Hs. split; [exact Hf|]. exists calls. split; [exact Hn|]. exact Hc.
Qed.

(** ** Listings *)

(** The pages a listing read, what it returned, and where it stopped: after a short
    page, at the cap, or at a page that failed. *)
Definition listing {A X} (ask : Client → Z → (list A + client_error) * Client) (cap : nat) (value : list (list A) → list X → Prop) c
    (r : list X * option error * Client) : Prop :=
  ∃ pages c1, answered ask c 1 pages c1 ∧ (length pages ≤ cap)%nat ∧
    ((r.2 = c1 ∧ value pages r.1.1 ∧
      ((r.1.2 = None ∧ ∃ before short, pages = before ++ [short] ∧ Forall full before ∧ ¬ full short) ∨
       (∃ err, r.1.2 = Some err ∧ errors_Is err ErrPageCapReached = true ∧ Forall full pages ∧ length pages = cap))) ∨
     (r.1.1 = [] ∧ (∃ err, r.1.2 = Some err) ∧ Forall full pages ∧
      ∃ err c', ask c1 (1 + Z.of_nat (length pages)) = (inr err, c'))).

Lemma read_pages_listing {A X} (ask : Client → Z → (list A + client_error) * Client) (keep : list X → list A → list X) cap
    (value : list (list A) → list X → Prop) (failed : client_error → error) (capped : error) c :
  (∀ pages, value pages (foldl keep [] pages)) → errors_Is capped ErrPageCapReached = true →
  listing ask cap value c
    match read_pages ask keep cap 1 [] c with
    | (inr (_, err), c) => (([], Some (failed err)), c)
    | (inl (kept, truncated), c) => ((kept, if truncated then Some capped else None), c)
    end.
Proof.
  intros Hv Hcap. destruct (read_pages_spec ask keep cap 1 [] c) as (pages & c1 & Ha & Hlen & Hr). exists pages, c1.
  split; [exact Ha|]. split; [exact Hlen|]. destruct (read_pages _ _ _ _ _ _) as [[[kept truncated]|[p err]] c'].
  - left. destruct Hr as (-> & -> & Hr). split; [done|]. split; [apply Hv|]. destruct truncated; [right|left; by split].
    exists capped. split; [done|]. by split.
  - right. destruct Hr as (Hask & Hf & -> & _). split_and!; [done|by eexists|exact Hf|]. by eexists _, _.
Qed.

Lemma add_runs_spec out ids : NoDup ids → NoDup (add_runs ids out) ∧ ∀ id, id ∈ add_runs ids out ↔ id ∈ ids ∨ (0 < id ∧ id ∈ out).
Proof.
  unfold add_runs. revert ids. induction out as [|x out IH]; intros ids Hnd; cbn [foldl]; [set_solver|].
  destruct (Z.leb_spec x 0); cbn [orb].
  { destruct (IH ids Hnd) as [Hn Hi]. split; [done|]. intros id. rewrite Hi. set_unfold. naive_solver lia. }
  destruct (existsb (Z.eqb x) ids) eqn:He.
  - apply existsb_exists in He as (y & Hy & Heq%Z.eqb_eq). subst y. apply list_elem_of_In in Hy.
    destruct (IH ids Hnd) as [Hn Hi]. split; [done|]. intros id. rewrite Hi. set_unfold. naive_solver.
  - assert (Hx : x ∉ ids).
    { intros Hx. apply not_true_iff_false in He. apply He, existsb_exists. exists x. split; [by apply list_elem_of_In|apply Z.eqb_refl]. }
    destruct (IH (ids ++ [x])) as [Hn Hi]. { apply NoDup_app. split_and!; [done|set_solver|apply NoDup_singleton]. }
    split; [done|]. intros id. rewrite Hi. set_unfold. naive_solver.
Qed.

(** Every positive identifier of the pages, once. *)
Definition runs_of (pages : list (list Z)) (ids : list Z) : Prop :=
  NoDup ids ∧ ∀ id, id ∈ ids ↔ 0 < id ∧ ∃ page, page ∈ pages ∧ id ∈ page.

Lemma add_runs_pages pages : runs_of pages (foldl add_runs [] pages).
Proof.
  assert (Hall : ∀ pages ids, NoDup ids → NoDup (foldl add_runs ids pages) ∧
    ∀ id, id ∈ foldl add_runs ids pages ↔ id ∈ ids ∨ (0 < id ∧ ∃ page, page ∈ pages ∧ id ∈ page)).
  { clear. induction pages as [|page pages IH]; intros ids Hnd; cbn [foldl]; [set_solver|].
    destruct (add_runs_spec page ids Hnd) as [Hn Hi]. destruct (IH _ Hn) as [Hn' Hi']. split; [done|].
    intros id. rewrite Hi', Hi. set_unfold. naive_solver. }
  destruct (Hall pages [] (NoDup_nil_2)) as [Hn Hi]. split; [done|]. intros id. rewrite Hi. set_solver.
Qed.

(** Every job of the pages, in order. *)
Definition jobs_of (runID : Z) (pages : list (list github_job)) (jobs : list github_job) : Prop := jobs = with_run runID <$> mjoin pages.

Lemma jobs_pages runID pages : jobs_of runID pages (foldl (fun jobs out => jobs ++ (with_run runID <$> out)) [] pages).
Proof.
  unfold jobs_of. assert (Hall : ∀ acc, foldl (fun jobs out => jobs ++ (with_run runID <$> out)) acc pages = acc ++ (with_run runID <$> mjoin pages)).
  { induction pages as [|page pages IH]; intros acc; cbn [foldl mjoin list_join]; [by rewrite app_nil_r|].
    rewrite IH, <- app_assoc. by rewrite fmap_app. }
  apply Hall.
Qed.

(** C20. A listing is exact or says that it is not: the queued runs of a repository are
    exactly the positive identifiers of the pages 1, 2, ... up to the first short one,
    each once, and the jobs of a run all the jobs of its pages, in order; after ten
    full pages the listing carries [ErrPageCapReached], and when a page fails it is
    empty and carries an error. *)
Theorem listings_are_exact_or_say_so c repository base since runID :
  repositoryPath repository = Ok base → 0 < runID →
  listing (fun c page => get_json w c (on_page (queued_runs_path w base since) page) (wi_Runs w) []) 10 runs_of c
    (ListQueuedWorkflowRuns w c repository since) ∧
  listing (fun c page => get_json w c (on_page (base +:+ "/actions/runs/" +:+ pretty runID +:+ "/jobs?") page) (wi_Jobs w) []) 10
    (jobs_of runID) c (ListWorkflowJobs w c repository runID).
Proof.
  intros Hb Hid. unfold ListQueuedWorkflowRuns, ListWorkflowJobs. rewrite Hb. destruct (Z.leb_spec runID 0); [lia|]. split.
  - apply (read_pages_listing _ _ 10 _ (fun err => Wrapf ("list queued workflow runs for " +:+ repository +:+ ": ") (api_err err) ""));
      [apply add_runs_pages|done].
  - cbv zeta. set (what := "list workflow jobs for " +:+ _).
    apply (read_pages_listing _ _ 10 _ (fun err => Wrapf (what +:+ ": ") (api_err err) "")); [apply jobs_pages|done].
Qed.
End Wire.

(** ** A concrete network *)

Module Example_github.

(** The status and body for a URL. *)
Definition answers (url : string) : Z * string :=
  let path := TrimPrefix url "https://api.github.com" in
  if HasPrefix path "/users/me/repos?type=owner" then (200, "full")
  else if HasPrefix path "/users/me/repos?type=all" then (200, "short")
  else if HasPrefix path "/repos/acme/app/actions/" then (200, "short")
  else (404, "Not Found").

Definition wire : Wire :=
  {| wi_Token := Some (fun _ => Ok "token"); wi_NewRequest := fun _ => None;
     wi_Do := fun _ request => let '(code, data) := answers (aq_URL request) in
       Ok {| an_StatusCode := code; an_Remaining := "4999"; an_Reset := ""; an_Data := data |};
     wi_FormatTime := fun _ => ""; wi_Message := fun _ => "";
     wi_Repositories := fun data => Ok (if String.eqb data "full" then replicate 100 "me/one" else ["me/two"]);
     wi_UserRepositories := fun _ => Ok []; wi_InstallationRepositories := fun _ => Ok [];
     wi_Runs := fun _ => Ok [7; 0; 7]; wi_Jobs := fun _ => Ok [{| gj_ID := 9; gj_RunID := 0; gj_Status := "queued"; gj_Labels := [] |}];
     wi_Job := fun _ => Fail (Errorf "no job"); wi_Run := fun _ => Fail (Errorf "no run"); wi_Groups := fun _ => Ok [];
     wi_JIT := fun _ => Ok (0, ""); wi_Runners := fun _ => Ok [] |}.

Definition owner_scope (type : string) : GitHubScope := { zero_GitHubScope with gs_Type := type; gs_Owner := "me"; gs_Organization := "acme" }.

(** The pages after the first of a personal account are those of another listing. *)
Example personal_pages_change_the_type :
  (aq_URL <$> cl_sent (ListRepositories wire NewClient (owner_scope "owner")).2) =
  ["https://api.github.com/installation/repositories?per_page=100&page=1";
   "https://api.github.com/orgs/me/repos?type=all&per_page=100&page=1";
   "https://api.github.com/user/repos?affiliation=owner&visibility=all&per_page=100&page=1";
   "https://api.github.com/users/me/repos?type=owner&per_page=100&page=1";
   "https://api.github.com/users/me/repos?type=all&per_page=100&page=2"].
Proof. vm_compute. reflexivity. Qed.

(** A scope type with a space around it is accepted, and lists the owner instead of the
    organization. *)
Example padded_scope_lists_the_owner :
  Validate (owner_scope "organization ") = None ∧
  (aq_URL <$> cl_sent (ListRepositories wire NewClient (owner_scope "organization ")).2) =
  ["https://api.github.com/installation/repositories?per_page=100&page=1";
   "https://api.github.com/orgs/me/repos?type=all&per_page=100&page=1"].
Proof. vm_compute. by split. Qed.

Example rate_limit_is_kept : RateLimit (ListQueuedWorkflowRuns wire NewClient "acme/app" 0).2 = Some (4999, 0).
Proof. vm_compute. reflexivity. Qed.
End Example_github.

Import Example_github.

Lemma listings_are_exact_or_say_so_witness :
  (ListQueuedWorkflowRuns wire NewClient "acme/app" 0).1 = ([7], None) ∧
  listing (fun c page => get_json wire c (on_page (queued_runs_path wire "/repos/acme/app" 0) page) (wi_Runs wire) []) 10 runs_of NewClient
    (ListQueuedWorkflowRuns wire NewClient "acme/app" 0).
Proof.
  split; [vm_compute; reflexivity|].
  apply (listings_are_exact_or_say_so wire NewClient "acme/app" "/repos/acme/app" 0 1); [vm_compute; reflexivity|reflexivity].
Defined.
