(* ===== verification/Quality.v ===== *)
(** The quality tracker: src/internal/quality/tracker.go.

    Rolling outcomes per backend, their summary, and the score that ranks candidates.
    Scores are float64 values computed with the rounded operations of TierRefresh.v. *)

From Stdlib Require Import Floats.SpecFloat.
From S2P Require Import Prelude Errors Model TierPolicy Config TierRefresh Store Scheduler FairShare Registry Backends Budget.
From S2P Require Import Capacity Admission Warm JobRetry ServicePolicy Service ServiceFilters.
Open Scope Z_scope.
Open Scope go_scope.

Module Quality.

Definition defaultWindow : Duration := 15 * Minute.
Definition defaultMinSamples : Z := 3.
Definition defaultMaxEvents : Z := 512.

Record Event := { qe_At : Time; qe_Success : bool; qe_ReadyLatency : Duration; qe_CapacityError : bool }.

Record Snapshot := {
  qs_Pool : PoolName;
  qs_Backend : BackendName;
  qs_Samples : Z;
  qs_Successes : Z;
  qs_Failures : Z;
  qs_CapacityErrors : Z;
  qs_SuccessRate : spec_float;
  qs_P95Ready : Duration;
  qs_InsufficientData : bool;
}.

Record Weights := { wt_FreeSlots : spec_float; wt_SuccessRate : spec_float; wt_Latency : spec_float; wt_CapacityErrors : spec_float }.

Definition Normalize (w : Weights) : Weights :=
  let zero f := SFeqb f float_zero in
  if zero (wt_FreeSlots w) && zero (wt_SuccessRate w) && zero (wt_Latency w) && zero (wt_CapacityErrors w)
  then {| wt_FreeSlots := float_one; wt_SuccessRate := float_one; wt_Latency := float_one; wt_CapacityErrors := float_one |} else w.

Record Candidate := { cd_Backend : BackendName; cd_FreeSlots : Z }.

Record ScoreResult := {
  sr_Backend : BackendName;
  sr_Score : spec_float;
  sr_FreeSlots : Z;
  sr_SuccessRate : spec_float;
  sr_P95Ready : Duration;
  sr_CapacityErrors : Z;
  sr_Samples : Z;
  sr_Reason : string;
}.

Record Tracker := {
  tk_window : Duration;
  tk_minSamples : Z;
  tk_maxEvents : Z;
  tk_events : gmap PoolName (gmap BackendName (list Event));
}.

Definition NewTracker (window : Duration) (minSamples : Z) : Tracker :=
  {| tk_window := (if window <=? 0 then defaultWindow else window);
     tk_minSamples := (if minSamples <=? 0 then defaultMinSamples else minSamples); tk_maxEvents := defaultMaxEvents; tk_events := ∅ |}.

(** ** History *)

Definition pruneEvents (events : list Event) (now : Time) (window : Duration) (maxEvents : Z) : list Event :=
  let cutoff := TimeAdd now (- window) in
  let kept := List.filter (fun event => negb (Before (qe_At event) cutoff)) events in
  if (0 <? maxEvents) && (maxEvents <? Z.of_nat (length kept)) then drop (length kept - Z.to_nat maxEvents) kept else kept.

(** [t.events[pool][backend]]. *)
Definition events_of (t : Tracker) (pool : PoolName) (backend : BackendName) : list Event :=
  default [] (default ∅ (tk_events t !! pool) !! backend).

Definition set_events (t : Tracker) (pool : PoolName) (backend : BackendName) (events : list Event) : Tracker :=
  { t with tk_events := <[pool := <[backend := events]> (default ∅ (tk_events t !! pool))]> (tk_events t) }.

Definition record (t : Tracker) (pool : PoolName) (backend : BackendName) (event : Event) (now : Time) : Tracker :=
  set_events t pool backend (pruneEvents (events_of t pool backend ++ [event]) now (tk_window t) (tk_maxEvents t)).

Definition RecordSuccess (t : Tracker) (pool : PoolName) (backend : BackendName) (readyLatency : Duration) (now : Time) : Tracker :=
  let readyLatency := if readyLatency <? 0 then 0 else readyLatency in
  record t pool backend {| qe_At := now; qe_Success := true; qe_ReadyLatency := readyLatency; qe_CapacityError := false |} now.

Definition RecordFailure (t : Tracker) (pool : PoolName) (backend : BackendName) (capacityError : bool) (now : Time) : Tracker :=
  record t pool backend {| qe_At := now; qe_Success := false; qe_ReadyLatency := 0; qe_CapacityError := capacityError |} now.

(** ** Summaries *)

(** [int(math.Ceil(f))] for a finite [f]. *)
Definition ceil_of (f : spec_float) : Z :=
  match f with
  | S754_finite s m e =>
      let v := if s then - Z.pos m else Z.pos m in
      if 0 <=? e then v * 2 ^ e else - (- v / 2 ^ (- e))
  | _ => 0
  end.

(** 0.95. *)
Definition p95 : spec_float := fdiv (float_of 95) (float_of 100).

Definition percentileDuration (values : list Duration) (p : spec_float) : Duration :=
  let sorted := sort_stable Z.ltb values in
  match sorted with
  | [] => 0
  | first :: _ =>
      let n := Z.of_nat (length sorted) in
      if SFleb p float_zero then first
      else if SFleb float_one p then List.last sorted 0
      else
        let rank := ceil_of (fmul p (float_of n)) - 1 in
        let rank := if rank <? 0 then 0 else rank in
        let rank := if n <=? rank then n - 1 else rank in
        nth (Z.to_nat rank) sorted 0
  end.

Definition count (f : Event → bool) (events : list Event) : Z := Z.of_nat (length (List.filter f events)).

Definition summarize (pool : PoolName) (backend : BackendName) (events : list Event) (minSamples : Z) : Snapshot :=
  let samples := Z.of_nat (length events) in
  if (length events =? 0)%nat then
    {| qs_Pool := pool; qs_Backend := backend; qs_Samples := samples; qs_Successes := 0; qs_Failures := 0; qs_CapacityErrors := 0;
       qs_SuccessRate := float_one; qs_P95Ready := 0; qs_InsufficientData := true |}
  else
    let successes := count qe_Success events in
    {| qs_Pool := pool; qs_Backend := backend; qs_Samples := samples; qs_Successes := successes;
       qs_Failures := count (fun event => negb (qe_Success event)) events;
       qs_CapacityErrors := count (fun event => negb (qe_Success event) && qe_CapacityError event) events;
       qs_SuccessRate := fdiv (float_of successes) (float_of samples);
       qs_P95Ready := percentileDuration (qe_ReadyLatency <$> List.filter qe_Success events) p95;
       qs_InsufficientData := samples <? minSamples |}.

(** [Snapshot]: the pruned history is stored when the pool has one. *)
Definition Snapshot_of (t : Tracker) (pool : PoolName) (backend : BackendName) (now : Time) : Snapshot * Tracker :=
  let events := pruneEvents (events_of t pool backend) now (tk_window t) (tk_maxEvents t) in
  (summarize pool backend events (tk_minSamples t),
   match tk_events t !! pool with Some _ => set_events t pool backend events | None => t end).

Definition Snapshots `{GoRange} (t : Tracker) (pool : PoolName) (now : Time) : list Snapshot * Tracker :=
  foldl (fun '(out, t) '(backend, events) =>
    let events := pruneEvents events now (tk_window t) (tk_maxEvents t) in
    (out ++ [summarize pool backend events (tk_minSamples t)], set_events t pool backend events))
    ([], t) (range (default ∅ (tk_events t !! pool))).

(** ** Scores *)

Definition missing_snapshot (backend : BackendName) : Snapshot :=
  {| qs_Pool := ""; qs_Backend := backend; qs_Samples := 0; qs_Successes := 0; qs_Failures := 0; qs_CapacityErrors := 0;
     qs_SuccessRate := float_one; qs_P95Ready := 0; qs_InsufficientData := true |}.

(** A snapshot without a backend's name counts as missing, with its numbers. *)
Definition snapshot_for (snapshots : gmap BackendName Snapshot) (backend : BackendName) : Snapshot :=
  match snapshots !! backend with
  | None => missing_snapshot backend
  | Some snap =>
      if String.eqb (qs_Backend snap) ""
      then { snap with qs_Backend := backend; qs_SuccessRate := float_one; qs_InsufficientData := true } else snap
  end.

Definition score_candidate (maxFree : Z) (weights : Weights) (snapshots : gmap BackendName Snapshot) (candidate : Candidate) : ScoreResult :=
  let snap := snapshot_for snapshots (cd_Backend candidate) in
  let freeComponent := fdiv (float_of (cd_FreeSlots candidate)) (float_of maxFree) in
  let '(successComponent, latencyComponent, capacityComponent, reason) :=
    if qs_InsufficientData snap then (float_one, float_one, float_one, "insufficient-samples")
    else (qs_SuccessRate snap, fdiv float_one (fadd float_one (Seconds (qs_P95Ready snap))),
          fdiv float_one (fadd float_one (float_of (qs_CapacityErrors snap))), "highest-score") in
  let score :=
    fadd (fadd (fadd (fmul (wt_FreeSlots weights) freeComponent) (fmul (wt_SuccessRate weights) successComponent))
           (fmul (wt_Latency weights) latencyComponent)) (fmul (wt_CapacityErrors weights) capacityComponent) in
  {| sr_Backend := cd_Backend candidate; sr_Score := score; sr_FreeSlots := cd_FreeSlots candidate;
     sr_SuccessRate := qs_SuccessRate snap; sr_P95Ready := qs_P95Ready snap; sr_CapacityErrors := qs_CapacityErrors snap;
     sr_Samples := qs_Samples snap; sr_Reason := reason |}.

(** The order of the ranking: the higher score, then more free slots, then the name. *)
Definition ranks_before (a b : ScoreResult) : bool :=
  if SFeqb (sr_Score a) (sr_Score b) then
    if sr_FreeSlots a =? sr_FreeSlots b then string_ltb (sr_Backend a) (sr_Backend b) else sr_FreeSlots b <? sr_FreeSlots a
  else SFltb (sr_Score b) (sr_Score a).

Definition max_free (candidates : list Candidate) : Z :=
  let maxFree := foldl (fun maxFree candidate => if maxFree <? cd_FreeSlots candidate then cd_FreeSlots candidate else maxFree) 0 candidates in
  if maxFree <? 1 then 1 else maxFree.

Definition Score (candidates : list Candidate) (snapshots : gmap BackendName Snapshot) (weights : Weights) : list ScoreResult :=
  if (length candidates =? 0)%nat then []
  else
    let weights := Normalize weights in
    match sort_stable ranks_before (score_candidate (max_free candidates) weights snapshots <$> candidates) with
    | [only] => [{ only with sr_Reason := "single-candidate" }]
    | results => results
    end.

Definition SelectBest (candidates : list Candidate) (snapshots : gmap BackendName Snapshot) (weights : Weights) : option ScoreResult :=
  head (Score candidates snapshots weights).

(** ** What the service asks *)

(** The weights of the configuration. *)
Definition weights_of (w : QualityAwareWeights) : Weights :=
  {| wt_FreeSlots := qw_FreeSlots w; wt_SuccessRate := qw_SuccessRate w; wt_Latency := qw_Latency w; wt_CapacityErrors := qw_CapacityErrors w |}.

(** The candidates' snapshots. *)
Definition snapshots_for (t : Tracker) (pool : PoolName) (now : Time) (candidates : list (BackendName * Z)) : gmap BackendName Snapshot :=
  foldl (fun snapshots '(name, _) => <[name := (Snapshot_of t pool name now).1]> snapshots) ∅ candidates.

(** The ranking of [reserveQualityAware], before it reserves. *)
Definition ranked_backends (t : Tracker) (weights : QualityAwareWeights) (pool : PoolName) (candidates : list (BackendName * Z)) (now : Time) :
    list BackendName :=
  sr_Backend <$> Score ((fun '(name, free) => {| cd_Backend := name; cd_FreeSlots := free |}) <$> candidates)
                   (snapshots_for t pool now candidates) (weights_of weights).
End Quality.
