(* ===== verification/QualityBehaviour.v ===== *)
(** What the quality tracker computes: the history it keeps, its 95th percentile, and
    the candidate it ranks first; and that it ranks only candidates, which is what the
    service needs of it. *)

From Stdlib Require Import Floats.SpecFloat.
From stdpp Require Import sorting.
From S2P Require Import Prelude Errors Model TierPolicy Config TierRefresh Store Scheduler FairShare Registry Backends Budget.
From S2P Require Import Capacity Admission Warm JobRetry ServicePolicy Service ServiceFilters Quality.
Open Scope Z_scope.
Open Scope go_scope.
Import Quality.

(** ** The 95th percentile *)

(** 0.95 times a length of at most 512, rounded, has the ceiling of the exact product. *)
Lemma p95_rank n : (0 < n ≤ 512)%nat → ceil_of (fmul p95 (float_of (Z.of_nat n))) = (95 * Z.of_nat n + 99) / 100.
Proof.
  intros Hn. assert (Hall : forallb (fun k => ceil_of (fmul p95 (float_of (Z.of_nat k))) =? (95 * Z.of_nat k + 99) / 100) (seq 1 512) = true)
    by (vm_compute; reflexivity).
  rewrite forallb_forall in Hall. apply Z.eqb_eq, Hall, in_seq. lia.
Qed.

Definition at_most (v : Duration) (values : list Duration) : nat := length (List.filter (fun x => x <=? v) values).
Definition below (v : Duration) (values : list Duration) : nat := length (List.filter (fun x => x <? v) values).

Lemma filter_length_perm {A} (f : A → bool) l1 l2 : l1 ≡ₚ l2 → length (List.filter f l1) = length (List.filter f l2).
Proof. induction 1; cbn; repeat case_match; cbn; congruence. Qed.

Lemma filter_length_all {A} (f : A → bool) l : Forall (fun x => f x = true) l → length (List.filter f l) = length l.
Proof. induction 1 as [|x l Hx _ IH]; [done|]. cbn. rewrite Hx. cbn. congruence. Qed.

Lemma filter_length_none {A} (f : A → bool) l : Forall (fun x => f x = false) l → length (List.filter f l) = O.
Proof. induction 1 as [|x l Hx _ IH]; [done|]. cbn. by rewrite Hx. Qed.

(** Around an element of a sorted list. *)
Lemma sorted_counts before v after : StronglySorted (not_inverted Z.ltb) (before ++ v :: after) →
  (length before < at_most v (before ++ v :: after))%nat ∧ (below v (before ++ v :: after) ≤ length before)%nat.
Proof.
  intros Hs. unfold at_most, below. rewrite !List.filter_app, !length_app. apply StronglySorted_app in Hs as (Hb & Hs1 & Hs2).
  apply StronglySorted_inv in Hs2 as [_ Hafter]. split.
  - rewrite filter_length_all.
    + cbn. rewrite Z.leb_refl. cbn. lia.
    + apply Forall_forall. intros x Hx. specialize (Hb x v Hx ltac:(by left)). unfold not_inverted in Hb. lia.
  - rewrite (filter_length_none _ (v :: after)); [pose proof (List.filter_length_le (fun x => x <? v) before); lia|].
    constructor; [apply Z.ltb_irrefl|]. eapply Forall_impl; [exact Hafter|]. done.
Qed.

Lemma percentile_spec values : (0 < length values ≤ 512)%nat →
  let v := percentileDuration values p95 in
  v ∈ values ∧ (95 * length values ≤ 100 * at_most v values)%nat ∧ (100 * below v values < 95 * length values)%nat.
Proof.
  intros Hn. pose proof (sort_stable_perm Z.ltb values) as Hperm. unfold percentileDuration.
  assert (Hsorted : StronglySorted (not_inverted Z.ltb) (sort_stable Z.ltb values)) by (apply sort_stable_sorted; intros; lia).
  set (sorted := sort_stable Z.ltb values) in *. pose proof (Permutation_length Hperm) as Hlen.
  destruct sorted as [|x0 xs] eqn:Hx; [cbn in Hlen; lia|]. change (SFleb p95 float_zero) with false. change (SFleb float_one p95) with false.
  cbv iota. rewrite Hlen, p95_rank by done. rewrite <- Hx in *. clear Hx x0 xs.
  set (n := length values) in *. set (r := (95 * Z.of_nat n + 99) / 100 - 1).
  assert (Hr : 0 ≤ r < Z.of_nat n ∧ 95 * Z.of_nat n ≤ 100 * (r + 1) ∧ 100 * r < 95 * Z.of_nat n)
    by (unfold r; Z.to_euclidean_division_equations; lia).
  destruct (Z.ltb_spec r 0); [lia|]. destruct (Z.leb_spec (Z.of_nat n) r); [lia|].
  destruct (lookup_lt_is_Some_2 sorted (Z.to_nat r)) as [v Hv]; [lia|].
  rewrite (nth_lookup_Some _ _ _ _ Hv). pose proof (list_elem_of_split_length _ _ _ Hv) as (before & after & Hsplit & Hb).
  assert (Hc : (length before < at_most v values)%nat ∧ (below v values ≤ length before)%nat).
  { unfold at_most, below. rewrite <- (filter_length_perm _ _ _ Hperm), <- (filter_length_perm _ _ _ Hperm), Hsplit.
    apply sorted_counts. by rewrite <- Hsplit. }
  cbv zeta. split_and!; [|lia..]. rewrite <- Hperm. by eapply list_elem_of_lookup_2.
Qed.

(** The ready latency is the nearest-rank 95th percentile: the rounded product of a
    history's length is never off, so the latency of a summary was measured, at least
    95 percent of the successes were at most as slow, and fewer than 95 percent were
    faster; without a success it is 0. *)
Theorem p95_is_the_nearest_rank pool backend events minSamples :
  (length events ≤ 512)%nat →
  let latencies := qe_ReadyLatency <$> List.filter qe_Success events in
  let v := qs_P95Ready (summarize pool backend events minSamples) in
  (latencies = [] ∧ v = 0) ∨
  (v ∈ latencies ∧ (95 * length latencies ≤ 100 * at_most v latencies)%nat ∧ (100 * below v latencies < 95 * length latencies)%nat).
Proof.
  intros Hn. cbv zeta. unfold summarize. destruct events as [|e es] eqn:He; [by left|]. rewrite <- He in *.
  destruct (length events =? 0)%nat eqn:H0; [by rewrite He in H0|]. cbn [qs_P95Ready].
  set (latencies := qe_ReadyLatency <$> _).
  destruct latencies as [|x xs] eqn:Hl; [by left|right]. rewrite <- Hl. apply percentile_spec. rewrite Hl. split; [cbn; lia|].
  rewrite <- Hl. unfold latencies. rewrite length_fmap. pose proof (List.filter_length_le qe_Success events). lia.
Qed.

(** ** The ranking *)

(** float64 values other than NaN in lexicographic order. *)
Definition fkey (f : spec_float) : Z * Z * Z :=
  match f with
  | S754_infinity s => ((if s then -2 else 2), 0, 0)
  | S754_finite true m e => (-1, - e, - Z.pos m)
  | S754_finite false m e => (1, e, Z.pos m)
  | S754_zero _ | S754_nan => (0, 0, 0)
  end.

Definition key_ltb (a b : Z * Z * Z) : bool :=
  (a.1.1 <? b.1.1) || ((a.1.1 =? b.1.1) && ((a.1.2 <? b.1.2) || ((a.1.2 =? b.1.2) && (a.2 <? b.2)))).

Definition key_eqb (a b : Z * Z * Z) : bool := (a.1.1 =? b.1.1) && (a.1.2 =? b.1.2) && (a.2 =? b.2).

Lemma mantissa_compare m m' : Pos.compare_cont Eq m m' = (Z.pos m ?= Z.pos m').
Proof. reflexivity. Qed.

Ltac by_key :=
  rewrite ?mantissa_compare;
  repeat match goal with |- context [?x ?= ?y] => destruct (Z.compare_spec x y) end; cbn [CompOpp]; lia.

Lemma SFltb_key f g : IsNaN f = false → IsNaN g = false → SFltb f g = key_ltb (fkey f) (fkey g).
Proof.
  destruct f as [[]|[]| |[] m e], g as [[]|[]| |[] m' e']; try done; intros _ _; unfold SFltb, key_ltb; cbn [SFcompare fkey fst snd]; by_key.
Qed.

Lemma SFeqb_key f g : IsNaN f = false → IsNaN g = false → SFeqb f g = key_eqb (fkey f) (fkey g).
Proof.
  destruct f as [[]|[]| |[] m e], g as [[]|[]| |[] m' e']; try done; intros _ _; unfold SFeqb, key_eqb; cbn [SFcompare fkey fst snd]; by_key.
Qed.

(** [ranks_before] on scores that are numbers. *)
Definition ranks_before_key (a b : ScoreResult) : bool :=
  if key_eqb (fkey (sr_Score a)) (fkey (sr_Score b)) then
    if sr_FreeSlots a =? sr_FreeSlots b then string_ltb (sr_Backend a) (sr_Backend b) else sr_FreeSlots b <? sr_FreeSlots a
  else key_ltb (fkey (sr_Score b)) (fkey (sr_Score a)).

Lemma key_eqb_eq a b : key_eqb a b = true ↔ a = b.
Proof.
  destruct a as [[x1 x2] x3], b as [[y1 y2] y3]. unfold key_eqb. cbn [fst snd]. rewrite !andb_true_iff, !Z.eqb_eq. naive_solver.
Qed.

Lemma key_trichotomy a b : (key_ltb a b = true ∧ key_ltb b a = false ∧ a ≠ b) ∨ (key_ltb a b = false ∧ key_ltb b a = false ∧ a = b) ∨
  (key_ltb a b = false ∧ key_ltb b a = true ∧ a ≠ b).
Proof.
  rewrite <- key_eqb_eq. destruct a as [[x1 x2] x3], b as [[y1 y2] y3]. unfold key_ltb, key_eqb. cbn [fst snd]. lia.
Qed.

Lemma key_ltb_trans a b c : key_ltb a b = true → key_ltb b c = true → key_ltb a c = true.
Proof. destruct a as [[x1 x2] x3], b as [[y1 y2] y3], c as [[z1 z2] z3]. unfold key_ltb. cbn [fst snd]. lia. Qed.

(** [a] is not before [b]. *)
Definition behind (a b : ScoreResult) : Prop :=
  key_ltb (fkey (sr_Score a)) (fkey (sr_Score b)) = true ∨
  (fkey (sr_Score a) = fkey (sr_Score b) ∧
   (sr_FreeSlots a < sr_FreeSlots b ∨ (sr_FreeSlots a = sr_FreeSlots b ∧ string_ltb (sr_Backend a) (sr_Backend b) = false))).

Lemma ranks_before_key_false a b : ranks_before_key a b = false ↔ behind a b.
Proof.
  unfold ranks_before_key, behind. pose proof (key_trichotomy (fkey (sr_Score a)) (fkey (sr_Score b))) as Ht.
  destruct (key_eqb _ _) eqn:He.
  - apply key_eqb_eq in He. destruct Ht as [(_ & _ & ?)|[(Hl & _ & _)|(_ & _ & ?)]]; [done| |done]. rewrite Hl.
    destruct (Z.eqb_spec (sr_FreeSlots a) (sr_FreeSlots b)) as [Hf|Hf].
    + split; [by auto|]. intros [?|(_ & [?|[_ ?]])]; [done|lia|done].
    + rewrite Z.ltb_ge. split; [intros; right; split; [done|left; lia]|]. intros [?|(_ & [?|[? _]])]; [done|lia|done].
  - assert (fkey (sr_Score a) ≠ fkey (sr_Score b)) by (intros Heq%key_eqb_eq; congruence).
    destruct Ht as [(Hl & Hr & _)|[(_ & _ & ?)|(Hl & Hr & _)]]; [|done|]; rewrite Hl, Hr; [split; by auto|].
    split; [done|]. intros [?|[? _]]; done.
Qed.

Lemma ranks_before_key_asym a b : ranks_before_key a b = true → ranks_before_key b a = false.
Proof.
  rewrite <- not_false_iff_true, !ranks_before_key_false. unfold behind. intros Hab.
  destruct (key_trichotomy (fkey (sr_Score a)) (fkey (sr_Score b))) as [(? & ? & ?)|[(? & ? & Heq)|(? & ? & ?)]]; [naive_solver| |by left].
  right. split; [done|]. pose proof (string_ltb_asym (sr_Backend a) (sr_Backend b)).
  destruct (Z.lt_trichotomy (sr_FreeSlots a) (sr_FreeSlots b)) as [?|[?|?]]; [naive_solver| |by left].
  right. split; [done|]. destruct (string_ltb (sr_Backend a) (sr_Backend b)) eqn:?; [by auto|]. destruct Hab. by auto 10.
Qed.

Lemma ranks_before_key_neg_trans a b c :
  ranks_before_key b a = false → ranks_before_key c b = false → ranks_before_key c a = false.
Proof.
  rewrite !ranks_before_key_false. unfold behind. pose proof (string_ltb_neg_trans (sr_Backend a) (sr_Backend b) (sr_Backend c)) as Hs.
  intros [Hba|(Hba & Hba')] [Hcb|(Hcb & Hcb')].
  - left. by eapply key_ltb_trans.
  - left. by rewrite Hcb.
  - left. by rewrite <- Hba.
  - right. split; [congruence|]. destruct Hba' as [?|[? ?]], Hcb' as [?|[? ?]]; [left; lia..|right; split; [lia|by apply Hs]].
Qed.

Lemma ranks_before_numbers a b : IsNaN (sr_Score a) = false → IsNaN (sr_Score b) = false → ranks_before a b = ranks_before_key a b.
Proof. intros Ha Hb. unfold ranks_before, ranks_before_key. by rewrite SFeqb_key, SFltb_key. Qed.

(** What a score is made of, but for the reason of an only candidate. *)
Definition same_score (a b : ScoreResult) : Prop :=
  sr_Backend a = sr_Backend b ∧ sr_Score a = sr_Score b ∧ sr_FreeSlots a = sr_FreeSlots b.

Lemma Score_sorted candidates snapshots weights :
  Forall2 same_score (Score candidates snapshots weights)
    (sort_stable ranks_before (score_candidate (max_free candidates) (Normalize weights) snapshots <$> candidates)).
Proof.
  unfold Score. destruct candidates as [|c cs] eqn:Hc; [constructor|]. rewrite <- Hc.
  destruct (length candidates =? 0)%nat eqn:H0; [by rewrite Hc in H0|].
  destruct (sort_stable _ _) as [|x [|y l]]; [constructor|by repeat constructor|].
  apply Forall_Forall2_diag. by apply Forall_true.
Qed.

Lemma Score_backends candidates snapshots weights : sr_Backend <$> Score candidates snapshots weights ≡ₚ cd_Backend <$> candidates.
Proof.
  assert (He : sr_Backend <$> Score candidates snapshots weights =
    sr_Backend <$> sort_stable ranks_before (score_candidate (max_free candidates) (Normalize weights) snapshots <$> candidates)).
  { apply list_eq_Forall2, Forall2_fmap. eapply Forall2_impl; [apply Score_sorted|]. by intros a b []. }
  rewrite He, sort_stable_perm, <- list_fmap_compose. apply reflexive_eq, list_fmap_ext. intros i c _.
  unfold score_candidate, compose. by destruct (if qs_InsufficientData _ then _ else _) as [[[? ?] ?] ?].
Qed.

(** The best candidate has the highest score: a ranking holds every candidate exactly
    once, and when no score is a NaN its first has a score no other exceeds, among
    equal scores the most free slots, and among those the first name. *)
Theorem best_candidate_has_the_highest_score candidates snapshots weights best :
  SelectBest candidates snapshots weights = Some best →
  (∀ r, r ∈ Score candidates snapshots weights → IsNaN (sr_Score r) = false) →
  (sr_Backend <$> Score candidates snapshots weights) ≡ₚ (cd_Backend <$> candidates) ∧
  ∀ r, r ∈ Score candidates snapshots weights →
    SFltb (sr_Score r) (sr_Score best) = true ∨
    (SFeqb (sr_Score r) (sr_Score best) = true ∧
     (sr_FreeSlots r < sr_FreeSlots best ∨
      (sr_FreeSlots r = sr_FreeSlots best ∧ string_ltb (sr_Backend r) (sr_Backend best) = false))).
Proof.
  intros Hbest Hnum. split; [apply Score_backends|]. intros r Hr. unfold SelectBest in Hbest.
  pose proof (Score_sorted candidates snapshots weights) as Hs. set (results := score_candidate _ _ _ <$> candidates) in Hs.
  assert (Hres : ∀ x, x ∈ results → IsNaN (sr_Score x) = false).
  { intros x Hx. rewrite <- (sort_stable_perm ranks_before) in Hx. apply list_elem_of_lookup in Hx as [i Hi].
    destruct (Forall2_lookup_r _ _ _ _ _ Hs Hi) as (y & Hy & (_ & <- & _)). apply Hnum. by eapply list_elem_of_lookup_2. }
  assert (Hsort : StronglySorted (not_inverted ranks_before_key) (sort_stable ranks_before results)).
  { rewrite (sort_stable_ext ranks_before ranks_before_key); [|intros; by apply ranks_before_numbers; apply Hres].
    apply sort_stable_sorted; [apply ranks_before_key_asym|apply ranks_before_key_neg_trans]. }
  assert (Hkey : ∀ x, x ∈ Score candidates snapshots weights → x = best ∨ ranks_before_key x best = false).
  { destruct (Score candidates snapshots weights) as [|b l]; [done|]. injection Hbest as ->.
    apply Forall2_cons_inv_l in Hs as (b' & l' & (Hb1 & Hb2 & Hb3) & Hl & Heq2). rewrite Heq2 in Hsort. apply StronglySorted_inv in Hsort as [_ Hall].
    intros x [->|Hx]%elem_of_cons; [by left|right]. apply list_elem_of_lookup in Hx as [i Hi].
    destruct (Forall2_lookup_l _ _ _ _ _ Hl Hi) as (y & Hy & (Hx1 & Hx2 & Hx3)). apply list_elem_of_lookup_2 in Hy.
    eapply Forall_forall in Hall; [|exact Hy]. unfold not_inverted, ranks_before_key in *. by rewrite Hb1, Hb2, Hb3, Hx1, Hx2, Hx3. }
  assert (Hb : best ∈ Score candidates snapshots weights) by (by apply list_elem_of_lookup_2 with O; rewrite <- head_lookup).
  destruct (Hkey r Hr) as [->|Hk].
  - right. rewrite SFeqb_key by auto. split; [by apply key_eqb_eq|right]. split; [done|].
    destruct (string_ltb _ _) eqn:Hlt; [|done]. pose proof (string_ltb_asym _ _ Hlt). congruence.
  - apply ranks_before_key_false in Hk. unfold behind in Hk. by rewrite SFltb_key, SFeqb_key, key_eqb_eq by auto.
Qed.

(** ** The interface of the service *)

(** Only candidates are ranked: a tracker is the ranker the service needs. *)
Lemma ranked_sub t weights pool candidates now b : b ∈ ranked_backends t weights pool candidates now → b ∈ candidates.*1.
Proof.
  unfold ranked_backends. rewrite Score_backends, <- list_fmap_compose, !list_elem_of_fmap. intros ([name free] & -> & Hin).
  by exists (name, free).
Qed.

Definition tracker_ranker (t : Tracker) (weights : QualityAwareWeights) : QualityRanker :=
  {| rank_candidates := ranked_backends t weights; rank_candidates_sub := ranked_sub t weights |}.

(** ** Histories *)

(** The events before a time. *)
Definition old (cutoff : Time) (l : list Event) : nat := length (List.filter (fun event => Before (qe_At event) cutoff) l).

Definition in_order (l : list Event) : Prop := StronglySorted (fun a b => qe_At a ≤ qe_At b) l.

Lemma old_le cutoff l : (old cutoff l ≤ length l)%nat.
Proof. apply List.filter_length_le. Qed.

Lemma old_none cutoff l : Forall (fun event => cutoff ≤ qe_At event) l → old cutoff l = O.
Proof. intros Hl. apply filter_length_none. eapply Forall_impl; [exact Hl|]. intros e He. apply Z.ltb_ge. exact He. Qed.

Lemma filter_recent cutoff l : in_order l → List.filter (fun event => negb (Before (qe_At event) cutoff)) l = drop (old cutoff l) l.
Proof.
  induction 1 as [|e l Hl IH He]; [done|]. unfold old in *. cbn [List.filter].
  destruct (Before (qe_At e) cutoff) eqn:Hb; cbn [negb length drop]; [exact IH|].
  apply Z.ltb_ge in Hb. assert (Ho : old cutoff l = O).
  { apply old_none. eapply Forall_impl; [exact He|]. cbn. lia. }
  unfold old in Ho. rewrite Ho in *. by rewrite IH, drop_0.
Qed.

Lemma old_drop cutoff l k : in_order l → old cutoff (drop k l) = (old cutoff l - k)%nat.
Proof.
  intros Hl. revert k. induction Hl as [|e l Hl IH He]; intros k; [by rewrite drop_nil|]. destruct k as [|k]; [by rewrite drop_0, Nat.sub_0_r|].
  cbn [drop]. rewrite IH. unfold old. cbn [List.filter]. destruct (Before (qe_At e) cutoff) eqn:Hb; [cbn; lia|].
  apply Z.ltb_ge in Hb. change (length (List.filter (fun event => Before (qe_At event) cutoff) l)) with (old cutoff l).
  rewrite (old_none cutoff l); [lia|]. eapply Forall_impl; [exact He|]. cbn. lia.
Qed.

Lemma old_mono c1 c2 l new : c1 ≤ c2 → (old c1 l ≤ old c2 (l ++ new))%nat.
Proof.
  intros Hc. unfold old. rewrite List.filter_app, length_app.
  assert (length (List.filter (fun event => Before (qe_At event) c1) l) ≤ length (List.filter (fun event => Before (qe_At event) c2) l))%nat; [|lia].
  induction l as [|e l IH]; [done|]. cbn. unfold Before in *.
  destruct (Z.ltb_spec (qe_At e) c1), (Z.ltb_spec (qe_At e) c2); cbn; lia.
Qed.

Lemma prune_drop l now window maxEvents : in_order l → 0 < maxEvents →
  pruneEvents l now window maxEvents = drop (Nat.max (old (TimeAdd now (- window)) l) (length l - Z.to_nat maxEvents)) l.
Proof.
  intros Hl Hm. unfold pruneEvents. cbv zeta. rewrite filter_recent by done. set (o := old _ l).
  pose proof (old_le (TimeAdd now (- window)) l) as Hole. fold o in Hole. rewrite length_drop.
  destruct (Z.ltb_spec 0 maxEvents); [|lia]. cbn [andb].
  destruct (Z.ltb_spec maxEvents (Z.of_nat (length l - o))).
  - rewrite drop_drop. f_equal. lia.
  - f_equal. lia.
Qed.

Lemma in_order_drop k l : in_order l → in_order (drop k l).
Proof.
  intros Hl. revert k. induction Hl as [|e l Hl IH He]; intros k; [rewrite drop_nil; constructor|].
  destruct k; [by constructor|]. apply IH.
Qed.

(** Pruning again, later, forgets that it was done before. *)
Lemma prune_again l new now1 now2 window maxEvents : in_order (l ++ new) → 0 < maxEvents → now1 ≤ now2 →
  pruneEvents (pruneEvents l now1 window maxEvents ++ new) now2 window maxEvents = pruneEvents (l ++ new) now2 window maxEvents.
Proof.
  intros Ho Hm Hn. assert (Hl : in_order l) by (by apply StronglySorted_app in Ho as (_ & ? & _)).
  rewrite (prune_drop l) by done. set (a := Nat.max _ _).
  assert (Ha : (a ≤ length l)%nat) by (unfold a; pose proof (old_le (TimeAdd now1 (- window)) l); lia).
  replace (drop a l ++ new) with (drop a (l ++ new)) by (by apply drop_app_le).
  rewrite !prune_drop by (try apply in_order_drop; done). rewrite drop_drop, old_drop, length_drop by done. f_equal.
  pose proof (old_mono (TimeAdd now1 (- window)) (TimeAdd now2 (- window)) l new ltac:(unfold TimeAdd; lia)).
  unfold a. rewrite length_app. lia.
Qed.

(** What can be done to a tracker. *)
Inductive tracker_op :=
  | DoRecordSuccess (pool : PoolName) (backend : BackendName) (readyLatency : Duration) (now : Time)
  | DoRecordFailure (pool : PoolName) (backend : BackendName) (capacityError : bool) (now : Time)
  | DoSnapshot (pool : PoolName) (backend : BackendName) (now : Time).

Definition op_time (op : tracker_op) : Time :=
  match op with DoRecordSuccess _ _ _ now | DoRecordFailure _ _ _ now | DoSnapshot _ _ now => now end.

Definition apply_op (t : Tracker) (op : tracker_op) : Tracker :=
  match op with
  | DoRecordSuccess pool backend readyLatency now => RecordSuccess t pool backend readyLatency now
  | DoRecordFailure pool backend capacityError now => RecordFailure t pool backend capacityError now
  | DoSnapshot pool backend now => (Snapshot_of t pool backend now).2
  end.

Section History.
Context (window : Duration) (minSamples : Z) (pool : PoolName) (backend : BackendName).

(** The event an operation adds to the backend's history. *)
Definition adds (op : tracker_op) : list Event :=
  match op with
  | DoRecordSuccess p b readyLatency now =>
      if String.eqb p pool && String.eqb b backend
      then [{| qe_At := now; qe_Success := true; qe_ReadyLatency := Z.max 0 readyLatency; qe_CapacityError := false |}] else []
  | DoRecordFailure p b capacityError now =>
      if String.eqb p pool && String.eqb b backend
      then [{| qe_At := now; qe_Success := false; qe_ReadyLatency := 0; qe_CapacityError := capacityError |}] else []
  | DoSnapshot _ _ _ => []
  end.

Definition all_events (ops : list tracker_op) : list Event := mjoin (adds <$> ops).

Definition run_ops (ops : list tracker_op) : Tracker := foldl apply_op (NewTracker window minSamples) ops.

Lemma run_ops_snoc ops op : run_ops (ops ++ [op]) = apply_op (run_ops ops) op.
Proof. unfold run_ops. by rewrite foldl_app. Qed.

Lemma all_events_snoc ops op : all_events (ops ++ [op]) = all_events ops ++ adds op.
Proof. unfold all_events. rewrite fmap_app, join_app. cbn. by rewrite app_nil_r. Qed.

Lemma run_ops_window ops : tk_window (run_ops ops) = tk_window (NewTracker window minSamples) ∧ tk_maxEvents (run_ops ops) = 512.
Proof.
  induction ops as [|op ops IH] using rev_ind; [done|]. rewrite run_ops_snoc. destruct op; [exact IH..|].
  cbn. by case_match.
Qed.

Lemma events_of_set t p b events : events_of (set_events t p b events) pool backend =
  if String.eqb p pool && String.eqb b backend then events else events_of t pool backend.
Proof.
  unfold events_of, set_events. cbn. destruct (String.eqb_spec p pool) as [->|Hp]; cbn [andb].
  - rewrite lookup_insert_eq. cbn. destruct (String.eqb_spec b backend) as [->|Hb]; [by rewrite lookup_insert_eq|by rewrite lookup_insert_ne].
  - by rewrite lookup_insert_ne.
Qed.

Lemma all_events_times ops : Forall (fun e => ∃ op, op ∈ ops ∧ qe_At e = op_time op) (all_events ops).
Proof.
  unfold all_events. apply Forall_join, Forall_fmap, Forall_forall. intros op Hop. cbn.
  destruct op; cbn; repeat case_match; repeat constructor; by eexists.
Qed.

Lemma all_events_in_order ops : StronglySorted Z.le (op_time <$> ops) → in_order (all_events ops).
Proof.
  induction ops as [|op ops IH] using rev_ind; [intros _; constructor|]. rewrite fmap_app, all_events_snoc.
  intros (Hle & Hs & _)%StronglySorted_app. apply StronglySorted_app. split_and!; [|by apply IH|].
  - intros e e' He He'. assert (Ht : qe_At e' = op_time op).
    { destruct op; cbn in He'; repeat case_match; try (by apply elem_of_nil in He'); by apply list_elem_of_singleton in He' as ->. }
    pose proof (all_events_times ops) as Hall. rewrite Forall_forall in Hall. destruct (Hall e He) as (o & Ho & ->). rewrite Ht.
    apply Hle; [by apply list_elem_of_fmap_2|by left].
  - destruct op; cbn; repeat case_match; repeat constructor.
Qed.
Local Notation kept_at now l := (pruneEvents l now (tk_window (NewTracker window minSamples)) 512).

(** What is stored is what the history was at some operation so far. *)
Lemma stored_history ops : StronglySorted Z.le (op_time <$> ops) →
  (events_of (run_ops ops) pool backend = [] ∧ all_events ops = []) ∨
  ∃ op, op ∈ ops ∧ events_of (run_ops ops) pool backend = kept_at (op_time op) (all_events ops).
Proof.
  induction ops as [|op ops IH] using rev_ind; intros Hs; [by left|].
  pose proof (all_events_in_order _ Hs) as Ho. rewrite all_events_snoc in Ho |- *. rewrite fmap_app in Hs. cbn in Hs.
  apply StronglySorted_app in Hs as (Hle & Hs & _). specialize (IH Hs). destruct (run_ops_window ops) as [Hw Hm].
  assert (Hstep : kept_at (op_time op) (events_of (run_ops ops) pool backend ++ adds op) = kept_at (op_time op) (all_events ops ++ adds op)).
  { destruct IH as [[-> ->]|(o & Hin & ->)]; [done|]. apply prune_again; [done|done|]. apply Hle; [by apply list_elem_of_fmap_2|by left]. }
  assert (Hsame : adds op = [] → events_of (run_ops (ops ++ [op])) pool backend = events_of (run_ops ops) pool backend →
    (events_of (run_ops (ops ++ [op])) pool backend = [] ∧ all_events ops ++ adds op = []) ∨
    ∃ o, o ∈ ops ++ [op] ∧ events_of (run_ops (ops ++ [op])) pool backend = kept_at (op_time o) (all_events ops ++ adds op)).
  { intros -> ->. rewrite app_nil_r. destruct IH as [?|(o & Hin & ?)]; [by left|right; exists o; set_solver]. }
  assert (Hnew : events_of (run_ops (ops ++ [op])) pool backend = kept_at (op_time op) (events_of (run_ops ops) pool backend ++ adds op) →
    ∃ o, o ∈ ops ++ [op] ∧ events_of (run_ops (ops ++ [op])) pool backend = kept_at (op_time o) (all_events ops ++ adds op)).
  { intros ->. exists op. split; [set_solver|exact Hstep]. }
  rewrite run_ops_snoc in *. destruct op as [p b latency now|p b capacityError now|p b now]; cbn [apply_op adds op_time] in *.
  - unfold RecordSuccess, record in *. rewrite events_of_set in *. destruct (String.eqb_spec p pool) as [->|], (String.eqb_spec b backend) as [->|];
      cbn [andb] in *; [right; apply Hnew|by apply Hsame..]. rewrite Hw, Hm. do 3 f_equal. f_equal. destruct (Z.ltb_spec latency 0); lia.
  - unfold RecordFailure, record in *. rewrite events_of_set in *. destruct (String.eqb_spec p pool) as [->|], (String.eqb_spec b backend) as [->|];
      cbn [andb] in *; [right; apply Hnew; by rewrite Hw, Hm|by apply Hsame..].
  - unfold Snapshot_of in *. cbn [snd] in *. destruct (tk_events (run_ops ops) !! p) as [m|]; [|by apply Hsame].
    rewrite events_of_set in *. destruct (String.eqb_spec p pool) as [->|], (String.eqb_spec b backend) as [->|];
      cbn [andb] in *; [right; apply Hnew; by rewrite Hw, Hm, app_nil_r|by apply Hsame..].
Qed.

(** A snapshot summarises the window: when times do not run backwards, it is the
    summary of exactly the last 512 recorded outcomes of the backend that are not
    older than the window, whatever was recorded and read in between. *)
Theorem snapshots_summarise_the_window ops now :
  StronglySorted Z.le (op_time <$> ops) → (∀ op, op ∈ ops → op_time op ≤ now) →
  (Snapshot_of (run_ops ops) pool backend now).1 =
  summarize pool backend (kept_at now (all_events ops)) (tk_minSamples (NewTracker window minSamples)).
Proof.
  intros Hs Hnow. pose proof (all_events_in_order _ Hs) as Ho. destruct (run_ops_window ops) as [Hw Hm].
  assert (Hmin : tk_minSamples (run_ops ops) = tk_minSamples (NewTracker window minSamples)).
  { clear. induction ops as [|op ops IH] using rev_ind; [done|]. rewrite run_ops_snoc. destruct op; [exact IH..|]. cbn. by case_match. }
  unfold Snapshot_of. cbn [fst]. rewrite Hw, Hm, Hmin. f_equal.
  destruct (stored_history ops Hs) as [[-> ->]|(op & Hin & ->)]; [done|].
  pose proof (prune_again (all_events ops) [] (op_time op) now (tk_window (NewTracker window minSamples)) 512) as Hp.
  rewrite !app_nil_r in Hp. apply Hp; [done|done|by apply Hnow].
Qed.
End History.

(** ** A concrete tracker *)

Module Example_quality.

Definition ops : list tracker_op :=
  [DoRecordSuccess "lite" "ec2" (10 * Second) 100; DoRecordFailure "lite" "ec2" true 200; DoSnapshot "lite" "ec2" 250;
   DoRecordSuccess "lite" "ec2" (30 * Second) 300].

Definition two_candidates : list Candidate := [{| cd_Backend := "ec2"; cd_FreeSlots := 1 |}; {| cd_Backend := "gce"; cd_FreeSlots := 4 |}].

Definition seen : gmap BackendName Snapshot := {[ "ec2" := (Snapshot_of (run_ops 1000 3 ops) "lite" "ec2" 400).1 ]}.

Definition even : Weights := {| wt_FreeSlots := float_zero; wt_SuccessRate := float_zero; wt_Latency := float_zero; wt_CapacityErrors := float_zero |}.
Definition not_a_number : QualityAwareWeights :=
  {| qw_FreeSlots := S754_nan; qw_SuccessRate := float_one; qw_Latency := float_one; qw_CapacityErrors := float_one |}.

(** A NaN weight is accepted, and then the order of the candidates decides. *)
Example nan_weight_ranks_by_order :
  validateQualityAware { (br_QualityAware zero_BrokerRuntimeConfig) with qa_Enabled := true; qa_Weights := not_a_number } = None ∧
  ranked_backends (NewTracker 0 0) not_a_number "lite" [("ec2", 1); ("gce", 4)] 0 = ["ec2"; "gce"] ∧
  ranked_backends (NewTracker 0 0) not_a_number "lite" [("gce", 4); ("ec2", 1)] 0 = ["gce"; "ec2"].
Proof. by vm_compute. Qed.
End Example_quality.

Import Example_quality.

Lemma p95_is_the_nearest_rank_witness :
  qs_P95Ready (summarize "lite" "ec2" (events_of (run_ops 1000 3 ops) "lite" "ec2") 3) = 30 * Second ∧
  (95 * 2 ≤ 100 * at_most (30 * Second) [(10 * Second)%Z; (30 * Second)%Z])%nat.
Proof.
  split; [vm_compute; reflexivity|].
  destruct (p95_is_the_nearest_rank "lite" "ec2" (events_of (run_ops 1000 3 ops) "lite" "ec2") 3) as [[He _]|(_ & H95 & _)].
  - vm_compute. lia.
  - vm_compute in He. discriminate He.
  - exact H95.
Defined.

Lemma best_candidate_has_the_highest_score_witness :
  ∃ best, SelectBest two_candidates seen even = Some best ∧ sr_Backend best = "gce" ∧
    (sr_Backend <$> Score two_candidates seen even) ≡ₚ ["ec2"; "gce"].
Proof.
  destruct (SelectBest two_candidates seen even) as [best|] eqn:Hb; [|vm_compute in Hb; discriminate Hb]. exists best.
  split; [reflexivity|]. split; [vm_compute in Hb; injection Hb as <-; reflexivity|].
  apply (best_candidate_has_the_highest_score two_candidates seen even best Hb).
  apply Forall_forall. vm_compute. repeat constructor.
Defined.

Lemma snapshots_summarise_the_window_witness :
  (Snapshot_of (run_ops 1000 3 ops) "lite" "ec2" 1150).1 =
  summarize "lite" "ec2" (pruneEvents (all_events "lite" "ec2" ops) 1150 1000 512) 3 ∧
  length (pruneEvents (all_events "lite" "ec2" ops) 1150 1000 512) = 2%nat.
Proof.
  split; [|vm_compute; reflexivity].
  apply (snapshots_summarise_the_window 1000 3 "lite" "ec2" ops 1150).
  - vm_compute. repeat constructor; discriminate.
  - apply Forall_forall. vm_compute. repeat constructor; discriminate.
Defined.
