(* ===== verification/Kubernetes.v ===== *)
(** The Kubernetes driver: src/internal/backend/kubernetes/backend.go and guard.go.

    What a driver does to the cluster and to GitHub is a list of calls with their
    outcomes.  The API server's answers, the JSON decoders and the text of times are
    parameters; the registrar is the interface [Registrar], which the GitHub client
    implements. *)

From stdpp Require Import pretty.
From Stdlib Require Import SpecFloat.
From S2P Require Import Prelude Errors Model Backends Config Allocate TierRefresh Reconcile GithubClient.
Open Scope Z_scope.
Open Scope go_scope.

(** Registers and removes runners with the broker's token. *)
Class Registrar (R : Type) := {
  reg_GenerateJITConfig : R → GitHubScope → string → string → list string → result GitHub.JITConfig * R;
  reg_DeleteRunner : R → GitHubScope → Z → option GitHub.client_error * R;
}.

Definition github_registrar (w : GitHub.Wire) : Registrar GitHub.Client :=
  {| reg_GenerateJITConfig := GitHub.GenerateJITConfig w; reg_DeleteRunner := GitHub.DeleteRunner w |}.

Module Kubernetes.

Definition envJITConfig : string := "ACTIONS_RUNNER_INPUT_JITCONFIG".
Definition metadataRunnerID : string := "github_runner_id".
Definition labelManagedBy : string := "app.kubernetes.io/managed-by".
Definition labelManagedByVal : string := "unified-ephemeral-runner-broker".
Definition labelBackend : string := "uecb.josh-archer.dev/backend".
Definition labelAllocation : string := "uecb.josh-archer.dev/allocation-id".
Definition labelPool : string := "uecb.josh-archer.dev/pool".
Definition annotationRepository : string := "uecb.josh-archer.dev/repository".
Definition annotationAllocationID : string := "uecb.josh-archer.dev/allocation-id".
Definition annotationRunnerID : string := "uecb.josh-archer.dev/github-runner-id".
Definition annotationWorkflowJob : string := "uecb.josh-archer.dev/workflow-job-id".

(** ** Names *)

Definition is_upper (c : ascii) : bool := let n := Z.of_nat (nat_of_ascii c) in (65 <=? n) && (n <=? 90).
Definition is_lower (c : ascii) : bool := let n := Z.of_nat (nat_of_ascii c) in (97 <=? n) && (n <=? 122).
Definition is_digit (c : ascii) : bool := let n := Z.of_nat (nat_of_ascii c) in (48 <=? n) && (n <=? 57).
Definition char_in (set : string) (c : ascii) : bool := existsb (Ascii.eqb c) (String.list_ascii_of_string set).

(** [ReplaceAllString(s, "-")] for the runs of characters that are not [valid];
    [inside] a run, its dash is written. *)
Fixpoint replace_runs (valid : ascii → bool) (inside : bool) (s : string) : string :=
  match s with
  | EmptyString => EmptyString
  | String c s =>
      if valid c then String c (replace_runs valid false s)
      else if inside then replace_runs valid true s
      else String "-"%char (replace_runs valid true s)
  end.

(** [strings.Trim(s, set)] *)
Fixpoint TrimLeft (set s : string) : string :=
  match s with
  | EmptyString => EmptyString
  | String c s' => if char_in set c then TrimLeft set s' else s
  end.

Fixpoint TrimRight (set s : string) : string :=
  match s with
  | EmptyString => EmptyString
  | String c s => match TrimRight set s with
                  | EmptyString => if char_in set c then EmptyString else String c EmptyString
                  | rest => String c rest
                  end
  end.

Definition Trim (s set : string) : string := TrimRight set (TrimLeft set s).

(** [s[:n]] when s is longer. *)
Definition truncate (n : nat) (s : string) : string := String.substring 0 n s.

Definition valid_name_char (c : ascii) : bool := is_lower c || is_digit c || Ascii.eqb c "-"%char.
Definition valid_label_char (c : ascii) : bool := is_upper c || is_lower c || is_digit c || char_in "._-" c.

Definition podName (allocationID : string) : string :=
  "uecb-runner-" +:+ truncate 50 (Trim (replace_runs valid_name_char false (ToLower allocationID)) "-").

Definition labelValue (value : string) : string := Trim (truncate 63 (replace_runs valid_label_char false value)) "-._".

Example names : podName "--Alloc_42//x" = "uecb-runner-alloc-42-x" ∧ labelValue ".team a/b." = "team-a-b".
Proof. by vm_compute. Qed.

Definition podsPath (namespace name : string) : string :=
  "/api/v1/namespaces/" +:+ GitHub.PathEscape namespace +:+ "/pods" +:+
  (if String.eqb name "" then "" else "/" +:+ GitHub.PathEscape name).

Definition nodePath (nodeName : string) : string := "/api/v1/nodes/" +:+ GitHub.PathEscape nodeName.

(** [strings.Contains] *)
Definition Contains (s substr : string) : bool := bool_decide (is_Some (String.index 0 substr s)).

(** The labels of a registration: trimmed, each once up to case. *)
Definition add_runner_label (labels : list string) (value : string) : list string :=
  let value := TrimSpace value in
  if String.eqb value "" || existsb (fun seen => EqualFold seen value) labels then labels else labels ++ [value].

Definition runnerLabels (base requested : list string) (runnerLabel : string) : list string :=
  foldl add_runner_label [] (base ++ requested ++ [runnerLabel]).

(** ** Values of type any *)

Abbreviation entries := (list (string * any)) (only parsing).

(** [m[key] = value] *)
Fixpoint put (key : string) (value : any) (m : entries) : entries :=
  match m with
  | [] => [(key, value)]
  | (k, v) :: m => if String.eqb k key then (key, value) :: m else (k, v) :: put key value m
  end.

Definition text_of (value : option any) : string := match value with Some (AnyString s) => s | _ => "" end.

Fixpoint all_ok {A} (l : list (result A)) : result (list A) :=
  match l with
  | [] => Ok []
  | Fail err :: _ => Fail err
  | Ok x :: l => let? xs := all_ok l in Ok (x :: xs)
  end.

(** The elements of a map in the order json.Marshal writes them, that of their keys. *)
Definition all_ok_sorted {A} (l : list (string * result A)) : result (list (string * A)) :=
  all_ok ((fun kv => let? v := kv.2 in Ok (kv.1, v)) <$> sort_stable (fun x y => string_ltb x.1 y.1) l).

Section Copy.
(** [time.Time.MarshalJSON], with its offset. *)
Context (TimeJSON : Time → Duration → result string).

(** json.Unmarshal after json.Marshal: numbers become float64, times strings; strings are UTF-8. *)
Fixpoint json_copy (value : any) : result any :=
  match value with
  | AnyNil | AnyBool _ | AnyString _ => Ok value
  | AnyInt z => Ok (AnyFloat (float_of z))
  | AnyFloat S754_nan => Fail (Errorf "json: unsupported value: NaN")
  | AnyFloat (S754_infinity negative) => Fail (Errorf ("json: unsupported value: " +:+ (if negative then "-Inf" else "+Inf")))
  | AnyFloat _ => Ok value
  | AnyTime t offset => let? text := TimeJSON t offset in Ok (AnyString text)
  | AnyList l => let? l := all_ok (List.map json_copy l) in Ok (AnyList l)
  | AnyMap m => let? m := all_ok_sorted (List.map (fun kv => (kv.1, json_copy kv.2)) m) in Ok (AnyMap m)
  | AnyKeyMap _ => Fail (Errorf "json: unsupported type: map[interface {}]interface {}")
  end.

Definition deepCopy (value : option (gmap string any)) : result (option (gmap string any)) :=
  match value with
  | None => Ok None
  | Some m => let? copied := all_ok_sorted ((fun kv => (kv.1, json_copy kv.2)) <$> map_to_list m) in Ok (Some (list_to_map copied))
  end.
End Copy.

(** The node a pod spec is pinned to. *)
Definition pinnedNodeName (spec : option (gmap string any)) : string :=
  match spec with
  | None => ""
  | Some spec =>
      let name := TrimSpace (text_of (spec !! "nodeName")) in
      if negb (String.eqb name "") then name
      else match spec !! "nodeSelector" with
           | Some (AnyMap selector) => TrimSpace (text_of (assoc String.eqb "kubernetes.io/hostname" selector))
           | _ => ""
           end
  end.

(** ** The node guard *)

(** A value that is absent, nil or a map. *)
Definition mapping_of (value : option any) (wrong : string) : result entries :=
  match value with
  | None | Some AnyNil => Ok []
  | Some (AnyMap m) => Ok m
  | Some _ => Fail (Errorf wrong)
  end.

Definition list_of (value : option any) (wrong : string) : result (list any) :=
  match value with
  | None | Some AnyNil => Ok []
  | Some (AnyList l) => Ok l
  | Some _ => Fail (Errorf wrong)
  end.

Definition guarded_mapping (value : option any) (key : string) : result entries :=
  mapping_of value ("guarded podSpec " +:+ key +:+ " must be a mapping").

Definition require_label (selector : result entries) (label : string * string) : result entries :=
  let? selector := selector in
  match assoc String.eqb label.1 selector with
  | Some current =>
      if differs current label.2 then Fail (Errorf ("podSpec.nodeSelector conflicts with guarded label " +:+ label.1))
      else Ok (put label.1 (AnyString label.2) selector)
  | None => Ok (put label.1 (AnyString label.2) selector)
  end.

Definition on_node (nodeName : string) : any :=
  AnyMap [("key", AnyString "metadata.name"); ("operator", AnyString "In"); ("values", AnyList [AnyString nodeName])].

Definition guard_term (nodeName : string) (raw : any) : result any :=
  match raw with
  | AnyMap term =>
      let? fields := list_of (assoc String.eqb "matchFields" term) "matchFields must be a list" in
      Ok (AnyMap (put "matchFields" (AnyList (fields ++ [on_node nodeName])) term))
  | _ => Fail (Errorf "nodeSelectorTerms must contain mappings")
  end.

Definition required_key : string := "requiredDuringSchedulingIgnoredDuringExecution".

Definition enforceNodeGuard `{GoRange} (spec : gmap string any) (guard : KubernetesNodeGuardConfig) : result (gmap string any) :=
  if negb (String.eqb (text_of (spec !! "nodeName")) "") then
    Fail (Errorf "guarded runner podSpec.nodeName bypasses scheduler admission")
  else
    let? selector := mapping_of (spec !! "nodeSelector") "podSpec.nodeSelector must be a mapping" in
    let? selector := foldl require_label (Ok selector) (range (default ∅ (ng_RequiredLabels guard))) in
    let spec := <["nodeSelector" := AnyMap selector]> spec in
    let? affinity := guarded_mapping (spec !! "affinity") "affinity" in
    let? nodeAffinity := guarded_mapping (assoc String.eqb "nodeAffinity" affinity) "nodeAffinity" in
    let? required := guarded_mapping (assoc String.eqb required_key nodeAffinity) required_key in
    let? terms := list_of (assoc String.eqb "nodeSelectorTerms" required) "nodeSelectorTerms must be a list" in
    let terms := match terms with [] => [AnyMap []] | _ => terms end in
    let? terms := all_ok (guard_term (ng_NodeName guard) <$> terms) in
    let required := put "nodeSelectorTerms" (AnyList terms) required in
    let nodeAffinity := put required_key (AnyMap required) nodeAffinity in
    Ok (<["affinity" := AnyMap (put "nodeAffinity" (AnyMap nodeAffinity) affinity)]> spec).

(** ** The cluster and its answers *)

(** The guarded node as [checkNodeGuard] decodes it. *)
Record Node := {
  nd_Kind : string;
  nd_Name : string;
  nd_Labels : gmap string string;
  nd_Unschedulable : bool;
  nd_TaintEffects : list string;
  nd_Conditions : list (string * string);
}.

(** An item of [podList]; [pi_Running] tells for each container whether its state is running. *)
Record PodItem := {
  pi_Name : string;
  pi_DeletionTimestamp : string;
  pi_CreationTimestamp : Time;
  pi_Labels : gmap string string;
  pi_Annotations : gmap string string;
  pi_NodeName : string;
  pi_Phase : string;
  pi_Running : list bool;
}.

(** What a driver is given.  [cu_API] is the API's own namespace; None is a nil API. *)
Record Cluster := {
  cu_API : option string;
  cu_Do : nat → string → string → option any → result (Z * string);
  cu_Node : string → result Node;
  cu_Conditions : string → result (list (string * string));
  (* None is a list without items *)
  cu_Pods : string → result (option (list PodItem));
  (* the message of an error's body, if it has one *)
  cu_Message : string → string;
  cu_TimeJSON : Time → Duration → result string;
}.

Inductive call :=
  | Asked (method path : string) (body : option any) (answer : result (Z * string))
  | Registered (scope : GitHubScope) (name : string) (labels : list string) (answer : result GitHub.JITConfig)
  | Unregistered (scope : GitHubScope) (runnerID : Z).

(** The world of a driver: its calls so far and the registrar; None is a nil registrar. *)
Record World (R : Type) := {
  wd_asked : nat;
  wd_calls : list call;
  wd_registrar : option R;
}.
Arguments wd_asked {R}.
Arguments wd_calls {R}.
Arguments wd_registrar {R}.

(** The pod that is sent. *)
Record Pod := {
  pd_Name : string;
  pd_Labels : gmap string string;
  pd_Annotations : gmap string string;
  pd_Spec : gmap string any;
}.

Definition any_of_labels (m : gmap string string) : any := AnyMap ((fun kv => (kv.1, AnyString kv.2)) <$> map_to_list m).

Definition pod_body (pod : Pod) : any :=
  AnyMap [("apiVersion", AnyString "v1"); ("kind", AnyString "Pod");
          ("metadata", AnyMap [("name", AnyString (pd_Name pod)); ("labels", any_of_labels (pd_Labels pod));
                               ("annotations", any_of_labels (pd_Annotations pod))]);
          ("spec", AnyMap (map_to_list (pd_Spec pod)))].

(** What [Capacity] gathers from the pools. *)
Record Targets := {
  tg_maxRunners : Z;
  tg_sharedMax : Z;
  tg_guard : option KubernetesNodeGuardConfig;
  tg_pinnedNode : string;
  tg_namespaces : gmap string unit;
}.

Section Driver.
Context `{GoRange} (cu : Cluster) {R : Type} `{!Registrar R} (name : BackendName) (cfg : BrokerConfig).
Implicit Types (w : World R) (allocation status : AllocationStatus) (pool : PoolConfig).

Definition Do w (method path : string) (body : option any) : result (Z * string) * World R :=
  let answer := cu_Do cu (wd_asked w) method path body in
  (answer, { w with wd_asked := Datatypes.S (wd_asked w); wd_calls := wd_calls w ++ [Asked method path body answer] }).

Definition GenerateJITConfig w (registrar : R) scope (group runner : string) (labels : list string) : result GitHub.JITConfig * World R :=
  let '(answer, registrar) := reg_GenerateJITConfig registrar scope group runner labels in
  (answer, { w with wd_calls := wd_calls w ++ [Registered scope runner labels answer]; wd_registrar := Some registrar }).

Definition DeleteRunner w (registrar : R) scope (runnerID : Z) : option GitHub.client_error * World R :=
  let '(err, registrar) := reg_DeleteRunner registrar scope runnerID in
  (err, { w with wd_calls := wd_calls w ++ [Unregistered scope runnerID]; wd_registrar := Some registrar }).

Definition kubeMessage (body : string) : string :=
  let message := cu_Message cu body in
  if negb (String.eqb message "") then message else truncate 512 (TrimSpace body).

Definition not_success (code : Z) : bool := (code <? 200) || (300 <=? code).

Definition no_api : error := Errorf ("backend " +:+ name +:+ " needs the broker to run in Kubernetes").

Definition exhausted (err : error) : error := ProviderError err true.

(** The pool of that name that has the backend. *)
Definition pool_of (poolName : PoolName) : option PoolConfig :=
  List.find (fun pool => String.eqb (pc_Name pool) poolName && bool_decide (is_Some (pc_Backends pool !! name))) (bk_Pools cfg).

Definition namespace (b : BackendConfig) : string :=
  let configured := match bc_Kubernetes b with Some k => TrimSpace (kb_Namespace k) | None => "" end in
  if negb (String.eqb configured "") then configured else default "" (cu_API cu).

(** ** Nodes *)

Definition is_ready (condition : string * string) : bool := String.eqb condition.1 "Ready" && String.eqb condition.2 "True".

Definition node_admits (node : Node) (guard : KubernetesNodeGuardConfig) : option error :=
  first_of [
    deny (negb (String.eqb (nd_Kind node) "Node") || negb (String.eqb (nd_Name node) (ng_NodeName guard)) || nd_Unschedulable node)
      "guarded node is unavailable";
    deny (negb (existsb is_ready (nd_Conditions node))) "guarded node is not Ready";
    for_each (fun label => deny (negb (bool_decide (nd_Labels node !! label.1 = Some label.2))) "guarded node is not admitted")
      (range (default ∅ (ng_RequiredLabels guard)));
    deny (existsb (fun effect => String.eqb effect "NoSchedule" || String.eqb effect "NoExecute") (nd_TaintEffects node))
      "guarded node has a scheduling taint"].

Definition checkNodeGuard w (guard : KubernetesNodeGuardConfig) : option error * World R :=
  match cu_API cu with
  | None => (Some (Errorf "node guard requires Kubernetes API"), w)
  | Some _ =>
      let '(answer, w) := Do w "GET" (nodePath (ng_NodeName guard)) None in
      (match answer with
       | Fail err => Some (Wrapf "read guarded node: " err "")
       | Ok (code, body) =>
           if negb (code =? 200) then Some (Errorf ("read guarded node: HTTP " +:+ pretty code))
           else match cu_Node cu body with
           | Fail err => Some (Wrapf "decode guarded node: " err "")
           | Ok node => node_admits node guard
           end
       end, w)
  end.

Definition lookup_ready w (nodeName : string) : bool * World R :=
  let '(answer, w) := Do w "GET" (nodePath nodeName) None in
  (match answer with
   | Fail _ => true
   | Ok (code, body) =>
       if code =? 404 then false
       else if negb (code =? 200) then true
       else match cu_Conditions cu body with
       | Fail _ => true
       | Ok conditions =>
           match List.find (fun condition => String.eqb condition.1 "Ready") conditions with
           | Some condition => String.eqb condition.2 "True"
           | None => false
           end
       end
   end, w).

(** A pass keeps its answers in a cache. *)
Definition ready (cache : gmap string bool) w (nodeName : string) : bool * gmap string bool * World R :=
  if String.eqb nodeName "" || bool_decide (cu_API cu = None) then (true, cache, w)
  else match cache !! nodeName with
  | Some v => (v, cache, w)
  | None => let '(v, w) := lookup_ready w nodeName in (v, <[nodeName := v]> cache, w)
  end.

(** ** The pods of the backend *)

Definition selector : string :=
  GitHub.QueryEscape (labelManagedBy +:+ "=" +:+ labelManagedByVal +:+ "," +:+ labelBackend +:+ "=" +:+ name).

Definition list_path (ns : string) : string := podsPath ns "" +:+ "?labelSelector=" +:+ selector.

Definition list_pods w (ns : string) : result (option (list PodItem)) * World R :=
  let '(answer, w) := Do w "GET" (list_path ns) None in
  (match answer with
   | Fail err => Fail err
   | Ok (code, body) =>
       if not_success code then
         Fail (Errorf ("list runner pods in " +:+ ns +:+ ": status " +:+ pretty code +:+ ": " +:+ kubeMessage body))
       else match cu_Pods cu body with
       | Fail err => Fail (Wrapf ("decode runner pods in " +:+ ns +:+ ": ") err "")
       | Ok items => Ok items
       end
   end, w).

(** The items of a list, with the cache. *)
Fixpoint each_pod {A} (visit : A → gmap string bool → World R → PodItem → A * gmap string bool * World R)
    (acc : A) (cache : gmap string bool) w (items : list PodItem) : A * gmap string bool * World R :=
  match items with
  | [] => (acc, cache, w)
  | item :: items => let '(acc, cache, w) := visit acc cache w item in each_pod visit acc cache w items
  end.

(** The namespaces in turn; the first error ends the pass. *)
Fixpoint each_namespace {A} (missing : option (list PodItem) → option error)
    (visit : string → A → gmap string bool → World R → PodItem → A * gmap string bool * World R)
    (acc : A) (cache : gmap string bool) w (namespaces : list string) : result A * World R :=
  match namespaces with
  | [] => (Ok acc, w)
  | ns :: namespaces =>
      match list_pods w ns with
      | (Fail err, w) => (Fail err, w)
      | (Ok items, w) =>
          match missing items with
          | Some err => (Fail err, w)
          | None =>
              let '(acc, cache, w) := each_pod (visit ns) acc cache w (default [] items) in
              each_namespace missing visit acc cache w namespaces
          end
      end
  end.

Definition items_optional (items : option (list PodItem)) : option error := None.

Definition enabled_namespace (namespaces : gmap string unit) pool : gmap string unit :=
  match pc_Backends pool !! name with
  | Some b => if bc_Enabled b then <[namespace b := tt]> namespaces else namespaces
  | None => namespaces
  end.

Definition enabled_namespaces : gmap string unit := foldl enabled_namespace ∅ (bk_Pools cfg).

Definition one_of_phases (item : PodItem) : bool := String.eqb (pi_Phase item) "Succeeded" || String.eqb (pi_Phase item) "Failed".

(** The allocation id a pod records, when its name agrees with it. *)
Definition verified_id (item : PodItem) : option string :=
  let id := TrimSpace (pi_Annotations item).[annotationAllocationID] in
  let id := if String.eqb id "" then TrimSpace (pi_Labels item).[labelAllocation] else id in
  if String.eqb id "" || negb (String.eqb (podName id) (pi_Name item)) then None else Some id.

Definition with_runner_id (item : PodItem) (metadata : gmap string string) : gmap string string :=
  let v := (pi_Annotations item).[annotationRunnerID] in
  if String.eqb v "" then metadata else <[metadataRunnerID := v]> metadata.

Definition live_runner (ns : string) (item : PodItem) (allocationID : string) : LiveRunner :=
  {| lr_AllocationID := allocationID;
     lr_Pool := (pi_Labels item).[labelPool];
     lr_Repository := (pi_Annotations item).[annotationRepository];
     lr_WorkflowJobID := match GitHub.Atoi (pi_Annotations item).[annotationWorkflowJob] with
                         | Some v => if 0 <? v then v else 0
                         | None => 0
                         end;
     lr_CreatedAt := pi_CreationTimestamp item;
     lr_Metadata := with_runner_id item
       {[ "provisioner" := "kubernetes-pod"; "lifecycle" := "ephemeral"; "namespace" := ns; "pod_name" := pi_Name item;
          "runner_label" := DefaultRunnerLabel name allocationID ]};
     lr_RunnerRunning := existsb id (pi_Running item) |}.

Definition visit_live (ns : string) (acc : list LiveRunner) (cache : gmap string bool) w (item : PodItem) :
    list LiveRunner * gmap string bool * World R :=
  if one_of_phases item || negb (String.eqb (pi_DeletionTimestamp item) "") then (acc, cache, w)
  else
    let '(is_up, cache, w) := ready cache w (pi_NodeName item) in
    (if negb is_up then acc
     else match verified_id item with
          | None => acc
          | Some allocationID => acc ++ [live_runner ns item allocationID]
          end, cache, w).

Definition LiveRunners w : result (list LiveRunner) * World R :=
  match cu_API cu with
  | None => (Fail no_api, w)
  | Some _ => each_namespace items_optional visit_live [] ∅ w (range_keys enabled_namespaces)
  end.

Definition finished_runner (ns : string) (item : PodItem) (allocationID : string) : FinishedRunner :=
  {| fr_AllocationID := allocationID;
     fr_Pool := (pi_Labels item).[labelPool];
     fr_Repository := (pi_Annotations item).[annotationRepository];
     fr_Failed := String.eqb (pi_Phase item) "Failed";
     fr_Metadata := with_runner_id item {[ "namespace" := ns; "pod_name" := pi_Name item ]} |}.

Definition visit_finished (ns : string) (acc : list FinishedRunner) (cache : gmap string bool) w (item : PodItem) :
    list FinishedRunner * gmap string bool * World R :=
  (if negb (String.eqb (pi_DeletionTimestamp item) "") || negb (one_of_phases item) then acc
   else match verified_id item with
        | None => acc
        | Some allocationID => acc ++ [finished_runner ns item allocationID]
        end, cache, w).

Definition FinishedRunners w : result (list FinishedRunner) * World R :=
  match cu_API cu with
  | None => (Fail no_api, w)
  | Some _ => each_namespace items_optional visit_finished [] ∅ w (range_keys enabled_namespaces)
  end.

(** ** Capacity *)

Definition gather (t : Targets) pool : Targets :=
  match pc_Backends pool !! name with
  | None => t
  | Some b =>
      if negb (bc_Enabled b) then t
      else
        let shared := bc_CrossPoolMaxRunners b in
        {| tg_maxRunners := wrap64 (tg_maxRunners t + bc_MaxRunners b);
           tg_sharedMax := if (0 <? shared) && ((tg_sharedMax t =? 0) || (shared <? tg_sharedMax t)) then shared else tg_sharedMax t;
           tg_guard := match bc_Kubernetes b with
                       | Some k => match kb_NodeGuard k with Some guard => Some guard | None => tg_guard t end
                       | None => tg_guard t
                       end;
           tg_pinnedNode := match bc_Kubernetes b with
                            | Some k => if String.eqb (tg_pinnedNode t) "" then pinnedNodeName (kb_PodSpec k) else tg_pinnedNode t
                            | None => tg_pinnedNode t
                            end;
           tg_namespaces := <[namespace b := tt]> (tg_namespaces t) |}
  end.

Definition targets : Targets :=
  let t := foldl gather {| tg_maxRunners := 0; tg_sharedMax := 0; tg_guard := None; tg_pinnedNode := ""; tg_namespaces := ∅ |}
             (bk_Pools cfg) in
  if (0 <? tg_sharedMax t) && (tg_sharedMax t <? tg_maxRunners t) then { t with tg_maxRunners := tg_sharedMax t } else t.

Definition visit_counted (ns : string) (acc : CapacityStatus) (cache : gmap string bool) w (item : PodItem) :
    CapacityStatus * gmap string bool * World R :=
  if negb (String.eqb (pi_DeletionTimestamp item) "") then (acc, cache, w)
  else
    let '(is_up, cache, w) := ready cache w (pi_NodeName item) in
    (if negb is_up then acc
     else if String.eqb (pi_Phase item) "Running" then { acc with cs_ActiveRunners := wrap64 (cs_ActiveRunners acc + 1) }
     else if one_of_phases item then acc
     else { acc with cs_PendingRunners := wrap64 (cs_PendingRunners acc + 1) }, cache, w).

Definition items_required (items : option (list PodItem)) : option error :=
  match items with None => Some (Errorf "runner inventory did not contain items") | Some _ => None end.

(** A known node that is down: a full snapshot. *)
Definition node_down (maxRunners : Z) (err : error) : CapacityStatus :=
  { zero_CapacityStatus with cs_MaxRunners := maxRunners; cs_ActiveRunners := maxRunners; cs_NodeUnavailable := Error err }.

(** [Capacity] before its deferred function. *)
Definition capacity_body (t : Targets) w : result CapacityStatus * World R :=
  if tg_maxRunners t <=? 0 then (Fail (Errorf ("backend " +:+ name +:+ " has no configured maxRunners")), w)
  else match cu_API cu with
  | None => (Fail no_api, w)
  | Some _ =>
      let '(down, w) := match tg_guard t with
                        | Some guard => checkNodeGuard w guard
                        | None => if String.eqb (tg_pinnedNode t) "" then (None, w)
                                  else checkNodeGuard w {| ng_NodeName := tg_pinnedNode t; ng_RequiredLabels := None |}
                        end in
      match down with
      | Some err => (Ok (node_down (tg_maxRunners t) err), w)
      | None =>
          each_namespace (match tg_guard t with Some _ => items_required | None => items_optional end) visit_counted
            { zero_CapacityStatus with cs_MaxRunners := tg_maxRunners t } ∅ w (range_keys (tg_namespaces t))
      end
  end.

Definition Capacity w : result CapacityStatus * World R :=
  let t := targets in
  let '(answer, w) := capacity_body t w in
  (match tg_guard t, answer with
   | Some _, Fail _ => Ok { zero_CapacityStatus with cs_MaxRunners := tg_maxRunners t; cs_ActiveRunners := tg_maxRunners t }
   | _, _ => answer
   end, w).

(** ** The runner pod *)

Definition is_container (containerName : string) (raw : any) : bool :=
  match raw with
  | AnyMap container => match assoc String.eqb "name" container with Some n => negb (differs n containerName) | None => false end
  | _ => false
  end.

Definition is_jit_entry (raw : any) : bool := is_container envJITConfig raw.

Definition runner_container (kcfg : KubernetesBackendConfig) (jitConfig : string) (container : list (string * any)) : list (string * any) :=
  let container :=
    if String.eqb (TrimSpace (text_of (assoc String.eqb "image" container))) "" then
      let image := TrimSpace (kb_Image kcfg) in
      put "image" (AnyString (if String.eqb image "" then "ghcr.io/actions/actions-runner:latest" else image)) container
    else container in
  let container :=
    match assoc String.eqb "command" container with
    | Some _ => container
    | None => put "command" (AnyList [AnyString "/home/runner/run.sh"]) container
    end in
  let env := match assoc String.eqb "env" container with Some (AnyList env) => env | _ => [] end in
  put "env" (AnyList (List.filter (fun raw => negb (is_jit_entry raw)) env ++
                      [AnyMap [("name", AnyString envJITConfig); ("value", AnyString jitConfig)]])) container.

(** The first container of that name, changed; without one, a new container. *)
Fixpoint with_runner (containerName : string) (change : list (string * any) → list (string * any)) (containers : list any) : list any :=
  match containers with
  | [] => [AnyMap (change [("name", AnyString containerName)])]
  | raw :: containers =>
      match raw with
      | AnyMap container =>
          if is_container containerName raw then AnyMap (change container) :: containers
          else raw :: with_runner containerName change containers
      | _ => raw :: with_runner containerName change containers
      end
  end.

Definition defaultDeadlineGrace : Duration := 10 * Minute.

Definition zero_KubernetesBackendConfig : KubernetesBackendConfig :=
  {| kb_PodLabels := None; kb_PodAnnotations := None; kb_NodeGuard := None; kb_Namespace := ""; kb_Image := ""; kb_RunnerContainer := "";
     kb_PodSpec := None; kb_DeadlineGrace := 0 |}.

Definition buildPod pool (b : BackendConfig) allocation (jitConfig : string) (timeout : Duration) : result Pod :=
  let kcfg := default zero_KubernetesBackendConfig (bc_Kubernetes b) in
  match deepCopy (cu_TimeJSON cu) (kb_PodSpec kcfg) with
  | Fail err => Fail (Wrapf "copy podSpec: " err "")
  | Ok spec =>
      let spec := default ∅ spec in
      let? spec := match kb_NodeGuard kcfg with Some guard => enforceNodeGuard spec guard | None => Ok spec end in
      let spec := <["restartPolicy" := AnyString "Never"]> spec in
      let grace := if kb_DeadlineGrace kcfg <=? 0 then defaultDeadlineGrace else kb_DeadlineGrace kcfg in
      let spec := <["activeDeadlineSeconds" := AnyInt (Z.quot (wrap64 (timeout + grace)) Second)]> spec in
      let containerName := TrimSpace (kb_RunnerContainer kcfg) in
      let containerName := if String.eqb containerName "" then "runner" else containerName in
      let containers := match spec !! "containers" with Some (AnyList l) => l | _ => [] end in
      let spec := <["containers" := AnyList (with_runner containerName (runner_container kcfg jitConfig) containers)]> spec in
      let labels := <[labelManagedBy := labelManagedByVal]> (default ∅ (kb_PodLabels kcfg)) in
      let labels := <[labelPool := labelValue (pc_Name pool)]> (<[labelAllocation := labelValue (as_ID allocation)]>
                      (<[labelBackend := name]> labels)) in
      let annotations := default ∅ (kb_PodAnnotations kcfg) in
      let repo := TargetRepository allocation in
      Ok {| pd_Name := podName (as_ID allocation);
            pd_Labels := labels;
            pd_Annotations := if String.eqb repo "" then annotations else <[annotationRepository := repo]> annotations;
            pd_Spec := spec |}
  end.

(** The allocation's identity on the pod. *)
Definition identity_annotations allocation (runnerID : Z) (annotations : gmap string string) : gmap string string :=
  let annotations := <[annotationRunnerID := pretty runnerID]> (<[annotationAllocationID := as_ID allocation]> annotations) in
  match as_Request allocation with
  | Some request => if 0 <? ar_WorkflowJobID request then <[annotationWorkflowJob := pretty (ar_WorkflowJobID request)]> annotations
                    else annotations
  | None => annotations
  end.

Definition identified (pod : Pod) allocation (runnerID : Z) : Pod :=
  { pod with pd_Annotations := identity_annotations allocation runnerID (pd_Annotations pod) }.

(** ** Provision and Cleanup *)

(** Whether the target takes a runner at all. *)
Definition admits w (b : BackendConfig) : option error * World R :=
  match bc_Kubernetes b with
  | None => (None, w)
  | Some kcfg =>
      match kb_NodeGuard kcfg with
      | Some _ =>
          match Capacity w with
          | (Fail err, w) => (Some (exhausted err), w)
          | (Ok capacity, w) =>
              (if FreeSlots capacity =? 0
               then Some (exhausted (Errorf ("guarded target " +:+ name +:+ " is unavailable or has no free runner slots")))
               else None, w)
          end
      | None =>
          let node := pinnedNodeName (kb_PodSpec kcfg) in
          if String.eqb node "" then (None, w)
          else match checkNodeGuard w {| ng_NodeName := node; ng_RequiredLabels := None |} with
          | (Some err, w) => (Some (exhausted (Wrapf ("pinned node " +:+ node +:+ " for " +:+ name +:+ ": ") err "")), w)
          | (None, w) => (None, w)
          end
      end
  end.

(** The answer to the pod's creation. *)
Definition refused (ns : string) (answer : result (Z * string)) : option error :=
  match answer with
  | Fail err => Some err
  | Ok (code, body) =>
      if (code =? 403) && Contains (ToLower (kubeMessage body)) "exceeded quota" then
        Some (exhausted (Errorf ("create runner pod in " +:+ ns +:+ ": " +:+ kubeMessage body)))
      else if not_success code then
        Some (Errorf ("create runner pod in " +:+ ns +:+ ": status " +:+ pretty code +:+ ": " +:+ kubeMessage body))
      else None
  end.

(** From the registration on: None is a pod that was created. *)
Definition create_pod w pool (b : BackendConfig) allocation (jit : GitHub.JITConfig) (timeout : Duration) : option error * World R :=
  match buildPod pool b allocation (GitHub.jc_Encoded jit) timeout with
  | Fail err => (Some err, w)
  | Ok pod =>
      let '(answer, w) := Do w "POST" (podsPath (namespace b) "") (Some (pod_body (identified pod allocation (GitHub.jc_RunnerID jit)))) in
      (refused (namespace b) answer, w)
  end.

(** The deferred function. *)
Definition unregister_unless w (failed : bool) scope (runnerID : Z) : World R :=
  if failed then match wd_registrar w with Some registrar => (DeleteRunner w registrar scope runnerID).2 | None => w end else w.

Definition Provision w (request : AllocationRequest) allocation : result provisioned_runner * World R :=
  match cu_API cu with
  | None => (Fail (exhausted no_api), w)
  | Some _ =>
  match pool_of (as_Pool allocation) with
  | None => (Fail (Errorf ("backend " +:+ name +:+ " is not configured for pool " +:+ as_Pool allocation)), w)
  | Some pool =>
  let b := (pc_Backends pool).[name] in
  match admits w b with
  | (Some err, w) => (Fail err, w)
  | (None, w) =>
  match ForRepository (bk_Scope cfg) (TargetRepository allocation) with
  | Fail err => (Fail err, w)
  | Ok scope =>
  match TargetURL scope with
  | Fail err => (Fail err, w)
  | Ok targetURL =>
  match wd_registrar w with
  | None => (Fail (Errorf ("backend " +:+ name +:+ " needs a GitHub client to register runners")), w)
  | Some registrar =>
  let runnerLabel := DefaultRunnerLabel name (as_ID allocation) in
  let timeout := if ar_JobTimeout request <=? 0 then br_DefaultJobTimeout (bk_Broker cfg) else ar_JobTimeout request in
  let labels := runnerLabels (pc_Labels pool) (as_RequestedLabels allocation) runnerLabel in
  match GenerateJITConfig w registrar scope (RunnerGroup scope (pc_Name pool)) runnerLabel labels with
  | (Fail err, w) => (Fail err, w)
  | (Ok jit, w) =>
  let '(err, w) := create_pod w pool b allocation jit timeout in
  let w := unregister_unless w (bool_decide (is_Some err)) scope (GitHub.jc_RunnerID jit) in
  match err with
  | Some err => (Fail err, w)
  | None =>
      (Ok {| pv_RunnerLabel := runnerLabel;
             pv_Metadata := WithCapabilitiesMetadata b
               {[ "provisioner" := "kubernetes-pod"; "lifecycle" := "ephemeral"; "namespace" := namespace b;
                  "pod_name" := podName (as_ID allocation); "runner_label" := runnerLabel; "target_url" := targetURL;
                  "scope_type" := gs_Type scope; metadataRunnerID := pretty (GitHub.jc_RunnerID jit) ]} |}, w)
  end end end end end end end end.

(** Deletes the allocation's pod; gone already is no error. *)
Definition delete_pod w status : list error * World R :=
  match cu_API cu with
  | None => ([], w)
  | Some _ =>
      let ns := TrimSpace (as_Metadata status).["namespace"] in
      let ns := if String.eqb ns "" then match pool_of (as_Pool status) with
                                         | Some pool => namespace (pc_Backends pool).[name]
                                         | None => ns
                                         end else ns in
      if String.eqb ns "" then ([], w)
      else
        let pod := podName (as_ID status) in
        let '(answer, w) := Do w "DELETE" (podsPath ns pod) None in
        (match answer with
         | Fail err => [err]
         | Ok (code, body) =>
             if negb (code =? 404) && not_success code then
               [Errorf ("delete runner pod " +:+ ns +:+ "/" +:+ pod +:+ ": status " +:+ pretty code +:+ ": " +:+ kubeMessage body)]
             else []
         end, w)
  end.

(** Removes the registration; 422 is a runner that runs a job. *)
Definition delete_registration w status : list error * World R :=
  match GitHub.Atoi (as_Metadata status).[metadataRunnerID], wd_registrar w with
  | Some runnerID, Some registrar =>
      if runnerID <=? 0 then ([], w)
      else
        let '(err, w) := match ForRepository (bk_Scope cfg) (TargetRepository status) with
                         | Fail err => (Some (GitHub.otherError err), w)
                         | Ok scope => DeleteRunner w registrar scope runnerID
                         end in
        (match err with
         | Some err => if GitHub.has_status [422] err then []
                       else [Wrapf ("delete runner " +:+ pretty runnerID +:+ ": ") (GitHub.api_err err) ""]
         | None => []
         end, w)
  | _, _ => ([], w)
  end.

(** The errors that [Cleanup] joins. *)
Definition Cleanup w status : list error * World R :=
  let '(pod_errors, w) := delete_pod w status in
  let '(registration_errors, w) := delete_registration w status in
  (pod_errors ++ registration_errors, w).
End Driver.
End Kubernetes.
