(* ===== verification/KubernetesTheory.v ===== *)
(** Lemmas on the Kubernetes driver: names, values of type any, the node guard's
    constraints, the calls of a provisioning and the passes over the pods. *)

From stdpp Require Import pretty.
From Stdlib Require Import SpecFloat.
From S2P Require Import Prelude Errors Model Backends Config Warm Allocate WorkflowJob TierRefresh Reconcile GithubClient Kubernetes.
Open Scope Z_scope.
Open Scope go_scope.
Import Kubernetes.

(** ** Names *)

Fixpoint string_all (p : ascii → bool) (s : string) : bool :=
  match s with EmptyString => true | String c s => p c && string_all p s end.

Definition last_char (s : string) : option ascii := last (String.list_ascii_of_string s).

Lemma string_all_app p s t : string_all p (s +:+ t) = string_all p s && string_all p t.
Proof. induction s as [|c s IH]; [done|]. rewrite append_cons. cbn. by rewrite IH, andb_assoc. Qed.

Lemma replace_runs_all valid inside s :
  valid "-"%char = true → string_all valid (replace_runs valid inside s) = true.
Proof. intros Hd. revert inside. induction s as [|c s IH]; intros inside; [done|]. cbn. destruct (valid c) eqn:Hc, inside; cbn; by rewrite ?Hc, ?Hd, ?IH. Qed.

Lemma TrimLeft_all p set s : string_all p s = true → string_all p (TrimLeft set s) = true.
Proof. induction s as [|c s IH]; [done|]. cbn. intros [Hc Hs]%andb_prop. destruct (char_in set c); [auto|cbn; by rewrite Hc]. Qed.

Lemma TrimRight_all p set s : string_all p s = true → string_all p (TrimRight set s) = true.
Proof.
  induction s as [|c s IH]; [done|]. cbn. intros [Hc Hs]%andb_prop. specialize (IH Hs).
  destruct (TrimRight set s); [destruct (char_in set c); cbn; by rewrite ?Hc|]. cbn in *. by rewrite Hc.
Qed.

Lemma Trim_all p set s : string_all p s = true → string_all p (Trim s set) = true.
Proof. intros Hs. by apply TrimRight_all, TrimLeft_all. Qed.

Lemma truncate_all p n s : string_all p s = true → string_all p (truncate n s) = true.
Proof.
  unfold truncate. revert n. induction s as [|c s IH]; intros [|n]; [done..|]. cbn. intros [-> Hs]%andb_prop. by apply IH.
Qed.

Lemma truncate_length n s : (String.length (truncate n s) ≤ n)%nat.
Proof. unfold truncate. revert n. induction s as [|c s IH]; intros [|n]; cbn; [lia..|]. specialize (IH n). lia. Qed.

Lemma TrimLeft_length set s : (String.length (TrimLeft set s) ≤ String.length s)%nat.
Proof. induction s as [|c s IH]; [done|]. cbn. destruct (char_in set c); cbn; lia. Qed.

Lemma TrimRight_length set s : (String.length (TrimRight set s) ≤ String.length s)%nat.
Proof.
  induction s as [|c s IH]; [done|]. cbn. destruct (TrimRight set s); [destruct (char_in set c); cbn; lia|]. cbn in *. lia.
Qed.

Lemma TrimRight_last set s c : last_char (TrimRight set s) = Some c → char_in set c = false.
Proof.
  revert c. induction s as [|d s IH]; [done|]. cbn. intros c. destruct (TrimRight set s) as [|e rest].
  - destruct (char_in set d) eqn:Hd; [done|]. intros [= <-]. done.
  - intros Hl. apply IH. unfold last_char in *. cbn in *. by destruct (String.list_ascii_of_string rest).
Qed.

Lemma TrimRight_head set s : ∀ c, String.get 0 (TrimRight set s) = Some c → String.get 0 s = Some c.
Proof.
  destruct s as [|d s]; [done|]. cbn. intros c. destruct (TrimRight set s); [destruct (char_in set d)|]; cbn; congruence.
Qed.

Lemma TrimLeft_head set s c : String.get 0 (TrimLeft set s) = Some c → char_in set c = false.
Proof. induction s as [|d s IH]; [done|]. cbn. destruct (char_in set d) eqn:Hd; [done|]. intros [= <-]. done. Qed.

(** A label value of Kubernetes: at most 63 characters of its alphabet that begin and end with a letter or digit. *)
Record label_value (s : string) : Prop := {
  lv_length : (String.length s ≤ 63)%nat;
  lv_chars : string_all valid_label_char s = true;
  lv_first : ∀ c, String.get 0 s = Some c → char_in "-._" c = false;
  lv_last : ∀ c, last_char s = Some c → char_in "-._" c = false;
}.

Lemma labelValue_is_one s : label_value (labelValue s).
Proof.
  unfold labelValue. split.
  - etrans; [apply TrimRight_length|]. etrans; [apply TrimLeft_length|]. apply truncate_length.
  - by apply Trim_all, truncate_all, replace_runs_all.
  - intros c Hc. eapply TrimLeft_head, TrimRight_head, Hc.
  - intros c Hc. eapply TrimRight_last, Hc.
Qed.

Lemma podName_chars allocationID :
  string_all valid_name_char (podName allocationID) = true ∧ (String.length (podName allocationID) ≤ 62)%nat.
Proof.
  unfold podName. split.
  - rewrite string_all_app. apply andb_true_intro. split; [by vm_compute|]. by apply truncate_all, Trim_all, replace_runs_all.
  - pose proof (truncate_length 50 (Trim (replace_runs valid_name_char false (ToLower allocationID)) "-")).
    change (12 + String.length (truncate 50 (Trim (replace_runs valid_name_char false (ToLower allocationID)) "-")) ≤ 62)%nat. lia.
Qed.

(** ** Maps of values *)

Lemma assoc_put key k value m : assoc String.eqb k (put key value m) = if String.eqb k key then Some value else assoc String.eqb k m.
Proof.
  induction m as [|[k' v] m IH]; cbn; [done|]. destruct (String.eqb_spec k' key) as [->|Hne]; cbn.
  - by destruct (String.eqb k key).
  - rewrite IH. destruct (String.eqb_spec k k') as [->|]; [|done]. by destruct (String.eqb_spec k' key).
Qed.

Lemma all_ok_Forall2 {A} (l : list (result A)) xs : all_ok l = Ok xs ↔ l = Ok <$> xs.
Proof.
  revert xs. induction l as [|[x|err] l IH]; intros xs; cbn.
  - split; [by intros [= <-]|]. by destruct xs.
  - destruct (all_ok l) as [ys|e].
    + split; [intros [= <-]; cbn; by rewrite (proj1 (IH ys) eq_refl)|]. destruct xs as [|x' xs]; [done|]. cbn. intros [= -> Hl].
      apply IH in Hl as [= ->]. done.
    + split; [done|]. destruct xs as [|x' xs]; [done|]. cbn. intros [= -> Hl]. by apply IH in Hl.
  - split; [done|]. by destruct xs.
Qed.

(** ** The guard's constraints *)

Lemma require_label_Ok selector label selector' : require_label (Ok selector) label = Ok selector' →
  selector' = put label.1 (AnyString label.2) selector ∧
  ∀ v, assoc String.eqb label.1 selector = Some v → v = AnyString label.2.
Proof.
  unfold require_label. destruct (assoc String.eqb label.1 selector) as [current|] eqn:Hc.
  - destruct (differs current label.2) eqn:Hd; [done|]. intros [= <-]. split; [done|]. intros v [= <-].
    destruct current; try done. cbn in Hd. by apply negb_false_iff, String.eqb_eq in Hd as ->.
  - intros [= <-]. done.
Qed.

Lemma require_labels_Fail err labels : foldl require_label (Fail err) labels = Fail err.
Proof. by induction labels. Qed.

Lemma require_labels_Ok labels : ∀ selector selector', foldl require_label (Ok selector) labels = Ok selector' →
  (∀ k v, assoc String.eqb k selector = Some v → assoc String.eqb k selector' = Some v) ∧
  (∀ label, label ∈ labels → assoc String.eqb label.1 selector' = Some (AnyString label.2)).
Proof.
  induction labels as [|label labels IH]; intros selector selector'; cbn [foldl].
  { intros [= <-]. split; [done|]. intros ? ?%elem_of_nil. done. }
  destruct (require_label (Ok selector) label) as [next|err] eqn:Hr; [|by rewrite require_labels_Fail].
  apply require_label_Ok in Hr as [-> Hsame]. intros [Hkeep Hset]%IH. split.
  - intros k v Hk. apply Hkeep. rewrite assoc_put. destruct (String.eqb_spec k label.1) as [->|]; [by rewrite (Hsame v Hk)|done].
  - intros l [->|Hl]%elem_of_cons; [|by apply Hset]. apply Hkeep. by rewrite assoc_put, String.eqb_refl.
Qed.

(** The terms that restrict the nodes of a pod. *)
Definition required_terms (spec : gmap string any) : option (list any) :=
  match spec !! "affinity" with
  | Some (AnyMap affinity) =>
      match assoc String.eqb "nodeAffinity" affinity with
      | Some (AnyMap nodeAffinity) =>
          match assoc String.eqb required_key nodeAffinity with
          | Some (AnyMap required) =>
              match assoc String.eqb "nodeSelectorTerms" required with Some (AnyList terms) => Some terms | _ => None end
          | _ => None
          end
      | _ => None
      end
  | _ => None
  end.

Definition match_fields (term : any) : list any :=
  match term with
  | AnyMap term => match assoc String.eqb "matchFields" term with Some (AnyList fields) => fields | _ => [] end
  | _ => []
  end.

(** A spec that the scheduler may only place on the guarded node. *)
Record pinned_by (guard : KubernetesNodeGuardConfig) (spec : gmap string any) : Prop := {
  pb_scheduled : text_of (spec !! "nodeName") = "";
  pb_selector : ∃ selector, spec !! "nodeSelector" = Some (AnyMap selector) ∧
    ∀ k v, default ∅ (ng_RequiredLabels guard) !! k = Some v → assoc String.eqb k selector = Some (AnyString v);
  pb_terms : ∃ terms, required_terms spec = Some terms ∧ terms ≠ [] ∧
    ∀ term, term ∈ terms → on_node (ng_NodeName guard) ∈ match_fields term;
}.

Lemma guard_term_Ok nodeName raw term : guard_term nodeName raw = Ok term → on_node nodeName ∈ match_fields term.
Proof.
  destruct raw as [| | | | | | |m|]; try done. cbn. destruct (list_of _ _) as [fields|]; [|done]. intros [= <-].
  cbn. rewrite assoc_put. cbn. apply elem_of_app. right. by left.
Qed.

Section Guard.
Context `{GoRange}.

Lemma enforceNodeGuard_Ok spec guard spec' : enforceNodeGuard spec guard = Ok spec' → pinned_by guard spec'.
Proof.
  unfold enforceNodeGuard. destruct (String.eqb_spec (text_of (spec !! "nodeName")) "") as [Hname|]; [cbn [negb]|done].
  destruct (mapping_of _ _) as [selector|]; [|done]. destruct (foldl require_label _ _) as [selector'|] eqn:Hsel; [|done].
  apply require_labels_Ok in Hsel as [_ Hset]. destruct (guarded_mapping _ "affinity") as [affinity|]; [|done].
  destruct (guarded_mapping _ "nodeAffinity") as [nodeAffinity|]; [|done].
  destruct (guarded_mapping _ required_key) as [required|]; [|done]. destruct (list_of _ _) as [terms|]; [|done].
  destruct (all_ok _) as [terms'|] eqn:Hterms; [|done]. intros [= <-]. apply all_ok_Forall2 in Hterms. split.
  - by rewrite !lookup_insert_ne by done.
  - exists selector'. split; [by rewrite lookup_insert_ne, lookup_insert_eq by done|].
    intros k v Hk%elem_of_range. exact (Hset (k, v) Hk).
  - exists terms'. unfold required_terms. rewrite lookup_insert_eq. do 3 rewrite assoc_put, String.eqb_refl. split; [done|]. split; [intros ->; by destruct terms|]. intros term Hin.
    apply (list_elem_of_fmap_2 Ok) in Hin. cbn in Hin. rewrite <- Hterms in Hin. apply list_elem_of_fmap_1 in Hin as (raw & Heq & _). by eapply guard_term_Ok.
Qed.
End Guard.

(** ** The calls of an operation *)

Definition is_look (c : call) : Prop := ∃ path answer, c = Asked "GET" path None answer.

(** From [w] to [w'] the driver only read. *)
Definition looked {R} (w w' : World R) : Prop :=
  wd_registrar w' = wd_registrar w ∧ ∃ looks, Forall is_look looks ∧ wd_calls w' = wd_calls w ++ looks.

#[export] Instance looked_preorder {R} : PreOrder (@looked R).
Proof.
  split.
  - intros w. split; [done|]. exists []. by rewrite app_nil_r.
  - intros w1 w2 w3 (H1 & l1 & Hl1 & Hc1) (H2 & l2 & Hl2 & Hc2). split; [congruence|]. exists (l1 ++ l2).
    split; [by apply Forall_app|]. by rewrite Hc2, Hc1, app_assoc.
Qed.

Section Calls.
Context `{GoRange} (cu : Cluster) {R : Type} `{!Registrar R} (name : BackendName) (cfg : BrokerConfig).
Implicit Types (w : World R).

Lemma Do_looked w path : looked w (Do cu w "GET" path None).2.
Proof. split; [done|]. eexists. split; [|done]. repeat constructor. by do 2 eexists. Qed.

Lemma checkNodeGuard_looked w guard : looked w (checkNodeGuard cu w guard).2.
Proof. unfold checkNodeGuard. destruct (cu_API cu); [apply Do_looked|done]. Qed.

Lemma ready_looked cache w nodeName : looked w (ready cu cache w nodeName).2.
Proof.
  unfold ready. destruct (_ || _); [done|]. destruct (cache !! nodeName); [done|].
  destruct (lookup_ready cu w nodeName) as [v w'] eqn:Hl. cbn. change w' with (v, w').2. rewrite <- Hl. apply Do_looked.
Qed.

Lemma list_pods_looked w ns : looked w (list_pods cu name w ns).2.
Proof. apply Do_looked. Qed.

Definition looking {A} (visit : A → gmap string bool → World R → PodItem → A * gmap string bool * World R) : Prop :=
  ∀ acc cache w item, looked w (visit acc cache w item).2.

Lemma each_pod_looked {A} (visit : A → gmap string bool → World R → PodItem → A * gmap string bool * World R) items :
  looking visit → ∀ acc cache w, looked w (each_pod visit acc cache w items).2.
Proof.
  intros Hv. induction items as [|item items IH]; intros acc cache w; cbn; [done|].
  destruct (visit acc cache w item) as [[acc' cache'] w'] eqn:Hi. etrans; [|apply IH].
  change w' with (acc', cache', w').2. rewrite <- Hi. apply Hv.
Qed.

Lemma each_namespace_looked {A} missing (visit : string → A → gmap string bool → World R → PodItem → A * gmap string bool * World R) nss :
  (∀ ns, looking (visit ns)) → ∀ acc cache w, looked w (each_namespace cu name missing visit acc cache w nss).2.
Proof.
  intros Hv. induction nss as [|ns nss IH]; intros acc cache w; cbn [each_namespace]; [done|].
  pose proof (list_pods_looked w ns) as Hl. destruct (list_pods cu name w ns) as [[items|err] w1]; [|done].
  destruct (missing items); [done|]. pose proof (each_pod_looked (visit ns) (default [] items) (Hv ns) acc cache w1) as He.
  destruct (each_pod (visit ns) acc cache w1 (default [] items)) as [[acc' cache'] w2]. etrans; [exact Hl|]. etrans; [exact He|]. apply IH.
Qed.

Lemma visit_live_looking ns : looking (visit_live cu name ns).
Proof.
  intros acc cache w item. unfold visit_live. destruct (_ || _); [done|]. pose proof (ready_looked cache w (pi_NodeName item)) as Hr.
  by destruct (ready cu cache w (pi_NodeName item)) as [[up cache'] w'].
Qed.

Lemma visit_counted_looking ns : looking (visit_counted cu ns).
Proof.
  intros acc cache w item. unfold visit_counted. destruct (negb _); [done|]. pose proof (ready_looked cache w (pi_NodeName item)) as Hr.
  by destruct (ready cu cache w (pi_NodeName item)) as [[up cache'] w'].
Qed.

Lemma capacity_body_looked t w : looked w (capacity_body cu name t w).2.
Proof.
  unfold capacity_body. destruct (_ <=? 0); [done|]. destruct (cu_API cu) as [api|]; [|done].
  set (p := match tg_guard t with Some guard => _ | None => _ end). assert (Hp : looked w p.2).
  { subst p. destruct (tg_guard t); [apply checkNodeGuard_looked|]. destruct (String.eqb _ _); [done|apply checkNodeGuard_looked]. }
  destruct p as [[err|] w1]; [done|]. etrans; [exact Hp|]. apply each_namespace_looked, visit_counted_looking.
Qed.

Lemma Capacity_looked w : looked w (Capacity cu name cfg w).2.
Proof.
  unfold Capacity. pose proof (capacity_body_looked (targets cu name cfg) w) as Hb.
  by destruct (capacity_body cu name (targets cu name cfg) w).
Qed.

Lemma admits_looked w b : looked w (admits cu name cfg w b).2.
Proof.
  unfold admits. destruct (bc_Kubernetes b) as [k|]; [|done]. destruct (kb_NodeGuard k).
  - pose proof (Capacity_looked w) as Hc. by destruct (Capacity cu name cfg w) as [[c|err] w'].
  - destruct (String.eqb _ _); [done|]. pose proof (checkNodeGuard_looked w {| ng_NodeName := pinnedNodeName (kb_PodSpec k); ng_RequiredLabels := None |}) as Hc.
    by destruct (checkNodeGuard _ _ _) as [[err|] w'].
Qed.

Lemma LiveRunners_looked w : looked w (LiveRunners cu name cfg w).2.
Proof. unfold LiveRunners. destruct (cu_API cu); [|done]. apply each_namespace_looked, visit_live_looking. Qed.
End Calls.

(** ** Numbers as text *)

Lemma digit_value_char x : digit_value (pretty_N_char (x mod 10)) = Some (Z.of_N (x mod 10)).
Proof.
  assert (x mod 10 < 10)%N as Hx by by apply N.mod_lt. destruct (x mod 10)%N as [|p]; [done|].
  do 4 (destruct p as [p|p|]; try done; try (exfalso; lia)).
Qed.

Lemma pretty_go_digits x : ∀ s, all_digits (pretty_N_go x s) = all_digits s.
Proof.
  induction (N.lt_wf_0 x) as [x _ IH]. intros s. destruct (decide (0 < x)%N) as [Hx|Hx].
  - rewrite pretty_N_go_step by done. rewrite IH by (apply N.div_lt; lia). unfold all_digits. cbn. by rewrite digit_value_char.
  - assert (x = 0%N) as -> by lia. done.
Qed.

Lemma pretty_go_value x : ∀ s, scan_digits (pretty_N_go x s) (Some 0) = scan_digits s (Some (Z.of_N x)).
Proof.
  induction (N.lt_wf_0 x) as [x _ IH]. intros s. destruct (decide (0 < x)%N) as [Hx|Hx].
  - rewrite pretty_N_go_step by done. rewrite IH by (apply N.div_lt; lia). cbn. rewrite digit_value_char. cbn.
    rewrite (N.div_mod x 10) at 3 by done. do 2 f_equal. lia.
  - assert (x = 0%N) as -> by lia. done.
Qed.

Lemma Atoi_pretty z : 0 < z → in_int64 z → GitHub.Atoi (pretty z) = Some z.
Proof.
  intros Hz Hin. destruct z as [|p|]; [lia| |lia]. change (pretty (Z.pos p)) with (pretty_N_go (N.pos p) "").
  pose proof (pretty_go_digits (N.pos p) "") as Hd. pose proof (pretty_go_value (N.pos p) "") as Hv.
  destruct (pretty_N_go (N.pos p) "") as [|c s] eqn:Hs; [done|]. cbn in Hv.
  assert (existsb (Ascii.eqb c) (String.list_ascii_of_string "+-") = false ∧ Ascii.eqb c (ascii_of_nat 45) = false ∧
          is_Some (digit_value c)) as (Hsign & Hminus & [d Hdig]).
  { unfold all_digits in Hd. cbn in Hd. destruct (digit_value c) eqn:Hc; [|done].
    destruct c as [[] [] [] [] [] [] [] []]; try done; split_and!; done. }
  unfold GitHub.Atoi. rewrite Hsign, Hd, Hminus. cbn. rewrite Hdig in *. cbn [default] in *. rewrite Hv. cbn [default from_option].
  unfold id. rewrite Z.mul_1_l. rewrite (proj2 (Z.leb_le _ _) (proj1 Hin)), (proj2 (Z.leb_le _ _) (proj2 Hin)). done.
Qed.

(** ** Passes over a cluster that answers the same every time *)

Section Pass.
Context `{GoRange} (cu : Cluster) {R : Type} `{!Registrar R} (name : BackendName) (cfg : BrokerConfig).
Implicit Types (w : World R).

(** Whether a pod bound to the node can run a job, without a cache. *)
Definition node_up (nodeName : string) : bool :=
  String.eqb nodeName "" ||
  match cu_Do cu 0 "GET" (nodePath nodeName) None with
  | Fail _ => true
  | Ok (code, body) =>
      if code =? 404 then false
      else if negb (code =? 200) then true
      else match cu_Conditions cu body with
      | Fail _ => true
      | Ok conditions =>
          match List.find (fun condition => String.eqb condition.1 "Ready") conditions with
          | Some condition => String.eqb condition.2 "True"
          | None => false
          end
      end
  end.

(** The pods of a namespace. *)
Definition pods_at (ns : string) : result (option (list PodItem)) :=
  match cu_Do cu 0 "GET" (list_path name ns) None with
  | Fail err => Fail err
  | Ok (code, body) =>
      if not_success code then
        Fail (Errorf ("list runner pods in " +:+ ns +:+ ": status " +:+ pretty code +:+ ": " +:+ kubeMessage cu body))
      else match cu_Pods cu body with
      | Fail err => Fail (Wrapf ("decode runner pods in " +:+ ns +:+ ": ") err "")
      | Ok items => Ok items
      end
  end.

(** The pods of namespaces, each with its namespace; the first error ends the list. *)
Fixpoint inventory (missing : option (list PodItem) → option error) (nss : list string) : result (list (string * PodItem)) :=
  match nss with
  | [] => Ok []
  | ns :: nss =>
      let? items := pods_at ns in
      match missing items with
      | Some err => Fail err
      | None => let? rest := inventory missing nss in Ok ((pair ns <$> default [] items) ++ rest)
      end
  end.

Definition stable : Prop := ∀ n method path body, cu_Do cu n method path body = cu_Do cu 0 method path body.

Definition cache_ok (cache : gmap string bool) : Prop := ∀ nodeName v, cache !! nodeName = Some v → v = node_up nodeName.

(** A visit that does [step]. *)
Definition performs {A} (visit : A → gmap string bool → World R → PodItem → A * gmap string bool * World R) (step : A → PodItem → A) : Prop :=
  ∀ acc cache w item, cache_ok cache → ∃ cache' w', visit acc cache w item = (step acc item, cache', w') ∧ cache_ok cache'.

Lemma ready_spec cache w nodeName : stable → is_Some (cu_API cu) → cache_ok cache →
  ∃ cache' w', ready cu cache w nodeName = (node_up nodeName, cache', w') ∧ cache_ok cache'.
Proof.
  intros Hs [api Hapi] Hc. unfold ready. rewrite Hapi. destruct (String.eqb_spec nodeName "") as [->|Hne]; cbn [orb].
  { by exists cache, w. }
  rewrite bool_decide_eq_false_2 by done. destruct (cache !! nodeName) as [v|] eqn:Hv.
  { exists cache, w. by rewrite (Hc _ _ Hv). }
  unfold lookup_ready, Do. cbn zeta. rewrite (Hs (wd_asked w)). apply String.eqb_neq in Hne.
  eexists _, _. unfold node_up. rewrite Hne. cbn [orb]. split; [done|]. intros nodeName' v'. destruct (decide (nodeName' = nodeName)) as [->|].
  - rewrite lookup_insert_eq. intros [= <-]. unfold node_up. by rewrite Hne.
  - rewrite lookup_insert_ne by done. apply Hc.
Qed.

Lemma each_pod_performs {A} visit (step : A → PodItem → A) items : performs visit step →
  ∀ acc cache w, cache_ok cache → ∃ cache' w', each_pod visit acc cache w items = (foldl step acc items, cache', w') ∧ cache_ok cache'.
Proof.
  intros Hp. induction items as [|item items IH]; intros acc cache w Hc; cbn; [by exists cache, w|].
  destruct (Hp acc cache w item Hc) as (cache' & w' & -> & Hc'). by apply IH.
Qed.

Lemma each_namespace_performs {A} missing (visit : string → A → gmap string bool → World R → PodItem → A * gmap string bool * World R)
    (step : string → A → PodItem → A) nss : stable → (∀ ns, performs (visit ns) (step ns)) → ∀ acc cache w, cache_ok cache →
  (each_namespace cu name missing visit acc cache w nss).1 =
  let? items := inventory missing nss in Ok (foldl (λ acc item, step item.1 acc item.2) acc items).
Proof.
  intros Hs Hp. induction nss as [|ns nss IH]; intros acc cache w Hc; cbn [each_namespace inventory]; [done|].
  unfold list_pods, Do. cbn zeta. rewrite (Hs (wd_asked w)). fold (pods_at ns). destruct (pods_at ns) as [items|err]; [|done].
  destruct (missing items) as [err|]; [done|].
  edestruct (each_pod_performs (visit ns) (step ns) (default [] items) (Hp ns) acc cache) as (cache' & w' & -> & Hc'); [done|].
  rewrite IH by done. destruct (inventory missing nss) as [rest|err]; [|done]. by rewrite foldl_app, foldl_fmap.
Qed.

(** A pod whose runner may still take or run a job. *)
Definition holds_slot (item : PodItem) : bool :=
  String.eqb (pi_DeletionTimestamp item) "" && node_up (pi_NodeName item) && negb (one_of_phases item).

Definition step_live (ns : string) (acc : list LiveRunner) (item : PodItem) : list LiveRunner :=
  if holds_slot item then match verified_id item with
                          | Some allocationID => acc ++ [live_runner name ns item allocationID]
                          | None => acc
                          end else acc.

Definition step_counted (acc : CapacityStatus) (item : PodItem) : CapacityStatus :=
  if holds_slot item then
    if String.eqb (pi_Phase item) "Running" then { acc with cs_ActiveRunners := wrap64 (cs_ActiveRunners acc + 1) }
    else { acc with cs_PendingRunners := wrap64 (cs_PendingRunners acc + 1) }
  else acc.

Lemma running_not_terminal item : String.eqb (pi_Phase item) "Running" = true → one_of_phases item = false.
Proof. intros Hr%String.eqb_eq. unfold one_of_phases. by rewrite Hr. Qed.

Lemma visit_live_performs ns : stable → is_Some (cu_API cu) → performs (visit_live cu name ns) (step_live ns).
Proof.
  intros Hs Hapi acc cache w item Hc. unfold visit_live, step_live, holds_slot. destruct (one_of_phases item); cbn [orb].
  { exists cache, w. by rewrite andb_false_r. }
  destruct (String.eqb _ ""); cbn [negb andb]; [|by exists cache, w].
  destruct (ready_spec cache w (pi_NodeName item) Hs Hapi Hc) as (cache' & w' & -> & Hc'). exists cache', w'. rewrite andb_true_r.
  split; [|done]. by destruct (node_up (pi_NodeName item)).
Qed.

Lemma visit_counted_performs ns : stable → is_Some (cu_API cu) → performs (visit_counted cu ns) step_counted.
Proof.
  intros Hs Hapi acc cache w item Hc. unfold visit_counted, step_counted, holds_slot.
  destruct (String.eqb _ ""); cbn [negb andb]; [|by exists cache, w].
  destruct (ready_spec cache w (pi_NodeName item) Hs Hapi Hc) as (cache' & w' & -> & Hc'). exists cache', w'. split; [|done].
  destruct (node_up (pi_NodeName item)); [|done]. cbn [negb andb]. destruct (String.eqb (pi_Phase item) "Running") eqn:Hr.
  - by rewrite running_not_terminal.
  - by destruct (one_of_phases item).
Qed.
End Pass.

(** ** What the passes return *)

Section Results.
Context `{GoRange} (cu : Cluster) {R : Type} `{!Registrar R} (name : BackendName) (cfg : BrokerConfig).
Implicit Types (w : World R).

Definition live_of (x : string * PodItem) : option LiveRunner :=
  if holds_slot cu x.2 then live_runner name x.1 x.2 <$> verified_id x.2 else None.

Definition occupies (running : bool) (x : string * PodItem) : bool :=
  holds_slot cu x.2 && Bool.eqb (String.eqb (pi_Phase x.2) "Running") running.

Lemma foldl_step_live items : ∀ acc, foldl (λ acc item, step_live cu name item.1 acc item.2) acc items = acc ++ omap live_of items.
Proof.
  induction items as [|x items IH]; intros acc; cbn; [by rewrite app_nil_r|]. rewrite IH. unfold step_live, live_of at 2.
  destruct (holds_slot cu x.2); [|done]. destruct (verified_id x.2); cbn; [by rewrite <- app_assoc|done].
Qed.

Lemma foldl_step_counted (items : list (string * PodItem)) : ∀ acc, in_int64 (cs_ActiveRunners acc) → in_int64 (cs_PendingRunners acc) →
  foldl (λ acc item, step_counted cu acc item.2) acc items =
  { acc with cs_ActiveRunners := wrap64 (cs_ActiveRunners acc + count_if (occupies true) items);
             cs_PendingRunners := wrap64 (cs_PendingRunners acc + count_if (occupies false) items) }.
Proof.
  assert (Hwrap : ∀ x y, wrap64 (wrap64 (x + 1) + y) = wrap64 (x + (1 + y))).
  { intros x y. unfold wrap64. f_equal. transitivity (((x + 1 + 2 ^ 63) mod 2 ^ 64 + y) mod 2 ^ 64); [f_equal; lia|].
    rewrite Zplus_mod_idemp_l. f_equal. lia. }
  induction items as [|x items IH]; intros acc Ha Hp; cbn [foldl].
  { unfold count_if. cbn. rewrite !Z.add_0_r, !wrap64_id by done. by destruct acc. }
  unfold count_if in *. rewrite !sum_of_cons. unfold step_counted, occupies at 1 3. destruct (holds_slot cu x.2); cbn [andb]; [|by apply IH].
  destruct (String.eqb (pi_Phase x.2) "Running"); cbn [Bool.eqb]; rewrite IH by (cbn; auto using wrap64_range); cbn; by rewrite Hwrap.
Qed.
End Results.
