(* ===== verification/KubernetesBehaviour.v ===== *)
(** What the Kubernetes driver promises: guarded pods run on their node only, a
    registration never outlives a failed provisioning, capacity covers the live
    runners, and a restart reads back what was provisioned. *)

From stdpp Require Import pretty.
From Stdlib Require Import SpecFloat.
From S2P Require Import Prelude Errors Model Backends Config Warm Allocate WorkflowJob TierRefresh Reconcile Restart GithubClient Kubernetes.
From S2P Require Import KubernetesTheory.
Open Scope Z_scope.
Open Scope go_scope.
Import Kubernetes.

(** ** The cluster's scheduler *)

(** Where the scheduler places pods that leave the node to it: on nodes that carry every
    label of the nodeSelector and satisfy all fields of one of the required terms. *)
Record Scheduler (places : gmap string any → string → gmap string string → Prop) : Prop := {
  sch_selector : ∀ spec node labels selector k v, places spec node labels → text_of (spec !! "nodeName") = "" →
    spec !! "nodeSelector" = Some (AnyMap selector) → assoc String.eqb k selector = Some (AnyString v) → labels !! k = Some v;
  sch_terms : ∀ spec node labels terms, places spec node labels → text_of (spec !! "nodeName") = "" →
    required_terms spec = Some terms → terms ≠ [] → ∃ term, term ∈ terms ∧
    ∀ values, AnyMap [("key", AnyString "metadata.name"); ("operator", AnyString "In"); ("values", AnyList values)] ∈ match_fields term →
              AnyString node ∈ values;
}.

Section Guarded.
Context `{GoRange} (cu : Cluster) (name : BackendName).

Lemma pinned_by_insert guard spec k v : k ≠ "nodeName" → k ≠ "nodeSelector" → k ≠ "affinity" →
  pinned_by guard spec → pinned_by guard (<[k := v]> spec).
Proof.
  intros H1 H2 H3 [Hname Hsel Hterms]. split.
  - by rewrite lookup_insert_ne.
  - by rewrite lookup_insert_ne.
  - unfold required_terms in *. by rewrite lookup_insert_ne.
Qed.

Lemma buildPod_pinned pool b allocation jit timeout pod k guard : bc_Kubernetes b = Some k → kb_NodeGuard k = Some guard →
  buildPod cu name pool b allocation jit timeout = Ok pod → pinned_by guard (pd_Spec pod).
Proof.
  intros Hk Hg. unfold buildPod. rewrite Hk. cbn [default from_option]. unfold id. rewrite Hg.
  destruct (deepCopy _ _) as [spec|]; [|done]. cbv zeta. destruct (enforceNodeGuard _ guard) as [spec'|] eqn:He; [|done].
  intros [= <-]. cbn [pd_Spec]. do 3 (apply pinned_by_insert; [done..|]). by eapply enforceNodeGuard_Ok.
Qed.

Lemma pinned_by_placed places guard spec node labels : Scheduler places → pinned_by guard spec → places spec node labels →
  node = ng_NodeName guard ∧ default ∅ (ng_RequiredLabels guard) ⊆ labels.
Proof.
  intros Hs [Hname (selector & Hsel & Hlabels) (terms & Hterms & Hne & Hall)] Hp. split.
  - destruct (sch_terms places Hs _ _ _ _ Hp Hname Hterms Hne) as (term & Hin & Hfields).
    specialize (Hfields _ (Hall term Hin)). by apply list_elem_of_singleton in Hfields as [= ->].
  - apply map_subseteq_spec. intros k v Hk. by eapply sch_selector; [exact Hs|..|exact Hsel|apply Hlabels].
Qed.

(** C15. A pod of a guarded backend, whatever its podSpec says, is placed by the cluster's
    scheduler on the guarded node only, and only while that node carries every required label. *)
Theorem guarded_pods_run_on_their_node places pool b allocation jit timeout pod k guard node labels :
  Scheduler places → bc_Kubernetes b = Some k → kb_NodeGuard k = Some guard →
  buildPod cu name pool b allocation jit timeout = Ok pod → places (pd_Spec pod) node labels →
  node = ng_NodeName guard ∧ default ∅ (ng_RequiredLabels guard) ⊆ labels.
Proof. intros Hs Hk Hg Hb. apply pinned_by_placed; [done|]. by eapply buildPod_pinned. Qed.
End Guarded.

(** ** Registrations *)

(** What follows the reads of a provisioning, and how it answers. *)
Inductive course (cu : Cluster) : list call → result provisioned_runner → Prop :=
  | turned_away err : course cu [] (Fail err)
  | not_registered scope runner labels err : course cu [Registered scope runner labels (Fail err)] (Fail err)
  | not_built scope runner labels jit err :
      course cu [Registered scope runner labels (Ok jit); Unregistered scope (GitHub.jc_RunnerID jit)] (Fail err)
  | not_created scope runner labels jit ns pod answer err : refused cu ns answer = Some err →
      course cu [Registered scope runner labels (Ok jit); Asked "POST" (podsPath ns "") (Some (pod_body pod)) answer;
                 Unregistered scope (GitHub.jc_RunnerID jit)] (Fail err)
  | running scope labels jit ns pod code body runner : 200 ≤ code < 300 →
      (pv_Metadata runner).[metadataRunnerID] = pretty (GitHub.jc_RunnerID jit) → (pv_Metadata runner).["namespace"] = ns →
      (pv_Metadata runner).["pod_name"] = pd_Name pod →
      course cu [Registered scope (pv_RunnerLabel runner) labels (Ok jit);
                 Asked "POST" (podsPath ns "") (Some (pod_body pod)) (Ok (code, body))] (Ok runner).

Section Provision.
Context `{GoRange} (cu : Cluster) {R : Type} `{!Registrar R} (name : BackendName) (cfg : BrokerConfig).
Implicit Types (w : World R).

Lemma metadata_kept b metadata key : key ≠ MetadataCapabilitiesKey → (WithCapabilitiesMetadata b metadata).[key] = (metadata : gmap string string).[key].
Proof. intros Hk. unfold WithCapabilitiesMetadata. destruct (_ =? _)%nat; [rewrite map_read_delete|rewrite map_read_insert]; by case_decide. Qed.

Lemma refused_None ns code body : refused cu ns (Ok (code, body)) = None → 200 ≤ code < 300.
Proof.
  unfold refused, not_success. destruct (_ && Contains _ _); [done|]. destruct (_ || _) eqn:Hc; [done|]. intros _.
  apply orb_false_elim in Hc as [?%Z.ltb_ge ?%Z.leb_gt]. lia.
Qed.

Lemma buildPod_name pool b allocation jit timeout pod :
  buildPod cu name pool b allocation jit timeout = Ok pod → pd_Name pod = podName (as_ID allocation).
Proof.
  unfold buildPod. destruct (deepCopy _ _) as [spec|]; [|done]. cbv zeta.
  destruct (match kb_NodeGuard _ with Some _ => _ | None => _ end) as [spec'|]; [|done]. by intros [= <-].
Qed.

Lemma Do_calls w method path body :
  let '(answer, w') := Do cu w method path body in
  wd_calls w' = wd_calls w ++ [Asked method path body answer] ∧ wd_registrar w' = wd_registrar w.
Proof. done. Qed.

Lemma Generate_calls w registrar scope group runner labels :
  let '(answer, w') := GenerateJITConfig w registrar scope group runner labels in
  wd_calls w' = wd_calls w ++ [Registered scope runner labels answer] ∧ is_Some (wd_registrar w').
Proof. unfold GenerateJITConfig. by destruct (reg_GenerateJITConfig _ _ _ _ _). Qed.

Lemma unregister_calls w scope runnerID : is_Some (wd_registrar w) →
  wd_calls (unregister_unless w true scope runnerID) = wd_calls w ++ [Unregistered scope runnerID].
Proof. intros [r Hr]. unfold unregister_unless. rewrite Hr. unfold DeleteRunner. by destruct (reg_DeleteRunner _ _ _). Qed.

(** C16. Apart from reads of the cluster, a provisioning registers at most one runner and creates at
    most one pod for it; it answers with a runner exactly when that pod was created, and otherwise the
    last thing it does is to remove the registration it made. *)
Theorem failed_provisioning_leaves_no_runner w request allocation :
  let '(answer, w') := Provision cu name cfg w request allocation in
  ∃ looks rest, Forall is_look looks ∧ wd_calls w' = wd_calls w ++ looks ++ rest ∧ course cu rest answer.
Proof.
  assert (Hnone : ∀ err, ∃ looks rest, Forall is_look looks ∧ wd_calls w = wd_calls w ++ looks ++ rest ∧ course cu rest (Fail err)).
  { intros err. exists [], []. rewrite app_nil_r. repeat constructor. }
  unfold Provision. destruct (cu_API cu); [|by apply Hnone]. destruct (pool_of name cfg _) as [pool|]; [|by apply Hnone].
  cbv zeta. pose proof (admits_looked cu name cfg w (pc_Backends pool).[name]) as (Hreg & looks & Hlooks & Hcalls).
  destruct (admits cu name cfg w _) as [[err|] w1]; cbn [snd] in *.
  { exists looks, []. rewrite app_nil_r. repeat constructor; done. }
  assert (Haway : ∀ err, ∃ looks rest, Forall is_look looks ∧ wd_calls w1 = wd_calls w ++ looks ++ rest ∧ course cu rest (Fail err)).
  { intros err. exists looks, []. rewrite app_nil_r. repeat constructor; done. }
  destruct (ForRepository _ _) as [scope|]; [|by apply Haway]. destruct (TargetURL scope) as [url|]; [|by apply Haway].
  destruct (wd_registrar w1) as [registrar|]; [|by apply Haway]. clear Hnone Haway.
  match goal with |- context [GenerateJITConfig w1 registrar ?s ?g ?r ?l] => pose proof (Generate_calls w1 registrar s g r l) as Hgen;
    destruct (GenerateJITConfig w1 registrar s g r l) as [[jit|err] w2] end; destruct Hgen as [Hcalls2 Hreg2]; rewrite Hcalls, <- app_assoc in Hcalls2.
  2:{ exists looks. eexists. split; [done|]. split; [exact Hcalls2|constructor]. }
  unfold create_pod. destruct (buildPod _ _ _ _ _ _ _) as [pod|err] eqn:Hbuilt.
  2:{ exists looks. eexists. split; [done|]. rewrite unregister_calls, Hcalls2, <- !app_assoc by done. split; [done|constructor]. }
  pose proof (Do_calls w2 "POST" (podsPath (namespace cu (pc_Backends pool).[name]) "")
                (Some (pod_body (identified pod allocation (GitHub.jc_RunnerID jit))))) as Hpost.
  destruct (Do cu w2 "POST" _ _) as [answer w3]. destruct Hpost as [Hcalls3 Hreg3]. rewrite Hcalls2, <- !app_assoc in Hcalls3.
  destruct (refused _ _ answer) as [err|] eqn:Href; exists looks; eexists; (split; [done|]).
  - rewrite bool_decide_eq_true_2 by done. rewrite unregister_calls, Hcalls3, <- !app_assoc by by rewrite Hreg3. split; [done|]. by constructor.
  - rewrite bool_decide_eq_false_2 by by intros [? ?]. cbn [unregister_unless]. split; [done|].
    destruct answer as [[code body]|]; [|done]. apply refused_None in Href.
    match goal with |- course _ _ (Ok ?runner) => apply (running cu scope _ jit _ (identified pod allocation (GitHub.jc_RunnerID jit)) code body runner Href) end.
    all: cbn [pv_Metadata]; rewrite metadata_kept by done; try done. by rewrite <- (buildPod_name _ _ _ _ _ _ Hbuilt).
Qed.
End Provision.

(** ** Capacity *)

Section Capacity.
Context `{GoRange} (cu : Cluster) {R : Type} `{!Registrar R} (name : BackendName) (cfg : BrokerConfig).
Implicit Types (w : World R) (t : Targets).

Lemma gather_namespaces pools : ∀ t,
  tg_namespaces (foldl (gather cu name) t pools) = foldl (enabled_namespace cu name) (tg_namespaces t) pools.
Proof.
  induction pools as [|pool pools IH]; intros t; cbn; [done|]. rewrite IH. f_equal. unfold gather, enabled_namespace.
  destruct (pc_Backends pool !! name) as [b|]; [|done]. by destruct (bc_Enabled b).
Qed.

Lemma targets_namespaces : tg_namespaces (targets cu name cfg) = enabled_namespaces cu name cfg.
Proof. unfold targets. cbv zeta. transitivity (tg_namespaces (foldl (gather cu name) {| tg_maxRunners := 0; tg_sharedMax := 0; tg_guard := None; tg_pinnedNode := ""; tg_namespaces := ∅ |} (bk_Pools cfg))); [by destruct (_ && _)|]. apply gather_namespaces. Qed.

Lemma targets_range : in_int64 (tg_maxRunners (targets cu name cfg)).
Proof.
  unfold targets. cbv zeta. set (t := foldl _ _ _). assert (Ht : in_int64 (tg_maxRunners t)).
  { apply (foldl_invariant (λ t, in_int64 (tg_maxRunners t))); [done|]. intros t' pool Ht'. unfold gather.
    destruct (pc_Backends pool !! name) as [b|]; [|done]. destruct (negb _); [done|]. apply wrap64_range. }
  destruct (_ && _) eqn:Hs; [|done]. apply andb_prop in Hs as [H1%Z.ltb_lt H2%Z.ltb_lt]. unfold in_int64, min_int64 in *. cbn. lia.
Qed.

(** A snapshot without a free slot. *)
Lemma full_snapshot n text : in_int64 n →
  FreeSlots {| cs_MaxRunners := n; cs_ActiveRunners := n; cs_PendingRunners := 0; cs_WarmRunners := 0; cs_NodeUnavailable := text |} = 0.
Proof. intros Hn. unfold FreeSlots, used_slots. cbn. by rewrite !Z.add_0_r, (wrap64_id n), Z.sub_diag by done. Qed.

(** What a snapshot counts: every pod once that is not going away, is not finished and is not on a node that is down. *)
Definition counted (items : list (string * PodItem)) (n : Z) : CapacityStatus :=
  { zero_CapacityStatus with cs_MaxRunners := n; cs_ActiveRunners := wrap64 (count_if (occupies cu true) items);
                             cs_PendingRunners := wrap64 (count_if (occupies cu false) items) }.

Definition missing_of t : option (list PodItem) → option error := match tg_guard t with Some _ => items_required | None => items_optional end.

Lemma capacity_body_Ok t w status : stable cu → tg_namespaces t = enabled_namespaces cu name cfg →
  (capacity_body cu name t w).1 = Ok status →
  (∃ err, status = node_down (tg_maxRunners t) err) ∨
  ∃ items, inventory cu name (missing_of t) (range_keys (enabled_namespaces cu name cfg)) = Ok items ∧
           status = counted items (tg_maxRunners t) ∧ is_Some (cu_API cu) ∧ 0 < tg_maxRunners t.
Proof.
  intros Hs Hns. unfold capacity_body. destruct (Z.leb_spec (tg_maxRunners t) 0) as [|Hmax]; [done|].
  destruct (cu_API cu) as [api|] eqn:Hapi; [|done].
  set (p := match tg_guard t with Some guard => _ | None => _ end). destruct p as [[err|] w1].
  { intros [= <-]. left. by exists err. }
  rewrite Hns. fold (missing_of t). rewrite (each_namespace_performs cu name _ _ (fun _ => step_counted cu)); [|done| |done].
  2:{ intros ns. apply visit_counted_performs; [done|]. by rewrite Hapi. }
  destruct (inventory _ _ _ _) as [items|err] eqn:Hi; [|done]. intros [= <-]. right. exists items.
  split; [done|]. rewrite foldl_step_counted by done. done.
Qed.

Lemma Capacity_Ok w status : stable cu → (Capacity cu name cfg w).1 = Ok status →
  FreeSlots status = 0 ∨
  ∃ items, inventory cu name (missing_of (targets cu name cfg)) (range_keys (enabled_namespaces cu name cfg)) = Ok items ∧
           status = counted items (tg_maxRunners (targets cu name cfg)) ∧ is_Some (cu_API cu).
Proof.
  intros Hs. unfold Capacity. pose proof (capacity_body_Ok (targets cu name cfg) w) as Hb.
  destruct (capacity_body cu name (targets cu name cfg) w) as [answer w']. cbn [fst] in *.
  destruct answer as [status'|err].
  - intros Heq. assert (status' = status) as -> by (destruct (tg_guard _); congruence).
    destruct (Hb status Hs targets_namespaces eq_refl) as [(err & ->)|(items & Hi & -> & ? & _)]; [left|right; by eauto].
    apply full_snapshot, targets_range.
  - destruct (tg_guard _); [|done]. intros [= <-]. left. apply full_snapshot, targets_range.
Qed.

Lemma inventory_missing (missing : option (list PodItem) → option error) nss items :
  inventory cu name missing nss = Ok items → inventory cu name items_optional nss = Ok items.
Proof.
  revert items. induction nss as [|ns nss IH]; intros items; cbn; [done|]. destruct (pods_at cu name ns) as [found|]; [|done].
  destruct (missing found); [done|]. destruct (inventory cu name missing nss) as [rest|]; [|done]. intros [= <-]. by rewrite (IH rest eq_refl).
Qed.

Lemma count_occupies items : count_if (occupies cu true) items + count_if (occupies cu false) items = count_if (λ x, holds_slot cu x.2) items.
Proof.
  unfold count_if. induction items as [|x items IH]; [done|]. rewrite !sum_of_cons, <- IH. unfold occupies at 1 3.
  destruct (holds_slot cu x.2); cbn; [|lia]. destruct (String.eqb _ _); cbn; lia.
Qed.

Lemma live_count items : Z.of_nat (length (omap (live_of cu name) items)) ≤ count_if (λ x, holds_slot cu x.2) items.
Proof.
  unfold count_if. induction items as [|x items IH]; [done|]. rewrite sum_of_cons. cbn. unfold live_of at 1.
  destruct (holds_slot cu x.2); cbn; [|lia]. destruct (verified_id x.2); cbn; lia.
Qed.

Lemma LiveRunners_Ok w runners : stable cu → (LiveRunners cu name cfg w).1 = Ok runners →
  ∃ items, inventory cu name items_optional (range_keys (enabled_namespaces cu name cfg)) = Ok items ∧ runners = omap (live_of cu name) items.
Proof.
  intros Hs. unfold LiveRunners. destruct (cu_API cu) as [api|] eqn:Hapi; [|done].
  rewrite (each_namespace_performs cu name _ _ (step_live cu name)); [|done| |done].
  2:{ intros ns. apply visit_live_performs; [done|]. by rewrite Hapi. }
  destruct (inventory _ _ _ _) as [items|err]; [|done]. intros [= <-]. exists items. split; [done|]. apply foldl_step_live.
Qed.

(** C19. While the cluster answers the same, a capacity snapshot with a free slot counts every live pod
    once, running ones as active and the others as pending, and leaves none of the live runners out that
    the restart path finds; the runners are the live pods whose name agrees with their allocation. *)
Theorem capacity_covers_live_runners w1 w2 status runners items :
  stable cu → (Capacity cu name cfg w1).1 = Ok status → (LiveRunners cu name cfg w2).1 = Ok runners →
  inventory cu name items_optional (range_keys (enabled_namespaces cu name cfg)) = Ok items → Z.of_nat (length items) ≤ max_int64 →
  runners = omap (live_of cu name) items ∧
  (FreeSlots status = 0 ∨
   cs_ActiveRunners status = count_if (occupies cu true) items ∧ cs_PendingRunners status = count_if (occupies cu false) items ∧
   Z.of_nat (length runners) ≤ used_slots status).
Proof.
  intros Hs Hcap Hlive Hitems Hlen. apply (LiveRunners_Ok _ _ Hs) in Hlive as (found & Hfound & ->).
  rewrite Hitems in Hfound. injection Hfound as <-. split; [done|].
  apply (Capacity_Ok _ _ Hs) in Hcap as [?|(found & Hfound & -> & _)]; [by left|right]. apply inventory_missing in Hfound.
  rewrite Hitems in Hfound. injection Hfound as <-.
  pose proof (count_if_bounds (occupies cu true) items). pose proof (count_if_bounds (occupies cu false) items).
  pose proof (count_if_bounds (λ x, holds_slot cu x.2) items). pose proof (count_occupies items). pose proof (live_count items).
  assert (∀ z, 0 ≤ z ≤ Z.of_nat (length items) → wrap64 z = z) as Hid.
  { intros z Hz. apply wrap64_id. unfold in_int64, min_int64. lia. }
  unfold used_slots, counted. cbn. rewrite Z.add_0_r, !Hid by lia. repeat split; lia.
Qed.

(** A guarded target reports no error, and has free slots only after its node was read and admitted. *)
Theorem guarded_capacity_is_closed w guard : tg_guard (targets cu name cfg) = Some guard →
  ∃ status, (Capacity cu name cfg w).1 = Ok status ∧ (FreeSlots status ≠ 0 → (checkNodeGuard cu w guard).1 = None).
Proof.
  intros Hg. unfold Capacity. destruct (capacity_body cu name (targets cu name cfg) w) as [answer w'] eqn:Hb. rewrite Hg. cbn [fst].
  destruct answer as [status|err].
  2:{ eexists. split; [done|]. intros Hfree. exfalso. apply Hfree, full_snapshot, targets_range. }
  exists status. split; [done|]. unfold capacity_body in Hb. destruct (_ <=? 0); [done|]. destruct (cu_API cu); [|done].
  rewrite Hg in Hb. destruct (checkNodeGuard cu w guard) as [[err|] w1]; [|done]. injection Hb as <- <-.
  intros Hfree. exfalso. apply Hfree, full_snapshot, targets_range.
Qed.
End Capacity.

(** ** Restarts *)

(** What the cluster later shows of a pod it was sent. *)
Record shows (pod : Pod) (item : PodItem) : Prop := {
  sh_name : pi_Name item = pd_Name pod;
  sh_labels : pi_Labels item = pd_Labels pod;
  sh_annotations : pi_Annotations item = pd_Annotations pod;
}.

Section Restart.
Context `{GoRange} (cu : Cluster) (name : BackendName) (cfg : BrokerConfig).

(** The identity of an allocation, as far as a pod can carry it. *)
Record identity_fits (pool : PoolConfig) (b : BackendConfig) (allocation : AllocationStatus) : Prop := {
  fit_id : as_ID allocation ≠ "" ∧ TrimSpace (as_ID allocation) = as_ID allocation;
  fit_pool : pc_Name pool = as_Pool allocation ∧ labelValue (as_Pool allocation) = as_Pool allocation;
  fit_repository : TargetRepository allocation ≠ "";
  fit_job : ∀ request, as_Request allocation = Some request → in_int64 (ar_WorkflowJobID request);
  fit_annotations : ∀ k, bc_Kubernetes b = Some k → default ∅ (kb_PodAnnotations k) !! annotationWorkflowJob = None;
}.

Definition workflow_job (allocation : AllocationStatus) : Z :=
  match as_Request allocation with Some request => if 0 <? ar_WorkflowJobID request then ar_WorkflowJobID request else 0 | None => 0 end.

Lemma TargetRepository_trimmed allocation : TrimSpace (TargetRepository allocation) = TargetRepository allocation.
Proof. unfold TargetRepository. cbv zeta. destruct (String.eqb _ _); [|destruct (as_Request allocation); [|done]]; apply TrimSpace_idem. Qed.

Lemma pretty_nonempty (z : Z) : pretty z ≠ "".
Proof.
  assert (∀ x s, s ≠ "" → pretty_N_go x s ≠ "") as Hgo.
  { intros x. induction (N.lt_wf_0 x) as [x _ IH]. intros s Hs. destruct (decide (0 < x)%N) as [Hx|Hx].
    - rewrite pretty_N_go_step by done. apply IH; [apply N.div_lt; lia|done].
    - assert (x = 0%N) as -> by lia. done. }
  destruct z as [|p|p]; [done| |done]. change (pretty_N_go (N.pos p) "" ≠ ""). rewrite pretty_N_go_step by done. by apply Hgo.
Qed.

Lemma buildPod_identity pool b allocation jit timeout pod : buildPod cu name pool b allocation jit timeout = Ok pod →
  (pd_Labels pod).[labelPool] = labelValue (pc_Name pool) ∧
  pd_Annotations pod = (let annotations := default ∅ (kb_PodAnnotations (default zero_KubernetesBackendConfig (bc_Kubernetes b))) in
                        if String.eqb (TargetRepository allocation) "" then annotations
                        else <[annotationRepository := TargetRepository allocation]> annotations).
Proof.
  unfold buildPod. destruct (deepCopy _ _) as [spec|]; [|done]. cbv zeta.
  destruct (match kb_NodeGuard _ with Some _ => _ | None => _ end) as [spec'|]; [|done]. intros [= <-]. split; [|done].
  cbn. by rewrite map_read_insert_eq.
Qed.

(** The annotations a pod is created with. *)
Lemma identity_annotations_read allocation runnerID m :
  (∀ request, as_Request allocation = Some request → in_int64 (ar_WorkflowJobID request)) → m !! annotationWorkflowJob = None →
  let annotations := identity_annotations allocation runnerID m in
  annotations.[annotationAllocationID] = as_ID allocation ∧ annotations.[annotationRunnerID] = pretty runnerID ∧
  annotations.[annotationRepository] = m.[annotationRepository] ∧
  match GitHub.Atoi annotations.[annotationWorkflowJob] with Some v => if 0 <? v then v else 0 | None => 0 end = workflow_job allocation.
Proof.
  intros Hjob Hm. cbv zeta. unfold identity_annotations, workflow_job.
  destruct (as_Request allocation) as [request|]; [destruct (Z.ltb_spec 0 (ar_WorkflowJobID request)) as [Hpos|]|].
  1: rewrite (map_read_insert_eq _ annotationWorkflowJob), Atoi_pretty, (proj2 (Z.ltb_lt _ _) Hpos) by auto.
  2,3: rewrite (map_read_None _ annotationWorkflowJob) by by rewrite !lookup_insert_ne.
  all: rewrite !map_read_insert; repeat case_decide; done.
Qed.

Lemma rebuilt_status_reads pool runner now :
  let status := rebuilt_status cfg pool name runner now in
  as_ID status = lr_AllocationID runner ∧ as_Pool status = pc_Name pool ∧
  (∀ k, k ≠ restoredFromProviderMetadataKey → (as_Metadata status).[k] = (lr_Metadata runner).[k]) ∧
  as_RunnerLabel status = (let label := (lr_Metadata runner).["runner_label"] in
                           if String.eqb label "" then DefaultRunnerLabel name (lr_AllocationID runner) else label) ∧
  TargetRepository status = TrimSpace (lr_Repository runner) ∧ ar_WorkflowJobID <$> as_Request status = Some (lr_WorkflowJobID runner).
Proof.
  assert (Hmeta : ∀ k, k ≠ restoredFromProviderMetadataKey →
            (lr_Metadata runner ∪ {[ restoredFromProviderMetadataKey := "true" ]}).[k] = (lr_Metadata runner).[k]).
  { intros k Hk. unfold map_read. by rewrite lookup_union, lookup_singleton_ne, (right_id_L None _) by done. }
  split_and!; [done..|exact Hmeta| | |done].
  - rewrite <- (Hmeta "runner_label") by done. done.
  - unfold TargetRepository. change (let fromRequest := TrimSpace (lr_Repository runner) in
      if String.eqb fromRequest "" then TrimSpace (lr_Repository runner) else fromRequest) with (if String.eqb (TrimSpace (lr_Repository runner)) ""
      then TrimSpace (lr_Repository runner) else TrimSpace (lr_Repository runner)). by destruct (String.eqb _ _).
Qed.

End Restart.

(** ** Instances *)

(** A scheduler that only looks at label selectors and at the values of match fields. *)
Definition field_allows (node : string) (field : any) : bool :=
  match field with
  | AnyMap m => match assoc String.eqb "values" m with
                | Some (AnyList values) => existsb (fun v => negb (differs v node)) values
                | _ => true
                end
  | _ => true
  end.

Definition obeys (spec : gmap string any) (node : string) (labels : gmap string string) : bool :=
  match spec !! "nodeSelector" with
  | Some (AnyMap selector) =>
      forallb (fun kv => match kv.2 with AnyString v => bool_decide (labels !! kv.1 = Some v) | _ => true end) selector
  | _ => true
  end &&
  match required_terms spec with
  | None | Some [] => true
  | Some terms => existsb (fun term => forallb (field_allows node) (match_fields term)) terms
  end.

Lemma assoc_elem k v m : assoc String.eqb k m = Some v → In (k, v) m.
Proof. induction m as [|[k' v'] m IH]; cbn; [done|]. destruct (String.eqb_spec k k') as [->|]; [intros [= ->]; by left|intros ?; right; auto]. Qed.

Lemma differs_false_text v s : differs v s = false → v = AnyString s.
Proof. destruct v; try done. cbn. by intros ->%negb_false_iff%String.eqb_eq. Qed.

Lemma obeys_scheduler : Scheduler (λ spec node labels, obeys spec node labels = true).
Proof.
  split.
  - intros spec node labels selector k v [Hsel _]%andb_prop _ Heq Hk. rewrite Heq in Hsel. apply assoc_elem in Hk.
    rewrite forallb_forall in Hsel. apply Hsel in Hk. cbn in Hk. by apply bool_decide_eq_true in Hk.
  - intros spec node labels terms [_ Hterms]%andb_prop _ Heq Hne. rewrite Heq in Hterms. destruct terms as [|t ts]; [done|].
    apply existsb_exists in Hterms as (term & Hin & Hfields). exists term. split; [by apply list_elem_of_In|].
    intros values Hv. rewrite forallb_forall in Hfields. apply list_elem_of_In, Hfields in Hv. cbn in Hv.
    apply existsb_exists in Hv as (v & Hv & Hd). apply negb_true_iff, differs_false_text in Hd as ->. by apply list_elem_of_In.
Qed.

#[local] Existing Instance range_forward.

(** A registrar that numbers its runners. *)
Definition counting_registrar : Registrar Z :=
  {| reg_GenerateJITConfig := fun n _ _ _ _ => (Ok {| GitHub.jc_RunnerID := n; GitHub.jc_Encoded := "jit" |}, n + 1);
     reg_DeleteRunner := fun n _ _ => (None, n) |}.
#[local] Existing Instance counting_registrar.

Definition gpu_node : KubernetesNodeGuardConfig := {| ng_NodeName := "gpu-1"; ng_RequiredLabels := Some {[ "zone" := "a" ]} |}.

Definition gpu_cluster : KubernetesBackendConfig :=
  { zero_KubernetesBackendConfig with kb_Namespace := "runners"; kb_NodeGuard := Some gpu_node;
      kb_PodSpec := Some {[ "nodeSelector" := AnyMap [("disk", AnyString "ssd")]; "priority" := AnyInt 5 ]} }.

Definition gpu_backend : BackendConfig := { zero_BackendConfig with bc_Enabled := true; bc_MaxRunners := 3; bc_Kubernetes := Some gpu_cluster }.

Definition gpu_pool : PoolConfig := { zero_PoolConfig with pc_Name := "gpu"; pc_Labels := ["GPU"]; pc_Backends := {[ "cluster" := gpu_backend ]} }.

Definition gpu_config : BrokerConfig :=
  { zero_BrokerConfig with bk_Pools := [gpu_pool];
      bk_Scope := { zero_GitHubScope with gs_Type := GitHubScopeOwner; gs_Owner := "acme" } }.

Definition gpu_job : AllocationStatus :=
  { zero_AllocationStatus with as_ID := "a1b2"; as_Pool := "gpu"; as_RequestedLabels := ["gpu"; "linux"]; as_Repository := "acme/app";
      as_Request := Some { zero_AllocationRequest with ar_WorkflowJobID := 77 } }.

Definition gpu_pod : PodItem :=
  {| pi_Name := "uecb-runner-a1b2"; pi_DeletionTimestamp := ""; pi_CreationTimestamp := 5;
     pi_Labels := {[ labelPool := "gpu" ]}; pi_Annotations := {[ annotationAllocationID := "a1b2"; annotationRepository := "acme/app" ]};
     pi_NodeName := "gpu-1"; pi_Phase := "Running"; pi_Running := [true] |}.

(** A cluster with the guarded node, one running pod of the broker and one without an identity. *)
Definition answering : Cluster :=
  {| cu_API := Some "default";
     cu_Do := fun _ method path _ => if String.eqb method "POST" then Ok (201, "") else Ok (200, path);
     cu_Node := fun _ => Ok {| nd_Kind := "Node"; nd_Name := "gpu-1"; nd_Labels := {[ "zone" := "a" ]}; nd_Unschedulable := false;
                               nd_TaintEffects := ["PreferNoSchedule"]; nd_Conditions := [("Ready", "True")] |};
     cu_Conditions := fun _ => Ok [("Ready", "True")];
     cu_Pods := fun _ => Ok (Some [gpu_pod; { gpu_pod with pi_Name := "stray"; pi_Phase := "Pending"; pi_NodeName := "" };
                                   { gpu_pod with pi_Phase := "Failed" }]);
     cu_Message := fun _ => ""; cu_TimeJSON := fun _ _ => Ok "" |}.

Definition fresh_world : World Z := {| wd_asked := 0; wd_calls := []; wd_registrar := Some 41 |}.

Example gpu_job_provisioned :
  (Provision answering "cluster" gpu_config fresh_world zero_AllocationRequest gpu_job).1 =
  Ok {| pv_RunnerLabel := "uecb-cluster-a1b2";
        pv_Metadata := {[ "provisioner" := "kubernetes-pod"; "lifecycle" := "ephemeral"; "namespace" := "runners"; "pod_name" := "uecb-runner-a1b2";
                          "runner_label" := "uecb-cluster-a1b2"; "target_url" := "https://github.com/acme/app"; "scope_type" := "repository";
                          "github_runner_id" := "41" ]} |}.
Proof. by vm_compute. Qed.

Definition default_pod : Pod := {| pd_Name := ""; pd_Labels := ∅; pd_Annotations := ∅; pd_Spec := ∅ |}.
Definition built : Pod :=
  match buildPod answering "cluster" gpu_pool gpu_backend gpu_job "jit" Hour with Ok pod => pod | Fail _ => default_pod end.

Lemma guarded_pods_run_on_their_node_witness :
  buildPod answering "cluster" gpu_pool gpu_backend gpu_job "jit" Hour = Ok built ∧
  obeys (pd_Spec built) "gpu-1" {[ "zone" := "a"; "disk" := "ssd" ]} = true ∧ obeys (pd_Spec built) "gpu-2" {[ "zone" := "a"; "disk" := "ssd" ]} = false ∧
  "gpu-1" = ng_NodeName gpu_node ∧ default ∅ (ng_RequiredLabels gpu_node) ⊆ {[ "zone" := "a"; "disk" := "ssd" ]}.
Proof.
  split; [vm_compute; reflexivity|]. split; [vm_compute; reflexivity|]. split; [vm_compute; reflexivity|].
  apply (guarded_pods_run_on_their_node answering "cluster" _ gpu_pool gpu_backend gpu_job "jit" Hour built gpu_cluster gpu_node "gpu-1" _
           obeys_scheduler); vm_compute; reflexivity.
Defined.


Lemma capacity_covers_live_runners_witness :
  stable answering ∧
  let status := { zero_CapacityStatus with cs_MaxRunners := 3; cs_ActiveRunners := 1; cs_PendingRunners := 1 } in
  (Capacity answering "cluster" gpu_config fresh_world).1 = Ok status ∧
  (FreeSlots status = 0 ∨ cs_ActiveRunners status = 1 ∧ cs_PendingRunners status = 1 ∧ 1 ≤ used_slots status).
Proof.
  split; [done|]. cbv zeta. split; [vm_compute; reflexivity|].
  set (items := [("runners", gpu_pod); ("runners", { gpu_pod with pi_Name := "stray"; pi_Phase := "Pending"; pi_NodeName := "" });
                 ("runners", { gpu_pod with pi_Phase := "Failed" })]).
  destruct (capacity_covers_live_runners answering "cluster" gpu_config fresh_world fresh_world
              { zero_CapacityStatus with cs_MaxRunners := 3; cs_ActiveRunners := 1; cs_PendingRunners := 1 }
              [live_runner "cluster" "runners" gpu_pod "a1b2"] items) as [_ Hc]; [done|vm_compute; reflexivity..|done|]. exact Hc.
Defined.

(** A name that is cut at fifty characters can end with a dash, which DNS-1123 refuses. *)
Example cut_names_end_with_a_dash :
  last_char (podName "aaaaaaaaaaaaaaaaaaaaaaaaaaaaaaaaaaaaaaaaaaaaaaaaa-b") = Some "-"%char ∧ last_char (podName "") = Some "-"%char.
Proof. by vm_compute. Qed.
