(* ===== verification/ExternalDispatch.v ===== *)
(** Drivers that call a launcher over HTTP: src/internal/backend/externaldispatch/backend.go,
    which the lambda, cloudrun, codebuild, azurefunctions, ec2 and gce packages instantiate.

    The network, the secret reader, JSON texts and URL parsing are parameters; a driver's
    world counts its calls and keeps the requests it sent. *)

From stdpp Require Import pretty.
From S2P Require Import Prelude Errors Model Backends Allocate ServicePolicy GithubClient Kubernetes.
Open Scope Z_scope.
Open Scope go_scope.

Module ExternalDispatch.

(** ** [time.Duration.String] *)

Definition digit_char (n : Z) : ascii := ascii_of_nat (Z.to_nat (48 + n)).

(** [fmtFrac]: the last [prec] digits as a fraction without trailing zeros, and the rest. *)
Fixpoint fmt_frac (prec : nat) (v : Z) (print : bool) (text : string) : string * Z :=
  match prec with
  | O => (if print then "." +:+ text else text, v)
  | Datatypes.S prec =>
      let digit := v mod 10 in
      let print := print || negb (digit =? 0) in
      fmt_frac prec (v / 10) print (if print then String (digit_char digit) text else text)
  end.

Definition with_unit (prec : nat) (v : Z) (unit : string) : string :=
  let '(text, v) := fmt_frac prec v false "" in (pretty v : string) +:+ text +:+ unit.

Definition microseconds : string := String (ascii_of_nat 194) (String (ascii_of_nat 181) "s").

Definition DurationString (d : Duration) : string :=
  let u := Z.abs d in
  let sign := if d <? 0 then "-" else "" in
  if u =? 0 then "0s"
  else if u <? 1000 then sign +:+ (pretty u : string) +:+ "ns"
  else if u <? Millisecond then sign +:+ with_unit 3 u microseconds
  else if u <? Second then sign +:+ with_unit 6 u "ms"
  else
    let '(text, s) := fmt_frac 9 u false "" in
    let m := s / 60 in
    let h := m / 60 in
    sign +:+ (if 0 <? h then (pretty h : string) +:+ "h" else "") +:+
    (if 0 <? m then (pretty (m mod 60) : string) +:+ "m" else "") +:+ (pretty (s mod 60) : string) +:+ text +:+ "s".

Example durations : DurationString Hour = "1h0m0s" ∧ DurationString (90 * Second) = "1m30s" ∧ DurationString (1500 * Millisecond) = "1.5s" ∧
  DurationString (250 * Millisecond) = "250ms" ∧ DurationString (-1) = "-1ns".
Proof. by vm_compute. Qed.

(** ** Requests and responses *)

Record dispatchGitHub := {
  dg_ScopeType : string;
  dg_Organization : string;
  dg_Owner : string;
  dg_Repository : string;
  dg_TargetURL : string;
  dg_RunnerGroup : string;
}.

Record dispatchRequest := {
  dq_Action : string;
  dq_Backend : string;
  dq_AllocationID : string;
  dq_Pool : string;
  dq_RunnerLabel : string;
  dq_RunnerName : string;
  dq_RunnerLabels : list string;
  dq_RequestedLabels : list string;
  dq_LaunchMode : string;
  dq_JobTimeout : string;
  dq_JobTimeoutSeconds : Z;
  dq_GitHub : dispatchGitHub;
}.

Record dispatchResponse := {
  ds_RunnerLabel : string;
  ds_Metadata : gmap string string;
  ds_StatusURL : string;
  ds_DetailsURL : string;
  ds_ExecutionID : string;
}.

Record cleanupRequest := {
  cq_Action : string;
  cq_Backend : string;
  cq_AllocationID : string;
  cq_CorrelationID : string;
  cq_Pool : string;
  cq_RunnerLabel : string;
  cq_State : string;
  cq_Error : string;
  cq_Metadata : gmap string string;
}.

Inductive body := NoBody | DispatchBody (payload : dispatchRequest) | CleanupBody (payload : cleanupRequest).

(** A request; [rq_Authorization] is empty without a token. *)
Record request := { rq_Method : string; rq_URL : string; rq_Backend : string; rq_Authorization : string; rq_Body : body }.

(** A response; its body may fail to be read. *)
Record response := { rs_StatusCode : Z; rs_ContentLength : Z; rs_Body : result string }.

(** What a driver is given; an empty JSON body decodes to the zero value. *)
Record Launcher := {
  la_Secret : nat → string → result (gmap string string);
  la_NewRequest : string → option error;
  la_Do : nat → request → result response;
  la_Timeout : error → bool;
  la_DispatchResponse : response → result dispatchResponse;
  la_CapacityJSON : response → result CapacityJSON;
  (* the error field of a JSON body *)
  la_ErrorField : string → option string;
}.

Record World := { ew_steps : nat; ew_sent : list request }.

Definition dispatchTimeout (name : BackendName) : Duration :=
  if String.eqb name BackendAzureFunctions then 90 * Second else 20 * Second.

(** ** Answers *)

Definition classifyStatus (status : Z) : string :=
  if status =? 429 then FailureReasonThrottled else if 500 <=? status then FailureReasonServerError else "".

Definition isCapacityStatus (status : Z) (message : string) : bool :=
  let lower := ToLower message in
  Kubernetes.Contains lower "capacity" || Kubernetes.Contains lower "no free" || Kubernetes.Contains lower "no slot" || (status =? 409).

Definition succeeded (status : Z) : bool := (200 <=? status) && (status <? 300).

Definition add_label (labels : list string) (value : string) : list string :=
  let trimmed := TrimSpace value in
  if String.eqb trimmed "" || existsb (String.eqb trimmed) labels then labels else labels ++ [trimmed].

Definition combineLabels (base requested : list string) (runnerLabel : string) : list string :=
  add_label (foldl add_label (foldl add_label [] base) requested) runnerLabel.

Definition resolvePool (cfg : BrokerConfig) (name : PoolName) : result PoolConfig :=
  match List.find (fun pool => String.eqb (pc_Name pool) name) (bk_Pools cfg) with
  | Some pool => Ok pool
  | None => Fail (Errorf ("pool " +:+ name +:+ " is not configured"))
  end.

Definition set_trimmed (key value : string) (metadata : gmap string string) : gmap string string :=
  if String.eqb (TrimSpace value) "" then metadata else <[key := TrimSpace value]> metadata.

Section Driver.
Context (la : Launcher) (name : BackendName) (cfg : BrokerConfig).
Implicit Types (w : World).

Definition classifyDispatchError (err : error) : error :=
  NewClassifiedError (if errors_Is err DeadlineExceeded || la_Timeout la err then FailureReasonTimeout else FailureReasonTransport)
    (Wrapf ("dispatch backend " +:+ name +:+ ": ") err "").

Definition readErrorMessage (answer : response) : result string :=
  let? text := rs_Body answer in
  let text := GitHub.limited 16384 text in
  match la_ErrorField la text with
  | Some message => if String.eqb (TrimSpace message) "" then Ok (TrimSpace text) else Ok (TrimSpace message)
  | None => Ok (TrimSpace text)
  end.

Definition ReadSecret w (ref : string) : result (gmap string string) * World :=
  (la_Secret la (ew_steps w) ref, { w with ew_steps := Datatypes.S (ew_steps w) }).

(** [http.NewRequest] and the client's Do. *)
Definition send w (method url token : string) (payload : body) (failed : error → error) : result response * World :=
  match la_NewRequest la url with
  | Some err => (Fail err, w)
  | None =>
      let req := {| rq_Method := method; rq_URL := url; rq_Backend := name;
                    rq_Authorization := if String.eqb token "" then "" else "Bearer " +:+ token; rq_Body := payload |} in
      (match la_Do la (ew_steps w) req with Ok answer => Ok answer | Fail err => Fail (failed err) end,
       {| ew_steps := Datatypes.S (ew_steps w); ew_sent := ew_sent w ++ [req] |})
  end.

(** ** Provision *)

Definition dispatch_payload (pool : PoolConfig) (request : AllocationRequest) (allocation : AllocationStatus) (scope : GitHubScope)
    (targetURL : string) : dispatchRequest :=
  let runnerLabel := DefaultRunnerLabel name (as_ID allocation) in
  {| dq_Action := "dispatch"; dq_Backend := name; dq_AllocationID := as_ID allocation; dq_Pool := pc_Name pool;
     dq_RunnerLabel := runnerLabel; dq_RunnerName := runnerLabel;
     dq_RunnerLabels := combineLabels (pc_Labels pool) (as_RequestedLabels allocation) runnerLabel;
     dq_RequestedLabels := as_RequestedLabels allocation;
     dq_LaunchMode := TrimSpace (as_Metadata allocation).[MetadataLaunchModeKey];
     dq_JobTimeout := DurationString (ar_JobTimeout request);
     dq_JobTimeoutSeconds := Z.quot (ar_JobTimeout request) Second;
     dq_GitHub := {| dg_ScopeType := gs_Type scope; dg_Organization := gs_Organization scope; dg_Owner := gs_Owner scope;
                     dg_Repository := gs_Repository scope; dg_TargetURL := targetURL; dg_RunnerGroup := RunnerGroup scope (pc_Name pool) |} |}.

(** The error of an answer that is not a success. *)
Definition rejected (answer : response) : error :=
  let message := match readErrorMessage answer with Ok message => message | Fail _ => "" end in
  let err := if String.eqb message ""
             then Errorf ("dispatch backend " +:+ name +:+ ": unexpected status " +:+ pretty (rs_StatusCode answer))
             else Errorf ("dispatch backend " +:+ name +:+ ": " +:+ message) in
  if isCapacityStatus (rs_StatusCode answer) message then ProviderError err true
  else NewClassifiedError (classifyStatus (rs_StatusCode answer)) err.

Definition zero_response : dispatchResponse :=
  {| ds_RunnerLabel := ""; ds_Metadata := ∅; ds_StatusURL := ""; ds_DetailsURL := ""; ds_ExecutionID := "" |}.

Definition launched (allocation : AllocationStatus) (dispatchURL targetURL : string) (payload : dispatchResponse) : provisioned_runner :=
  let runnerLabel := TrimSpace (ds_RunnerLabel payload) in
  let metadata := set_trimmed "execution_id" (ds_ExecutionID payload)
                    (set_trimmed "details_url" (ds_DetailsURL payload) (set_trimmed "status_url" (ds_StatusURL payload) (ds_Metadata payload))) in
  let metadata := if String.eqb metadata.["target_url"] "" then <["target_url" := targetURL]> metadata else metadata in
  {| pv_RunnerLabel := if String.eqb runnerLabel "" then DefaultRunnerLabel name (as_ID allocation) else runnerLabel;
     pv_Metadata := <["scope_type" := TrimSpace (gs_Type (bk_Scope cfg))]> (<["dispatch_url" := dispatchURL]> metadata) |}.

Definition missing_ref : error := Errorf ("backend " +:+ name +:+ " is missing secretRef").

Definition missing_key (ref key : string) : error := Errorf ("backend secret " +:+ ref +:+ " is missing " +:+ quote key).

Definition secret_error (ref : string) (err : error) : error := Wrapf ("read backend secret " +:+ ref +:+ ": ") err "".

(** From the request on. *)
Definition dispatch w pool request allocation (scope : GitHubScope) (targetURL dispatchURL token : string) :
    result provisioned_runner * World :=
  match send w "POST" dispatchURL token (DispatchBody (dispatch_payload pool request allocation scope targetURL)) classifyDispatchError with
  | (Fail err, w) => (Fail err, w)
  | (Ok answer, w) =>
      (if negb (succeeded (rs_StatusCode answer)) then Fail (rejected answer)
       else
         let launched := launched allocation dispatchURL targetURL in
         if rs_ContentLength answer =? 0 then Ok (launched zero_response)
         else match la_DispatchResponse la answer with
         | Fail err => Fail (Wrapf ("decode backend " +:+ name +:+ " response: ") err "")
         | Ok payload => Ok (launched payload)
         end, w)
  end.

Definition Provision w (request : AllocationRequest) (allocation : AllocationStatus) : result provisioned_runner * World :=
  match resolvePool cfg (as_Pool allocation) with
  | Fail err => (Fail err, w)
  | Ok pool =>
  match pc_Backends pool !! name with
  | None => (Fail (Errorf ("backend " +:+ name +:+ " is not configured for pool " +:+ pc_Name pool)), w)
  | Some b =>
  let ref := TrimSpace (bc_SecretRef b) in
  if String.eqb ref "" then (Fail missing_ref, w)
  else match ReadSecret w ref with
  | (Fail err, w) => (Fail (secret_error ref err), w)
  | (Ok data, w) =>
  let dispatchURL := TrimSpace data.["dispatch_url"] in
  if String.eqb dispatchURL "" then (Fail (missing_key ref "dispatch_url"), w)
  else match ForRepository (bk_Scope cfg) (TargetRepository allocation) with
  | Fail err => (Fail err, w)
  | Ok scope =>
  match TargetURL scope with
  | Fail err => (Fail err, w)
  | Ok targetURL => dispatch w pool request allocation scope targetURL dispatchURL (TrimSpace data.["dispatch_token"])
  end end end end end.

(** ** Capacity and Probe *)

(** An enabled entry, else any. *)
Definition firstConfiguredPool : result BackendConfig :=
  let entries := omap (fun pool => pc_Backends pool !! name) (bk_Pools cfg) in
  match List.find bc_Enabled entries with
  | Some b => Ok b
  | None => match head entries with
            | Some b => Ok b
            | None => Fail (Errorf ("backend " +:+ name +:+ " is not configured in any pool"))
            end
  end.

Definition capacity_rejected (answer : response) : error :=
  let err := match readErrorMessage answer with
             | Ok message => if String.eqb message "" then Errorf ("capacity backend " +:+ name +:+ ": unexpected status " +:+ pretty (rs_StatusCode answer))
                             else Errorf ("capacity backend " +:+ name +:+ ": " +:+ message)
             | Fail _ => Errorf ("capacity backend " +:+ name +:+ ": unexpected status " +:+ pretty (rs_StatusCode answer))
             end in
  NewClassifiedError (classifyStatus (rs_StatusCode answer)) err.

Definition Capacity w : result CapacityStatus * World :=
  match firstConfiguredPool with
  | Fail err => (Fail err, w)
  | Ok b =>
  let ref := TrimSpace (bc_SecretRef b) in
  if String.eqb ref "" then (Fail missing_ref, w)
  else match ReadSecret w ref with
  | (Fail err, w) => (Fail (secret_error ref err), w)
  | (Ok data, w) =>
  let capacityURL := TrimSpace data.["capacity_url"] in
  if String.eqb capacityURL "" then (Fail (missing_key ref "capacity_url"), w)
  else match send w "GET" capacityURL (TrimSpace data.["dispatch_token"]) NoBody classifyDispatchError with
  | (Fail err, w) => (Fail err, w)
  | (Ok answer, w) =>
      (if negb (succeeded (rs_StatusCode answer)) then Fail (capacity_rejected answer)
       else match la_CapacityJSON la answer with
       | Fail err => Fail (Wrapf ("decode backend " +:+ name +:+ " capacity response: ") err "")
       | Ok payload => Ok (CapacityStatusFromJSON payload)
       end, w)
  end end end.

(** None is healthy. *)
Definition Probe w (pool : PoolConfig) (b : BackendConfig) : option error * World :=
  let ref := TrimSpace (bc_SecretRef b) in
  if String.eqb ref "" then (Some missing_ref, w)
  else match ReadSecret w ref with
  | (Fail err, w) => (Some err, w)
  | (Ok data, w) =>
  if String.eqb (TrimSpace data.["dispatch_url"]) "" then (Some (missing_key ref "dispatch_url"), w)
  else
  let healthURL := TrimSpace data.["health_url"] in
  if String.eqb healthURL "" then (Some (missing_key ref "health_url"), w)
  else match send w "GET" healthURL (TrimSpace data.["dispatch_token"]) NoBody classifyDispatchError with
  | (Fail err, w) => (Some err, w)
  | (Ok answer, w) =>
      (if succeeded (rs_StatusCode answer) then None
       else Some (NewClassifiedError (classifyStatus (rs_StatusCode answer))
                    (Errorf ("probe backend " +:+ name +:+ ": unexpected status " +:+ pretty (rs_StatusCode answer) +:+
                             " for pool " +:+ pc_Name pool))), w)
  end end.

(** ** Cleanup *)

Definition cleanup_payload (status : AllocationStatus) : cleanupRequest :=
  let runnerLabel := TrimSpace (as_RunnerLabel status) in
  {| cq_Action := "cleanup"; cq_Backend := name; cq_AllocationID := as_ID status; cq_CorrelationID := TrimSpace (as_CorrelationID status);
     cq_Pool := as_Pool status; cq_RunnerLabel := if String.eqb runnerLabel "" then DefaultRunnerLabel name (as_ID status) else runnerLabel;
     cq_State := state_string (as_State status); cq_Error := TrimSpace (as_Error status); cq_Metadata := as_Metadata status |}.

(** A target without a cleanup endpoint has nothing to clean up. *)
Definition Cleanup w (status : AllocationStatus) : option error * World :=
  match resolvePool cfg (as_Pool status) with
  | Fail _ => (None, w)
  | Ok pool =>
  match pc_Backends pool !! name with
  | None => (None, w)
  | Some b =>
  let ref := TrimSpace (bc_SecretRef b) in
  if String.eqb ref "" then (None, w)
  else match ReadSecret w ref with
  | (Fail err, w) => (Some (secret_error ref err), w)
  | (Ok data, w) =>
  let cleanupURL := TrimSpace data.["cleanup_url"] in
  if String.eqb cleanupURL "" then (None, w)
  else match send w "POST" cleanupURL (TrimSpace data.["dispatch_token"]) (CleanupBody (cleanup_payload status)) classifyDispatchError with
  | (Fail err, w) => (Some err, w)
  | (Ok answer, w) =>
      (if succeeded (rs_StatusCode answer) || (rs_StatusCode answer =? 404) then None
       else match readErrorMessage answer with
       | Ok message => if String.eqb message "" then Some (Errorf ("cleanup backend " +:+ name +:+ ": unexpected status " +:+ pretty (rs_StatusCode answer)))
                       else Some (Errorf ("cleanup backend " +:+ name +:+ ": " +:+ message))
       | Fail _ => Some (Errorf ("cleanup backend " +:+ name +:+ ": unexpected status " +:+ pretty (rs_StatusCode answer)))
       end, w)
  end end end end.
End Driver.
End ExternalDispatch.
