(* ===== verification/DirectDrivers.v ===== *)
(** Drivers of runners that need no launcher: src/internal/backend/arc/backend.go,
    desktop/backend.go and azurevm/backend.go.

    Secrets, the network and the dialer are parameters; the desktop driver's state is
    the set of its active allocations. *)

From stdpp Require Import pretty.
From S2P Require Import Prelude Errors Model Backends Allocate GithubClient Kubernetes ExternalDispatch.
Open Scope Z_scope.
Open Scope go_scope.

(** The backend's entry in the first pool of that name. *)
Definition backendConfig (cfg : BrokerConfig) (name : BackendName) (poolName : PoolName) : option BackendConfig :=
  match List.find (fun pool => String.eqb (pc_Name pool) poolName) (bk_Pools cfg) with
  | Some pool => pc_Backends pool !! name
  | None => None
  end.

(** The label of a standing runner: configured, else the template, else the allocation's. *)
Definition runnerLabel (cfg : BrokerConfig) (name : BackendName) (poolName : PoolName) (allocationID : string) : string :=
  match backendConfig cfg name poolName with
  | Some b =>
      if negb (blank (bc_RunnerLabel b)) then TrimSpace (bc_RunnerLabel b)
      else if negb (blank (bc_Template b)) then TrimSpace (bc_Template b)
      else DefaultRunnerLabel name allocationID
  | None => DefaultRunnerLabel name allocationID
  end.

Module ARC.

Definition Provision (cfg : BrokerConfig) (request : AllocationRequest) (allocation : AllocationStatus) : provisioned_runner :=
  let label := runnerLabel cfg BackendARC (as_Pool allocation) (as_ID allocation) in
  {| pv_RunnerLabel := label;
     pv_Metadata := {[ "pool" := ar_Pool request; "capability" := "full"; "provisioner" := "arc-job"; "lifecycle" := "ephemeral";
                       "runner_label" := label; "supports_docker" := "true" ]} |}.

Definition arc_entries (cfg : BrokerConfig) : list BackendConfig := omap (fun pool => pc_Backends pool !! BackendARC) (bk_Pools cfg).

Definition configuredScale (cfg : BrokerConfig) : Z :=
  let total := foldl (fun total b => if negb (bc_Enabled b) || (bc_MaxRunners b <=? 0) then total else wrap64 (total + bc_MaxRunners b))
                 0 (arc_entries cfg) in
  if 0 <? total then total
  else match List.find (fun b => 0 <? bc_MaxRunners b) (arc_entries cfg) with
       | Some b => bc_MaxRunners b
       | None => 0
       end.

(** What the probe of capacity_url is given: secrets by name, and the answer of the feed
    at a URL with a token; the reader is None when there are no secrets. *)
Record Feed := {
  fd_Secret : option (string → result (gmap string string));
  fd_NewRequest : string → option error;
  fd_Do : string → string → result ExternalDispatch.response;
  fd_CapacityJSON : ExternalDispatch.response → result CapacityJSON;
}.

Section Capacity.
Context (fd : Feed) (cfg : BrokerConfig).

Definition getCapacityURL (capacityURL token : string) : result CapacityStatus :=
  match fd_NewRequest fd capacityURL with
  | Some err => Fail err
  | None =>
      match fd_Do fd capacityURL token with
      | Fail err => Fail (Wrapf ("capacity backend " +:+ BackendARC +:+ ": ") err "")
      | Ok answer =>
          if negb (ExternalDispatch.succeeded (ExternalDispatch.rs_StatusCode answer)) then
            Fail (Errorf ("capacity backend " +:+ BackendARC +:+ ": unexpected status " +:+ pretty (ExternalDispatch.rs_StatusCode answer)))
          else match fd_CapacityJSON fd answer with
          | Fail err => Fail (Wrapf ("decode backend " +:+ BackendARC +:+ " capacity response: ") err "")
          | Ok payload => Ok (CapacityStatusFromJSON payload)
          end
      end
  end.

(** The entries in turn, each secret once: the first feed that is named answers. *)
Fixpoint probe_entries (read : string → result (gmap string string)) (seen : list string) (lastReadErr : option error)
    (entries : list BackendConfig) : option (result CapacityStatus) :=
  match entries with
  | [] => match lastReadErr with Some err => Some (Fail err) | None => None end
  | b :: entries =>
      let ref := TrimSpace (bc_SecretRef b) in
      if String.eqb ref "" || existsb (String.eqb ref) seen then probe_entries read seen lastReadErr entries
      else match read ref with
      | Fail err => probe_entries read (ref :: seen) (Some (Wrapf ("read backend secret " +:+ ref +:+ ": ") err "")) entries
      | Ok data =>
          let capacityURL := TrimSpace data.["capacity_url"] in
          if String.eqb capacityURL "" then probe_entries read (ref :: seen) lastReadErr entries
          else Some (getCapacityURL capacityURL (TrimSpace data.["dispatch_token"]))
      end
  end.

(** None is not ok. *)
Definition probeCapacityURL : option (result CapacityStatus) :=
  match fd_Secret fd with
  | None => None
  | Some read => probe_entries read [] None (arc_entries cfg)
  end.

Definition Capacity : result CapacityStatus :=
  match probeCapacityURL with
  | Some answer => answer
  | None =>
      let maxRunners := configuredScale cfg in
      if maxRunners <=? 0 then Fail (Errorf ("backend " +:+ BackendARC +:+ " has no configured maxRunners"))
      else Ok { zero_CapacityStatus with cs_MaxRunners := maxRunners }
  end.
End Capacity.
End ARC.

Module Desktop.

(** The driver: its active set, and the sources of the active count; a function without
    arguments is its value. *)
Record Backend := {
  db_active : gset string;
  db_counter : option (PoolName → BackendName → Z);
  db_countFunc : option Z;
}.

Definition New : Backend := {| db_active := ∅; db_counter := None; db_countFunc := None |}.

Definition SetActiveCounter (b : Backend) (counter : option (PoolName → BackendName → Z)) : Backend := { b with db_counter := counter }.

Definition WithActiveCountFunc (b : Backend) (fn : option Z) : Backend := { b with db_countFunc := fn }.

Section Driver.
Context (cfg : BrokerConfig).
(** Whether a connection to the address succeeds. *)
Context (dial : string → bool).

Definition hostOnline (b : BackendConfig) : bool :=
  match bc_Desktop b with
  | None => true
  | Some host =>
      if blank (dk_Address host) || (dk_CheckPort host <=? 0) then true
      else dial (TrimSpace (dk_Address host) +:+ ":" +:+ pretty (dk_CheckPort host))
  end.

Definition Provision (d : Backend) (request : AllocationRequest) (allocation : AllocationStatus) : result provisioned_runner * Backend :=
  if negb (hostOnline (default zero_BackendConfig (backendConfig cfg BackendDesktop (as_Pool allocation)))) then
    (Fail (ProviderError (Errorf "desktop is offline") true), d)
  else
    let label := runnerLabel cfg BackendDesktop (as_Pool allocation) (as_ID allocation) in
    let id := TrimSpace (as_ID allocation) in
    let key := if String.eqb id "" then label else id in
    (Ok {| pv_RunnerLabel := label;
           pv_Metadata := {[ "pool" := ar_Pool request; "provisioner" := "desktop"; "runner_label" := label ]} |},
     if String.eqb key "" then d else { d with db_active := {[ key ]} ∪ db_active d }).

Definition remove_key (key : string) (active : gset string) : gset string :=
  if String.eqb (TrimSpace key) "" then active else active ∖ {[ TrimSpace key ]}.

Definition Cleanup (d : Backend) (allocation : AllocationStatus) : Backend :=
  { d with db_active := remove_key (as_RunnerLabel allocation) (remove_key (as_ID allocation) (db_active d)) }.

(** [ActiveCountFunc], for a counter. *)
Definition count_pools (counter : PoolName → BackendName → Z) : Z :=
  foldl (fun total pool => if bool_decide (is_Some (pc_Backends pool !! BackendDesktop))
                           then wrap64 (total + counter (pc_Name pool) BackendDesktop) else total) 0 (bk_Pools cfg).

Definition desktop_entries : list BackendConfig := omap (fun pool => pc_Backends pool !! BackendDesktop) (bk_Pools cfg).

Definition firstConfiguredPool : result BackendConfig :=
  match List.find bc_Enabled desktop_entries with
  | Some b => Ok b
  | None => match head desktop_entries with
            | Some b => Ok b
            | None => Fail (Errorf ("backend " +:+ BackendDesktop +:+ " is not configured"))
            end
  end.

Definition active_runners (d : Backend) : Z :=
  let n := match db_countFunc d with
           | Some n => n
           | None => match db_counter d with Some counter => count_pools counter | None => Z.of_nat (size (db_active d)) end
           end in
  if n <? 0 then 0 else n.

Definition Capacity (d : Backend) : result CapacityStatus :=
  let? b := firstConfiguredPool in
  let maxRunners := if bc_MaxRunners b <=? 0 then 1 else bc_MaxRunners b in
  let active := active_runners d in
  Ok { zero_CapacityStatus with cs_MaxRunners := maxRunners;
         cs_ActiveRunners := if hostOnline b then active else if maxRunners <? active then active else maxRunners }.
End Driver.
End Desktop.

Module AzureVM.

Definition Provision (cfg : BrokerConfig) (allocation : AllocationStatus) : result provisioned_runner :=
  match backendConfig cfg BackendAzureVM (as_Pool allocation) with
  | None => Fail (Errorf ("backend " +:+ BackendAzureVM +:+ " is not configured for pool " +:+ as_Pool allocation))
  | Some b =>
      let label := if blank (bc_RunnerLabel b) then TrimSpace (bc_Template b) else TrimSpace (bc_RunnerLabel b) in
      if String.eqb label "" then Fail (Errorf ("backend " +:+ BackendAzureVM +:+ " requires runnerLabel or template"))
      else Ok {| pv_RunnerLabel := label; pv_Metadata := {[ "provider" := BackendAzureVM; "runner_label" := label ]} |}
  end.
End AzureVM.
