(* ===== verification/ManagedRunners.v ===== *)
(** Standing runners leased by labels: src/internal/backend/azurevm/managed.go.

    A lease exists only as labels of the runner on GitHub: the routing labels it was
    given, an ownership proof for each of them, and a marker.  The GitHub client is the
    interface [RunnerClient], which the client of GithubClient.v implements. *)

From stdpp Require Import pretty.
From S2P Require Import Prelude Errors Model Sha256 Backends Allocate GithubClient DirectDrivers.
Open Scope Z_scope.
Open Scope go_scope.

(** Changes labels of runners, never a runner itself; a listing may come with an error. *)
Class RunnerClient (R : Type) := {
  rc_ListRunners : R → GitHubScope → (list GitHub.RunnerRegistration * option error) * R;
  rc_AddRunnerLabels : R → GitHubScope → Z → list string → option error * R;
  rc_RemoveRunnerLabel : R → GitHubScope → Z → string → option error * R;
}.

Definition github_runner_client (w : GitHub.Wire) : RunnerClient GitHub.Client :=
  {| rc_ListRunners := GitHub.ListRunners w;
     rc_AddRunnerLabels := fun c scope id labels =>
       let '(err, c) := GitHub.AddRunnerLabels w c scope id labels in (GitHub.api_err <$> err, c);
     rc_RemoveRunnerLabel := fun c scope id label =>
       let '(err, c) := GitHub.RemoveRunnerLabel w c scope id label in (GitHub.api_err <$> err, c) |}.

Module ManagedVM.

Definition leasePrefix : string := "uecb-azurevm-".
Definition LeaseStartedKey : string := "runner_lease_started_at".

Definition ownershipLabel (id label : string) : string :=
  "uecb-owned-" +:+ id +:+ "-" +:+ HexEncode (take 8 (Sum256 (octets_of (ToLower label)))).

Definition has_label (r : GitHub.RunnerRegistration) (label : string) : bool :=
  existsb (fun l => EqualFold l.1 label) (GitHub.ru_Labels r).

Definition leased (r : GitHub.RunnerRegistration) : bool :=
  existsb (fun l => HasPrefix (ToLower l.1) leasePrefix) (GitHub.ru_Labels r).

Definition allowed (c : AzureVMBackendConfig) (r : GitHub.RunnerRegistration) : bool :=
  existsb (fun name => EqualFold name (GitHub.ru_Name r)) (az_RunnerNames c).

Definition idle (c : AzureVMBackendConfig) (r : GitHub.RunnerRegistration) : bool :=
  allowed c r && String.eqb (GitHub.ru_Status r) "online" && negb (GitHub.ru_Busy r) && negb (leased r).

(** The labels to add, with those present so far in lower case. *)
Definition want (id : string) (acc : list string * list string) (label : string) : list string * list string :=
  let '(add, present) := acc in
  let label := TrimSpace label in
  if String.eqb label "" || existsb (String.eqb (ToLower label)) present then (add, present)
  else (add ++ [label; ownershipLabel id label], ToLower label :: present).

Definition lease_labels (id : string) (wanted : list string) (r : GitHub.RunnerRegistration) : list string :=
  (foldl (want id) ([], (fun l => ToLower l.1) <$> GitHub.ru_Labels r) wanted).1 ++ [leasePrefix +:+ id].

Section Driver.
Context {R : Type} `{!RunnerClient R} (cfg : BrokerConfig).
(** A nil client is not configured. *)
Context (configured : bool).
(** [time.Format] for RFC3339, in UTC and whole seconds. *)
Context (format_time : Time → string).
Implicit Types (c : R) (scope : GitHubScope) (allocation : AllocationStatus).

(** A listing that was cut at its page cap is used as it is. *)
Definition listRunners c scope : result (list GitHub.RunnerRegistration) * R :=
  let '((runners, err), c) := rc_ListRunners c scope in
  (match err with
   | Some err => if errors_Is err ErrPageCapReached then Ok runners else Fail err
   | None => Ok runners
   end, c).

Definition target (pool : PoolName) (repository : string) : result (AzureVMBackendConfig * GitHubScope) :=
  let missing := Fail (Errorf "managed azure-vm client/target is not configured") in
  match backendConfig cfg BackendAzureVM pool with
  | None => missing
  | Some b =>
      match bc_AzureVM b with
      | None => missing
      | Some az =>
          if negb configured then missing
          else if negb (String.eqb repository "") && negb (EqualFold repository (az_Repository az)) then
            Fail (Errorf ("managed azure-vm does not serve repository " +:+ quote repository))
          else let? scope := ForRepository (bk_Scope cfg) (az_Repository az) in Ok (az, scope)
      end
  end.

(** ** Cleanup *)

(** Labels of one runner in turn; the first error ends the cleanup. *)
Fixpoint remove_labels c scope (runnerID : Z) (labels : list string) : option error * R :=
  match labels with
  | [] => (None, c)
  | label :: labels =>
      match rc_RemoveRunnerLabel c scope runnerID label with
      | (Some err, c) => (Some err, c)
      | (None, c) => remove_labels c scope runnerID labels
      end
  end.

Definition is_proof (id : string) (l : string * string) : bool := HasPrefix (ToLower l.1) (ToLower ("uecb-owned-" +:+ id +:+ "-")).

Definition is_routing (id : string) (r : GitHub.RunnerRegistration) (l : string * string) : bool :=
  negb (is_proof id l) && negb (String.eqb l.2 "read-only") && has_label r (ownershipLabel id l.1).

Definition sorted_names (labels : list (string * string)) : list string := sort_stable string_ltb (labels.*1).

(** The labels of a lease on its runner, the marker last. *)
Definition lease_of (id : string) (r : GitHub.RunnerRegistration) : list string :=
  sorted_names (List.filter (is_routing id r) (GitHub.ru_Labels r)) ++
  sorted_names (List.filter (is_proof id) (GitHub.ru_Labels r)) ++ [leasePrefix +:+ id].

Fixpoint release_all (az : AzureVMBackendConfig) c scope (id : string) (runners : list GitHub.RunnerRegistration) : option error * R :=
  match runners with
  | [] => (None, c)
  | r :: runners =>
      if negb (allowed az r) || negb (has_label r (leasePrefix +:+ id)) then release_all az c scope id runners
      else match remove_labels c scope (GitHub.ru_ID r) (lease_of id r) with
           | (Some err, c) => (Some err, c)
           | (None, c) => release_all az c scope id runners
           end
  end.

Definition cleanupLocked c allocation scope (az : AzureVMBackendConfig) : option error * R :=
  match listRunners c scope with
  | (Fail err, c) => (Some err, c)
  | (Ok runners, c) => release_all az c scope (as_ID allocation) runners
  end.

Definition Cleanup c allocation : option error * R :=
  match target (as_Pool allocation) (TargetRepository allocation) with
  | Fail err => (Some err, c)
  | Ok (az, scope) => cleanupLocked c allocation scope az
  end.

(** ** Provision *)

Definition pool_labels (poolName : PoolName) : list string :=
  match List.find (fun pool => String.eqb (pc_Name pool) poolName) (bk_Pools cfg) with
  | Some pool => pc_Labels pool
  | None => []
  end.

Definition by_id (runners : list GitHub.RunnerRegistration) : list GitHub.RunnerRegistration :=
  sort_stable (fun x y => GitHub.ru_ID x <? GitHub.ru_ID y) runners.

Definition wanted_labels (request : AllocationRequest) allocation (r : GitHub.RunnerRegistration) : list string :=
  pool_labels (as_Pool allocation) ++ as_RequestedLabels allocation ++ ar_Labels request ++ [GitHub.ru_Name r].

(** The labels are added; on an error they are taken back, since they may have been applied. *)
Definition lease c (request : AllocationRequest) allocation scope (az : AzureVMBackendConfig) (r : GitHub.RunnerRegistration) (now : Time) :
    result provisioned_runner * R :=
  match rc_AddRunnerLabels c scope (GitHub.ru_ID r) (lease_labels (as_ID allocation) (wanted_labels request allocation r) r) with
  | (Some err, c) => (Fail err, (cleanupLocked c allocation scope az).2)
  | (None, c) =>
      (Ok {| pv_RunnerLabel := GitHub.ru_Name r;
             pv_Metadata := {[ "provider" := BackendAzureVM; "github_runner_id" := pretty (GitHub.ru_ID r);
                               LeaseStartedKey := format_time now ]} |}, c)
  end.

Definition Provision c (request : AllocationRequest) allocation (now : Time) : result provisioned_runner * R :=
  match target (as_Pool allocation) (TargetRepository allocation) with
  | Fail err => (Fail err, c)
  | Ok (az, scope) =>
      match listRunners c scope with
      | (Fail err, c) => (Fail err, c)
      | (Ok runners, c) =>
          match List.find (idle az) (by_id runners) with
          | Some r => lease c request allocation scope az r now
          | None => (Fail (ProviderError (Errorf "no online idle unleased managed azure-vm runner") true), c)
          end
      end
  end.

(** ** Capacity *)

Definition count_runner (az : AzureVMBackendConfig) (status : CapacityStatus) (r : GitHub.RunnerRegistration) : CapacityStatus :=
  if negb (allowed az r) || negb (String.eqb (GitHub.ru_Status r) "online") then status
  else
    { status with cs_MaxRunners := wrap64 (cs_MaxRunners status + 1);
                  cs_ActiveRunners := if GitHub.ru_Busy r || leased r then wrap64 (cs_ActiveRunners status + 1) else cs_ActiveRunners status }.

Definition managed_pool (pool : PoolConfig) : bool :=
  match pc_Backends pool !! BackendAzureVM with Some b => bool_decide (is_Some (bc_AzureVM b)) | None => false end.

Definition Capacity c : result CapacityStatus * R :=
  match List.find managed_pool (bk_Pools cfg) with
  | None => (Fail (Errorf "managed azure-vm target is not configured"), c)
  | Some pool =>
      match target (pc_Name pool) "" with
      | Fail err => (Fail err, c)
      | Ok (az, scope) =>
          match listRunners c scope with
          | (Fail err, c) => (Fail err, c)
          | (Ok runners, c) => (Ok (foldl (count_runner az) zero_CapacityStatus runners), c)
          end
      end
  end.
End Driver.

(** [New]: managed when some pool names a target. *)
Definition is_managed (cfg : BrokerConfig) : bool := existsb managed_pool (bk_Pools cfg).
End ManagedVM.
