(* ===== verification/ManagedBehaviour.v ===== *)
(** Leases of standing runners: a lease is exclusive, and its release gives the runner the
    labels back that it had. *)

From stdpp Require Import pretty.
From S2P Require Import Prelude Errors Model Sha256 Backends Allocate GithubClient DirectDrivers ManagedRunners.
Open Scope Z_scope.
Open Scope go_scope.
Import ManagedVM.

(** ** The runners as GitHub keeps them *)

Definition custom (label : string) : string * string := (label, "custom").

Definition add_to (runnerID : Z) (labels : list string) (fleet : list GitHub.RunnerRegistration) : list GitHub.RunnerRegistration :=
  (fun r => if GitHub.ru_ID r =? runnerID then { r with GitHub.ru_Labels := GitHub.ru_Labels r ++ (custom <$> labels) } else r) <$> fleet.

Definition keeps (label : string) (l : string * string) : bool := negb (EqualFold l.1 label).

Definition remove_from (runnerID : Z) (label : string) (fleet : list GitHub.RunnerRegistration) : list GitHub.RunnerRegistration :=
  (fun r => if GitHub.ru_ID r =? runnerID then { r with GitHub.ru_Labels := List.filter (keeps label) (GitHub.ru_Labels r) } else r) <$> fleet.

(** What the requests of a runner client do to the runners when they succeed. *)
Class LabelService (R : Type) `{!RunnerClient R} (fleet : R → list GitHub.RunnerRegistration) : Prop := {
  ls_list : ∀ c scope, ∃ c', rc_ListRunners c scope = ((fleet c, None), c') ∧ fleet c' = fleet c;
  ls_add : ∀ c scope id labels c', rc_AddRunnerLabels c scope id labels = (None, c') → fleet c' = add_to id labels (fleet c);
  ls_remove : ∀ c scope id label c', rc_RemoveRunnerLabel c scope id label = (None, c') → fleet c' = remove_from id label (fleet c);
}.

(** ** Text *)

Lemma ownership_is_proof id label kind : is_proof id (ownershipLabel id label, kind) = true.
Proof.
  unfold is_proof, ownershipLabel. cbn [fst]. change ("uecb-owned-" +:+ id +:+ "-" +:+ HexEncode (take 8 (Sum256 (octets_of (ToLower label)))))
    with ("uecb-owned-" +:+ (id +:+ ("-" +:+ HexEncode (take 8 (Sum256 (octets_of (ToLower label))))))).
  rewrite !ToLower_app, <- !string_app_assoc. apply HasPrefix_app.
Qed.

Lemma is_proof_fold id l l' : EqualFold l.1 l'.1 = true → is_proof id l = is_proof id l'.
Proof. unfold is_proof. by intros ->%EqualFold_true. Qed.

(** ** A lease *)

(** A lease's identifier is new to the runners: none carries its marker or a proof of it. *)
Definition fresh (id : string) (fleet : list GitHub.RunnerRegistration) : Prop :=
  ∀ r l, r ∈ fleet → l ∈ GitHub.ru_Labels r → is_proof id l = false ∧ EqualFold l.1 (leasePrefix +:+ id) = false.

(** The labels at hand have proofs of their own, and none looks like a proof or the marker. *)
Record distinct_proofs (id : string) (labels : list string) : Prop := {
  dp_injective : ∀ x y, x ∈ labels → y ∈ labels → EqualFold (ownershipLabel id x) (ownershipLabel id y) = true → EqualFold x y = true;
  dp_plain : ∀ x kind, x ∈ labels → is_proof id (x, kind) = false ∧ EqualFold x (leasePrefix +:+ id) = false;
}.

Lemma marker_not_proof id kind : is_proof id (leasePrefix +:+ id, kind) = false.
Proof. unfold is_proof. cbn [fst]. by rewrite !ToLower_app. Qed.

Section Want.
Context (id : string).

(** What [want] makes of wanted labels: pairs of a label and its proof. *)
Lemma want_spec wanted : ∀ add present,
  ∃ routed present', foldl (want id) (add, present) wanted = (add ++ (routed ≫= λ x, [x; ownershipLabel id x]), present') ∧
  (∀ x, x ∈ routed → (∃ y, y ∈ wanted ∧ x = TrimSpace y) ∧ ToLower x ∉ present).
Proof.
  induction wanted as [|label wanted IH]; intros add present; cbn [foldl].
  { exists [], present. cbn. rewrite app_nil_r. split; [done|]. intros x Hx. by apply elem_of_nil in Hx. }
  unfold want at 2. destruct (_ || _) eqn:Hskip.
  - destruct (IH add present) as (routed & present' & -> & Hr). exists routed, present'. split; [done|].
    intros x Hx. destruct (Hr x Hx) as [(y & Hy & ->) Hp]. split; [exists y; split; [by right|done]|done].
  - apply orb_false_elim in Hskip as [Hne Hp].
    destruct (IH (add ++ [TrimSpace label; ownershipLabel id (TrimSpace label)]) (ToLower (TrimSpace label) :: present)) as (routed & present' & -> & Hr).
    exists (TrimSpace label :: routed), present'. split; [by rewrite bind_cons, <- app_assoc|].
    intros x [->|Hx]%elem_of_cons.
    + split; [exists label; split; [by left|done]|]. intros Hin. apply not_true_iff_false in Hp. apply Hp, existsb_exists.
      eexists. split; [by apply list_elem_of_In|apply String.eqb_refl].
    + destruct (Hr x Hx) as [(y & Hy & ->) Hn]. split; [exists y; split; [by right|done]|]. intros Hin. apply Hn. by right.
Qed.
End Want.

Lemma has_label_spec r label : has_label r label = true ↔ ∃ l, l ∈ GitHub.ru_Labels r ∧ EqualFold l.1 label = true.
Proof. unfold has_label. rewrite existsb_exists. split; intros (l & Hl & He); exists l; split; try done; by apply list_elem_of_In. Qed.

Lemma sorted_names_elem x labels : x ∈ sorted_names labels ↔ ∃ l, l ∈ labels ∧ x = l.1.
Proof.
  unfold sorted_names. rewrite (sort_stable_perm string_ltb). rewrite list_elem_of_fmap. split; intros (l & H1 & H2); exists l; by split.
Qed.

Lemma lease_of_elem id r x :
  x ∈ lease_of id r ↔
  (∃ l, l ∈ GitHub.ru_Labels r ∧ is_routing id r l = true ∧ x = l.1) ∨ (∃ l, l ∈ GitHub.ru_Labels r ∧ is_proof id l = true ∧ x = l.1) ∨
  x = leasePrefix +:+ id.
Proof.
  unfold lease_of. rewrite !elem_of_app, !sorted_names_elem, list_elem_of_singleton. setoid_rewrite list_elem_of_In. setoid_rewrite filter_In.
  naive_solver.
Qed.

Section Release.
Context (id : string) (wanted : list string) (r : GitHub.RunnerRegistration).
Context (Hfresh : ∀ l, l ∈ GitHub.ru_Labels r → is_proof id l = false ∧ EqualFold l.1 (leasePrefix +:+ id) = false).
Context (Hproofs : distinct_proofs id ((TrimSpace <$> wanted) ++ (GitHub.ru_Labels r).*1)).

Definition leased_runner : GitHub.RunnerRegistration :=
  { r with GitHub.ru_Labels := GitHub.ru_Labels r ++ (custom <$> lease_labels id wanted r) }.

Lemma leased_runner_labels : GitHub.ru_Labels leased_runner = GitHub.ru_Labels r ++ (custom <$> lease_labels id wanted r).
Proof. done. Qed.

(** The added labels: routing labels the runner did not have, their proofs and the marker. *)
Lemma lease_labels_spec : ∃ routed : list string,
  (∀ y, y ∈ lease_labels id wanted r ↔ y ∈ routed ∨ (∃ z, z ∈ routed ∧ y = ownershipLabel id z) ∨ y = leasePrefix +:+ id) ∧
  (∀ z, z ∈ routed → z ∈ TrimSpace <$> wanted ∧ ∀ l, l ∈ GitHub.ru_Labels r → EqualFold l.1 z = false).
Proof.
  unfold lease_labels. destruct (want_spec id wanted [] ((fun l => ToLower l.1) <$> GitHub.ru_Labels r)) as (routed & present' & -> & Hr).
  exists routed. cbn [fst app]. split.
  - intros y. rewrite elem_of_app, list_elem_of_singleton, list_elem_of_bind. setoid_rewrite elem_of_cons. setoid_rewrite list_elem_of_singleton.
    naive_solver.
  - intros z Hz. destruct (Hr z Hz) as [(y & Hy & ->) Hn]. split; [by apply list_elem_of_fmap_2|]. intros l Hl.
    apply not_true_iff_false. intros He%EqualFold_true. apply Hn. rewrite <- He. by apply (list_elem_of_fmap_2 (λ l, ToLower l.1)).
Qed.

Lemma leased_labels_elem l : l ∈ GitHub.ru_Labels leased_runner ↔
  l ∈ GitHub.ru_Labels r ∨ (l.1 ∈ lease_labels id wanted r ∧ l.2 = "custom").
Proof.
  clear Hfresh Hproofs. rewrite leased_runner_labels, elem_of_app, list_elem_of_fmap. destruct l as [x kind]. cbn [fst snd]. unfold custom. naive_solver.
Qed.

(** A routing label of the release is one that was added. *)
Lemma routing_was_added l : l ∈ GitHub.ru_Labels leased_runner → is_routing id leased_runner l = true →
  l.1 = leasePrefix +:+ id ∨ ∀ l0, l0 ∈ GitHub.ru_Labels r → EqualFold l0.1 l.1 = false.
Proof.
  destruct lease_labels_spec as (routed & Hadded & Hrouted). intros Hl [[Hnp _]%andb_prop Hown]%andb_prop. apply negb_true_iff in Hnp.
  apply has_label_spec in Hown as (m & Hm & He). assert (Hmp : is_proof id m = true).
  { rewrite (is_proof_fold id m (ownershipLabel id l.1, "")) by done. apply ownership_is_proof. }
  assert (Hz : ∃ z, z ∈ routed ∧ m.1 = ownershipLabel id z).
  { apply leased_labels_elem in Hm as [Hm|[Hm _]]; [by destruct (Hfresh m Hm); congruence|]. destruct m as [x kind]; cbn [fst] in *.
    apply Hadded in Hm as [Hm|[Hz| ->]]; [|done|by rewrite marker_not_proof in Hmp].
    destruct (dp_plain _ _ Hproofs x kind) as [Hp _]; [|congruence]. apply elem_of_app. left. by apply Hrouted. }
  destruct Hz as (z & Hz & Hmz). rewrite Hmz in He. apply leased_labels_elem in Hl as [Hl|[Hl _]].
  - exfalso. destruct (Hrouted z Hz) as [Hw Hdiff]. assert (EqualFold z l.1 = true) as Heq.
    { apply (dp_injective _ _ Hproofs); [..|done]; apply elem_of_app; [by left|right]. by apply list_elem_of_fmap_2. }
    specialize (Hdiff l Hl). unfold EqualFold in *. rewrite String.eqb_sym in Heq. congruence.
  - apply Hadded in Hl as [Hl|[(z' & _ & Hl)|Hl]]; [right; intros l0 Hl0; by apply Hrouted| |by left].
    exfalso. destruct l as [x kind]. cbn [fst] in Hl. subst x. by rewrite ownership_is_proof in Hnp.
Qed.

Lemma released_keeps_old l : l ∈ GitHub.ru_Labels r → forallb (λ label, keeps label l) (lease_of id leased_runner) = true.
Proof.
  intros Hl. apply forallb_forall. intros x Hx%list_elem_of_In%lease_of_elem. unfold keeps. apply negb_true_iff. destruct (Hfresh l Hl) as [Hp Hm].
  destruct Hx as [(l' & Hl' & Hr & ->)|[(l' & Hl' & Hr & ->)| ->]]; [| |done].
  - destruct (routing_was_added l' Hl' Hr) as [->|Hd]; [done|by apply Hd].
  - apply not_true_iff_false. intros He. apply (is_proof_fold id) in He. congruence.
Qed.

Lemma released_drops_added y : y ∈ lease_labels id wanted r → forallb (λ label, keeps label (custom y)) (lease_of id leased_runner) = false.
Proof.
  destruct lease_labels_spec as (routed & Hadded & Hrouted). intros Hy. apply not_true_iff_false. rewrite forallb_forall. intros Hall.
  assert (Hin : y ∈ lease_of id leased_runner).
  2:{ apply list_elem_of_In, Hall in Hin. unfold keeps, custom in Hin. by rewrite EqualFold_refl in Hin. }
  assert (Hcustom : custom y ∈ GitHub.ru_Labels leased_runner) by (apply leased_labels_elem; by right).
  apply lease_of_elem. pose proof Hy as Hy'. apply Hadded in Hy' as [Hz|[(z & Hz & ->)| ->]]; [left|right; left|by right; right].
  - exists (custom y). split; [done|]. split; [|done]. unfold is_routing, custom. cbn [fst snd].
    destruct (dp_plain _ _ Hproofs y "custom") as [-> _]; [apply elem_of_app; left; by apply Hrouted|].
    change (has_label leased_runner (ownershipLabel id y) = true). apply has_label_spec. exists (custom (ownershipLabel id y)). split; [|apply EqualFold_refl]. apply leased_labels_elem. right.
    split; [|done]. apply Hadded. right. left. by exists y.
  - exists (custom (ownershipLabel id z)). split; [done|]. split; [apply ownership_is_proof|done].
Qed.

Lemma release_keeps_exactly :
  List.filter (λ l, forallb (λ label, keeps label l) (lease_of id leased_runner)) (GitHub.ru_Labels leased_runner) = GitHub.ru_Labels r.
Proof.
  rewrite leased_runner_labels, List.filter_app.
  rewrite (forallb_filter_id _ (GitHub.ru_Labels r)).
  2:{ apply forallb_forall. intros l Hl. by apply released_keeps_old, list_elem_of_In. }
  rewrite <- (app_nil_r (GitHub.ru_Labels r)) at 2. f_equal. pose proof released_drops_added as Hd. revert Hd.
  induction (lease_labels id wanted r) as [|y ys IH]; intros Hd; [done|]. cbn [fmap list_fmap List.filter].
  rewrite Hd by by left. apply IH. intros y' Hy'. apply Hd. by right.
Qed.
End Release.

(** ** Leasing and releasing *)

Lemma update_one {A} (key : A → Z) (g : A → A) pre x post :
  (∀ y, y ∈ pre ++ post → key y ≠ key x) →
  (λ r, if key r =? key x then g r else r) <$> (pre ++ x :: post) = pre ++ g x :: post.
Proof.
  intros Hne. rewrite fmap_app, fmap_cons, Z.eqb_refl. f_equal; [|f_equal].
  all: etrans; [|apply list_fmap_id]; apply list_fmap_ext; intros i y Hy%list_elem_of_lookup_2.
  all: assert (key y ≠ key x) as Hk by (apply Hne, elem_of_app; auto); by apply Z.eqb_neq in Hk as ->.
Qed.

Definition strip (labels : list string) (r : GitHub.RunnerRegistration) : GitHub.RunnerRegistration :=
  { r with GitHub.ru_Labels := List.filter (λ l, forallb (λ label, keeps label l) labels) (GitHub.ru_Labels r) }.

Lemma strip_nil r : strip [] r = r.
Proof. unfold strip. cbn. rewrite forallb_filter_id; [by destruct r|]. by apply forallb_forall. Qed.

Lemma strip_cons label labels r :
  strip labels { r with GitHub.ru_Labels := List.filter (keeps label) (GitHub.ru_Labels r) } = strip (label :: labels) r.
Proof.
  assert (Hf : ∀ ls, List.filter (λ l, forallb (λ label, keeps label l) (label :: labels)) ls =
                     List.filter (λ l, forallb (λ label, keeps label l) labels) (List.filter (keeps label) ls)).
  { induction ls as [|l ls IH]; [done|]. cbn. destruct (keeps label l); cbn; [destruct (forallb _ labels); [by f_equal|done]|done]. }
  unfold strip at 2. by rewrite Hf.
Qed.

Section Service.
Context {R : Type} `{!RunnerClient R} (fleet : R → list GitHub.RunnerRegistration) `{!LabelService R fleet}.
Context (cfg : BrokerConfig) (configured : bool) (format_time : Time → string).
Implicit Types (c : R) (scope : GitHubScope).

Lemma listRunners_spec c scope : ∃ c', listRunners c scope = (Ok (fleet c), c') ∧ fleet c' = fleet c.
Proof. destruct (ls_list c scope) as (c' & Hl & Hf). exists c'. unfold listRunners. by rewrite Hl. Qed.

Lemma remove_labels_spec scope pre r post labels : (∀ y, y ∈ pre ++ post → GitHub.ru_ID y ≠ GitHub.ru_ID r) → ∀ c c' r', 
  GitHub.ru_ID r' = GitHub.ru_ID r → fleet c = pre ++ r' :: post →
  remove_labels c scope (GitHub.ru_ID r) labels = (None, c') → fleet c' = pre ++ strip labels r' :: post.
Proof.
  intros Hne. induction labels as [|label labels IH]; intros c c' r' Hid Hf; cbn [remove_labels].
  { intros [= <-]. by rewrite strip_nil. }
  destruct (rc_RemoveRunnerLabel c scope (GitHub.ru_ID r) label) as [[err|] c1] eqn:Hr; [done|]. apply ls_remove in Hr.
  rewrite <- strip_cons. intros Hrest. eapply IH; [exact Hid| |exact Hrest]. rewrite Hr, Hf. unfold remove_from. rewrite <- Hid.
  apply (update_one GitHub.ru_ID (λ r, { r with GitHub.ru_Labels := List.filter (keeps label) (GitHub.ru_Labels r) })). intros y Hy. rewrite Hid. by apply Hne.
Qed.

(** Runners without the marker are passed over. *)
Lemma release_all_skip az c scope id others runners :
  (∀ r, r ∈ others → has_label r (leasePrefix +:+ id) = false) → release_all az c scope id (others ++ runners) = release_all az c scope id runners.
Proof.
  induction others as [|r others IH]; intros Ho; [done|]. cbn [app release_all]. rewrite Ho by by left. rewrite orb_true_r.
  apply IH. intros r' Hr'. apply Ho. by right.
Qed.

Lemma Provision_Ok c request allocation now runner c1 : Provision cfg configured format_time c request allocation now = (Ok runner, c1) →
  ∃ az scope r, target cfg configured (as_Pool allocation) (TargetRepository allocation) = Ok (az, scope) ∧ r ∈ fleet c ∧ idle az r = true ∧
    fleet c1 = add_to (GitHub.ru_ID r) (lease_labels (as_ID allocation) (wanted_labels cfg request allocation r) r) (fleet c) ∧
    pv_RunnerLabel runner = GitHub.ru_Name r.
Proof.
  unfold Provision. destruct (target _ _ _ _) as [[az scope]|]; [|done]. destruct (listRunners_spec c scope) as (c' & -> & Hc').
  destruct (List.find (idle az) (by_id (fleet c))) as [r|] eqn:Hfind; [|done]. apply find_some in Hfind as [Hin Hidle].
  unfold lease. destruct (rc_AddRunnerLabels _ _ _ _) as [[err|] c2] eqn:Ha; [done|]. apply ls_add in Ha. intros [= <- <-].
  exists az, scope, r. split; [done|]. split; [|by rewrite Ha, Hc'].
  unfold by_id in Hin. apply list_elem_of_In in Hin. by rewrite sort_stable_perm in Hin.
Qed.

Lemma fresh_unmarked id f r : fresh id f → r ∈ f → has_label r (leasePrefix +:+ id) = false.
Proof. intros Hf Hr. apply not_true_iff_false. intros (l & Hl & He)%has_label_spec. destruct (Hf r l Hr Hl) as [_ Hm]. congruence. Qed.

Lemma idle_allowed az r : idle az r = true → allowed az r = true.
Proof. unfold idle. by intros [[[? _]%andb_prop _]%andb_prop _]%andb_prop. Qed.

Lemma idle_unleased az r : idle az r = true → leased r = false.
Proof. unfold idle. by intros [_ ?%negb_true_iff]%andb_prop. Qed.

End Service.

(** ** Exclusion *)

Lemma leased_has_prefix id wanted r : leased (leased_runner id wanted r) = true.
Proof.
  unfold leased. apply existsb_exists. exists (custom (leasePrefix +:+ id)). split.
  - apply list_elem_of_In. rewrite leased_runner_labels. apply elem_of_app. right. apply list_elem_of_fmap_2, elem_of_app. right. by left.
  - cbn [custom fst]. rewrite ToLower_app. apply HasPrefix_app.
Qed.

Section Exclusion.
Context {R : Type} `{!RunnerClient R} (fleet : R → list GitHub.RunnerRegistration) `{!LabelService R fleet}.
Context (cfg : BrokerConfig) (configured : bool) (format_time : Time → string).

(** While its lease is not released, a runner is not given to another allocation. *)
Theorem leases_are_exclusive c request1 request2 allocation1 allocation2 now1 now2 runner1 runner2 c1 c2 :
  NoDup (GitHub.ru_Name <$> fleet c) →
  Provision cfg configured format_time c request1 allocation1 now1 = (Ok runner1, c1) →
  Provision cfg configured format_time c1 request2 allocation2 now2 = (Ok runner2, c2) →
  pv_RunnerLabel runner1 ≠ pv_RunnerLabel runner2.
Proof.
  intros Hnames Hp1 Hp2. apply (Provision_Ok fleet) in Hp1 as (az1 & scope1 & r1 & _ & Hr1 & _ & Hc1 & ->).
  apply (Provision_Ok fleet) in Hp2 as (az2 & scope2 & r2 & _ & Hr2 & Hidle & _ & ->).
  rewrite Hc1 in Hr2. apply list_elem_of_fmap_1 in Hr2 as (r0 & -> & Hr0). intros Hname. apply idle_unleased in Hidle.
  assert (r0 = r1) as ->.
  { apply list_elem_of_lookup in Hr0 as [i Hi], Hr1 as [j Hj]. assert (i = j) as ->; [|congruence].
    apply (NoDup_lookup (GitHub.ru_Name <$> fleet c) i j (GitHub.ru_Name r1)); [done|..]; rewrite list_lookup_fmap; [rewrite Hi|by rewrite Hj].
    cbn. f_equal. rewrite Hname. by destruct (_ =? _). }
  rewrite Z.eqb_refl in Hidle. pose proof (leased_has_prefix (as_ID allocation1) (wanted_labels cfg request1 allocation1 r1) r1) as Hl.
  unfold leased_runner in Hl. congruence.
Qed.
End Exclusion.

(** ** Instances *)

(** GitHub as a list of runners. *)
#[local] Instance listed_runners : RunnerClient (list GitHub.RunnerRegistration) :=
  {| rc_ListRunners := fun fleet _ => ((fleet, None), fleet);
     rc_AddRunnerLabels := fun fleet _ id labels => (None, add_to id labels fleet);
     rc_RemoveRunnerLabel := fun fleet _ id label => (None, remove_from id label fleet) |}.

#[local] Instance listed_service : LabelService (list GitHub.RunnerRegistration) (λ fleet, fleet).
Proof. split; [by eexists|..]; by intros ? ? ? ? ? [= <-]. Qed.

Definition distinct_proofsb (id : string) (labels : list string) : bool :=
  let pairs := (fun x => (x, ownershipLabel id x)) <$> labels in
  forallb (fun p => forallb (fun q => negb (EqualFold p.2 q.2) || EqualFold p.1 q.1) pairs &&
                    negb (is_proof id (p.1, "")) && negb (EqualFold p.1 (leasePrefix +:+ id))) pairs.

Lemma distinct_proofsb_sound id labels : distinct_proofsb id labels = true → distinct_proofs id labels.
Proof.
  unfold distinct_proofsb. cbv zeta. rewrite forallb_forall. intros Hall.
  assert (Hin : ∀ x, x ∈ labels → In (x, ownershipLabel id x) ((fun x => (x, ownershipLabel id x)) <$> labels)).
  { intros x Hx. by apply list_elem_of_In, (list_elem_of_fmap_2 (fun x => (x, ownershipLabel id x))). }
  split.
  - intros x y Hx%Hin Hy%Hin He. apply Hall in Hx as [[Hx _]%andb_prop _]%andb_prop. rewrite forallb_forall in Hx.
    apply Hx in Hy. cbn [fst snd] in Hy. by rewrite He in Hy.
  - intros x kind Hx%Hin. apply Hall in Hx as [[_ H1%negb_true_iff]%andb_prop H2%negb_true_iff]%andb_prop. done.
Qed.

Definition freshb (id : string) (fleet : list GitHub.RunnerRegistration) : bool :=
  forallb (fun r => forallb (fun l => negb (is_proof id l) && negb (EqualFold l.1 (leasePrefix +:+ id))) (GitHub.ru_Labels r)) fleet.

Lemma freshb_sound id fleet : freshb id fleet = true → fresh id fleet.
Proof.
  unfold freshb. rewrite forallb_forall. intros Hall r l Hr%list_elem_of_In%Hall Hl%list_elem_of_In. rewrite forallb_forall in Hr.
  apply Hr, andb_prop in Hl as [?%negb_true_iff ?%negb_true_iff]. done.
Qed.

Definition worker : GitHub.RunnerRegistration :=
  {| GitHub.ru_ID := 7; GitHub.ru_Name := "vm-1"; GitHub.ru_Status := "online"; GitHub.ru_Busy := false;
     GitHub.ru_Labels := [("self-hosted", "read-only"); ("vm-1", "custom"); ("gpu", "custom")] |}.
Definition workers : list GitHub.RunnerRegistration :=
  [{ worker with GitHub.ru_ID := 3; GitHub.ru_Name := "vm-0"; GitHub.ru_Busy := true }; worker].

Definition vm_backend : BackendConfig :=
  { zero_BackendConfig with bc_Enabled := true; bc_AzureVM := Some {| az_Repository := "acme/app"; az_RunnerNames := ["VM-0"; "vm-1"] |} }.
Definition vm_config : BrokerConfig :=
  { zero_BrokerConfig with
      bk_Scope := { zero_GitHubScope with gs_Type := GitHubScopeOwner; gs_Owner := "acme" };
      bk_Pools := [{ zero_PoolConfig with pc_Name := "full"; pc_Labels := ["full"]; pc_Backends := {[ BackendAzureVM := vm_backend ]} }] }.
Definition vm_job : AllocationStatus :=
  { zero_AllocationStatus with as_ID := "Ab1"; as_Pool := "full"; as_RequestedLabels := ["GPU"; " linux "]; as_Repository := "acme/app" }.

Definition leased_workers : list GitHub.RunnerRegistration :=
  (Provision vm_config true (fun _ => "") workers zero_AllocationRequest vm_job 0).2.
Definition vm_runner : provisioned_runner :=
  {| pv_RunnerLabel := "vm-1"; pv_Metadata := {[ "provider" := "azure-vm"; "github_runner_id" := "7"; LeaseStartedKey := "" ]} |}.

