(* ===== verification/Secrets.v ===== *)
(** Kubernetes access of the broker: src/internal/runtime/kubeapi.go, secrets.go and
    secret_cache.go.

    Environment variables, files, certificates, the network and base64 are parameters.
    The cache of secrets takes the time of each access; what other goroutines do to it
    while a secret is read is an argument of the read. *)

From stdpp Require Import pretty.
From S2P Require Import Prelude Errors Model GithubClient Kubernetes.
Open Scope Z_scope.
Open Scope go_scope.

Module Secrets.

(** ** The API client *)

Record KubernetesAPI := { ka_namespace : string; ka_baseURL : string; ka_token : string }.

(** [strings.TrimRight(s, "/")] *)
Definition NewKubernetesAPI (baseURL token namespace : string) : KubernetesAPI :=
  {| ka_namespace := namespace; ka_baseURL := Kubernetes.TrimRight "/" baseURL; ka_token := token |}.

(** The environment of the process: variables, service account files, and whether the
    CA file has a certificate. *)
Record Environment := {
  ev_Getenv : string → string;
  ev_ReadFile : string → result string;
  ev_HasCert : string → bool;
}.

Definition serviceAccountRoot : string := "/var/run/secrets/kubernetes.io/serviceaccount".

(** None: the broker does not run in Kubernetes. *)
Definition NewKubernetesAPIFromEnv (ev : Environment) : result (option KubernetesAPI) :=
  let namespace := TrimSpace (ev_Getenv ev "UECB_POD_NAMESPACE") in
  if String.eqb namespace "" then Ok None
  else
    let host := TrimSpace (ev_Getenv ev "KUBERNETES_SERVICE_HOST") in
    let port := TrimSpace (ev_Getenv ev "KUBERNETES_SERVICE_PORT") in
    if String.eqb host "" || String.eqb port "" then Fail (Errorf "kubernetes service host/port are not set")
    else match ev_ReadFile ev (serviceAccountRoot +:+ "/token") with
    | Fail err => Fail (Wrapf "read service account token: " err "")
    | Ok token =>
        match ev_ReadFile ev (serviceAccountRoot +:+ "/ca.crt") with
        | Fail err => Fail (Wrapf "read service account CA: " err "")
        | Ok ca =>
            if negb (ev_HasCert ev ca) then Fail (Errorf "append kubernetes service account CA cert")
            else Ok (Some (NewKubernetesAPI ("https://" +:+ host +:+ ":" +:+ port) (TrimSpace token) namespace))
        end
    end.

(** A request; [kr_Authorization] is empty without a token. *)
Record kube_request := { kr_Method : string; kr_URL : string; kr_Authorization : string; kr_Body : option any }.

(** A response; its body may fail to be read. *)
Record kube_response := { kp_StatusCode : Z; kp_Body : result string }.

(** The network, the JSON encoder's errors and the decoder of a secret. *)
Record Net := {
  nt_Encode : any → option error;
  nt_NewRequest : string → option error;
  nt_Do : kube_request → result kube_response;
  nt_SecretData : kube_response → result (gmap string string);
  nt_Base64 : string → result string;
}.

Section Client.
Context (nt : Net).
Implicit Types (k : KubernetesAPI).

Definition bearer (token : string) : string := "Bearer " +:+ token.

(** The status, the body and an error, as [Do] returns them. *)
Definition Do k (method path : string) (body : option any) : Z * string * option error :=
  match body ≫= nt_Encode nt with
  | Some err => (0, "", Some (Wrapf "encode kubernetes request: " err ""))
  | None =>
      let url := ka_baseURL k +:+ path in
      match nt_NewRequest nt url with
      | Some err => (0, "", Some err)
      | None =>
          match nt_Do nt {| kr_Method := method; kr_URL := url;
                            kr_Authorization := if String.eqb (ka_token k) "" then "" else bearer (ka_token k); kr_Body := body |} with
          | Fail err => (0, "", Some (Wrapf ("kubernetes " +:+ method +:+ " " +:+ path +:+ ": ") err ""))
          | Ok answer =>
              match kp_Body answer with
              | Fail err => (kp_StatusCode answer, "", Some (Wrapf ("read kubernetes " +:+ method +:+ " " +:+ path +:+ ": ") err ""))
              | Ok data => (kp_StatusCode answer, GitHub.limited (4 * 1048576) data, None)
              end
          end
      end
  end.

(** ** Secrets *)

Definition secretURL k (name : string) : string :=
  ka_baseURL k +:+ "/api/v1/namespaces/" +:+ GitHub.PathEscape (ka_namespace k) +:+ "/secrets/" +:+ GitHub.PathEscape name.

Definition query k (name : string) : result kube_response :=
  match nt_NewRequest nt (secretURL k name) with
  | Some err => Fail err
  | None =>
      match nt_Do nt {| kr_Method := "GET"; kr_URL := secretURL k name; kr_Authorization := bearer (ka_token k); kr_Body := None |} with
      | Fail err => Fail (Wrapf ("query kubernetes secret " +:+ name +:+ ": ") err "")
      | Ok answer => Ok answer
      end
  end.

(** The values in some order of their keys; the first bad one is the error. *)
Definition decode_value (decoded : result (gmap string string)) (entry : string * string) : result (gmap string string) :=
  let? decoded := decoded in
  match nt_Base64 nt entry.2 with
  | Fail err => Fail (Wrapf ("decode key " +:+ quote entry.1 +:+ ": ") err "")
  | Ok raw => Ok (<[entry.1 := raw]> decoded)
  end.

Definition decodeSecretResponse `{GoRange} (answer : kube_response) : result (gmap string string) :=
  let? data := nt_SecretData nt answer in foldl decode_value (Ok ∅) (range data).

Definition ReadSecret `{GoRange} k (name : string) : result (gmap string string) :=
  let? answer := query k name in
  if kp_StatusCode answer =? 200 then
    match decodeSecretResponse answer with
    | Fail err => Fail (Wrapf ("decode kubernetes secret " +:+ name +:+ ": ") err "")
    | Ok payload => Ok payload
    end
  else if kp_StatusCode answer =? 404 then Fail (Errorf ("kubernetes secret " +:+ name +:+ " not found"))
  else
    let body := match kp_Body answer with Ok body => body | Fail _ => "" end in
    Fail (Errorf ("query kubernetes secret " +:+ name +:+ ": unexpected status " +:+ pretty (kp_StatusCode answer) +:+ ": " +:+
                  TrimSpace (GitHub.limited 8192 body))).

Definition secretExists k (name : string) : result bool :=
  let? answer := query k name in
  if kp_StatusCode answer =? 200 then Ok true
  else if kp_StatusCode answer =? 404 then Ok false
  else Fail (Errorf ("query kubernetes secret " +:+ name +:+ ": unexpected status " +:+ pretty (kp_StatusCode answer))).

(** ** The health check *)

Definition add_ref (refs : gset string) (ref : string) : gset string :=
  if String.eqb (TrimSpace ref) "" then refs else {[ TrimSpace ref ]} ∪ refs.

Definition configured_refs `{GoRange} (cfg : BrokerConfig) : list string :=
  let broker := bk_Broker cfg in
  ga_SecretRef (bk_Auth cfg) ::
  (bk_Pools cfg ≫= fun pool => (fun b => bc_SecretRef b) <$> List.filter bc_Enabled ((range (pc_Backends pool)).*2)) ++
  (if tr_Enabled (br_TierRouting broker)
   then tp_SecretRef (tr_Prometheus (br_TierRouting broker)) :: (tv_SecretRef <$> (range (tr_Providers (br_TierRouting broker))).*2) else []) ++
  (if wc_Enabled (br_Webhooks broker) then we_SigningSecretRef <$> wc_Endpoints (br_Webhooks broker) else []).

Definition requiredSecretRefs `{GoRange} (cfg : BrokerConfig) : list string :=
  sort_stable string_ltb (elements (foldl add_ref ∅ (configured_refs cfg))).

Fixpoint missing_refs k (refs missing : list string) : result (list string) :=
  match refs with
  | [] => Ok missing
  | ref :: refs => let? found := secretExists k ref in missing_refs k refs (if found then missing else missing ++ [ref])
  end.

(** [SecretRefChecker.Check] *)
Definition Check k (refs : list string) : option error :=
  match missing_refs k refs [] with
  | Fail err => Some err
  | Ok [] => None
  | Ok missing => Some (Errorf ("missing required kubernetes secrets in namespace " +:+ ka_namespace k +:+ ": " +:+ Join missing ", "))
  end.

(** The readers and checkers that the package makes. *)
Inductive secret_reader := NoopReader | KubernetesReader (k : KubernetesAPI) | CachingReader (inner : secret_reader).
Inductive checker := NoopChecker | SecretRefChecker (k : KubernetesAPI) (refs : list string).

Definition NewSecretReaderFromEnv (ev : Environment) : result secret_reader :=
  let? api := NewKubernetesAPIFromEnv ev in
  match api with
  | None => Ok NoopReader
  | Some k => Ok (CachingReader (KubernetesReader k))
  end.

Definition NewSecretRefCheckerFromEnv `{GoRange} (ev : Environment) (cfg : BrokerConfig) : result checker :=
  let? client := NewSecretReaderFromEnv ev in
  match client with
  | KubernetesReader k => Ok (SecretRefChecker k (requiredSecretRefs cfg))
  | _ => Ok NoopChecker
  end.

Definition run_check (c : checker) : option error :=
  match c with NoopChecker => None | SecretRefChecker k refs => Check k refs end.
End Client.

(** ** The cache *)

Record CachingSecretReader := {
  cr_ttl : Duration;
  cr_timeout : Duration;
  cr_cache : gmap string (gmap string string * Time);
}.

Definition NewCachingSecretReader (ttl timeout : Duration) : CachingSecretReader :=
  {| cr_ttl := if ttl <=? 0 then 30 * Second else ttl; cr_timeout := if timeout <=? 0 then 5 * Second else timeout; cr_cache := ∅ |}.

(** The values of an entry that has not expired. *)
Definition cached (c : CachingSecretReader) (name : string) (now : Time) : option (gmap string string) :=
  match cr_cache c !! name with
  | Some (values, expiresAt) => if Before now expiresAt then Some values else None
  | None => None
  end.

Definition store_read (c : CachingSecretReader) (name : string) (values : gmap string string) (now : Time) : CachingSecretReader :=
  { c with cr_cache := <[name := (values, TimeAdd now (cr_ttl c))]> (cr_cache c) }.

(** A read that starts at [now]; the inner read ends at [later] with [inner], and the
    other goroutines make [others] of the cache meanwhile. *)
Definition ReadCached (c : CachingSecretReader) (name : string) (now later : Time) (inner : result (gmap string string))
    (others : CachingSecretReader → CachingSecretReader) : result (gmap string string) * CachingSecretReader :=
  match cached c name now with
  | Some values => (Ok values, c)
  | None =>
      let c := others c in
      match inner with
      | Fail err => (Fail err, c)
      | Ok values => (Ok values, store_read c name values later)
      end
  end.
End Secrets.
