(* ===== verification/DriversBehaviour.v ===== *)
(** What the launcher, ARC and desktop drivers and the secret readers do. *)

From stdpp Require Import pretty.
From S2P Require Import Prelude Errors Model Backends Allocate ServicePolicy GithubClient Kubernetes ExternalDispatch DirectDrivers Secrets.
Open Scope Z_scope.
Open Scope go_scope.

(** ** Launchers *)

Lemma Contains_true s word : Kubernetes.Contains s word = true ↔ ∃ pre post, s = pre +:+ word +:+ post.
Proof.
  unfold Kubernetes.Contains. rewrite bool_decide_eq_true. induction s as [|c s IH].
  - split; [destruct word; [by exists "", ""|by intros [? ?]]|]. intros ([|] & post & Hs); [|done]. by destruct word.
  - cbn [String.index]. destruct (String.prefix word (String c s)) eqn:Hp.
    { split; [|done]. intros _. apply prefix_spec in Hp as [post Hs]. by exists "", post. }
    split.
    + destruct (String.index 0 word s) eqn:Hi; [|by intros [? ?]]. intros _.
      destruct (proj1 IH) as (pre & post & ->); [done|]. by exists (String c pre), post.
    + intros ([|c' pre] & post & Hs); cbn in Hs.
      * exfalso. enough (String.prefix word (String c s) = true) by congruence. apply (prefix_spec (String c s) word). by exists post.
      * injection Hs as _ Hs. destruct (proj2 IH) as [n Hn]; [by exists pre, post|]. by rewrite Hn.
Qed.

(** What a launcher that has no room answers. *)
Definition says_full (status : Z) (message : string) : Prop :=
  status = 409 ∨ ∃ word pre post, word ∈ ["capacity"; "no free"; "no slot"] ∧ ToLower message = pre +:+ word +:+ post.

Lemma isCapacityStatus_spec status message : ExternalDispatch.isCapacityStatus status message = true ↔ says_full status message.
Proof.
  unfold ExternalDispatch.isCapacityStatus, says_full. cbv zeta. rewrite !orb_true_iff, Z.eqb_eq, !Contains_true. split.
  - intros [[[(pre & post & H)|(pre & post & H)]|(pre & post & H)]|H]; [right..|by left]; do 3 eexists; (split; [|exact H]); set_solver.
  - intros [H|(word & pre & post & Hw & H)]; [by right|]. left. apply elem_of_cons in Hw as [->|[->|[->|[]%elem_of_nil]%elem_of_cons]%elem_of_cons]; eauto.
Qed.

Section Launcher.
Context (la : ExternalDispatch.Launcher) (name : BackendName) (cfg : BrokerConfig).
Import ExternalDispatch.
Implicit Types (w : World).

(** The message of an answer; none when it cannot be read. *)
Definition message_of (answer : response) : string := match readErrorMessage la answer with Ok message => message | Fail _ => "" end.

Definition status_reason (status : Z) : option string :=
  if status =? 429 then Some FailureReasonThrottled else if 500 <=? status then Some FailureReasonServerError else None.

Lemma classified_reason status text :
  FailureReason (NewClassifiedError (classifyStatus status) (Errorf text)) = status_reason status ∧
  IsCapacityExhausted (Some (NewClassifiedError (classifyStatus status) (Errorf text))) = false.
Proof. unfold classifyStatus, status_reason. destruct (status =? 429); [done|]. by destruct (500 <=? status). Qed.

Lemma rejected_spec answer :
  IsCapacityExhausted (Some (rejected la name answer)) = isCapacityStatus (rs_StatusCode answer) (message_of answer) ∧
  FailureReason (rejected la name answer) =
    (if isCapacityStatus (rs_StatusCode answer) (message_of answer) then None else status_reason (rs_StatusCode answer)).
Proof.
  unfold rejected. fold (message_of answer). cbv zeta. destruct (isCapacityStatus _ _).
  - by destruct (String.eqb (message_of answer) "").
  - destruct (String.eqb (message_of answer) ""); split; apply classified_reason.
Qed.

Lemma unreachable_spec err : FailureReason (classifyDispatchError la name err) =
  Some (if errors_Is err DeadlineExceeded || la_Timeout la err then FailureReasonTimeout else FailureReasonTransport).
Proof. unfold classifyDispatchError. by destruct (_ || _). Qed.

(** How a dispatch that was sent ends. *)
Inductive dispatched (allocation : AllocationStatus) (dispatchURL targetURL : string) (sent : result response) : result provisioned_runner → Prop :=
  | dispatch_unreachable err err' : sent = Fail err →
      FailureReason err' = Some (if errors_Is err DeadlineExceeded || la_Timeout la err then FailureReasonTimeout else FailureReasonTransport) →
      dispatched allocation dispatchURL targetURL sent (Fail err')
  | dispatch_full answer err' : sent = Ok answer → ¬ 200 ≤ rs_StatusCode answer < 300 →
      says_full (rs_StatusCode answer) (message_of answer) → IsCapacityExhausted (Some err') = true → FailureReason err' = None →
      dispatched allocation dispatchURL targetURL sent (Fail err')
  | dispatch_refused answer err' : sent = Ok answer → ¬ 200 ≤ rs_StatusCode answer < 300 →
      ¬ says_full (rs_StatusCode answer) (message_of answer) → IsCapacityExhausted (Some err') = false →
      FailureReason err' = status_reason (rs_StatusCode answer) →
      dispatched allocation dispatchURL targetURL sent (Fail err')
  | dispatch_garbled answer err err' : sent = Ok answer → la_DispatchResponse la answer = Fail err → dispatched allocation dispatchURL targetURL sent (Fail err')
  | dispatch_done answer runner : sent = Ok answer → 200 ≤ rs_StatusCode answer < 300 → pv_RunnerLabel runner ≠ "" →
      (pv_Metadata runner).["dispatch_url"] = dispatchURL → (targetURL ≠ "" → (pv_Metadata runner).["target_url"] ≠ "") →
      dispatched allocation dispatchURL targetURL sent (Ok runner).

Lemma launched_spec allocation dispatchURL targetURL payload :
  let runner := launched name cfg allocation dispatchURL targetURL payload in
  pv_RunnerLabel runner ≠ "" ∧ (pv_Metadata runner).["dispatch_url"] = dispatchURL ∧ (targetURL ≠ "" → (pv_Metadata runner).["target_url"] ≠ "").
Proof.
  unfold launched. cbv zeta. cbn [pv_RunnerLabel pv_Metadata]. set (metadata := set_trimmed "execution_id" _ _). split_and!.
  - by destruct (String.eqb_spec (TrimSpace (ds_RunnerLabel payload)) "").
  - by rewrite map_read_insert_ne, map_read_insert_eq.
  - intros Hne. rewrite !map_read_insert_ne by done. destruct (String.eqb_spec (map_read metadata "target_url") ""); [by rewrite map_read_insert_eq|done].
Qed.

(** C17. A provisioning through a launcher sends at most one request: a dispatch of the allocation, for the scope
    of its repository, to the URL of the backend's secret, with its token.  Once sent, an unreachable launcher is a timeout or transport failure; a
    refusal is exhausted capacity exactly when its status or message says so, and otherwise throttled, a server
    error or unclassified by its status; a success names a runner and the dispatch URL. *)
Theorem dispatches_are_classified w request allocation :
  let '(answer, w') := Provision la name cfg w request allocation in
  (ew_sent w' = ew_sent w ∧ is_Ok answer = false) ∨
  ∃ pool b data scope targetURL,
    resolvePool cfg (as_Pool allocation) = Ok pool ∧ ForRepository (bk_Scope cfg) (TargetRepository allocation) = Ok scope ∧
    TargetURL scope = Ok targetURL ∧ pc_Backends pool !! name = Some b ∧ la_Secret la (ew_steps w) (TrimSpace (bc_SecretRef b)) = Ok data ∧
    let url := TrimSpace data.["dispatch_url"] in
    let token := TrimSpace data.["dispatch_token"] in
    let req := {| rq_Method := "POST"; rq_URL := url; rq_Backend := name;
                  rq_Authorization := if String.eqb token "" then "" else "Bearer " +:+ token;
                  rq_Body := DispatchBody (dispatch_payload name pool request allocation scope targetURL) |} in
    url ≠ "" ∧ ew_sent w' = ew_sent w ++ [req] ∧ dispatched allocation url targetURL (la_Do la (Datatypes.S (ew_steps w)) req) answer.
Proof.
  unfold Provision. destruct (resolvePool cfg _) as [pool|] eqn:Hpool; [|by left]. destruct (pc_Backends pool !! name) as [b|] eqn:Hb; [|by left].
  cbv zeta. destruct (String.eqb_spec (TrimSpace (bc_SecretRef b)) ""); [by left|]. unfold ReadSecret.
  destruct (la_Secret la (ew_steps w) _) as [data|] eqn:Hdata; [|by left].
  destruct (String.eqb_spec (TrimSpace data.["dispatch_url"]) "") as [|Hurl]; [by left|].
  destruct (ForRepository _ _) as [scope|] eqn:Hscope; [|by left]. destruct (TargetURL scope) as [targetURL|] eqn:Htarget; [|by left].
  unfold dispatch, send. destruct (la_NewRequest la _); cbv beta iota; [by left|]. cbn [ew_steps ew_sent].
  match goal with |- context [la_Do la ?n ?r] => set (req := r); destruct (la_Do la n req) as [answer|err] eqn:Hdo end; cbv beta iota;
    change (ew_steps { w with ew_steps := Datatypes.S (ew_steps w) }) with (Datatypes.S (ew_steps w)) in Hdo.
  2:{ right. exists pool, b, data, scope, targetURL. fold req. rewrite Hdo. do 7 (split; [done|]). eapply dispatch_unreachable; [done|apply unreachable_spec]. }
  right. exists pool, b, data, scope, targetURL. fold req. rewrite Hdo. do 7 (split; [done|]). unfold succeeded.
  destruct (Z.leb_spec 200 (rs_StatusCode answer)); [destruct (Z.ltb_spec (rs_StatusCode answer) 300)|]; cbn [andb negb].
  2,3: destruct (rejected_spec answer) as [Hcap Hreason]; destruct (isCapacityStatus _ _) eqn:Hstatus;
    [eapply dispatch_full|eapply dispatch_refused]; rewrite <- ?isCapacityStatus_spec, ?Hstatus; try done; lia.
  pose proof (launched_spec allocation (TrimSpace data.["dispatch_url"]) targetURL) as Hl. destruct (_ =? 0).
  { destruct (Hl zero_response) as (? & ? & ?). by apply (dispatch_done _ _ _ _ answer). }
  destruct (la_DispatchResponse la answer) as [payload|err] eqn:Hp; [|by eapply dispatch_garbled].
  destruct (Hl payload) as (? & ? & ?). by apply (dispatch_done _ _ _ _ answer).
Qed.
End Launcher.

(** ** ARC *)

Section ARC.
Context (fd : ARC.Feed) (cfg : BrokerConfig).

(** The entries whose secret is looked at: the first of each name. *)
Fixpoint first_refs (seen : list string) (entries : list BackendConfig) : list string :=
  match entries with
  | [] => []
  | b :: entries =>
      let ref := TrimSpace (bc_SecretRef b) in
      if String.eqb ref "" || existsb (String.eqb ref) seen then first_refs seen entries else ref :: first_refs (ref :: seen) entries
  end.

Definition names_feed (data : result (gmap string string)) : bool :=
  match data with Ok data => negb (blank data.["capacity_url"]) | Fail _ => false end.

(** The first secret that names a feed decides, and nothing is asked of the others. *)
Lemma probe_entries_spec read entries : ∀ seen lastReadErr,
  ARC.probe_entries fd read seen lastReadErr entries =
  match List.find (fun ref => names_feed (read ref)) (first_refs seen entries) with
  | Some ref => match read ref with
                | Ok data => Some (ARC.getCapacityURL fd (TrimSpace data.["capacity_url"]) (TrimSpace data.["dispatch_token"]))
                | Fail _ => None
                end
  | None => match foldl (fun last ref => match read ref with
                                         | Fail err => Some (Wrapf ("read backend secret " +:+ ref +:+ ": ") err "")
                                         | Ok _ => last
                                         end) lastReadErr (first_refs seen entries) with
            | Some err => Some (Fail err)
            | None => None
            end
  end.
Proof.
  induction entries as [|b entries IH]; intros seen lastReadErr; [done|]. cbn [ARC.probe_entries first_refs]. cbv zeta.
  destruct (_ || _); [apply IH|]. cbn [List.find foldl]. destruct (read (TrimSpace (bc_SecretRef b))) as [data|err] eqn:Hread; cbn [names_feed].
  - unfold blank. destruct (String.eqb _ "") eqn:Hurl; cbn [negb]; [apply IH|]. by rewrite Hread.
  - apply IH.
Qed.

(** The capacity of ARC is that of the first feed its secrets name, and otherwise the configured
    scale, unless a secret could not be read. *)
Theorem arc_capacity_prefers_the_feed read ref data : ARC.fd_Secret fd = Some read →
  List.find (fun ref => names_feed (read ref)) (first_refs [] (ARC.arc_entries cfg)) = Some ref → read ref = Ok data →
  ARC.Capacity fd cfg = ARC.getCapacityURL fd (TrimSpace data.["capacity_url"]) (TrimSpace data.["dispatch_token"]).
Proof. intros Hs Hf Hr. unfold ARC.Capacity, ARC.probeCapacityURL. by rewrite Hs, probe_entries_spec, Hf, Hr. Qed.
End ARC.

(** ** The desktop *)

Section Desktop.
Context (cfg : BrokerConfig) (dial : string → bool).
Import Desktop.

Inductive desktop_op := Launch (request : AllocationRequest) (allocation : AllocationStatus) | End (allocation : AllocationStatus).

Definition desktop_step (d : Backend) (o : desktop_op) : Backend :=
  match o with
  | Launch request allocation => (Provision cfg dial d request allocation).2
  | End allocation => Cleanup d allocation
  end.

Definition op_id (o : desktop_op) : string := match o with Launch _ allocation | End allocation => TrimSpace (as_ID allocation) end.

(** The allocations that were launched and not ended since. *)
Definition held_step (held : gset string) (o : desktop_op) : gset string :=
  match o with
  | Launch request allocation =>
      if is_Ok (Provision cfg dial New request allocation).1 then {[ TrimSpace (as_ID allocation) ]} ∪ held else held
  | End allocation => held ∖ {[ TrimSpace (as_ID allocation) ]}
  end.

(** Identifiers are not blank, and no runner label of an ended allocation is an identifier of [ids]. *)
Definition op_ok (ids : list string) (o : desktop_op) : Prop :=
  op_id o ≠ "" ∧ op_id o ∈ ids ∧ match o with Launch _ _ => True | End allocation => TrimSpace (as_RunnerLabel allocation) ∉ ids end.

(** The active set is that of the launched allocations. *)
Theorem desktop_counts_its_allocations ids ops :
  (∀ o, o ∈ ops → op_ok ids o) → ∀ d, (∀ id, id ∈ db_active d → id ∈ ids) →
  db_active (foldl desktop_step d ops) = foldl held_step (db_active d) ops.
Proof.
  induction ops as [|o ops IH]; intros Hok d Hd; [done|]. cbn [foldl].
  destruct (Hok o) as (Hid & Hin & Hlabel); [by left|].
  assert (Hstep : db_active (desktop_step d o) = held_step (db_active d) o).
  { destruct o as [request allocation|allocation]; cbn [desktop_step held_step op_id] in *; apply String.eqb_neq in Hid as Hid'.
    - unfold Provision. destruct (negb _); [done|]. cbv zeta. rewrite Hid'. cbn [fst snd is_Ok]. by rewrite Hid'.
    - unfold Cleanup, remove_key. cbn. rewrite Hid'. destruct (String.eqb (TrimSpace (as_RunnerLabel allocation)) ""); [done|].
      assert (TrimSpace (as_RunnerLabel allocation) ∉ db_active d) by (intros Hx; by apply Hlabel, Hd).
      clear -H. set_solver. }
  rewrite IH, Hstep; [done| |].
  - intros o' Ho'. apply Hok. by right.
  - intros id. rewrite Hstep. destruct o as [request allocation|allocation]; cbn [held_step op_id] in *.
    + destruct (is_Ok _); [rewrite elem_of_union, elem_of_singleton|]; naive_solver.
    + rewrite elem_of_difference. naive_solver.
Qed.

(** A host that is off has no free slot; one that is on has its maximum less the active runners. *)
Theorem desktop_free_slots d b : firstConfiguredPool cfg = Ok b → bc_MaxRunners b ≤ max_int64 → active_runners cfg d ≤ max_int64 →
  ∃ status, Capacity cfg dial d = Ok status ∧
  FreeSlots status = if hostOnline dial b then Z.max 0 (Z.max 1 (bc_MaxRunners b) - active_runners cfg d) else 0.
Proof.
  intros Hb Hmax Hact. unfold Capacity. rewrite Hb. eexists. split; [done|]. set (m := if bc_MaxRunners b <=? 0 then 1 else bc_MaxRunners b).
  assert (Hm : m = Z.max 1 (bc_MaxRunners b)) by (unfold m; destruct (Z.leb_spec (bc_MaxRunners b) 0); lia).
  assert (H0 : 0 ≤ active_runners cfg d) 
    by (unfold active_runners; cbv zeta; match goal with |- context [?n <? 0] => destruct (Z.ltb_spec n 0) end; lia).
  unfold FreeSlots, used_slots. cbn. rewrite !Z.add_0_r.
  assert (max_int64 = 2 ^ 63 - 1) as Hmi by done. assert (1 ≤ max_int64) by by vm_compute.
  destruct (hostOnline dial b).
  - rewrite (wrap64_id (active_runners cfg d)) by (unfold in_int64, min_int64; lia).
    rewrite wrap64_id by (unfold in_int64, min_int64; lia). destruct (Z.ltb_spec (m - active_runners cfg d) 0); lia.
  - destruct (Z.ltb_spec m (active_runners cfg d)).
    + rewrite (wrap64_id (active_runners cfg d)) by (unfold in_int64, min_int64; lia).
      rewrite wrap64_id by (unfold in_int64, min_int64; lia). by destruct (Z.ltb_spec (m - active_runners cfg d) 0); [|lia].
    + rewrite (wrap64_id m) by (unfold in_int64, min_int64; lia). by rewrite Z.sub_diag.
Qed.
End Desktop.

(** ** Secrets *)

Section Secrets.
Context `{GoRange} (nt : Secrets.Net).
Import Secrets.

(** What the cache was filled with: the reads that ended, latest first. *)
Inductive filled : CachingSecretReader → list (string * gmap string string * Time) → Prop :=
  | filled_new ttl timeout : filled (NewCachingSecretReader ttl timeout) []
  | filled_read c h name values later : filled c h → filled (store_read c name values later) ((name, values, later) :: h).

Lemma cached_is_recent c h name now values : filled c h → cached c name now = Some values →
  ∃ t, (name, values, t) ∈ h ∧ now < t + cr_ttl c.
Proof.
  unfold cached. induction 1 as [|c h name' values' later Hf IH]; [done|]. cbn. destruct (decide (name = name')) as [->|].
  - rewrite lookup_insert_eq. destruct (Before _ _) eqn:Hb; [|done]. intros [= ->]. exists later. split; [by left|]. by apply Z.ltb_lt in Hb.
  - rewrite lookup_insert_ne by done. intros Hc. destruct (IH Hc) as (t & Ht & Hlt). exists t. split; [by right|done].
Qed.

(** A secret is what the inner reader gives now or gave less than a TTL ago, whatever other readers do meanwhile. *)
Theorem cached_secrets_are_recent c h name now later inner others values c' :
  filled c h → (∀ c h, filled c h → ∃ h', filled (others c) (h' ++ h)) →
  ReadCached c name now later inner others = (Ok values, c') →
  (∃ h', filled c' (h' ++ h)) ∧ (inner = Ok values ∨ ∃ t, (name, values, t) ∈ h ∧ now < t + cr_ttl c).
Proof.
  intros Hf Ho. unfold ReadCached. destruct (cached c name now) as [hit|] eqn:Hc.
  - intros [= -> <-]. split; [by exists []|]. right. by eapply cached_is_recent.
  - destruct (Ho c h Hf) as (h' & Hf'). destruct inner as [read|]; [|done]. intros [= -> <-]. split; [|by left].
    exists ((name, values, later) :: h'). by apply filled_read.
Qed.

Lemma missing_refs_spec k refs : ∀ missing,
  missing_refs nt k refs missing = Ok [] ↔ missing = [] ∧ ∀ ref, ref ∈ refs → secretExists nt k ref = Ok true.
Proof.
  induction refs as [|ref refs IH]; intros missing; cbn [missing_refs].
  { split; [intros [= ->]; split; [done|]; intros ? ?%elem_of_nil; done|by intros [-> _]]. }
  destruct (secretExists nt k ref) as [[]|err] eqn:He.
  - rewrite IH. setoid_rewrite elem_of_cons. naive_solver.
  - rewrite IH. setoid_rewrite elem_of_cons. split; [intros [Hm _]; by destruct missing|]. intros [_ Hall]. specialize (Hall ref (or_introl eq_refl)). congruence.
  - split; [done|]. intros [_ Hall]. specialize (Hall ref). rewrite He in Hall. by discriminate Hall; left.
Qed.

(** The checker of required secrets is satisfied exactly when all of them exist. *)
Theorem check_is_exact k refs : Check nt k refs = None ↔ ∀ ref, ref ∈ refs → secretExists nt k ref = Ok true.
Proof.
  unfold Check. pose proof (missing_refs_spec k refs []) as Hm. destruct (missing_refs nt k refs []) as [[|ref missing]|err].
  - split; [|done]. intros _. by apply Hm.
  - split; [done|]. intros Hall. assert (Ok (ref :: missing) = Ok []) by (by apply Hm). done.
  - split; [done|]. intros Hall. assert (Fail err = Ok ([] : list string)) by (by apply Hm). done.
Qed.

(** The broker stays ready without its secrets: whatever the environment, the configuration and the cluster,
    the check that it installs for the secrets it requires succeeds without asking for one, since the reader it
    finds is the cached one. *)
Theorem required_secrets_are_never_checked ev cfg c : NewSecretRefCheckerFromEnv ev cfg = Ok c → run_check nt c = None.
Proof.
  unfold NewSecretRefCheckerFromEnv, NewSecretReaderFromEnv. destruct (NewKubernetesAPIFromEnv ev) as [[k|]|err]; [| |done]; by intros [= <-].
Qed.
End Secrets.

(** ** Instances *)

#[local] Existing Instance range_forward.

(** A broker in a cluster that has none of its secrets. *)
Definition in_cluster : Secrets.Environment :=
  {| Secrets.ev_Getenv := fun name => if String.eqb name "UECB_POD_NAMESPACE" then "uecb" else "10.0.0.1";
     Secrets.ev_ReadFile := fun path => Ok "token"; Secrets.ev_HasCert := fun _ => true |}.
Definition no_secrets : Secrets.Net :=
  {| Secrets.nt_Encode := fun _ => None; Secrets.nt_NewRequest := fun _ => None;
     Secrets.nt_Do := fun _ => Ok {| Secrets.kp_StatusCode := 404; Secrets.kp_Body := Ok "" |};
     Secrets.nt_SecretData := fun _ => Ok ∅; Secrets.nt_Base64 := Ok |}.
Definition with_token_secret : BrokerConfig := { zero_BrokerConfig with bk_Auth := {| ga_Mode := ""; ga_SecretRef := "github-token" |} }.

Lemma required_secrets_are_never_checked_witness :
  Secrets.requiredSecretRefs with_token_secret = ["github-token"] ∧
  Secrets.Check no_secrets {| Secrets.ka_namespace := "uecb"; Secrets.ka_baseURL := ""; Secrets.ka_token := "" |} ["github-token"] =
    Some (Errorf "missing required kubernetes secrets in namespace uecb: github-token") ∧
  Secrets.NewSecretRefCheckerFromEnv in_cluster with_token_secret = Ok Secrets.NoopChecker ∧ Secrets.run_check no_secrets Secrets.NoopChecker = None.
Proof.
  split; [by vm_compute|]. split; [by vm_compute|]. assert (Hc : Secrets.NewSecretRefCheckerFromEnv in_cluster with_token_secret = Ok Secrets.NoopChecker) by by vm_compute.
  split; [exact Hc|]. exact (required_secrets_are_never_checked no_secrets in_cluster with_token_secret Secrets.NoopChecker Hc).
Defined.

(** Labels that differ in case are kept apart for launchers, and are one for runner pods. *)
Example labels_differ_in_case :
  ExternalDispatch.combineLabels ["Linux"] ["linux"] "r" = ["Linux"; "linux"; "r"] ∧ Kubernetes.runnerLabels ["Linux"] ["linux"] "r" = ["Linux"; "r"].
Proof. by vm_compute. Qed.

(** A launcher that is at capacity. *)
Definition full_launcher : ExternalDispatch.Launcher :=
  {| ExternalDispatch.la_Secret := fun _ _ => Ok {[ "dispatch_url" := "https://launcher"; "dispatch_token" := " t " ]};
     ExternalDispatch.la_NewRequest := fun _ => None;
     ExternalDispatch.la_Do := fun _ _ => Ok {| ExternalDispatch.rs_StatusCode := 503; ExternalDispatch.rs_ContentLength := -1;
                                                ExternalDispatch.rs_Body := Ok "No free slots" |};
     ExternalDispatch.la_Timeout := fun _ => false; ExternalDispatch.la_DispatchResponse := fun _ => Ok ExternalDispatch.zero_response;
     ExternalDispatch.la_CapacityJSON := fun _ => Fail (Errorf ""); ExternalDispatch.la_ErrorField := fun _ => None |}.
Definition ec2_config : BrokerConfig :=
  { zero_BrokerConfig with
      bk_Scope := { zero_GitHubScope with gs_Type := GitHubScopeOrganization; gs_Organization := "acme" };
      bk_Pools := [{ zero_PoolConfig with pc_Name := "full"; pc_Backends := {[ BackendEC2 := { zero_BackendConfig with bc_SecretRef := "ec2" } ]} }] }.

Example full_launcher_is_exhausted :
  let '(answer, w) := ExternalDispatch.Provision full_launcher BackendEC2 ec2_config {| ExternalDispatch.ew_steps := 0; ExternalDispatch.ew_sent := [] |}
                        { zero_AllocationRequest with ar_JobTimeout := Hour } { zero_AllocationStatus with as_ID := "1"; as_Pool := "full" } in
  answer = Fail (ProviderError (Errorf "dispatch backend ec2: No free slots") true) ∧
  (ExternalDispatch.rq_URL <$> ExternalDispatch.ew_sent w) = ["https://launcher"] ∧
  (ExternalDispatch.rq_Authorization <$> ExternalDispatch.ew_sent w) = ["Bearer t"].
Proof. by vm_compute. Qed.
