(* ===== verification/Postgres.v ===== *)
(** The shared allocation store: src/internal/store/postgres.go.

    Every operation is a program of SQL statements, with its transaction and its error
    paths.  The database server is an interface: what a session of it answers, and what
    its documentation says of each statement under READ COMMITTED, the isolation that the
    store leaves in place.  JSON texts, environment variables and the opening of the
    connection are parameters. *)

From S2P Require Import Prelude Errors Model Store.
Open Scope Z_scope.
Open Scope go_scope.

Module Postgres.

(** ** The tables and the statements *)

(** A row of uecb_allocations, without its id and the columns that are never read. *)
Record Row := {
  rw_WorkflowJobID : option Z;
  rw_Pool : string;
  rw_Backend : string;
  rw_State : string;
  rw_Tenant : string;
  rw_Payload : string;
}.

(** A row of uecb_leader_leases, without its name. *)
Record Lease := { le_Holder : string; le_ExpiresAt : Time }.

(** A row of uecb_webhook_inbox, without its id; the payload as its JSONB column gives it
    back. *)
Record InboxRow := {
  ir_DeliveryID : string;
  ir_Payload : list Byte.byte;
  ir_Attempts : Z;
  ir_LockedUntil : Time;
  ir_ReceivedAt : Time;
}.

Record Tables := {
  tb_Allocations : gmap string Row;
  tb_Leases : gmap string Lease;
  tb_Admission : option string;
  tb_Inbox : gmap Z InboxRow;
  (* the last value of the BIGSERIAL sequence *)
  tb_InboxSequence : Z;
}.

(** The WHERE clause of a count; the state is one of the accounted ones. *)
Record Where := {
  wh_Pool : option string;
  wh_Backend : option string;
  wh_Tenant : option string;
  wh_NotID : option string;
}.

(** The statements, with the type of their answers. *)
Inductive statement : Type → Type :=
  | Begin : statement unit
  | Commit : statement unit
  | Rollback : statement unit
  (* INSERT ... ON CONFLICT (id) DO UPDATE *)
  | UpsertAllocation (id : string) (row : Row) : statement unit
  | DeleteAllocation (id : string) : statement unit
  | SelectPayload (id : string) : statement (option string)
  | SelectPayloadForUpdate (id : string) : statement (option string)
  (* the rows that were read, and the error that ended them early *)
  | SelectPayloads : statement (list (string * string) * option error)
  | CountAllocations (w : Where) : statement Z
  | SelectLeaseForUpdate (name : string) : statement (option Lease)
  | InsertLease (name : string) (lease : Lease) : statement unit
  | UpdateLease (name : string) (lease : Lease) : statement unit
  | DeleteLease (name holder : string) : statement unit
  | SelectAdmission : statement (option string)
  | UpsertAdmission (payload : string) : statement unit
  (* INSERT ... ON CONFLICT (delivery_id) DO NOTHING *)
  | InsertWebhook (deliveryID : string) (payload : list Byte.byte) : statement unit
  (* UPDATE ... WHERE id IN (SELECT ... ORDER BY id LIMIT FOR UPDATE SKIP LOCKED) RETURNING *)
  | LockWebhooks (microseconds limit : Z) : statement (list Memory.WebhookDelivery)
  | DeleteWebhook (id : Z) : statement unit.

(** A program of statements; an answer is an error or a value. *)
Inductive program (A : Type) : Type :=
  | Ret (a : A)
  | Ask {X : Type} (q : statement X) (k : result X → program A).
Arguments Ret {A}.
Arguments Ask {A X}.

Definition error_of {X} (answer : result X) : option error := match answer with Ok _ => None | Fail err => Some err end.

(** [defer tx.Rollback()] of a transaction that is not committed. *)
Definition rollback {A} (a : A) : program A := Ask Rollback (fun _ => Ret a).

(** A transaction: [failed] when it cannot begin. *)
Definition transaction {A} (failed : error → A) (body : program A) : program A :=
  Ask Begin (fun answer => match answer with Ok _ => body | Fail err => Ret (failed err) end).

Definition commit {A} (finish : option error → A) : program A := Ask Commit (fun answer => Ret (finish (error_of answer))).

(** ** The store *)

(** JSON texts of the records that the store keeps, as the JSONB columns give them back. *)
Record Codec := {
  co_Marshal : AllocationStatus → result string;
  co_Unmarshal : string → result AllocationStatus;
  co_MarshalDoc : AdmissionStateDocument → result string;
  co_UnmarshalDoc : string → result AdmissionStateDocument;
}.

Definition resolvePostgresDSN (Getenv : string → string) (cfg : StateStoreConfig) : result string :=
  let dsn := TrimSpace (ss_DSN cfg) in
  if negb (String.eqb dsn "") then Ok dsn
  else
    let envName := TrimSpace (ss_DSNEnv cfg) in
    let envName := if String.eqb envName "" then "UECB_STATE_STORE_DSN" else envName in
    let dsn := TrimSpace (Getenv envName) in
    if negb (String.eqb dsn "") then Ok dsn
    else Fail (Errorf ("broker.stateStore.dsn or env " +:+ envName +:+ " is required when type is postgres")).

(** What opening, pinging and migrating a database report. *)
Record Connection := {
  cn_Open : string → option error;
  cn_Ping : string → option error;
  cn_Migrate : string → option error;
}.

(** The name of the database that is used. *)
Definition NewPostgres (Getenv : string → string) (cn : Connection) (cfg : StateStoreConfig) : result string :=
  let? dsn := resolvePostgresDSN Getenv cfg in
  match cn_Open cn dsn with
  | Some err => Fail (Wrapf "open postgres state store: " err "")
  | None =>
      match cn_Ping cn dsn with
      | Some err => Fail (Wrapf "ping postgres state store: " err "")
      | None =>
          match cn_Migrate cn dsn with
          | Some err => Fail (Wrapf "migrate postgres state store: " err "")
          | None => Ok dsn
          end
      end
  end.

Definition allocationWorkflowJobID (status : AllocationStatus) : option Z :=
  match as_Request status with
  | None => None
  | Some request => if ar_WorkflowJobID request =? 0 then None else Some (ar_WorkflowJobID request)
  end.

Definition row_of (status : AllocationStatus) (payload : string) : Row :=
  {| rw_WorkflowJobID := allocationWorkflowJobID status; rw_Pool := as_Pool status; rw_Backend := as_SelectedBackend status;
     rw_State := state_string (as_State status); rw_Tenant := normalizeTenant (as_Tenant status); rw_Payload := payload |}.

Section Store.
Context (co : Codec).

Definition wrap_error (pre : string) {X} (answer : result X) : option error :=
  match answer with Ok _ => None | Fail err => Some (Wrapf pre err "") end.

Definition Save (status : AllocationStatus) : program (option error) :=
  match co_Marshal co status with
  | Fail err => Ret (Some (Wrapf "encode allocation: " err ""))
  | Ok payload => Ask (UpsertAllocation (as_ID status) (row_of status payload)) (fun answer => Ret (wrap_error "save allocation: " answer))
  end.

Definition Delete (id : string) : program (option error) :=
  Ask (DeleteAllocation id) (fun answer => Ret (wrap_error "delete allocation: " answer)).

Definition decoded (payload : string) : option AllocationStatus :=
  match co_Unmarshal co payload with Ok status => Some status | Fail _ => None end.

Definition Get (id : string) : program (option AllocationStatus) :=
  Ask (SelectPayload id) (fun answer =>
    Ret (match answer with Ok (Some payload) => decoded payload | _ => None end)).

Definition List : program (list AllocationStatus) :=
  Ask SelectPayloads (fun answer => Ret (match answer with Ok (rows, _) => omap (fun row => decoded row.2) rows | Fail _ => [] end)).

(** [getForUpdate] in a transaction: an error and a missing record end it. *)
Definition getForUpdate {A} (id : string) (failed : error → A) (missing : A) (k : AllocationStatus → program A) : program A :=
  Ask (SelectPayloadForUpdate id) (fun answer =>
    match answer with
    | Fail err => rollback (failed err)
    | Ok None => rollback missing
    | Ok (Some payload) =>
        match co_Unmarshal co payload with
        | Fail err => rollback (failed err)
        | Ok status => k status
        end
    end).

Definition saveTx {A} (status : AllocationStatus) (failed : error → A) (k : program A) : program A :=
  match co_Marshal co status with
  | Fail err => rollback (failed err)
  | Ok payload =>
      Ask (UpsertAllocation (as_ID status) (row_of status payload)) (fun answer =>
        match answer with Fail err => rollback (failed err) | Ok _ => k end)
  end.

Definition MarkState (id : string) (state : AllocationState) (now : Time) (message : string) : program (option AllocationStatus) :=
  let failed := fun _ : error => None in
  transaction failed (getForUpdate id failed None (fun status =>
    let status := applyMarkState status state now message in
    saveTx status failed (commit (fun err => if err is Some _ then None else Some status)))).

Definition CompareAndMarkState (id : string) (expectedFrom to : AllocationState) (now : Time) (message : string) :
    program (option AllocationStatus) :=
  let failed := fun _ : error => None in
  transaction failed (getForUpdate id failed None (fun status =>
    if negb (state_eqb (as_State status) expectedFrom) then rollback None
    else
      let status := applyMarkState status to now message in
      saveTx status failed (commit (fun err => if err is Some _ then None else Some status)))).

Definition SaveIfState (status : AllocationStatus) (expectedFrom : AllocationState) : program (result bool) :=
  transaction Fail (getForUpdate (as_ID status) Fail (Ok false) (fun current =>
    if negb (state_eqb (as_State current) expectedFrom) then rollback (Ok false)
    else saveTx status Fail (commit (fun err => match err with Some err => Fail err | None => Ok true end)))).

(** One of the limits: a count that reaches it ends the transaction. *)
Definition check_limit (limit : Z) (w : Where) (text : string) (k : program (option error)) : program (option error) :=
  if 0 <? limit then
    Ask (CountAllocations w) (fun answer =>
      match answer with
      | Fail err => rollback (Some (Wrapf text err ""))
      | Ok active => if limit <=? active then rollback (Some (Sentinel StoreErrNoCapacity)) else k
      end)
  else k.

Definition where_active (pool : PoolName) (backend : BackendName) (notID : option string) : Where :=
  {| wh_Pool := Some pool; wh_Backend := Some backend; wh_Tenant := None; wh_NotID := notID |}.

Definition where_backend (backend : BackendName) (notID : option string) : Where :=
  {| wh_Pool := None; wh_Backend := Some backend; wh_Tenant := None; wh_NotID := notID |}.

Definition where_tenant (pool : PoolName) (tenant : string) (notID : option string) : Where :=
  {| wh_Pool := Some pool; wh_Backend := None; wh_Tenant := Some (normalizeTenant tenant); wh_NotID := notID |}.

Definition SaveIfCapacity (status : AllocationStatus) (maxRunners tenantQuota backendLimit : Z) : program (option error) :=
  transaction Some (
    check_limit maxRunners (where_active (as_Pool status) (as_SelectedBackend status) (Some (as_ID status))) "count active allocations: " (
    check_limit backendLimit (where_backend (as_SelectedBackend status) (Some (as_ID status))) "count backend allocations: " (
    check_limit tenantQuota (where_tenant (as_Pool status) (as_Tenant status) (Some (as_ID status))) "count tenant allocations: " (
    saveTx status Some (commit id))))).

(** A count that fails is none. *)
Definition count (w : Where) : program Z :=
  Ask (CountAllocations w) (fun answer => Ret (match answer with Ok active => active | Fail _ => 0 end)).

Definition CountActive (pool : PoolName) (backend : BackendName) : program Z := count (where_active pool backend None).

Definition CountBackendActive (backend : BackendName) : program Z := count (where_backend backend None).

Definition CountTenantActive (pool : PoolName) (tenant : string) : program Z := count (where_tenant pool tenant None).

(** Each record on its own; the first error ends the pruning. *)
Fixpoint delete_each (ids : list string) (deleted : Z) : program (Z * option error) :=
  match ids with
  | [] => Ret (deleted, None)
  | id :: ids =>
      Ask (DeleteAllocation id) (fun answer =>
        match answer with
        | Fail err => Ret (deleted, Some (Wrapf "delete allocation: " err ""))
        | Ok _ => delete_each ids (deleted + 1)
        end)
  end.

Definition prunable_ids (cutoff : Time) (rows : list (string * string)) : list string :=
  omap (fun row => match decoded row.2 with
                   | Some status => if prunable cutoff status then Some row.1 else None
                   | None => None
                   end) rows.

Definition PruneTerminal (now : Time) (retention : Duration) : program (Z * option error) :=
  if retention <=? 0 then Ret (0, None)
  else
    Ask SelectPayloads (fun answer =>
      match answer with
      | Fail err => Ret (0, Some (Wrapf "list allocations for prune: " err ""))
      | Ok (_, Some err) => Ret (0, Some err)
      | Ok (rows, None) => delete_each (prunable_ids (TimeAdd now (- retention)) rows) 0
      end).

(** [now] is the reading of time.Now inside the call. *)
Definition TryAcquireLeadership (name identity : string) (ttl : Duration) (now : Time) : program (bool * option error) :=
  let ttl := if ttl <=? 0 then 15 * Second else ttl in
  let failed := fun err => (false, Some err) in
  let lease := {| le_Holder := identity; le_ExpiresAt := TimeAdd now ttl |} in
  let acquire := fun q : statement unit =>
    Ask q (fun answer => match answer with
                         | Fail err => rollback (failed err)
                         | Ok _ => commit (fun err => (true, err))
                         end) in
  transaction failed (Ask (SelectLeaseForUpdate name) (fun answer =>
    match answer with
    | Fail err => rollback (failed err)
    | Ok None => acquire (InsertLease name lease)
    | Ok (Some held) =>
        if After (le_ExpiresAt held) now && negb (String.eqb (le_Holder held) identity) then rollback (false, None)
        else acquire (UpdateLease name lease)
    end)).

Definition ReleaseLeadership (name identity : string) : program (option error) :=
  Ask (DeleteLease name identity) (fun answer => Ret (error_of answer)).

Definition LoadAdmissionState : program (result AdmissionStateDocument) :=
  Ask SelectAdmission (fun answer =>
    Ret (match answer with
         | Fail err => Fail err
         | Ok None => Ok zero_AdmissionStateDocument
         | Ok (Some payload) => co_UnmarshalDoc co payload
         end)).

Definition SaveAdmissionState (doc : AdmissionStateDocument) : program (option error) :=
  match co_MarshalDoc co doc with
  | Fail err => Ret (Some err)
  | Ok payload => Ask (UpsertAdmission payload) (fun answer => Ret (error_of answer))
  end.

Definition EnqueueWebhook (deliveryID : string) (payload : list Byte.byte) : program (option error) :=
  Ask (InsertWebhook deliveryID payload) (fun answer => Ret (wrap_error "enqueue webhook: " answer)).

Definition ClaimWebhooks (limit : Z) (lease : Duration) : program (result (list Memory.WebhookDelivery)) :=
  let limit := if limit <=? 0 then 50 else limit in
  Ask (LockWebhooks (Z.quot lease 1000) limit) (fun answer =>
    Ret (match answer with
         | Fail err => Fail (Wrapf "claim webhooks: " err "")
         | Ok out => Ok (sort_stable (fun a b => Memory.wd_ID a <? Memory.wd_ID b) out)
         end)).

Definition AckWebhook (id : Z) : program (option error) :=
  Ask (DeleteWebhook id) (fun answer => Ret (wrap_error "ack webhook: " answer)).
End Store.

(** ** The database server *)

(** What a transaction has written to a table keyed by text, not yet committed, and the
    rows that it has locked. *)
Record Part (V : Type) := { pt_Rows : gmap string (option V); pt_Locks : gset string }.
Arguments pt_Rows {V}.
Arguments pt_Locks {V}.

Definition no_part {V} : Part V := {| pt_Rows := ∅; pt_Locks := ∅ |}.

(** A statement sees the rows committed before it and those of its own transaction. *)
Definition seen {V} (p : Part V) (committed : gmap string V) : gmap string V :=
  merge (fun own row => match own with Some written => written | None => row end) (pt_Rows p) committed.

Definition lock_row {V} (p : Part V) (key : string) : Part V := {| pt_Rows := pt_Rows p; pt_Locks := {[ key ]} ∪ pt_Locks p |}.

Definition write_row {V} (p : Part V) (key : string) (row : option V) : Part V :=
  {| pt_Rows := <[key := row]> (pt_Rows p); pt_Locks := {[ key ]} ∪ pt_Locks p |}.

Record Transaction := { tx_Allocations : Part Row; tx_Leases : Part Lease; tx_Aborted : bool }.

Definition fresh : Transaction := {| tx_Allocations := no_part; tx_Leases := no_part; tx_Aborted := false |}.

(** An error ends what a transaction holds; it waits for its ROLLBACK. *)
Definition aborted : Transaction := {| tx_Allocations := no_part; tx_Leases := no_part; tx_Aborted := true |}.

(** The open transactions by session. *)
Record Database := { db_Tables : Tables; db_Open : gmap nat Transaction; db_Now : Time }.

Definition publish (tx : Transaction) (tables : Tables) : Tables :=
  { tables with tb_Allocations := seen (tx_Allocations tx) (tb_Allocations tables); tb_Leases := seen (tx_Leases tx) (tb_Leases tables) }.

Definition locked_in {V} (part : Transaction → Part V) (others : gmap nat Transaction) (key : string) : bool :=
  existsb (fun kv => bool_decide (key ∈ pt_Locks (part kv.2))) (map_to_list others).

Definition same_job (row row' : Row) : bool :=
  match rw_WorkflowJobID row, rw_WorkflowJobID row' with Some job, Some job' => job =? job' | _, _ => false end.

(** The unique index on workflow_job_id: another row has the job, or an open transaction
    has written a row that has or had it. *)
Definition job_taken (rows : gmap string Row) (id : string) (row : Row) : bool :=
  existsb (fun kv => negb (String.eqb kv.1 id) && same_job kv.2 row) (map_to_list rows).

Definition job_pending (committed : gmap string Row) (others : gmap nat Transaction) (id : string) (row : Row) : bool :=
  existsb (fun other =>
    existsb (fun kv => negb (String.eqb kv.1 id) &&
                       ((match kv.2 with Some written => same_job written row | None => false end) ||
                        (match committed !! kv.1 with Some old => same_job old row | None => false end)))
      (map_to_list (pt_Rows (tx_Allocations other.2)))) (map_to_list others).

Definition is_or_any (want : option string) (value : string) : bool :=
  match want with None => true | Some want => String.eqb value want end.

Definition in_where (w : Where) (id : string) (row : Row) : bool :=
  is_or_any (wh_Pool w) (rw_Pool row) && is_or_any (wh_Backend w) (rw_Backend row) && is_or_any (wh_Tenant w) (rw_Tenant row) &&
  existsb (String.eqb (rw_State row)) ["reserved"; "ready"; "warm"] &&
  negb (match wh_NotID w with Some notID => String.eqb id notID | None => false end).

Definition violation (text : string) : error := Errorf ("duplicate key value violates unique constraint " +:+ text).

(** TIMESTAMPTZ keeps microseconds. *)
Definition timestamp (t : Time) : Time := t - t mod 1000.

Definition timestamped (lease : Lease) : Lease := {| le_Holder := le_Holder lease; le_ExpiresAt := timestamp (le_ExpiresAt lease) |}.

(** The first deliveries by id that no lease covers. *)
Definition unlocked (now : Time) (limit : Z) (inbox : gmap Z InboxRow) : list Z :=
  take (Z.to_nat limit) (sort_stable Z.ltb ((List.filter (fun kv => ir_LockedUntil kv.2 <=? now) (map_to_list inbox)).*1)).

Definition relock (until : Time) (row : InboxRow) : InboxRow :=
  { row with ir_Attempts := ir_Attempts row + 1; ir_LockedUntil := until }.

Definition delivery_of (kv : Z * InboxRow) : Memory.WebhookDelivery :=
  {| Memory.wd_ID := kv.1; Memory.wd_DeliveryID := ir_DeliveryID kv.2; Memory.wd_Payload := ir_Payload kv.2;
     Memory.wd_Attempts := ir_Attempts kv.2; Memory.wd_ReceivedAt := ir_ReceivedAt kv.2 |}.

(** A statement in a transaction [tx] with the other transactions that are open: None
    waits.  The admission state and the inbox are not part of any transaction. *)
Definition within `{GoRange} (epoch now : Time) (others : gmap nat Transaction) (tables : Tables) (tx : Transaction) {X} (q : statement X) :
    option (result X * Transaction * Tables) :=
  let rows := seen (tx_Allocations tx) (tb_Allocations tables) in
  let leases := seen (tx_Leases tx) (tb_Leases tables) in
  let with_row := fun id row => { tx with tx_Allocations := write_row (tx_Allocations tx) id row } in
  let with_lease := fun name lease => { tx with tx_Leases := write_row (tx_Leases tx) name lease } in
  let put_inbox := fun inbox => { tables with tb_Inbox := inbox } in
  match q in statement X return option (result X * Transaction * Tables) with
  | Begin | Commit | Rollback => Some (Ok tt, tx, tables)
  | UpsertAllocation id row =>
      if locked_in tx_Allocations others id || job_pending (tb_Allocations tables) others id row then None
      else if job_taken rows id row then Some (Fail (violation "uecb_allocations_workflow_job_id_idx"), tx, tables)
      else Some (Ok tt, with_row id (Some row), tables)
  | DeleteAllocation id =>
      if locked_in tx_Allocations others id then None else Some (Ok tt, with_row id None, tables)
  | SelectPayload id => Some (Ok (rw_Payload <$> rows !! id), tx, tables)
  | SelectPayloadForUpdate id =>
      if locked_in tx_Allocations others id then None
      else Some (Ok (rw_Payload <$> rows !! id),
                 if rows !! id is Some _ then { tx with tx_Allocations := lock_row (tx_Allocations tx) id } else tx, tables)
  | SelectPayloads => Some (Ok ((fun kv => (kv.1, rw_Payload kv.2)) <$> range rows, None), tx, tables)
  | CountAllocations w => Some (Ok (count_map (in_where w) rows), tx, tables)
  | SelectLeaseForUpdate name =>
      if locked_in tx_Leases others name then None
      else Some (Ok (leases !! name), if leases !! name is Some _ then { tx with tx_Leases := lock_row (tx_Leases tx) name } else tx, tables)
  | InsertLease name lease =>
      if locked_in tx_Leases others name then None
      else if leases !! name is Some _ then Some (Fail (violation "uecb_leader_leases_pkey"), tx, tables)
      else Some (Ok tt, with_lease name (Some (timestamped lease)), tables)
  | UpdateLease name lease =>
      if locked_in tx_Leases others name then None
      else if leases !! name is Some _ then Some (Ok tt, with_lease name (Some (timestamped lease)), tables)
      else Some (Ok tt, tx, tables)
  | DeleteLease name holder =>
      if locked_in tx_Leases others name then None
      else if leases !! name is Some lease
      then Some (Ok tt, if String.eqb (le_Holder lease) holder then with_lease name None else tx, tables)
      else Some (Ok tt, tx, tables)
  | SelectAdmission => Some (Ok (tb_Admission tables), tx, tables)
  | UpsertAdmission payload => Some (Ok tt, tx, { tables with tb_Admission := Some payload })
  | InsertWebhook deliveryID payload =>
      let next := tb_InboxSequence tables + 1 in
      let tables := { tables with tb_InboxSequence := next } in
      Some (Ok tt, tx,
            if existsb (fun kv => String.eqb (ir_DeliveryID kv.2) deliveryID) (map_to_list (tb_Inbox tables)) then tables
            else { tables with tb_Inbox := <[next := {| ir_DeliveryID := deliveryID; ir_Payload := payload; ir_Attempts := 0;
                                                        ir_LockedUntil := epoch; ir_ReceivedAt := timestamp now |}]> (tb_Inbox tables) })
  | LockWebhooks microseconds limit =>
      let ids := unlocked now limit (tb_Inbox tables) in
      let inbox := foldl (fun inbox id => alter (relock (timestamp now + microseconds * 1000)) id inbox) (tb_Inbox tables) ids in
      Some (Ok (omap (fun id => (fun row => delivery_of (id, row)) <$> inbox !! id) ids), tx, put_inbox inbox)
  | DeleteWebhook id => Some (Ok tt, tx, put_inbox (delete id (tb_Inbox tables)))
  end.

Definition no_transaction : error := Errorf "commit unexpectedly resulted in rollback".
Definition in_failed_transaction : error := Errorf "current transaction is aborted, commands ignored until end of transaction block".

(** A statement of a session that does not end or begin a transaction: outside of one it
    is a transaction of its own. *)
Definition ordinary `{GoRange} (epoch : Time) (db : Database) (s : nat) {X} (q : statement X) : option (result X * Database) :=
  let others := delete s (db_Open db) in
  match db_Open db !! s with
  | None =>
      match within epoch (db_Now db) others (db_Tables db) fresh q with
      | None => None
      | Some (Fail err, _, _) => Some (Fail err, db)
      | Some (Ok x, tx, tables) => Some (Ok x, { db with db_Tables := publish tx tables })
      end
  | Some tx =>
      if tx_Aborted tx then Some (Fail in_failed_transaction, db)
      else match within epoch (db_Now db) others (db_Tables db) tx q with
      | None => None
      | Some (Fail err, _, _) => Some (Fail err, { db with db_Open := <[s := aborted]> (db_Open db) })
      | Some (Ok x, tx, tables) => Some (Ok x, { db with db_Tables := tables; db_Open := <[s := tx]> (db_Open db) })
      end
  end.

Definition execute `{GoRange} (epoch : Time) (db : Database) (s : nat) {X} (q : statement X) : option (result X * Database) :=
  let closed := { db with db_Open := delete s (db_Open db) } in
  match q in statement X return option (result X * Database) with
  | Begin => Some (Ok tt, match db_Open db !! s with
                          | Some _ => db
                          | None => { db with db_Open := <[s := fresh]> (db_Open db) }
                          end)
  | Commit => match db_Open db !! s with
              | None => Some (Ok tt, db)
              | Some tx => if tx_Aborted tx then Some (Fail no_transaction, closed)
                           else Some (Ok tt, { closed with db_Tables := publish tx (db_Tables db) })
              end
  | Rollback => Some (Ok tt, closed)
  | q => ordinary epoch db s q
  end.

(** What is left when a statement fails without its effect: a transaction that it was in
    is over, or waits for its end. *)
Definition failed_in (db : Database) (s : nat) {X} (q : statement X) : Database :=
  match q with
  | Begin => db
  | Commit | Rollback => { db with db_Open := delete s (db_Open db) }
  | _ => match db_Open db !! s with
         | Some _ => { db with db_Open := <[s := aborted]> (db_Open db) }
         | None => db
         end
  end.

(** Whether the effect of a statement lasts once it is done. *)
Definition settles (db : Database) (s : nat) {X} (q : statement X) : bool :=
  match q with
  | Begin | Rollback => false
  | Commit => true
  | _ => bool_decide (db_Open db !! s = None)
  end.

(** A statement may fail before its effect, and its answer may be lost after it. *)
Inductive fails `{GoRange} (epoch : Time) (db : Database) (s : nat) {X} (q : statement X) : Database → Prop :=
  | fails_before : fails epoch db s q (failed_in db s q)
  | fails_after x db' : settles db s q = true → execute epoch db s q = Some (Ok x, db') → fails epoch db s q db'.

(** The rows of an answer may be cut short by an error. *)
Definition cut_short {X} (q : statement X) : X → X → Prop :=
  match q in statement X return X → X → Prop with
  | SelectPayloads => fun all read => read.1 `prefix_of` all.1 ∧ is_Some read.2
  | _ => fun _ _ => False
  end.

(** The documented answer, or an error of a server that may be [faulty]. *)
Definition answers `{GoRange} (epoch : Time) (faulty : Prop) (db : Database) (s : nat) {X} (q : statement X) (answer : result X) (db' : Database) : Prop :=
  execute epoch db s q = Some (answer, db') ∨
  (faulty ∧ ((∃ err, answer = Fail err ∧ fails epoch db s q db') ∨
             (∃ all read, answer = Ok read ∧ cut_short q all read ∧ execute epoch db s q = Some (Ok all, db')))).

(** A server: what its sessions are answered (None waits for a lock), and its data. *)
Class Server (D : Type) := {
  sv_exec : ∀ {X}, D → nat → statement X → option (result X * D);
  sv_database : D → Database;
}.

(** It answers as documented, or fails if it is [faulty], and waits only for locks. *)
Class ServerLaws `{GoRange} (epoch : Time) (faulty : Prop) (D : Type) `{!Server D} := {
  exec_answers {X} d s (q : statement X) answer d' :
    sv_exec d s q = Some (answer, d') → answers epoch faulty (sv_database d) s q answer (sv_database d');
  exec_waits {X} d s (q : statement X) : sv_exec d s q = None → execute epoch (sv_database d) s q = None;
}.

(** One caller with a session of its own. *)
Fixpoint run {D} `{!Server D} {A} (s : nat) (p : program A) (d : D) : option (A * D) :=
  match p with
  | Ret a => Some (a, d)
  | Ask q k => match sv_exec d s q with
               | None => None
               | Some (answer, d) => run s (k answer) d
               end
  end.

(** The next statement of a program, if it does not wait. *)
Definition advance {D} `{!Server D} {A} (s : nat) (p : program A) (d : D) : option (program A * D) :=
  match p with
  | Ret _ => None
  | Ask q k => match sv_exec d s q with
               | None => None
               | Some (answer, d) => Some (k answer, d)
               end
  end.

(** Callers side by side: any session whose statement does not wait goes on. *)
Inductive step {D} `{!Server D} {A} : D * gmap nat (program A) → D * gmap nat (program A) → Prop :=
  | step_session d calls s p p' d' : calls !! s = Some p → advance s p d = Some (p', d') → step (d, calls) (d', <[s := p']> calls).
End Postgres.
