(* ===== verification/PostgresTheory.v ===== *)
(** Programs of the Postgres store run by one caller on a server that answers as
    documented or fails: what each statement of a transaction leaves behind. *)

From S2P Require Import Prelude Errors Model Store StoreTheory Postgres.
Open Scope Z_scope.
Open Scope go_scope.
Import Postgres.

#[global] Arguments seen : simpl never.
#[global] Arguments locked_in : simpl never.
#[global] Arguments job_pending : simpl never.
#[global] Arguments job_taken : simpl never.

Lemma seen_empty {V} (p : Part V) m : pt_Rows p = ∅ → seen p m = m.
Proof. intros Hp. unfold seen. rewrite Hp. apply map_eq. intros k. rewrite lookup_merge, lookup_empty. by destruct (m !! k). Qed.

Lemma seen_write {V} (p : Part V) m key row : pt_Rows p = ∅ → seen (write_row p key (Some row)) m = <[key := row]> m.
Proof.
  intros Hp. unfold seen, write_row. cbn. rewrite Hp. apply map_eq. intros k. rewrite lookup_merge.
  destruct (decide (k = key)) as [->|Hk]; [by rewrite !lookup_insert_eq; destruct (m !! key)|].
  rewrite !lookup_insert_ne, lookup_empty by done. by destruct (m !! k).
Qed.

Lemma seen_remove {V} (p : Part V) m key : pt_Rows p = ∅ → seen (write_row p key None) m = delete key m.
Proof.
  intros Hp. unfold seen, write_row. cbn. rewrite Hp. apply map_eq. intros k. rewrite lookup_merge.
  destruct (decide (k = key)) as [->|Hk]; [by rewrite lookup_insert_eq, lookup_delete_eq; destruct (m !! key)|].
  rewrite lookup_insert_ne, lookup_delete_ne, lookup_empty by done. by destruct (m !! k).
Qed.

Lemma locked_in_empty {V} (part : Transaction → Part V) key : locked_in part ∅ key = false.
Proof. unfold locked_in. by rewrite map_to_list_empty. Qed.

Lemma job_pending_empty committed id row : job_pending committed ∅ id row = false.
Proof. unfold job_pending. by rewrite map_to_list_empty. Qed.

(** The codec reads back what it wrote. *)
Class CodecLaws (co : Codec) :=
  status_roundtrip : ∀ status text, co_Marshal co status = Ok text → co_Unmarshal co text = Ok status.

Section Alone.
Context `{GoRange} (epoch : Time) (faulty : Prop) (co : Codec) `{!CodecLaws co} (s : nat).
Implicit Types (db : Database) (tx : Transaction).

(** ** Outcomes *)

(** Whatever a program is answered, it does not wait and ends with [Q]. *)
Fixpoint wp {A} (p : program A) db (Q : A → Database → Prop) : Prop :=
  match p with
  | Ret a => Q a db
  | Ask q k => execute epoch db s q ≠ None ∧ ∀ answer db1, answers epoch faulty db s q answer db1 → wp (k answer) db1 Q
  end.

Lemma wp_run {D} `{!Server D, !ServerLaws epoch faulty D} {A} (p : program A) Q : ∀ d,
  wp p (sv_database d) Q → ∃ a d', run s p d = Some (a, d') ∧ Q a (sv_database d').
Proof.
  induction p as [a|X q k IH]; intros d Hw; cbn in *; [by exists a, d|]. destruct Hw as [Hgo Hw].
  destruct (sv_exec d s q) as [[answer d1]|] eqn:He; [|by apply exec_waits in He]. apply exec_answers in He. by apply IH, Hw.
Qed.

(** ** Statements of one open transaction *)

Definition closed db : Prop := db_Open db = ∅.

Definition in_tx db tx : Database := { db with db_Open := {[ s := tx ]} }.

Definition published db tx : Database := { db with db_Tables := publish tx (db_Tables db) }.

Definition rows db : gmap string Row := tb_Allocations (db_Tables db).

Lemma db_eta db : closed db → { db with db_Open := ∅ } = db.
Proof. unfold closed. destruct db. cbn. by intros ->. Qed.

(** A statement of the open transaction: its answer, or an error that aborts it. *)
Lemma wp_ordinary {A} db tx {X} (q : statement X) (k : result X → program A) Q answer tx' tables : closed db → tx_Aborted tx = false →
  (∀ d t, execute epoch d t q = ordinary epoch d t q) → failed_in (in_tx db tx) s q = in_tx db aborted → settles (in_tx db tx) s q = false →
  (∀ all read, ¬ cut_short q all read) →
  within epoch (db_Now db) ∅ (db_Tables db) tx q = Some (answer, tx', tables) →
  (∀ err, faulty ∨ answer = Fail err → wp (k (Fail err)) (in_tx db aborted) Q) → (∀ x, answer = Ok x → wp (k (Ok x)) { in_tx db tx' with db_Tables := tables } Q) →
  wp (Ask q k) (in_tx db tx) Q.
Proof.
  intros Hc Ha Hex Hfail Hset Hwhole Hw Herr Hok.
  assert (He : execute epoch (in_tx db tx) s q = match answer with
    | Ok x => Some (Ok x, { in_tx db tx' with db_Tables := tables }) | Fail err => Some (Fail err, in_tx db aborted) end).
  { rewrite Hex. unfold ordinary, in_tx. cbn. rewrite lookup_singleton_eq, Ha, delete_singleton_eq, Hw.
    destruct answer; by rewrite insert_singleton_eq. }
  cbn. split; [rewrite He; by destruct answer|]. intros answer' db' [He'|[Hfault [(err & -> & Hf)|(all & read & _ & []%Hwhole & _)]]].
  - rewrite He in He'. destruct answer as [x|err]; injection He' as <- <-; [by apply Hok|apply Herr; by right].
  - destruct Hf as [|x db' Hs]; [|congruence]. rewrite Hfail. apply Herr. by left.
Qed.

Lemma in_tx_same db tx : { in_tx db tx with db_Tables := db_Tables db } = in_tx db tx.
Proof. by destruct db. Qed.

Lemma wp_transaction {A} (failed : error → A) body db Q : closed db →
  (faulty → ∀ err, Q (failed err) db) → wp body (in_tx db fresh) Q → wp (transaction failed body) db Q.
Proof.
  intros Hc Herr Hbody. assert (He : execute epoch db s Begin = Some (Ok tt, in_tx db fresh)).
  { cbn. unfold closed in Hc. rewrite Hc, lookup_empty. done. }
  cbn [transaction wp]. split; [by rewrite He|]. intros answer db1 [Ha|[Hfault [(err & -> & Hf)|(? & ? & _ & [] & _)]]].
  - rewrite He in Ha. by injection Ha as <- <-.
  - destruct Hf; [by apply Herr|done].
Qed.

Lemma open_closed db tx : closed db → { in_tx db tx with db_Open := ∅ } = db.
Proof. unfold closed. destruct db. cbn. by intros ->. Qed.

Lemma wp_rollback {A} (a : A) db tx Q : closed db → Q a db → wp (rollback a) (in_tx db tx) Q.
Proof.
  intros Hc HQ. cbn [rollback wp]. split; [done|]. intros answer db1 Ha.
  assert (db1 = db) as ->; [|done]. destruct Ha as [[= <- <-]|[Hfault [(err & -> & Hf)|(? & ? & _ & [] & _)]]].
  - rewrite delete_singleton_eq. by apply open_closed.
  - destruct Hf as [|x db' Hs]; [|done]. cbn. rewrite delete_singleton_eq. by apply open_closed.
Qed.

(** An answer to COMMIT that is lost hides whether it took effect. *)
Lemma wp_commit {A} (finish : option error → A) db tx Q : closed db → tx_Aborted tx = false →
  Q (finish None) (published db tx) → (faulty → ∀ err, Q (finish (Some err)) db) → (faulty → ∀ err, Q (finish (Some err)) (published db tx)) →
  wp (commit finish) (in_tx db tx) Q.
Proof.
  intros Hc Ha Hok Herr Hlost.
  assert (He : execute epoch (in_tx db tx) s Commit = Some (Ok tt, published db tx)).
  { cbn. rewrite lookup_singleton_eq, Ha, delete_singleton_eq. unfold published. unfold closed in Hc. destruct db. cbn in *. by subst. }
  cbn [commit wp]. split; [by rewrite He|]. intros answer db1 [He'|[Hfault [(err & -> & Hf)|(? & ? & _ & [] & _)]]].
  - rewrite He in He'. by injection He' as <- <-.
  - destruct Hf as [|x db' Hs He']; [|rewrite He in He'; injection He' as <- <-; by apply Hlost].
    replace (failed_in _ _ _) with db; [by apply Herr|]. cbn. rewrite delete_singleton_eq. symmetry. by apply open_closed.
Qed.

(** ** The allocations *)

(** The records that the store reads. *)
Definition contents db : Allocations := omap (fun row => decoded co (rw_Payload row)) (rows db).

(** The columns of a row repeat its record. *)
Definition row_ok (id : string) (row : Row) : Prop :=
  ∃ status, co_Unmarshal co (rw_Payload row) = Ok status ∧ as_ID status = id ∧ row = row_of status (rw_Payload row).

(** No transaction is open, and every row was written by the store. *)
Record quiet db : Prop := { quiet_closed : closed db; quiet_rows : ∀ id row, rows db !! id = Some row → row_ok id row }.

Lemma contents_lookup db id : contents db !! id = rows db !! id ≫= (fun row => decoded co (rw_Payload row)).
Proof. apply lookup_omap. Qed.

Lemma quiet_row db id row : quiet db → rows db !! id = Some row →
  ∃ status payload, row = row_of status payload ∧ co_Unmarshal co payload = Ok status ∧ as_ID status = id ∧ contents db !! id = Some status.
Proof.
  intros Hq Hr. destruct (quiet_rows db Hq id row Hr) as (status & Hu & Hid & Hrow). exists status, (rw_Payload row).
  rewrite contents_lookup, Hr. cbn. unfold decoded. by rewrite Hu.
Qed.

Lemma contents_None db id : quiet db → contents db !! id = None ↔ rows db !! id = None.
Proof.
  intros Hq. destruct (rows db !! id) as [row|] eqn:Hr; [|by rewrite contents_lookup, Hr].
  destruct (quiet_row db id row Hq Hr) as (status & payload & _ & _ & _ & ->). done.
Qed.

(** The workflow job of a record is that of another record. *)
Definition job_held (m : Allocations) status : Prop :=
  ∃ id other job, m !! id = Some other ∧ id ≠ as_ID status ∧ allocationWorkflowJobID other = Some job ∧ allocationWorkflowJobID status = Some job.

(** What the database refuses to save. *)
Definition unsavable (m : Allocations) status : Prop := is_Ok (co_Marshal co status) = false ∨ job_held m status.

Lemma job_taken_held db status payload : quiet db →
  job_taken (rows db) (as_ID status) (row_of status payload) = true ↔ job_held (contents db) status.
Proof.
  intros Hq. unfold job_taken, job_held. rewrite existsb_exists. split.
  - intros ([id row] & Hin%list_elem_of_In%elem_of_map_to_list & [Hid Hjob]%andb_prop). cbn in *.
    destruct (quiet_row db id row Hq Hin) as (other & payload' & -> & _ & _ & Hc). unfold same_job in Hjob. cbn in Hjob.
    destruct (allocationWorkflowJobID other) as [job|] eqn:Ho; [|done]. destruct (allocationWorkflowJobID status) as [job'|] eqn:Hs; [|done].
    apply Z.eqb_eq in Hjob as ->. exists id, other, job'. split; [done|]. split; [|done]. intros ->. by rewrite String.eqb_refl in Hid.
  - intros (id & other & job & Hc & Hid & Ho & Hs). destruct (rows db !! id) as [row|] eqn:Hr.
    2:{ apply (contents_None db id Hq) in Hr. congruence. }
    exists (id, row). split; [by apply list_elem_of_In, elem_of_map_to_list|]. cbn. apply String.eqb_neq in Hid as ->.
    destruct (quiet_row db id row Hq Hr) as (other' & payload' & -> & _ & _ & Hc'). assert (other' = other) as -> by congruence.
    unfold same_job. cbn. by rewrite Ho, Hs, Z.eqb_refl.
Qed.

(** A statement of the open transaction that was begun by one caller alone. *)
Ltac statement Hq :=
  eapply wp_ordinary; [apply Hq|done|by intros|by unfold in_tx; cbn; rewrite lookup_singleton_eq, insert_singleton_eq|by cbn; rewrite lookup_singleton_eq|by intros ? ? []|
                       cbn; rewrite ?locked_in_empty, ?job_pending_empty, ?seen_empty by done|..].

(** The transaction has written nothing. *)
Definition clean tx : Prop := pt_Rows (tx_Allocations tx) = ∅ ∧ pt_Rows (tx_Leases tx) = ∅ ∧ tx_Aborted tx = false.

Definition locking tx id : Transaction := { tx with tx_Allocations := lock_row (tx_Allocations tx) id }.

Definition writing tx id row : Transaction := { tx with tx_Allocations := write_row (tx_Allocations tx) id row }.

Lemma clean_fresh : clean fresh.
Proof. done. Qed.

Lemma clean_locking tx id : clean tx → clean (locking tx id).
Proof. by intros (? & ? & ?). Qed.

Lemma rows_written db tx id row : clean tx → rows (published db (writing tx id (Some row))) = <[id := row]> (rows db).
Proof. intros (Hr & _ & _). unfold rows, published, publish. cbn. by apply seen_write. Qed.

Lemma contents_written db tx id status payload : clean tx → co_Unmarshal co payload = Ok status →
  contents (published db (writing tx id (Some (row_of status payload)))) = <[id := status]> (contents db).
Proof.
  intros Hc Hu. unfold contents. rewrite rows_written by done. rewrite omap_insert. cbn. unfold decoded at 1. by rewrite Hu.
Qed.

Lemma quiet_written db tx status payload : clean tx → quiet db → co_Unmarshal co payload = Ok status →
  quiet (published db (writing tx (as_ID status) (Some (row_of status payload)))).
Proof.
  intros Hc Hq Hu. split; [apply Hq|]. intros id row. rewrite rows_written by done. intros [[<- <-]|[Hne Hr]]%lookup_insert_Some.
  - by exists status.
  - by apply (quiet_rows db Hq).
Qed.

Lemma wp_getForUpdate {A} id (failed : error → A) (missing : A) (k : AllocationStatus → program A) db Q : quiet db →
  (faulty → ∀ err, Q (failed err) db) → (contents db !! id = None → Q missing db) →
  (∀ status, contents db !! id = Some status → as_ID status = id → wp (k status) (in_tx db (locking fresh id)) Q) →
  wp (getForUpdate co id failed missing k) (in_tx db fresh) Q.
Proof.
  intros Hq Herr Hmissing Hk. unfold getForUpdate. statement Hq.
  - done.
  - intros err [Hf|?]; [|done]. by apply wp_rollback; [apply Hq|apply Herr].
  - intros x [= <-]. fold (rows db). destruct (rows db !! id) as [row|] eqn:Hr; cbn [fmap option_fmap option_map]; rewrite in_tx_same.
    + destruct (quiet_row db id row Hq Hr) as (status & payload & -> & Hu & Hid & Hc). cbn [row_of rw_Payload]. rewrite Hu. by apply Hk.
    + apply wp_rollback; [apply Hq|]. by apply Hmissing, contents_None.
Qed.

Lemma wp_saveTx {A} status (failed : error → A) (k : program A) db tx Q : quiet db → clean tx →
  (faulty ∨ unsavable (contents db) status → ∀ err, Q (failed err) db) →
  (∀ payload, co_Marshal co status = Ok payload → ¬ unsavable (contents db) status →
     wp k (in_tx db (writing tx (as_ID status) (Some (row_of status payload)))) Q) →
  wp (saveTx co status failed k) (in_tx db tx) Q.
Proof.
  intros Hq (Hr & Hl & Ha) Herr Hk. unfold saveTx. destruct (co_Marshal co status) as [payload|err] eqn:Hm.
  2:{ apply wp_rollback; [apply Hq|]. apply Herr. right. left. by rewrite Hm. }
  specialize (Hk payload eq_refl).
  assert (Hroll : faulty ∨ unsavable (contents db) status → ∀ err, wp (rollback (failed err)) (in_tx db aborted) Q).
  { intros Hwhy err. by apply wp_rollback; [apply Hq|apply Herr]. }
  pose proof (job_taken_held db status payload Hq) as Hheld.
  destruct (job_taken (rows db) (as_ID status) (row_of status payload)) eqn:Hj.
  - statement Hq; [fold (rows db); by rewrite Hj| |by intros x [=]]. intros err _. apply Hroll. right. right. by apply Hheld.
  - statement Hq; [fold (rows db); by rewrite Hj|intros err [?|?]; [by apply Hroll; left|done]|].
    intros x _. rewrite in_tx_same. apply Hk. intros [Hm'|Hh]; [by rewrite Hm in Hm'|]. apply Hheld in Hh. congruence.
Qed.

Lemma wp_check_limit limit w text k db Q : quiet db →
  let full := (0 <? limit) && (limit <=? count_map (in_where w) (rows db)) in
  (faulty → ∀ err, Q (Some (Wrapf text err "")) db) →
  (full = true → Q (Some (Sentinel StoreErrNoCapacity)) db) → (full = false → wp k (in_tx db fresh) Q) →
  wp (check_limit limit w text k) (in_tx db fresh) Q.
Proof.
  intros Hq full Herr Hfull Hk. unfold check_limit. subst full. destruct (0 <? limit); [|by apply Hk]. cbn [andb] in *.
  statement Hq.
  - done.
  - intros err [Hf|?]; [|done]. by apply wp_rollback; [apply Hq|apply Herr].
  - intros x [= <-]. rewrite in_tx_same. fold (rows db). destruct (_ <=? _); [|by apply Hk].
    apply wp_rollback; [apply Hq|]. by apply Hfull.
Qed.

(** ** Statements of their own *)

Lemma wp_autocommit {A} db {X} (q : statement X) (k : result X → program A) Q answer tx tables : closed db →
  (∀ d t, execute epoch d t q = ordinary epoch d t q) → failed_in db s q = db → (∀ all read, ¬ cut_short q all read) →
  within epoch (db_Now db) ∅ (db_Tables db) fresh q = Some (answer, tx, tables) →
  (∀ err, faulty ∨ answer = Fail err → wp (k (Fail err)) db Q) →
  (∀ x, answer = Ok x → wp (k (Ok x)) { db with db_Tables := publish tx tables } Q ∧
                        (faulty → ∀ err, wp (k (Fail err)) { db with db_Tables := publish tx tables } Q)) →
  wp (Ask q k) db Q.
Proof.
  intros Hc Hex Hfail Hwhole Hw Herr Hok.
  assert (He : execute epoch db s q = match answer with
    | Ok x => Some (Ok x, { db with db_Tables := publish tx tables }) | Fail err => Some (Fail err, db) end).
  { rewrite Hex. unfold ordinary. unfold closed in Hc. rewrite Hc, lookup_empty, delete_empty, Hw. done. }
  cbn. split; [rewrite He; by destruct answer|]. intros answer' db' [He'|[Hfault [(err & -> & Hf)|(all & read & _ & []%Hwhole & _)]]].
  - rewrite He in He'. destruct answer as [x|err]; injection He' as <- <-; [by apply Hok|apply Herr; by right].
  - destruct Hf as [|x db' Hs He']; [rewrite Hfail; apply Herr; by left|]. rewrite He in He'. destruct answer as [y|]; [|done].
    injection He' as -> <-. by apply (proj2 (Hok x eq_refl)).
Qed.

Lemma publish_fresh tables : publish fresh tables = tables.
Proof. unfold publish. cbn. rewrite !seen_empty by done. by destruct tables. Qed.

Lemma unchanged db : { db with db_Tables := publish fresh (db_Tables db) } = db.
Proof. rewrite publish_fresh. by destruct db. Qed.

(** Rows that are read outside of a transaction, all or the first of them. *)
Lemma wp_rows {A} db (k : result (list (string * string) * option error) → program A) Q : closed db →
  let all := (fun kv => (kv.1, rw_Payload kv.2)) <$> range (rows db) in
  wp (k (Ok (all, None))) db Q → (faulty → ∀ err, wp (k (Fail err)) db Q) →
  (faulty → ∀ read err, read `prefix_of` all → wp (k (Ok (read, Some err))) db Q) → wp (Ask SelectPayloads k) db Q.
Proof.
  intros Hc all Hall Hfail Hcut. assert (He : execute epoch db s SelectPayloads = Some (Ok (all, None), db)).
  { cbn. unfold ordinary. unfold closed in Hc. rewrite Hc, lookup_empty, delete_empty. cbn. by rewrite unchanged, seen_empty. }
  cbn [wp]. split; [by rewrite He|]. intros answer db' [He'|[Hf [(err & -> & Hfails)|([read broken] & [read' broken'] & -> & [Hp Hb] & He')]]].
  - rewrite He in He'. by injection He' as <- <-.
  - destruct Hfails as [|x db' _ He']; [|rewrite He in He'; injection He' as _ <-]; [|by apply Hfail].
    cbn. unfold closed in Hc. rewrite Hc, lookup_empty. by apply Hfail.
  - rewrite He in He'. injection He' as <- <- <-. destruct Hb as [err Hb]. cbn in *. subst. by apply Hcut.
Qed.

(** ** Counts *)

Lemma count_map_omap {A B} (f : A → option B) (p : string → A → bool) (q : string → B → bool) (m : gmap string A) :
  (∀ k x, m !! k = Some x → ∃ y, f x = Some y ∧ p k x = q k y) → count_map p m = count_map q (omap f m).
Proof.
  induction m as [|k x m Hk IH] using map_ind; intros Hf; [by rewrite omap_empty|].
  destruct (Hf k x) as (y & Hy & Hp); [by rewrite lookup_insert_eq|].
  rewrite omap_insert, Hy, !count_map_insert, Hk, lookup_omap, Hk, Hp. cbn. rewrite IH; [done|].
  intros k' x' Hk'. apply Hf. rewrite lookup_insert_ne; [done|]. congruence.
Qed.

Lemma accounted_text state : existsb (String.eqb (state_string state)) ["reserved"; "ready"; "warm"] = isSchedulerAccountedState state.
Proof. by destruct state. Qed.

Lemma count_where w (q : string → AllocationStatus → bool) db : quiet db →
  (∀ status payload, contents db !! as_ID status = Some status → in_where w (as_ID status) (row_of status payload) = q (as_ID status) status) →
  count_map (in_where w) (rows db) = count_map q (contents db).
Proof.
  intros Hq Hw. apply count_map_omap. intros id row Hr. destruct (quiet_row db id row Hq Hr) as (status & payload & -> & Hu & <- & Hc).
  exists status. unfold decoded. cbn [row_of rw_Payload]. rewrite Hu. split; [done|]. by apply Hw.
Qed.

(** [id <> $3] for an identifier that is not empty, and no such condition. *)
Definition excluding (notID : option string) : string := default "" notID.

Lemma not_excluded id notID : notID ≠ Some "" →
  excluded (excluding notID) id = match notID with Some notID => String.eqb id notID | None => false end.
Proof. unfold excluded. destruct notID as [x|]; [|done]. intros Hx. cbn. destruct (String.eqb_spec x ""); [congruence|done]. Qed.

Lemma count_active db pool backend notID : quiet db → notID ≠ Some "" →
  count_map (in_where (where_active pool backend notID)) (rows db) = countActiveLocked (contents db) pool backend (excluding notID).
Proof.
  intros Hq Hn. apply count_where; [done|]. intros status payload _. unfold in_where, counts_active. cbn -[existsb].
  rewrite not_excluded, accounted_text by done. destruct (match notID with Some _ => _ | None => _ end); [by rewrite andb_false_r|].
  by destruct (String.eqb (as_Pool status) pool), (String.eqb (as_SelectedBackend status) backend); cbn -[existsb]; rewrite ?andb_true_r.
Qed.

Lemma count_backend db backend notID : quiet db → notID ≠ Some "" →
  count_map (in_where (where_backend backend notID)) (rows db) = countBackendActiveLocked (contents db) backend (excluding notID).
Proof.
  intros Hq Hn. apply count_where; [done|]. intros status payload _. unfold in_where, counts_backend. cbn -[existsb].
  rewrite not_excluded, accounted_text by done. destruct (match notID with Some _ => _ | None => _ end); [by rewrite andb_false_r|].
  by destruct (String.eqb (as_SelectedBackend status) backend); cbn -[existsb]; rewrite ?andb_true_r.
Qed.

Lemma count_tenant db pool tenant notID : quiet db → notID ≠ Some "" →
  count_map (in_where (where_tenant pool tenant notID)) (rows db) = countTenantActiveLocked (contents db) pool tenant (excluding notID).
Proof.
  intros Hq Hn. apply count_where; [done|]. intros status payload _. unfold in_where, counts_tenant. cbn -[existsb].
  rewrite not_excluded, accounted_text by done. destruct (match notID with Some _ => _ | None => _ end); [by rewrite andb_false_r|].
  destruct (String.eqb (as_Pool status) pool), (isSchedulerAccountedState (as_State status)); cbn -[existsb]; by rewrite ?andb_true_r, ?andb_false_r.
Qed.
End Alone.

(** A statement of its own, on a database without open transactions. *)
Ltac autocommit Hq :=
  eapply wp_autocommit; [apply Hq|by intros|by cbn; rewrite (quiet_closed _ _ Hq), ?lookup_empty|by intros ? ? []|
                         cbn; rewrite ?locked_in_empty, ?job_pending_empty, ?seen_empty by done|..].

(** ** The documentation as a server, and a sample of records *)

Definition documented_server `{GoRange} (epoch : Time) : Server Database :=
  {| sv_exec := fun X db s q => execute epoch db s q; sv_database := id |}.

Lemma documented_laws `{GoRange} epoch faulty : @ServerLaws _ epoch faulty Database (documented_server epoch).
Proof. split; [|done]. intros X d s q answer d' He. by left. Qed.

(** Some statements of one session. *)
Fixpoint drive {D} `{!Server D} {A} (n s : nat) (x : D * gmap nat (program A)) : D * gmap nat (program A) :=
  match n with
  | O => x
  | S n => match x.2 !! s ≫= (fun p => advance s p x.1) with
           | Some (p, d) => drive n s (d, <[s := p]> x.2)
           | None => x
           end
  end.

Lemma drive_steps {D} `{!Server D} {A} n s : ∀ x : D * gmap nat (program A), rtc step x (drive n s x).
Proof.
  induction n as [|n IH]; intros [d calls]; [done|]. cbn. destruct (calls !! s) as [p|] eqn:Hs; [|done]. cbn.
  destruct (advance s p d) as [[p' d']|] eqn:Ha; [|done]. eapply rtc_l; [by apply (step_session d calls s p)|apply IH].
Qed.

Definition sample_server : Server Database := documented_server (H := range_forward) 0.

Definition sample_laws faulty : @ServerLaws range_forward 0 faulty Database sample_server := documented_laws (H := range_forward) 0 faulty.

(** Two records in two states and their texts. *)
#[export] Instance AllocationRequest_eq_dec : EqDecision AllocationRequest.
Proof. solve_decision. Defined.
#[export] Instance AllocationStatus_eq_dec : EqDecision AllocationStatus.
Proof. solve_decision. Defined.

Definition sample (id : string) (state : AllocationState) : AllocationStatus :=
  { zero_AllocationStatus with as_ID := id; as_Pool := "lite"; as_SelectedBackend := "lambda"; as_State := state }.

Definition sample_texts : list (string * AllocationStatus) :=
  [("a reserved", sample "a" StateReserved); ("b reserved", sample "b" StateReserved); ("a ready", sample "a" StateReady)].

Definition sample_codec : Codec := {|
  co_Marshal status := match List.find (fun kv => bool_decide (kv.2 = status)) sample_texts with Some kv => Ok kv.1 | None => Fail (Errorf "no text") end;
  co_Unmarshal text := match List.find (fun kv => String.eqb kv.1 text) sample_texts with Some kv => Ok kv.2 | None => Fail (Errorf "no record") end;
  co_MarshalDoc _ := Fail (Errorf "no text");
  co_UnmarshalDoc _ := Fail (Errorf "no record");
|}.

Lemma sample_codec_laws : CodecLaws sample_codec.
Proof.
  intros status text. cbn -[sample_texts]. destruct (List.find _ _) as [kv|] eqn:Hf; [|done]. intros [= <-].
  apply find_some in Hf as [Hin Hs]. apply bool_decide_eq_true in Hs as <-. repeat (destruct Hin as [<-|Hin]; [reflexivity|]). destruct Hin.
Qed.

Definition empty_tables : Tables := {| tb_Allocations := ∅; tb_Leases := ∅; tb_Admission := None; tb_Inbox := ∅; tb_InboxSequence := 0 |}.

Definition empty_database : Database := {| db_Tables := empty_tables; db_Open := ∅; db_Now := 0 |}.

Lemma empty_quiet co : quiet co empty_database.
Proof. done. Qed.
