(* ===== verification/PostgresBehaviour.v ===== *)
(** What the shared store promises: a single caller is served as by the memory store,
    concurrent compare-and-set calls have one winner, and concurrent admissions do not
    see each other. *)

From S2P Require Import Prelude Errors Model Store StoreTheory Postgres PostgresTheory.
Open Scope Z_scope.
Open Scope go_scope.
Import Postgres.

(** ** One caller *)

Section Alone.
Context `{GoRange} (epoch : Time) (faulty : Prop) (co : Codec) `{!CodecLaws co} (s : nat).
Implicit Types (db : Database).

(** An operation answers and leaves the records as the memory store does; or it reports a
    failure: of the server, and then its effect is absent or, when the answer was lost,
    complete, or of a record that cannot be saved. *)
Definition served {A} db (refused : Prop) (failed : A → Prop) (spec : A * Memory.Memory) (a : A) db' : Prop :=
  quiet co db' ∧
  ((a = spec.1 ∧ contents co db' = Memory.allocations spec.2) ∨
   (failed a ∧ (faulty ∨ refused) ∧ contents co db' = contents co db) ∨
   (failed a ∧ faulty ∧ contents co db' = Memory.allocations spec.2)).

Definition memory db : Memory.Memory := spec_store (contents co db).

Lemma served_failed {A} db refused failed (spec : A * Memory.Memory) a : quiet co db →
  faulty ∨ refused → failed a → served db refused failed spec a db.
Proof. intros Hq Hf. split; [done|]. right. by left. Qed.

Lemma served_same {A} db refused failed (spec : A * Memory.Memory) a :
  quiet co db → a = spec.1 → Memory.allocations spec.2 = contents co db → served db refused failed spec a db.
Proof. intros Hq -> Hs. split; [done|]. by left. Qed.

(** The end of a transaction that saves a record. *)
Lemma served_commit {A} db failed (spec : A * Memory.Memory) tx status (finish : option error → A) failure : quiet co db → clean tx →
  finish None = spec.1 → (∀ err, failed (finish (Some err))) → (∀ err, failed (failure err)) →
  Memory.allocations spec.2 = <[as_ID status := status]> (contents co db) →
  wp epoch faulty s (saveTx co status failure (commit finish)) (in_tx s db tx) (served db (unsavable co (contents co db) status) failed spec).
Proof.
  intros Hq Hclean Hok Hfail Hfailure Hspec. apply wp_saveTx; [done..|by intros; apply served_failed|]. intros payload Hm _.
  assert (Hu : co_Unmarshal co payload = Ok status) by by apply status_roundtrip.
  pose proof (quiet_written co db tx status payload Hclean Hq Hu) as Hq'.
  pose proof (contents_written co db tx (as_ID status) status payload Hclean Hu) as Hc'. rewrite <- Hspec in Hc'.
  apply wp_commit; [apply Hq|apply Hclean| | |].
  - split; [done|]. by left.
  - intros Hf err. apply served_failed; [done|by left|done].
  - intros Hf err. split; [done|]. right. by right.
Qed.

Lemma serve_Save db status : quiet co db →
  wp epoch faulty s (Save co status) db (served db (unsavable co (contents co db) status) is_Some (Memory.Save (memory db) status)).
Proof.
  intros Hq. unfold Save. destruct (co_Marshal co status) as [payload|err] eqn:Hm.
  2:{ apply served_failed; [done| |done]. right. left. by rewrite Hm. }
  assert (Hu : co_Unmarshal co payload = Ok status) by by apply status_roundtrip.
  pose proof (quiet_written co db fresh status payload clean_fresh Hq Hu) as Hq'.
  pose proof (contents_written co db fresh (as_ID status) status payload clean_fresh Hu) as Hc'.
  pose proof (job_taken_held co db status payload Hq) as Hheld.
  destruct (job_taken (rows db) (as_ID status) (row_of status payload)) eqn:Hj.
  - autocommit Hq; [fold (rows db); by rewrite Hj| |by intros x [=]]. intros err _.
    apply served_failed; [done| |done]. right. right. by apply Hheld.
  - autocommit Hq; [fold (rows db); by rewrite Hj| |].
    + intros err [?|?]; [|done]. by apply served_failed; [|left|].
    + intros x _. split; [split; [exact Hq'|]; left; by split; [|exact Hc']|].
      intros Hf err. split; [exact Hq'|]. right. right. split; [done|]. split; [done|exact Hc'].
Qed.

Lemma deleted_row db id : quiet co db →
  let db' := published db (writing fresh id None) in quiet co db' ∧ contents co db' = delete id (contents co db).
Proof.
  intros Hq db'. assert (Hrows : rows db' = delete id (rows db)) by by apply seen_remove.
  split; [|unfold contents; by rewrite Hrows, omap_delete]. split; [apply Hq|].
  intros id' row. rewrite Hrows. intros [_ Hr]%lookup_delete_Some. by apply (quiet_rows co db Hq).
Qed.

Lemma serve_Delete db id : quiet co db →
  wp epoch faulty s (Delete id) db (served db False is_Some (Memory.Delete (memory db) id)).
Proof.
  intros Hq. destruct (deleted_row db id Hq) as [Hq' Hc']. unfold Delete. autocommit Hq; [done| |].
  - intros err [?|?]; [|done]. by apply served_failed; [|left|].
  - intros x _. split; [split; [exact Hq'|]; left; by split; [|exact Hc']|].
    intros Hf err. split; [exact Hq'|]. right. right. split; [done|]. split; [done|exact Hc'].
Qed.

(** The record that a transition would save cannot be saved. *)
Definition unmarkable db id state now message : Prop :=
  ∃ status, contents co db !! id = Some status ∧ unsavable co (contents co db) (applyMarkState status state now message).

Lemma served_weaken {A} db (refused refused' : Prop) (failed : A → Prop) spec a db' : (refused → refused') →
  served db refused failed spec a db' → served db refused' failed spec a db'.
Proof. unfold served. naive_solver. Qed.

Lemma wp_weaken {A} (p : program A) (Q Q' : A → Database → Prop) : (∀ a db', Q a db' → Q' a db') →
  ∀ db, wp epoch faulty s p db Q → wp epoch faulty s p db Q'.
Proof. intros HQ. induction p as [a|X q k IH]; intros db; cbn; [apply HQ|]. intros [Hgo Hw]. split; [done|]. intros answer db1 Ha. by apply IH, Hw. Qed.

Lemma serve_marked db id status state now message : quiet co db → contents co db !! id = Some status → as_ID status = id →
  let marked := applyMarkState status state now message in
  wp epoch faulty s (saveTx co marked (fun _ => None) (commit (fun err => if err is Some _ then None else Some marked)))
    (in_tx s db (locking fresh id))
    (served db (unmarkable db id state now message) (eq None) (Some marked, Memory.set_allocations (memory db) (<[id := marked]> (contents co db)))).
Proof.
  intros Hq Hs Hid. cbv zeta. set (marked := applyMarkState status state now message).
  apply (wp_weaken _ (served db (unsavable co (contents co db) marked) (eq None)
                        (Some marked, Memory.set_allocations (memory db) (<[id := marked]> (contents co db))))).
  - intros a db'. apply served_weaken. by exists status.
  - apply served_commit; [done|by apply clean_locking|done..|]. unfold marked. by rewrite applyMarkState_ID, Hid.
Qed.

Lemma serve_MarkState db id state now message : quiet co db →
  wp epoch faulty s (MarkState co id state now message) db
    (served db (unmarkable db id state now message) (eq None) (Memory.MarkState (memory db) id state now message)).
Proof.
  intros Hq. unfold Memory.MarkState, memory. apply wp_transaction; [apply Hq|by intros; apply served_failed; [|left|]|].
  apply wp_getForUpdate; [done|by intros; apply served_failed; [|left|]|..].
  - intros Hn. rewrite spec_store_allocations, Hn. by apply served_same.
  - intros status Hs Hid. rewrite spec_store_allocations, Hs. by apply serve_marked.
Qed.

Lemma serve_CompareAndMarkState db id from to now message : quiet co db →
  wp epoch faulty s (CompareAndMarkState co id from to now message) db
    (served db (unmarkable db id to now message) (eq None) (Memory.CompareAndMarkState (memory db) id from to now message)).
Proof.
  intros Hq. unfold Memory.CompareAndMarkState, memory. apply wp_transaction; [apply Hq|by intros; apply served_failed; [|left|]|].
  apply wp_getForUpdate; [done|by intros; apply served_failed; [|left|]|..].
  - intros Hn. rewrite spec_store_allocations, Hn. by apply served_same.
  - intros status Hs Hid. rewrite spec_store_allocations, Hs. destruct (negb _); [|by apply serve_marked].
    apply wp_rollback; [apply Hq|]. by apply served_same.
Qed.

Lemma serve_SaveIfState db status from : quiet co db →
  wp epoch faulty s (SaveIfState co status from) db
    (served db (unsavable co (contents co db) status) (fun r => is_Ok r = false) (Memory.SaveIfState (memory db) status from)).
Proof.
  intros Hq. unfold Memory.SaveIfState, memory. apply wp_transaction; [apply Hq|by intros; apply served_failed; [|left|]|].
  apply wp_getForUpdate; [done|by intros; apply served_failed; [|left|]|..].
  - intros Hn. rewrite spec_store_allocations, Hn. by apply served_same.
  - intros current Hs Hid. rewrite spec_store_allocations, Hs. destruct (negb _).
    + apply wp_rollback; [apply Hq|]. by apply served_same.
    + by apply served_commit.
Qed.

Lemma serve_SaveIfCapacity db status maxRunners tenantQuota backendLimit : quiet co db → as_ID status ≠ "" →
  wp epoch faulty s (SaveIfCapacity co status maxRunners tenantQuota backendLimit) db
    (served db (unsavable co (contents co db) status) is_Some
       (Memory.SaveIfCapacity (memory db) status maxRunners tenantQuota backendLimit)).
Proof.
  intros Hq Hid. unfold Memory.SaveIfCapacity, memory, capacityAllowed. rewrite spec_store_allocations.
  assert (Hn : Some (as_ID status) ≠ Some "") by congruence.
  apply wp_transaction; [apply Hq|by intros; apply served_failed; [|left|]|].
  eapply wp_check_limit; [exact Hq|by intros; apply served_failed; [|left|]|..]; rewrite (count_active co _ _ _ _ Hq Hn); change (excluding (Some (as_ID status))) with (as_ID status); intros ->; [by apply served_same|].
  eapply wp_check_limit; [exact Hq|by intros; apply served_failed; [|left|]|..]; rewrite (count_backend co _ _ _ Hq Hn); change (excluding (Some (as_ID status))) with (as_ID status); intros ->; [by apply served_same|].
  eapply wp_check_limit; [exact Hq|by intros; apply served_failed; [|left|]|..]; rewrite (count_tenant co _ _ _ _ Hq Hn); change (excluding (Some (as_ID status))) with (as_ID status); intros ->; [by apply served_same|].
  by apply served_commit.
Qed.

(** A query answers from the records and changes nothing. *)
Definition queried {A} db (spec : A → Prop) (failed : A) (a : A) db' : Prop := db' = db ∧ (spec a ∨ (faulty ∧ a = failed)).

Lemma wp_query {A X} db (q : statement X) (k : result X → program A) (spec : A → Prop) (failed : A) x : quiet co db →
  (∀ d t, execute epoch d t q = ordinary epoch d t q) → failed_in db s q = db → (∀ all read, ¬ cut_short q all read) →
  within epoch (db_Now db) ∅ (db_Tables db) fresh q = Some (Ok x, fresh, db_Tables db) →
  (∃ a, k (Ok x) = Ret a ∧ spec a) → (∀ err, k (Fail err) = Ret failed) → wp epoch faulty s (Ask q k) db (queried db spec failed).
Proof.
  intros Hq Hex Hfail Hwhole Hw (a & Ha & Hspec) Hk. eapply wp_autocommit; [apply Hq|done|done|done|exact Hw|..].
  - intros err [Hf|?]; [|done]. rewrite Hk. split; [done|]. by right.
  - intros y [= <-]. rewrite unchanged, Ha. split; [split; [done|by left]|]. intros Hf err. rewrite Hk. split; [done|]. by right.
Qed.

Ltac query Hq := eapply wp_query; [exact Hq|by intros|by cbn; rewrite (quiet_closed _ _ Hq), lookup_empty|by intros ? ? []|by cbn; rewrite seen_empty by done| |done].

Lemma query_Get db id : quiet co db → wp epoch faulty s (Get co id) db (queried db (eq (Memory.Get (memory db) id)) None).
Proof.
  intros Hq. query Hq. eexists. split; [done|]. unfold Memory.Get, memory. rewrite spec_store_allocations, contents_lookup. fold (rows db).
  by destruct (rows db !! id).
Qed.

Lemma omap_to_list {A B} (f : A → option B) (m : gmap string A) : omap (fun kv => f kv.2) (map_to_list m) ≡ₚ (map_to_list (omap f m)).*2.
Proof.
  induction m as [|k x m Hk IH] using map_ind; [by rewrite omap_empty, !map_to_list_empty|].
  rewrite (map_to_list_insert m k x Hk), omap_insert. cbn. destruct (f x) as [y|].
  - rewrite map_to_list_insert by by rewrite lookup_omap, Hk. cbn. by rewrite IH.
  - rewrite delete_id by by rewrite lookup_omap, Hk. exact IH.
Qed.

Lemma omap_payloads {B} (f : string → string → option B) (l : list (string * Row)) :
  omap (fun row : string * string => f row.1 row.2) ((fun kv => (kv.1, rw_Payload kv.2)) <$> l) = omap (fun kv => f kv.1 (rw_Payload kv.2)) l.
Proof. induction l as [|kv l IH]; [done|]. cbn. by rewrite IH. Qed.

(** A listing gives records of the store; it may miss some on a server that fails. *)
Definition listed db (l : list AllocationStatus) db' : Prop :=
  db' = db ∧ ∃ missed, l ++ missed ≡ₚ (map_to_list (contents co db)).*2 ∧ (missed ≠ [] → faulty).

Lemma query_List db : quiet co db → wp epoch faulty s (List co) db (listed db).
Proof.
  intros Hq. set (read_back := fun rows : list (string * string) => omap (fun row => decoded co row.2) rows).
  assert (Hall : read_back ((fun kv => (kv.1, rw_Payload kv.2)) <$> range (rows db)) ≡ₚ (map_to_list (contents co db)).*2).
  { unfold read_back. rewrite (omap_payloads (fun _ payload => decoded co payload)), (range_perm (rows db)).
    apply (omap_to_list (fun row => decoded co (rw_Payload row))). }
  apply wp_rows; [apply Hq|..].
  - split; [done|]. exists []. by rewrite app_nil_r.
  - intros Hf err. split; [done|]. eexists. by split; [apply reflexivity|].
  - intros Hf read err [rest Hrest]. split; [done|]. exists (read_back rest). split; [|done]. rewrite <- Hall, Hrest. unfold read_back. by rewrite omap_app.
Qed.

Lemma query_counts db pool backend tenant : quiet co db →
  wp epoch faulty s (CountActive pool backend) db (queried db (eq (Memory.CountActive (memory db) pool backend)) 0) ∧
  wp epoch faulty s (CountBackendActive backend) db (queried db (eq (Memory.CountBackendActive (memory db) backend)) 0) ∧
  wp epoch faulty s (CountTenantActive pool tenant) db (queried db (eq (Memory.CountTenantActive (memory db) pool tenant)) 0).
Proof.
  intros Hq. split_and!; query Hq; eexists; (split; [done|]); fold (rows db).
  - symmetry. by apply (count_active co db pool backend None).
  - symmetry. by apply (count_backend co db backend None).
  - symmetry. by apply (count_tenant co db pool tenant None).
Qed.

(** Deletions in turn; an error ends them after some. *)
Lemma wp_delete_each ids : ∀ db n, quiet co db →
  wp epoch faulty s (delete_each ids n) db (fun a db' => quiet co db' ∧
    ((a = (n + Z.of_nat (length ids), None) ∧ contents co db' = delete_all ids (contents co db)) ∨
     (is_Some a.2 ∧ faulty ∧ ∃ gone, gone `prefix_of` ids ∧ contents co db' = delete_all gone (contents co db)))).
Proof.
  induction ids as [|id ids IH]; intros db n Hq.
  { split; [done|]. left. split; [|done]. f_equal. cbn. lia. }
  destruct (deleted_row db id Hq) as [Hq' Hc']. cbn [delete_each]. autocommit Hq; [done| |].
  - intros err [Hf|?]; [|done]. split; [done|]. right. split; [done|]. split; [done|]. exists []. split; [apply prefix_nil|done].
  - intros x _. split.
    + eapply wp_weaken; [|apply IH; exact Hq']. intros a db' (Hq'' & [[-> Hc]|(Ha & Hf & gone & Hg & Hc)]); (split; [exact Hq''|]).
      * left. split; [f_equal; cbn [length]; lia|]. etrans; [exact Hc|]. exact (f_equal (delete_all ids) Hc').
      * right. split; [done|]. split; [done|]. exists (id :: gone). split; [by apply prefix_cons|]. etrans; [exact Hc|]. exact (f_equal (delete_all gone) Hc').
    + intros Hf err. split; [exact Hq'|]. right. split; [done|]. split; [done|]. exists [id]. split; [by exists ids|exact Hc'].
Qed.

(** What a query for pruning selects is what the memory store prunes. *)
Lemma prunable_ids_spec db now retention : quiet co db → 0 < retention →
  prunable_ids co (TimeAdd now (- retention)) ((fun kv => (kv.1, rw_Payload kv.2)) <$> range (rows db)) ≡ₚ
  collectPrunableIDs (contents co db) now retention.
Proof.
  intros Hq Hpos. set (cutoff := TimeAdd now (- retention)).
  set (select := fun (id : string) (payload : string) => match decoded co payload with
                                                        | Some status => if prunable cutoff status then Some id else None
                                                        | None => None
                                                        end).
  unfold prunable_ids. rewrite (omap_payloads select).
  apply NoDup_Permutation.
  - pose proof (NoDup_fst_map_to_list (rows db)) as Hnd. rewrite <- (range_perm (rows db)) in Hnd.
    revert Hnd. generalize (range (rows db)). intros l. induction l as [|[id row] l IH]; [constructor|]. cbn. intros [Hnot Hnd]%NoDup_cons.
    destruct (select id (rw_Payload row)) as [id'|] eqn:Hs; [|by apply IH]. constructor; [|by apply IH].
    assert (id' = id) as -> by (unfold select in Hs; destruct (decoded co _); [|done]; destruct (prunable _ _); congruence).
    intros ([id2 row2] & Hin & Hs2)%list_elem_of_omap. apply Hnot. cbn in Hs2.
    assert (id = id2) as -> by (unfold select in Hs2; destruct (decoded co (rw_Payload row2)); [|done]; destruct (prunable _ _); congruence).
    by apply (list_elem_of_fmap_2 fst _ (id2, row2)).
  - apply collectPrunableIDs_NoDup.
  - intros id. rewrite collectPrunableIDs_in, list_elem_of_omap. split.
    + intros ([id' row] & Hin%elem_of_range & Hs). cbn in Hs. unfold select in Hs. destruct (decoded co (rw_Payload row)) as [status|] eqn:Hd; [|done].
      destruct (prunable cutoff status) eqn:Hp; [|done]. injection Hs as <-. split; [done|]. exists status. by rewrite contents_lookup, Hin.
    + intros (_ & status & Hc & Hp). rewrite contents_lookup in Hc. destruct (rows db !! id) as [row|] eqn:Hr; [|done].
      exists (id, row). split; [by apply elem_of_range|]. cbn in *. unfold select. rewrite Hc. fold cutoff in Hp. by rewrite Hp.
Qed.

Lemma delete_all_perm ids ids' (m : Allocations) : ids ≡ₚ ids' → delete_all ids m = delete_all ids' m.
Proof. intros Hp. apply map_eq. intros i. rewrite !lookup_delete_all. apply decide_ext. by rewrite Hp. Qed.

(** Pruning removes what the memory store prunes, or an error leaves some of it. *)
Definition pruned db now retention (a : Z * option error) db' : Prop :=
  quiet co db' ∧
  let spec := Memory.PruneTerminal (memory db) now retention in
  ((Ok a.1 = spec.1 ∧ a.2 = None ∧ contents co db' = Memory.allocations spec.2) ∨
   (is_Some a.2 ∧ faulty ∧ ∃ gone, gone ⊆ collectPrunableIDs (contents co db) now retention ∧ contents co db' = delete_all gone (contents co db))).

Lemma serve_PruneTerminal db now retention : quiet co db →
  wp epoch faulty s (PruneTerminal co now retention) db (pruned db now retention).
Proof.
  intros Hq. unfold PruneTerminal. destruct (Z.leb_spec retention 0) as [Hneg|Hpos].
  { split; [done|]. cbv zeta. unfold Memory.PruneTerminal. apply Z.leb_le in Hneg as ->. by left. }
  assert (Hstopped : ∀ err, faulty → wp epoch faulty s (Ret (0, Some err)) db (pruned db now retention)).
  { intros err Hf. split; [done|]. right. split; [done|]. split; [done|]. exists []. split; [apply list_subseteq_nil|done]. }
  apply wp_rows; [apply Hq| |by intros; apply Hstopped|by intros; apply Hstopped].
  pose proof (prunable_ids_spec db now retention Hq Hpos) as Hp.
  eapply wp_weaken; [|by apply wp_delete_each]. intros a db' (Hq' & [[-> Hc]|(Ha & Hf & gone & [rest Hg] & Hc)]); (split; [done|]).
    + left. cbv zeta. unfold Memory.PruneTerminal, memory. rewrite spec_store_allocations. apply Z.leb_gt in Hpos as ->. split; [|split; [done|]].
      * cbn. by rewrite Hp.
      * rewrite Hc. by apply delete_all_perm.
    + right. split; [done|]. split; [done|]. exists gone. split; [|done]. intros id Hid. rewrite <- Hp, Hg. apply elem_of_app. by left.
Qed.

Definition runs_to {D} `{!Server D} {A} (d : D) (p : program A) (Q : A → Database → Prop) : Prop :=
  ∃ a d', run s p d = Some (a, d') ∧ Q a (sv_database d').

(** C5. A caller that has the shared store to itself never waits, and every operation of the store answers and
    leaves the records as the memory store does.  What can differ: a record without JSON, or with the
    workflow job of another record, is refused and nothing changes; on a server that fails, an operation
    reports the failure and its effect is absent or complete, a query answers nothing, a listing misses
    records without saying so, and a pruning stops half way. *)
Theorem single_caller_is_served_as_by_memory {D} `{!Server D, !ServerLaws epoch faulty D} (d : D) :
  quiet co (sv_database d) →
  let db := sv_database d in
  (∀ status, runs_to d (Save co status) (served db (unsavable co (contents co db) status) is_Some (Memory.Save (memory db) status))) ∧
  (∀ id, runs_to d (Delete id) (served db False is_Some (Memory.Delete (memory db) id))) ∧
  (∀ id state now message, runs_to d (MarkState co id state now message)
     (served db (unmarkable db id state now message) (eq None) (Memory.MarkState (memory db) id state now message))) ∧
  (∀ id from to now message, runs_to d (CompareAndMarkState co id from to now message)
     (served db (unmarkable db id to now message) (eq None) (Memory.CompareAndMarkState (memory db) id from to now message))) ∧
  (∀ status from, runs_to d (SaveIfState co status from)
     (served db (unsavable co (contents co db) status) (fun r => is_Ok r = false) (Memory.SaveIfState (memory db) status from))) ∧
  (∀ status maxRunners tenantQuota backendLimit, as_ID status ≠ "" →
     runs_to d (SaveIfCapacity co status maxRunners tenantQuota backendLimit)
       (served db (unsavable co (contents co db) status) is_Some (Memory.SaveIfCapacity (memory db) status maxRunners tenantQuota backendLimit))) ∧
  (∀ now retention, runs_to d (PruneTerminal co now retention) (pruned db now retention)) ∧
  (∀ id, runs_to d (Get co id) (queried db (eq (Memory.Get (memory db) id)) None)) ∧
  runs_to d (List co) (listed db) ∧
  (∀ pool backend, runs_to d (CountActive pool backend) (queried db (eq (Memory.CountActive (memory db) pool backend)) 0)) ∧
  (∀ backend, runs_to d (CountBackendActive backend) (queried db (eq (Memory.CountBackendActive (memory db) backend)) 0)) ∧
  (∀ pool tenant, runs_to d (CountTenantActive pool tenant) (queried db (eq (Memory.CountTenantActive (memory db) pool tenant)) 0)).
Proof.
  intros Hq db. unfold runs_to. split_and!; intros; apply (wp_run epoch faulty s _ _ d).
  - by apply serve_Save.
  - by apply serve_Delete.
  - by apply serve_MarkState.
  - by apply serve_CompareAndMarkState.
  - by apply serve_SaveIfState.
  - by apply serve_SaveIfCapacity.
  - by apply serve_PruneTerminal.
  - by apply query_Get.
  - by apply query_List.
  - by apply (query_counts db pool backend "").
  - by apply (query_counts db "" backend "").
  - by apply (query_counts db pool "" tenant).
Qed.
End Alone.

(** ** Witness *)

#[local] Existing Instance range_forward.
#[local] Existing Instance sample_server.
#[local] Existing Instance sample_laws.
#[local] Existing Instance sample_codec_laws.

Lemma single_caller_is_served_as_by_memory_witness :
  runs_to 0 empty_database (SaveIfCapacity sample_codec (sample "a" StateReserved) 1 0 0)
    (served False sample_codec empty_database (unsavable sample_codec ∅ (sample "a" StateReserved)) is_Some
       (Memory.SaveIfCapacity (memory sample_codec empty_database) (sample "a" StateReserved) 1 0 0)).
Proof.
  destruct (single_caller_is_served_as_by_memory 0 False sample_codec 0 empty_database) as (_ & _ & _ & _ & _ & Hsave & _); [by apply empty_quiet|].
  by apply Hsave.
Defined.
