(* ===== verification/PostgresConcurrency.v ===== *)
(** Admissions of several callers on the shared store: runs of a server that interleave the
    statements of their transactions, and two admissions that do not see each other. *)

From S2P Require Import Prelude Errors Model Store StoreTheory Postgres PostgresTheory.
Open Scope Z_scope.
Open Scope go_scope.
Import Postgres.

(** ** Runs of a server *)

Section Follow.
Context `{GoRange} (epoch : Time) {D : Type} `{!Server D, !ServerLaws epoch False D}.
Existing Instance documented_server | 10.

(** One session after the other. *)
Inductive goes {A} (s : nat) : Database * program A → Database * program A → Prop :=
  | goes_refl x : goes s x x
  | goes_ask {X} db (q : statement X) k answer db1 y : execute epoch db s q = Some (answer, db1) → goes s (db1, k answer) y → goes s (db, Ask q k) y.

Lemma goes_trans {A} s (x y z : Database * program A) : goes s x y → goes s y z → goes s x z.
Proof. induction 1; [done|]. intros Hz. econstructor; eauto. Qed.

(** A server that does not fail follows any run of the documentation. *)
Lemma follow {A} s (x y : Database * program A) : goes s x y → ∀ d calls, sv_database d = x.1 → calls !! s = Some x.2 →
  ∃ d', rtc step (d, calls) (d', <[s := y.2]> calls) ∧ sv_database d' = y.1.
Proof.
  induction 1 as [x|X db q k answer db1 y He Hg IH]; intros d calls Hd Hs; cbn in *.
  { exists d. split; [|done]. rewrite insert_id by done. apply rtc_refl. }
  assert (∃ d1, sv_exec d s q = Some (answer, d1) ∧ sv_database d1 = db1) as (d1 & Hd1 & Hdb1).
  { destruct (sv_exec d s q) as [[answer' d1]|] eqn:Hx; [|apply exec_waits in Hx; congruence].
    exists d1. pose proof Hx as Hx'%exec_answers. destruct Hx' as [Hx'|[[] _]]. rewrite Hd, He in Hx'. by injection Hx' as <- <-. }
  destruct (IH d1 (<[s := k answer]> calls) Hdb1) as (d' & Hsteps & Hd'); [by rewrite lookup_insert_eq|].
  exists d'. split; [|done]. rewrite insert_insert_eq in Hsteps. eapply rtc_l; [|exact Hsteps]. apply (step_session d calls s (Ask q k)); [done|].
  cbn. by rewrite Hd1.
Qed.

(** Sessions by turns. *)
Inductive weaves {A} : Database * gmap nat (program A) → Database * gmap nat (program A) → Prop :=
  | weaves_refl x : weaves x x
  | weaves_turn db calls s p db1 p1 y : calls !! s = Some p → goes s (db, p) (db1, p1) → weaves (db1, <[s := p1]> calls) y → weaves (db, calls) y.

Lemma follow_weaves {A} (x y : Database * gmap nat (program A)) : weaves x y → ∀ d, sv_database d = x.1 →
  ∃ d', rtc step (d, x.2) (d', y.2) ∧ sv_database d' = y.1.
Proof.
  induction 1 as [x|db calls s p db1 p1 y Hs Hg _ IH]; intros d Hd; [by exists d|].
  destruct (follow s _ _ Hg d calls) as (d1 & Hsteps & Hd1); [done|done|]. destruct (IH d1 Hd1) as (d' & Hrest & Hd').
  exists d'. split; [|done]. by etrans.
Qed.
End Follow.

(** ** Admissions *)

Section Admission.
Context `{GoRange} (epoch : Time) (co : Codec) `{!CodecLaws co}.
Implicit Types (db : Database) (o : gmap nat Transaction).

Definition with_open db o : Database := { db with db_Open := o }.

Lemma execute_begin db o s : o !! s = None → execute epoch (with_open db o) s Begin = Some (Ok tt, with_open db (<[s := fresh]> o)).
Proof. intros Ho. cbn. by rewrite Ho. Qed.

Lemma execute_count db o s w : o !! s = Some fresh →
  execute epoch (with_open db o) s (CountAllocations w) = Some (Ok (count_map (in_where w) (rows db)), with_open db o).
Proof. intros Ho. cbn. unfold ordinary. cbn. rewrite Ho. cbn. rewrite seen_empty, insert_id by done. by destruct db. Qed.

Lemma execute_upsert db o s id row : o !! s = Some fresh →
  locked_in tx_Allocations (delete s o) id = false → job_pending (rows db) (delete s o) id row = false → job_taken (rows db) id row = false →
  execute epoch (with_open db o) s (UpsertAllocation id row) = Some (Ok tt, with_open db (<[s := writing fresh id (Some row)]> o)).
Proof.
  intros Ho Hl Hp Ht. cbn. unfold ordinary. cbn. rewrite Ho. cbn. unfold rows in *. rewrite Hl, Hp. cbn. rewrite seen_empty, Ht by done. by destruct db.
Qed.

Lemma execute_commit db o s tx : o !! s = Some tx → tx_Aborted tx = false →
  execute epoch (with_open db o) s Commit = Some (Ok tt, with_open (published db tx) (delete s o)).
Proof. intros Ho Ha. cbn. by rewrite Ho, Ha. Qed.

(** The limits let a caller pass that sees only what is committed. *)
Lemma goes_limits db o s status maxRunners tenantQuota backendLimit : quiet co db → o !! s = Some fresh → as_ID status ≠ "" →
  capacityAllowed (contents co db) status maxRunners tenantQuota backendLimit = None →
  goes epoch s (with_open db o,
    check_limit maxRunners (where_active (as_Pool status) (as_SelectedBackend status) (Some (as_ID status))) "count active allocations: " (
    check_limit backendLimit (where_backend (as_SelectedBackend status) (Some (as_ID status))) "count backend allocations: " (
    check_limit tenantQuota (where_tenant (as_Pool status) (as_Tenant status) (Some (as_ID status))) "count tenant allocations: " (
    saveTx co status Some (commit id))))) (with_open db o, saveTx co status Some (commit id)).
Proof.
  intros Hq Ho Hid Hallowed. assert (Hn : Some (as_ID status) ≠ Some "") by congruence.
  assert (Hcheck : ∀ limit w text k, (0 <? limit) && (limit <=? count_map (in_where w) (rows db)) = false →
    goes epoch s (with_open db o, check_limit limit w text k) (with_open db o, k)).
  { intros limit w text k Hl. unfold check_limit. destruct (0 <? limit); [|constructor]. cbn [andb] in Hl.
    eapply goes_ask; [by apply (execute_count db o s w Ho)|]. cbv beta iota. rewrite Hl. constructor. }
  pose proof (count_active co db (as_Pool status) (as_SelectedBackend status) _ Hq Hn) as Hactive.
  pose proof (count_backend co db (as_SelectedBackend status) _ Hq Hn) as Hbackend.
  pose proof (count_tenant co db (as_Pool status) (as_Tenant status) _ Hq Hn) as Htenant.
  change (excluding (Some (as_ID status))) with (as_ID status) in *.
  unfold capacityAllowed in Hallowed. rewrite <- Hactive, <- Hbackend, <- Htenant in Hallowed.
  destruct (_ && _) eqn:H1 in Hallowed; [done|]. destruct (_ && _) eqn:H2 in Hallowed; [done|]. destruct (_ && _) eqn:H3 in Hallowed; [done|].
  eapply goes_trans; [by apply Hcheck|]. eapply goes_trans; [by apply Hcheck|]. by apply Hcheck.
Qed.

Lemma goes_begun db o o' s status maxRunners tenantQuota backendLimit : quiet co db → o !! s = None → as_ID status ≠ "" →
  capacityAllowed (contents co db) status maxRunners tenantQuota backendLimit = None → o' = <[s := fresh]> o →
  goes epoch s (with_open db o, SaveIfCapacity co status maxRunners tenantQuota backendLimit)
    (with_open db o', saveTx co status Some (commit id)).
Proof.
  intros Hq Ho Hid Ha ->. eapply goes_ask; [by apply execute_begin|]. apply goes_limits; [done| |done|done]. by rewrite lookup_insert_eq.
Qed.

Lemma goes_saved db o o' s status payload (finish : option error → option error) : o !! s = Some fresh → co_Marshal co status = Ok payload →
  locked_in tx_Allocations (delete s o) (as_ID status) = false →
  job_pending (rows db) (delete s o) (as_ID status) (row_of status payload) = false →
  job_taken (rows db) (as_ID status) (row_of status payload) = false →
  o' = <[s := writing fresh (as_ID status) (Some (row_of status payload))]> o →
  goes epoch s (with_open db o, saveTx co status Some (commit finish)) (with_open db o', commit finish).
Proof. intros Ho Hm Hl Hp Ht ->. unfold saveTx. rewrite Hm. eapply goes_ask; [by apply execute_upsert|]. constructor. Qed.

Lemma goes_committed db o o' s tx (finish : option error → option error) : o !! s = Some tx → tx_Aborted tx = false → o' = delete s o →
  goes epoch s (with_open db o, commit finish) (with_open (published db tx) o', Ret (finish None)).
Proof. intros Ho Ha ->. eapply goes_ask; [by apply execute_commit|]. constructor. Qed.

Lemma closed_open db : closed db → with_open db ∅ = db.
Proof. apply db_eta. Qed.

(** Two records that do not share a workflow job. *)
Definition jobs_apart (status other : AllocationStatus) : Prop :=
  ∀ job, allocationWorkflowJobID status = Some job → allocationWorkflowJobID other ≠ Some job.

Lemma pending_apart db s status payload other payload' : quiet co db → jobs_apart status other → ¬ job_held (contents co db) other →
  as_ID status ≠ as_ID other →
  job_pending (rows db) {[ s := writing fresh (as_ID status) (Some (row_of status payload)) ]} (as_ID other) (row_of other payload') = false.
Proof.
  intros Hq Hapart Hheld Hid. unfold job_pending. rewrite map_to_list_singleton. cbn.
  rewrite insert_empty, map_to_list_singleton. cbn. rewrite !orb_false_r.
  apply andb_false_iff. right. apply orb_false_iff. split.
  - unfold same_job. cbn. destruct (allocationWorkflowJobID status) as [job|] eqn:Hs; [|done].
    destruct (allocationWorkflowJobID other) as [job'|] eqn:Ho; [|done]. apply Z.eqb_neq. intros ->. by apply (Hapart job').
  - destruct (rows db !! as_ID status) as [old|] eqn:Hr; [|done]. unfold same_job. destruct (quiet_row co db _ _ Hq Hr) as (was & text & -> & _ & _ & Hc). cbn.
    destruct (allocationWorkflowJobID was) as [job|] eqn:Hw; [|done]. destruct (allocationWorkflowJobID other) as [job'|] eqn:Ho; [|done].
    apply Z.eqb_neq. intros ->. apply Hheld. by exists (as_ID status), was, job'.
Qed.

(** The sessions of two callers. *)
Section Pair.
Context (s1 s2 : nat) (Hs : s1 ≠ s2).

Definition pair_of {V} (a b : V) : gmap nat V := <[s2 := b]> {[ s1 := a ]}.

Lemma pair_first {V} (a b : V) : pair_of a b !! s1 = Some a.
Proof. unfold pair_of. by rewrite lookup_insert_ne, lookup_singleton_eq. Qed.

Lemma pair_second {V} (a b : V) : pair_of a b !! s2 = Some b.
Proof. apply lookup_insert_eq. Qed.

Lemma pair_set_first {V} (a b c : V) : <[s1 := c]> (pair_of a b) = pair_of c b.
Proof. unfold pair_of. by rewrite insert_insert_ne, insert_singleton_eq. Qed.

Lemma pair_set_second {V} (a b c : V) : <[s2 := c]> (pair_of a b) = pair_of a c.
Proof. apply insert_insert_eq. Qed.

Lemma pair_without_first {V} (a b : V) : delete s1 (pair_of a b) = {[ s2 := b ]}.
Proof. unfold pair_of. by rewrite delete_insert_ne, delete_singleton_eq. Qed.

Lemma pair_without_second {V} (a b : V) : delete s2 (pair_of a b) = {[ s1 := a ]}.
Proof. unfold pair_of. by rewrite delete_insert_eq, delete_singleton_ne. Qed.

(** Both transactions pass their checks before either saves. *)
Lemma race db status1 status2 payload1 payload2 maxRunners tenantQuota backendLimit : quiet co db →
  as_ID status1 ≠ "" → as_ID status2 ≠ "" → as_ID status1 ≠ as_ID status2 →
  capacityAllowed (contents co db) status1 maxRunners tenantQuota backendLimit = None →
  capacityAllowed (contents co db) status2 maxRunners tenantQuota backendLimit = None →
  co_Marshal co status1 = Ok payload1 → co_Marshal co status2 = Ok payload2 →
  ¬ job_held (contents co db) status1 → ¬ job_held (contents co db) status2 → jobs_apart status1 status2 →
  weaves epoch (db, pair_of (SaveIfCapacity co status1 maxRunners tenantQuota backendLimit)
                            (SaveIfCapacity co status2 maxRunners tenantQuota backendLimit))
    (published (published db (writing fresh (as_ID status1) (Some (row_of status1 payload1))))
               (writing fresh (as_ID status2) (Some (row_of status2 payload2))), pair_of (Ret None) (Ret None)).
Proof.
  intros Hq Hid1 Hid2 Hid Hallow1 Hallow2 Hm1 Hm2 Hheld1 Hheld2 Hapart. set (tx1 := writing fresh (as_ID status1) _). set (tx2 := writing fresh (as_ID status2) _).
  assert (Htaken : ∀ status payload, ¬ job_held (contents co db) status → job_taken (rows db) (as_ID status) (row_of status payload) = false).
  { intros status payload Hn. apply not_true_is_false. intros Ht. by apply Hn, (job_taken_held co db status payload Hq). }
  rewrite <- (closed_open db) at 1 by apply Hq.
  eapply (weaves_turn epoch _ _ s1); [apply pair_first|by apply (goes_begun db ∅ {[ s1 := fresh ]})|rewrite pair_set_first].
  eapply (weaves_turn epoch _ _ s2); [apply pair_second| |rewrite pair_set_second].
  { apply (goes_begun db _ (pair_of fresh fresh)); [done|by apply lookup_singleton_ne|done..]. }
  eapply (weaves_turn epoch _ _ s1); [apply pair_first| |rewrite pair_set_first].
  { apply (goes_saved db _ (pair_of tx1 fresh) _ _ payload1); [apply pair_first|done|..|by apply Htaken|by rewrite pair_set_first]; rewrite pair_without_first.
    - unfold locked_in. by rewrite map_to_list_singleton.
    - unfold job_pending. by rewrite map_to_list_singleton. }
  eapply (weaves_turn epoch _ _ s2); [apply pair_second| |rewrite pair_set_second].
  { apply (goes_saved db _ (pair_of tx1 tx2) _ _ payload2); [apply pair_second|done|..|by apply Htaken|by rewrite pair_set_second]; rewrite pair_without_second.
    - unfold locked_in. rewrite map_to_list_singleton. cbn. rewrite orb_false_r. apply bool_decide_eq_false. set_solver.
    - by apply pending_apart. }
  eapply (weaves_turn epoch _ _ s1); [apply pair_first| |rewrite pair_set_first].
  { apply (goes_committed db _ {[ s2 := tx2 ]} _ tx1); [apply pair_first|done|by rewrite pair_without_first]. }
  eapply (weaves_turn epoch _ _ s2); [apply pair_second| |rewrite pair_set_second].
  { apply (goes_committed _ _ ∅ _ tx2); [apply lookup_singleton_eq|done|by rewrite delete_singleton_eq]. }
  rewrite closed_open by apply Hq. apply weaves_refl.
Qed.
End Pair.

Lemma count_new (m : Allocations) pool backend status : m !! as_ID status = None → test_active pool backend status = true →
  countActiveLocked (<[as_ID status := status]> m) pool backend "" = countActiveLocked m pool backend "" + 1.
Proof.
  intros Hn Ht. unfold countActiveLocked. rewrite count_map_insert, Hn. change (counts_active pool backend "" (as_ID status) status) with (test_active pool backend status).
  rewrite Ht. lia.
Qed.

(** C6. On a server that behaves as documented, admissions of two replicas do not see each other: when the last slot
    of a lane is free and both callers ask for it, some interleaving of their transactions grants it to both, and
    the shared store holds one active runner more than maxRunners. *)
Theorem concurrent_admissions_exceed_the_limit {D} `{!Server D, !ServerLaws epoch False D} (d : D) s1 s2 status1 status2
    maxRunners tenantQuota backendLimit pool backend :
  quiet co (sv_database d) → let m := contents co (sv_database d) in
  s1 ≠ s2 → as_ID status1 ≠ "" → as_ID status2 ≠ "" → as_ID status1 ≠ as_ID status2 →
  (∀ status, status = status1 ∨ status = status2 →
     ¬ unsavable co m status ∧ m !! as_ID status = None ∧ test_active pool backend status = true ∧
     capacityAllowed m status maxRunners tenantQuota backendLimit = None) →
  jobs_apart status1 status2 → countActiveLocked m pool backend "" = maxRunners - 1 →
  ∃ d', rtc step (d, pair_of s1 s2 (SaveIfCapacity co status1 maxRunners tenantQuota backendLimit)
                                  (SaveIfCapacity co status2 maxRunners tenantQuota backendLimit))
                 (d', pair_of s1 s2 (Ret None) (Ret None)) ∧
    quiet co (sv_database d') ∧
    contents co (sv_database d') = <[as_ID status2 := status2]> (<[as_ID status1 := status1]> m) ∧
    countActiveLocked (contents co (sv_database d')) pool backend "" = maxRunners + 1.
Proof.
  intros Hq m Hs Hid1 Hid2 Hid Hboth Hapart Hcount. set (db := sv_database d) in *.
  destruct (Hboth status1) as (Hsave1 & Hnew1 & Htest1 & Hallow1); [by left|]. destruct (Hboth status2) as (Hsave2 & Hnew2 & Htest2 & Hallow2); [by right|].
  assert (Hsaved : ∀ status, ¬ unsavable co m status → (∃ payload, co_Marshal co status = Ok payload) ∧ ¬ job_held m status).
  { intros status Hn. split; [|intros Hh; apply Hn; by right]. destruct (co_Marshal co status) as [payload|] eqn:Hm; [by exists payload|].
    destruct Hn. left. by rewrite Hm. }
  apply Hsaved in Hsave1 as [[payload1 Hm1] Hheld1], Hsave2 as [[payload2 Hm2] Hheld2].
  pose proof (race s1 s2 Hs db status1 status2 payload1 payload2 maxRunners tenantQuota backendLimit Hq Hid1 Hid2 Hid
                Hallow1 Hallow2 Hm1 Hm2 Hheld1 Hheld2 Hapart) as Hrace.
  destruct (follow_weaves epoch _ _ Hrace d) as (d' & Hsteps & Hd'); [done|]. exists d'. split; [exact Hsteps|].
  assert (Hu1 : co_Unmarshal co payload1 = Ok status1) by by apply status_roundtrip.
  assert (Hu2 : co_Unmarshal co payload2 = Ok status2) by by apply status_roundtrip.
  cbn [fst] in Hd'. rewrite Hd'. pose proof (quiet_written co db fresh status1 payload1 clean_fresh Hq Hu1) as Hq1.
  split; [by apply quiet_written|]. rewrite (contents_written co _ fresh _ status2 payload2 clean_fresh Hu2).
  rewrite (contents_written co db fresh _ status1 payload1 clean_fresh Hu1). split; [done|].
  rewrite count_new; [|by rewrite lookup_insert_ne|done]. rewrite count_new by done. fold m. lia.
Qed.
End Admission.

(** ** Witness *)

#[local] Existing Instance range_forward.
#[local] Existing Instance sample_server.
#[local] Existing Instance sample_laws.
#[local] Existing Instance sample_codec_laws.

Lemma concurrent_admissions_exceed_the_limit_witness :
  let call := fun id => SaveIfCapacity sample_codec (sample id StateReserved) 1 0 0 in
  ∃ d', rtc step (empty_database, pair_of 1 2 (call "a") (call "b")) (d', pair_of 1 2 (Ret None) (Ret None)) ∧
    countActiveLocked (contents sample_codec d') "lite" "lambda" "" = 2.
Proof.
  destruct (concurrent_admissions_exceed_the_limit 0 sample_codec empty_database 1 2 (sample "a" StateReserved) (sample "b" StateReserved) 1 0 0 "lite" "lambda")
    as (d' & Hsteps & _ & _ & Hcount); [by apply empty_quiet|done..| | | |].
  - intros status [-> | ->]; (split; [|split; [|split]]); try (vm_compute; reflexivity);
      (intros [Hm|(id & other & job & Hid & _)]; [by vm_compute in Hm|by vm_compute in Hid]).
  - intros job Hjob. by vm_compute in Hjob.
  - vm_compute. reflexivity.
  - exists d'. split; [exact Hsteps|exact Hcount].
Defined.
