(* ===== verification/PostgresSessions.v ===== *)
(** Statements of one session among others: what an answer leaves of its transaction, and
    that the transactions of the other sessions stay as they are. *)

From S2P Require Import Prelude Errors Model Store Postgres PostgresTheory.
Open Scope Z_scope.
Open Scope go_scope.
Import Postgres.

(** A row that is not locked is in no open transaction. *)
Lemma locked_in_false {V} (part : Transaction → Part V) (others : gmap nat Transaction) key : locked_in part others key = false →
  ∀ t tx, others !! t = Some tx → key ∉ pt_Locks (part tx).
Proof.
  unfold locked_in. intros Hl t tx Ht Hin. apply not_true_iff_false in Hl. apply Hl, existsb_exists. exists (t, tx).
  split; [by apply list_elem_of_In, elem_of_map_to_list|]. by apply bool_decide_eq_true.
Qed.

Section Session.
Context `{GoRange} (epoch : Time) (faulty : Prop).
Implicit Types (db : Database) (tx : Transaction).

(** A statement of a program on the documented database. *)
Definition moves {A} db s (p p' : program A) db' : Prop :=
  match p with
  | Ret _ => False
  | Ask q k => ∃ answer, answers epoch faulty db s q answer db' ∧ p' = k answer
  end.

Lemma advance_moves {D} `{!Server D, !ServerLaws epoch faulty D} {A} s (p : program A) (d : D) p' d' :
  advance s p d = Some (p', d') → moves (sv_database d) s p p' (sv_database d').
Proof.
  destruct p as [a|X q k]; [done|]. cbn. destruct (sv_exec d s q) as [[answer d1]|] eqn:He; [|done]. intros [= <- <-].
  exists answer. split; [|done]. by apply exec_answers.
Qed.

(** The database with the transaction of a session set, or over. *)
Definition opened db s tx : Database := { db with db_Open := <[s := tx]> (db_Open db) }.

Definition ended db s : Database := { db with db_Open := delete s (db_Open db) }.

(** A statement in an open transaction fails and aborts it, or does what it says. *)
Lemma answers_within db s tx {X} (q : statement X) answer db' : db_Open db !! s = Some tx → tx_Aborted tx = false →
  (∀ d t, execute epoch d t q = ordinary epoch d t q) → failed_in db s q = opened db s aborted → settles db s q = false →
  (∀ all read, ¬ cut_short q all read) →
  answers epoch faulty db s q answer db' →
  (∃ err, answer = Fail err ∧ db' = opened db s aborted) ∨
  (∃ x tx' tables, answer = Ok x ∧ within epoch (db_Now db) (delete s (db_Open db)) (db_Tables db) tx q = Some (Ok x, tx', tables) ∧
     db' = { opened db s tx' with db_Tables := tables }).
Proof.
  intros Ho Ha Hex Hfail Hset Hwhole [He|[_ [(err & -> & Hf)|(all & read & _ & []%Hwhole & _)]]].
  - rewrite Hex in He. unfold ordinary in He. rewrite Ho, Ha in He. destruct (within _ _ _ _ _ _) as [[[[x|err] tx'] tables]|]; [| |done].
    + injection He as <- <-. right. by exists x, tx', tables.
    + injection He as <- <-. left. by exists err.
  - left. exists err. split; [done|]. destruct Hf; [done|congruence].
Qed.

Lemma answers_begin db s answer db' : db_Open db !! s = None → answers epoch faulty db s Begin answer db' →
  (answer = Ok tt ∧ db' = opened db s fresh) ∨ (∃ err, answer = Fail err ∧ db' = db).
Proof.
  intros Ho [He|[_ [(err & -> & Hf)|(? & ? & _ & [] & _)]]].
  - cbn in He. rewrite Ho in He. injection He as <- <-. by left.
  - right. exists err. split; [done|]. by destruct Hf.
Qed.

Lemma answers_rollback db s answer db' : answers epoch faulty db s Rollback answer db' → db' = ended db s.
Proof. intros [[= _ <-]|[_ [(err & -> & Hf)|(? & ? & _ & [] & _)]]]; [done|]. by destruct Hf. Qed.

(** A COMMIT that takes effect may still be reported as failed. *)
Lemma answers_commit db s tx answer db' : db_Open db !! s = Some tx → tx_Aborted tx = false → answers epoch faulty db s Commit answer db' →
  db' = published (ended db s) tx ∨ (error_of answer ≠ None ∧ db' = ended db s).
Proof.
  intros Ho Ha Hans. assert (He : execute epoch db s Commit = Some (Ok tt, published (ended db s) tx)) by by (cbn; rewrite Ho, Ha).
  destruct Hans as [He'|[_ [(err & -> & Hf)|(? & ? & _ & [] & _)]]]; [rewrite He in He'; injection He' as <- <-; by left|].
  destruct Hf as [|x db' _ He']; [by right|]. rewrite He in He'. injection He' as <- <-. by left.
Qed.

Lemma opened_same db s tx : db_Open (opened db s tx) !! s = Some tx.
Proof. apply lookup_insert_eq. Qed.

Lemma ended_same db s : db_Open (ended db s) !! s = None.
Proof. apply lookup_delete_eq. Qed.
End Session.

Lemma opened_other db s tx t : t ≠ s → db_Open (opened db s tx) !! t = db_Open db !! t.
Proof. intros Ht. by apply lookup_insert_ne. Qed.

Lemma ended_other db s t : t ≠ s → db_Open (ended db s) !! t = db_Open db !! t.
Proof. intros Ht. by apply lookup_delete_ne. Qed.
