(* ===== verification/PostgresCompareAndSet.v ===== *)
(** Compare-and-set calls of several callers on the shared store: the row lock makes them
    take turns, and one of them wins. *)

From S2P Require Import Prelude Errors Model Store StoreTheory Postgres PostgresTheory PostgresSessions.
Open Scope Z_scope.
Open Scope go_scope.
Import Postgres.

Section Race.
Context `{GoRange} (epoch : Time) (faulty : Prop) (co : Codec) `{!CodecLaws co} (id : string) (from : AllocationState).
Context (requests : gmap nat (AllocationState * Time * string)).
Implicit Types (db : Database) (r : AllocationState * Time * string) (c : option AllocationStatus).

(** One call, and what is left of it after each statement. *)
Definition attempt r : program (option AllocationStatus) := CompareAndMarkState co id from r.1.1 r.1.2 r.2.

Definition marked r (status : AllocationStatus) : AllocationStatus := applyMarkState status r.1.1 r.1.2 r.2.

Definition finish (status : AllocationStatus) (err : option error) : option AllocationStatus := if err is Some _ then None else Some status.

Definition marking r status : program (option AllocationStatus) := saveTx co (marked r status) (fun _ => None) (commit (finish (marked r status))).

Definition deciding r status : program (option AllocationStatus) :=
  if negb (state_eqb (as_State status) from) then rollback None else marking r status.

Definition reading r : program (option AllocationStatus) := getForUpdate co id (fun _ => None) None (deciding r).

(** The record that a call goes by while it holds the lock. *)
Record going r c status payload : Prop := {
  going_record : c = Some status;
  going_state : as_State status = from;
  going_id : as_ID status = id;
  going_payload : co_Marshal co (marked r status) = Ok payload;
}.

(** Where a call is, with the record [c] that is committed and its transaction. *)
Inductive phase r c : option Transaction → program (option AllocationStatus) → Prop :=
  | phase_start : phase r c None (attempt r)
  | phase_begun : phase r c (Some fresh) (reading r)
  | phase_holding status payload : going r c status payload → phase r c (Some (locking fresh id)) (marking r status)
  | phase_written status payload : going r c status payload →
      phase r c (Some (writing (locking fresh id) id (Some (row_of (marked r status) payload)))) (commit (finish (marked r status)))
  | phase_over tx : pt_Rows (tx_Allocations tx) = ∅ → phase r c (Some tx) (rollback None)
  | phase_lost : phase r c None (Ret None)
  | phase_won m : c = Some m → as_State m ≠ from → phase r c None (Ret (Some m)).

Definition holds db s : Prop := ∃ tx, db_Open db !! s = Some tx ∧ id ∈ pt_Locks (tx_Allocations tx).

Definition record_at db : option AllocationStatus := contents co db !! id.

Definition rows_fine db : Prop := ∀ row, rows db !! id = Some row → row_ok co id row.

(** The record is still in the state that the calls expect. *)
Definition expected db : Prop := ∃ status, record_at db = Some status ∧ as_State status = from.

(** What a statement of one session does to the others. *)
Record turn db s r (p' : program (option AllocationStatus)) db' : Prop := {
  turn_others t : t ≠ s → db_Open db' !! t = db_Open db !! t;
  turn_rows : rows_fine db';
  turn_phase : phase r (record_at db') (db_Open db' !! s) p';
  turn_lock : holds db' s → holds db s ∨ ∀ t, t ≠ s → ¬ holds db t;
  turn_change : record_at db' = record_at db ∨ (holds db s ∧ expected db);
  turn_won m : p' = Ret (Some m) → expected db;
}.

(** A turn that changes no row. *)
Lemma turn_quietly db s r p' db' : rows_fine db → (∀ t, t ≠ s → db_Open db' !! t = db_Open db !! t) → rows db' = rows db →
  phase r (record_at db) (db_Open db' !! s) p' → (holds db' s → holds db s ∨ ∀ t, t ≠ s → ¬ holds db t) → (∀ m, p' ≠ Ret (Some m)) →
  turn db s r p' db'.
Proof.
  intros Hr Ho Hrows Hp Hl Hw. assert (Hc : record_at db' = record_at db) by by (unfold record_at, contents; rewrite Hrows).
  split; [done|by unfold rows_fine; rewrite Hrows|by rewrite Hc|done|by left|by intros m Hm%Hw].
Qed.

Lemma turn_aborted db s r : rows_fine db → turn db s r (rollback None) (opened db s aborted).
Proof.
  intros Hr. apply turn_quietly; [done|apply opened_other|done| |intros (tx & Htx & Hin)|done].
  - rewrite opened_same. by apply phase_over.
  - rewrite opened_same in Htx. injection Htx as <-. cbn in Hin. set_solver.
Qed.

Lemma turn_ended db s r : rows_fine db → turn db s r (Ret None) (ended db s).
Proof.
  intros Hr. apply turn_quietly; [done|apply ended_other|done| |intros (tx & Htx & _)|done].
  - rewrite ended_same. apply phase_lost.
  - by rewrite ended_same in Htx.
Qed.

Lemma turn_opened db s r tx p' : rows_fine db → phase r (record_at db) (Some tx) p' →
  (id ∈ pt_Locks (tx_Allocations tx) → holds db s ∨ ∀ t, t ≠ s → ¬ holds db t) → (∀ m, p' ≠ Ret (Some m)) → turn db s r p' (opened db s tx).
Proof.
  intros Hr Hp Hl Hw. apply turn_quietly; [done|apply opened_other|done|by rewrite opened_same| |done].
  intros (tx' & Htx & Hin). rewrite opened_same in Htx. injection Htx as <-. by apply Hl.
Qed.

Lemma attempt_reads r : attempt r = transaction (fun _ => None) (reading r).
Proof. done. Qed.

Lemma locks_fresh : id ∉ pt_Locks (tx_Allocations fresh).
Proof. set_solver. Qed.

Lemma marked_keeps_ID r status : as_ID (marked r status) = as_ID status.
Proof. apply applyMarkState_ID. Qed.

Lemma marked_State r status : as_State (marked r status) = r.1.1.
Proof. apply applyMarkState_lane. Qed.

Lemma turn_start db s r p' db' : rows_fine db → db_Open db !! s = None → moves epoch faulty db s (attempt r) p' db' → turn db s r p' db'.
Proof.
  intros Hr Ho (answer & Ha & ->). apply answers_begin in Ha as [[-> ->]|(err & -> & ->)]; [| |done].
  - apply turn_opened; [done|apply phase_begun|by intros []%locks_fresh|done].
  - apply turn_quietly; [done..|by rewrite Ho; apply phase_lost|by left|done].
Qed.

(** The row is locked unless another call holds it; then the state decides. *)
Lemma turn_begun db s r p' db' : rows_fine db → db_Open db !! s = Some fresh → moves epoch faulty db s (reading r) p' db' → turn db s r p' db'.
Proof.
  intros Hr Ho (answer & Ha & ->). eapply answers_within in Ha as [(err & -> & ->)|(x & tx & tables & -> & Hw & ->)];
    [by apply turn_aborted| |exact Ho|done|done|by cbn; rewrite Ho|by cbn; rewrite Ho|by intros ? ? []].
  cbn in Hw. destruct (locked_in _ _ _) eqn:Hl; [done|]. rewrite seen_empty in Hw by done. injection Hw as <- <- <-. fold (rows db).
  change (turn db s r ?p _) with (turn db s r p (opened db s (if rows db !! id is Some _ then locking fresh id else fresh))).
  destruct (rows db !! id) as [row|] eqn:Hrow; cbn [fmap option_fmap option_map].
  2:{ apply turn_opened; [done|by apply phase_over|by intros []%locks_fresh|done]. }
  destruct (Hr row Hrow) as (status & Hu & Hid & _). rewrite Hu.
  assert (Hc : record_at db = Some status) by by (unfold record_at, contents, decoded; rewrite lookup_omap, Hrow; cbn; rewrite Hu).
  assert (Hfree : ∀ t, t ≠ s → ¬ holds db t).
  { intros t Ht (tx' & Htx' & Hin). eapply locked_in_false; [exact Hl| |exact Hin]. by rewrite lookup_delete_ne. }
  unfold deciding. destruct (state_eqb (as_State status) from) eqn:Hs; cbn [negb].
  2:{ apply turn_opened; [done|by apply phase_over|by right|done]. }
  apply bool_decide_eq_true in Hs. destruct (co_Marshal co (marked r status)) as [payload|err] eqn:Hm.
  - apply turn_opened; [done|by apply (phase_holding _ _ status payload)|by right|]. intros m. unfold marking, saveTx. by rewrite Hm.
  - unfold marking, saveTx. rewrite Hm. apply turn_opened; [done|by apply phase_over|by right|done].
Qed.

Lemma turn_holding db s r status payload p' db' : rows_fine db → db_Open db !! s = Some (locking fresh id) → going r (record_at db) status payload →
  moves epoch faulty db s (marking r status) p' db' → turn db s r p' db'.
Proof.
  intros Hr Ho Hg. unfold marking, saveTx. rewrite (going_payload _ _ _ _ Hg). intros (answer & Ha & ->).
  eapply answers_within in Ha as [(err & -> & ->)|(x & tx & tables & -> & Hw & ->)];
    [by apply turn_aborted| |exact Ho|done|done|by cbn; rewrite Ho|by cbn; rewrite Ho|by intros ? ? []].
  cbn in Hw. destruct (_ || _); [done|]. destruct (job_taken _ _ _); [done|]. injection Hw as <- <- <-.
  rewrite marked_keeps_ID, (going_id _ _ _ _ Hg).
  change (turn db s r ?p _) with (turn db s r p (opened db s (writing (locking fresh id) id (Some (row_of (marked r status) payload))))).
  apply turn_opened; [done|by apply (phase_written _ _ status payload)| |done].
  intros _. left. exists (locking fresh id). split; [done|]. cbn. set_solver.
Qed.

(** The commit that takes effect ends the state that the others wait for. *)
Lemma turn_written db s r status payload p' db' : r.1.1 ≠ from → rows_fine db →
  let tx := writing (locking fresh id) id (Some (row_of (marked r status) payload)) in
  db_Open db !! s = Some tx → going r (record_at db) status payload →
  moves epoch faulty db s (commit (finish (marked r status))) p' db' → turn db s r p' db'.
Proof.
  intros Hto Hr tx Ho Hg (answer & Ha & ->). apply (answers_commit _ _ _ _ tx) in Ha as [->|[He ->]]; [|by destruct (error_of answer); [apply turn_ended|]|done..].
  assert (Hu : co_Unmarshal co payload = Ok (marked r status)) by by apply status_roundtrip, Hg.
  assert (Hid : as_ID (marked r status) = id) by by rewrite marked_keeps_ID; apply Hg.
  assert (Hclean : clean (locking fresh id)) by by apply clean_locking.
  assert (Hc : record_at (published (ended db s) tx) = Some (marked r status)).
  { unfold record_at, tx. rewrite (contents_written co _ _ _ _ _ Hclean Hu). apply lookup_insert_eq. }
  assert (Hheld : holds db s) by by (exists tx; split; [done|]; cbn; set_solver).
  assert (Hexp : expected db) by by (exists status; split; apply Hg).
  split; [apply ended_other| | |intros (tx' & Htx' & _)|by right|done].
  - intros row. unfold tx. rewrite (rows_written _ _ _ _ Hclean), lookup_insert_eq. intros [= <-]. by exists (marked r status).
  - rewrite Hc. rewrite (ended_same db s : db_Open (published (ended db s) tx) !! s = None).
    destruct (error_of answer); [apply phase_lost|]. apply phase_won; [done|]. by rewrite marked_State.
  - cbn in Htx'. by rewrite lookup_delete_eq in Htx'.
Qed.

Lemma turn_of db s r p p' db' : r.1.1 ≠ from → rows_fine db → phase r (record_at db) (db_Open db !! s) p →
  moves epoch faulty db s p p' db' → turn db s r p' db'.
Proof.
  intros Hto Hr Hp. remember (db_Open db !! s) as o eqn:Ho. symmetry in Ho. destruct Hp as [| |status payload Hg|status payload Hg|tx Hn| |m Hm Hs].
  - by apply turn_start.
  - by apply turn_begun.
  - by apply (turn_holding _ _ _ _ payload).
  - by apply (turn_written _ _ _ _ payload).
  - intros (answer & Ha & ->). apply answers_rollback in Ha as ->. by apply turn_ended.
  - done.
  - done.
Qed.

Record invariant db (calls : gmap nat (program (option AllocationStatus))) : Prop := {
  inv_rows : rows_fine db;
  inv_phase s p : calls !! s = Some p → ∃ r, requests !! s = Some r ∧ phase r (record_at db) (db_Open db !! s) p;
  inv_open s tx : db_Open db !! s = Some tx → is_Some (calls !! s);
  inv_lock s t : holds db s → holds db t → s = t;
  inv_winner s t m n : calls !! s = Some (Ret (Some m)) → calls !! t = Some (Ret (Some n)) → s = t;
}.

Lemma phase_answer r c o m : phase r c o (Ret (Some m)) → c = Some m ∧ as_State m ≠ from.
Proof.
  intros Hp. remember (Ret (Some m)) as p eqn:Hr. destruct Hp as [| |status payload Hg|status payload Hg|tx Hn| |n Hn Hs]; try done.
  - unfold marking, saveTx in Hr. by rewrite (going_payload _ _ _ _ Hg) in Hr.
  - by injection Hr as ->.
Qed.

Lemma won_not_expected r o db m : phase r (record_at db) o (Ret (Some m)) → ¬ expected db.
Proof. intros [Hc Hs]%phase_answer (status & Hc' & Heq). congruence. Qed.

(** The phase of a session that did not move. *)
Lemma phase_stays r db db' s t p : s ≠ t → (∀ s t, holds db s → holds db t → s = t) →
  record_at db' = record_at db ∨ (holds db s ∧ expected db) → phase r (record_at db) (db_Open db !! t) p →
  phase r (record_at db') (db_Open db !! t) p.
Proof.
  intros Hst Hlock [->|[Hs Hexp]]; [done|]. assert (Ht : ¬ holds db t) by by intros Ht; apply Hst, Hlock.
  intros Hp. remember (db_Open db !! t) as o eqn:Ho. symmetry in Ho. destruct Hp as [| |status payload Hg|status payload Hg|tx Hn| |m Hm Hs'].
  - apply phase_start.
  - apply phase_begun.
  - destruct Ht. exists (locking fresh id). split; [done|]. cbn. set_solver.
  - destruct Ht. eexists. split; [exact Ho|]. cbn. set_solver.
  - by apply phase_over.
  - apply phase_lost.
  - destruct Hexp as (status & Hc & Heq). congruence.
Qed.

Lemma holds_other db db' t : db_Open db' !! t = db_Open db !! t → holds db' t → holds db t.
Proof. unfold holds. by intros ->. Qed.

Lemma invariant_moves db calls s p p' db' : (∀ s r, requests !! s = Some r → r.1.1 ≠ from) →
  invariant db calls → calls !! s = Some p → moves epoch faulty db s p p' db' → invariant db' (<[s := p']> calls).
Proof.
  intros Hto [Hr Hp Hopen Hl Hw] Hs Hm. destruct (Hp s p Hs) as (r & Hreq & Hph).
  destruct (turn_of db s r p p' db' (Hto s r Hreq) Hr Hph Hm) as [Hothers Hr' Hph' Hlock Hchange Hwon].
  assert (Hone : ∀ m t n, p' = Ret (Some m) → t ≠ s → calls !! t ≠ Some (Ret (Some n))).
  { intros m t n Hm' Ht Hn. destruct (Hp t _ Hn) as (rt & _ & Hpt). by apply (won_not_expected rt _ db n Hpt), (Hwon m). }
  split; [done|..].
  - intros t q. destruct (decide (t = s)) as [->|Ht]; [rewrite lookup_insert_eq; intros [= <-]; by exists r|].
    rewrite lookup_insert_ne by done. intros Hq. destruct (Hp t q Hq) as (rt & Hrt & Hpt). exists rt. split; [done|].
    rewrite Hothers by done. by apply (phase_stays rt db db' s t).
  - intros t tx. destruct (decide (t = s)) as [->|Ht]; [by rewrite lookup_insert_eq|].
    rewrite Hothers, lookup_insert_ne by done. apply Hopen.
  - assert (Hfree : ∀ t, t ≠ s → holds db' s → ¬ holds db' t).
    { intros t Ht Hhs Hht. apply (holds_other db db') in Hht; [|by apply Hothers]. destruct (Hlock Hhs) as [Hhs'|Hfree]; [by apply Ht, Hl|by eapply Hfree]. }
    intros t u Hht Hhu. destruct (decide (t = s)) as [->|Ht], (decide (u = s)) as [->|Hu]; [done|by destruct (Hfree u)|by destruct (Hfree t)|].
    apply Hl; (eapply (holds_other db db'); [by apply Hothers|done]).
  - intros t u m n. destruct (decide (t = s)) as [->|Ht], (decide (u = s)) as [->|Hu]; [done|..]; rewrite ?lookup_insert_eq, ?lookup_insert_ne by done.
    + intros [= Hm'] Hn. by destruct (Hone m u n).
    + intros Hn [= Hm']. by destruct (Hone n t m).
    + apply Hw.
Qed.

Lemma invariant_steps {D} `{!Server D, !ServerLaws epoch faulty D} (x y : D * gmap nat (program (option AllocationStatus))) :
  (∀ s r, requests !! s = Some r → r.1.1 ≠ from) → rtc step x y → invariant (sv_database x.1) x.2 → invariant (sv_database y.1) y.2.
Proof.
  intros Hto. induction 1 as [x|x y z Hstep _ IH]; [done|]. intros Hi. apply IH. destruct Hstep as [d calls s p p' d' Hs Ha]. cbn in *.
  apply (advance_moves epoch faulty) in Ha. by apply (invariant_moves (sv_database d) calls s p).
Qed.

Lemma invariant_start db : quiet co db → invariant db (attempt <$> requests).
Proof.
  intros [Hc Hr]. unfold closed in Hc. assert (Hnone : ∀ s, ¬ holds db s) by by intros s (tx & Htx & _); rewrite Hc, lookup_empty in Htx.
  split; [by intros row; apply Hr| |by rewrite Hc|by intros s t []%Hnone|].
  - intros s p. rewrite lookup_fmap. destruct (requests !! s) as [r|]; [|done]. intros [= <-]. exists r. split; [done|]. rewrite Hc, lookup_empty. constructor.
  - intros s t m n. rewrite lookup_fmap. by destruct (requests !! s).
Qed.

Definition answered (p : program (option AllocationStatus)) : bool := if p is Ret _ then true else false.

(** A statement that does not wait. *)
Definition can_go db s (p : program (option AllocationStatus)) : Prop := match p with Ret _ => False | Ask q _ => execute epoch db s q ≠ None end.

(** The calls write no row but that of the record. *)
Lemma only_the_record r c tx p key : phase r c (Some tx) p → is_Some (pt_Rows (tx_Allocations tx) !! key) → key = id.
Proof.
  intros Hp. inversion Hp as [|Hp' Ho|status payload Hg Ho|status payload Hg Ho|tx' Hn Ho| |]; subst; [by intros []|by intros []| |rewrite Hn; by intros []].
  cbn. rewrite insert_empty. by intros [row [-> _]%lookup_singleton_Some].
Qed.

Lemma no_job_pending db calls s row : invariant db calls → job_pending (tb_Allocations (db_Tables db)) (delete s (db_Open db)) id row = false.
Proof.
  intros Hi. apply not_true_is_false. unfold job_pending. intros ([t tx] & Ht%list_elem_of_In%elem_of_map_to_list & Hrow)%existsb_exists.
  apply existsb_exists in Hrow as ([key written] & Hkey%list_elem_of_In%elem_of_map_to_list & [Hne _]%andb_prop). cbn in *.
  apply lookup_delete_Some in Ht as [_ Ht]. destruct (inv_open _ _ Hi t tx Ht) as [p Hp]. destruct (inv_phase _ _ Hi t p Hp) as (r & _ & Hph).
  rewrite Ht in Hph. rewrite (only_the_record r _ tx p key Hph) in Hne; [by rewrite String.eqb_refl in Hne|by eexists].
Qed.

Lemma locked_in_held db s : locked_in tx_Allocations (delete s (db_Open db)) id = true → ∃ t, t ≠ s ∧ holds db t.
Proof.
  unfold locked_in. intros ([t tx] & Ht%list_elem_of_In%elem_of_map_to_list & Hin)%existsb_exists. apply lookup_delete_Some in Ht as [Hne Ht].
  apply bool_decide_eq_true in Hin. exists t. split; [done|]. by exists tx.
Qed.

(** Who holds the lock goes on. *)
Lemma holder_goes db calls s p : invariant db calls → holds db s → calls !! s = Some p → can_go db s p.
Proof.
  intros Hi Hh Hs. pose proof Hh as (tx & Ho & Hin). destruct (inv_phase _ _ Hi s p Hs) as (r & _ & Hp). rewrite Ho in Hp.
  remember (Some tx) as o eqn:Htx. destruct Hp as [| |status payload Hg|status payload Hg|tx' Hn| |m Hm Hs']; try done.
  - injection Htx as <-. by destruct locks_fresh.
  - unfold marking, saveTx. rewrite (going_payload _ _ _ _ Hg), marked_keeps_ID, (going_id _ _ _ _ Hg). cbn. unfold ordinary. rewrite Ho. injection Htx as <-. cbn.
    destruct (locked_in _ _ _) eqn:Hl; [destruct (locked_in_held db s Hl) as (t & Ht & Hht); by destruct Ht; apply (inv_lock _ _ Hi)|].
    rewrite (no_job_pending db calls) by done. cbn. by destruct (job_taken _ _ _).
  - cbn. rewrite Ho. injection Htx as <-. done.
Qed.

(** While a call is not answered, a call can go on. *)
Lemma someone_goes db calls s X (q : statement X) k : invariant db calls → calls !! s = Some (Ask q k) → ∃ t p, calls !! t = Some p ∧ can_go db t p.
Proof.
  intros Hi Hs. destruct (inv_phase _ _ Hi s _ Hs) as (r & _ & Hp). remember (Ask q k) as p eqn:Hq. remember (db_Open db !! s) as o eqn:Ho. symmetry in Ho.
  destruct Hp as [| |status payload Hg|status payload Hg|tx Hn| |m Hm Hs']; try done.
  - by exists s, (attempt r).
  - destruct (locked_in tx_Allocations (delete s (db_Open db)) id) eqn:Hl.
    + destruct (locked_in_held db s Hl) as (t & _ & Hh). pose proof Hh as (tx & Ht & _). destruct (inv_open _ _ Hi t tx Ht) as [p Hp].
      exists t, p. split; [done|]. by apply (holder_goes db calls).
    + exists s, (reading r). split; [done|]. cbn. unfold ordinary. rewrite Ho. cbn. by rewrite Hl.
  - exists s, (marking r status). split; [done|]. apply (holder_goes db calls); [done|exists (locking fresh id); split; [done|cbn; set_solver]|done].
  - eexists s, _. split; [exact Hs|]. cbn. by rewrite Ho.
  - by exists s, (rollback None).
Qed.

(** C3. However the statements of replicas interleave that try to move one record out of a state, and whatever
    fails on the way, at most one call wins, so that a warm runner is claimed once: it is answered with the
    record that the shared store then holds.  The calls never block each other for good: as long as one is not
    answered, one can go on. *)
Theorem compare_and_set_has_one_winner {D} `{!Server D, !ServerLaws epoch faulty D} (d d' : D) calls :
  quiet co (sv_database d) → (∀ s to now message, requests !! s = Some (to, now, message) → to ≠ from) →
  rtc step (d, (fun '(to, now, message) => CompareAndMarkState co id from to now message) <$> requests) (d', calls) →
  (∀ s t m n, calls !! s = Some (Ret (Some m)) → calls !! t = Some (Ret (Some n)) → s = t) ∧
  (∀ s m, calls !! s = Some (Ret (Some m)) → contents co (sv_database d') !! id = Some m ∧ as_State m ≠ from) ∧
  ((∀ s p, calls !! s = Some p → ∃ answer, p = Ret answer) ∨ ∃ next, step (d', calls) next).
Proof.
  intros Hq Hto Hsteps. assert (Hi : invariant (sv_database d') calls).
  { refine (invariant_steps _ _ _ Hsteps _); [by intros s [[to now] message] Hs; apply (Hto s to now message)|].
    rewrite (map_fmap_ext _ attempt) by by intros s [[to now] message]. by apply invariant_start. }
  split; [apply Hi|]. split.
  { intros s m Hm. destruct (inv_phase _ _ Hi s _ Hm) as (r & _ & Hp). by eapply phase_answer. }
  destruct (decide (map_Forall (fun _ p => answered p = true) calls)) as [Hall|Hsome]; [left|right].
  - intros s p Hs. specialize (Hall s p Hs). destruct p as [a|]; [by exists a|done].
  - apply map_not_Forall in Hsome as (s & p & Hs & Hp); [|by intros ? p; destruct (answered p); [left|right]]. destruct p as [a|X q k]; [done|].
    destruct (someone_goes _ _ s X q k Hi Hs) as (t & p & Ht & Hgo). destruct p as [a|Y q' k']; [done|].
    destruct (sv_exec d' t q') as [[answer d1]|] eqn:He; [|by apply exec_waits in He].
    eexists. apply (step_session d' calls t _ (k' answer) d1 Ht). cbn. by rewrite He.
Qed.
End Race.

(** ** Witness *)

#[local] Existing Instance range_forward.
#[local] Existing Instance sample_server.
#[local] Existing Instance sample_laws.
#[local] Existing Instance sample_codec_laws.

(** A reserved record is in the database, and two callers move it to ready. *)
Definition reserved_database : Database :=
  { empty_database with db_Tables := { empty_tables with tb_Allocations := {[ "a" := row_of (sample "a" StateReserved) "a reserved" ]} } }.

Definition two_requests : gmap nat (AllocationState * Time * string) := <[2%nat := (StateReady, 5, "")]> {[ 1%nat := (StateReady, 4, "") ]}.

Lemma reserved_quiet : quiet sample_codec reserved_database.
Proof. split; [done|]. intros id row. unfold rows. cbn. intros [<- <-]%lookup_singleton_Some. by exists (sample "a" StateReserved). Qed.

Lemma compare_and_set_has_one_winner_witness :
  let calls := (fun '(to, now, message) => CompareAndMarkState sample_codec "a" StateReserved to now message) <$> two_requests in
  let after := drive 9 2 (drive 9 1 (drive 1 2 (reserved_database, calls))) in
  after.2 !! 1%nat = Some (Ret (Some (sample "a" StateReady))) ∧ contents sample_codec after.1 !! "a" = Some (sample "a" StateReady).
Proof.
  intros calls after. assert (Hwon : after.2 !! 1%nat = Some (Ret (Some (sample "a" StateReady)))) by (vm_compute; reflexivity).
  split; [exact Hwon|].
  destruct (compare_and_set_has_one_winner 0 False sample_codec "a" StateReserved two_requests reserved_database after.1 after.2) as (_ & Hrecord & _).
  - apply reserved_quiet.
  - unfold two_requests. intros s to now message [[_ [= <- _ _]]|[_ [_ [= <- _ _]]%lookup_singleton_Some]]%lookup_insert_Some; discriminate.
  - rewrite <- surjective_pairing. do 2 (etrans; [|apply drive_steps]). apply drive_steps.
  - by apply (Hrecord 1%nat).
Defined.
