(* ===== verification/PostgresLeadership.v ===== *)
(** Replicas that ask for the leadership of the shared store: the row of the lease makes
    them take turns, and a lease is granted when the one before has expired. *)

From S2P Require Import Prelude Errors Model Store Postgres PostgresTheory PostgresSessions.
Open Scope Z_scope.
Open Scope go_scope.
Import Postgres.

Section Race.
Context `{GoRange} (epoch : Time) (faulty : Prop) (name : string).
(* who asks, for how long, and what the clock of its call reads *)
Context (requests : gmap nat (string * Duration * Time)).
Implicit Types (db : Database) (r : string * Duration * Time) (c : option Lease) (p : program (bool * option error)).

Definition identity r : string := r.1.1.
Definition reading r : Time := r.2.
Definition term r : Duration := if r.1.2 <=? 0 then 15 * Second else r.1.2.
Definition wanted r : Lease := {| le_Holder := identity r; le_ExpiresAt := TimeAdd (reading r) (term r) |}.
Definition granted r : Lease := timestamped (wanted r).

(** One call, and what is left of it after each statement. *)
Definition attempt r : program (bool * option error) := TryAcquireLeadership name r.1.1 r.1.2 r.2.

Definition taking (q : statement unit) : program (bool * option error) :=
  Ask q (fun answer => match answer with Fail err => rollback (false, Some err) | Ok _ => commit (fun err => (true, err)) end).

Definition looking r : program (bool * option error) :=
  Ask (SelectLeaseForUpdate name) (fun answer =>
    match answer with
    | Fail err => rollback (false, Some err)
    | Ok None => taking (InsertLease name (wanted r))
    | Ok (Some held) =>
        if After (le_ExpiresAt held) (reading r) && negb (String.eqb (le_Holder held) (identity r)) then rollback (false, None)
        else taking (UpdateLease name (wanted r))
    end).

Lemma attempt_looks r : attempt r = transaction (fun err => (false, Some err)) (looking r).
Proof. done. Qed.

(** A lease that the caller may take over. *)
Definition free_for r c : Prop := ∀ held, c = Some held → le_ExpiresAt held ≤ reading r ∨ le_Holder held = identity r.

Definition locking_lease tx : Transaction := { tx with tx_Leases := lock_row (tx_Leases tx) name }.
Definition writing_lease tx lease : Transaction := { tx with tx_Leases := write_row (tx_Leases tx) name (Some lease) }.

(** Where a call is, with the lease [c] that is committed and its transaction. *)
Inductive phase r c : option Transaction → program (bool * option error) → Prop :=
  | phase_start : phase r c None (attempt r)
  | phase_begun : phase r c (Some fresh) (looking r)
  | phase_inserting : phase r c (Some fresh) (taking (InsertLease name (wanted r)))
  | phase_updating : is_Some c → free_for r c → phase r c (Some (locking_lease fresh)) (taking (UpdateLease name (wanted r)))
  | phase_written tx : clean tx → free_for r c → phase r c (Some (writing_lease tx (granted r))) (commit (fun err => (true, err)))
  | phase_over tx err : phase r c (Some tx) (rollback (false, err))
  | phase_answered a : phase r c None (Ret a).

Definition holds db s : Prop := ∃ tx, db_Open db !! s = Some tx ∧ name ∈ pt_Locks (tx_Leases tx).

Definition lease_at db : option Lease := tb_Leases (db_Tables db) !! name.

(** What a statement of one session does to the others. *)
Record turn db s r p' db' : Prop := {
  turn_others t : t ≠ s → db_Open db' !! t = db_Open db !! t;
  turn_phase : phase r (lease_at db') (db_Open db' !! s) p';
  turn_lock : holds db' s → holds db s ∨ ∀ t, t ≠ s → ¬ holds db t;
  turn_change : (lease_at db' = lease_at db ∧ p' ≠ Ret (true, None)) ∨
                (holds db s ∧ lease_at db' = Some (granted r) ∧ free_for r (lease_at db) ∧ ∃ a, p' = Ret a);
}.

Lemma lead_opened db s r tx p' : phase r (lease_at db) (Some tx) p' →
  (name ∈ pt_Locks (tx_Leases tx) → holds db s ∨ ∀ t, t ≠ s → ¬ holds db t) → p' ≠ Ret (true, None) → turn db s r p' (opened db s tx).
Proof.
  intros Hp Hl Hw. split; [apply opened_other|by rewrite opened_same| |by left].
  intros (tx' & Htx & Hin). rewrite opened_same in Htx. injection Htx as <-. by apply Hl.
Qed.

Lemma lead_aborted db s r err : turn db s r (rollback (false, Some err)) (opened db s aborted).
Proof. apply lead_opened; [apply phase_over|cbn; set_solver|done]. Qed.

Lemma lead_ended db s r a : a ≠ (true, None) → turn db s r (Ret a) (ended db s).
Proof.
  intros Ha. split; [apply ended_other|rewrite ended_same; constructor|intros (tx & Htx & _); by rewrite ended_same in Htx|].
  left. split; [done|congruence].
Qed.

Lemma lead_start db s r p' db' : db_Open db !! s = None → moves epoch faulty db s (attempt r) p' db' → turn db s r p' db'.
Proof.
  intros Ho (answer & Ha & ->). apply answers_begin in Ha as [[-> ->]|(err & -> & ->)]; [| |done].
  - apply lead_opened; [apply phase_begun|cbn; set_solver|done].
  - split; [done|rewrite Ho; constructor|by left|by left].
Qed.

(** No other session holds the lease. *)
Lemma unlocked_free db s : locked_in tx_Leases (delete s (db_Open db)) name = false → ∀ t, t ≠ s → ¬ holds db t.
Proof. intros Hl t Ht (tx & Htx & Hin). eapply locked_in_false; [exact Hl| |exact Hin]. by rewrite lookup_delete_ne. Qed.

Lemma lead_begun db s r p' db' : db_Open db !! s = Some fresh → moves epoch faulty db s (looking r) p' db' → turn db s r p' db'.
Proof.
  intros Ho (answer & Ha & ->). eapply answers_within in Ha as [(err & -> & ->)|(x & tx & tables & -> & Hw & ->)];
    [by apply lead_aborted| |exact Ho|done|done|by cbn; rewrite Ho|by cbn; rewrite Ho|by intros ? ? []].
  cbn in Hw. destruct (locked_in _ _ _) eqn:Hl; [done|]. rewrite seen_empty in Hw by done. injection Hw as <- <- <-. fold (lease_at db).
  change (turn db s r ?p _) with (turn db s r p (opened db s (if lease_at db is Some _ then locking_lease fresh else fresh))).
  destruct (lease_at db) as [held|] eqn:Hlease; [|by apply lead_opened; [apply phase_inserting|cbn; set_solver|]].
  pose proof (unlocked_free db s Hl) as Hfree. destruct (_ && _) eqn:Hheld; (apply lead_opened; [|by right|done]).
  - apply phase_over.
  - apply phase_updating; [by rewrite Hlease|]. rewrite Hlease. intros held' [= <-]. unfold After in Hheld.
    apply andb_false_iff in Hheld as [He%Z.ltb_ge|Hh%negb_false_iff%String.eqb_eq]; [by left|by right].
Qed.

(** The lease is written under its lock, whether or not it was there. *)
Lemma turn_taking db s r tx (q : statement unit) p' db' : clean tx → db_Open db !! s = Some tx →
  (q = InsertLease name (wanted r) ∨ q = UpdateLease name (wanted r) ∧ is_Some (lease_at db) ∧ free_for r (lease_at db)) →
  moves epoch faulty db s (taking q) p' db' → turn db s r p' db'.
Proof.
  intros Hclean Ho Hq (answer & Ha & ->).
  eapply answers_within in Ha as [(err & -> & ->)|(x & tx' & tables & -> & Hw & ->)];
    [by apply lead_aborted| |exact Ho|apply Hclean|by destruct Hq as [->|[-> _]]|by destruct Hq as [->|[-> _]]; cbn; rewrite Ho|by destruct Hq as [->|[-> _]]; cbn; rewrite Ho|by destruct Hq as [->|[-> _]]; intros ? ? []].
  assert (Hwritten : locked_in tx_Leases (delete s (db_Open db)) name = false ∧ tx' = writing_lease tx (granted r) ∧ tables = db_Tables db ∧ free_for r (lease_at db)).
  { destruct Hq as [->|(-> & [held Hheld] & Hfree)]; cbn in Hw; (destruct (locked_in _ _ _) eqn:Hl; [done|]);
      rewrite seen_empty in Hw by apply Hclean; fold (lease_at db) in Hw.
    - destruct (lease_at db) as [held|]; [done|]. by injection Hw as <- <- <-.
    - rewrite Hheld in *. by injection Hw as <- <- <-. }
  destruct Hwritten as (Hl & -> & -> & Hfree).
  change (turn db s r ?p _) with (turn db s r p (opened db s (writing_lease tx (granted r)))).
  apply lead_opened; [by apply phase_written| |done]. intros _. right. by apply unlocked_free.
Qed.

Lemma lead_written db s r tx p' db' : clean tx → free_for r (lease_at db) → db_Open db !! s = Some (writing_lease tx (granted r)) →
  moves epoch faulty db s (commit (fun err => (true, err))) p' db' → turn db s r p' db'.
Proof.
  intros Hclean Hfree Ho (answer & Ha & ->). eapply answers_commit in Ha as [->|[He ->]]; [| |exact Ho|apply Hclean].
  2:{ apply lead_ended. congruence. }
  split; [apply ended_other|by rewrite (ended_same db s : db_Open (published _ _) !! s = None); constructor| |].
  - intros (tx' & Htx & _). cbn in Htx. by rewrite lookup_delete_eq in Htx.
  - right. split; [exists (writing_lease tx (granted r)); split; [done|cbn; set_solver]|]. split; [|split; [done|by eexists]].
    unfold lease_at, published, publish, writing_lease. cbn. rewrite seen_write by apply Hclean. apply lookup_insert_eq.
Qed.

Lemma lead_of db s r p p' db' : phase r (lease_at db) (db_Open db !! s) p → moves epoch faulty db s p p' db' → turn db s r p' db'.
Proof.
  intros Hp. remember (db_Open db !! s) as o eqn:Ho. symmetry in Ho. destruct Hp as [| | |Hsome Hfree|tx Hclean Hfree|tx err|a].
  - by apply lead_start.
  - by apply lead_begun.
  - apply (turn_taking db s r fresh); [done|done|by left].
  - apply (turn_taking db s r (locking_lease fresh)); [done|done|by right].
  - by apply (lead_written db s r tx).
  - intros (answer & Ha & ->). apply answers_rollback in Ha as ->. by apply lead_ended.
  - done.
Qed.

Lemma lead_stays r db db' s t p p' : s ≠ t → (∀ s t, holds db s → holds db t → s = t) →
  (lease_at db' = lease_at db ∧ p' ≠ Ret (true, None)) ∨ (holds db s ∧ lease_at db' = Some (granted r) ∧ free_for r (lease_at db) ∧ ∃ a, p' = Ret a) →
  ∀ rt, phase rt (lease_at db) (db_Open db !! t) p → phase rt (lease_at db') (db_Open db !! t) p.
Proof.
  intros Hst Hlock [[-> _]|[Hs _]] rt Hp; [done|]. assert (Ht : ¬ holds db t) by by intros Ht; apply Hst, Hlock.
  remember (db_Open db !! t) as o eqn:Ho. symmetry in Ho. destruct Hp as [| | |Hsome Hfree|tx Hclean Hfree|tx err|a]; [constructor..| | |constructor|constructor].
  - destruct Ht. exists (locking_lease fresh). split; [done|]. cbn. set_solver.
  - destruct Ht. eexists. split; [exact Ho|]. cbn. set_solver.
Qed.

(** The lease of a winner has not been given to another caller before its end. *)
Record invariant db (calls : gmap nat (program (bool * option error))) : Prop := {
  inv_phase s p : calls !! s = Some p → ∃ r, requests !! s = Some r ∧ phase r (lease_at db) (db_Open db !! s) p;
  inv_lock s t : holds db s → holds db t → s = t;
  inv_winner s r : calls !! s = Some (Ret (true, None)) → requests !! s = Some r →
    ∃ lease u ru a, lease_at db = Some lease ∧ le_ExpiresAt (granted r) ≤ le_ExpiresAt lease ∧
      requests !! u = Some ru ∧ le_Holder lease = identity ru ∧ calls !! u = Some (Ret a);
  inv_apart s t r r' : s ≠ t → calls !! s = Some (Ret (true, None)) → calls !! t = Some (Ret (true, None)) →
    requests !! s = Some r → requests !! t = Some r' →
    le_ExpiresAt (granted r) ≤ reading r' ∨ le_ExpiresAt (granted r') ≤ reading r;
}.

Context (requests_apart : ∀ s t r r', requests !! s = Some r → requests !! t = Some r' → identity r = identity r' → s = t).
(* a microsecond, the precision of the database *)
Context (requests_last : ∀ s r, requests !! s = Some r → 1000 ≤ term r).

Lemma granted_later s r : requests !! s = Some r → reading r ≤ le_ExpiresAt (granted r).
Proof.
  intros Hr%requests_last. unfold granted, timestamped, wanted, timestamp, TimeAdd. cbn.
  pose proof (Z.mod_pos_bound (reading r + term r) 1000). lia.
Qed.

(** When a call takes the lease, those of the winners before it have ended. *)
Lemma taken_over db calls s p r t rt : invariant db calls → calls !! s = Some p → (∀ a, p ≠ Ret a) → requests !! s = Some r → free_for r (lease_at db) →
  calls !! t = Some (Ret (true, None)) → requests !! t = Some rt → le_ExpiresAt (granted rt) ≤ reading r.
Proof.
  intros Hi Hs Hp Hr Hfree Ht Hrt. destruct (inv_winner _ _ Hi t rt Ht Hrt) as (lease & u & ru & a & Hlease & Hle & Hru & Hholder & Hu).
  destruct (Hfree lease Hlease) as [He|Hsame]; [lia|]. assert (u = s) as -> by by apply (requests_apart u s ru r Hru Hr); rewrite <- Hholder.
  rewrite Hs in Hu. injection Hu as ->. by destruct (Hp a).
Qed.

Lemma lead_invariant_moves db calls s p p' db' : invariant db calls → calls !! s = Some p → moves epoch faulty db s p p' db' → invariant db' (<[s := p']> calls).
Proof.
  intros Hi Hs Hm. pose proof Hi as [Hp Hl Hw Hapart]. destruct (Hp s p Hs) as (r & Hreq & Hph).
  assert (Hnot : ∀ a, p ≠ Ret a) by by intros a ->.
  destruct (lead_of db s r p p' db' Hph Hm) as [Hothers Hph' Hlock Hchange]. split.
  - intros t q. destruct (decide (t = s)) as [->|Ht]; [rewrite lookup_insert_eq; intros [= <-]; by exists r|].
    rewrite lookup_insert_ne by done. intros Hq. destruct (Hp t q Hq) as (rt & Hrt & Hpt). exists rt. split; [done|].
    rewrite Hothers by done. by apply (lead_stays r db db' s t q p').
  - assert (Hfree : ∀ t, t ≠ s → holds db' s → ¬ holds db' t).
    { intros t Ht Hhs. unfold holds at 1. rewrite Hothers by done. intros Hht. destruct (Hlock Hhs) as [Hhs'|Hf]; [by apply Ht, Hl|by eapply Hf]. }
    intros t u Hht Hhu. destruct (decide (t = s)) as [->|Ht], (decide (u = s)) as [->|Hu]; [done|by destruct (Hfree u)|by destruct (Hfree t)|].
    revert Hht Hhu. unfold holds. rewrite !Hothers by done. apply Hl.
  - intros t rt Ht Hrt. destruct Hchange as [[-> Hlost]|(_ & -> & Hfree & a & ->)].
    + destruct (decide (t = s)) as [->|Hne]; [rewrite lookup_insert_eq in Ht; congruence|]. rewrite lookup_insert_ne in Ht by done.
      destruct (Hw t rt Ht Hrt) as (lease & u & ru & b & Hlease & Hle & Hru & Hh & Hu). exists lease, u, ru, b. split_and!; try done.
      rewrite lookup_insert_ne; [done|]. intros ->. rewrite Hs in Hu. injection Hu as ->. by destruct (Hnot b).
    + exists (granted r), s, r, a. split; [done|]. split; [|by rewrite lookup_insert_eq]. destruct (decide (t = s)) as [->|Hne]; [by replace rt with r by congruence|].
      rewrite lookup_insert_ne in Ht by done. pose proof (taken_over db calls s p r t rt Hi Hs Hnot Hreq Hfree Ht Hrt). pose proof (granted_later s r Hreq). lia.
  - assert (Hnew : ∀ t rt, p' = Ret (true, None) → calls !! t = Some (Ret (true, None)) → requests !! t = Some rt → le_ExpiresAt (granted rt) ≤ reading r).
    { intros t rt -> Ht Hrt. destruct Hchange as [[_ []]|(_ & _ & Hfree & _)]; [done|]. by apply (taken_over db calls s p r t rt). }
    intros t u rt ru Hne. destruct (decide (t = s)) as [->|Ht], (decide (u = s)) as [->|Hu]; [done|..]; rewrite ?lookup_insert_eq, ?lookup_insert_ne by done.
    + intros [= Hwon] Hwu Hrt Hru. assert (rt = r) as -> by congruence. right. by apply (Hnew u).
    + intros Hwt [= Hwon] Hrt Hru. assert (ru = r) as -> by congruence. left. by apply (Hnew t).
    + by apply Hapart.
Qed.

Lemma lead_invariant_steps {D} `{!Server D, !ServerLaws epoch faulty D} (x y : D * gmap nat (program (bool * option error))) :
  rtc step x y → invariant (sv_database x.1) x.2 → invariant (sv_database y.1) y.2.
Proof.
  induction 1 as [x|x y z Hstep _ IH]; [done|]. intros Hi. apply IH. destruct Hstep as [d calls s p p' d' Hs Ha]. cbn in *.
  apply (advance_moves epoch faulty) in Ha. by apply (lead_invariant_moves (sv_database d) calls s p).
Qed.

Lemma lead_invariant_start db : closed db → invariant db (attempt <$> requests).
Proof.
  intros Hc. unfold closed in Hc. assert (Hnone : ∀ s, ¬ holds db s) by by intros s (tx & Htx & _); rewrite Hc, lookup_empty in Htx.
  split; [|by intros s t []%Hnone|..].
  - intros s p. rewrite lookup_fmap. destruct (requests !! s) as [r|]; [|done]. intros [= <-]. exists r. split; [done|]. rewrite Hc, lookup_empty. constructor.
  - intros s r. rewrite lookup_fmap. by destruct (requests !! s).
  - intros s t r r' _. rewrite lookup_fmap. by destruct (requests !! s).
Qed.

End Race.

(** ** Witness *)

#[local] Existing Instance range_forward.
#[local] Existing Instance sample_server.
#[local] Existing Instance sample_laws.

(** A second replica asks when the lease of the first is over. *)
Definition two_requests : gmap nat (string * Duration * Time) := <[2%nat := ("b", Second, 5 * Second)]> {[ 1%nat := ("a", Second, 0) ]}.

Lemma two_requests_cases s r : two_requests !! s = Some r → (s = 1%nat ∧ r = ("a", Second, 0)) ∨ (s = 2%nat ∧ r = ("b", Second, 5 * Second)).
Proof. unfold two_requests. intros [[<- <-]|[_ [<- <-]%lookup_singleton_Some]]%lookup_insert_Some; [by right|by left]. Qed.

