(* ===== verification/Observability.v ===== *)
(** Logs and metrics of the broker: the one-line text of an allocation event and the
    observations of the Prometheus observer (src/internal/api/observability.go). *)

From Stdlib Require Import SpecFloat.
From S2P Require Import Prelude Errors Model Store Backends Capacity Admission TierPolicy TierRefresh ServicePolicy.
Open Scope Z_scope.
Open Scope go_scope.

(** ** Log lines *)

Module Logs.

Definition code (c : ascii) : Z := Z.of_nat (nat_of_ascii c).
Definition char_of (n : Z) : ascii := ascii_of_nat (Z.to_nat n).
Definition one (c : ascii) : string := String c EmptyString.

Definition between (low high n : Z) : bool := (low <=? n) && (n <=? high).
Definition continues (c : ascii) : bool := between 128 191 (code c).

Definition RuneError : Z := 65533.

(** The second byte that the first of three or four admits. *)
Definition three_bytes (c c2 : ascii) : bool :=
  let b := code c in
  if b =? 224 then between 160 191 (code c2)
  else if b =? 237 then between 128 159 (code c2)
  else between 225 239 b && continues c2.

Definition four_bytes (c c2 : ascii) : bool :=
  let b := code c in
  if b =? 240 then between 144 191 (code c2)
  else if b =? 244 then between 128 143 (code c2)
  else between 241 243 b && continues c2.

Definition rune2 (c c2 : ascii) : Z := (code c - 192) * 64 + (code c2 - 128).
Definition rune3 (c c2 c3 : ascii) : Z := (code c - 224) * 4096 + (code c2 - 128) * 64 + (code c3 - 128).
Definition rune4 (c c2 c3 c4 : ascii) : Z :=
  (code c - 240) * 262144 + (code c2 - 128) * 4096 + (code c3 - 128) * 64 + (code c4 - 128).

(** [for _, r := range value]: the runes of a text with their bytes; a byte that starts no
    UTF-8 sequence is a RuneError. *)
Fixpoint runes (s : string) : list (Z * string) :=
  match s with
  | EmptyString => []
  | String c s1 =>
      if code c <? 128 then (code c, one c) :: runes s1
      else
        match s1 with
        | String c2 s2 =>
            if between 194 223 (code c) && continues c2 then (rune2 c c2, String c (one c2)) :: runes s2
            else
              match s2 with
              | String c3 s3 =>
                  if three_bytes c c2 && continues c3 then (rune3 c c2 c3, String c (String c2 (one c3))) :: runes s3
                  else
                    match s3 with
                    | String c4 s4 =>
                        if four_bytes c c2 && continues c3 && continues c4
                        then (rune4 c c2 c3 c4, String c (String c2 (String c3 (one c4)))) :: runes s4
                        else (RuneError, one c) :: runes s1
                    | EmptyString => (RuneError, one c) :: runes s1
                    end
              | EmptyString => (RuneError, one c) :: runes s1
              end
        | EmptyString => (RuneError, one c) :: runes s1
        end
  end.

Definition IsControl (r : Z) : bool := (r <? 32) || between 127 159 r.

Definition IsSpace (r : Z) : bool :=
  between 9 13 r || (r =? 32) || (r =? 133) || (r =? 160) || (r =? 5760) || between 8192 8202 r ||
  (r =? 8232) || (r =? 8233) || (r =? 8239) || (r =? 8287) || (r =? 12288).

(** '=', and the two quotes. *)
Definition unsafe_rune (r : Z) : bool := IsControl r || IsSpace r || (r =? 61) || (r =? 34) || (r =? 39).

Definition logTokenIsSafe (value : string) : bool := forallb (fun piece => negb (unsafe_rune piece.1)) (runes value).

Section Line.
(** Which runes above ASCII [strconv.IsPrint] takes for printable. *)
Context (is_print : Z → bool).

Definition IsPrint (r : Z) : bool := if r <? 128 then between 32 126 r else is_print r.

Definition hex_digit (n : Z) : ascii := char_of (if n <? 10 then 48 + n else 87 + n).

Fixpoint hex (digits : nat) (n : Z) : string :=
  match digits with O => EmptyString | S digits => hex digits (n / 16) +:+ one (hex_digit (n mod 16)) end.

Definition backslash : string := one (char_of 92).

(** One rune of [strconv.Quote]. *)
Definition escape (piece : Z * string) : string :=
  let '(r, bytes) := piece in
  if (r =? RuneError) && (String.length bytes =? 1)%nat then
    backslash +:+ "x" +:+ match bytes with String c _ => hex 2 (code c) | EmptyString => EmptyString end
  else if (r =? 34) || (r =? 92) then backslash +:+ bytes
  else if IsPrint r then bytes
  else if r =? 7 then backslash +:+ "a"
  else if r =? 8 then backslash +:+ "b"
  else if r =? 12 then backslash +:+ "f"
  else if r =? 10 then backslash +:+ "n"
  else if r =? 13 then backslash +:+ "r"
  else if r =? 9 then backslash +:+ "t"
  else if r =? 11 then backslash +:+ "v"
  else if (r <? 32) || (r =? 127) then backslash +:+ "x" +:+ hex 2 r
  else if r <? 65536 then backslash +:+ "u" +:+ hex 4 r
  else backslash +:+ "U" +:+ hex 8 r.

Definition Quote (value : string) : string := dquote +:+ foldr (fun piece text => escape piece +:+ text) EmptyString (runes value) +:+ dquote.

Definition formatLogToken (value : string) : string := if logTokenIsSafe value then value else Quote value.

Definition field_text (fields : gmap string string) (key : string) : string :=
  " " +:+ formatLogToken key +:+ "=" +:+ formatLogToken (default "" (fields !! key)).

Definition formatLogFields (fields : gmap string string) : string :=
  foldr (fun key text => field_text fields key +:+ text) EmptyString (sort_stable string_ltb (map_to_list fields).*1).

(** The text that is logged for an event of a request with a correlation identifier. *)
Definition logAllocationEvent (correlationID event : string) (fields : gmap string string) : string :=
  "event=" +:+ formatLogToken event +:+ " " +:+ "correlation_id" +:+ "=" +:+ formatLogToken correlationID +:+ formatLogFields fields.
End Line.
End Logs.
(** ** Metrics *)

Module Metrics.

(** The vectors of the observer. *)
Inductive vector :=
  | allocationLatency | launchLatency | registrationLatency | finalizationLatency | cancellationLatency
  | allocations | finalizations | cancellations | queueDepth | capacityUtilization | circuitState
  | circuitTransitions | admissionRejections | probeResults | tierState | tierFallbacks | tierBlocked
  | liveCapacityFree | liveCapacityStale | liveCapacityDecisions | budgetBlocked | budgetUsage
  | qualitySelections | qualityScore | qualitySuccessRate | qualityP95Ready | qualityCapacityErrors
  | qualityFreeSlots | allocationsReaped | allocationExpired | orphanCleanupActions | labelGarbage
  | staleRunnerLabels | processLocalStateLoss | restartOrphansTotal | orphanedRunners.

Inductive metric := Counter | Gauge | Histogram.

(** A vector of metrics: kind, name and labels. *)
Record description := { de_Kind : metric; de_Name : string; de_Labels : list string }.

Definition NewPrometheusObserver (v : vector) : description :=
  match v with
  | allocationLatency => {| de_Kind := Histogram; de_Name := "uecb_allocation_latency_seconds"; de_Labels := ["pool"; "backend"; "result"] |}
  | launchLatency => {| de_Kind := Histogram; de_Name := "uecb_launch_latency_seconds"; de_Labels := ["pool"; "backend"; "launch_mode"] |}
  | registrationLatency => {| de_Kind := Histogram; de_Name := "uecb_registration_latency_seconds"; de_Labels := ["pool"; "backend"] |}
  | finalizationLatency => {| de_Kind := Histogram; de_Name := "uecb_finalization_latency_seconds"; de_Labels := ["pool"; "backend"; "result"] |}
  | cancellationLatency => {| de_Kind := Histogram; de_Name := "uecb_cancellation_latency_seconds"; de_Labels := ["pool"; "backend"; "result"] |}
  | allocations => {| de_Kind := Counter; de_Name := "uecb_allocations_total"; de_Labels := ["pool"; "backend"; "result"] |}
  | finalizations => {| de_Kind := Counter; de_Name := "uecb_finalizations_total"; de_Labels := ["pool"; "backend"; "result"] |}
  | cancellations => {| de_Kind := Counter; de_Name := "uecb_cancellations_total"; de_Labels := ["pool"; "backend"; "result"] |}
  | queueDepth => {| de_Kind := Gauge; de_Name := "uecb_queue_depth"; de_Labels := ["pool"; "state"] |}
  | capacityUtilization => {| de_Kind := Gauge; de_Name := "uecb_capacity_utilization_ratio"; de_Labels := ["pool"; "backend"] |}
  | circuitState => {| de_Kind := Gauge; de_Name := "uecb_backend_circuit_state"; de_Labels := ["pool"; "backend"; "state"] |}
  | circuitTransitions => {| de_Kind := Counter; de_Name := "uecb_backend_circuit_transitions_total"; de_Labels := ["pool"; "backend"; "from"; "to"; "reason"] |}
  | admissionRejections => {| de_Kind := Counter; de_Name := "uecb_backend_admission_rejections_total"; de_Labels := ["pool"; "backend"; "reason"] |}
  | probeResults => {| de_Kind := Counter; de_Name := "uecb_backend_probe_results_total"; de_Labels := ["pool"; "backend"; "result"] |}
  | tierState => {| de_Kind := Gauge; de_Name := "uecb_tier_state"; de_Labels := ["pool"; "backend"; "state"; "stale"] |}
  | tierFallbacks => {| de_Kind := Counter; de_Name := "uecb_tier_fallback_total"; de_Labels := ["pool"; "mode"; "reason"] |}
  | tierBlocked => {| de_Kind := Counter; de_Name := "uecb_tier_blocked_allocations_total"; de_Labels := ["pool"; "backend"; "reason"] |}
  | liveCapacityFree => {| de_Kind := Gauge; de_Name := "uecb_live_capacity_free_slots"; de_Labels := ["backend"; "source"] |}
  | liveCapacityStale => {| de_Kind := Gauge; de_Name := "uecb_live_capacity_stale"; de_Labels := ["backend"] |}
  | liveCapacityDecisions => {| de_Kind := Counter; de_Name := "uecb_live_capacity_decisions_total"; de_Labels := ["pool"; "backend"; "reason"] |}
  | budgetBlocked => {| de_Kind := Counter; de_Name := "uecb_backend_budget_blocked_total"; de_Labels := ["pool"; "backend"; "reason"] |}
  | budgetUsage => {| de_Kind := Gauge; de_Name := "uecb_backend_budget_usage"; de_Labels := ["pool"; "backend"; "window"; "kind"] |}
  | qualitySelections => {| de_Kind := Counter; de_Name := "uecb_quality_selection_total"; de_Labels := ["pool"; "backend"; "reason"] |}
  | qualityScore => {| de_Kind := Gauge; de_Name := "uecb_quality_score"; de_Labels := ["pool"; "backend"] |}
  | qualitySuccessRate => {| de_Kind := Gauge; de_Name := "uecb_quality_success_rate"; de_Labels := ["pool"; "backend"] |}
  | qualityP95Ready => {| de_Kind := Gauge; de_Name := "uecb_quality_p95_ready_seconds"; de_Labels := ["pool"; "backend"] |}
  | qualityCapacityErrors => {| de_Kind := Gauge; de_Name := "uecb_quality_capacity_errors"; de_Labels := ["pool"; "backend"] |}
  | qualityFreeSlots => {| de_Kind := Gauge; de_Name := "uecb_quality_free_slots"; de_Labels := ["pool"; "backend"] |}
  | allocationsReaped => {| de_Kind := Counter; de_Name := "uecb_allocations_reaped_total"; de_Labels := ["pool"; "backend"; "result"] |}
  | allocationExpired => {| de_Kind := Counter; de_Name := "uecb_allocation_expired_total"; de_Labels := ["backend"; "pool"; "reason"] |}
  | orphanCleanupActions => {| de_Kind := Counter; de_Name := "uecb_orphan_cleanup_actions_total"; de_Labels := ["pool"; "backend"; "action"] |}
  | labelGarbage => {| de_Kind := Counter; de_Name := "uecb_label_garbage_total"; de_Labels := ["pool"; "backend"; "result"] |}
  | staleRunnerLabels => {| de_Kind := Gauge; de_Name := "uecb_stale_runner_labels"; de_Labels := ["pool"; "backend"; "phase"] |}
  | processLocalStateLoss => {| de_Kind := Counter; de_Name := "uecb_process_local_state_loss_total"; de_Labels := ["store"] |}
  | restartOrphansTotal => {| de_Kind := Counter; de_Name := "uecb_restart_orphans_total"; de_Labels := ["backend"; "reason"] |}
  | orphanedRunners => {| de_Kind := Gauge; de_Name := "uecb_orphaned_runners"; de_Labels := ["backend"; "reason"] |}
  end.

(** The collectors in the order in which they are registered. *)
Definition Register : list vector :=
  [allocationLatency; launchLatency; registrationLatency; finalizationLatency; cancellationLatency;
   allocations; finalizations; cancellations; queueDepth; capacityUtilization; circuitState;
   circuitTransitions; admissionRejections; probeResults; tierState; tierFallbacks; tierBlocked;
   liveCapacityFree; liveCapacityStale; liveCapacityDecisions; budgetBlocked; budgetUsage; qualitySelections;
   qualityScore; qualitySuccessRate; qualityP95Ready; qualityCapacityErrors; qualityFreeSlots;
   allocationsReaped; allocationExpired; orphanCleanupActions; labelGarbage; staleRunnerLabels;
   processLocalStateLoss; restartOrphansTotal; orphanedRunners].

(** What an observer does with its vectors. *)
Inductive emission :=
  | Inc (v : vector) (labels : list string)
  | Add (v : vector) (labels : list string) (n : Z)
  | Put (v : vector) (labels : list string) (x : spec_float)
  | Sample (v : vector) (labels : list string) (x : spec_float)
  | Reset_all (v : vector).

Record liveCapacitySnapshot := { ls_Backend : BackendName; ls_Free : Z; ls_Max : Z; ls_Stale : bool; ls_Source : string; ls_Err : bool }.
Record staleRunnerLabelSnapshot := { sl_Pool : PoolName; sl_Backend : BackendName; sl_Phase : string; sl_Count : Z }.
Record tierDecisionSnapshot := { tn_Pool : PoolName; tn_Backend : BackendName; tn_State : string; tn_Stale : bool }.
Record backendCircuitSnapshot := { bs_Pool : PoolName; bs_Backend : BackendName; bs_State : string }.

(** The methods of the interface Observer. *)
Inductive observation :=
  | ObserveAllocationStart (pool : PoolName)
  | ObserveAllocationResult (pool : PoolName) (backend : BackendName) (result : string) (latency : Duration)
  | ObserveLaunchLatency (pool : PoolName) (backend : BackendName) (launchMode : string) (latency : Duration)
  | ObserveRegistrationLatency (pool : PoolName) (backend : BackendName) (latency : Duration)
  | ObserveFinalization (pool : PoolName) (backend : BackendName) (result : string) (latency : Duration)
  | ObserveCancellation (pool : PoolName) (backend : BackendName) (result : string) (latency : Duration)
  | ObserveActiveAllocations (statuses : list AllocationStatus)
  | ObserveCapacity (cfg : BrokerConfig) (statuses : list AllocationStatus)
  | ObserveBackendCircuitState (snapshots : list backendCircuitSnapshot)
  | ObserveBackendCircuitTransition (pool : PoolName) (backend : BackendName) (from to reason : string)
  | ObserveBackendAdmissionRejected (pool : PoolName) (backend : BackendName) (reason : string)
  | ObserveBackendProbe (pool : PoolName) (backend : BackendName) (result : string)
  | ObserveTierState (snapshots : list tierDecisionSnapshot)
  | ObserveTierFallback (pool : PoolName) (mode reason : string)
  | ObserveTierBlocked (pool : PoolName) (backend : BackendName) (reason : string)
  | ObserveLiveCapacityState (snapshots : list liveCapacitySnapshot)
  | ObserveLiveCapacityDecision (pool : PoolName) (backend : BackendName) (reason : string) (limit : Z)
  | ObserveBudgetBlocked (pool : PoolName) (backend : BackendName) (reason : string)
  | ObserveBudgetUsage (pool : PoolName) (backend : BackendName) (dailyUsed dailyLimit monthlyUsed monthlyLimit : Z)
  | ObserveQualitySelection (pool : PoolName) (backend : BackendName) (reason : string) (score : spec_float)
  | ObserveQualityScore (pool : PoolName) (backend : BackendName) (score successRate : spec_float) (p95Ready : Duration)
      (capacityErrors freeSlots : Z)
  | ObserveAllocationReaped (pool : PoolName) (backend : BackendName) (result : string)
  | ObserveAllocationExpired (pool : PoolName) (backend : BackendName) (reason : string)
  | ObserveOrphanCleanup (pool : PoolName) (backend : BackendName) (action : string)
  | ObserveLabelGarbage (pool : PoolName) (backend : BackendName) (result : string)
  | ObserveStaleRunnerLabels (snapshots : list staleRunnerLabelSnapshot)
  | ObserveProcessLocalStateLoss (storeType : string)
  | ObserveRestartOrphans (backend : BackendName) (reason : string) (count : Z).

Definition or_else (value fallback : string) : string := if String.eqb value "" then fallback else value.

Definition flag (b : bool) : spec_float := if b then float_of 1 else float_of 0.

Definition live_capacity (snapshot : liveCapacitySnapshot) : list emission :=
  let source := or_else (ls_Source snapshot) "unknown" in
  let source := if ls_Err snapshot then "error" else source in
  [Put liveCapacityFree [ls_Backend snapshot; source] (float_of (ls_Free snapshot));
   Put liveCapacityStale [ls_Backend snapshot] (flag (ls_Stale snapshot))].

Definition tier_states (snapshot : tierDecisionSnapshot) : list emission :=
  let stale := if tn_Stale snapshot then "true" else "false" in
  (fun state => Put tierState [tn_Pool snapshot; tn_Backend snapshot; state; stale] (flag (String.eqb (tn_State snapshot) state))) <$>
    ["healthy"; "approaching"; "exceeded"; "unknown"].

Definition circuit_states (snapshot : backendCircuitSnapshot) : list emission :=
  (fun state => Put circuitState [bs_Pool snapshot; bs_Backend snapshot; state] (flag (String.eqb (bs_State snapshot) state))) <$>
    [circuitStateClosed; circuitStateOpen; circuitStateHalfOpen].

Definition stale_labels (snapshot : staleRunnerLabelSnapshot) : emission :=
  Put staleRunnerLabels [sl_Pool snapshot; sl_Backend snapshot; or_else (sl_Phase snapshot) "unknown"] (float_of (sl_Count snapshot)).

(** The reserved and ready records of a pool and backend. *)
Definition active_of (statuses : list AllocationStatus) (pool : PoolName) (name : BackendName) : Z :=
  count_if (fun status => (state_eqb (as_State status) StateReady || state_eqb (as_State status) StateReserved) &&
                          String.eqb (as_Pool status) pool && String.eqb (as_SelectedBackend status) name) statuses.

Definition utilization `{GoRange} (cfg : BrokerConfig) (statuses : list AllocationStatus) : list emission :=
  pool ← bk_Pools cfg; entry ← range (pc_Backends pool);
  let '(name, backend) := entry in
  if negb (bc_Enabled backend) || (bc_MaxRunners backend <=? 0) then []
  else [Put capacityUtilization [pc_Name pool; name] (fdiv (float_of (active_of statuses (pc_Name pool) name)) (float_of (bc_MaxRunners backend)))].

Definition allocation_result (pool : PoolName) (backend : BackendName) (result : string) (latency : Duration) : list emission :=
  [Inc allocations [pool; backend; result]; Sample allocationLatency [pool; backend; result] (Seconds latency)].

Definition finalization (pool : PoolName) (backend : BackendName) (result : string) (latency : Duration) : list emission :=
  let result := or_else result "unknown" in
  [Inc finalizations [pool; backend; result]; Sample finalizationLatency [pool; backend; result] (Seconds latency)].

Definition cancellation (pool : PoolName) (backend : BackendName) (result : string) (latency : Duration) : list emission :=
  let result := or_else result "unknown" in
  [Inc cancellations [pool; backend; result]; Sample cancellationLatency [pool; backend; result] (Seconds latency)].

Definition active_allocations (statuses : list AllocationStatus) : list emission :=
  Reset_all queueDepth :: ((fun status => Inc queueDepth [as_Pool status; state_string (as_State status)]) <$> statuses).

Definition budget_usage (pool : PoolName) (backend : BackendName) (dailyUsed dailyLimit monthlyUsed monthlyLimit : Z) : list emission :=
  [Put budgetUsage [pool; backend; "daily"; "used"] (float_of dailyUsed); Put budgetUsage [pool; backend; "daily"; "limit"] (float_of dailyLimit);
   Put budgetUsage [pool; backend; "monthly"; "used"] (float_of monthlyUsed); Put budgetUsage [pool; backend; "monthly"; "limit"] (float_of monthlyLimit)].

Definition quality_score (pool : PoolName) (backend : BackendName) (score successRate : spec_float) (p95Ready : Duration)
    (capacityErrors freeSlots : Z) : list emission :=
  [Put qualityScore [pool; backend] score; Put qualitySuccessRate [pool; backend] successRate; Put qualityP95Ready [pool; backend] (Seconds p95Ready);
   Put qualityCapacityErrors [pool; backend] (float_of capacityErrors); Put qualityFreeSlots [pool; backend] (float_of freeSlots)].

Definition restart_orphans (backend : BackendName) (reason : string) (count : Z) : list emission :=
  if count <=? 0 then []
  else
    let reason := or_else reason "unknown" in
    let backend := or_else backend "unknown" in
    [Add restartOrphansTotal [backend; reason] count; Add orphanedRunners [backend; reason] count].

(** The methods of PrometheusObserver. *)
Definition observe `{GoRange} (o : observation) : list emission :=
  match o with
  | ObserveAllocationStart pool => [Inc queueDepth [pool; state_string StateReserved]]
  | ObserveAllocationResult pool backend result latency => allocation_result pool backend result latency
  | ObserveLaunchLatency pool backend launchMode latency => [Sample launchLatency [pool; backend; launchMode] (Seconds latency)]
  | ObserveRegistrationLatency pool backend latency => [Sample registrationLatency [pool; backend] (Seconds latency)]
  | ObserveFinalization pool backend result latency => finalization pool backend result latency
  | ObserveCancellation pool backend result latency => cancellation pool backend result latency
  | ObserveActiveAllocations statuses => active_allocations statuses
  | ObserveCapacity cfg statuses => Reset_all capacityUtilization :: utilization cfg statuses
  | ObserveBackendCircuitState snapshots => Reset_all circuitState :: (snapshots ≫= circuit_states)
  | ObserveBackendCircuitTransition pool backend from to reason => [Inc circuitTransitions [pool; backend; from; to; reason]]
  | ObserveBackendAdmissionRejected pool backend reason => [Inc admissionRejections [pool; backend; reason]]
  | ObserveBackendProbe pool backend result => [Inc probeResults [pool; backend; result]]
  | ObserveTierState snapshots => Reset_all tierState :: (snapshots ≫= tier_states)
  | ObserveTierFallback pool mode reason => [Inc tierFallbacks [pool; mode; reason]]
  | ObserveTierBlocked pool backend reason => [Inc tierBlocked [pool; backend; reason]]
  | ObserveLiveCapacityState snapshots => Reset_all liveCapacityFree :: Reset_all liveCapacityStale :: (snapshots ≫= live_capacity)
  | ObserveLiveCapacityDecision pool backend reason _ => [Inc liveCapacityDecisions [pool; backend; or_else reason "unknown"]]
  | ObserveBudgetBlocked pool backend reason => [Inc budgetBlocked [pool; backend; or_else reason "unknown"]]
  | ObserveBudgetUsage pool backend dailyUsed dailyLimit monthlyUsed monthlyLimit => budget_usage pool backend dailyUsed dailyLimit monthlyUsed monthlyLimit
  | ObserveQualitySelection pool backend reason score =>
      [Inc qualitySelections [pool; backend; or_else reason "unknown"]; Put qualityScore [pool; backend] score]
  | ObserveQualityScore pool backend score successRate p95Ready capacityErrors freeSlots =>
      quality_score pool backend score successRate p95Ready capacityErrors freeSlots
  | ObserveAllocationReaped pool backend result => [Inc allocationsReaped [pool; backend; or_else result "expired"]]
  | ObserveAllocationExpired pool backend reason => [Inc allocationExpired [backend; pool; or_else reason "unknown"]]
  | ObserveOrphanCleanup pool backend action => [Inc orphanCleanupActions [pool; backend; or_else action "unknown"]]
  | ObserveLabelGarbage pool backend result => [Inc labelGarbage [pool; backend; or_else result "unknown"]]
  | ObserveStaleRunnerLabels snapshots => Reset_all staleRunnerLabels :: (stale_labels <$> snapshots)
  | ObserveProcessLocalStateLoss storeType => [Inc processLocalStateLoss [or_else storeType TypeMemory]]
  | ObserveRestartOrphans backend reason count => restart_orphans backend reason count
  end.

(** noopObserver. *)
Definition noop (o : observation) : list emission := [].

(** *** What the broker reports of its state *)

Definition stalePhaseOverdue : string := "overdue".
Definition stalePhaseQuarantined : string := "quarantined".

(** The phase in which a record holds a runner label too long. *)
Definition stale_phase (now : Time) (status : AllocationStatus) : option string :=
  if String.eqb (TrimSpace (as_RunnerLabel status)) "" then None
  else if isActiveAllocationState (as_State status) && negb (IsZero (as_ExpiresAt status)) && negb (After (as_ExpiresAt status) now) then Some stalePhaseOverdue
  else if state_eqb (as_State status) StateQuarantined then Some stalePhaseQuarantined
  else None.

Abbreviation stale_key := (PoolName * BackendName * string)%type (only parsing).

Definition count_stale (now : Time) (counts : gmap stale_key Z) (status : AllocationStatus) : gmap stale_key Z :=
  match stale_phase now status with
  | None => counts
  | Some phase =>
      let key := (as_Pool status, as_SelectedBackend status, phase) in
      <[key := default 0 (counts !! key) + 1]> counts
  end.

Definition stale_snapshot (entry : stale_key * Z) : staleRunnerLabelSnapshot :=
  {| sl_Pool := entry.1.1.1; sl_Backend := entry.1.1.2; sl_Phase := entry.1.2; sl_Count := entry.2 |}.

Definition snapshot_before (a b : staleRunnerLabelSnapshot) : bool :=
  if negb (String.eqb (sl_Pool a) (sl_Pool b)) then string_ltb (sl_Pool a) (sl_Pool b)
  else if negb (String.eqb (sl_Backend a) (sl_Backend b)) then string_ltb (sl_Backend a) (sl_Backend b)
  else string_ltb (sl_Phase a) (sl_Phase b).

Definition staleRunnerLabelSnapshots `{GoRange} (statuses : list AllocationStatus) (now : Time) : list staleRunnerLabelSnapshot :=
  sort_stable snapshot_before (stale_snapshot <$> range (foldl (count_stale now) ∅ statuses)).

Definition live_snapshot (snap : Snapshot) : liveCapacitySnapshot :=
  {| ls_Backend := sn_Backend snap; ls_Free := FreeSlots (sn_Status snap); ls_Max := cs_MaxRunners (sn_Status snap); ls_Stale := sn_Stale snap;
     ls_Source := sn_Source snap; ls_Err := negb (String.eqb (sn_Err snap) "") |}.

Definition observeLiveCapacityState `{GoRange} (cfg : BrokerConfig) (manager : option Manager) : list observation :=
  match manager with
  | Some manager => if lc_Enabled (br_LiveCapacity (bk_Broker cfg)) then [ObserveLiveCapacityState (live_snapshot <$> (range manager).*2)] else []
  | None => []
  end.

(** Reading the states of the circuits creates those that are missing. *)
Definition circuit_snapshot (pool : PoolName) (acc : backendAdmission * list backendCircuitSnapshot) (entry : BackendName * BackendConfig) :
    backendAdmission * list backendCircuitSnapshot :=
  let '(name, backendCfg) := entry in
  if negb (cb_Enabled (bc_CircuitBreaker backendCfg)) then acc
  else
    let '(c, a) := circuit acc.1 (pool, name) in
    (a, acc.2 ++ [{| bs_Pool := pool; bs_Backend := name; bs_State := normalizeCircuitState (ci_state c) |}]).

Definition stateSnapshot `{GoRange} (a : backendAdmission) (cfg : BrokerConfig) : backendAdmission * list backendCircuitSnapshot :=
  foldl (fun acc pool => foldl (circuit_snapshot (pc_Name pool)) acc (range (pc_Backends pool))) (a, []) (bk_Pools cfg).

Definition observeCircuitState `{GoRange} (cfg : BrokerConfig) (admission : option backendAdmission) : option backendAdmission * list observation :=
  match admission with
  | None => (None, [])
  | Some a => let '(a, snapshots) := stateSnapshot a cfg in (Some a, [ObserveBackendCircuitState snapshots])
  end.

Definition tier_snapshot (decision : Tier.Decision) : tierDecisionSnapshot :=
  {| tn_Pool := Tier.td_Pool decision; tn_Backend := Tier.td_Backend decision; tn_State := Tier.td_State decision; tn_Stale := Tier.td_Stale decision |}.

Definition observeTierState `{GoRange} (tiers : option TierManager) : list observation :=
  match tiers with Some tiers => [ObserveTierState (tier_snapshot <$> (range tiers).*2)] | None => [] end.

(** [observeState] with the records that the store lists. *)
Definition observeState `{GoRange} (cfg : BrokerConfig) (statuses : list AllocationStatus) (now : Time)
    (admission : option backendAdmission) (tiers : option TierManager) (manager : option Manager) : option backendAdmission * list observation :=
  let '(admission, circuits) := observeCircuitState cfg admission in
  (admission, [ObserveActiveAllocations statuses; ObserveCapacity cfg statuses; ObserveStaleRunnerLabels (staleRunnerLabelSnapshots statuses now)] ++
              circuits ++ observeTierState tiers ++ observeLiveCapacityState cfg manager).
End Metrics.
