(* ===== verification/ObservabilityBehaviour.v ===== *)
(** What the logs and metrics of the broker say: lines that read back as their event, and
    observations that fit the vectors they are made on. *)

From Stdlib Require Import SpecFloat.
From S2P Require Import Prelude Errors Model Store Backends Capacity Admission TierPolicy TierRefresh ServicePolicy Observability.
Open Scope Z_scope.
Open Scope go_scope.

(** ** Log lines *)

Section Lines.
Import Logs.

Fixpoint all_chars (p : ascii → bool) (s : string) : bool :=
  match s with EmptyString => true | String c s => p c && all_chars p s end.

(** No control character: a line stays one line. *)
Definition visible (c : ascii) : bool := negb ((code c <? 32) || (code c =? 127)).

Definition separates (c : ascii) : bool := (code c =? 32) || (code c =? 61).

(** A reader of such lines: key=value pairs with a space between them; a token that
    begins with a quote ends with the next one that no backslash precedes. *)
Fixpoint plain (s : string) : string * string :=
  match s with
  | EmptyString => (EmptyString, EmptyString)
  | String c t => if separates c then (EmptyString, s) else let '(token, rest) := plain t in (String c token, rest)
  end.

Fixpoint quoted (s : string) : string * string :=
  match s with
  | EmptyString => (EmptyString, EmptyString)
  | String c t =>
      if code c =? 34 then (one c, t)
      else if code c =? 92 then
        match t with
        | EmptyString => (one c, EmptyString)
        | String d t => let '(token, rest) := quoted t in (String c (String d token), rest)
        end
      else let '(token, rest) := quoted t in (String c token, rest)
  end.

Definition read_token (s : string) : string * string :=
  match s with
  | String c t => if code c =? 34 then let '(token, rest) := quoted t in (String c token, rest) else plain s
  | EmptyString => (EmptyString, EmptyString)
  end.

Fixpoint read_pairs (fuel : nat) (s : string) : option (list (string * string)) :=
  match fuel with
  | O => None
  | S fuel =>
      let '(key, s) := read_token s in
      match s with
      | String c s =>
          if code c =? 61 then
            let '(value, s) := read_token s in
            match s with
            | EmptyString => Some [(key, value)]
            | String c s => if code c =? 32 then cons (key, value) <$> read_pairs fuel s else None
            end
          else None
      | EmptyString => None
      end
  end.

Definition read_line (line : string) : option (list (string * string)) := read_pairs (String.length line) line.

Lemma all_chars_app p s t : all_chars p (s +:+ t) = all_chars p s && all_chars p t.
Proof. induction s as [|c s IH]; [done|]. rewrite append_cons. cbn. by rewrite IH, andb_assoc. Qed.

Lemma all_chars_impl p q s : (∀ c, p c = true → q c = true) → all_chars p s = true → all_chars q s = true.
Proof. intros Hpq. induction s as [|c s IH]; [done|]. cbn. intros [Hc Hs]%andb_prop. by rewrite Hpq, IH. Qed.

(** *** Runes *)

Definition bytes_of (pieces : list (Z * string)) : string := foldr (fun piece text => piece.2 +:+ text) EmptyString pieces.

Lemma bytes_cons piece pieces : bytes_of (piece :: pieces) = piece.2 +:+ bytes_of pieces.
Proof. done. Qed.

(** An ASCII character, or bytes above ASCII. *)
Definition piece_ok (piece : Z * string) : Prop :=
  (∃ c, piece = (code c, one c) ∧ code c < 128) ∨
  (128 ≤ piece.1 ∧ all_chars (fun c => 128 <=? code c) piece.2 = true).

Lemma code_bounds c : 0 ≤ code c < 256.
Proof. unfold code. pose proof (nat_ascii_bounded c). lia. Qed.

Lemma between_spec low high n : between low high n = true ↔ low ≤ n ≤ high.
Proof. unfold between. rewrite andb_true_iff, !Z.leb_le. done. Qed.

Lemma runes_spec n : ∀ s, (String.length s ≤ n)%nat → Forall piece_ok (runes s) ∧ bytes_of (runes s) = s.
Proof.
  induction n as [|n IH]; intros s Hn; [by destruct s; [|cbn in Hn; lia]|]. destruct s as [|c s1]; [done|]. cbn in Hn.
  pose proof (code_bounds c) as Hc. cbn [runes]. destruct (Z.ltb_spec (code c) 128) as [Hlow|Hhigh].
  { destruct (IH s1) as [Hok Hb]; [lia|]. split; [|by rewrite bytes_cons, Hb]. constructor; [|done]. left. by exists c. }
  assert (Hbad : Forall piece_ok ((RuneError, one c) :: runes s1) ∧ bytes_of ((RuneError, one c) :: runes s1) = String c s1).
  { destruct (IH s1) as [Hok Hb]; [lia|]. split; [|by rewrite bytes_cons, Hb]. constructor; [|done]. right. split; [done|]. cbn.
    apply andb_true_intro. split; [by apply Z.leb_le|done]. }
  destruct s1 as [|c2 s2]; [done|]. cbn in Hn.
  destruct (between 194 223 (code c) && continues c2) eqn:H2.
  { apply andb_prop in H2 as [H2a%between_spec H2b%between_spec]. destruct (IH s2) as [Hok Hb]; [lia|]. split; [|by rewrite bytes_cons, Hb].
    constructor; [|done]. right. unfold rune2. cbn. split; [lia|]. rewrite !andb_true_r. apply andb_true_intro. split; apply Z.leb_le; lia. }
  destruct s2 as [|c3 s3]; [done|]. cbn in Hn.
  destruct (three_bytes c c2 && continues c3) eqn:H3.
  { apply andb_prop in H3 as [H3a H3b%between_spec]. destruct (IH s3) as [Hok Hb]; [lia|]. split; [|by rewrite bytes_cons, Hb].
    constructor; [|done]. right. cbn. unfold three_bytes in H3a.
    assert (224 ≤ code c ∧ 128 ≤ code c2 ∧ (code c = 224 → 160 ≤ code c2)) as (Hx & Hy & Hz).
    { destruct (Z.eqb_spec (code c) 224); [apply between_spec in H3a; lia|]. destruct (Z.eqb_spec (code c) 237); [apply between_spec in H3a; lia|].
      apply andb_prop in H3a as [Ha%between_spec Hb'%between_spec]. lia. }
    unfold rune3. split; [lia|]. rewrite !andb_true_r. repeat (apply andb_true_intro; split); apply Z.leb_le; lia. }
  destruct s3 as [|c4 s4]; [done|]. cbn in Hn.
  destruct (four_bytes c c2 && continues c3 && continues c4) eqn:H4; [|done].
  apply andb_prop in H4 as [[H4a H4b%between_spec]%andb_prop H4c%between_spec]. destruct (IH s4) as [Hok Hb]; [lia|]. split; [|by rewrite bytes_cons, Hb].
  constructor; [|done]. right. cbn. unfold four_bytes in H4a.
  assert (240 ≤ code c ∧ 128 ≤ code c2 ∧ (code c = 240 → 144 ≤ code c2)) as (Hx & Hy & Hz).
  { destruct (Z.eqb_spec (code c) 240); [apply between_spec in H4a; lia|]. destruct (Z.eqb_spec (code c) 244); [apply between_spec in H4a; lia|].
    apply andb_prop in H4a as [Ha%between_spec Hb'%between_spec]. lia. }
  unfold rune4. split; [lia|]. rewrite !andb_true_r. repeat (apply andb_true_intro; split); apply Z.leb_le; lia.
Qed.

Lemma runes_ok s : Forall piece_ok (runes s).
Proof. by apply (runes_spec (String.length s)). Qed.

Lemma runes_bytes s : bytes_of (runes s) = s.
Proof. by apply (runes_spec (String.length s)). Qed.

(** *** Tokens *)

Section Tokens.
Context (is_print : Z → bool).

(** A character of a token without quotes. *)
Definition in_plain (c : ascii) : bool := visible c && negb (separates c) && negb (code c =? 34).

Lemma safe_piece piece : piece_ok piece → negb (unsafe_rune piece.1) = true → all_chars in_plain piece.2 = true.
Proof.
  unfold unsafe_rune, IsControl, IsSpace, in_plain, visible, separates. intros [(c & -> & Hc)|[_ Hw]] Hsafe; cbn in *.
  - pose proof (code_bounds c). unfold between in Hsafe. rewrite andb_true_r. lia.
  - revert Hw. apply all_chars_impl. intros c Hc. pose proof (code_bounds c). lia.
Qed.

Lemma safe_token value : logTokenIsSafe value = true → all_chars in_plain value = true.
Proof.
  unfold logTokenIsSafe. pose proof (runes_ok value) as Hok. rewrite <- (runes_bytes value) at 2. induction Hok as [|piece pieces Hp _ IH]; [done|].
  cbn [forallb]. intros [Hs Hrest]%andb_prop. rewrite bytes_cons, all_chars_app. by rewrite safe_piece, IH.
Qed.

Lemma plain_token token rest : all_chars in_plain token = true → (rest = EmptyString ∨ ∃ c t, rest = String c t ∧ separates c = true) →
  plain (token +:+ rest) = (token, rest).
Proof.
  intros Ht Hr. induction token as [|c token IH].
  - change (EmptyString +:+ rest) with rest. destruct Hr as [->|(c & t & -> & Hc)]; [done|]. cbn. by rewrite Hc.
  - rewrite append_cons. cbn in Ht. apply andb_prop in Ht as [Hc Ht]. unfold in_plain in Hc. apply andb_prop in Hc as [[_ Hc%negb_true_iff]%andb_prop _].
    cbn [plain]. by rewrite Hc, IH.
Qed.

(** Text that goes on inside of quotes. *)
Definition stays_quoted (s : string) : Prop := ∀ t, quoted (s +:+ t) = (s +:+ (quoted t).1, (quoted t).2).

Definition harmless (c : ascii) : bool := negb ((code c =? 34) || (code c =? 92)).

Lemma stays_harmless s : all_chars harmless s = true → stays_quoted s.
Proof.
  intros Hs t. induction s as [|c s IH]; [change (EmptyString +:+ ?x) with x; by destruct (quoted t)|]. cbn in Hs. apply andb_prop in Hs as [[H1 H2]%negb_true_iff%orb_false_iff Hs].
  rewrite append_cons. cbn [quoted]. rewrite H1, H2, IH by done. done.
Qed.

Lemma stays_escaped c s : all_chars harmless s = true → stays_quoted (backslash +:+ one c +:+ s).
Proof.
  intros Hs t. change (quoted (String (char_of 92) (String c (s +:+ t))) = (String (char_of 92) (String c (s +:+ (quoted t).1)), (quoted t).2)).
  cbn [quoted]. change (code (char_of 92)) with 92. cbn. by rewrite (stays_harmless s Hs t).
Qed.

(** *** Escapes *)

Lemma hex_digit_code n : 0 ≤ n < 16 → between 48 57 (code (hex_digit n)) || between 97 102 (code (hex_digit n)) = true.
Proof.
  intros Hn. assert (Hall : forallb (fun k => between 48 57 (code (hex_digit (Z.of_nat k))) || between 97 102 (code (hex_digit (Z.of_nat k)))) (seq 0 16) = true) by reflexivity.
  rewrite forallb_forall in Hall. specialize (Hall (Z.to_nat n)). rewrite Z2Nat.id in Hall by lia. apply Hall, in_seq. lia.
Qed.

(** Digits and letters. *)
Definition in_hex (c : ascii) : bool := between 48 57 (code c) || between 97 102 (code c).

Lemma hex_chars digits : ∀ n, all_chars in_hex (hex digits n) = true.
Proof.
  induction digits as [|digits IH]; intros n; [done|]. cbn [hex]. rewrite all_chars_app, IH. cbn. rewrite andb_true_r.
  apply hex_digit_code, Z.mod_pos_bound. lia.
Qed.

Lemma in_hex_harmless c : in_hex c = true → harmless c = true ∧ visible c = true.
Proof. unfold in_hex, harmless, visible, between. lia. Qed.

(** An escape is visible and does not end the quotes. *)
Definition fine (s : string) : Prop := stays_quoted s ∧ all_chars visible s = true.

Lemma fine_escape c s : visible c = true → all_chars in_hex s = true → fine (backslash +:+ one c +:+ s).
Proof.
  intros Hc Hs. split.
  - apply stays_escaped. revert Hs. apply all_chars_impl. apply in_hex_harmless.
  - rewrite !all_chars_app. cbn. rewrite Hc. cbn. revert Hs. apply all_chars_impl. apply in_hex_harmless.
Qed.

Lemma fine_plain s : all_chars (fun c => harmless c && visible c) s = true → fine s.
Proof. intros Hs. split; [apply stays_harmless|]; revert Hs; apply all_chars_impl; by intros c [? ?]%andb_prop. Qed.

Lemma high_fine s : all_chars (fun c => 128 <=? code c) s = true → fine s.
Proof. intros Hs. apply fine_plain. revert Hs. apply all_chars_impl. intros c. unfold harmless, visible. lia. Qed.

Lemma escape_fine piece : piece_ok piece → fine (escape is_print piece).
Proof.
  destruct piece as [r bytes]. intros Hp. unfold escape.
  destruct ((r =? RuneError) && _) eqn:He.
  { destruct bytes as [|c bytes]; [by apply (fine_escape "x" EmptyString)|]. apply (fine_escape "x" (hex 2 (code c))); [done|apply hex_chars]. }
  destruct ((r =? 34) || (r =? 92)) eqn:Hq.
  { destruct Hp as [(c & [= -> ->] & Hc)|[Hr _]]; [|cbn in Hr; lia]. apply (fine_escape c EmptyString); [|done]. unfold visible. lia. }
  destruct (IsPrint is_print r) eqn:Hprint.
  { destruct Hp as [(c & [= -> ->] & Hc)|[_ Hw]]; [|by apply high_fine]. apply fine_plain. cbn. unfold IsPrint, between in Hprint. unfold harmless, visible.
    destruct (Z.ltb_spec (code c) 128); [|lia]. rewrite andb_true_r. lia. }
  repeat (match goal with |- context [r =? ?n] => destruct (r =? n); [by apply (fine_escape _ EmptyString)|] end).
  destruct ((r <? 32) || _); [apply (fine_escape "x" (hex 2 r)); [done|apply hex_chars]|].
  destruct (r <? 65536); [apply (fine_escape "u" (hex 4 r))|apply (fine_escape "U" (hex 8 r))]; (done || apply hex_chars).
Qed.

Lemma fine_app s t : fine s → fine t → fine (s +:+ t).
Proof.
  intros [Hs Hs'] [Ht Ht']. split; [|by rewrite all_chars_app, Hs', Ht']. intros u. by rewrite string_app_assoc, Hs, Ht, string_app_assoc.
Qed.

Lemma escapes_fine pieces : Forall piece_ok pieces → fine (foldr (fun piece text => escape is_print piece +:+ text) EmptyString pieces).
Proof. induction 1 as [|piece pieces Hp _ IH]; [by apply fine_plain|]. by apply fine_app; [apply escape_fine|]. Qed.

Lemma visible_token value : all_chars visible (formatLogToken is_print value) = true.
Proof.
  unfold formatLogToken. destruct (logTokenIsSafe value) eqn:Hs.
  - apply safe_token in Hs. revert Hs. apply all_chars_impl. unfold in_plain. by intros c [[? _]%andb_prop _]%andb_prop.
  - unfold Quote. rewrite !all_chars_app, (proj2 (escapes_fine _ (runes_ok value))). done.
Qed.

(** Where a token may end. *)
Definition ends_token (rest : string) : Prop := rest = EmptyString ∨ ∃ c t, rest = String c t ∧ separates c = true.

Lemma token_read value rest : ends_token rest → read_token (formatLogToken is_print value +:+ rest) = (formatLogToken is_print value, rest).
Proof.
  intros Hr. unfold formatLogToken. destruct (logTokenIsSafe value) eqn:Hs.
  - apply safe_token in Hs. rewrite <- (plain_token value rest Hs Hr). destruct value as [|c value].
    + change (EmptyString +:+ rest) with rest. destruct Hr as [->|(c & t & -> & Hc)]; [done|]. unfold read_token. destruct (Z.eqb_spec (code c) 34) as [Hq|]; [|done].
      unfold separates in Hc. lia.
    + rewrite append_cons. cbn in Hs. apply andb_prop in Hs as [[_ Hq%negb_true_iff]%andb_prop _]. unfold read_token. by rewrite Hq.
  - unfold Quote. set (body := foldr _ _ _). change (read_token ((dquote +:+ body +:+ dquote) +:+ rest)) with (let '(token, rest) := quoted ((body +:+ dquote) +:+ rest) in (String (ascii_of_nat 34) token, rest)).
    rewrite string_app_assoc, (proj1 (escapes_fine _ (runes_ok value))). done.
Qed.

Definition pair_text (kv : string * string) : string := formatLogToken is_print kv.1 +:+ "=" +:+ formatLogToken is_print kv.2.

Definition rendered (kv : string * string) : string * string := (formatLogToken is_print kv.1, formatLogToken is_print kv.2).

Definition pairs_text (pairs : list (string * string)) : string := foldr (fun kv text => " " +:+ pair_text kv +:+ text) EmptyString pairs.

Lemma ends_pairs pairs : ends_token (pairs_text pairs).
Proof. destruct pairs as [|kv pairs]; [by left|right]. by eexists _, _. Qed.

Lemma pairs_read pairs : ∀ fuel kv, (length pairs < fuel)%nat →
  read_pairs fuel (pair_text kv +:+ pairs_text pairs) = Some (rendered <$> kv :: pairs).
Proof.
  induction pairs as [|kv' pairs IH]; intros [|fuel] kv Hf; cbn in Hf; try lia; cbn [read_pairs]; unfold pair_text at 1;
    rewrite !string_app_assoc, token_read by (right; by eexists _, _); change ("=" +:+ ?x) with (String "=" x); cbv beta iota;
    change (code "=" =? 61) with true; cbv iota; rewrite token_read by apply (ends_pairs (_ :: _)) || apply (ends_pairs []); cbv beta iota.
  - done.
  - change (pairs_text (kv' :: pairs)) with (String " " (pair_text kv' +:+ pairs_text pairs)). cbv beta iota. change (code " " =? 32) with true. cbv iota.
    by rewrite IH by lia.
Qed.

Lemma text_length_app s t : String.length (s +:+ t) = (String.length s + String.length t)%nat.
Proof. induction s as [|c s IH]; [done|]. rewrite append_cons. cbn. by rewrite IH. Qed.

Lemma length_pairs pairs : (length pairs ≤ String.length (pairs_text pairs))%nat.
Proof. induction pairs as [|kv pairs IH]; [done|]. cbn [pairs_text foldr length]. fold (pairs_text pairs). rewrite !text_length_app. cbn. lia. Qed.

Lemma visible_pairs pairs : all_chars visible (pairs_text pairs) = true.
Proof.
  induction pairs as [|kv pairs IH]; [done|]. cbn [pairs_text foldr]. fold (pairs_text pairs). unfold pair_text. by rewrite !all_chars_app, !visible_token, IH.
Qed.

(** The pairs of an event. *)
Definition event_pairs (correlationID event : string) (fields : gmap string string) : list (string * string) :=
  ("event", event) :: ("correlation_id", correlationID) ::
    ((fun key => (key, default "" (fields !! key))) <$> sort_stable string_ltb (map_to_list fields).*1).

Lemma line_pairs correlationID event fields :
  logAllocationEvent is_print correlationID event fields = pair_text ("event", event) +:+ pairs_text (tl (event_pairs correlationID event fields)).
Proof.
  assert (Hfields : formatLogFields is_print fields = pairs_text ((fun key => (key, default "" (fields !! key))) <$> sort_stable string_ltb (map_to_list fields).*1)).
  { unfold formatLogFields. induction (sort_stable _ _) as [|key keys IH]; [done|]. cbn [foldr fmap list_fmap pairs_text]. fold (pairs_text ((fun key => (key, default "" (fields !! key))) <$> keys)).
    rewrite IH. unfold field_text, pair_text. cbn [fst snd]. by rewrite !string_app_assoc. }
  unfold logAllocationEvent. rewrite Hfields. unfold event_pairs. cbn [tl pairs_text foldr]. unfold pair_text. cbn [fst snd]. by rewrite !string_app_assoc.
Qed.

End Tokens.
End Lines.

(** ** Metrics *)

Section Observer.
Import Metrics.
Context `{GoRange}.

Definition vector_of (e : emission) : vector :=
  match e with Inc v _ | Add v _ _ | Put v _ _ | Sample v _ _ | Reset_all v => v end.

(** A vector takes as many label values as it has labels, and only what its kind of
    metric can do; a counter never falls. *)
Definition fits (e : emission) : Prop :=
  let d := NewPrometheusObserver (vector_of e) in
  vector_of e ∈ Register ∧
  match e with
  | Inc _ labels => de_Kind d ≠ Histogram ∧ length labels = length (de_Labels d)
  | Add _ labels n => de_Kind d ≠ Histogram ∧ 0 < n ∧ length labels = length (de_Labels d)
  | Put _ labels _ => de_Kind d = Gauge ∧ length labels = length (de_Labels d)
  | Sample _ labels _ => de_Kind d = Histogram ∧ length labels = length (de_Labels d)
  | Reset_all _ => de_Kind d = Gauge
  end.

Lemma registered v : v ∈ Register.
Proof. destruct v; unfold Register; repeat (try (by left); right). Qed.

Lemma utilization_fits cfg statuses : Forall fits (utilization cfg statuses).
Proof.
  apply Forall_bind, Forall_forall. intros pool _. apply Forall_bind, Forall_forall. intros [name backend] _.
  cbn. destruct (_ || _); [constructor|]. by repeat constructor.
Qed.

(** C39. No observation makes the metrics library panic and none is lost: the metrics have distinct names and are all
    registered, and every observation, whatever its arguments, gives each vector as many label values as it
    has labels, in an operation that its kind of metric has, and adds only positive numbers to a counter. *)
Theorem observations_fit_their_metrics o : NoDup ((fun v => de_Name (NewPrometheusObserver v)) <$> Register) ∧ Forall fits (observe o).
Proof.
  split; [by apply (bool_decide_unpack _); vm_compute|].
  assert (Hone : ∀ v, v ∈ Register) by apply registered.
  destruct o; cbn [observe]; try (repeat constructor; by try apply Hone).
  - constructor; [by split|]. apply Forall_fmap, Forall_forall. intros status _. by repeat split.
  - constructor; [by split|apply utilization_fits].
  - constructor; [by split|]. apply Forall_bind, Forall_forall. intros snapshot _. repeat constructor; by try apply Hone.
  - constructor; [by split|]. apply Forall_bind, Forall_forall. intros snapshot _. repeat constructor; by try apply Hone.
  - do 2 (constructor; [by split|]). apply Forall_bind, Forall_forall. intros snapshot _. repeat constructor; by try apply Hone.
  - constructor; [by split|]. apply Forall_fmap, Forall_forall. intros snapshot _. by repeat split.
  - unfold restart_orphans. destruct (Z.leb_spec count 0); [constructor|]. repeat constructor; by try apply Hone.
Qed.

(** *** Stale labels *)

Definition stale_at (now : Time) (key : stale_key) (status : AllocationStatus) : bool :=
  bool_decide (stale_phase now status = Some key.2) && String.eqb (as_Pool status) key.1.1 && String.eqb (as_SelectedBackend status) key.1.2.

Lemma stale_at_spec now key status : stale_at now key status = true ↔
  ∃ phase, stale_phase now status = Some phase ∧ key = (as_Pool status, as_SelectedBackend status, phase).
Proof.
  destruct key as [[pool backend] phase]. unfold stale_at. cbn. rewrite !andb_true_iff, bool_decide_eq_true, !String.eqb_eq. naive_solver.
Qed.

Lemma stale_counts now statuses : ∀ m, (∀ key n, m !! key = Some n → 0 < n) →
  (∀ key n, foldl (count_stale now) m statuses !! key = Some n → 0 < n) ∧
  (∀ key, default 0 (foldl (count_stale now) m statuses !! key) = default 0 (m !! key) + count_if (stale_at now key) statuses).
Proof.
  induction statuses as [|status statuses IH]; intros m Hm; [split; [done|]; intros key; cbn; lia|]. cbn [foldl].
  assert (Hpos : ∀ key, 0 ≤ default 0 (m !! key)) by (intros key; destruct (m !! key) as [n|] eqn:Hk; [apply Hm in Hk; cbn; lia|done]).
  assert (Hnext : (∀ key n, count_stale now m status !! key = Some n → 0 < n) ∧
                  ∀ key, default 0 (count_stale now m status !! key) = default 0 (m !! key) + if stale_at now key status then 1 else 0).
  { unfold count_stale. destruct (stale_phase now status) as [phase|] eqn:Hp.
    - split; [intros key n [[<- <-]|[_ Hk]]%lookup_insert_Some; [specialize (Hpos (as_Pool status, as_SelectedBackend status, phase)); lia|by eapply Hm]|].
      intros key. destruct (stale_at now key status) eqn:Hs.
      + apply stale_at_spec in Hs as (phase' & Hp' & ->). assert (phase' = phase) as -> by congruence. by rewrite lookup_insert_eq.
      + rewrite lookup_insert_ne; [lia|]. intros <-. apply not_true_iff_false in Hs. apply Hs, stale_at_spec. by exists phase.
    - split; [done|]. intros key. destruct (stale_at now key status) eqn:Hs; [|lia]. apply stale_at_spec in Hs as (phase & Hp' & _). congruence. }
  destruct Hnext as [Hpos' Hcount]. destruct (IH _ Hpos') as [Hp Hc]. split; [exact Hp|]. intros key. rewrite Hc, Hcount. change (count_if (stale_at now key) (status :: statuses)) with ((if stale_at now key status then 1 else 0) + count_if (stale_at now key) statuses). lia.
Qed.

Definition key_of (s : staleRunnerLabelSnapshot) : stale_key := (sl_Pool s, sl_Backend s, sl_Phase s).

(** The snapshot of stale labels has one entry for every pool, backend and phase with such
    records, with their number. *)
Theorem stale_labels_are_exact statuses now snapshot :
  let out := staleRunnerLabelSnapshots statuses now in
  NoDup (key_of <$> out) ∧
  (snapshot ∈ out ↔ 0 < sl_Count snapshot ∧ sl_Count snapshot = count_if (stale_at now (key_of snapshot)) statuses).
Proof.
  intros out. destruct (stale_counts now statuses ∅) as [Hpos Hcount]; [by intros ? ?|]. set (m := foldl (count_stale now) ∅ statuses) in *.
  assert (Hout : out ≡ₚ stale_snapshot <$> map_to_list m).
  { unfold out, staleRunnerLabelSnapshots. rewrite sort_stable_perm. apply fmap_Permutation, range_perm. }
  split.
  - rewrite Hout, <- list_fmap_compose. rewrite (list_fmap_ext _ fst (map_to_list m)); [apply NoDup_fst_map_to_list|].
    by intros _ [[[pool backend] phase] n] _.
  - rewrite Hout, list_elem_of_fmap. specialize (Hcount (key_of snapshot)). rewrite lookup_empty in Hcount. cbn in Hcount. split.
    + intros ([key n] & -> & Hin%elem_of_map_to_list). cbn [stale_snapshot sl_Count] in *. split; [by eapply Hpos|].
      destruct key as [[pool backend] phase]. unfold key_of in Hcount. cbn in *. by rewrite Hin in Hcount.
    + intros [Hn Heq]. destruct (m !! key_of snapshot) as [n|] eqn:Hm; cbn in Hcount; [|lia].
      exists (key_of snapshot, n). split; [|by apply elem_of_map_to_list]. destruct snapshot. unfold stale_snapshot, key_of in *. cbn in *. f_equal. lia.
Qed.
End Observer.
