(* ===== verification/Broker.v ===== *)
(** The assembly of the broker (src/cmd/broker/main.go, src/internal/backend/backend.go,
    src/internal/store/store.go): which driver answers to a backend name, which store
    keeps the records, and what a tick of a background worker does. *)

From S2P Require Import Prelude Errors Model Store Backends Config GithubClient.
Open Scope Z_scope.
Open Scope go_scope.

(** ** The registry of drivers *)

(** The drivers that the broker builds; two of them are told their name. *)
Inductive driver :=
  | ARCDriver
  | LauncherDriver (name : BackendName)
  | AzureVMDriver
  | DesktopDriver
  | KubernetesDriver (name : BackendName).

#[export] Instance driver_eq_dec : EqDecision driver.
Proof. solve_decision. Defined.

(** [Name()]. *)
Definition driver_name (d : driver) : BackendName :=
  match d with
  | ARCDriver => BackendARC
  | LauncherDriver name | KubernetesDriver name => name
  | AzureVMDriver => BackendAzureVM
  | DesktopDriver => BackendDesktop
  end.

(** [Registry], whose one field is the map of drivers. *)
Definition DriverRegistry : Type := gmap BackendName driver.

Definition NewRegistry (entries : list driver) : DriverRegistry :=
  foldl (fun backends entry => <[driver_name entry := entry]> backends) ∅ entries.

Definition Registry_Get (r : DriverRegistry) (name : BackendName) : option driver := r !! name.

(** All drivers in the order of their names. *)
Definition Registry_All `{GoRange} (r : DriverRegistry) : list driver :=
  sort_stable (fun a b => string_ltb (driver_name a) (driver_name b)) (range r).*2.

(** [target.Driver == "kubernetes"]; a missing target has no driver. *)
Definition on_kubernetes (target : BackendConfig) : bool := String.eqb (bc_Driver target) "kubernetes".

Definition arc_target (cfg : BrokerConfig) : driver :=
  if existsb (fun pool => on_kubernetes (default zero_BackendConfig (pc_Backends pool !! BackendARC))) (bk_Pools cfg)
  then KubernetesDriver BackendARC else ARCDriver.

(** One target of the second loop: a driver of its own, once for every name. *)
Definition add_alias (acc : list driver * gset BackendName) (entry : BackendName * BackendConfig) : list driver * gset BackendName :=
  let '(entries, seen) := acc in
  let '(name, target) := entry in
  if on_kubernetes target && negb (bool_decide (name ∈ seen)) then (entries ++ [KubernetesDriver name], {[ name ]} ∪ seen) else acc.

Definition built_in (arcTarget : driver) : list driver :=
  [arcTarget; LauncherDriver BackendCodeBuild; LauncherDriver BackendLambda; LauncherDriver BackendCloudRun;
   LauncherDriver BackendAzureFunctions; AzureVMDriver; DesktopDriver; KubernetesDriver BackendKubernetes;
   LauncherDriver BackendEC2; LauncherDriver BackendGCE].

Definition buildRegistry `{GoRange} (cfg : BrokerConfig) : DriverRegistry :=
  NewRegistry (foldl (fun acc pool => foldl add_alias acc (range (pc_Backends pool)))
                     (built_in (arc_target cfg), {[ BackendARC ]}) (bk_Pools cfg)).1.

(** ** The process *)

(** [NewFromConfig]: which store is opened. *)
Inductive store_kind := MemoryStore | FileStore | PostgresStore.

Definition NewFromConfig (cfg : StateStoreConfig) : result store_kind :=
  let kind := normalizeType (ss_Type cfg) in
  if String.eqb kind "" || String.eqb kind TypeMemory then Ok MemoryStore
  else if String.eqb kind TypeFile then Ok FileStore
  else if String.eqb kind TypePostgres then Ok PostgresStore
  else Fail (Errorf ("unsupported broker.stateStore.type " +:+ quote (ss_Type cfg))).

Section Process.
Context (Getenv : string → string) (ParseDuration : string → result Duration).

Definition shutdownTimeoutFromEnv : Duration :=
  let raw := TrimSpace (Getenv "UECB_SHUTDOWN_TIMEOUT") in
  if String.eqb raw "" then 10 * Second
  else match ParseDuration raw with
       | Fail _ => 10 * Second
       | Ok d => if d <=? 0 then 10 * Second else d
       end.

Definition expectedReplicasFromEnv : Z :=
  let raw := TrimSpace (Getenv "UECB_REPLICAS") in
  if String.eqb raw "" then 1
  else match GitHub.Atoi raw with None => 1 | Some n => if n <? 1 then 1 else n end.

Definition leaderIdentity (configured : string) : string :=
  let first := fun id rest => let id := TrimSpace id in if negb (String.eqb id "") then id else rest in
  first configured (first (Getenv "UECB_POD_NAME") (first (Getenv "HOSTNAME") "broker")).
End Process.

Definition webhookPoolsConfigured (cfg : BrokerConfig) : bool :=
  existsb (fun pool => (0 <? length (pc_WebhookLabels pool))%nat) (bk_Pools cfg).

(** The elector of the store: the lease of the replicas, or a store of one process. *)
Section Background.
Context {S : Type} (TryAcquireLeadership : string → string → Duration → S → (bool * option error) * S).

Definition lease_ttl (cfg : BrokerRuntimeConfig) : Duration :=
  if ha_LeaseTTL (br_HA cfg) <=? 0 then 15 * Second else ha_LeaseTTL (br_HA cfg).

(** IsLeader of the webhook endpoint. *)
Definition IsLeader (cfg : BrokerRuntimeConfig) (identity : string) (s : S) : (bool * option error) * S :=
  if negb (HAEnabled cfg) then ((true, None), s) else TryAcquireLeadership LeaderLeaseName identity (lease_ttl cfg) s.

(** A tick of [startBackground]. *)
Definition background_tick (cfg : BrokerRuntimeConfig) (identity : string) (fn : S → S) (s : S) : S :=
  if negb (HAEnabled cfg) then fn s
  else
    match TryAcquireLeadership LeaderLeaseName identity (lease_ttl cfg) s with
    | ((_, Some _), s) => s
    | ((false, None), s) => s
    | ((true, None), s) => fn s
    end.
End Background.
