(* ===== verification/BrokerBehaviour.v ===== *)
(** What the assembly of the broker does: in an accepted configuration every target is served
    by the driver that it asks for. *)

From S2P Require Import Prelude Errors Model Store Backends Config ConfigTheory ConfigBehaviour Broker.
Open Scope Z_scope.
Open Scope go_scope.

(** ** The registry *)

(** The driver that a backend name has of its own. *)
Definition shipped (name : BackendName) : option driver :=
  List.find (fun d => String.eqb (driver_name d) name) (built_in ARCDriver).

(** Some pool gives the name the Kubernetes driver. *)
Definition driven (pools : list PoolConfig) (name : BackendName) : Prop :=
  ∃ pool target, pool ∈ pools ∧ pc_Backends pool !! name = Some target ∧ on_kubernetes target = true.

Lemma NewRegistry_lookup entries name :
  Registry_Get (NewRegistry entries) name = last (filter (fun d => driver_name d = name) entries).
Proof.
  unfold NewRegistry, Registry_Get, DriverRegistry. induction entries as [|d entries IH] using rev_ind; [done|].
  rewrite foldl_app, filter_app. cbn [foldl]. destruct (decide (driver_name d = name)) as [<-|Hne].
  - rewrite lookup_insert_eq. rewrite filter_cons_True, filter_nil by done. by rewrite last_snoc.
  - rewrite lookup_insert_ne by done. rewrite filter_cons_False, filter_nil by done. by rewrite app_nil_r.
Qed.

(** The second loop adds one driver for every name that has one. *)
Definition aliases_of (seen : gset BackendName) (pools : list PoolConfig) (added : list driver) : Prop :=
  ∀ d, d ∈ added ↔ ∃ name, d = KubernetesDriver name ∧ name ∉ seen ∧ driven pools name.

Lemma add_alias_spec (targets : list (BackendName * BackendConfig)) : ∀ entries seen,
  ∃ added, foldl add_alias (entries, seen) targets = (entries ++ added, list_to_set (driver_name <$> added) ∪ seen) ∧
    ∀ d, d ∈ added ↔ ∃ name target, d = KubernetesDriver name ∧ name ∉ seen ∧ (name, target) ∈ targets ∧ on_kubernetes target = true.
Proof.
  induction targets as [|[name target] targets IH]; intros entries seen.
  { exists []. cbn. rewrite app_nil_r. split; [f_equal; set_solver|]. intros d. split; [by intros ?%elem_of_nil|]. intros (? & ? & _ & _ & ?%elem_of_nil & _). done. }
  cbn [foldl add_alias]. destruct (on_kubernetes target && _) eqn:Ha.
  - apply andb_prop in Ha as [Hk Hnew%negb_true_iff%bool_decide_eq_false]. destruct (IH (entries ++ [KubernetesDriver name]) ({[name]} ∪ seen)) as (added & -> & Hadded).
    exists (KubernetesDriver name :: added). split; [rewrite <- app_assoc; f_equal; cbn; set_solver|].
    intros d. rewrite elem_of_cons, Hadded. split.
    + intros [->|(n & t & -> & Hn & Hin & Ht)]; [by exists name, target; split_and!; [..|left|]|]. exists n, t. split_and!; [done|set_solver|by right|done].
    + intros (n & t & -> & Hn & Hin & Ht). destruct (decide (n = name)) as [->|Hne]; [by left|right]. exists n, t. split_and!; [done|set_solver| |done].
      apply elem_of_cons in Hin as [[= -> ->]|]; done.
  - destruct (IH entries seen) as (added & -> & Hadded). exists added. split; [done|]. intros d. rewrite Hadded. split.
    + intros (n & t & -> & Hn & Hin & Ht). exists n, t. split_and!; [done|done|by right|done].
    + intros (n & t & -> & Hn & [[= -> ->]|Hin]%elem_of_cons & Ht); [|by exists n, t].
      rewrite Ht in Ha. cbn in Ha. apply negb_false_iff, bool_decide_eq_true in Ha. done.
Qed.

Lemma add_pools_spec `{GoRange} pools : ∀ entries seen,
  ∃ added seen', foldl (fun acc pool => foldl add_alias acc (range (pc_Backends pool))) (entries, seen) pools = (entries ++ added, seen') ∧
    seen' = list_to_set (driver_name <$> added) ∪ seen ∧ aliases_of seen pools added.
Proof.
  induction pools as [|pool pools IH]; intros entries seen.
  { exists [], seen. cbn. rewrite app_nil_r. split; [done|]. split; [set_solver|]. intros d. split; [by intros ?%elem_of_nil|].
    intros (? & _ & _ & ? & ? & ?%elem_of_nil & _). done. }
  cbn [foldl]. destruct (add_alias_spec (range (pc_Backends pool)) entries seen) as (first & -> & Hfirst).
  destruct (IH (entries ++ first) (list_to_set (driver_name <$> first) ∪ seen)) as (rest & seen' & -> & -> & Hrest).
  exists (first ++ rest), (list_to_set (driver_name <$> first ++ rest) ∪ seen).
  split; [rewrite app_assoc; f_equal; rewrite fmap_app, list_to_set_app_L; set_solver|]. split; [done|].
  intros d. rewrite elem_of_app, Hfirst, (Hrest d). split.
  - intros [(n & t & -> & Hn & Hin%elem_of_range & Ht)|(n & -> & Hn & p & t & Hp & Hl & Ht)].
    + exists n. split; [done|]. split; [done|]. exists pool, t. split; [by left|done].
    + exists n. split; [done|]. split; [set_solver|]. exists p, t. split; [by right|done].
  - intros (n & -> & Hn & p & t & [->|Hp]%elem_of_cons & Hl & Ht); [left; exists n, t; split_and!; [done|done|by apply elem_of_range|done]|].
    destruct (decide (KubernetesDriver n ∈ first)) as [Hin|Hout]; [left; by apply Hfirst|right]. exists n. split; [done|]. split; [|by exists p, t].
    intros [Hin|]%elem_of_union; [|done]. apply elem_of_list_to_set, list_elem_of_fmap in Hin as (d & -> & Hd). apply Hout.
    pose proof Hd as (m & t' & -> & _)%Hfirst. done.
Qed.

Lemma filter_nothing name entries : (∀ d, d ∈ entries → driver_name d ≠ name) → filter (fun d => driver_name d = name) entries = [].
Proof.
  intros Hall. destruct (filter _ entries) as [|d rest] eqn:Hf; [done|].
  assert (d ∈ filter (fun d => driver_name d = name) entries) as [Hn Hin]%list_elem_of_filter by (rewrite Hf; left). by destruct (Hall d Hin).
Qed.

Lemma last_filter_find name entries : NoDup (driver_name <$> entries) →
  last (filter (fun d => driver_name d = name) entries) = List.find (fun d => String.eqb (driver_name d) name) entries.
Proof.
  induction entries as [|d entries IH]; [done|]. cbn [fmap list_fmap List.find]. intros [Hnot Hnd]%NoDup_cons.
  destruct (String.eqb_spec (driver_name d) name) as [Heq|Hne].
  - rewrite filter_cons_True by done. rewrite filter_nothing; [done|]. intros e He Hn. apply Hnot. rewrite Heq, <- Hn. by apply list_elem_of_fmap_2.
  - rewrite filter_cons_False by done. by apply IH.
Qed.

Lemma arc_target_name cfg : driver_name (arc_target cfg) = BackendARC.
Proof. unfold arc_target. by destruct (existsb _ _). Qed.

Lemma arc_target_driven cfg : existsb (fun pool => on_kubernetes (default zero_BackendConfig (pc_Backends pool !! BackendARC))) (bk_Pools cfg) = true ↔
  driven (bk_Pools cfg) BackendARC.
Proof.
  rewrite existsb_exists. split.
  - intros (pool & Hin%list_elem_of_In & Hk). destruct (pc_Backends pool !! BackendARC) as [target|] eqn:Ht; [|done]. by exists pool, target.
  - intros (pool & target & Hin & Ht & Hk). exists pool. split; [by apply list_elem_of_In|]. by rewrite Ht.
Qed.

Lemma buildRegistry_lookup `{GoRange} cfg name :
  (driven (bk_Pools cfg) name → Registry_Get (buildRegistry cfg) name = Some (KubernetesDriver name)) ∧
  (¬ driven (bk_Pools cfg) name → Registry_Get (buildRegistry cfg) name = shipped name).
Proof.
  unfold buildRegistry. destruct (add_pools_spec (bk_Pools cfg) (built_in (arc_target cfg)) {[ BackendARC ]}) as (added & seen' & -> & _ & Hadded).
  cbn [fst]. rewrite NewRegistry_lookup, filter_app.
  assert (Hfind : last (filter (fun d => driver_name d = name) (built_in (arc_target cfg))) =
                  List.find (fun d => String.eqb (driver_name d) name) (built_in (arc_target cfg))).
  { apply last_filter_find. unfold built_in. rewrite fmap_cons, arc_target_name. by apply (bool_decide_unpack _); vm_compute. }
  assert (Hnone : ¬ (name ≠ BackendARC ∧ driven (bk_Pools cfg) name) → filter (fun d => driver_name d = name) added = []).
  { intros Hno. apply filter_nothing. intros d (m & -> & Hm & Hd)%Hadded Heq. cbn in Heq. subst m. apply Hno. split; [set_solver|done]. }
  split.
  - intros Hd. destruct (decide (name = BackendARC)) as [->|Hne].
    + rewrite Hnone by naive_solver. rewrite app_nil_r, Hfind. apply arc_target_driven in Hd. unfold arc_target. by rewrite Hd.
    + destruct (last (filter (fun d => driver_name d = name) added)) as [d|] eqn:Hl.
      * rewrite last_app, Hl. apply last_Some_elem_of, list_elem_of_filter in Hl as [Hn (m & -> & _)%Hadded]. by rewrite <- Hn.
      * apply last_None in Hl. assert (KubernetesDriver name ∈ filter (fun d => driver_name d = name) added) as Hin; [|rewrite Hl in Hin; by apply elem_of_nil in Hin].
        apply list_elem_of_filter. split; [done|]. apply Hadded. exists name. split; [done|]. split; [set_solver|done].
  - intros Hd. rewrite Hnone by naive_solver. rewrite app_nil_r, Hfind. unfold shipped, built_in. cbn [List.find]. rewrite arc_target_name. cbn [driver_name].
    destruct (String.eqb_spec BackendARC name) as [<-|Hne]; [|done].
    unfold arc_target. destruct (existsb _ _) eqn:He; [by apply arc_target_driven in He|done].
Qed.

(** ** Accepted configurations *)

Lemma driven_alias cfg pool name target : kubernetes_ok cfg → pool ∈ bk_Pools cfg → pc_Backends pool !! name = Some target →
  driven (bk_Pools cfg) name → on_kubernetes target = true.
Proof.
  intros Hk [i Hi]%list_elem_of_lookup Ht (pool' & target' & [j Hj]%list_elem_of_lookup & Ht' & Hon). unfold on_kubernetes in *. apply String.eqb_eq in Hon.
  set (e' := Build_entry j pool' name target'). assert (Hin : e' ∈ entries_named cfg name) by by apply elem_of_entries_named.
  destruct (latest is_alias (entries_named cfg name)) as [alias|] eqn:Hl.
  - pose proof (k_drivers cfg Hk (Build_entry i pool name target) alias (conj Hi Ht) Hl) as He.
    pose proof (k_drivers cfg Hk e' alias (conj Hj Ht') Hl) as He'. cbn in *. apply String.eqb_eq. congruence.
  - unfold latest in Hl. apply last_None in Hl. assert (e' ∈ filter (kept is_alias) (entries_named cfg name)) as Hf; [|rewrite Hl in Hf; by apply elem_of_nil in Hf].
    apply list_elem_of_filter. split; [|done]. unfold kept, is_alias. cbn. by rewrite Hon.
Qed.

(** C25. In a configuration that the broker accepts, whatever the order in which its maps are walked, every target of
    every pool is served by the driver that it asks for: its own Kubernetes driver when it says so, and the
    driver that ships under its name otherwise, so that no pool gets the driver of another. *)
Theorem accepted_targets_get_their_driver (order : GoRange) zone cfg pool name target :
  Config.Validate (H := order) zone cfg = None → pool ∈ bk_Pools cfg → pc_Backends pool !! name = Some target →
  Registry_Get (buildRegistry (H := order) cfg) name = if on_kubernetes target then Some (KubernetesDriver name) else shipped name.
Proof.
  intros Hv Hp Ht. apply Validate_None in Hv. destruct (buildRegistry_lookup cfg name) as [Hyes Hno]. destruct (on_kubernetes target) eqn:Hk.
  - apply Hyes. by exists pool, target.
  - apply Hno. intros Hd. apply (driven_alias cfg pool name target) in Hd; [congruence|apply Hv|done|done].
Qed.

(** ** Witness *)

Lemma accepted_targets_get_their_driver_witness :
  Registry_Get (buildRegistry (H := range_forward) Example_config.config) "gpu" = Some (KubernetesDriver "gpu") ∧
  Registry_Get (buildRegistry (H := range_forward) Example_config.config) BackendLambda = Some (LauncherDriver BackendLambda).
Proof.
  split.
  - refine (accepted_targets_get_their_driver range_forward Example_config.no_zone Example_config.config Example_config.small "gpu" (Example_config.gpu 1) _ _ _);
      [vm_compute; reflexivity|left|vm_compute; reflexivity].
  - vm_compute. reflexivity.
Defined.
