(* ===== verification/TierClients.v ===== *)
(** The clients of the tier refresher: instant queries of Prometheus
    (src/internal/tier/promclient/client.go) and usage snapshots of a provider
    (src/internal/tier/provider/provider.go).  URLs, the network, JSON and the text of
    numbers are parameters. *)

From Stdlib Require Import Floats.SpecFloat.
From S2P Require Import Prelude Errors Model TierPolicy Config Auth TierRefresh Quality QualityBehaviour.
Open Scope Z_scope.
Open Scope go_scope.

(** ** Prometheus *)

Module PromClient.

Record response := {
  rs_Status : string;
  rs_ErrorType : string;
  rs_Error : string;
  rs_ResultType : string;
  (* the raw text of data.result *)
  rs_Result : string;
}.

(** What answers a request: a status line, and a body or an error in reading it. *)
Record Net := {
  (* url.Parse with the query parameter set *)
  nt_Endpoint : string → string → result string;
  nt_NewRequest : string → option error;
  (* the URL and the Authorization header *)
  nt_Do : string → option string → result (string * result string);
  nt_Response : string → result response;
  (* the elements of an array; None is not a string *)
  nt_Scalar : string → result (list (option string));
  (* the raw elements of every value of a vector *)
  nt_Vector : string → result (list (list string));
  nt_String : string → result string;
  nt_ParseFloat : string → result spec_float;
}.

Section Client.
Context (net : Net).

Definition minus_infinity : spec_float := S754_infinity true.
Definition IsInf_minus (f : spec_float) : bool := match f with S754_infinity true => true | _ => false end.

(** One sample of a vector. *)
Definition sample_value (sample : list string) : result spec_float :=
  match sample with
  | [_; raw] =>
      let? text := nt_String net raw in
      nt_ParseFloat net text
  | _ => Fail (Errorf "unexpected vector sample shape")
  end.

(** The greatest sample so far; NaN is left out. *)
Definition greater (best value : spec_float) : spec_float :=
  if IsNaN value then best else if SFltb best value then value else best.

Fixpoint greatest (best : spec_float) (samples : list (list string)) : result spec_float :=
  match samples with
  | [] => Ok best
  | sample :: samples =>
      let? value := sample_value sample in
      greatest (greater best value) samples
  end.

(** [response.value]. *)
Definition value (r : response) : result spec_float :=
  if String.eqb (rs_ResultType r) "scalar" then
    let? result := nt_Scalar net (rs_Result r) in
    match result with
    | [_; Some text] => nt_ParseFloat net text
    | [_; None] => Fail (Errorf "unexpected scalar value type")
    | _ => Fail (Errorf "unexpected scalar result shape")
    end
  else if String.eqb (rs_ResultType r) "vector" then
    let? result := nt_Vector net (rs_Result r) in
    match result with
    | [] => Fail (Errorf "empty vector result")
    | _ =>
        let? best := greatest minus_infinity result in
        if IsInf_minus best then Fail (Errorf "vector result has no numeric samples") else Ok best
    end
  else Fail (Errorf ("unsupported result type " +:+ quote (rs_ResultType r))).

Definition bearer (token : string) : option string :=
  let token := TrimSpace token in if String.eqb token "" then None else Some ("Bearer " +:+ token).

Definition QueryInstant (c : prometheus_client) (query : string) : result spec_float :=
  if String.eqb (TrimSpace (pc_BaseURL c)) "" then Fail (Errorf "base url is required")
  else
    let? endpoint := nt_Endpoint net (trim_slashes (pc_BaseURL c) +:+ "/api/v1/query") query in
    match nt_NewRequest net endpoint with
    | Some err => Fail err
    | None =>
        let? answer := nt_Do net endpoint (bearer (pc_BearerToken c)) in
        let? body := answer.2 in
        let? payload := nt_Response net body in
        if negb (String.eqb (rs_Status payload) "success") then
          if negb (String.eqb (rs_Error payload) "")
          then Fail (Errorf ("prometheus query failed: " +:+ rs_Error payload +:+ " (" +:+ rs_ErrorType payload +:+ ")"))
          else Fail (Errorf ("prometheus query failed: " +:+ answer.1))
        else value payload
    end.
End Client.
End PromClient.

(** ** Providers *)

Module Provider.

Record Net := {
  nt_NewRequest : string → option error;
  (* the URL and the Authorization header: a status and at most 8 kB of the body *)
  nt_Do : string → option string → result (Z * string);
  (* the first JSON value of a body, as a snapshot *)
  nt_Decode : string → result provider_snapshot;
  (* a decimal number *)
  nt_Itoa : Z → string;
}.

Definition DecodeSnapshot (net : Net) (body source : string) : result provider_snapshot :=
  let? payload := nt_Decode net body in
  Ok (if String.eqb (ps_Source payload) "" then { payload with ps_Source := source } else payload).

Definition Snapshot (net : Net) (request : provider_request) : result provider_snapshot :=
  match nt_NewRequest net (pq_URL request) with
  | Some err => Fail err
  | None =>
      let? answer := nt_Do net (pq_URL request) (PromClient.bearer (pq_Token request)) in
      let '(status, body) := answer in
      if (status <? 200) || (300 <=? status)
      then Fail (Errorf ("provider query failed with status " +:+ nt_Itoa net status +:+ ": " +:+ TrimSpace body))
      else DecodeSnapshot net body (pq_Source request)
  end.

(** NewHTTPClient. *)
Definition client_timeout (timeout : Duration) : Duration := if timeout <=? 0 then 5 * Second else timeout.
End Provider.

(** ** The highest sample *)

Section Highest.
Import PromClient.
Context (net : Net).

Lemma key_not_ltb a b c : key_ltb a b = false → key_ltb a c = true → key_ltb c b = false.
Proof. unfold key_ltb. destruct a as [[a1 a2] a3], b as [[b1 b2] b3], c as [[c1 c2] c3]. cbn. lia. Qed.

Lemma key_irrefl a : key_ltb a a = false.
Proof. unfold key_ltb. lia. Qed.

Lemma key_asym a b : key_ltb a b = true → key_ltb b a = false.
Proof. unfold key_ltb. destruct a as [[a1 a2] a3], b as [[b1 b2] b3]. cbn. lia. Qed.

Lemma greater_spec best v : IsNaN best = false →
  IsNaN (greater best v) = false ∧ (greater best v = best ∨ greater best v = v) ∧
  SFltb (greater best v) best = false ∧ (IsNaN v = true ∨ SFltb (greater best v) v = false).
Proof.
  intros Hb. unfold greater. destruct (IsNaN v) eqn:Hv; [split_and!; [done|by left|by rewrite SFltb_key by done; apply key_irrefl|by left]|].
  destruct (SFltb best v) eqn:Hlt.
  - split_and!; [done|by right|rewrite SFltb_key in * by done; by apply key_asym|right; rewrite SFltb_key by done; apply key_irrefl].
  - split_and!; [done|by left|by rewrite SFltb_key by done; apply key_irrefl|by right].
Qed.

Lemma not_below a b c : IsNaN a = false → IsNaN b = false → IsNaN c = false → SFltb b a = false → SFltb c b = false → SFltb c a = false.
Proof.
  intros Ha Hb Hc. rewrite !SFltb_key by done. unfold key_ltb. destruct (fkey a) as [[a1 a2] a3], (fkey b) as [[b1 b2] b3], (fkey c) as [[c1 c2] c3]. cbn. lia.
Qed.

Lemma greatest_spec samples : ∀ best out, IsNaN best = false → greatest net best samples = Ok out →
  IsNaN out = false ∧ (out = best ∨ ∃ sample, sample ∈ samples ∧ sample_value net sample = Ok out) ∧ SFltb out best = false ∧
  ∀ sample, sample ∈ samples → ∃ v, sample_value net sample = Ok v ∧ (IsNaN v = true ∨ SFltb out v = false).
Proof.
  induction samples as [|sample samples IH]; intros best out Hb; cbn [greatest].
  { intros [= <-]. split_and!; [done|by left|by rewrite SFltb_key by done; apply key_irrefl|by intros ? ?%elem_of_nil]. }
  destruct (sample_value net sample) as [v|] eqn:Hv; cbn; [|done]. intros Hout. destruct (greater_spec best v Hb) as (Hn & Hwho & Hbest & Hge).
  destruct (IH _ _ Hn Hout) as (Ho & Hsrc & Hover & Hall). split_and!; [done| |by apply (not_below _ (greater best v))|].
  - destruct Hsrc as [->|(t & Ht & Hs)]; [|right; exists t; split; [by right|done]]. destruct Hwho as [->| ->]; [by left|].
    right. exists sample. split; [by left|done].
  - intros t [->|Ht]%elem_of_cons; [|by apply Hall]. exists v. split; [done|]. destruct (IsNaN v) eqn:Hnan; [by left|right].
    destruct Hge as [?|Hge]; [done|]. by apply (not_below _ (greater best v)).
Qed.

(** A vector gives the greatest of its samples, whatever their order, so that a second series does not hide the
    usage of the first; a sample that is not a number is left out, one that is malformed fails the query. *)
Theorem query_takes_the_highest_sample r samples out :
  rs_ResultType r = "vector" → nt_Vector net (rs_Result r) = Ok samples → value net r = Ok out →
  (∃ sample, sample ∈ samples ∧ sample_value net sample = Ok out) ∧
  ∀ sample, sample ∈ samples → ∃ v, sample_value net sample = Ok v ∧ (IsNaN v = true ∨ SFltb out v = false).
Proof.
  intros Ht Hs. unfold value. rewrite Ht. cbn. rewrite Hs. cbn. destruct samples as [|s0 samples]; [done|].
  destruct (greatest net minus_infinity (s0 :: samples)) as [best|] eqn:Hg; cbn; [|done]. destruct (IsInf_minus best) eqn:Hinf; [done|]. intros [= <-].
  destruct (greatest_spec _ minus_infinity best eq_refl Hg) as (_ & [->|Hsrc] & _ & Hall); [done|]. by split.
Qed.
End Highest.
